(* ===== verification/_CoqProject ===== *)
-Q . S2P
Prelude.v
Containers.v
Uint256.v
Bignum.v
Crypto.v
Ramhog.v
RamhogPool.v
Script.v
Interpreter.v
Serialize.v
Tx.v
Util.v
TxInfo.v
Coins.v
Base58.v
Signature.v
Key.v
Solver.v
KeyStore.v
Work.v
Block.v
BlockIndex.v
SignedHash.v
Kernel.v
Ledger.v
MerkleTx.v
Wallet.v
KeyPool.v
Passphrase.v
WalletOps.v
WalletCache.v
CoinSelect.v
ConnectBlock.v
BlockFile.v
Mempool.v
Spend.v
Stake.v
Commit.v
NetAddr.v
Framing.v
AddrMan.v
Alert.v
Chain.v
Reorg.v
Checkpoints.v
Accept.v
Miner.v
Sync.v
