(* ===== verification/Prelude.v ===== *)
(** * ShinyCoin: a verification library for the node's core

    ShinyCoin is a proof-of-work and proof-of-stake currency node written in
    C++ (src/src).  A node receives transactions and blocks, checks them, keeps
    the best chain with its ledger, and signs and creates transactions.  This
    library models the code that decides what is valid, what is stored and what
    is spent, and proves the properties that make it correct.

    ** The parts of the program and the files that model them

    Arithmetic and bytes
    - [Prelude] (this file): machine integers, counted loops, arrays, byte
      blocks; the tactics, hints and lemmas every file shares.
    - [Containers]: mruset.h and CMedianFilter (util.h).
    - [Uint256]: uint256.h, every operator on limbs.
    - [Bignum]: bignum.h, CBigNum over an interface [BNLib] to OpenSSL BIGNUM.
    - [Crypto]: Hash and Hash160 (util.h, main.h) over the interface [DigestLib].
    - [Serialize]: serialize.h, the codecs and CDataStream.  The interface
      [Stream] with its laws is what a codec may use of a stream, so the round
      trips are proved once and hold for byte strings and CDataStream alike.
    - [Util]: util.cpp, the text forms of numbers, money, hex, base64.
    - [Base58]: base58.h, addresses and secrets as text.
    Proof of work
    - [Ramhog], [RamhogPool]: hashblock/, the memory-hard hash (sequential and
      threaded) and the pool of scratchpads as a step relation.
    - [SignedHash]: signedhash.cpp, the cache of signed proof-of-work hashes.
    Scripts and transactions
    - [Script], [Interpreter], [Solver]: script.h and script.cpp: decoding, the
      EvalScript loop, the standard scripts, signing and VerifyScript.
    - [Signature]: SignatureHash, CSignatureCache, CheckSig, with OpenSSL EC as
      the interface [ECLib].
    - [Tx]: CTransaction with its codec and CheckTransaction (main.h, main.cpp).
    - [TxInfo]: txinfo.cpp, the table of information entries.
    The ledger
    - [Coins]: the abstract ledger, a map from transactions to the flags of
      their spent outputs, with no index, no files and no caches.
    - [Ledger]: FetchInputs, ConnectInputs, DisconnectInputs, coin age and
      CheckProofOfStake on the records of the transaction database.
    - [Block], [BlockIndex], [BlockFile]: CBlock, CBlockIndex, CBlockLocator,
      the block files byte by byte.
    - [Work], [Kernel]: retargeting, rewards (main.cpp) and kernel.cpp.
    - [ConnectBlock], [Mempool], [Chain], [Reorg]: ConnectBlock and
      DisconnectBlock, CTxMemPool and the orphan transactions, the state of
      the chain, Reorganize, SetBestChain and AddToBlockIndex.
    - [Checkpoints], [Accept], [Sync]: checkpoints.cpp, AcceptBlock and
      ProcessBlock, and the step relation of a node that receives blocks and
      checkpoint messages.
    - [Miner]: CreateNewBlock, IncrementExtraNonce, the hash buffers and
      CheckWork (main.cpp).
    The wallet
    - [Key], [KeyStore]: key.h, key.cpp and keystore.cpp: CKey with its compact
      signatures, CBasicKeyStore and CCryptoKeyStore.
    - [MerkleTx], [Wallet], [WalletCache]: CMerkleTx (main.h, main.cpp), CWallet
      and CWalletTx (wallet.h, wallet.cpp) with AddToWallet, the balances and
      the cached credits and debits.
    - [KeyPool], [Passphrase], [WalletOps]: the pool of keys, crypter.cpp with
      EncryptWallet, Unlock and ChangeWalletPassphrase, and the remaining
      operations of CWallet, FixSpentCoins among them.
    - [CoinSelect], [Spend], [Stake], [Commit]: SelectCoins, CreateTransaction,
      CreateCoinStake, CommitTransaction and SendMoney.
    The network
    - [NetAddr]: netbase.cpp and protocol.cpp: CNetAddr, its groups and
      reachability, CService and CMessageHeader.
    - [Framing]: the messages in the buffers of a peer: BeginMessage, EndMessage
      and PushMessage of net.h, and the loop of ProcessMessages of main.cpp.
    - [AddrMan]: addrman.cpp, the tables of known addresses.
    - [Alert]: alert.h and alert.cpp, the signed alerts and the warnings shown.

    ** Correspondence

    A class is a Record with the class's members (only prefixed where two
    classes share a name), a method a function from the object and arguments to
    the result and the changed object.  Integers are [Z] with the wrap-around of
    their width written out ([u32], [i64], ...).  An exception is [None]; a
    failure that carries a misbehaviour score is a value with the score.  Global
    variables are fields of the state a function is given ([ChainState],
    [node_state]) or, when a function only reads them, parameters.  Doubles are
    the IEEE values of SpecFloat.  std::map and std::set are [gmap], or ordered
    lists where their order is observable.

    Third-party code is a parameter with its documented behaviour as a class of
    laws: [BNLib]/[BNLaws] (BIGNUM), [DigestLib]/[DigestLaws] (SHA-256,
    RIPEMD-160: only lengths), [ECLib] (elliptic curves, no law needed),
    [ECGroup]/[ECGroupLaws] (the curve's group and ECDSA, for the keys),
    [EVPLib]/[EVPLaws] (AES and the key derivation), [Abi] (the sizes of
    classes).  Reference instances show each class can hold.  Random numbers
    and the clock are arguments, so a theorem holds for every draw.

    ** What the theorems show

    The money: ConnectInputs spends distinct unspent outputs and refines the
    abstract ledger of [Coins]; ConnectBlock creates at most the reward;
    disconnecting undoes connecting; SetBestChain keeps the database equal to
    the replay of the best chain, and a failure changes nothing.  The memory
    pool indexes exactly the inputs of its transactions.  The chain: the
    synchronized checkpoint stays in the best chain over every sequence of
    blocks and messages; orphan blocks are kept consistent and none is left
    behind; a reorganization finds the fork; a new block holds transactions of
    the pool that connect in order, pays itself exactly the fees and the reward,
    and passes the rules for a block after the best one.  Scripts: every script ends within
    bounds, standard outputs are spent exactly by the right keys, the signature
    cache changes no answer.  The base: serialization and text round trips,
    limb arithmetic modulo 2^n, the hash is schedule independent, the pool of
    scratchpads never deadlocks.  The wallet: a transaction the wallet creates
    pays what was asked, spends only available coins, returns the change and
    leaves the promised fee; the stake it signs is a valid kernel; SendMoney
    files the payment and marks its coins; the key stores refine a map from
    addresses to keys; an encrypted wallet opens with its passphrase, and a
    changed passphrase replaces the old one; a reserved key is given to one user.
    The network: messages arrive as they were sent, however their bytes are cut,
    and no bytes stop the receiver; the address manager keeps its tables,
    counters and reference counts consistent over every operation; addresses are
    grouped by the network they are in; the alerts that are kept are signed and
    none cancels another.  Behaviours the comments do not promise are theorems
    too: the wrapping sum of outputs, blocks with information entries
    that can not be disconnected, the pads that are not used, the index of a
    key pool entry that is used again ([keypool_index_reused]), the debit that
    is cached too long ([debit_cache_stale]), the information transaction whose
    inputs are not signed for ([info_inputs_broken]), the tried address that
    SelectTried does not see ([SelectTried_misses]), the transactions that are
    in a new block twice ([retry_repeats]), the warning that a less important one
    hides ([own_warning_lowered]).

    ** Fuel and bounds

    A loop that is not structural has fuel, with a theorem or a bound that it
    is enough: EvalScript has one round per byte of script; the walks over the
    block index (the fork, the locator, the modifiers) have one round per entry
    of the index; the search for a block file one per file; the queue of
    ProcessBlock one per waiting block plus one; LimitOrphanTxSize one per
    orphan; decimal printing 20 digits.  The fee of CreateTransaction
    grows in every round that is repeated, which bounds the rounds.  Select_ of
    the address manager draws until a chance accepts, which nothing bounds: the
    number of draws is an argument, and more draws give the same answer.  The
    identifiers of the address manager are ints, so its theorems assume fewer
    than 2^31 addresses were ever added.  Heights are ints, so the chain theorems
    assume fewer than 2^31 entries.

    ** Not modelled

    The graphical interface, the RPC server and the start-up code; sockets,
    threads, peers and what each of their messages does; Berkeley DB and SQLite
    (their tables are maps) with the reading and writing of
    peers.dat; OpenSSL and the DER forms of its keys; signing with the master
    keys of the checkpoint and signed hash servers; the threads that mine. *)

From stdpp Require Export base list numbers option strings.
From Stdlib Require Export ZArith Lia.

#[global] Open Scope Z_scope.

(** ** Machine integers

    An n-bit unsigned C++ value is a [Z] in [0, 2^n); the functions below are
    the conversions the language performs on assignment. *)

Definition u8 (x : Z) : Z := x mod 2 ^ 8.
Definition u32 (x : Z) : Z := x mod 2 ^ 32.
Definition u64 (x : Z) : Z := x mod 2 ^ 64.
Definition swrap (n : Z) (x : Z) : Z := (x + 2 ^ (n - 1)) mod 2 ^ n - 2 ^ (n - 1).
Definition i32 (x : Z) : Z := swrap 32 x.
Definition i64 (x : Z) : Z := swrap 64 x.

(** ** Counted loops: [for (i = lo; i < lo + cnt; i++) s = f(i, s)] *)

Fixpoint for_up {S : Type} (lo cnt : nat) (f : nat -> S -> S) (s : S) : S :=
  match cnt with
  | O => s
  | Datatypes.S c => for_up (Datatypes.S lo) c f (f lo s)
  end.

(** Reading an array cell; out of range reads give 0 (the models below only
    read in range). *)
Definition rd (l : list Z) (i : nat) : Z := default 0 (l !! i).

(** ** Bytes and strings

    A [std::string], a [std::vector<unsigned char>] and a raw memory block are
    lists of byte values. *)

Definition str (s : String.string) : list Z :=
  map (fun c => Z.of_N (Ascii.N_of_ascii c)) (String.list_ascii_of_string s).

(** The value of a little-endian byte block, and the [n]-byte block of a value. *)
Fixpoint le_val (bs : list Z) : Z :=
  match bs with
  | [] => 0
  | b :: r => b + 256 * le_val r
  end.

Fixpoint le_bytes (n : nat) (x : Z) : list Z :=
  match n with
  | O => []
  | S m => x mod 256 :: le_bytes m (x / 256)
  end.

(** The value of a digit string, most significant digit first. *)
Definition digits_val (base : Z) (ds : list Z) : Z :=
  fold_left (fun acc d => acc * base + d) ds 0.

Definition is_byte (b : Z) : Prop := 0 <= b < 256.

(** ** Tactics and hints *)

Create HintDb shiny discriminated.

(** Case analysis on every boolean test of the goal. *)
Ltac case_bool :=
  match goal with
  | |- context [if ?b then _ else _] => destruct b eqn:?
  end.

Ltac bool_to_prop :=
  repeat match goal with
  | H : (_ <? _) = true |- _ => apply Z.ltb_lt in H
  | H : (_ <? _) = false |- _ => apply Z.ltb_ge in H
  | H : (_ <=? _) = true |- _ => apply Z.leb_le in H
  | H : (_ <=? _) = false |- _ => apply Z.leb_gt in H
  | H : (_ =? _) = true |- _ => apply Z.eqb_eq in H
  | H : (_ =? _) = false |- _ => apply Z.eqb_neq in H
  | H : (_ && _) = true |- _ => apply andb_true_iff in H; destruct H
  | H : (_ || _) = false |- _ => apply orb_false_iff in H; destruct H
  | H : negb _ = true |- _ => apply negb_true_iff in H
  | H : negb _ = false |- _ => apply negb_false_iff in H
  end.

(** ** Lemmas on loops *)

Lemma for_up_inv {S : Type} (P : nat -> S -> Prop) f cnt : forall lo s,
  P lo s ->
  (forall j s, (lo <= j < lo + cnt)%nat -> P j s -> P (Datatypes.S j) (f j s)) ->
  P (lo + cnt)%nat (for_up lo cnt f s).
Proof.
  induction cnt as [|c IH]; intros lo s H0 Hstep; simpl.
  - by rewrite Nat.add_0_r.
  - replace (lo + Datatypes.S c)%nat with (Datatypes.S lo + c)%nat by lia.
    apply IH.
    + apply Hstep; [lia|done].
    + intros j s' Hj. apply Hstep. lia.
Qed.

Lemma for_up_ext {S : Type} (f g : nat -> S -> S) cnt : forall lo s,
  (forall i s, (lo <= i < lo + cnt)%nat -> f i s = g i s) ->
  for_up lo cnt f s = for_up lo cnt g s.
Proof.
  induction cnt as [|c IH]; intros lo s H; simpl; [done|].
  rewrite H by lia. apply IH. intros i s' Hi. apply H. lia.
Qed.

(** ** Lemmas on machine integers *)

Lemma u8_range x : 0 <= u8 x < 2 ^ 8.
Proof. apply Z.mod_pos_bound. lia. Qed.

Lemma u32_range x : 0 <= u32 x < 2 ^ 32.
Proof. apply Z.mod_pos_bound. lia. Qed.

Lemma u64_range x : 0 <= u64 x < 2 ^ 64.
Proof. apply Z.mod_pos_bound. lia. Qed.

Lemma u8_small x : 0 <= x < 2 ^ 8 -> u8 x = x.
Proof. apply Z.mod_small. Qed.

Lemma u32_small x : 0 <= x < 2 ^ 32 -> u32 x = x.
Proof. apply Z.mod_small. Qed.

Lemma u64_small x : 0 <= x < 2 ^ 64 -> u64 x = x.
Proof. apply Z.mod_small. Qed.

Lemma swrap_small n x : 0 < n -> - 2 ^ (n - 1) <= x < 2 ^ (n - 1) -> swrap n x = x.
Proof.
  intros Hn Hx. unfold swrap.
  assert (2 ^ n = 2 * 2 ^ (n - 1)) as E.
  { rewrite <- Z.pow_succ_r by lia. f_equal. lia. }
  rewrite Z.mod_small; lia.
Qed.

Lemma i32_small x : - 2 ^ 31 <= x < 2 ^ 31 -> i32 x = x.
Proof. apply (swrap_small 32). lia. Qed.

Lemma i64_small x : - 2 ^ 63 <= x < 2 ^ 63 -> i64 x = x.
Proof. apply (swrap_small 64). lia. Qed.

Lemma i64_add_l a b : i64 (i64 a + b) = i64 (a + b).
Proof.
  unfold i64, swrap. replace (((a + 2 ^ (64 - 1)) mod 2 ^ 64 - 2 ^ (64 - 1)) + b + 2 ^ (64 - 1))
    with ((a + 2 ^ (64 - 1)) mod 2 ^ 64 + b) by lia.
  rewrite Zplus_mod_idemp_l. do 2 f_equal. lia.
Qed.


Lemma i64_add_r a b : i64 (a + i64 b) = i64 (a + b).
Proof. rewrite Z.add_comm, i64_add_l. f_equal. lia. Qed.

Lemma i64_i64 x : i64 (i64 x) = i64 x.
Proof. pose proof (i64_add_l x 0) as H. by rewrite !Z.add_0_r in H. Qed.

Lemma swrap_range n x : 0 < n -> - 2 ^ (n - 1) <= swrap n x < 2 ^ (n - 1).
Proof.
  intros Hn. unfold swrap.
  assert (2 ^ n = 2 * 2 ^ (n - 1)) as E.
  { rewrite <- Z.pow_succ_r by lia. f_equal. lia. }
  pose proof (Z.pow_pos_nonneg 2 (n - 1)).
  pose proof (Z.mod_pos_bound (x + 2 ^ (n - 1)) (2 ^ n)). lia.
Qed.

Lemma i64_range x : - 2 ^ 63 <= i64 x < 2 ^ 63.
Proof. apply (swrap_range 64). lia. Qed.

#[export] Hint Resolve u8_range u32_range u64_range i64_range : shiny.

(** ** Bits *)

Lemma testbit_high n a m : 0 <= n -> 0 <= a < 2 ^ n -> n <= m -> Z.testbit a m = false.
Proof.
  intros Hn Ha Hm. rewrite <- (Z.mod_small a (2 ^ n)) by done.
  apply Z.mod_pow2_bits_high. lia.
Qed.

Lemma testbit_mod_pow2 a n m :
  0 <= n -> Z.testbit (a mod 2 ^ n) m = (m <? n) && Z.testbit a m.
Proof.
  intros Hn. destruct (Z.ltb_spec m n).
  - by apply Z.mod_pow2_bits_low.
  - apply Z.mod_pow2_bits_high. lia.
Qed.

Lemma land_range n a b : 0 <= n -> 0 <= a < 2 ^ n -> 0 <= b < 2 ^ n -> 0 <= Z.land a b < 2 ^ n.
Proof.
  intros Hn Ha Hb. replace (Z.land a b) with (Z.land a b mod 2 ^ n).
  { apply Z.mod_pos_bound. lia. }
  apply Z.bits_inj'. intros m Hm.
  rewrite testbit_mod_pow2, Z.land_spec by done.
  destruct (Z.ltb_spec m n); [done|].
  by rewrite (testbit_high n a).
Qed.

Lemma lor_range n a b : 0 <= n -> 0 <= a < 2 ^ n -> 0 <= b < 2 ^ n -> 0 <= Z.lor a b < 2 ^ n.
Proof.
  intros Hn Ha Hb. replace (Z.lor a b) with (Z.lor a b mod 2 ^ n).
  { apply Z.mod_pos_bound. lia. }
  apply Z.bits_inj'. intros m Hm.
  rewrite testbit_mod_pow2, Z.lor_spec by done.
  destruct (Z.ltb_spec m n); [done|].
  by rewrite (testbit_high n a), (testbit_high n b).
Qed.

Lemma lxor_range n a b : 0 <= n -> 0 <= a < 2 ^ n -> 0 <= b < 2 ^ n -> 0 <= Z.lxor a b < 2 ^ n.
Proof.
  intros Hn Ha Hb. replace (Z.lxor a b) with (Z.lxor a b mod 2 ^ n).
  { apply Z.mod_pos_bound. lia. }
  apply Z.bits_inj'. intros m Hm.
  rewrite testbit_mod_pow2, Z.lxor_spec by done.
  destruct (Z.ltb_spec m n); [done|].
  by rewrite (testbit_high n a), (testbit_high n b).
Qed.

(** ** Array reads and writes *)

Lemma rd_insert_eq l i x : (i < length l)%nat -> rd (<[i := x]> l) i = x.
Proof. intros H. unfold rd. by rewrite list_lookup_insert_eq. Qed.

Lemma rd_insert_ne l i j x : i <> j -> rd (<[i := x]> l) j = rd l j.
Proof. intros H. unfold rd. by rewrite list_lookup_insert_ne. Qed.

Lemma rd_insert l i j x :
  (i < length l)%nat -> rd (<[i := x]> l) j = if decide (i = j) then x else rd l j.
Proof. intros H. case_decide; subst; [by apply rd_insert_eq|by apply rd_insert_ne]. Qed.

Lemma rd_ge l i : (length l <= i)%nat -> rd l i = 0.
Proof. intros H. unfold rd. by rewrite lookup_ge_None_2. Qed.

Lemma rd_replicate n i x : (i < n)%nat -> rd (replicate n x) i = x.
Proof. intros H. unfold rd. by rewrite lookup_replicate_2. Qed.

Lemma rd_ext l1 l2 :
  length l1 = length l2 -> (forall i, (i < length l1)%nat -> rd l1 i = rd l2 i) -> l1 = l2.
Proof.
  intros Hlen H. apply list_eq. intros i.
  destruct (decide (i < length l1)%nat) as [Hi|Hi].
  - specialize (H i Hi). unfold rd in H.
    destruct (lookup_lt_is_Some_2 l1 i Hi) as [x Hx].
    destruct (lookup_lt_is_Some_2 l2 i) as [y Hy]; [lia|].
    rewrite Hx, Hy in *. simpl in H. by subst.
  - rewrite !lookup_ge_None_2 by lia. done.
Qed.

(** ** Bits of a number written in base 2^k *)

Lemma testbit_add_shift lo hi k m :
  0 <= k -> 0 <= lo < 2 ^ k -> 0 <= m ->
  Z.testbit (lo + hi * 2 ^ k) m =
    if m <? k then Z.testbit lo m else Z.testbit hi (m - k).
Proof.
  intros Hk Hlo Hm. destruct (Z.ltb_spec m k) as [H|H].
  - rewrite <- (Z.mod_pow2_bits_low _ k m) by lia.
    by rewrite Z.mod_add, Z.mod_small by lia.
  - replace m with ((m - k) + k) at 1 by lia.
    rewrite <- Z.div_pow2_bits by lia.
    rewrite Z.div_add, Z.div_small by lia. f_equal.
Qed.

(** ** Little-endian blocks *)

Lemma length_le_bytes n : forall x, length (le_bytes n x) = n.
Proof. induction n; intros; simpl; auto. Qed.

Lemma le_bytes_is_byte n : forall x, Forall is_byte (le_bytes n x).
Proof.
  induction n; intros; simpl; constructor; auto.
  apply Z.mod_pos_bound. lia.
Qed.

Lemma le_val_range bs : Forall is_byte bs -> 0 <= le_val bs < 256 ^ Z.of_nat (length bs).
Proof.
  induction 1 as [|b r Hb Hr IH]; [simpl; lia|].
  cbn [length le_val]. rewrite Nat2Z.inj_succ, Z.pow_succ_r by lia.
  unfold is_byte in Hb. nia.
Qed.

Lemma le_val_le_bytes n : forall x, le_val (le_bytes n x) = x mod 256 ^ Z.of_nat n.
Proof.
  induction n as [|n IH]; intros x; [by rewrite Z.mod_1_r|].
  cbn [le_bytes le_val]. rewrite IH, Nat2Z.inj_succ, Z.pow_succ_r by lia.
  rewrite Z.rem_mul_r by lia. done.
Qed.

Lemma le_bytes_le_val bs : Forall is_byte bs -> le_bytes (length bs) (le_val bs) = bs.
Proof.
  induction 1 as [|b r Hb Hr IH]; [done|]. unfold is_byte in Hb.
  cbn [length le_val le_bytes]. rewrite Z.mul_comm.
  rewrite Z.mod_add, Z.mod_small by lia.
  by rewrite Z.div_add, Z.div_small, Z.add_0_l, IH by lia.
Qed.

Lemma le_val_app l1 l2 : le_val (l1 ++ l2) = le_val l1 + 256 ^ Z.of_nat (length l1) * le_val l2.
Proof.
  induction l1 as [|b r IH]; [simpl; lia|].
  cbn [length le_val app]. rewrite IH, Nat2Z.inj_succ, Z.pow_succ_r by lia. ring.
Qed.

Lemma le_val_zeros n : le_val (replicate n 0) = 0.
Proof. induction n as [|n IH]; simpl; [done|]. by rewrite IH. Qed.

Lemma le_val_inj l1 l2 :
  Forall is_byte l1 -> Forall is_byte l2 -> length l1 = length l2 ->
  le_val l1 = le_val l2 -> l1 = l2.
Proof.
  intros H1 H2 Hl Hv. rewrite <- (le_bytes_le_val l1), <- (le_bytes_le_val l2) by done.
  by rewrite Hl, Hv.
Qed.

(** ** Digit strings *)

Lemma digits_val_acc base ds : forall acc,
  fold_left (fun a d => a * base + d) ds acc =
    acc * base ^ Z.of_nat (length ds) + digits_val base ds.
Proof.
  unfold digits_val. induction ds as [|d ds IH]; intros acc; [simpl; lia|].
  cbn [fold_left length]. rewrite IH, (IH (0 * base + d)).
  rewrite Nat2Z.inj_succ, Z.pow_succ_r by lia. ring.
Qed.

Lemma digits_val_app base l1 l2 :
  digits_val base (l1 ++ l2) = digits_val base l1 * base ^ Z.of_nat (length l2) + digits_val base l2.
Proof. unfold digits_val at 1. by rewrite fold_left_app, digits_val_acc. Qed.

Lemma digits_val_cons base d l :
  digits_val base (d :: l) = d * base ^ Z.of_nat (length l) + digits_val base l.
Proof. apply (digits_val_app base [d] l). Qed.

Lemma digits_val_snoc base l d : digits_val base (l ++ [d]) = digits_val base l * base + d.
Proof. rewrite digits_val_app. unfold digits_val at 2. simpl. lia. Qed.

Lemma digits_val_range base l :
  0 < base -> Forall (fun d => 0 <= d < base) l ->
  0 <= digits_val base l < base ^ Z.of_nat (length l).
Proof.
  intros Hb. induction 1 as [|d r Hd Hr IH]; [done|].
  cbn [length]. rewrite digits_val_cons, Nat2Z.inj_succ, Z.pow_succ_r by lia. nia.
Qed.

(** ** Disjoint unions of bits *)

Lemma lor_shiftl_add lo hi k :
  0 <= k -> 0 <= lo < 2 ^ k -> Z.lor lo (Z.shiftl hi k) = lo + hi * 2 ^ k.
Proof.
  intros Hk Hlo. apply Z.bits_inj'. intros m Hm.
  rewrite testbit_add_shift, Z.lor_spec, Z.shiftl_spec by lia.
  destruct (Z.ltb_spec m k).
  - rewrite (Z.testbit_neg_r hi) by lia. apply orb_false_r.
  - by rewrite (testbit_high k lo) by lia.
Qed.

Lemma digits_val_zeros base n : digits_val base (replicate n 0) = 0.
Proof.
  induction n as [|n IH]; [done|]. cbn [replicate]. rewrite digits_val_cons, IH. lia.
Qed.

(** ** Writing in the middle of an array *)

Lemma list_insert_middle {A : Type} (pre : list A) x y l :
  <[length pre := x]> (pre ++ y :: l) = pre ++ x :: l.
Proof. by rewrite insert_app_r_alt, Nat.sub_diag by lia. Qed.

Lemma rd_app_mid pre x l : rd (pre ++ x :: l) (length pre) = x.
Proof. unfold rd. by rewrite lookup_app_r, Nat.sub_diag by lia. Qed.

(** ** Exhaustive checks on bytes *)

Lemma byte_forall (P : Z -> bool) :
  forallb P (seqZ 0 256) = true -> forall c, is_byte c -> P c = true.
Proof.
  intros H c Hc. rewrite forallb_forall in H. apply H.
  apply list_elem_of_In, elem_of_seqZ. unfold is_byte in Hc. lia.
Qed.

Lemma land_0x80 c : is_byte c -> Z.land c 0x80 = if 128 <=? c then 128 else 0.
Proof.
  intros Hc. apply Z.eqb_eq.
  by apply (byte_forall (fun c => Z.land c 0x80 =? if 128 <=? c then 128 else 0)).
Qed.

Lemma lor_0x80 c : is_byte c -> c < 128 -> Z.lor c 0x80 = c + 128.
Proof.
  intros Hc Hlt. pose proof (byte_forall
    (fun c => if c <? 128 then Z.lor c 0x80 =? c + 128 else true) eq_refl c Hc) as H.
  cbn beta in H. case_match; bool_to_prop; [done|lia].
Qed.

Lemma land_0xff x : Z.land x 0xff = x mod 256.
Proof. change 0xff with (Z.ones 8). by rewrite Z.land_ones. Qed.

Lemma land_0x7f x : Z.land x 0x7f = x mod 128.
Proof. change 0x7f with (Z.ones 7). by rewrite Z.land_ones. Qed.

(** ** Big-endian blocks *)

Definition be_bytes (n : nat) (x : Z) : list Z := rev (le_bytes n x).

Lemma le_bytes_snoc n : forall x, le_bytes (S n) x = le_bytes n x ++ [(x / 256 ^ Z.of_nat n) mod 256].
Proof.
  induction n as [|n IH]; intros x; [simpl; by rewrite Z.div_1_r|].
  change (le_bytes (S (S n)) x) with (x mod 256 :: le_bytes (S n) (x / 256)).
  rewrite IH. cbn [le_bytes app]. do 4 f_equal.
  rewrite Z.div_div by lia. f_equal. rewrite Nat2Z.inj_succ, Z.pow_succ_r by lia. lia.
Qed.

Lemma be_bytes_S n x : be_bytes (S n) x = (x / 256 ^ Z.of_nat n) mod 256 :: be_bytes n x.
Proof. unfold be_bytes. by rewrite le_bytes_snoc, rev_app_distr. Qed.

Lemma length_be_bytes n x : length (be_bytes n x) = n.
Proof. unfold be_bytes. by rewrite length_rev, length_le_bytes. Qed.

Lemma be_bytes_is_byte n x : Forall is_byte (be_bytes n x).
Proof. unfold be_bytes. apply Forall_rev, le_bytes_is_byte. Qed.

Lemma digits_val_rev bs : digits_val 256 (rev bs) = le_val bs.
Proof.
  induction bs as [|b bs IH]; [done|]. cbn [rev le_val]. rewrite digits_val_snoc, IH. lia.
Qed.

Lemma digits_val_be_bytes n x : digits_val 256 (be_bytes n x) = x mod 256 ^ Z.of_nat n.
Proof. unfold be_bytes. by rewrite digits_val_rev, le_val_le_bytes. Qed.

Lemma be_bytes_digits_val bs : Forall is_byte bs -> be_bytes (length bs) (digits_val 256 bs) = bs.
Proof.
  intros H. rewrite <- (rev_involutive bs) at 2. rewrite digits_val_rev. unfold be_bytes.
  rewrite <- length_rev, le_bytes_le_val by (by apply Forall_rev). apply rev_involutive.
Qed.

Lemma be_bytes_mod n x : be_bytes n (x mod 256 ^ Z.of_nat n) = be_bytes n x.
Proof.
  rewrite <- (be_bytes_digits_val (be_bytes n x)) by apply be_bytes_is_byte.
  by rewrite length_be_bytes, digits_val_be_bytes.
Qed.

(** Pairs with [256 ^ k] as powers of 2. *)
Lemma pow256 k : 0 <= k -> 256 ^ k = 2 ^ (8 * k).
Proof. intros. change 256 with (2 ^ 8). by rewrite <- Z.pow_mul_r. Qed.

Lemma reverse_rev_lookup {A : Type} (l : list A) i :
  (i < length l)%nat -> rev l !! i = l !! (length l - 1 - i)%nat.
Proof.
  intros Hi. rewrite rev_alt. change (rev_append l []) with (reverse l).
  rewrite reverse_lookup by done. f_equal. lia.
Qed.

Lemma lor_add_low a k b :
  0 <= k -> 0 <= b < 2 ^ k -> Z.lor (a * 2 ^ k) b = a * 2 ^ k + b.
Proof.
  intros Hk Hb. rewrite Z.lor_comm, <- Z.shiftl_mul_pow2, lor_shiftl_add by lia.
  rewrite Z.shiftl_mul_pow2 by lia. lia.
Qed.

Lemma rd_be_bytes n x i :
  (i < n)%nat -> rd (be_bytes n x) i = (x / 256 ^ Z.of_nat (n - 1 - i)) mod 256.
Proof.
  revert i. induction n as [|n IH]; intros i Hi; [lia|]. rewrite be_bytes_S.
  destruct i as [|i].
  - unfold rd. simpl. by replace (n - 0 - 0)%nat with n by lia.
  - change (rd (?b :: ?l) (S i)) with (rd l i). rewrite IH by lia. do 4 f_equal. lia.
Qed.
