(* ===== verification/Containers.v ===== *)
(** * Small containers (src/src/mruset.h, src/src/util.h)

    The set that keeps the most recent elements and the median filter over a
    sliding window.  A std::set is a [gset], a std::deque the list of its
    elements from front to back. *)

From stdpp Require Import gmap sorting.
From S2P Require Import Prelude.

(** ** Maps in the order of their keys

    An iteration over a std::map visits the entries in increasing order. *)
Definition in_order {K A : Type} `{Countable K} (le : K -> K -> bool) (m : gmap K A) : list (K * A) :=
  merge_sort (fun p q => Is_true (le p.1 q.1)) (map_to_list m).

Lemma in_order_perm {K A : Type} `{Countable K} (le : K -> K -> bool) (m : gmap K A) :
  in_order le m ≡ₚ map_to_list m.
Proof. apply merge_sort_Permutation. Qed.

Lemma elem_of_in_order {K A : Type} `{Countable K} (le : K -> K -> bool) (m : gmap K A) k x :
  (k, x) ∈ in_order le m <-> m !! k = Some x.
Proof. by rewrite in_order_perm, elem_of_map_to_list. Qed.

Lemma in_order_empty {K A : Type} `{Countable K} (le : K -> K -> bool) (m : gmap K A) :
  in_order le m = [] <-> m = ∅.
Proof.
  split; intros Hm.
  - apply map_to_list_empty_iff. apply Permutation_nil. by rewrite <- Hm, in_order_perm.
  - subst. apply Permutation_nil. by rewrite in_order_perm, map_to_list_empty.
Qed.

(** Exchanging two entries of an array. *)
Lemma swap_entries_perm {A : Type} (l : list A) i j a b : l !! i = Some a -> l !! j = Some b -> <[i := b]> (<[j := a]> l) ≡ₚ l.
Proof.
  intros Hi Hj.
  pose proof (lookup_lt_Some _ _ _ Hi). pose proof (lookup_lt_Some _ _ _ Hj).
  apply Permutation_inj. split; [by rewrite !length_insert|].
  exists (fun k => if decide (k = i) then j else if decide (k = j) then i else k). split.
  - intros x y. repeat case_decide; congruence.
  - intros k. case_decide as Hk; [subst; by rewrite list_lookup_insert_eq by (by rewrite length_insert)|].
    rewrite list_lookup_insert_ne by done. case_decide as Hk'; [subst; by rewrite list_lookup_insert_eq|]. by rewrite list_lookup_insert_ne.
Qed.

(** ** The median of a list *)

Lemma filter_none_length {A} (P : A -> Prop) `{!forall x, Decision (P x)} l :
  Forall (fun x => ~ P x) l -> length (filter P l) = 0%nat.
Proof. induction 1 as [|x l Hx _ IH]; [done|]. rewrite filter_cons_False; done. Qed.

Lemma sorted_split_bounds (l1 l2 : list Z) m :
  StronglySorted Z.le (l1 ++ m :: l2) -> Forall (fun x => x <= m) l1 /\ Forall (fun x => m <= x) l2.
Proof.
  induction l1 as [|x l1 IH]; cbn; intros H; inversion H as [|? ? H1 H2]; subst; [done|].
  destruct (IH H1) as [Ha Hb]. split; [|done]. constructor; [|done].
  rewrite Forall_app in H2. destruct H2 as [_ H2]. by inversion H2.
Qed.

Lemma median_spec (ts : list Z) :
  ts <> [] ->
  let s := merge_sort Z.le ts in
  let m := rd s (length s / 2) in
  m ∈ ts /\ (2 * length (filter (fun x => (x < m)%Z) ts) <= length ts)%nat /\
  (2 * length (filter (fun x => (m < x)%Z) ts) <= length ts)%nat.
Proof.
  intros Hne s m.
  assert (s ≡ₚ ts) as Hp by apply merge_sort_Permutation.
  assert (StronglySorted Z.le s) as Hs by (apply StronglySorted_merge_sort; [apply _|intros x y; lia]).
  assert (length s = length ts) as Hlen by (by rewrite Hp).
  assert (length s / 2 < length s)%nat as Hk.
  { apply Nat.div_lt; [|lia]. destruct ts; [done|simpl in Hlen; lia]. }
  assert (s !! (length s / 2)%nat = Some m) as Em.
  { destruct (lookup_lt_is_Some_2 s (length s / 2) Hk) as [x E]. unfold m, rd. by rewrite E. }
  pose proof (take_drop_middle _ _ _ Em) as Es.
  set (k := (length s / 2)%nat) in *. rewrite <- Es in Hs. apply sorted_split_bounds in Hs as [H1 H2].
  assert (length (take k s) = k) as Hl1 by (rewrite length_take; lia).
  assert (length (drop (S k) s) = length s - S k)%nat as Hl2 by (by rewrite length_drop).
  assert (2 * k <= length s /\ length s < 2 * k + 2)%nat as Hk2.
  { unfold k. pose proof (Nat.div_mod (length s) 2). pose proof (Nat.mod_upper_bound (length s) 2). lia. }
  assert (ts ≡ₚ take k s ++ m :: drop (S k) s) as Ht by (by rewrite Es).
  split; [rewrite <- Hp; by eapply list_elem_of_lookup_2|].
  rewrite <- Hlen. split; rewrite Ht, filter_app, length_app.
  - rewrite filter_cons_False by lia. rewrite (filter_none_length _ (drop (S k) s)).
    + pose proof (length_filter (fun x => (x < m)%Z) (take k s)). lia.
    + eapply Forall_impl; [done|]. simpl. lia.
  - rewrite filter_cons_False by lia. rewrite (filter_none_length _ (take k s)).
    + pose proof (length_filter (fun x => (m < x)%Z) (drop (S k) s)). lia.
    + eapply Forall_impl; [done|]. simpl. lia.
Qed.

(** ** mruset.h *)

Module Mru.
Section mruset.
Context {T : Type} `{Countable T}.

Record mruset := mk_mruset { mset : gset T; queue : list T; nMaxSize : nat }.

Definition empty_mruset (nMaxSizeIn : nat) : mruset := mk_mruset ∅ [] nMaxSizeIn.

Definition msize (m : mruset) : nat := size (mset m).
Definition mempty (m : mruset) : bool := bool_decide (mset m = ∅).
Definition count (m : mruset) (k : T) : nat := if bool_decide (k ∈ mset m) then 1 else 0.
Definition op_eq (a b : mruset) : bool := bool_decide (mset a = mset b).

(** [set.erase(queue.front()); queue.pop_front()] *)
Definition pop_oldest (m : mruset) : mruset :=
  match queue m with
  | [] => m
  | x :: q => mk_mruset (mset m ∖ {[x]}) q (nMaxSize m)
  end.

(** [insert]: whether the element is new, and the container. *)
Definition insert (m : mruset) (x : T) : bool * mruset :=
  if bool_decide (x ∈ mset m) then (false, m)
  else
    let m := mk_mruset ({[x]} ∪ mset m) (queue m) (nMaxSize m) in
    let m := if negb (Nat.eqb (nMaxSize m) 0) && Nat.eqb (length (queue m)) (nMaxSize m) then pop_oldest m else m in
    (true, mk_mruset (mset m) (queue m ++ [x]) (nMaxSize m)).

(** [while (queue.size() >= s)]: one element less in every round. *)
Fixpoint shrink (fuel : nat) (s : nat) (m : mruset) : mruset :=
  if (s <=? length (queue m))%nat then
    match fuel with
    | O => m
    | S f => shrink f s (pop_oldest m)
    end
  else m.

Definition max_size (m : mruset) (s : nat) : mruset :=
  let m := if negb (Nat.eqb s 0) then shrink (length (queue m)) s m else m in
  mk_mruset (mset m) (queue m) s.

(** *** Correctness: the set is what is in the queue *)

Record mru_ok (m : mruset) : Prop := {
  mru_set : forall x, x ∈ mset m <-> x ∈ queue m;
  mru_nodup : NoDup (queue m);
  mru_bound : nMaxSize m <> 0%nat -> (length (queue m) <= nMaxSize m)%nat
}.

Lemma pop_oldest_ok m : mru_ok m -> mru_ok (pop_oldest m) /\ queue (pop_oldest m) = tail (queue m).
Proof.
  intros Hok. pose proof Hok as [Hs Hn Hb]. unfold pop_oldest.
  destruct (queue m) as [|x q] eqn:Eq; [split; [done|by rewrite Eq]|].
  split; [|done]. inversion Hn as [|? ? Hx Hq]; subst. split; cbn [mset queue nMaxSize]; [|done|].
  - intros y. rewrite elem_of_difference, elem_of_singleton, Hs, elem_of_cons. split; [by intros [[->|Hy] Hne]|].
    intros Hy. split; [by right|]. by intros ->.
  - intros H0. specialize (Hb H0). simpl in Hb. lia.
Qed.

(** The most recent [n] elements of a sequence. *)
Definition lastn (n : nat) (l : list T) : list T := drop (length l - n) l.

Lemma insert_ok m x : mru_ok m ->
  let r := insert m x in
  mru_ok r.2 /\ r.1 = negb (bool_decide (x ∈ queue m)) /\ nMaxSize r.2 = nMaxSize m /\
  queue r.2 = if bool_decide (x ∈ queue m) then queue m
              else if Nat.eqb (nMaxSize m) 0 then queue m ++ [x] else lastn (nMaxSize m) (queue m ++ [x]).
Proof.
  intros Hok. pose proof Hok as [Hs Hn Hb]. unfold insert.
  rewrite (bool_decide_ext (x ∈ mset m) (x ∈ queue m)) by apply Hs. case_bool_decide as Hx; [done|]. cbv zeta.
  cbn [mset queue nMaxSize].
  assert (forall q, (q = queue m \/ q = tail (queue m)) -> x ∉ q) as Hnq.
  { intros q [->| ->]; [done|]. intros Hq. apply Hx. destruct (queue m); [done|]. by right. }
  destruct (Nat.eqb_spec (nMaxSize m) 0) as [E0|E0]; cbn [negb andb].
  { cbn [fst snd mset queue nMaxSize]. split; [|done]. split; cbn [mset queue nMaxSize]; [| |lia].
    - intros y. rewrite elem_of_union, elem_of_singleton, elem_of_app, list_elem_of_singleton, Hs. tauto.
    - apply NoDup_app. split; [done|]. split; [intros y Hy ->%list_elem_of_singleton; done|apply NoDup_singleton]. }
  specialize (Hb E0). destruct (Nat.eqb_spec (length (queue m)) (nMaxSize m)) as [El|El].
  - unfold pop_oldest. cbn [queue mset nMaxSize]. destruct (queue m) as [|z q] eqn:Eq; [simpl in El; lia|].
    cbn [fst snd mset queue nMaxSize]. inversion Hn as [|? ? Hz Hq]; subst. split; [|split; [done|]; split; [done|]].
    + split; cbn [mset queue nMaxSize].
      * intros y. rewrite elem_of_difference, elem_of_union, !elem_of_singleton, elem_of_app, list_elem_of_singleton, Hs, elem_of_cons.
        split; [intros [[->|[->|Hy]] Hne]; [by right|done|by left]|].
        intros [Hy| ->]; split; [by right; right|by intros ->|by left|]. intros ->. apply Hx. by left.
      * apply NoDup_app. split; [done|]. split; [|apply NoDup_singleton]. intros y Hy ->%list_elem_of_singleton. apply Hx. by right.
      * intros _. rewrite length_app. simpl in *. lia.
    + unfold lastn. rewrite length_app. cbn [length] in *. replace (S (length q) + 1 - nMaxSize m)%nat with 1%nat by lia. done.
  - cbn [fst snd mset queue nMaxSize]. split; [|split; [done|]; split; [done|]].
    + split; cbn [mset queue nMaxSize].
      * intros y. rewrite elem_of_union, elem_of_singleton, elem_of_app, list_elem_of_singleton, Hs. tauto.
      * apply NoDup_app. split; [done|]. split; [intros y Hy ->%list_elem_of_singleton; done|apply NoDup_singleton].
      * intros _. rewrite length_app. simpl. lia.
    + unfold lastn. rewrite length_app. cbn [length]. replace (length (queue m) + 1 - nMaxSize m)%nat with 0%nat by lia. done.
Qed.

Lemma shrink_ok fuel s : forall m, (0 < s)%nat -> (length (queue m) <= fuel)%nat -> mru_ok m ->
  mru_ok (shrink fuel s m) /\ nMaxSize (shrink fuel s m) = nMaxSize m /\ queue (shrink fuel s m) = lastn (s - 1) (queue m).
Proof.
  assert (forall (l : list T) k, (length l <= k)%nat -> lastn k l = l) as Hall.
  { intros l k Hk. unfold lastn. by replace (length l - k)%nat with 0%nat by lia. }
  induction fuel as [|fuel IH]; intros m Hs Hf Hok; cbn [shrink].
  { rewrite (proj2 (Nat.leb_gt _ _)) by lia. split; [done|]. split; [done|]. rewrite Hall; [done|lia]. }
  destruct (Nat.leb_spec s (length (queue m))) as [Hle|Hlt].
  2:{ split; [done|]. split; [done|]. rewrite Hall; [done|lia]. }
  destruct (pop_oldest_ok m Hok) as [Hok' Hq]. destruct (queue m) as [|x q] eqn:Eq; [simpl in Hle; lia|].
  destruct (IH (pop_oldest m) Hs) as (H1 & H2 & H3); [rewrite Hq; simpl in *; lia|done|].
  split; [done|]. split; [rewrite H2; unfold pop_oldest; by rewrite Eq|]. rewrite H3, Hq. unfold lastn. cbn [tail length].
  simpl in Hle. replace (S (length q) - (s - 1))%nat with (S (length q - (s - 1))) by lia. done.
Qed.

Lemma max_size_ok m s : mru_ok m ->
  mru_ok (max_size m s) /\ nMaxSize (max_size m s) = s /\
  queue (max_size m s) = if Nat.eqb s 0 then queue m else lastn (s - 1) (queue m).
Proof.
  intros Hok. unfold max_size. destruct (Nat.eqb_spec s 0) as [->|Hs]; cbn [negb].
  - cbv zeta. cbn [queue nMaxSize]. split; [|done]. destruct Hok as [H1 H2 _]. by split.
  - cbv zeta. destruct (shrink_ok (length (queue m)) s m ltac:(lia) ltac:(lia) Hok) as (H1 & _ & H3).
    cbn [queue nMaxSize]. split; [|done]. destruct H1 as [A1 A2 _]. split; cbn [mset queue nMaxSize]; [done|done|].
    intros _. rewrite H3. unfold lastn. rewrite length_drop. lia.
Qed.

(** An mruset behaves as a bounded queue without duplicates.  Every
    operation keeps the set equal to the queue; [insert] reports whether the
    element was absent, ignores one that is present (it does not become more
    recent), and otherwise appends it and drops exactly the oldest element when
    the limit is reached; the new limit of [max_size] keeps the most recent
    elements, one less than the limit if there were more. *)
Theorem mruset_keeps_recent m x s :
  mru_ok m ->
  let r := insert m x in
  (mru_ok (empty_mruset s) /\ mru_ok r.2 /\ mru_ok (max_size m s)) /\
  r.1 = negb (bool_decide (x ∈ queue m)) /\ count r.2 x = 1%nat /\
  queue r.2 = (if bool_decide (x ∈ queue m) then queue m
               else if Nat.eqb (nMaxSize m) 0 then queue m ++ [x] else lastn (nMaxSize m) (queue m ++ [x])) /\
  queue (max_size m s) = (if Nat.eqb s 0 then queue m else lastn (s - 1) (queue m)).
Proof.
  intros Hok r. destruct (insert_ok m x Hok) as (H1 & H2 & H3 & H4). destruct (max_size_ok m s Hok) as (H5 & _ & H6).
  fold r in H1, H2, H3, H4. split; [|split; [done|split; [|done]]].
  - split; [|done]. split; cbn [empty_mruset mset queue nMaxSize length]; [|constructor|lia].
    intros y. by rewrite elem_of_empty, elem_of_nil.
  - unfold count. rewrite bool_decide_true; [done|]. apply (mru_set _ H1). rewrite H4. case_bool_decide as Hx; [done|].
    assert (x ∈ queue m ++ [x]) as Hin by (apply elem_of_app; right; by left).
    destruct (Nat.eqb_spec (nMaxSize m) 0); [done|]. unfold lastn. rewrite length_app. cbn [length].
    rewrite drop_app_le by lia. apply elem_of_app. right. by left.
Qed.

End mruset.

Definition demo_mru : mruset (T := nat) := (insert (insert (empty_mruset 2) 1%nat).2 2%nat).2.

Lemma mruset_keeps_recent_witness : queue (insert demo_mru 3%nat).2 = [2%nat; 3%nat].
Proof.
  assert (mru_ok demo_mru) as Hok.
  { apply insert_ok, insert_ok. split; cbn; [set_solver|constructor|lia]. }
  destruct (mruset_keeps_recent demo_mru 3%nat 1 Hok) as (_ & _ & _ & E & _). rewrite E. vm_compute. reflexivity.
Defined.

End Mru.

(** ** CMedianFilter of util.h *)

Module Median.
Section filter.
(** The arithmetic of the element type: [wrap] is the width of [a + b]. *)
Context (wrap : Z -> Z).

Record CMedianFilter := mk_filter { vValues : list Z; vSorted : list Z; nSize : Z }.

Definition new_filter (size initial_value : Z) : CMedianFilter := mk_filter [initial_value] [initial_value] size.

Definition input (f : CMedianFilter) (value : Z) : CMedianFilter :=
  let v := if Z.of_nat (length (vValues f)) =? nSize f then tail (vValues f) else vValues f in
  let v := v ++ [value] in
  mk_filter v (merge_sort Z.le v) (nSize f).

(** [None]: the assertion fails. *)
Definition median (f : CMedianFilter) : option Z :=
  let size := length (vSorted f) in
  if Nat.eqb size 0 then None
  else if Nat.odd size then Some (rd (vSorted f) (size / 2))
  else Some (Z.quot (wrap (rd (vSorted f) (size / 2 - 1) + rd (vSorted f) (size / 2))) 2).

Definition fsize (f : CMedianFilter) : Z := Z.of_nat (length (vValues f)).
Definition sorted (f : CMedianFilter) : list Z := vSorted f.

(** The window never exceeds its size, and vSorted is its sorted copy. *)
Record filter_ok (f : CMedianFilter) : Prop := {
  flt_perm : vSorted f ≡ₚ vValues f;
  flt_sorted : StronglySorted Z.le (vSorted f);
  flt_size : 1 <= Z.of_nat (length (vValues f)) <= nSize f
}.

Lemma new_filter_ok size v : 1 <= size -> filter_ok (new_filter size v).
Proof. intros Hs. split; cbn; [done|repeat constructor|lia]. Qed.

Lemma input_ok f v : filter_ok f -> filter_ok (input f v).
Proof.
  intros [_ _ Hs]. unfold input. cbv zeta. split; cbn [vSorted vValues nSize].
  - apply merge_sort_Permutation.
  - apply StronglySorted_merge_sort; [apply _|intros x y; lia].
  - rewrite length_app. cbn [length]. destruct (Z.eqb_spec (Z.of_nat (length (vValues f))) (nSize f)); [|lia].
    destruct (vValues f); cbn [tail length] in *; lia.
Qed.

(** For an odd window the result is one of the values, with no more than half
    of them on either side. *)
Lemma median_odd f m : filter_ok f -> Nat.odd (length (vValues f)) = true -> median f = Some m ->
  m ∈ vValues f /\ (2 * length (filter (fun x => (x < m)%Z) (vValues f)) <= length (vValues f))%nat /\
  (2 * length (filter (fun x => (m < x)%Z) (vValues f)) <= length (vValues f))%nat.
Proof.
  intros [Hp Hst Hs] Ho. unfold median. assert (length (vSorted f) = length (vValues f)) as Hl by (by rewrite Hp).
  rewrite Hl, Ho. destruct (Nat.eqb_spec (length (vValues f)) 0); [done|]. intros [= <-].
  assert (vSorted f = merge_sort Z.le (vValues f)) as ->.
  { apply (StronglySorted_unique Z.le); [done|apply StronglySorted_merge_sort; [apply _|intros x y; lia]|].
    by rewrite merge_sort_Permutation. }
  assert (vValues f <> []) as Hne by (intros E; rewrite E in Hs; simpl in Hs; lia).
  pose proof (median_spec (vValues f) Hne) as M. cbv zeta in M.
  assert (length (merge_sort Z.le (vValues f)) = length (vValues f)) as El by (by rewrite merge_sort_Permutation).
  by rewrite El in M.
Qed.

End filter.
End Median.
