(* ===== verification/Uint256.v ===== *)
(** * Fixed-width unsigned integers (src/src/uint256.h)

    [base_uint<BITS>] stores a number as WIDTH = BITS/32 limbs of 32 bits, the
    least significant first, in the array [pn].  A limb array is a [list Z] of
    that length; every operator is written as the loop the header writes.  The
    abstract value of an array is [uval]; the theorems say that each operator
    computes the corresponding operation modulo 2^BITS, that the comparison
    operators compare values, and that the hexadecimal and byte forms round
    trip.  The width is a parameter, so uint160 and uint256 are instances. *)

From S2P Require Import Prelude.

Module Uint.

(** [sizeof(pn)/4]. *)
Definition WIDTH (pn : list Z) : nat := length pn.

(** ** Unary operators *)

(** [bool operator!() const] *)
Fixpoint op_not (pn : list Z) : bool :=
  match pn with
  | [] => true
  | x :: rest => if x =? 0 then op_not rest else false
  end.

(** [operator~]: 32-bit complement of every limb. *)
Definition op_compl (pn : list Z) : list Z := map (fun x => u32 (Z.lnot x)) pn.

(** [operator++()] prefix: [while (++pn[i] == 0 && i < WIDTH-1) i++;].  The
    loop stops at a limb that does not wrap or at the last limb. *)
Fixpoint op_inc (pn : list Z) : list Z :=
  match pn with
  | [] => []
  | x :: rest =>
      let x' := u32 (x + 1) in
      if (x' =? 0) && negb (bool_decide (rest = [])) then x' :: op_inc rest else x' :: rest
  end.

(** [operator--()] prefix; the comparison with -1 is done in unsigned int. *)
Fixpoint op_dec (pn : list Z) : list Z :=
  match pn with
  | [] => []
  | x :: rest =>
      let x' := u32 (x - 1) in
      if (x' =? u32 (-1)) && negb (bool_decide (rest = [])) then x' :: op_dec rest else x' :: rest
  end.

(** [operator++(int)] and [operator--(int)]: the old value and the new state. *)
Definition op_postinc (pn : list Z) : list Z * list Z := (pn, op_inc pn).
Definition op_postdec (pn : list Z) : list Z * list Z := (pn, op_dec pn).

(** [operator-()]: complement, then increment. *)
Definition op_neg (pn : list Z) : list Z := (op_postinc (op_compl pn)).2.

(** ** Assignment from a 64-bit value *)

Definition op_assign64 (pn : list Z) (b : Z) : list Z :=
  for_up 2 (WIDTH pn - 2) (fun i s => <[i := 0]> s)
    (<[1%nat := u32 (Z.shiftr b 32)]> (<[0%nat := u32 b]> pn)).

(** ** Bitwise assignment operators *)

Definition op_xor (a b : list Z) : list Z :=
  for_up 0 (WIDTH a) (fun i s => <[i := Z.lxor (rd s i) (rd b i)]> s) a.
Definition op_and (a b : list Z) : list Z :=
  for_up 0 (WIDTH a) (fun i s => <[i := Z.land (rd s i) (rd b i)]> s) a.
Definition op_or (a b : list Z) : list Z :=
  for_up 0 (WIDTH a) (fun i s => <[i := Z.lor (rd s i) (rd b i)]> s) a.

Definition op_xor64 (a : list Z) (b : Z) : list Z :=
  let a := <[0%nat := Z.lxor (rd a 0) (u32 b)]> a in
  <[1%nat := Z.lxor (rd a 1) (u32 (Z.shiftr b 32))]> a.
Definition op_or64 (a : list Z) (b : Z) : list Z :=
  let a := <[0%nat := Z.lor (rd a 0) (u32 b)]> a in
  <[1%nat := Z.lor (rd a 1) (u32 (Z.shiftr b 32))]> a.

(** ** Shifts *)

(** One iteration of the loop of [operator<<=]. *)
Definition shl_body (a : list Z) (k : nat) (shift : Z) (i : nat) (pn : list Z) : list Z :=
  let pn :=
    if (bool_decide (i + k + 1 < WIDTH a)%nat && negb (shift =? 0))%bool
    then <[(i + k + 1)%nat := Z.lor (rd pn (i + k + 1)) (Z.shiftr (rd a i) (32 - shift))]> pn
    else pn in
  if bool_decide (i + k < WIDTH a)%nat
  then <[(i + k)%nat := Z.lor (rd pn (i + k)) (u32 (Z.shiftl (rd a i) shift))]> pn
  else pn.

Definition op_shl (a : list Z) (shift : Z) : list Z :=
  for_up 0 (WIDTH a) (shl_body a (Z.to_nat (shift / 32)) (shift mod 32))
    (replicate (WIDTH a) 0).

(** One iteration of the loop of [operator>>=]. *)
Definition shr_body (a : list Z) (k : nat) (shift : Z) (i : nat) (pn : list Z) : list Z :=
  let pn :=
    if (bool_decide (k + 1 <= i)%nat && negb (shift =? 0))%bool
    then <[(i - k - 1)%nat := Z.lor (rd pn (i - k - 1)) (u32 (Z.shiftl (rd a i) (32 - shift)))]> pn
    else pn in
  if bool_decide (k <= i)%nat
  then <[(i - k)%nat := Z.lor (rd pn (i - k)) (Z.shiftr (rd a i) shift)]> pn
  else pn.

Definition op_shr (a : list Z) (shift : Z) : list Z :=
  for_up 0 (WIDTH a) (shr_body a (Z.to_nat (shift / 32)) (shift mod 32))
    (replicate (WIDTH a) 0).

(** ** Addition and subtraction *)

(** One iteration of the loop of [operator+=]: the state is [pn] and the
    64-bit [carry]. *)
Definition add_body (b : list Z) (i : nat) (st : list Z * Z) : list Z * Z :=
  let '(pn, carry) := st in
  let n := u64 (carry + rd pn i + rd b i) in
  (<[i := Z.land n 0xffffffff]> pn, Z.shiftr n 32).

Definition op_add (a b : list Z) : list Z := (for_up 0 (WIDTH a) (add_body b) (a, 0)).1.

Definition op_sub (a b : list Z) : list Z := op_add a (op_neg b).

(** [base_uint b; b = b64; *this += b;] (the array of [b] has the width of
    [*this]; its initial contents are overwritten). *)
Definition op_add64 (a : list Z) (b64 : Z) : list Z :=
  op_add a (op_assign64 (replicate (WIDTH a) 0) b64).
Definition op_sub64 (a : list Z) (b64 : Z) : list Z :=
  op_add a (op_neg (op_assign64 (replicate (WIDTH a) 0) b64)).

(** ** Comparisons: from the most significant limb down *)

Fixpoint lt_from (eq_result : bool) (a b : list Z) (n : nat) : bool :=
  match n with
  | O => eq_result
  | S i =>
      if rd a i <? rd b i then true
      else if rd b i <? rd a i then false
      else lt_from eq_result a b i
  end.

Definition op_lt (a b : list Z) : bool := lt_from false a b (WIDTH a).
Definition op_le (a b : list Z) : bool := lt_from true a b (WIDTH a).
Definition op_gt (a b : list Z) : bool := lt_from false b a (WIDTH a).
Definition op_ge (a b : list Z) : bool := lt_from true b a (WIDTH a).

Fixpoint eq_upto (a b : list Z) (i cnt : nat) : bool :=
  match cnt with
  | O => true
  | S c => if rd a i =? rd b i then eq_upto a b (S i) c else false
  end.

Definition op_eq (a b : list Z) : bool := eq_upto a b 0 (WIDTH a).
Definition op_ne (a b : list Z) : bool := negb (op_eq a b).

Fixpoint zero_from (a : list Z) (i cnt : nat) : bool :=
  match cnt with
  | O => true
  | S c => if rd a i =? 0 then zero_from a (S i) c else false
  end.

Definition op_eq64 (a : list Z) (b : Z) : bool :=
  if negb (rd a 0 =? u32 b) then false
  else if negb (rd a 1 =? u32 (Z.shiftr b 32)) then false
  else zero_from a 2 (WIDTH a - 2).
Definition op_ne64 (a : list Z) (b : Z) : bool := negb (op_eq64 a b).

(** ** 64-bit access *)

Definition Get64 (a : list Z) (n : nat) : Z :=
  Z.lor (rd a (2 * n)) (u64 (Z.shiftl (rd a (2 * n + 1)) 32)).

(** ** The memory image of [pn] on a little-endian machine *)

Definition bytes_of_limbs (pn : list Z) : list Z := concat (map (le_bytes 4) pn).

Fixpoint limbs_of_bytes (w : nat) (bs : list Z) : list Z :=
  match w with
  | O => []
  | S w' => le_val (take 4 bs) :: limbs_of_bytes w' (drop 4 bs)
  end.

(** [Serialize]/[Unserialize] write and read [sizeof(pn)] raw bytes; a short
    stream makes [CDataStream::read] fail. *)
Definition GetSerializeSize (pn : list Z) : Z := Z.of_nat (4 * WIDTH pn).
Definition Serialize (pn : list Z) : list Z := bytes_of_limbs pn.
Definition Unserialize (w : nat) (s : list Z) : option (list Z * list Z) :=
  if bool_decide (4 * w <= length s)%nat
  then Some (limbs_of_bytes w (take (4 * w) s), drop (4 * w) s)
  else None.

(** ** Hexadecimal text *)

(** A hexadecimal digit as [sprintf("%x")] prints it. *)
Definition hexchar (d : Z) : Z := if d <? 10 then 48 + d else 87 + d.

(** [sprintf(p, "%02x", b)] for a byte. *)
Definition sprintf_02x (b : Z) : list Z := [hexchar (b / 16); hexchar (b mod 16)].

(** [GetHex]; [nPadding] is non-negative at every call. *)
Definition GetHex (pn : list Z) (nPadding : nat) : list Z :=
  let s := concat (map sprintf_02x (rev (bytes_of_limbs pn))) in
  replicate (nPadding - length s) 48 ++ s.

(** The table [phexdigit]. *)
Definition phexdigit (c : Z) : Z :=
  if (48 <=? c) && (c <=? 57) then c - 48
  else if (65 <=? c) && (c <=? 70) then c - 55
  else if (97 <=? c) && (c <=? 102) then c - 87
  else 0.

(** [isspace] and [tolower] of the C locale. *)
Definition isspace (c : Z) : bool := ((9 <=? c) && (c <=? 13)) || (c =? 32).
Definition tolower (c : Z) : Z := if (65 <=? c) && (c <=? 90) then c + 32 else c.

Fixpoint skip_spaces (psz : list Z) : list Z :=
  match psz with
  | c :: r => if isspace c then skip_spaces r else psz
  | [] => []
  end.

(** Reading past the end of the list reads the terminating NUL. *)
Definition skip_0x (psz : list Z) : list Z :=
  if (rd psz 0 =? 48) && (tolower (rd psz 1) =? 120) then drop 2 psz else psz.

Fixpoint hex_prefix (psz : list Z) : list Z :=
  match psz with
  | c :: r => if negb (phexdigit c =? 0) || (c =? 48) then c :: hex_prefix r else []
  | [] => []
  end.

(** The loop that fills the bytes from [p1]; [ps] are the digit characters
    from the last one back to [pbegin]. *)
Fixpoint sethex_loop (ps : list Z) (p1 pend : nat) (mem : list Z) : list Z :=
  match ps with
  | [] => mem
  | c :: ps' =>
      if bool_decide (p1 < pend)%nat then
        let mem := <[p1 := phexdigit c]> mem in
        match ps' with
        | [] => mem
        | c' :: ps'' =>
            sethex_loop ps'' (S p1) pend
              (<[p1 := Z.lor (rd mem p1) (u8 (Z.shiftl (phexdigit c') 4))]> mem)
        end
      else mem
  end.

Definition SetHex (w : nat) (psz : list Z) : list Z :=
  let psz := skip_0x (skip_spaces psz) in
  limbs_of_bytes w
    (sethex_loop (rev (hex_prefix psz)) 0 (4 * w) (replicate (4 * w) 0)).

(** [explicit uint256(const std::vector<unsigned char>& vch)] *)
Definition of_vch (w : nat) (vch : list Z) : list Z :=
  if bool_decide (length vch = (4 * w)%nat) then limbs_of_bytes w vch
  else op_assign64 (replicate w 0) 0.

(** [uint256()], [uint256(const basetype&)], [uint256(uint64)],
    [uint256(const std::string&)] *)
Definition zero (w : nat) : list Z := replicate w 0.
Definition of_base (b : list Z) : list Z := for_up 0 (WIDTH b) (fun i s => <[i := rd b i]> s) (zero (WIDTH b)).
Definition of_u64 (w : nat) (b : Z) : list Z := op_assign64 (zero w) b.
Definition of_string (w : nat) (s : list Z) : list Z := SetHex w s.

(** ** The abstract value *)

Fixpoint uval_n (a : list Z) (n : nat) : Z :=
  match n with
  | O => 0
  | S m => uval_n a m + rd a m * 2 ^ (32 * Z.of_nat m)
  end.

Definition uval (a : list Z) : Z := uval_n a (length a).

(** The modulus 2^BITS of an array of [w] limbs. *)
Definition modulus (w : nat) : Z := 2 ^ (32 * Z.of_nat w).

Definition limb (x : Z) : Prop := 0 <= x < 2 ^ 32.

(** Well-formed arrays: [w] limbs, each a 32-bit value. *)
Definition wf (w : nat) (a : list Z) : Prop := length a = w /\ Forall limb a.

(** ** Lemmas on the value *)

Lemma modulus_S n : modulus (S n) = 2 ^ 32 * modulus n.
Proof.
  unfold modulus. rewrite <- Z.pow_add_r by lia. f_equal. lia.
Qed.

Lemma modulus_pos n : 0 < modulus n.
Proof. apply Z.pow_pos_nonneg; lia. Qed.

Lemma modulus_le m n : (m <= n)%nat -> modulus m <= modulus n.
Proof. intros. apply Z.pow_le_mono_r; lia. Qed.

Lemma uval_n_S a n : uval_n a (S n) = uval_n a n + rd a n * modulus n.
Proof. done. Qed.

Lemma limb_rd a i : Forall limb a -> limb (rd a i).
Proof.
  intros H. unfold rd, limb. destruct (a !! i) eqn:E; simpl; [|lia].
  by apply (Forall_lookup_1 _ _ _ _ H E).
Qed.

Lemma uval_n_range a n : Forall limb a -> 0 <= uval_n a n < modulus n.
Proof.
  intros H. induction n as [|n IH]; [done|].
  rewrite uval_n_S, modulus_S. pose proof (limb_rd a n H) as L. unfold limb in L.
  pose proof (modulus_pos n). nia.
Qed.

Lemma uval_range w a : wf w a -> 0 <= uval a < modulus w.
Proof. intros [<- H]. by apply uval_n_range. Qed.

Lemma uval_n_ext a b n : (forall i, (i < n)%nat -> rd a i = rd b i) -> uval_n a n = uval_n b n.
Proof.
  induction n as [|n IH]; intros H; [done|].
  rewrite !uval_n_S, IH, (H n) by (auto with lia). done.
Qed.

Lemma uval_n_cons x a n : uval_n (x :: a) (S n) = x + 2 ^ 32 * uval_n a n.
Proof.
  induction n as [|n IH]; [simpl; unfold rd; simpl; lia|].
  rewrite uval_n_S, IH, uval_n_S, modulus_S. unfold rd. simpl. ring.
Qed.

Lemma uval_cons x a : uval (x :: a) = x + 2 ^ 32 * uval a.
Proof. apply uval_n_cons. Qed.

Lemma testbit_uval_n a n m :
  Forall limb a -> 0 <= m ->
  Z.testbit (uval_n a n) m =
    bool_decide (m / 32 < Z.of_nat n) && Z.testbit (rd a (Z.to_nat (m / 32))) (m mod 32).
Proof.
  intros Ha Hm. induction n as [|n IH].
  { rewrite Z.testbit_0_l, bool_decide_false by (apply Z.le_ngt, Z.div_pos; lia). done. }
  rewrite uval_n_S. unfold modulus.
  rewrite testbit_add_shift; [|lia|by apply uval_n_range|done].
  rewrite IH. destruct (Z.ltb_spec m (32 * Z.of_nat n)).
  - assert (m / 32 < Z.of_nat n) by (apply Z.div_lt_upper_bound; lia).
    by rewrite !bool_decide_true by lia.
  - assert (Z.of_nat n <= m / 32) by (apply Z.div_le_lower_bound; lia).
    destruct (decide (m / 32 = Z.of_nat n)) as [E|E].
    + rewrite bool_decide_true, E, Nat2Z.id by lia. simpl. f_equal.
      pose proof (Z.div_mod m 32). lia.
    + rewrite bool_decide_false by lia. simpl.
      apply (testbit_high 32); [lia|by apply limb_rd|].
      assert (32 * (Z.of_nat n + 1) <= m); [|lia].
      pose proof (Z.mul_div_le m 32). lia.
Qed.

(** An array is determined by its value. *)
Lemma uval_inj w a b : wf w a -> wf w b -> uval a = uval b -> a = b.
Proof.
  intros [Hla Ha] [Hlb Hb] E. apply rd_ext; [congruence|]. intros i Hi.
  apply Z.bits_inj'. intros m Hm.
  destruct (Z.ltb_spec m 32).
  2:{ rewrite !(testbit_high 32) by (lia || by apply limb_rd). done. }
  assert (Z.testbit (uval a) (32 * Z.of_nat i + m) = Z.testbit (uval b) (32 * Z.of_nat i + m))
    as Et by by rewrite E.
  unfold uval in Et. rewrite !testbit_uval_n in Et by (done || lia).
  rewrite (Z.mul_comm 32), Z.div_add_l, Z.div_small, Z.add_0_r, Nat2Z.id in Et by lia.
  rewrite !bool_decide_true in Et by lia.
  rewrite (Z.add_comm (_ * 32)), Z.mod_add, Z.mod_small in Et by lia. done.
Qed.

(** A value is determined by the bits of the limbs. *)
Lemma uval_by_bits w c v :
  wf w c -> 0 <= v < modulus w ->
  (forall i j, (i < w)%nat -> 0 <= j < 32 ->
     Z.testbit (rd c i) j = Z.testbit v (32 * Z.of_nat i + j)) ->
  uval c = v.
Proof.
  intros [Hl Hc] Hv H. apply Z.bits_inj'. intros m Hm.
  unfold uval. rewrite testbit_uval_n, Hl by done.
  pose proof (Z.div_mod m 32). pose proof (Z.mod_pos_bound m 32). pose proof (Z.div_pos m 32).
  case_bool_decide as Hd; simpl.
  - rewrite H by lia. f_equal. lia.
  - symmetry. apply (testbit_high (32 * Z.of_nat w)); [lia|done|lia].
Qed.

Lemma testbit_uval_limb w a i j :
  wf w a -> (i < w)%nat -> 0 <= j < 32 ->
  Z.testbit (uval a) (32 * Z.of_nat i + j) = Z.testbit (rd a i) j.
Proof.
  intros [Hl Ha] Hi Hj. unfold uval. rewrite testbit_uval_n, Hl by (done || lia).
  rewrite (Z.mul_comm 32), Z.div_add_l, Z.div_small, Z.add_0_r, Nat2Z.id by lia.
  rewrite bool_decide_true by lia.
  by rewrite (Z.add_comm (_ * 32)), Z.mod_add, Z.mod_small by lia.
Qed.

Lemma wf_intro w a : length a = w -> (forall i, (i < w)%nat -> limb (rd a i)) -> wf w a.
Proof.
  intros Hl H. split; [done|]. apply Forall_lookup_2. intros i x E.
  pose proof (lookup_lt_Some _ _ _ E). specialize (H i). unfold rd in H.
  rewrite E in H. apply H. lia.
Qed.

Lemma wf_limb w a i : wf w a -> limb (rd a i).
Proof. intros [_ H]. by apply limb_rd. Qed.

(** Loops that write each cell once, from the cell's old value. *)
Lemma for_up_pointwise (g : nat -> Z -> Z) a :
  let r := for_up 0 (length a) (fun i s => <[i := g i (rd s i)]> s) a in
  length r = length a /\ forall i, (i < length a)%nat -> rd r i = g i (rd a i).
Proof.
  pose (P := fun (n : nat) (s : list Z) => length s = length a /\
    forall i, (i < length a)%nat -> rd s i = if bool_decide (i < n)%nat then g i (rd a i) else rd a i).
  assert (P (0 + length a)%nat
            (for_up 0 (length a) (fun i s => <[i := g i (rd s i)]> s) a)) as [Hl H].
  { apply for_up_inv.
    - split; [done|]. intros i Hi. by rewrite bool_decide_false by lia.
    - intros j s Hj [Hl H]. split; [by rewrite length_insert|].
      intros i Hi. rewrite rd_insert by lia. case_decide as E.
      + subst. rewrite H by lia. by rewrite (bool_decide_false (i < i)%nat), bool_decide_true by lia.
      + rewrite H by done. do 2 case_bool_decide; (done || lia). }
  split; [done|]. intros i Hi. by rewrite H, bool_decide_true by lia.
Qed.

Section bitwise.
Context (zop : Z -> Z -> Z) (bop : bool -> bool -> bool).
Hypothesis zop_spec : forall a b n, Z.testbit (zop a b) n = bop (Z.testbit a n) (Z.testbit b n).
Hypothesis zop_range : forall n a b,
  0 <= n -> 0 <= a < 2 ^ n -> 0 <= b < 2 ^ n -> 0 <= zop a b < 2 ^ n.

Lemma bitwise_spec w a b :
  wf w a -> wf w b ->
  let r := for_up 0 (WIDTH a) (fun i s => <[i := zop (rd s i) (rd b i)]> s) a in
  wf w r /\ uval r = zop (uval a) (uval b).
Proof.
  intros Ha Hb r. destruct (for_up_pointwise (fun i x => zop x (rd b i)) a) as [Hl H].
  change (length r = length a) in Hl.
  change (forall i, (i < length a)%nat -> rd r i = zop (rd a i) (rd b i)) in H.
  clearbody r. assert (length a = w) as Hw by apply Ha. rewrite Hw in *.
  assert (wf w r) as Hr.
  { apply wf_intro; [done|]. intros i Hi. rewrite H by done.
    apply (zop_range 32); [lia|by eapply wf_limb..]. }
  split; [done|]. apply (uval_by_bits w); [done| |].
  - apply zop_range; [lia|by apply uval_range..].
  - intros i j Hi Hj. rewrite H, !zop_spec, !(testbit_uval_limb w) by done. done.
Qed.

End bitwise.

Lemma op_xor_spec w a b :
  wf w a -> wf w b -> wf w (op_xor a b) /\ uval (op_xor a b) = Z.lxor (uval a) (uval b).
Proof. apply (bitwise_spec Z.lxor xorb); [apply Z.lxor_spec|apply lxor_range]. Qed.

Lemma op_and_spec w a b :
  wf w a -> wf w b -> wf w (op_and a b) /\ uval (op_and a b) = Z.land (uval a) (uval b).
Proof. apply (bitwise_spec Z.land andb); [apply Z.land_spec|apply land_range]. Qed.

Lemma op_or_spec w a b :
  wf w a -> wf w b -> wf w (op_or a b) /\ uval (op_or a b) = Z.lor (uval a) (uval b).
Proof. apply (bitwise_spec Z.lor orb); [apply Z.lor_spec|apply lor_range]. Qed.

(** *** Complement, increment, decrement, negation *)

Lemma u32_lnot x : limb x -> u32 (Z.lnot x) = 2 ^ 32 - 1 - x.
Proof.
  unfold limb, u32, Z.lnot. intros. symmetry. apply (Z.mod_unique _ _ (-1)); lia.
Qed.

Lemma op_compl_spec w a : wf w a -> wf w (op_compl a) /\ uval (op_compl a) = modulus w - 1 - uval a.
Proof.
  intros [<- H]. unfold wf, op_compl. rewrite length_map. induction H as [|x a Hx Ha IH].
  - split; [split; constructor|done].
  - destruct IH as [[_ IHw] IHv]. cbn [map length]. split.
    + split; [done|]. constructor; [apply u32_range|done].
    + rewrite !uval_cons, IHv, u32_lnot, modulus_S by done. ring.
Qed.

Lemma op_inc_spec w a : wf w a -> wf w (op_inc a) /\ uval (op_inc a) = (uval a + 1) mod modulus w.
Proof.
  intros [<- H]. unfold wf. induction H as [|x a Hx Ha IH].
  - split; [split; constructor|done].
  - destruct IH as [[IHl IHw] IHv]. cbn [op_inc length].
    pose proof (uval_range (length a) a ltac:(done)) as R.
    unfold limb in Hx. unfold u32. rewrite modulus_S.
    pose proof (modulus_pos (length a)).
    destruct (decide (x = 2 ^ 32 - 1)) as [->|Hne].
    + replace ((2 ^ 32 - 1 + 1) mod 2 ^ 32) with 0 by done. simpl (0 =? 0).
      destruct (decide (a = [])) as [->|Hnil].
      * rewrite bool_decide_true by done. simpl. split; [|done].
        split; [done|constructor; [split; lia|constructor]].
      * rewrite bool_decide_false by done. cbn [andb negb]. split.
        { split; [simpl; by rewrite IHl|]. constructor; [split; lia|done]. }
        rewrite !uval_cons, IHv.
        replace (2 ^ 32 - 1 + 2 ^ 32 * uval a + 1) with (2 ^ 32 * (uval a + 1)) by ring.
        rewrite Z.mul_mod_distr_l by lia. lia.
    + rewrite Z.mod_small by lia. replace (x + 1 =? 0) with false by (symmetry; apply Z.eqb_neq; lia).
      cbn [andb]. split.
      { split; [done|]. constructor; [unfold limb; lia|done]. }
      rewrite !uval_cons, Z.mod_small by nia. lia.
Qed.

Lemma op_dec_spec w a : wf w a -> wf w (op_dec a) /\ uval (op_dec a) = (uval a - 1) mod modulus w.
Proof.
  intros [<- H]. unfold wf. induction H as [|x a Hx Ha IH].
  - split; [split; constructor|done].
  - destruct IH as [[IHl IHw] IHv]. cbn [op_dec length].
    pose proof (uval_range (length a) a ltac:(done)) as R.
    unfold limb in Hx. unfold u32. rewrite modulus_S.
    pose proof (modulus_pos (length a)).
    destruct (decide (x = 0)) as [->|Hne].
    + replace (((0 - 1) mod 2 ^ 32 =? -1 mod 2 ^ 32)) with true by done.
      destruct (decide (a = [])) as [->|Hnil].
      * rewrite bool_decide_true by done. simpl. split; [|done].
        split; [done|constructor; [apply (u32_range (0 - 1))|constructor]].
      * rewrite bool_decide_false by done. cbn [andb negb]. split.
        { split; [simpl; by rewrite IHl|]. constructor; [apply (u32_range (0 - 1))|done]. }
        rewrite !uval_cons, IHv.
        replace ((0 - 1) mod 2 ^ 32) with (2 ^ 32 - 1) by done.
        replace (0 + 2 ^ 32 * uval a - 1) with (2 ^ 32 - 1 + 2 ^ 32 * (uval a - 1)) by ring.
        pose proof (Z.mod_pos_bound (uval a - 1) (modulus (length a))).
        pose proof (Z.div_mod (uval a - 1) (modulus (length a))).
        apply (Z.mod_unique _ _ ((uval a - 1) / modulus (length a))); nia.
    + rewrite (Z.mod_small (x - 1)) by lia.
      replace (x - 1 =? -1 mod 2 ^ 32) with false
        by (symmetry; apply Z.eqb_neq; change (-1 mod 2 ^ 32) with (2 ^ 32 - 1); lia).
      cbn [andb]. split.
      { split; [done|]. constructor; [unfold limb; lia|done]. }
      rewrite !uval_cons, Z.mod_small by nia. lia.
Qed.

Lemma op_neg_spec w a : wf w a -> wf w (op_neg a) /\ uval (op_neg a) = (- uval a) mod modulus w.
Proof.
  intros H. destruct (op_compl_spec w a H) as [Hc Hv].
  destruct (op_inc_spec w _ Hc) as [Hi Hiv]. split; [done|].
  unfold op_neg, op_postinc. cbn [snd]. rewrite Hiv, Hv.
  replace (modulus w - 1 - uval a + 1) with (- uval a + 1 * modulus w) by ring.
  apply Z.mod_add. pose proof (modulus_pos w). lia.
Qed.

(** *** Addition and subtraction *)

(** The loop invariant of [operator+=]: the limbs below [n] and the carry hold
    the sum of the low parts, the limbs from [n] on are untouched. *)
Definition add_inv (a b : list Z) (n : nat) (st : list Z * Z) : Prop :=
  length st.1 = length a /\
  (0 <= st.2 <= 1) /\
  (forall i, (i < n)%nat -> limb (rd st.1 i)) /\
  (forall i, (n <= i < length a)%nat -> rd st.1 i = rd a i) /\
  uval_n st.1 n + st.2 * modulus n = uval_n a n + uval_n b n.

Lemma add_body_inv a b n st :
  Forall limb a -> Forall limb b -> (n < length a)%nat ->
  add_inv a b n st -> add_inv a b (S n) (add_body b n st).
Proof.
  intros Ha Hb Hn. destruct st as [pn c]. intros (Hl & Hc & Hlo & Hhi & Hs).
  cbn [fst snd] in *. unfold add_body.
  pose proof (limb_rd a n Ha) as La. pose proof (limb_rd b n Hb) as Lb. unfold limb in La, Lb.
  rewrite (Hhi n) by lia. rewrite u64_small by lia.
  change 0xffffffff with (Z.ones 32). rewrite Z.land_ones, Z.shiftr_div_pow2 by lia.
  set (t := c + rd a n + rd b n).
  pose proof (Z.div_mod t (2 ^ 32)). pose proof (Z.mod_pos_bound t (2 ^ 32)).
  assert (0 <= t / 2 ^ 32 <= 1).
  { split; [apply Z.div_pos; lia|]. apply Z.lt_succ_r, Z.div_lt_upper_bound; lia. }
  unfold add_inv. cbn [fst snd]. rewrite length_insert. repeat split; try lia.
  - intros. rewrite rd_insert by lia. case_decide; [lia|]. apply Hlo. lia.
  - intros. rewrite rd_insert by lia. case_decide; [lia|]. apply Hlo. lia.
  - intros. rewrite rd_insert by lia. case_decide; [lia|]. apply Hhi. lia.
  - rewrite !uval_n_S, rd_insert_eq by lia.
    rewrite (uval_n_ext (<[n:=_]> pn) pn n) by (intros; rewrite rd_insert_ne; lia).
    rewrite modulus_S. unfold t in *. nia.
Qed.

Lemma op_add_spec w a b :
  wf w a -> wf w b -> wf w (op_add a b) /\ uval (op_add a b) = (uval a + uval b) mod modulus w.
Proof.
  intros [Hla Ha] [Hlb Hb].
  assert (add_inv a b (0 + length a) (for_up 0 (length a) (add_body b) (a, 0))) as Inv.
  { apply for_up_inv.
    - repeat split; try done; simpl; intros; lia.
    - intros j s Hj. by apply add_body_inv; [..|lia]. }
  unfold op_add, WIDTH. destruct (for_up _ _ _ _) as [r c]. simpl in *.
  destruct Inv as (Hl & Hc & Hlo & _ & Hs). cbn [fst snd] in *.
  assert (wf w r) as Hr by (apply wf_intro; [congruence|intros; apply Hlo; lia]).
  split; [done|]. apply (Z.mod_unique _ _ c).
  - left. by apply uval_range.
  - unfold uval. rewrite Hl, Hlb, <- Hla, <- Hs. rewrite Hla. ring.
Qed.

Lemma op_sub_spec w a b :
  wf w a -> wf w b -> wf w (op_sub a b) /\ uval (op_sub a b) = (uval a - uval b) mod modulus w.
Proof.
  intros Ha Hb. destruct (op_neg_spec w b Hb) as [Hn Hv].
  destruct (op_add_spec w a _ Ha Hn) as [Hs Hsv]. split; [done|].
  unfold op_sub. rewrite Hsv, Hv. rewrite Z.add_mod_idemp_r; [f_equal; lia|].
  pose proof (modulus_pos w). lia.
Qed.

(** *** Comparison *)

Lemma lt_from_spec e a b n :
  Forall limb a -> Forall limb b ->
  lt_from e a b n = (uval_n a n <? uval_n b n) || (e && (uval_n a n =? uval_n b n)).
Proof.
  intros Ha Hb. induction n as [|n IH]; [by destruct e|].
  cbn [lt_from]. rewrite !uval_n_S, IH.
  pose proof (uval_n_range a n Ha). pose proof (uval_n_range b n Hb).
  pose proof (modulus_pos n).
  destruct (Z.ltb_spec (rd a n) (rd b n)).
  { replace (_ + _ <? _) with true by (symmetry; apply Z.ltb_lt; nia). done. }
  destruct (Z.ltb_spec (rd b n) (rd a n)).
  { replace (_ + _ <? _) with false by (symmetry; apply Z.ltb_ge; nia).
    replace (_ + _ =? _) with false by (symmetry; apply Z.eqb_neq; nia). by rewrite andb_false_r. }
  replace (rd b n) with (rd a n) by lia. f_equal; [|f_equal].
  - destruct (Z.ltb_spec (uval_n a n) (uval_n b n)); symmetry; [apply Z.ltb_lt|apply Z.ltb_ge]; lia.
  - destruct (Z.eqb_spec (uval_n a n) (uval_n b n)); symmetry; [apply Z.eqb_eq|apply Z.eqb_neq]; lia.
Qed.

Lemma leb_lt_or_eq x y : (x <? y) || (true && (x =? y)) = (x <=? y).
Proof.
  simpl. destruct (Z.ltb_spec x y), (Z.eqb_spec x y), (Z.leb_spec x y); simpl; lia || done.
Qed.

Lemma compare_spec w a b :
  wf w a -> wf w b ->
  op_lt a b = (uval a <? uval b) /\ op_le a b = (uval a <=? uval b) /\
  op_gt a b = (uval b <? uval a) /\ op_ge a b = (uval b <=? uval a).
Proof.
  intros [Hla Ha] [Hlb Hb]. unfold op_lt, op_le, op_gt, op_ge, WIDTH, uval.
  rewrite !lt_from_spec, !leb_lt_or_eq, !andb_false_l, !orb_false_r by done.
  by rewrite Hla, Hlb.
Qed.

Lemma eq_upto_spec a b cnt : forall i,
  eq_upto a b i cnt = true <-> forall j, (i <= j < i + cnt)%nat -> rd a j = rd b j.
Proof.
  induction cnt as [|c IH]; intros i; cbn [eq_upto].
  { split; [intros _ j Hj; lia|done]. }
  destruct (Z.eqb_spec (rd a i) (rd b i)) as [E|E].
  - rewrite IH. split; intros H j Hj.
    + destruct (decide (j = i)); [by subst|]. apply H. lia.
    + apply H. lia.
  - split; [done|]. intros H. contradict E. apply H. lia.
Qed.

Lemma op_eq_spec w a b : wf w a -> wf w b -> op_eq a b = bool_decide (uval a = uval b).
Proof.
  intros Ha Hb. apply eq_true_iff_eq. rewrite bool_decide_eq_true.
  unfold op_eq, WIDTH. rewrite eq_upto_spec. split.
  - intros H. f_equal. apply rd_ext; [by rewrite (proj1 Ha), (proj1 Hb)|].
    intros. apply H. lia.
  - intros H j _. by rewrite (uval_inj w a b).
Qed.

(** *** 64-bit operands *)

Lemma zeros_loop n : forall lo s,
  (lo + n <= length s)%nat ->
  let r := for_up lo n (fun i s => <[i := 0]> s) s in
  length r = length s /\
  forall i, rd r i = if bool_decide (lo <= i < lo + n)%nat then 0 else rd s i.
Proof.
  induction n as [|n IH]; intros lo s Hl; simpl.
  - split; [done|]. intros i. by rewrite bool_decide_false by lia.
  - destruct (IH (S lo) (<[lo := 0]> s)) as [Hl' H]; [rewrite length_insert; lia|].
    split; [by rewrite Hl', length_insert|]. intros i. rewrite H, rd_insert by lia.
    case_decide; repeat case_bool_decide; (done || lia).
Qed.

Lemma op_assign64_rd pn b :
  (2 <= length pn)%nat ->
  length (op_assign64 pn b) = length pn /\
  rd (op_assign64 pn b) 0 = u32 b /\ rd (op_assign64 pn b) 1 = u32 (Z.shiftr b 32) /\
  forall i, (2 <= i)%nat -> rd (op_assign64 pn b) i = 0.
Proof.
  intros H. unfold op_assign64, WIDTH.
  destruct (zeros_loop (length pn - 2) 2
    (<[1%nat := u32 (Z.shiftr b 32)]> (<[0%nat := u32 b]> pn))) as [Hl Hr];
    [rewrite !length_insert; lia|].
  rewrite !length_insert in Hl. split; [done|]. rewrite !Hr.
  rewrite !bool_decide_false by lia. split; [|split].
  - by rewrite rd_insert_ne, rd_insert_eq by lia.
  - by rewrite rd_insert_eq by (rewrite length_insert; lia).
  - intros i Hi. rewrite Hr. case_bool_decide; [done|].
    apply rd_ge. rewrite !length_insert. lia.
Qed.

Lemma uval_low2 w a :
  wf w a -> (2 <= w)%nat -> (forall i, (2 <= i)%nat -> rd a i = 0) ->
  uval a = rd a 0 + rd a 1 * 2 ^ 32.
Proof.
  intros [Hl Ha] Hw H. unfold uval. rewrite Hl.
  assert (forall n, uval_n a (2 + n) = rd a 0 + rd a 1 * 2 ^ 32) as E.
  { induction n as [|n IH]; [cbn; lia|]. rewrite <- plus_n_Sm, uval_n_S, IH, (H (2 + n)%nat) by lia. lia. }
  replace w with (2 + (w - 2))%nat by lia. apply E.
Qed.

Lemma op_assign64_spec w pn b :
  length pn = w -> (2 <= w)%nat -> 0 <= b < 2 ^ 64 ->
  wf w (op_assign64 pn b) /\ uval (op_assign64 pn b) = b.
Proof.
  intros Hl Hw Hb. destruct (op_assign64_rd pn b) as (Hl' & H0 & H1 & H2); [lia|].
  assert (wf w (op_assign64 pn b)) as Hwf.
  { apply wf_intro; [congruence|]. intros [|[|i]] Hi.
    - rewrite H0. apply u32_range.
    - rewrite H1. apply u32_range.
    - rewrite H2 by lia. split; lia. }
  split; [done|]. rewrite (uval_low2 w), H0, H1 by done.
  rewrite Z.shiftr_div_pow2 by lia. unfold u32.
  rewrite (Z.mod_small (b / 2 ^ 32)).
  - pose proof (Z.div_mod b (2 ^ 32)). lia.
  - split; [apply Z.div_pos; lia|apply Z.div_lt_upper_bound; lia].
Qed.

Lemma zero_from_spec a cnt : forall i,
  zero_from a i cnt = true <-> forall j, (i <= j < i + cnt)%nat -> rd a j = 0.
Proof.
  induction cnt as [|c IH]; intros i; cbn [zero_from].
  { split; [intros _ j Hj; lia|done]. }
  destruct (Z.eqb_spec (rd a i) 0) as [E|E].
  - rewrite IH. split; intros H j Hj.
    + destruct (decide (j = i)); [by subst|]. apply H. lia.
    + apply H. lia.
  - split; [done|]. intros H. contradict E. apply H. lia.
Qed.

Lemma op_eq64_spec w a b :
  wf w a -> (2 <= w)%nat -> 0 <= b < 2 ^ 64 -> op_eq64 a b = bool_decide (uval a = b).
Proof.
  intros Ha Hw Hb. assert (length a = w) as Hl by apply Ha.
  destruct (op_assign64_rd a b) as (_ & H0 & H1 & H2); [lia|].
  destruct (op_assign64_spec w a b Hl Hw Hb) as [Hawf Hav].
  apply eq_true_iff_eq. rewrite bool_decide_eq_true. unfold op_eq64, WIDTH.
  rewrite <- H0, <- H1.
  destruct (Z.eqb_spec (rd a 0) (rd (op_assign64 a b) 0)) as [E0|E0]; cbn [negb].
  2:{ split; [done|]. intros E. contradict E0. rewrite <- Hav in E.
      apply (uval_inj w) in E; [by rewrite <- E|done..]. }
  destruct (Z.eqb_spec (rd a 1) (rd (op_assign64 a b) 1)) as [E1|E1]; cbn [negb].
  2:{ split; [done|]. intros E. contradict E1. rewrite <- Hav in E.
      apply (uval_inj w) in E; [by rewrite <- E|done..]. }
  rewrite zero_from_spec. split.
  - intros H. rewrite <- Hav. f_equal. apply rd_ext; [by rewrite Hl, (proj1 Hawf)|].
    intros [|[|i]] Hi; [done..|]. rewrite H, H2 by lia. done.
  - intros E j Hj. rewrite <- Hav in E. apply (uval_inj w) in E; [|done..].
    rewrite E, H2 by lia. done.
Qed.

(** *** Shifts *)

(** A conditional [pn[i] |= v]: each cell of the loops below is a union of the
    values or-ed into it. *)
Lemma rd_or_at (c : bool) i v l j :
  (c = true -> (i < length l)%nat) ->
  rd (if c then <[i := Z.lor (rd l i) v]> l else l) j =
    Z.lor (rd l j) (if c && bool_decide (i = j) then v else 0).
Proof.
  intros Hc. destruct c; simpl; [|by rewrite Z.lor_0_r].
  rewrite rd_insert by auto. case_decide as E; subst.
  - by rewrite bool_decide_true.
  - by rewrite bool_decide_false, Z.lor_0_r.
Qed.

Lemma length_or_at (c : bool) i v (l : list Z) :
  length (if c then <[i := v]> l else l) = length l.
Proof. destruct c; [apply length_insert|done]. Qed.

(** What the loop of [operator<<=] has stored in cell [j] after [n] iterations. *)
Definition shl_hi (a : list Z) (k : nat) (s : Z) (n j : nat) : Z :=
  if bool_decide (k + 1 <= j /\ j - k - 1 < n)%nat && negb (s =? 0)
  then Z.shiftr (rd a (j - k - 1)) (32 - s) else 0.
Definition shl_lo (a : list Z) (k : nat) (s : Z) (n j : nat) : Z :=
  if bool_decide (k <= j /\ j - k < n)%nat then u32 (Z.shiftl (rd a (j - k)) s) else 0.

Lemma shl_hi_S a k s n j :
  shl_hi a k s (S n) j = Z.lor (shl_hi a k s n j)
    (if negb (s =? 0) && bool_decide (n + k + 1 = j)%nat then Z.shiftr (rd a n) (32 - s) else 0).
Proof.
  unfold shl_hi. destruct (negb (s =? 0)); rewrite ?andb_true_r, ?andb_false_r; [|done].
  rewrite andb_true_l. destruct (decide (n + k + 1 = j)%nat) as [<-|Hne].
  - rewrite (bool_decide_false (_ /\ (_ < n)%nat)), !bool_decide_true by lia.
    rewrite Z.lor_0_l. by replace (n + k + 1 - k - 1)%nat with n by lia.
  - rewrite (bool_decide_false (_ = _)), Z.lor_0_r by lia.
    erewrite bool_decide_ext; [done|]. lia.
Qed.

Lemma shl_lo_S a k s n j :
  shl_lo a k s (S n) j = Z.lor (shl_lo a k s n j)
    (if bool_decide (n + k = j)%nat then u32 (Z.shiftl (rd a n) s) else 0).
Proof.
  unfold shl_lo. destruct (decide (n + k = j)%nat) as [<-|Hne].
  - rewrite (bool_decide_false (_ /\ (_ < n)%nat)), !bool_decide_true by lia.
    rewrite Z.lor_0_l. by replace (n + k - k)%nat with n by lia.
  - rewrite (bool_decide_false (_ = _)), Z.lor_0_r by lia.
    erewrite bool_decide_ext; [done|]. lia.
Qed.

(** Bounds tests of a conditional write are implied by the cell being in range. *)
Lemma in_range_test (p q : nat) (b : bool) len :
  (q < len)%nat -> bool_decide (p < len)%nat && b && bool_decide (p = q) = b && bool_decide (p = q).
Proof.
  intros Hq. destruct (decide (p = q)) as [->|Hne].
  - by rewrite !bool_decide_true, !andb_true_r, andb_true_l by done.
  - by rewrite (bool_decide_false (p = q)), !andb_false_r by done.
Qed.

Lemma shl_loop a k s n :
  let r := for_up 0 n (shl_body a k s) (replicate (length a) 0) in
  length r = length a /\
  forall j, (j < length a)%nat -> rd r j = Z.lor (shl_hi a k s n j) (shl_lo a k s n j).
Proof.
  apply (for_up_inv (fun n r => length r = length a /\
    forall j, (j < length a)%nat -> rd r j = Z.lor (shl_hi a k s n j) (shl_lo a k s n j))).
  { rewrite length_replicate. split; [done|]. intros j Hj. unfold shl_hi, shl_lo.
    rewrite rd_replicate, !bool_decide_false by lia. done. }
  intros i r Hi [Hl H]. unfold shl_body, WIDTH. rewrite !length_or_at. split; [done|].
  intros j Hj.
  rewrite rd_or_at by (rewrite length_or_at; intros E%bool_decide_eq_true; lia).
  rewrite rd_or_at by (intros [E%bool_decide_eq_true _]%andb_true_iff; lia).
  rewrite in_range_test by done.
  replace (bool_decide (i + k < length a)%nat && bool_decide ((i + k)%nat = j))
    with (bool_decide ((i + k)%nat = j))
    by (rewrite <- (andb_true_l (bool_decide (_ = j))) at 1;
        rewrite <- (in_range_test (i + k) j true (length a)) by done; by rewrite andb_true_r).
  rewrite H, shl_hi_S, shl_lo_S by done.
  rewrite <- !Z.lor_assoc. f_equal. rewrite (Z.lor_comm (shl_lo _ _ _ _ _)), <- !Z.lor_assoc.
  f_equal. apply Z.lor_comm.
Qed.

Lemma shiftr_range x s : 0 <= s -> limb x -> 0 <= Z.shiftr x s < 2 ^ 32.
Proof.
  unfold limb. intros Hs Hx. rewrite Z.shiftr_div_pow2 by lia.
  pose proof (Z.pow_pos_nonneg 2 s).
  split; [apply Z.div_pos; lia|]. apply Z.div_lt_upper_bound; [lia|]. nia.
Qed.

Lemma testbit_shr_limb x s b :
  limb x -> 0 < s < 32 -> 0 <= b -> Z.testbit (Z.shiftr x (32 - s)) b = Z.testbit x (b + (32 - s)).
Proof. intros. by apply Z.shiftr_spec. Qed.

Lemma testbit_shl_limb x s b :
  0 <= s < 32 -> 0 <= b < 32 -> Z.testbit (u32 (Z.shiftl x s)) b = Z.testbit x (b - s).
Proof.
  intros. unfold u32. rewrite testbit_mod_pow2, Z.shiftl_spec by lia.
  by replace (b <? 32) with true by (symmetry; apply Z.ltb_lt; lia).
Qed.

Lemma op_shl_spec w a shift :
  wf w a -> 0 <= shift ->
  wf w (op_shl a shift) /\ uval (op_shl a shift) = (uval a * 2 ^ shift) mod modulus w.
Proof.
  intros Ha Hs. assert (length a = w) as Hw by apply Ha.
  pose proof (Z.div_mod shift 32). pose proof (Z.mod_pos_bound shift 32). pose proof (Z.div_pos shift 32).
  destruct (shl_loop a (Z.to_nat (shift / 32)) (shift mod 32) (length a)) as [Hl H'].
  unfold op_shl, WIDTH. set (r := for_up _ _ _ _) in *. clearbody r.
  set (k := Z.to_nat (shift / 32)) in *. set (s := shift mod 32) in *.
  assert (shift = 32 * Z.of_nat k + s) as Es by lia.
  rewrite Hw in *. clear dependent Hw. clearbody k s. subst shift.
  assert (wf w r) as Hr.
  { apply wf_intro; [done|]. intros i Hi. rewrite H' by done. apply (lor_range 32); [lia|unfold shl_hi|unfold shl_lo].
    - case_match eqn:E; [|lia]. apply shiftr_range; [lia|by eapply wf_limb].
    - case_match; [apply u32_range|lia]. }
  split; [done|]. apply (uval_by_bits w); [done|apply Z.mod_pos_bound, modulus_pos|].
  intros i j Hi Hj. unfold modulus. rewrite testbit_mod_pow2 by lia.
  replace (32 * Z.of_nat i + j <? 32 * Z.of_nat w) with true by (symmetry; apply Z.ltb_lt; lia).
  rewrite andb_true_l, <- Z.shiftl_mul_pow2, Z.shiftl_spec by lia.
  rewrite H' by done. rewrite Z.lor_spec. unfold shl_hi, shl_lo.
  destruct (Z.leb_spec s j) as [Hsj|Hsj].
  - replace (Z.testbit (if bool_decide _ && _ then _ else _) j) with false.
    2:{ case_match eqn:E; [|by rewrite Z.testbit_0_l]. bool_to_prop.
        rewrite testbit_shr_limb by (lia || by eapply wf_limb).
        symmetry. apply (testbit_high 32); [lia|by eapply wf_limb|lia]. }
    rewrite orb_false_l. case_bool_decide as E.
    + rewrite testbit_shl_limb by lia. rewrite <- (testbit_uval_limb w) by (done || lia).
      f_equal. lia.
    + rewrite Z.testbit_0_l. symmetry. apply Z.testbit_neg_r. lia.
  - replace (Z.testbit (if bool_decide (_ /\ (i - k < w)%nat) then _ else _) j) with false.
    2:{ case_match eqn:E; [|by rewrite Z.testbit_0_l].
        rewrite testbit_shl_limb by lia. symmetry. apply Z.testbit_neg_r. lia. }
    rewrite orb_false_r.
    replace (negb (s =? 0)) with true by (symmetry; apply negb_true_iff, Z.eqb_neq; lia).
    rewrite andb_true_r. case_bool_decide as E.
    + rewrite testbit_shr_limb by (lia || by eapply wf_limb).
      rewrite <- (testbit_uval_limb w) by (done || lia). f_equal. lia.
    + rewrite Z.testbit_0_l. symmetry. apply Z.testbit_neg_r. lia.
Qed.

(** What the loop of [operator>>=] has stored in cell [j] after [n] iterations. *)
Definition shr_lo (a : list Z) (k : nat) (s : Z) (n j : nat) : Z :=
  if bool_decide (j + k < n)%nat then Z.shiftr (rd a (j + k)) s else 0.
Definition shr_hi (a : list Z) (k : nat) (s : Z) (n j : nat) : Z :=
  if bool_decide (j + k + 1 < n)%nat && negb (s =? 0)
  then u32 (Z.shiftl (rd a (j + k + 1)) (32 - s)) else 0.

Lemma shr_lo_S a k s n j :
  shr_lo a k s (S n) j = Z.lor (shr_lo a k s n j)
    (if bool_decide (k <= n)%nat && bool_decide (n - k = j)%nat then Z.shiftr (rd a n) s else 0).
Proof.
  unfold shr_lo. destruct (decide (n = j + k)%nat) as [->|Hne].
  - rewrite (bool_decide_false (_ < j + k)%nat), !bool_decide_true, Z.lor_0_l by lia. done.
  - replace (bool_decide (k <= n)%nat && _) with false.
    2:{ symmetry. apply andb_false_iff. rewrite !bool_decide_eq_false. lia. }
    rewrite Z.lor_0_r. erewrite bool_decide_ext; [done|]. lia.
Qed.

Lemma shr_hi_S a k s n j :
  shr_hi a k s (S n) j = Z.lor (shr_hi a k s n j)
    (if bool_decide (k + 1 <= n)%nat && negb (s =? 0) && bool_decide (n - k - 1 = j)%nat
     then u32 (Z.shiftl (rd a n) (32 - s)) else 0).
Proof.
  unfold shr_hi. destruct (negb (s =? 0)); rewrite ?andb_true_r, ?andb_false_r; [|done].
  destruct (decide (n = j + k + 1)%nat) as [->|Hne].
  - rewrite (bool_decide_false (_ < j + k + 1)%nat), !bool_decide_true, Z.lor_0_l by lia. done.
  - replace (bool_decide (k + 1 <= n)%nat && _) with false.
    2:{ symmetry. apply andb_false_iff. rewrite !bool_decide_eq_false. lia. }
    rewrite Z.lor_0_r. erewrite bool_decide_ext; [done|]. lia.
Qed.

Lemma shr_loop a k s n :
  (n <= length a)%nat ->
  let r := for_up 0 n (shr_body a k s) (replicate (length a) 0) in
  length r = length a /\
  forall j, (j < length a)%nat -> rd r j = Z.lor (shr_hi a k s n j) (shr_lo a k s n j).
Proof.
  intros Hn. apply (for_up_inv (fun n r => length r = length a /\
    forall j, (j < length a)%nat -> rd r j = Z.lor (shr_hi a k s n j) (shr_lo a k s n j))).
  { rewrite length_replicate. split; [done|]. intros j Hj. unfold shr_hi, shr_lo.
    rewrite rd_replicate, !bool_decide_false by lia. done. }
  intros i r Hi [Hl H]. unfold shr_body. rewrite !length_or_at. split; [done|].
  intros j Hj.
  rewrite rd_or_at by (rewrite length_or_at; intros E%bool_decide_eq_true; lia).
  rewrite rd_or_at by (intros [E%bool_decide_eq_true _]%andb_true_iff; lia).
  rewrite H, shr_hi_S, shr_lo_S by done.
  rewrite <- !Z.lor_assoc. f_equal. rewrite (Z.lor_comm (shr_lo _ _ _ _ _)), <- !Z.lor_assoc.
  f_equal. apply Z.lor_comm.
Qed.

Lemma op_shr_spec w a shift :
  wf w a -> 0 <= shift ->
  wf w (op_shr a shift) /\ uval (op_shr a shift) = uval a / 2 ^ shift.
Proof.
  intros Ha Hs. assert (length a = w) as Hw by apply Ha.
  pose proof (Z.div_mod shift 32). pose proof (Z.mod_pos_bound shift 32). pose proof (Z.div_pos shift 32).
  destruct (shr_loop a (Z.to_nat (shift / 32)) (shift mod 32) (length a)) as [Hl H']; [lia|].
  unfold op_shr, WIDTH. set (r := for_up _ _ _ _) in *. clearbody r.
  set (k := Z.to_nat (shift / 32)) in *. set (s := shift mod 32) in *.
  assert (shift = 32 * Z.of_nat k + s) as Es by lia.
  rewrite Hw in *. clearbody k s. subst shift.
  assert (wf w r) as Hr.
  { apply wf_intro; [done|]. intros i Hi. rewrite H' by done.
    apply (lor_range 32); [lia|unfold shr_hi|unfold shr_lo].
    - case_match; [apply u32_range|lia].
    - case_match eqn:E; [|lia]. apply shiftr_range; [lia|by eapply wf_limb]. }
  split; [done|]. apply (uval_by_bits w); [done| |].
  { pose proof (uval_range w a Ha). pose proof (Z.pow_pos_nonneg 2 (32 * Z.of_nat k + s)).
    split; [apply Z.div_pos; lia|]. apply Z.div_lt_upper_bound; [lia|]. nia. }
  intros i j Hi Hj. rewrite Z.div_pow2_bits by lia.
  rewrite H' by done. rewrite Z.lor_spec. unfold shr_hi, shr_lo.
  destruct (Z.ltb_spec (j + s) 32) as [Hsj|Hsj].
  - replace (Z.testbit (if bool_decide _ && _ then _ else _) j) with false.
    2:{ case_match eqn:E; [|by rewrite Z.testbit_0_l]. bool_to_prop.
        rewrite testbit_shl_limb by lia. symmetry. apply Z.testbit_neg_r. lia. }
    rewrite orb_false_l. case_bool_decide as E.
    + rewrite Z.shiftr_spec by lia. rewrite <- (testbit_uval_limb w) by (done || lia).
      f_equal. lia.
    + rewrite Z.testbit_0_l. symmetry.
      apply (testbit_high (32 * Z.of_nat w)); [lia|by apply uval_range|lia].
  - replace (Z.testbit (if bool_decide (_ < w)%nat then Z.shiftr _ _ else _) j) with false.
    2:{ case_match eqn:E; [|by rewrite Z.testbit_0_l]. rewrite Z.shiftr_spec by lia.
        symmetry. apply (testbit_high 32); [lia|by eapply wf_limb|lia]. }
    rewrite orb_false_r.
    replace (negb (s =? 0)) with true by (symmetry; apply negb_true_iff, Z.eqb_neq; lia).
    rewrite andb_true_r. case_bool_decide as E.
    + rewrite testbit_shl_limb by lia.
      rewrite <- (testbit_uval_limb w) by (done || lia). f_equal. lia.
    + rewrite Z.testbit_0_l. symmetry.
      apply (testbit_high (32 * Z.of_nat w)); [lia|by apply uval_range|lia].
Qed.

(** *** Memory images *)

Lemma le_bytes_4 x : limb x -> length (le_bytes 4 x) = 4%nat /\ le_val (le_bytes 4 x) = x.
Proof.
  intros H. split; [done|]. rewrite le_val_le_bytes. by apply Z.mod_small.
Qed.

Lemma bytes_of_limbs_spec w a :
  wf w a ->
  length (bytes_of_limbs a) = (4 * w)%nat /\ Forall is_byte (bytes_of_limbs a) /\
  le_val (bytes_of_limbs a) = uval a.
Proof.
  intros [<- H]. unfold bytes_of_limbs. induction H as [|x a Hx Ha IH].
  { repeat split; try constructor. }
  destruct IH as (IHl & IHb & IHv). cbn [map concat]. split; [|split].
  - rewrite length_app, IHl. cbn [length le_bytes]. lia.
  - apply Forall_app. split; [apply le_bytes_is_byte|done].
  - rewrite le_val_app, IHv, uval_cons. destruct (le_bytes_4 x Hx) as [-> ->].
    done.
Qed.

Lemma limbs_of_bytes_spec w : forall bs,
  length bs = (4 * w)%nat -> Forall is_byte bs ->
  wf w (limbs_of_bytes w bs) /\ uval (limbs_of_bytes w bs) = le_val bs.
Proof.
  induction w as [|w IH]; intros bs Hl Hb.
  { destruct bs; [|simpl in Hl; lia]. split; [split; constructor|done]. }
  assert (length (take 4 bs) = 4%nat) as Ht by (rewrite length_take; lia).
  destruct (IH (drop 4 bs)) as [[IHl IHw] IHv]; [rewrite length_drop; lia|by apply Forall_drop|].
  cbn [limbs_of_bytes]. split.
  - split; [simpl; by rewrite IHl|]. constructor; [|done].
    pose proof (le_val_range (take 4 bs) ltac:(by apply Forall_take)) as R.
    by rewrite Ht in R.
  - rewrite uval_cons, IHv. rewrite <- (take_drop 4 bs) at 3. rewrite le_val_app, Ht. done.
Qed.

Lemma limbs_bytes_id w a : wf w a -> limbs_of_bytes w (bytes_of_limbs a) = a.
Proof.
  intros H. destruct (bytes_of_limbs_spec w a H) as (Hl & Hb & Hv).
  destruct (limbs_of_bytes_spec w _ Hl Hb) as [Hw Hw'].
  apply (uval_inj w); [done..|congruence].
Qed.

(** *** Hexadecimal text *)

(** The value of a digit string read from its last character. *)
Fixpoint rev_hex (ps : list Z) : Z :=
  match ps with
  | [] => 0
  | c :: r => phexdigit c + 16 * rev_hex r
  end.

Lemma phexdigit_range c : 0 <= phexdigit c < 16.
Proof. unfold phexdigit. repeat case_match; bool_to_prop; lia. Qed.

Lemma rev_hex_nonneg ps : 0 <= rev_hex ps.
Proof. induction ps as [|c r IH]; simpl; [done|]. pose proof (phexdigit_range c). lia. Qed.

Lemma rev_hex_digits l : rev_hex (rev l) = digits_val 16 (map phexdigit l).
Proof.
  induction l as [|c l IH] using rev_ind; [done|].
  rewrite rev_app_distr, map_app. cbn [map]. rewrite digits_val_snoc, <- IH. simpl. lia.
Qed.

Lemma lor_nibbles c c' :
  Z.lor (phexdigit c) (u8 (Z.shiftl (phexdigit c') 4)) = phexdigit c + 16 * phexdigit c'.
Proof.
  pose proof (phexdigit_range c). pose proof (phexdigit_range c').
  rewrite u8_small by (rewrite Z.shiftl_mul_pow2; lia).
  rewrite lor_shiftl_add by lia. lia.
Qed.

Lemma sethex_loop_spec fuel : forall ps pre n,
  (length ps <= fuel)%nat -> Forall is_byte pre ->
  let r := sethex_loop ps (length pre) (length pre + n) (pre ++ replicate n 0) in
  length r = (length pre + n)%nat /\ Forall is_byte r /\
  le_val r = le_val pre + 256 ^ Z.of_nat (length pre) * (rev_hex ps mod 256 ^ Z.of_nat n).
Proof.
  induction fuel as [|fuel IH]; intros ps pre n Hf Hpre.
  all: assert (Forall is_byte (pre ++ replicate n 0)) as Hz
    by (apply Forall_app; split; [done|apply Forall_replicate; done]).
  all: assert (le_val (pre ++ replicate n 0) = le_val pre) as Ev
    by (rewrite le_val_app, le_val_zeros; lia).
  all: destruct ps as [|c ps']; cbn [sethex_loop rev_hex] in *; [|simpl in Hf; try lia].
  1, 2: rewrite length_app, length_replicate, Ev, Z.mod_0_l by lia; repeat split; (done || lia).
  pose proof (phexdigit_range c) as Hc.
  destruct n as [|n].
  { rewrite bool_decide_false by lia. rewrite app_nil_r, Z.mod_1_r. repeat split; (done || lia). }
  rewrite bool_decide_true by lia. cbn [replicate].
  rewrite list_insert_middle. destruct ps' as [|c' ps''].
  - rewrite length_app, le_val_app. cbn [length le_val rev_hex]. rewrite length_replicate, le_val_zeros.
    split; [done|]. split.
    + apply Forall_app. split; [done|]. constructor; [unfold is_byte; lia|]. by apply Forall_replicate.
    + rewrite Z.mod_small; [lia|]. rewrite Nat2Z.inj_succ, Z.pow_succ_r by lia. nia.
  - pose proof (phexdigit_range c') as Hc'. rewrite rd_app_mid, list_insert_middle, lor_nibbles.
    destruct (IH ps'' (pre ++ [phexdigit c + 16 * phexdigit c']) n) as (IHl & IHb & IHv).
    { simpl in Hf. lia. }
    { apply Forall_app. split; [done|]. constructor; [unfold is_byte; lia|constructor]. }
    rewrite length_app, <- app_assoc in IHl, IHb, IHv. cbn [length app] in IHl, IHb, IHv.
    replace (length pre + S n)%nat with (length pre + 1 + n)%nat by lia.
    replace (S (length pre)) with (length pre + 1)%nat by lia.
    split; [done|]. split; [done|].
    rewrite IHv, le_val_app. cbn [le_val rev_hex].
    replace (phexdigit c + 16 * (phexdigit c' + 16 * rev_hex ps''))
      with (phexdigit c + 16 * phexdigit c' + rev_hex ps'' * 256) by ring.
    rewrite (Nat2Z.inj_succ n), Z.pow_succ_r, Z.rem_mul_r by lia.
    rewrite Z.mod_add, Z.div_add, (Z.mod_small (_ + _)), (Z.div_small (_ + _)) by lia.
    rewrite Nat2Z.inj_add, Z.pow_add_r by lia. change (256 ^ Z.of_nat 1) with 256. rewrite Z.add_0_l. ring.
Qed.

Lemma SetHex_spec w s :
  wf w (SetHex w s) /\
  uval (SetHex w s) =
    digits_val 16 (map phexdigit (hex_prefix (skip_0x (skip_spaces s)))) mod modulus w.
Proof.
  unfold SetHex. set (d := hex_prefix _).
  destruct (sethex_loop_spec (length (rev d)) (rev d) [] (4 * w)) as (Hl & Hb & Hv);
    [done|constructor|].
  cbn [length Nat.add app le_val] in Hl, Hb, Hv.
  destruct (limbs_of_bytes_spec w _ Hl Hb) as [Hw Hw']. split; [done|].
  rewrite Hw', Hv, rev_hex_digits. change (256 ^ Z.of_nat 0) with 1. rewrite Z.add_0_l, Z.mul_1_l.
  f_equal. unfold modulus. change 256 with (2 ^ 8). rewrite <- Z.pow_mul_r by lia. f_equal. lia.
Qed.

(** The digits [GetHex] prints. *)
Definition hex_digits (bs : list Z) : list Z := concat (map (fun b => [b / 16; b mod 16]) (rev bs)).

Lemma hex_digits_cons b bs : hex_digits (b :: bs) = hex_digits bs ++ [b / 16; b mod 16].
Proof. unfold hex_digits. cbn [rev]. by rewrite map_app, concat_app. Qed.

Lemma hex_digits_val bs : digits_val 16 (hex_digits bs) = le_val bs.
Proof.
  induction bs as [|b bs IH]; [done|]. rewrite hex_digits_cons, digits_val_app, IH.
  unfold digits_val. cbn [fold_left length le_val]. pose proof (Z.div_mod b 16). lia.
Qed.

Lemma hex_digits_range bs : Forall is_byte bs -> Forall (fun d => 0 <= d < 16) (hex_digits bs).
Proof.
  induction 1 as [|b bs Hb Hbs IH]; [constructor|]. rewrite hex_digits_cons.
  unfold is_byte in Hb. apply Forall_app. split; [done|]. repeat constructor.
  - apply Z.div_pos; lia.
  - apply Z.div_lt_upper_bound; lia.
  - apply Z.mod_pos_bound. lia.
  - apply Z.mod_pos_bound. lia.
Qed.

Lemma GetHex_digits a pad :
  GetHex a pad = map hexchar
    (replicate (pad - 2 * length (bytes_of_limbs a)) 0 ++ hex_digits (bytes_of_limbs a)).
Proof.
  unfold GetHex. set (bs := bytes_of_limbs a).
  assert (concat (map sprintf_02x (rev bs)) = map hexchar (hex_digits bs)) as E.
  { induction bs as [|b bs IH]; [done|].
    rewrite hex_digits_cons. cbn [rev]. by rewrite !map_app, concat_app, IH. }
  assert (length (hex_digits bs) = (2 * length bs)%nat) as El.
  { clear E. induction bs as [|b bs IH]; [done|].
    rewrite hex_digits_cons, length_app, IH. simpl. lia. }
  rewrite E, map_app, length_map, El. f_equal.
  induction (pad - 2 * length bs)%nat as [|n IH]; simpl; [done|]. by rewrite IH.
Qed.

Lemma phexdigit_hexchar d : 0 <= d < 16 -> phexdigit (hexchar d) = d.
Proof. intros H. unfold phexdigit, hexchar. repeat case_match; bool_to_prop; lia. Qed.

Lemma hexchar_range d :
  0 <= d < 16 -> 48 <= hexchar d <= 57 \/ 97 <= hexchar d <= 102.
Proof. intros H. unfold hexchar. case_match; bool_to_prop; lia. Qed.

Lemma skip_spaces_hexchars ds :
  Forall (fun d => 0 <= d < 16) ds -> skip_spaces (map hexchar ds) = map hexchar ds.
Proof.
  destruct 1 as [|d ds Hd H]; [done|]. simpl. unfold isspace.
  pose proof (hexchar_range d Hd). case_match eqn:E; [|done].
  apply orb_true_iff in E as [E|E]; bool_to_prop; lia.
Qed.

Lemma skip_0x_hexchars ds :
  Forall (fun d => 0 <= d < 16) ds -> skip_0x (map hexchar ds) = map hexchar ds.
Proof.
  intros H. unfold skip_0x. case_match eqn:E; [|done]. apply andb_true_iff in E as [_ E].
  destruct H as [|d ds Hd [|d' ds' Hd' H]]; [done..|].
  unfold rd in E. simpl in E. pose proof (hexchar_range d' Hd').
  unfold tolower in E. case_match; bool_to_prop; lia.
Qed.

Lemma skip_hexchars ds :
  Forall (fun d => 0 <= d < 16) ds ->
  hex_prefix (skip_0x (skip_spaces (map hexchar ds))) = map hexchar ds.
Proof.
  intros H. rewrite skip_spaces_hexchars, skip_0x_hexchars by done.
  induction H as [|d ds Hd H IH]; [done|]. cbn [map hex_prefix].
  rewrite phexdigit_hexchar, IH by done.
  destruct (Z.eqb_spec d 0) as [->|Hn]; [done|]. done.
Qed.

Lemma SetHex_GetHex w a pad : wf w a -> SetHex w (GetHex a pad) = a.
Proof.
  intros H. destruct (bytes_of_limbs_spec w a H) as (Hl & Hb & Hv).
  destruct (SetHex_spec w (GetHex a pad)) as [Hw E].
  apply (uval_inj w); [done..|]. rewrite E, GetHex_digits.
  assert (Forall (fun d => 0 <= d < 16)
    (replicate (pad - 2 * length (bytes_of_limbs a)) 0 ++ hex_digits (bytes_of_limbs a))) as Hd.
  { apply Forall_app. split; [by apply Forall_replicate|by apply hex_digits_range]. }
  rewrite skip_hexchars, map_map by done.
  rewrite (map_ext_in _ (fun d => d)), map_id.
  2:{ intros d Hin. apply phexdigit_hexchar. rewrite Forall_forall in Hd.
      apply Hd. by apply list_elem_of_In. }
  rewrite digits_val_app, hex_digits_val, Hv, digits_val_zeros.
  rewrite Z.mul_0_l, Z.add_0_l. apply Z.mod_small. by apply uval_range.
Qed.

(** *** Streams and byte vectors *)

Lemma Unserialize_Serialize w a rest :
  wf w a -> Unserialize w (Serialize a ++ rest) = Some (a, rest).
Proof.
  intros H. destruct (bytes_of_limbs_spec w a H) as (Hl & Hb & Hv).
  unfold Unserialize, Serialize. rewrite bool_decide_true by (rewrite length_app; lia).
  rewrite take_app_length', drop_app_length' by done. by rewrite limbs_bytes_id.
Qed.

Lemma Get64_spec w a n :
  wf w a -> (2 * n + 1 < w)%nat -> Get64 a n = (uval a / 2 ^ (64 * Z.of_nat n)) mod 2 ^ 64.
Proof.
  intros Ha Hn. unfold Get64.
  pose proof (wf_limb w a (2 * n) Ha) as L0. pose proof (wf_limb w a (2 * n + 1) Ha) as L1.
  unfold limb in L0, L1. rewrite u64_small by (rewrite Z.shiftl_mul_pow2; lia).
  apply Z.bits_inj'. intros m Hm.
  rewrite testbit_mod_pow2, Z.div_pow2_bits, lor_shiftl_add, testbit_add_shift by lia.
  destruct (Z.ltb_spec m 32).
  - rewrite <- (testbit_uval_limb w) by (done || lia).
    replace (m <? 64) with true by (symmetry; apply Z.ltb_lt; lia). rewrite andb_true_l. f_equal. lia.
  - destruct (Z.ltb_spec m 64).
    + rewrite <- (testbit_uval_limb w) by (done || lia). rewrite andb_true_l. f_equal. lia.
    + rewrite (testbit_high 32) by lia. done.
Qed.

Lemma of_base_spec b : of_base b = b.
Proof.
  unfold of_base, WIDTH, zero.
  destruct (for_up_pointwise (fun i _ => rd b i) (replicate (length b) 0)) as [Hl H].
  cbn beta in Hl, H. rewrite !length_replicate in Hl, H. apply rd_ext; [done|].
  intros i Hi. apply H. by rewrite Hl in Hi.
Qed.

(** ** Properties *)

(** Arithmetic of [base_uint<32w>] is arithmetic modulo 2^(32w): for
    well-formed operands, addition, subtraction, negation, increment,
    decrement, complement, assignment from and addition of a 64-bit value give
    well-formed results with the expected value; no carry or borrow is lost
    between limbs. *)
Theorem uint_arith_modular w a b x :
  (2 <= w)%nat -> wf w a -> wf w b -> 0 <= x < 2 ^ 64 ->
  (wf w (op_add a b) /\ uval (op_add a b) = (uval a + uval b) mod modulus w) /\
  (wf w (op_sub a b) /\ uval (op_sub a b) = (uval a - uval b) mod modulus w) /\
  (wf w (op_neg a) /\ uval (op_neg a) = (- uval a) mod modulus w) /\
  (wf w (op_inc a) /\ uval (op_inc a) = (uval a + 1) mod modulus w) /\
  (wf w (op_dec a) /\ uval (op_dec a) = (uval a - 1) mod modulus w) /\
  (wf w (op_compl a) /\ uval (op_compl a) = modulus w - 1 - uval a) /\
  (wf w (op_assign64 a x) /\ uval (op_assign64 a x) = x) /\
  (wf w (op_add64 a x) /\ uval (op_add64 a x) = (uval a + x) mod modulus w) /\
  (wf w (op_sub64 a x) /\ uval (op_sub64 a x) = (uval a - x) mod modulus w).
Proof.
  intros Hw Ha Hb Hx. assert (length a = w) as Hl by apply Ha.
  destruct (op_assign64_spec w (replicate (WIDTH a) 0) x) as [Hz Ez];
    [by rewrite length_replicate|done..|].
  pose proof (op_add_spec w a _ Ha Hz) as H64. rewrite Ez in H64.
  pose proof (op_sub_spec w a _ Ha Hz) as S64. rewrite Ez in S64.
  auto 20 using op_add_spec, op_sub_spec, op_neg_spec, op_inc_spec, op_dec_spec, op_compl_spec,
    op_assign64_spec.
Qed.

Lemma uint_arith_modular_witness :
  wf 8 (zero 8) /\ uval (op_dec (zero 8)) = 2 ^ 256 - 1.
Proof.
  split; [split; [done|repeat constructor; done]|].
  destruct (uint_arith_modular 8 (zero 8) (zero 8) 7) as (_ & _ & _ & _ & [_ E] & _);
    [lia|split; [done|repeat constructor; done]..|lia|].
  rewrite E. reflexivity.
Defined.

(** The bitwise operators act bit by bit on the values, the shift operators
    multiply and divide by a power of two for every shift count (also at and
    above the width, where the result is 0), and [Get64(n)] is the n-th 64-bit
    word. *)
Theorem uint_bits_and_shifts w a b shift n :
  wf w a -> wf w b -> 0 <= shift < 2 ^ 32 -> (2 * n + 1 < w)%nat ->
  (wf w (op_xor a b) /\ uval (op_xor a b) = Z.lxor (uval a) (uval b)) /\
  (wf w (op_and a b) /\ uval (op_and a b) = Z.land (uval a) (uval b)) /\
  (wf w (op_or a b) /\ uval (op_or a b) = Z.lor (uval a) (uval b)) /\
  (wf w (op_shl a shift) /\ uval (op_shl a shift) = (uval a * 2 ^ shift) mod modulus w) /\
  (wf w (op_shr a shift) /\ uval (op_shr a shift) = uval a / 2 ^ shift) /\
  Get64 a n = (uval a / 2 ^ (64 * Z.of_nat n)) mod 2 ^ 64.
Proof.
  intros Ha Hb Hs Hn. pose proof (op_shl_spec w a shift Ha). pose proof (op_shr_spec w a shift Ha).
  pose proof (Get64_spec w a n Ha Hn). destruct Hs. auto 10 using op_xor_spec, op_and_spec, op_or_spec.
Qed.

Lemma uint_bits_and_shifts_witness :
  wf 8 (of_u64 8 5) /\ uval (op_shl (of_u64 8 5) 200) = 5 * 2 ^ 200.
Proof.
  assert (wf 8 (of_u64 8 5)) as H by (split; [done|repeat constructor; done]).
  split; [done|].
  destruct (uint_bits_and_shifts 8 (of_u64 8 5) (of_u64 8 5) 200 0) as (_ & _ & _ & [_ E] & _);
    [done|done|lia|lia|].
  rewrite E. reflexivity.
Defined.

(** The comparison operators order numbers by value, [==] and [!=] (with a
    number or a 64-bit value) and [!] decide equality of values, and equal
    values have equal limbs. *)
Theorem uint_compare_by_value w a b x :
  (2 <= w)%nat -> wf w a -> wf w b -> 0 <= x < 2 ^ 64 ->
  op_lt a b = (uval a <? uval b) /\ op_le a b = (uval a <=? uval b) /\
  op_gt a b = (uval b <? uval a) /\ op_ge a b = (uval b <=? uval a) /\
  op_eq a b = bool_decide (uval a = uval b) /\ op_ne a b = negb (bool_decide (uval a = uval b)) /\
  op_eq64 a x = bool_decide (uval a = x) /\ op_ne64 a x = negb (bool_decide (uval a = x)) /\
  op_not a = bool_decide (uval a = 0) /\
  (uval a = uval b -> a = b).
Proof.
  intros Hw Ha Hb Hx. destruct (compare_spec w a b Ha Hb) as (L1 & L2 & L3 & L4).
  unfold op_ne, op_ne64. rewrite (op_eq_spec w), (op_eq64_spec w) by done.
  repeat (split; [done|]). split; [|by apply (uval_inj w)].
  destruct Ha as [_ H]. clear - H. induction H as [|y a Hy H IH]; [done|].
  cbn [op_not]. rewrite uval_cons. pose proof (uval_n_range a (length a) H) as R.
  change (uval_n a (length a)) with (uval a) in R. unfold limb in Hy.
  destruct (Z.eqb_spec y 0) as [->|Hne].
  - rewrite IH. apply bool_decide_ext. lia.
  - symmetry. apply bool_decide_eq_false. lia.
Qed.

Lemma uint_compare_by_value_witness :
  op_lt (of_u64 8 5) (op_shl (of_u64 8 1) 64) = true.
Proof.
  destruct (uint_compare_by_value 8 (of_u64 8 5) (op_shl (of_u64 8 1) 64) 5) as [E _];
    [lia|split; [done|repeat constructor; done]..|lia|].
  rewrite E. reflexivity.
Defined.

(** Text and wire forms: [SetHex] always yields a well-formed number, the
    value of the hexadecimal digits after optional blanks and 0x prefix,
    truncated to the width; reading back what [GetHex] prints (with any
    padding) and what [Serialize] writes gives the number back, leaving the
    rest of the stream; and the vector constructor rejects (as zero) a vector
    of the wrong length. *)
Theorem uint_text_and_bytes w a s pad rest vch :
  wf w a -> (2 <= w)%nat ->
  (wf w (SetHex w s) /\
   uval (SetHex w s) =
     digits_val 16 (map phexdigit (hex_prefix (skip_0x (skip_spaces s)))) mod modulus w) /\
  SetHex w (GetHex a pad) = a /\
  Unserialize w (Serialize a ++ rest) = Some (a, rest) /\
  GetSerializeSize a = Z.of_nat (length (Serialize a)) /\
  of_vch w (Serialize a) = a /\
  (length vch <> (4 * w)%nat -> uval (of_vch w vch) = 0).
Proof.
  intros Ha Hw. destruct (bytes_of_limbs_spec w a Ha) as (Hl & Hb & Hv).
  split; [apply SetHex_spec|]. split; [by apply SetHex_GetHex|].
  split; [by apply Unserialize_Serialize|]. unfold GetSerializeSize, WIDTH, Serialize, of_vch.
  split; [by rewrite Hl, (proj1 Ha)|]. split.
  - rewrite bool_decide_true by done. by apply limbs_bytes_id.
  - intros Hne. rewrite bool_decide_false by done.
    apply (op_assign64_spec w); [apply length_replicate|done|lia].
Qed.

Lemma uint_text_and_bytes_witness :
  SetHex 8 (GetHex (of_u64 8 48879) 70) = of_u64 8 48879 /\ uval (of_string 8 (str " 0xbEef!")) = 48879.
Proof.
  destruct (uint_text_and_bytes 8 (of_u64 8 48879) (str " 0xbEef!") 70 [] []) as ([_ E1] & E2 & _);
    [split; [done|repeat constructor; done]|lia|].
  split; [exact E2|unfold of_string; rewrite E1; reflexivity].
Defined.

End Uint.
