(* ===== verification/Bignum.v ===== *)
(** * Arbitrary precision integers (src/src/bignum.h)

    [CBigNum] wraps OpenSSL's [BIGNUM], which is not part of the repository.
    The library is a parameter here: the class [BNLib] lists the functions the
    wrapper calls, on the integer a [BIGNUM] denotes, and [BNLaws] states what
    the OpenSSL manual pages promise of them (bn(3), BN_add(3), BN_bn2bin(3):
    the MPI format is a 4-byte big-endian length and a big-endian number whose
    most significant bit is the sign).  The instance [bn_reference] satisfies
    the laws, so they are consistent, and makes the definitions executable.

    Modelled: the conversions from and to machine integers, [uint256], byte
    vectors, compact difficulty bits and hexadecimal text, and the operators. *)

From S2P Require Import Prelude Uint256.
Import Uint.

(** ** The interface to OpenSSL *)

Class BNLib := {
  BN_set_word : Z -> Z;
  BN_get_word : Z -> Z;
  BN_is_negative : Z -> bool;
  BN_is_zero : Z -> bool;
  BN_set_negative : Z -> bool -> Z;
  BN_cmp : Z -> Z -> Z;
  BN_add : Z -> Z -> Z;
  BN_sub : Z -> Z -> Z;
  BN_mul : Z -> Z -> Z;
  (** quotient and remainder; fails on a zero divisor *)
  BN_div : Z -> Z -> option (Z * Z);
  BN_lshift : Z -> Z -> Z;
  BN_rshift : Z -> Z -> Z;
  BN_mpi2bn : list Z -> Z;
  BN_bn2mpi : Z -> list Z
}.

(** The MPI format. *)
Definition mpi_val (p : list Z) : Z :=
  match p with
  | [] => 0
  | _ =>
      let x := digits_val 256 p in
      let sign := 2 ^ (8 * Z.of_nat (length p) - 1) in
      if sign <=? x then - (x - sign) else x
  end.

(** The number of payload bytes: room for the magnitude and the sign bit. *)
Definition mpi_size (v : Z) : Z := if v =? 0 then 0 else (Z.log2 (Z.abs v) + 1) / 8 + 1.

Definition mpi_payload (v : Z) : list Z :=
  be_bytes (Z.to_nat (mpi_size v))
    (Z.abs v + if v <? 0 then 2 ^ (8 * mpi_size v - 1) else 0).

Class BNLaws (L : BNLib) : Prop := {
  BN_set_word_spec n : 0 <= n < 2 ^ 64 -> BN_set_word n = n;
  BN_get_word_spec v : BN_get_word v = if Z.abs v <? 2 ^ 64 then Z.abs v else 2 ^ 64 - 1;
  BN_is_negative_spec v : BN_is_negative v = (v <? 0);
  BN_is_zero_spec v : BN_is_zero v = (v =? 0);
  BN_set_negative_spec v b : BN_set_negative v b = if b then - Z.abs v else Z.abs v;
  BN_cmp_spec a b : BN_cmp a b = if a <? b then -1 else if a =? b then 0 else 1;
  BN_add_spec a b : BN_add a b = a + b;
  BN_sub_spec a b : BN_sub a b = a - b;
  BN_mul_spec a b : BN_mul a b = a * b;
  BN_div_spec a b : BN_div a b = if b =? 0 then None else Some (Z.quot a b, Z.rem a b);
  BN_lshift_spec a n : 0 <= n -> BN_lshift a n = a * 2 ^ n;
  BN_rshift_spec a n : 0 <= n -> BN_rshift a n = Z.sgn a * (Z.abs a / 2 ^ n);
  BN_mpi2bn_spec p :
    Z.of_nat (length p) < 2 ^ 32 -> Forall is_byte p ->
    BN_mpi2bn (be_bytes 4 (Z.of_nat (length p)) ++ p) = mpi_val p;
  BN_bn2mpi_spec v :
    mpi_size v < 2 ^ 32 -> BN_bn2mpi v = be_bytes 4 (mpi_size v) ++ mpi_payload v
}.

(** A library that satisfies the laws. *)
Definition bn_reference : BNLib := {|
  BN_set_word n := n;
  BN_get_word v := if Z.abs v <? 2 ^ 64 then Z.abs v else 2 ^ 64 - 1;
  BN_is_negative v := v <? 0;
  BN_is_zero v := v =? 0;
  BN_set_negative v b := if b then - Z.abs v else Z.abs v;
  BN_cmp a b := if a <? b then -1 else if a =? b then 0 else 1;
  BN_add a b := a + b;
  BN_sub a b := a - b;
  BN_mul a b := a * b;
  BN_div a b := if b =? 0 then None else Some (Z.quot a b, Z.rem a b);
  BN_lshift a n := a * 2 ^ n;
  BN_rshift a n := Z.sgn a * (Z.abs a / 2 ^ n);
  BN_mpi2bn p := mpi_val (drop 4 p);
  BN_bn2mpi v := be_bytes 4 (mpi_size v) ++ mpi_payload v
|}.

#[export] Instance bn_reference_laws : BNLaws bn_reference.
Proof. by split. Qed.

(** ** The wrapper *)

Module BigNum.

Section bignum.
Context {L : BNLib}.

Definition setulong (n : Z) : Z := BN_set_word n.
Definition getulong (v : Z) : Z := BN_get_word v.
Definition getuint (v : Z) : Z := u32 (BN_get_word v).

Definition INT_MAX : Z := 2 ^ 31 - 1.
Definition INT_MIN : Z := - 2 ^ 31.

Definition getint (v : Z) : Z :=
  let n := BN_get_word v in
  if negb (BN_is_negative v)
  then if INT_MAX <? n then INT_MAX else n
  else if INT_MAX <? n then INT_MIN else - i32 n.

(** The 4 size bytes the setters store in front of the number. *)
Definition size_bytes (nSize : Z) : list Z :=
  [Z.land (Z.shiftr nSize 24) 0xff; Z.land (Z.shiftr nSize 16) 0xff;
   Z.land (Z.shiftr nSize 8) 0xff; Z.land nSize 0xff].

(** The loop of [setint64]: the bytes appended to [p]. *)
Fixpoint setint64_loop (cnt : nat) (n : Z) (fNegative fLeadingZeroes : bool) : list Z :=
  match cnt with
  | O => []
  | S cnt' =>
      let c := Z.land (Z.shiftr n 56) 0xff in
      let n' := i64 (Z.shiftl n 8) in
      if fLeadingZeroes then
        if c =? 0 then setint64_loop cnt' n' fNegative true
        else if negb (Z.land c 0x80 =? 0)
        then (if fNegative then 0x80 else 0) :: c :: setint64_loop cnt' n' fNegative false
        else (if fNegative then Z.lor c 0x80 else c) :: setint64_loop cnt' n' fNegative false
      else c :: setint64_loop cnt' n' fNegative false
  end.

Definition setint64 (n : Z) : Z :=
  let fNegative := n <? 0 in
  let n := if fNegative then i64 (- n) else n in
  let p := setint64_loop 8 n fNegative true in
  BN_mpi2bn (size_bytes (Z.of_nat (length p)) ++ p).

Fixpoint setuint64_loop (cnt : nat) (n : Z) (fLeadingZeroes : bool) : list Z :=
  match cnt with
  | O => []
  | S cnt' =>
      let c := Z.land (Z.shiftr n 56) 0xff in
      let n' := u64 (Z.shiftl n 8) in
      if fLeadingZeroes then
        if c =? 0 then setuint64_loop cnt' n' true
        else if negb (Z.land c 0x80 =? 0)
        then 0 :: c :: setuint64_loop cnt' n' false
        else c :: setuint64_loop cnt' n' false
      else c :: setuint64_loop cnt' n' false
  end.

Definition setuint64 (n : Z) : Z :=
  let p := setuint64_loop 8 n true in
  BN_mpi2bn (size_bytes (Z.of_nat (length p)) ++ p).

(** The constructors from machine integers. *)
Definition CBigNum_int (n : Z) : Z := if 0 <=? n then setulong n else setint64 n.

(** [vch[4] &= 0x7f] on the MPI image. *)
Definition clear_sign (vch : list Z) : list Z :=
  if bool_decide (4 < length vch)%nat then <[4%nat := Z.land (rd vch 4) 0x7f]> vch else vch.

(** [for (i = 0, j = size-1; i < len && j >= 4; i++, j--) mem[i] = vch[j];] *)
Definition copy_reversed (len : nat) (vch : list Z) (mem : list Z) : list Z :=
  for_up 0 (len `min` (length vch - 4))
    (fun i s => <[i := rd vch (length vch - 1 - i)]> s) mem.

Definition getuint64 (v : Z) : Z :=
  let vch := BN_bn2mpi v in
  if bool_decide (length vch < 4)%nat then 0
  else le_val (copy_reversed 8 (clear_sign vch) (replicate 8 0)).

(** The loop of [setuint256]: [cs] are the bytes of [n] from the last down. *)
Fixpoint setuint256_loop (cs : list Z) (fLeadingZeroes : bool) : list Z :=
  match cs with
  | [] => []
  | c :: cs' =>
      if fLeadingZeroes then
        if c =? 0 then setuint256_loop cs' true
        else if negb (Z.land c 0x80 =? 0)
        then 0 :: c :: setuint256_loop cs' false
        else c :: setuint256_loop cs' false
      else c :: setuint256_loop cs' false
  end.

Definition setuint256 (n : list Z) : Z :=
  let p := setuint256_loop (rev (bytes_of_limbs n)) true in
  BN_mpi2bn (size_bytes (Z.of_nat (length p)) ++ p).

Definition getuint256 (v : Z) : list Z :=
  let vch := BN_bn2mpi v in
  if bool_decide (length vch < 4)%nat then of_u64 8 0
  else limbs_of_bytes 8 (copy_reversed 32 (clear_sign vch) (replicate 32 0)).

Definition setvch (vch : list Z) : Z :=
  BN_mpi2bn (size_bytes (u32 (Z.of_nat (length vch))) ++ rev vch).

Definition getvch (v : Z) : list Z :=
  let vch := BN_bn2mpi v in
  if bool_decide (length vch <= 4)%nat then [] else rev (drop 4 vch).

(** [SetCompact]: three mantissa bytes at the top of an [nSize]-byte number. *)
Definition SetCompact (nCompact : Z) : Z :=
  let nSize := Z.shiftr nCompact 24 in
  let vch := replicate (4 + Z.to_nat nSize) 0 in
  let vch := <[3%nat := u8 nSize]> vch in
  let vch := if 1 <=? nSize then <[4%nat := Z.land (Z.shiftr nCompact 16) 0xff]> vch else vch in
  let vch := if 2 <=? nSize then <[5%nat := Z.land (Z.shiftr nCompact 8) 0xff]> vch else vch in
  let vch := if 3 <=? nSize then <[6%nat := Z.land nCompact 0xff]> vch else vch in
  BN_mpi2bn vch.

Definition GetCompact (v : Z) : Z :=
  let vch := BN_bn2mpi v in
  let nSize := u32 (Z.of_nat (length vch) - 4) in
  let nCompact := u32 (Z.shiftl nSize 24) in
  let nCompact := if 1 <=? nSize then Z.lor nCompact (Z.shiftl (rd vch 4) 16) else nCompact in
  let nCompact := if 2 <=? nSize then Z.lor nCompact (Z.shiftl (rd vch 5) 8) else nCompact in
  let nCompact := if 3 <=? nSize then Z.lor nCompact (rd vch 6) else nCompact in
  nCompact.

(** ** Operators.  Allocation failure inside OpenSSL, the other reason for a
    [bignum_error], is not modelled. *)

Definition op_not (v : Z) : bool := BN_is_zero v.
Definition op_plus (a b : Z) : Z := BN_add a b.
Definition op_minus (a b : Z) : Z := BN_sub a b.
Definition op_uminus (a : Z) : Z := BN_set_negative a (negb (BN_is_negative a)).
Definition op_times (a b : Z) : Z := BN_mul a b.
Definition op_div (a b : Z) : option Z := fst <$> BN_div a b.
Definition op_mod (a b : Z) : option Z := snd <$> BN_div a b.
Definition op_lshift (a shift : Z) : Z := BN_lshift a shift.

(** [operator>>=] returns 0 when 2^shift exceeds the number. *)
Definition op_rshift (v shift : Z) : Z :=
  let a := BN_lshift (CBigNum_int 1) shift in
  if 0 <? BN_cmp a v then CBigNum_int 0 else BN_rshift v shift.

Definition op_preinc (v : Z) : Z := BN_add v 1.
Definition op_predec (v : Z) : Z := BN_sub v 1.

Definition op_eqb (a b : Z) : bool := BN_cmp a b =? 0.
Definition op_neb (a b : Z) : bool := negb (BN_cmp a b =? 0).
Definition op_leb (a b : Z) : bool := BN_cmp a b <=? 0.
Definition op_geb (a b : Z) : bool := 0 <=? BN_cmp a b.
Definition op_ltb (a b : Z) : bool := BN_cmp a b <? 0.
Definition op_gtb (a b : Z) : bool := 0 <? BN_cmp a b.

(** ** Text *)

Definition isxdigit (c : Z) : bool :=
  ((48 <=? c) && (c <=? 57)) || ((65 <=? c) && (c <=? 70)) || ((97 <=? c) && (c <=? 102)).

Fixpoint sethex_digits (psz : list Z) (acc : Z) : Z :=
  match psz with
  | c :: r =>
      if isxdigit c
      then sethex_digits r (BN_add (BN_lshift acc 4) (CBigNum_int (phexdigit c)))
      else acc
  | [] => acc
  end.

Definition SetHex (s : list Z) : Z :=
  let psz := skip_spaces s in
  let fNegative := rd psz 0 =? 45 in
  let psz := if fNegative then drop 1 psz else psz in
  let psz := skip_spaces (skip_0x psz) in
  let v := sethex_digits psz (CBigNum_int 0) in
  if fNegative then BN_sub (CBigNum_int 0) v else v.

(** The division loop of [ToString]; [None] is the exception of [BN_div].
    The digits come out least significant first.  Every step divides by at
    least 2, so [Z.log2 bn + 1] steps empty any positive number. *)
Fixpoint tostring_loop (fuel : nat) (bn bnBase : Z) : option (list Z) :=
  match fuel with
  | O => None
  | S f =>
      if 0 <? BN_cmp bn (CBigNum_int 0) then
        match BN_div bn bnBase with
        | None => None
        | Some (dv, rem) =>
            match tostring_loop f dv bnBase with
            | None => None
            | Some str => Some (hexchar (getulong rem) :: str)
            end
        end
      else Some []
  end.

Definition ToString (v nBase : Z) (nPadding : nat) : option (list Z) :=
  let bn := BN_set_negative v false in
  if BN_cmp bn (CBigNum_int 0) =? 0 then Some (str "0")
  else
    match tostring_loop (Z.to_nat (Z.log2 bn + 2)) bn (CBigNum_int nBase) with
    | None => None
    | Some s =>
        let s := s ++ replicate (nPadding - length s) 48 in
        let s := if BN_is_negative v then s ++ [45] else s in
        Some (rev s)
    end.

Definition GetHex (v : Z) (nPadding : nat) : option (list Z) := ToString v 16 nPadding.

End bignum.

(** ** Lemmas *)

Section lemmas.
Context {L : BNLib} {HL : BNLaws L}.

Lemma size_bytes_be n : size_bytes n = be_bytes 4 n.
Proof.
  unfold size_bytes. rewrite !land_0xff, !Z.shiftr_div_pow2 by lia.
  unfold be_bytes. cbn [le_bytes rev app]. rewrite !Z.div_div by lia.
  repeat f_equal.
Qed.

Lemma mpi2bn_sized p :
  Z.of_nat (length p) < 2 ^ 32 -> Forall is_byte p ->
  BN_mpi2bn (size_bytes (Z.of_nat (length p)) ++ p) = mpi_val p.
Proof. intros. rewrite size_bytes_be. by apply BN_mpi2bn_spec. Qed.

(** *** The MPI format *)

Lemma half_pow256 n : 2 ^ (8 * Z.of_nat (S n) - 1) = 128 * 256 ^ Z.of_nat n.
Proof.
  rewrite pow256 by lia. change 128 with (2 ^ 7). rewrite <- Z.pow_add_r by lia. f_equal. lia.
Qed.

Lemma mpi_val_cons b p :
  is_byte b -> Forall is_byte p ->
  mpi_val (b :: p) =
    if 128 <=? b then - ((b - 128) * 256 ^ Z.of_nat (length p) + digits_val 256 p)
    else b * 256 ^ Z.of_nat (length p) + digits_val 256 p.
Proof.
  intros Hb Hp. unfold mpi_val. cbn [length].
  rewrite half_pow256, digits_val_cons.
  pose proof (digits_val_range 256 p ltac:(lia) Hp).
  destruct (Z.leb_spec 128 b).
  - replace (_ <=? _) with true by (symmetry; apply Z.leb_le; nia). lia.
  - replace (_ <=? _) with false by (symmetry; apply Z.leb_gt; nia). done.
Qed.

Lemma mpi_size_nonneg v : 0 <= mpi_size v.
Proof.
  unfold mpi_size. case_match; [done|]. pose proof (Z.log2_nonneg (Z.abs v)).
  pose proof (Z.div_pos (Z.log2 (Z.abs v) + 1) 8). lia.
Qed.

Lemma mpi_size_bound v : v <> 0 -> Z.abs v < 2 ^ (8 * mpi_size v - 1) /\ 1 <= mpi_size v.
Proof.
  intros Hv. unfold mpi_size. rewrite (proj2 (Z.eqb_neq v 0)) by done.
  pose proof (Z.log2_nonneg (Z.abs v)). pose proof (Z.log2_spec (Z.abs v) ltac:(lia)).
  pose proof (Z.div_pos (Z.log2 (Z.abs v) + 1) 8).
  pose proof (Z.div_mod (Z.log2 (Z.abs v) + 1) 8). pose proof (Z.mod_pos_bound (Z.log2 (Z.abs v) + 1) 8).
  split; [|lia]. eapply Z.lt_le_trans; [apply H0|]. apply Z.pow_le_mono_r; lia.
Qed.

Lemma length_mpi_payload v : Z.of_nat (length (mpi_payload v)) = mpi_size v.
Proof. unfold mpi_payload. rewrite length_be_bytes. pose proof (mpi_size_nonneg v). lia. Qed.

(** The payload as a sign-magnitude number. *)
Lemma mpi_payload_digits v :
  digits_val 256 (mpi_payload v) = Z.abs v + if v <? 0 then 2 ^ (8 * mpi_size v - 1) else 0.
Proof.
  unfold mpi_payload. rewrite digits_val_be_bytes. apply Z.mod_small.
  pose proof (mpi_size_nonneg v). rewrite Z2Nat.id, pow256 by lia.
  destruct (decide (v = 0)) as [->|Hv]; [done|].
  destruct (mpi_size_bound v Hv).
  assert (2 ^ (8 * mpi_size v) = 2 * 2 ^ (8 * mpi_size v - 1)) as ->
    by (rewrite <- Z.pow_succ_r by lia; f_equal; lia).
  case_match; lia.
Qed.

Lemma mpi_val_payload v : mpi_val (mpi_payload v) = v.
Proof.
  destruct (decide (v = 0)) as [->|Hv]; [done|].
  destruct (mpi_size_bound v Hv) as [Hb H1]. pose proof (length_mpi_payload v) as Hl.
  unfold mpi_val. destruct (mpi_payload v) eqn:E; [simpl in Hl; lia|]. rewrite <- E.
  rewrite mpi_payload_digits. rewrite E, Hl. destruct (Z.ltb_spec v 0).
  - replace (_ <=? _) with true by (symmetry; apply Z.leb_le; lia). lia.
  - replace (_ <=? _) with false by (symmetry; apply Z.leb_gt; lia). lia.
Qed.

Lemma mpi_payload_bytes v : Forall is_byte (mpi_payload v).
Proof. apply be_bytes_is_byte. Qed.

(** *** Machine integers to numbers *)

(** The common shape of the three byte loops: strip leading zeroes, make room
    for the sign bit, set it. *)
Fixpoint sbytes (cs : list Z) (neg lead : bool) : list Z :=
  match cs with
  | [] => []
  | c :: cs' =>
      if lead then
        if c =? 0 then sbytes cs' neg true
        else if negb (Z.land c 0x80 =? 0)
        then (if neg then 0x80 else 0) :: c :: sbytes cs' neg false
        else (if neg then Z.lor c 0x80 else c) :: sbytes cs' neg false
      else c :: sbytes cs' neg false
  end.

Lemma sbytes_tail cs neg : sbytes cs neg false = cs.
Proof. induction cs as [|c cs IH]; simpl; [done|]. by rewrite IH. Qed.

Lemma sbytes_spec cs neg :
  Forall is_byte cs ->
  Forall is_byte (sbytes cs neg true) /\ (length (sbytes cs neg true) <= S (length cs))%nat /\
  mpi_val (sbytes cs neg true) = (if neg then -1 else 1) * digits_val 256 cs.
Proof.
  induction 1 as [|c cs Hc Hcs (IHb & IHl & IHv)].
  { repeat split; [constructor|simpl; lia|by destruct neg]. }
  assert (0 <= c < 256) as Hc' by exact Hc.
  cbn [sbytes length]. rewrite digits_val_cons, sbytes_tail.
  destruct (Z.eqb_spec c 0) as [->|Hne].
  { split; [done|]. split; [lia|]. rewrite IHv. lia. }
  rewrite land_0x80 by done. destruct (Z.leb_spec 128 c); cbn [negb Z.eqb].
  - split; [|split; [simpl; lia|]].
    + constructor; [|by constructor]. unfold is_byte. destruct neg; lia.
    + assert (is_byte (if neg then 128 else 0)) by (unfold is_byte; destruct neg; lia).
      rewrite mpi_val_cons, digits_val_cons by (done || by constructor).
      destruct neg; [change (128 <=? 128) with true|change (128 <=? 0) with false]; cbn iota; lia.
  - destruct neg.
    + rewrite lor_0x80 by done. split; [|split; [simpl; lia|]].
      * constructor; [unfold is_byte; lia|done].
      * rewrite mpi_val_cons by (unfold is_byte; done || lia).
        replace (128 <=? c + 128) with true by (symmetry; apply Z.leb_le; lia). lia.
    + split; [|split; [simpl; lia|]].
      * by constructor.
      * rewrite mpi_val_cons by done.
        replace (128 <=? c) with false by (symmetry; apply Z.leb_gt; lia). lia.
Qed.

Lemma top_byte n : Z.land (Z.shiftr n 56) 0xff = (n mod 2 ^ 64) / 2 ^ 56.
Proof.
  rewrite land_0xff, Z.shiftr_div_pow2 by lia.
  pose proof (Z.div_mod n (2 ^ 64)). pose proof (Z.mod_pos_bound n (2 ^ 64)).
  set (q := n / 2 ^ 64) in *. set (r := n mod 2 ^ 64) in *.
  replace n with (r + (q * 256) * 2 ^ 56) by lia.
  rewrite Z.div_add, Z.mod_add by lia. apply Z.mod_small.
  split; [apply Z.div_pos; lia|apply Z.div_lt_upper_bound; lia].
Qed.

(** The remaining bytes after shifting the top byte out. *)
Lemma shift_out cnt x n :
  (S cnt <= 8)%nat ->
  n mod 2 ^ 64 = (x mod 256 ^ Z.of_nat (S cnt)) * 2 ^ (64 - 8 * Z.of_nat (S cnt)) ->
  (n mod 2 ^ 64) / 2 ^ 56 = (x / 256 ^ Z.of_nat cnt) mod 256 /\
  (n * 2 ^ 8) mod 2 ^ 64 = (x mod 256 ^ Z.of_nat cnt) * 2 ^ (64 - 8 * Z.of_nat cnt).
Proof.
  intros Hc E. rewrite E.
  assert (256 ^ Z.of_nat (S cnt) = 256 ^ Z.of_nat cnt * 256) as EP
    by (rewrite Nat2Z.inj_succ, Z.pow_succ_r by lia; lia).
  assert (2 ^ (64 - 8 * Z.of_nat cnt) = 2 ^ (64 - 8 * Z.of_nat (S cnt)) * 256) as EQ.
  { change 256 with (2 ^ 8). rewrite <- Z.pow_add_r by lia. f_equal. lia. }
  assert (2 ^ 64 = 256 ^ Z.of_nat cnt * 2 ^ (64 - 8 * Z.of_nat cnt)) as E64.
  { rewrite pow256, <- Z.pow_add_r by lia. f_equal. lia. }
  set (Q := 2 ^ (64 - 8 * Z.of_nat (S cnt))) in *. set (P := 256 ^ Z.of_nat cnt) in *.
  assert (0 < Q) by (apply Z.pow_pos_nonneg; lia). assert (0 < P) by (apply Z.pow_pos_nonneg; lia).
  rewrite EP, Z.rem_mul_r in * by lia.
  pose proof (Z.mod_pos_bound x P). pose proof (Z.mod_pos_bound (x / P) 256).
  split.
  - assert (2 ^ 56 = P * Q) as -> by lia.
    symmetry. apply (Z.div_unique _ _ _ (x mod P * Q)); [|ring]. nia.
  - rewrite Z.mul_mod, E by lia. rewrite EQ in *.
    rewrite Z.mul_mod_idemp_r, E64 by lia.
    symmetry. apply (Z.mod_unique _ _ ((x / P) mod 256)); [|nia]. nia.
Qed.

Lemma setint64_loop_spec cnt : forall n x neg lead,
  (cnt <= 8)%nat -> n mod 2 ^ 64 = (x mod 256 ^ Z.of_nat cnt) * 2 ^ (64 - 8 * Z.of_nat cnt) ->
  setint64_loop cnt n neg lead = sbytes (be_bytes cnt x) neg lead.
Proof.
  induction cnt as [|cnt IH]; intros n x neg lead Hc E; [done|].
  destruct (shift_out cnt x n Hc E) as [E1 E2].
  rewrite be_bytes_S. cbn [setint64_loop sbytes]. rewrite top_byte, E1.
  assert (forall b, setint64_loop cnt (i64 (Z.shiftl n 8)) neg b = sbytes (be_bytes cnt x) neg b) as IH'.
  { intros b. apply IH; [lia|]. rewrite <- E2, Z.shiftl_mul_pow2 by lia.
    unfold i64, swrap. rewrite Zminus_mod_idemp_l. f_equal. lia. }
  by rewrite !IH'.
Qed.

Lemma setuint64_loop_spec cnt : forall n x lead,
  (cnt <= 8)%nat -> n mod 2 ^ 64 = (x mod 256 ^ Z.of_nat cnt) * 2 ^ (64 - 8 * Z.of_nat cnt) ->
  setuint64_loop cnt n lead = sbytes (be_bytes cnt x) false lead.
Proof.
  induction cnt as [|cnt IH]; intros n x lead Hc E; [done|].
  destruct (shift_out cnt x n Hc E) as [E1 E2].
  rewrite be_bytes_S. cbn [setuint64_loop sbytes]. rewrite top_byte, E1.
  assert (forall b, setuint64_loop cnt (u64 (Z.shiftl n 8)) b = sbytes (be_bytes cnt x) false b) as IH'.
  { intros b. apply IH; [lia|]. rewrite <- E2, Z.shiftl_mul_pow2 by lia.
    unfold u64. rewrite Z.mod_mod by lia. done. }
  by rewrite !IH'.
Qed.

Lemma setuint256_loop_spec cs lead : setuint256_loop cs lead = sbytes cs false lead.
Proof.
  revert lead. induction cs as [|c cs IH]; intros lead; [done|].
  cbn [setuint256_loop sbytes]. by rewrite !IH.
Qed.

Lemma sbytes_mpi cs neg :
  Forall is_byte cs -> (length cs <= 100)%nat ->
  BN_mpi2bn (size_bytes (Z.of_nat (length (sbytes cs neg true))) ++ sbytes cs neg true)
    = (if neg then -1 else 1) * digits_val 256 cs.
Proof.
  intros Hb Hl. destruct (sbytes_spec cs neg Hb) as (B & Le & V).
  rewrite mpi2bn_sized by (done || lia). done.
Qed.

Lemma setint64_spec n : - 2 ^ 63 <= n < 2 ^ 63 -> setint64 n = n.
Proof.
  intros Hn. unfold setint64.
  assert (forall x m neg, 0 <= x < 2 ^ 64 -> m mod 2 ^ 64 = x ->
    let p := setint64_loop 8 m neg true in
    BN_mpi2bn (size_bytes (Z.of_nat (length p)) ++ p) = (if neg then -1 else 1) * x) as H.
  { intros x m neg Hx E. cbv zeta.
    rewrite (setint64_loop_spec 8 m x) by (lia || by rewrite E, Z.mod_small, Z.mul_1_r by lia).
    rewrite sbytes_mpi by (apply be_bytes_is_byte || (rewrite length_be_bytes; lia)).
    rewrite digits_val_be_bytes, Z.mod_small by lia. done. }
  destruct (Z.ltb_spec n 0).
  - rewrite (H (- n)); [lia|lia|]. unfold i64, swrap. rewrite Zminus_mod_idemp_l.
    rewrite Z.mod_small; lia.
  - rewrite (H n); [lia|lia|]. rewrite Z.mod_small; lia.
Qed.

Lemma setuint64_spec n : 0 <= n < 2 ^ 64 -> setuint64 n = n.
Proof.
  intros Hn. unfold setuint64.
  rewrite (setuint64_loop_spec 8 n n) by (lia || by rewrite !Z.mod_small, Z.mul_1_r by lia).
  rewrite sbytes_mpi by (apply be_bytes_is_byte || (rewrite length_be_bytes; lia)).
  rewrite digits_val_be_bytes, Z.mod_small by lia. lia.
Qed.

Lemma CBigNum_int_spec n : - 2 ^ 63 <= n < 2 ^ 63 -> CBigNum_int n = n.
Proof.
  intros Hn. unfold CBigNum_int, setulong. case_match; bool_to_prop.
  - apply BN_set_word_spec. lia.
  - by apply setint64_spec.
Qed.

Lemma setuint256_spec n : wf 8 n -> setuint256 n = uval n.
Proof.
  intros Hn. destruct (bytes_of_limbs_spec 8 n Hn) as (Hl & Hb & Hv).
  unfold setuint256. rewrite setuint256_loop_spec.
  rewrite sbytes_mpi by (by apply Forall_rev || (rewrite length_rev; lia)).
  rewrite digits_val_rev, Hv. lia.
Qed.

(** *** Numbers to machine integers *)

(** The arrays the getters copy, as lists. *)
Lemma copy_loop (src : list Z) cnt mem :
  (cnt <= length src)%nat -> (cnt <= length mem)%nat ->
  for_up 0 cnt (fun i s => <[i := rd src i]> s) mem = take cnt src ++ drop cnt mem.
Proof.
  intros Hs Hm.
  apply (for_up_inv (fun n s => (n <= cnt)%nat -> s = take n src ++ drop n mem)); [done| |lia].
  intros j s Hj IH Hle. rewrite IH by lia.
  destruct (lookup_lt_is_Some_2 src j ltac:(lia)) as [x Hx].
  rewrite (take_S_r _ _ x) by done. rewrite <- app_assoc.
  rewrite insert_app_r_alt by (rewrite length_take; lia).
  rewrite length_take, Nat.min_l, Nat.sub_diag by lia.
  destruct (drop j mem) as [|y m'] eqn:E.
  { apply (f_equal length) in E. rewrite length_drop in E. simpl in E. lia. }
  f_equal. simpl. unfold rd. rewrite Hx. simpl. f_equal.
  replace (S j) with (j + 1)%nat by lia. by rewrite <- drop_drop, E.
Qed.

Lemma copy_reversed_spec len vch :
  (4 <= length vch)%nat ->
  copy_reversed len vch (replicate len 0) = take len (rev (drop 4 vch) ++ replicate len 0).
Proof.
  intros Hl. unfold copy_reversed.
  assert (forall i, (i < length vch - 4)%nat -> rd vch (length vch - 1 - i) = rd (rev (drop 4 vch)) i) as E.
  { intros i Hi. unfold rd. rewrite reverse_rev_lookup by (rewrite length_drop; lia).
    rewrite length_drop, lookup_drop. do 2 f_equal. lia. }
  rewrite (for_up_ext _ (fun i s => <[i := rd (rev (drop 4 vch)) i]> s)).
  2:{ intros i s Hi. rewrite E by lia. done. }
  rewrite copy_loop by (rewrite ?length_rev, ?length_drop, ?length_replicate; lia).
  rewrite take_app, take_replicate, drop_replicate, length_rev, length_drop.
  destruct (Nat.le_ge_cases len (length vch - 4)).
  - rewrite Nat.min_l by lia. f_equal. f_equal. lia.
  - rewrite Nat.min_r by lia.
    rewrite !take_ge by (rewrite length_rev, length_drop; lia). f_equal. f_equal. lia.
Qed.

(** Clearing the sign bit of an MPI image leaves the magnitude. *)
Lemma clear_sign_spec v :
  mpi_size v < 2 ^ 32 ->
  clear_sign (BN_bn2mpi v) = be_bytes 4 (mpi_size v) ++ be_bytes (Z.to_nat (mpi_size v)) (Z.abs v).
Proof.
  intros Hs. rewrite BN_bn2mpi_spec by done. unfold clear_sign.
  pose proof (length_mpi_payload v) as Hl. rewrite length_app, length_be_bytes.
  destruct (decide (v = 0)) as [->|Hv]; [done|].
  destruct (mpi_size_bound v Hv) as [Hb H1]. rewrite bool_decide_true by lia.
  assert (rd (be_bytes 4 (mpi_size v) ++ mpi_payload v) 4 = rd (mpi_payload v) 0) as ->.
  { unfold rd. by rewrite lookup_app_r by (rewrite length_be_bytes; lia). }
  rewrite insert_app_r_alt by (rewrite length_be_bytes; lia).
  rewrite length_be_bytes, Nat.sub_diag. f_equal. unfold mpi_payload.
  destruct (Z.to_nat (mpi_size v)) as [|n] eqn:En; [lia|].
  assert (mpi_size v = Z.of_nat (S n)) as Es by lia. rewrite Es in *. clear En.
  rewrite !be_bytes_S. unfold rd. cbn [lookup list_lookup default insert list_insert]. unfold id.
  pose proof (Z.pow_pos_nonneg 256 (Z.of_nat n)). rewrite half_pow256 in *.
  assert (forall x, be_bytes n (x + 128 * 256 ^ Z.of_nat n) = be_bytes n x) as Eb.
  { intros x. rewrite <- (be_bytes_mod n), Z.mod_add by lia. apply be_bytes_mod. }
  assert (Z.abs v / 256 ^ Z.of_nat n < 128) by (apply Z.div_lt_upper_bound; lia).
  assert (0 <= Z.abs v / 256 ^ Z.of_nat n) by (apply Z.div_pos; lia).
  rewrite land_0x7f. case_match.
  - rewrite Eb, Z.div_add by lia. f_equal. rewrite !(Z.mod_small _ 256) by lia.
    replace (Z.abs v / 256 ^ Z.of_nat n + 128) with (Z.abs v / 256 ^ Z.of_nat n + 1 * 128) by lia.
    rewrite Z.mod_add, Z.mod_small by lia. done.
  - rewrite Z.add_0_r. f_equal. rewrite !(Z.mod_small _ 256) by lia. apply Z.mod_small. lia.
Qed.

(** The bytes copied out are the low bytes of the magnitude. *)
Lemma magnitude_bytes len v :
  mpi_size v < 2 ^ 32 ->
  copy_reversed len (clear_sign (BN_bn2mpi v)) (replicate len 0) = le_bytes len (Z.abs v).
Proof.
  intros Hs. rewrite clear_sign_spec by done.
  rewrite copy_reversed_spec by (rewrite length_app, length_be_bytes; lia).
  rewrite drop_app_length' by (by rewrite length_be_bytes).
  unfold be_bytes at 1. rewrite rev_involutive.
  set (n := Z.to_nat (mpi_size v)).
  assert (le_bytes n (Z.abs v) ++ replicate len 0 = le_bytes (n + len) (Z.abs v)) as ->.
  { apply le_val_inj.
    - apply Forall_app. split; [apply le_bytes_is_byte|by apply Forall_replicate].
    - apply le_bytes_is_byte.
    - by rewrite length_app, !length_le_bytes, length_replicate.
    - rewrite le_val_app, le_val_zeros, !le_val_le_bytes.
      assert (0 <= Z.abs v < 256 ^ Z.of_nat n).
      { split; [lia|]. destruct (decide (v = 0)) as [->|Hv]; [apply Z.pow_pos_nonneg; lia|].
        destruct (mpi_size_bound v Hv). rewrite pow256 by lia.
        eapply Z.lt_le_trans; [done|]. apply Z.pow_le_mono_r; lia. }
      rewrite !Z.mod_small; [lia| |done].
      split; [lia|]. rewrite Nat2Z.inj_add, Z.pow_add_r by lia.
      pose proof (Z.pow_pos_nonneg 256 (Z.of_nat len)). nia. }
  generalize (Z.abs v) as x. clear. revert n.
  induction len as [|len IH]; intros n x; [done|]. rewrite <- plus_n_Sm. cbn [le_bytes take].
  by rewrite IH.
Qed.

Lemma getuint64_spec v : mpi_size v < 2 ^ 32 -> getuint64 v = Z.abs v mod 2 ^ 64.
Proof.
  intros Hs. unfold getuint64. rewrite magnitude_bytes, le_val_le_bytes by done.
  rewrite bool_decide_false; [done|].
  rewrite BN_bn2mpi_spec, length_app, length_be_bytes by done. lia.
Qed.

Lemma getuint256_spec v :
  mpi_size v < 2 ^ 32 -> wf 8 (getuint256 v) /\ uval (getuint256 v) = Z.abs v mod 2 ^ 256.
Proof.
  intros Hs. unfold getuint256. rewrite magnitude_bytes by done.
  rewrite bool_decide_false.
  2:{ rewrite BN_bn2mpi_spec, length_app, length_be_bytes by done. lia. }
  destruct (limbs_of_bytes_spec 8 (le_bytes 32 (Z.abs v))) as [Hw Hu];
    [apply length_le_bytes|apply le_bytes_is_byte|].
  split; [done|]. by rewrite Hu, le_val_le_bytes.
Qed.

(** *** Byte vectors *)

Lemma getvch_spec v : mpi_size v < 2 ^ 32 -> getvch v = rev (mpi_payload v).
Proof.
  intros Hs. unfold getvch. rewrite BN_bn2mpi_spec, length_app, length_be_bytes by done.
  rewrite drop_app_length' by (by rewrite length_be_bytes).
  case_bool_decide; [|done]. destruct (mpi_payload v); [done|simpl in *; lia].
Qed.

Lemma setvch_spec vch :
  Z.of_nat (length vch) < 2 ^ 32 -> Forall is_byte vch -> setvch vch = mpi_val (rev vch).
Proof.
  intros Hl Hb. unfold setvch. rewrite u32_small by lia.
  rewrite <- length_rev. apply mpi2bn_sized; [by rewrite length_rev|by apply Forall_rev].
Qed.

(** *** Sizes *)

Lemma mpi_size_eq v n :
  1 <= n -> v <> 0 -> (n = 1 \/ 2 ^ (8 * n - 9) <= Z.abs v) -> Z.abs v < 2 ^ (8 * n - 1) ->
  mpi_size v = n.
Proof.
  intros Hn Hv Hlo Hhi. unfold mpi_size. rewrite (proj2 (Z.eqb_neq v 0)) by done.
  assert (Z.log2 (Z.abs v) < 8 * n - 1) by (apply Z.log2_lt_pow2; lia).
  assert (8 * (n - 1) <= Z.log2 (Z.abs v) + 1).
  { destruct Hlo as [->|Hlo]; [pose proof (Z.log2_nonneg (Z.abs v)); lia|].
    destruct (decide (n = 1)) as [->|]; [pose proof (Z.log2_nonneg (Z.abs v)); lia|].
    apply Z.log2_le_pow2 in Hlo; lia. }
  assert ((Z.log2 (Z.abs v) + 1) / 8 = n - 1); [|lia].
  symmetry. apply (Z.div_unique _ _ _ (Z.log2 (Z.abs v) + 1 - 8 * (n - 1))); lia.
Qed.

Lemma mpi_size_lower v : 2 <= mpi_size v -> 2 ^ (8 * mpi_size v - 9) <= Z.abs v.
Proof.
  unfold mpi_size. destruct (Z.eqb_spec v 0); [lia|]. intros H.
  pose proof (Z.log2_spec (Z.abs v) ltac:(lia)) as [Hl _].
  etrans; [|exact Hl]. apply Z.pow_le_mono_r; [lia|].
  pose proof (Z.div_mod (Z.log2 (Z.abs v) + 1) 8). pose proof (Z.mod_pos_bound (Z.log2 (Z.abs v) + 1) 8). lia.
Qed.

(** A payload with no superfluous leading byte. *)
Definition minimal (p : list Z) : Prop :=
  match p with
  | [] => True
  | b :: p' => b mod 128 <> 0 \/ 128 <= rd p' 0
  end.

Lemma mpi_payload_val p : Forall is_byte p -> minimal p -> mpi_payload (mpi_val p) = p.
Proof.
  intros Hb Hm. destruct Hb as [|b p Hb Hp]; [done|].
  assert (0 <= b < 256) as Hb' by exact Hb.
  pose proof (digits_val_range 256 p ltac:(lia) Hp) as R.
  set (P := 256 ^ Z.of_nat (length p)) in *. assert (0 < P) by (apply Z.pow_pos_nonneg; lia).
  assert (b mod 128 = if 128 <=? b then b - 128 else b) as Em.
  { pose proof (byte_forall (fun b => b mod 128 =? if 128 <=? b then b - 128 else b) eq_refl b Hb) as E.
    by apply Z.eqb_eq in E. }
  assert (0 <= b mod 128 < 128) by (apply Z.mod_pos_bound; lia).
  set (v := mpi_val (b :: p)).
  assert (Z.abs v = b mod 128 * P + digits_val 256 p) as Ea.
  { unfold v. rewrite mpi_val_cons by done. fold P. rewrite Em. case_match; bool_to_prop; nia. }
  assert (2 ^ (8 * Z.of_nat (S (length p)) - 1) = 128 * P) as EP by apply half_pow256.
  assert (v <> 0 /\ (Z.of_nat (S (length p)) = 1 \/ 2 ^ (8 * Z.of_nat (S (length p)) - 9) <= Z.abs v)) as [Hv Hlo].
  { cbn [minimal] in Hm. destruct p as [|c p'].
    - unfold rd in Hm. simpl in Hm. split; [|by left]. intros E. rewrite E in Ea. nia.
    - unfold rd in Hm. simpl in Hm.
      assert (128 * 256 ^ Z.of_nat (length p') <= Z.abs v) as Hge.
      { rewrite Ea. destruct Hm as [Hm|Hm].
        - unfold P. cbn [length]. rewrite Nat2Z.inj_succ, Z.pow_succ_r by lia. nia.
        - rewrite digits_val_cons in *. pose proof (Z.pow_pos_nonneg 256 (Z.of_nat (length p'))).
          pose proof (Forall_inv_tail Hp) as Hp'.
          pose proof (digits_val_range 256 p' ltac:(lia) Hp'). nia. }
      pose proof (Z.pow_pos_nonneg 256 (Z.of_nat (length p'))). split; [lia|]. right.
      rewrite <- (half_pow256 (length p')) in Hge. cbn [length].
      replace (8 * Z.of_nat (S (S (length p'))) - 9) with (8 * Z.of_nat (S (length p')) - 1) by lia. done. }
  assert (mpi_size v = Z.of_nat (S (length p))) as Es by (apply mpi_size_eq; [lia|done..|rewrite EP; nia]).
  rewrite <- (be_bytes_digits_val (mpi_payload v)) by apply mpi_payload_bytes.
  rewrite <- (be_bytes_digits_val (b :: p)) by (by constructor).
  pose proof (length_mpi_payload v) as Hl. f_equal; [cbn [length]; lia|].
  rewrite mpi_payload_digits, Es, EP, Ea, digits_val_cons. fold P.
  assert ((v <? 0) = (128 <=? b)) as ->.
  { unfold v in *. rewrite mpi_val_cons in * by done. fold P in Hv |- *.
    destruct (Z.leb_spec 128 b).
    - apply Z.ltb_lt. destruct (Z.eqb_spec (b - 128) 0); nia.
    - apply Z.ltb_ge. nia. }
  rewrite Em. case_match; nia.
Qed.

(** *** Compact form *)

(** The number a compact value denotes: sign bit 0x800000, mantissa of 23
    bits, exponent in bytes. *)
Definition compact_val (c : Z) : Z :=
  let size := c / 2 ^ 24 in
  let word := c mod 2 ^ 23 in
  (if (c / 2 ^ 23) mod 2 =? 1 then -1 else 1) *
  (if size <=? 3 then word / 256 ^ (3 - size) else word * 256 ^ (size - 3)).

(** Any MPI payload that starts with the three bytes of a mantissa. *)
Lemma mpi_val_mantissa b0 b1 b2 k :
  is_byte b0 -> is_byte b1 -> is_byte b2 ->
  mpi_val (b0 :: b1 :: b2 :: replicate k 0) =
    (if 128 <=? b0 then -1 else 1) * ((b0 mod 128 * 65536 + b1 * 256 + b2) * 256 ^ Z.of_nat k).
Proof.
  intros H0 H1 H2. rewrite mpi_val_cons by
    (done || (do 2 (constructor; [done|]); by apply Forall_replicate)).
  rewrite !digits_val_cons, digits_val_zeros. cbn [length]. rewrite length_replicate.
  rewrite !Nat2Z.inj_succ, !Z.pow_succ_r by lia.
  assert (b0 mod 128 = if 128 <=? b0 then b0 - 128 else b0) as ->.
  { pose proof (byte_forall (fun b => b mod 128 =? if 128 <=? b then b - 128 else b) eq_refl b0 H0) as E.
    by apply Z.eqb_eq in E. }
  case_match; ring.
Qed.

(** The fields of a 32-bit compact value. *)
Lemma compact_fields c :
  0 <= c < 2 ^ 32 ->
  let b0 := (c / 2 ^ 16) mod 256 in let b1 := (c / 2 ^ 8) mod 256 in let b2 := c mod 256 in
  c = c / 2 ^ 24 * 2 ^ 24 + b0 * 65536 + b1 * 256 + b2 /\ 0 <= c / 2 ^ 24 < 256 /\
  ((c / 2 ^ 23) mod 2 =? 1) = (128 <=? b0) /\ c mod 2 ^ 23 = b0 mod 128 * 65536 + b1 * 256 + b2.
Proof.
  intros Hc b0 b1 b2. unfold b0, b1, b2. clear b0 b1 b2.
  assert (c / 2 ^ 24 = c / 256 / 256 / 256) as E24 by (rewrite !Z.div_div by lia; done).
  assert (c / 2 ^ 16 = c / 256 / 256) as E16 by (rewrite !Z.div_div by lia; done).
  assert (c / 2 ^ 23 = c / 256 / 256 / 128) as E23 by (rewrite !Z.div_div by lia; done).
  rewrite E24, E16, E23. change (2 ^ 8) with 256. change (2 ^ 23) with 8388608 in *.
  change (2 ^ 24) with 16777216 in *. change (2 ^ 32) with 4294967296 in *.
  pose proof (Z.div_mod c 256). pose proof (Z.mod_pos_bound c 256).
  pose proof (Z.div_mod (c / 256) 256). pose proof (Z.mod_pos_bound (c / 256) 256).
  set (h := c / 256 / 256) in *.
  pose proof (Z.div_mod h 256). pose proof (Z.mod_pos_bound h 256).
  pose proof (Z.div_mod h 128). pose proof (Z.mod_pos_bound h 128).
  pose proof (Z.div_mod (h / 128) 2). pose proof (Z.mod_pos_bound (h / 128) 2).
  assert (h / 256 = h / 128 / 2) by (rewrite Z.div_div by lia; done).
  pose proof (Z.div_mod (h mod 256) 128). pose proof (Z.mod_pos_bound (h mod 256) 128).
  assert (h mod 256 mod 128 = h mod 128) as E3.
  { replace h with (h mod 256 + (2 * (h / 256)) * 128) at 2 by lia. by rewrite Z.mod_add by lia. }
  split; [lia|]. split; [lia|]. split.
  - destruct (Z.leb_spec 128 (h mod 256)); [apply Z.eqb_eq|apply Z.eqb_neq]; lia.
  - symmetry. apply (Z.mod_unique _ _ (h / 128)); lia.
Qed.

(** The image [SetCompact] builds. *)
Lemma SetCompact_mpi c :
  0 <= c < 2 ^ 32 ->
  let size := c / 2 ^ 24 in
  SetCompact c = mpi_val (take (Z.to_nat size)
    ((c / 2 ^ 16) mod 256 :: (c / 2 ^ 8) mod 256 :: c mod 256 :: replicate (Z.to_nat size - 3) 0)).
Proof.
  intros Hc size. destruct (compact_fields c Hc) as (_ & Hs & _). fold size in Hs.
  unfold SetCompact. rewrite !Z.shiftr_div_pow2, !land_0xff by lia. fold size.
  unfold u8. rewrite (Z.mod_small size) by (simpl; lia).
  assert (exists n, size = Z.of_nat n) as [n En] by (exists (Z.to_nat size); lia).
  rewrite En, Nat2Z.id in *.
  set (b0 := (c / 2 ^ 16) mod 256). set (b1 := (c / 2 ^ 8) mod 256). set (b2 := c mod 256).
  assert (forall p, length p = n -> Forall is_byte p -> BN_mpi2bn (0 :: 0 :: 0 :: Z.of_nat n :: p) = mpi_val p) as H.
  { intros p Hl Hp. rewrite <- BN_mpi2bn_spec by (done || lia). f_equal.
    rewrite <- size_bytes_be, Hl. unfold size_bytes. rewrite !land_0xff, !Z.shiftr_div_pow2 by lia.
    rewrite !Z.div_small by lia. rewrite (Z.mod_small (Z.of_nat n)) by lia. done. }
  assert (forall x, is_byte (x mod 256)) as Hmod by (intros; apply Z.mod_pos_bound; lia).
  destruct n as [|[|[|n]]].
  - apply H; [done|constructor].
  - apply H; [done|by repeat constructor; apply Hmod].
  - apply H; [done|by repeat constructor; apply Hmod].
  - rewrite !(proj2 (Z.leb_le _ _)) by lia. cbn -[Z.of_nat be_bytes mpi_val].
    replace (n - 0)%nat with n by lia. rewrite take_ge by (rewrite length_replicate; lia).
    apply H; [simpl; by rewrite length_replicate|].
    repeat (constructor; [apply Hmod|]). by apply Forall_replicate.
Qed.

Lemma SetCompact_spec c : 0 <= c < 2 ^ 32 -> SetCompact c = compact_val c.
Proof.
  intros Hc. rewrite SetCompact_mpi by done. destruct (compact_fields c Hc) as (_ & Hs & Hg & Hw).
  unfold compact_val. rewrite Hg, Hw.
  set (b0 := (c / 2 ^ 16) mod 256) in *. set (b1 := (c / 2 ^ 8) mod 256) in *. set (b2 := c mod 256) in *.
  assert (forall x, is_byte (x mod 256)) as Hmod by (intros; apply Z.mod_pos_bound; lia).
  assert (is_byte b0) as B0 by apply Hmod. assert (is_byte b1) as B1 by apply Hmod.
  assert (is_byte b2) as B2 by apply Hmod. clearbody b0 b1 b2.
  assert (exists n, c / 2 ^ 24 = Z.of_nat n) as [n En] by (exists (Z.to_nat (c / 2 ^ 24)); lia).
  rewrite En, Nat2Z.id in *. clear En Hg Hw.
  assert (b0 mod 128 = if 128 <=? b0 then b0 - 128 else b0) as Em.
  { pose proof (byte_forall (fun b => b mod 128 =? if 128 <=? b then b - 128 else b) eq_refl b0 B0) as E.
    by apply Z.eqb_eq in E. }
  pose proof (Z.mod_pos_bound b0 128). unfold is_byte in *.
  destruct n as [|[|[|n]]]; cbn [take].
  - simpl (Z.of_nat 0 <=? 3). cbn iota. rewrite Z.div_small by (simpl; lia). simpl. lia.
  - simpl (Z.of_nat 1 <=? 3). cbn iota. rewrite mpi_val_cons by (done || constructor).
    replace ((b0 mod 128 * 65536 + b1 * 256 + b2) / 256 ^ (3 - Z.of_nat 1)) with (b0 mod 128)
      by (apply (Z.div_unique _ _ _ (b1 * 256 + b2)); simpl; lia).
    rewrite Em. unfold digits_val. simpl. case_match; lia.
  - simpl (Z.of_nat 2 <=? 3). cbn iota. rewrite mpi_val_cons by (done || (constructor; [done|constructor])).
    replace ((b0 mod 128 * 65536 + b1 * 256 + b2) / 256 ^ (3 - Z.of_nat 2)) with (b0 mod 128 * 256 + b1)
      by (apply (Z.div_unique _ _ _ b2); simpl; lia).
    rewrite Em. unfold digits_val. simpl. case_match; lia.
  - rewrite take_ge by (cbn [length]; rewrite length_replicate; lia).
    replace (S (S (S n)) - 3)%nat with n by lia.
    rewrite mpi_val_mantissa by done. f_equal.
    destruct (Z.leb_spec (Z.of_nat (S (S (S n)))) 3).
    + assert (n = 0%nat) as -> by lia. rewrite Z.mul_1_r. symmetry. apply Z.div_1_r.
    + do 2 f_equal. lia.
Qed.

(** The mantissa [GetCompact] stores: the magnitude without its sign bit,
    aligned to three bytes. *)
Definition mantissa (v : Z) : Z :=
  let n := mpi_size v in
  if n <=? 3 then Z.abs v * 256 ^ (3 - n) else Z.abs v / 256 ^ (n - 3).

Lemma mantissa_bound v : 0 <= mantissa v < 2 ^ 23.
Proof.
  unfold mantissa. destruct (decide (v = 0)) as [->|Hv]; [done|].
  destruct (mpi_size_bound v Hv) as [Hb Hn].
  destruct (Z.leb_spec (mpi_size v) 3).
  - rewrite pow256 by lia. split; [lia|].
    assert (2 ^ 23 = 2 ^ (8 * mpi_size v - 1) * 2 ^ (8 * (3 - mpi_size v))) as ->
      by (rewrite <- Z.pow_add_r by lia; f_equal; lia).
    apply Z.mul_lt_mono_pos_r; [apply Z.pow_pos_nonneg; lia|done].
  - rewrite pow256 by lia. split; [apply Z.div_pos; [lia|apply Z.pow_pos_nonneg; lia]|].
    apply Z.div_lt_upper_bound; [apply Z.pow_pos_nonneg; lia|].
    rewrite <- Z.pow_add_r by lia. eapply Z.lt_le_trans; [done|]. apply Z.pow_le_mono_r; lia.
Qed.

(** The first three payload bytes, aligned. *)
Lemma payload_top v :
  v <> 0 ->
  let p := mpi_payload v in let n := mpi_size v in
  (if 1 <=? n then rd p 0 else 0) * 65536 + (if 2 <=? n then rd p 1 else 0) * 256 +
    (if 3 <=? n then rd p 2 else 0)
  = (if v <? 0 then 2 ^ 23 else 0) + mantissa v.
Proof.
  intros Hv p n. destruct (mpi_size_bound v Hv) as [Hb Hn]. fold n in Hb, Hn.
  set (s := if v <? 0 then 1 else 0). assert (0 <= s <= 1) by (unfold s; case_match; lia).
  remember (Z.abs v + s * 2 ^ (8 * n - 1)) as X eqn:EX.
  assert (p = be_bytes (Z.to_nat n) X) as Ep
    by (unfold p, mpi_payload; rewrite EX; unfold s; f_equal; fold n; case_match; lia).
  replace (if v <? 0 then 2 ^ 23 else 0) with (s * 2 ^ 23) by (unfold s; case_match; lia).
  assert (0 <= X < 2 ^ (8 * n)) as HX.
  { rewrite EX. assert (2 ^ (8 * n) = 2 * 2 ^ (8 * n - 1)) by (rewrite <- Z.pow_succ_r by lia; f_equal; lia). nia. }
  rewrite Ep. unfold mantissa. fold n. rewrite (proj2 (Z.leb_le 1 n)) by lia.
  destruct (decide (n = 1)) as [E1|]; [|destruct (decide (n = 2)) as [E2|]].
  - rewrite E1 in *. change (2 <=? 1) with false. change (3 <=? 1) with false.
    change (1 <=? 3) with true. change (Z.to_nat 1) with 1%nat. rewrite rd_be_bytes by lia.
    change (256 ^ Z.of_nat (1 - 1 - 0)) with 1. change (256 ^ (3 - 1)) with 65536.
    change (2 ^ (8 * 1)) with 256 in HX. rewrite Z.div_1_r, Z.mod_small by lia. rewrite EX.
    change (2 ^ (8 * 1 - 1)) with 128. change (2 ^ 23) with 8388608. lia.
  - rewrite E2 in *. change (2 <=? 2) with true. change (3 <=? 2) with false.
    change (2 <=? 3) with true. change (Z.to_nat 2) with 2%nat. rewrite !rd_be_bytes by lia.
    change (256 ^ Z.of_nat (2 - 1 - 0)) with 256. change (256 ^ Z.of_nat (2 - 1 - 1)) with 1.
    change (256 ^ (3 - 2)) with 256. rewrite Z.div_1_r. change (2 ^ (8 * 2)) with 65536 in HX.
    pose proof (Z.div_mod X 256). pose proof (Z.mod_pos_bound X 256).
    rewrite (Z.mod_small (X / 256)) by (split; [apply Z.div_pos|apply Z.div_lt_upper_bound]; lia).
    change (2 ^ 23) with 8388608. change (2 ^ (8 * 2 - 1)) with 32768 in EX. lia.
  - rewrite (proj2 (Z.leb_le 2 n)), (proj2 (Z.leb_le 3 n)) by lia.
    assert (exists k, n = Z.of_nat (S (S (S k)))) as [k Ek] by (exists (Z.to_nat (n - 3)); lia).
    assert (2 ^ (8 * n - 1) = 2 ^ 23 * 256 ^ Z.of_nat k) as EP.
    { rewrite pow256, <- Z.pow_add_r by lia. f_equal. lia. }
    rewrite Ek, Nat2Z.id, !rd_be_bytes by lia. rewrite <- Ek.
    replace (S (S (S k)) - 1 - 0)%nat with (S (S k)) by lia.
    replace (S (S (S k)) - 1 - 1)%nat with (S k) by lia.
    replace (S (S (S k)) - 1 - 2)%nat with k by lia.
    set (P := 256 ^ Z.of_nat k) in *. assert (0 < P) by (apply Z.pow_pos_nonneg; lia).
    assert (forall m, 256 ^ Z.of_nat (S m) = 256 ^ Z.of_nat m * 256) as ES
      by (intros; rewrite Nat2Z.inj_succ, Z.pow_succ_r by lia; lia).
    rewrite !ES. fold P. rewrite <- !Z.div_div by lia. set (y := X / P).
    assert (y = Z.abs v / P + s * 2 ^ 23) as Ey.
    { unfold y. rewrite EX, EP, Z.mul_assoc. apply Z.div_add. lia. }
    assert (0 <= y < 2 ^ 24).
    { unfold y. split; [apply Z.div_pos; lia|]. apply Z.div_lt_upper_bound; [lia|].
      replace (P * 2 ^ 24) with (2 ^ (8 * n)); [lia|].
      unfold P. rewrite pow256, <- Z.pow_add_r by lia. f_equal. lia. }
    assert (y / 256 / 256 * 65536 + (y / 256) mod 256 * 256 + y mod 256 = y) as Ey'.
    { pose proof (Z.div_mod y 256). pose proof (Z.div_mod (y / 256) 256). lia. }
    rewrite (Z.mod_small (y / 256 / 256)).
    2:{ rewrite Z.div_div by lia. split; [apply Z.div_pos; lia|apply Z.div_lt_upper_bound; simpl in *; lia]. }
    rewrite Ey', Ey. destruct (Z.leb_spec n 3).
    + assert (k = 0%nat) as -> by lia. replace n with 3 by lia.
      unfold P. simpl (256 ^ _). rewrite Z.div_1_r. lia.
    + replace (256 ^ (n - 3)) with P by (unfold P; f_equal; lia). lia.
Qed.

Lemma GetCompact_spec v :
  mpi_size v < 256 ->
  GetCompact v = mpi_size v * 2 ^ 24 + (if v <? 0 then 2 ^ 23 else 0) + mantissa v.
Proof.
  intros Hn. destruct (decide (v = 0)) as [->|Hv].
  { unfold GetCompact. by rewrite BN_bn2mpi_spec. }
  pose proof (payload_top v Hv) as Ht. cbv zeta in Ht.
  destruct (mpi_size_bound v Hv) as [_ Hn1]. pose proof (length_mpi_payload v) as Hl.
  unfold GetCompact. rewrite BN_bn2mpi_spec by lia.
  rewrite length_app, length_be_bytes.
  assert (forall i, rd (be_bytes 4 (mpi_size v) ++ mpi_payload v) (4 + i) = rd (mpi_payload v) i) as Er.
  { intros i. unfold rd. rewrite lookup_app_r by (rewrite length_be_bytes; lia).
    rewrite length_be_bytes. do 2 f_equal. lia. }
  pose proof (Er 0%nat) as E0. pose proof (Er 1%nat) as E1. pose proof (Er 2%nat) as E2.
  cbn [Nat.add] in E0, E1, E2. rewrite E0, E1, E2.
  replace (Z.of_nat (4 + length (mpi_payload v)) - 4) with (mpi_size v) by lia.
  rewrite u32_small by lia. set (n := mpi_size v) in *. set (p := mpi_payload v) in *.
  rewrite <- Z.add_assoc, <- Ht. rewrite Z.shiftl_mul_pow2 by lia.
  rewrite u32_small by (change (2 ^ 24) with 16777216; change (2 ^ 32) with 4294967296; lia).
  assert (forall i, is_byte (rd p i)) as Hb.
  { intros i. unfold rd. destruct (p !! i) eqn:E; [|done].
    apply (Forall_lookup_1 _ _ _ _ (mpi_payload_bytes v) E). }
  pose proof (Hb 0%nat) as B0. pose proof (Hb 1%nat) as B1. pose proof (Hb 2%nat) as B2.
  unfold is_byte in B0, B1, B2. rewrite (proj2 (Z.leb_le 1 n)) by lia.
  rewrite !Z.shiftl_mul_pow2 by lia. rewrite lor_add_low by (simpl; lia).
  replace (n * 2 ^ 24 + rd p 0 * 2 ^ 16) with ((n * 256 + rd p 0) * 2 ^ 16) by ring.
  destruct (Z.leb_spec 2 n).
  - rewrite lor_add_low by (simpl; lia).
    replace ((n * 256 + rd p 0) * 2 ^ 16 + rd p 1 * 2 ^ 8)
      with ((n * 65536 + rd p 0 * 256 + rd p 1) * 2 ^ 8) by ring.
    destruct (Z.leb_spec 3 n); [rewrite lor_add_low by (simpl; lia)|]; ring.
  - rewrite (proj2 (Z.leb_gt 3 n)) by lia. ring.
Qed.

(** The most significant part of a number that the compact form keeps. *)
Definition compact_trunc (v : Z) : Z :=
  let k := Z.max 0 (mpi_size v - 3) in Z.sgn v * (Z.abs v / 256 ^ k * 256 ^ k).

Lemma compact_val_GetCompact v : mpi_size v < 256 -> compact_val (GetCompact v) = compact_trunc v.
Proof.
  intros Hn. rewrite GetCompact_spec by done.
  pose proof (mantissa_bound v) as HM. pose proof (mpi_size_nonneg v).
  set (s := if v <? 0 then 1 else 0). assert (0 <= s <= 1) by (unfold s; case_match; lia).
  replace (if v <? 0 then 2 ^ 23 else 0) with (s * 2 ^ 23) by (unfold s; case_match; lia).
  unfold compact_val.
  assert ((mpi_size v * 2 ^ 24 + s * 2 ^ 23 + mantissa v) / 2 ^ 24 = mpi_size v) as ->.
  { symmetry. apply (Z.div_unique _ _ _ (s * 2 ^ 23 + mantissa v)); [|ring].
    change (2 ^ 24) with (2 * 2 ^ 23). lia. }
  assert ((mpi_size v * 2 ^ 24 + s * 2 ^ 23 + mantissa v) / 2 ^ 23 = 2 * mpi_size v + s) as ->.
  { symmetry. apply (Z.div_unique _ _ _ (mantissa v)); [lia|]. change (2 ^ 24) with (2 * 2 ^ 23). ring. }
  assert ((mpi_size v * 2 ^ 24 + s * 2 ^ 23 + mantissa v) mod 2 ^ 23 = mantissa v) as ->.
  { symmetry. apply (Z.mod_unique _ _ (2 * mpi_size v + s)); [lia|]. change (2 ^ 24) with (2 * 2 ^ 23). ring. }
  replace ((2 * mpi_size v + s) mod 2) with s by (apply (Z.mod_unique _ _ (mpi_size v)); lia).
  unfold compact_trunc, mantissa. destruct (decide (v = 0)) as [->|Hv]; [done|].
  replace (if s =? 1 then -1 else 1) with (Z.sgn v) by (unfold s; destruct (Z.ltb_spec v 0); simpl; lia).
  f_equal. destruct (Z.leb_spec (mpi_size v) 3).
  - rewrite Z.max_l by lia. rewrite Z.div_1_r, Z.mul_1_r. apply Z.div_mul.
    pose proof (Z.pow_pos_nonneg 256 (3 - mpi_size v)). lia.
  - by rewrite Z.max_r by lia.
Qed.

(** Truncation keeps the size, so it is idempotent. *)
Lemma compact_trunc_size v : mpi_size (compact_trunc v) = mpi_size v.
Proof.
  destruct (decide (v = 0)) as [->|Hv]; [done|]. unfold compact_trunc.
  destruct (mpi_size_bound v Hv) as [Hb Hn].
  destruct (Z.leb_spec (mpi_size v) 3).
  { rewrite Z.max_l by lia. rewrite Z.div_1_r, Z.mul_1_r. f_equal. lia. }
  rewrite Z.max_r by lia. pose proof (mpi_size_lower v ltac:(lia)) as Hlo.
  set (n := mpi_size v) in *. rewrite pow256 by lia. set (P := 2 ^ (8 * (n - 3))).
  assert (0 < P) by (apply Z.pow_pos_nonneg; lia).
  assert (2 ^ (8 * n - 9) = 2 ^ 15 * P) as E by (unfold P; rewrite <- Z.pow_add_r by lia; f_equal; lia).
  assert (2 ^ 15 <= Z.abs v / P) by (apply Z.div_le_lower_bound; lia).
  pose proof (Z.mul_div_le (Z.abs v) P).
  assert (Z.abs (Z.sgn v * (Z.abs v / P * P)) = Z.abs v / P * P) as Ea.
  { rewrite Z.abs_mul, (Z.abs_eq (_ * P)) by nia. destruct (Z.sgn_spec v) as [[? ->]|[[? ->]|[? ->]]]; lia. }
  apply mpi_size_eq; [lia|nia|right; rewrite Ea; nia|rewrite Ea; lia].
Qed.

Lemma compact_trunc_idemp v : compact_trunc (compact_trunc v) = compact_trunc v.
Proof.
  unfold compact_trunc at 1. rewrite compact_trunc_size.
  set (k := Z.max 0 (mpi_size v - 3)). unfold compact_trunc. fold k.
  assert (0 < 256 ^ k) by (apply Z.pow_pos_nonneg; lia).
  set (y := Z.abs v / 256 ^ k). assert (0 <= y) by (apply Z.div_pos; lia).
  destruct (Z.sgn_spec v) as [[? ->]|[[? ->]|[? ->]]]; [|done|].
  - rewrite Z.mul_1_l, (Z.abs_eq (_ * _)), Z.div_mul by nia.
    destruct (Z.eq_dec y 0) as [->|]; [done|]. rewrite Z.sgn_pos by nia. lia.
  - rewrite Z.abs_mul, (Z.abs_eq (_ * _)) by nia. change (Z.abs (-1)) with 1. rewrite Z.mul_1_l, Z.div_mul by lia.
    destruct (Z.eq_dec y 0) as [->|]; [done|]. rewrite Z.sgn_neg by nia. lia.
Qed.

(** *** Operators *)

Lemma op_uminus_spec a : op_uminus a = - a.
Proof.
  unfold op_uminus. rewrite BN_set_negative_spec, BN_is_negative_spec.
  destruct (Z.ltb_spec a 0); simpl; lia.
Qed.

Lemma op_div_spec a b : op_div a b = if b =? 0 then None else Some (Z.quot a b).
Proof. unfold op_div. rewrite BN_div_spec. by case_match. Qed.

Lemma op_mod_spec a b : op_mod a b = if b =? 0 then None else Some (Z.rem a b).
Proof. unfold op_mod. rewrite BN_div_spec. by case_match. Qed.

Lemma BN_cmp_ltb a b : (BN_cmp a b <? 0) = (a <? b).
Proof. rewrite BN_cmp_spec. repeat case_match; bool_to_prop; done || lia. Qed.

Lemma BN_cmp_gtb a b : (0 <? BN_cmp a b) = (b <? a).
Proof.
  rewrite BN_cmp_spec. destruct (Z.ltb_spec a b), (Z.eqb_spec a b), (Z.ltb_spec b a); done || lia.
Qed.

Lemma BN_cmp_eqb a b : (BN_cmp a b =? 0) = (a =? b).
Proof. rewrite BN_cmp_spec. destruct (Z.ltb_spec a b), (Z.eqb_spec a b); done || lia. Qed.

Lemma BN_cmp_leb a b : (BN_cmp a b <=? 0) = (a <=? b).
Proof.
  rewrite BN_cmp_spec. destruct (Z.ltb_spec a b), (Z.eqb_spec a b), (Z.leb_spec a b); done || lia.
Qed.

Lemma BN_cmp_geb a b : (0 <=? BN_cmp a b) = (b <=? a).
Proof.
  rewrite BN_cmp_spec. destruct (Z.ltb_spec a b), (Z.eqb_spec a b), (Z.leb_spec b a); done || lia.
Qed.

Lemma comparisons_spec a b :
  op_eqb a b = (a =? b) /\ op_neb a b = negb (a =? b) /\ op_leb a b = (a <=? b) /\
  op_geb a b = (b <=? a) /\ op_ltb a b = (a <? b) /\ op_gtb a b = (b <? a).
Proof.
  unfold op_eqb, op_neb, op_leb, op_geb, op_ltb, op_gtb.
  by rewrite BN_cmp_eqb, BN_cmp_leb, BN_cmp_geb, BN_cmp_ltb, BN_cmp_gtb.
Qed.

Lemma op_rshift_spec v shift :
  0 <= shift -> op_rshift v shift = if v <? 0 then 0 else v / 2 ^ shift.
Proof.
  intros Hs. unfold op_rshift. rewrite BN_cmp_gtb, !CBigNum_int_spec, BN_lshift_spec, Z.mul_1_l by lia.
  pose proof (Z.pow_pos_nonneg 2 shift).
  destruct (Z.ltb_spec v (2 ^ shift)), (Z.ltb_spec v 0); try lia; [|].
  - symmetry. apply Z.div_small. lia.
  - rewrite BN_rshift_spec, Z.abs_eq, Z.sgn_pos by lia. lia.
Qed.

Lemma getint_spec v :
  getint v = if v <? 0 then if v <? - INT_MAX then INT_MIN else v
             else if INT_MAX <? v then INT_MAX else v.
Proof.
  unfold getint, INT_MAX, INT_MIN. rewrite BN_get_word_spec, BN_is_negative_spec.
  change (2 ^ 31 - 1) with 2147483647. change (- (2147483647)) with (-2147483647). change (2 ^ 64) with 18446744073709551616.
  set (w := if Z.abs v <? _ then _ else _).
  assert ((Z.abs v <= 2147483647 -> w = Z.abs v) /\ (2147483647 < Z.abs v -> 2147483647 < w)) as [W1 W2].
  { unfold w. destruct (Z.ltb_spec (Z.abs v) 18446744073709551616); lia. }
  clearbody w. destruct (Z.ltb_spec v 0); cbn [negb].
  - destruct (Z.ltb_spec v (-2147483647)), (Z.ltb_spec 2147483647 w); try done; try lia.
    rewrite i32_small; change (2 ^ 31) with 2147483648; lia.
  - destruct (Z.ltb_spec 2147483647 v), (Z.ltb_spec 2147483647 w); lia.
Qed.

(** *** Text *)

Lemma tostring_loop_spec base fuel : forall bn,
  2 <= base <= 16 -> 0 <= bn -> (0 < fuel)%nat -> (0 < bn -> Z.log2 bn + 2 <= Z.of_nat fuel) ->
  exists ds, tostring_loop fuel bn base = Some (map hexchar ds) /\
    Forall (fun d => 0 <= d < base) ds /\ digits_val base (rev ds) = bn.
Proof.
  induction fuel as [|fuel IH]; intros bn Hb Hn Hf0 Hf; [lia|].
  cbn [tostring_loop]. rewrite BN_cmp_gtb, CBigNum_int_spec by lia.
  destruct (Z.ltb_spec 0 bn) as [Hpos|Hz].
  2:{ exists []. repeat split; [constructor|]. simpl. unfold digits_val. simpl. lia. }
  rewrite BN_div_spec. rewrite (proj2 (Z.eqb_neq base 0)) by lia.
  rewrite Z.quot_div_nonneg, Z.rem_mod_nonneg by lia.
  specialize (Hf Hpos). pose proof (Z.log2_nonneg bn).
  destruct (IH (bn / base)) as (ds & E & Hd & Hv); [done|apply Z.div_pos; lia|lia| |].
  { intros Hq. assert (Z.log2 (bn / base) < Z.log2 bn); [|lia].
    apply Z.log2_lt_pow2; [done|].
    eapply Z.le_lt_trans; [apply (Z.div_le_compat_l bn 2 base); lia|].
    apply Z.div_lt_upper_bound; [lia|].
    rewrite <- Z.pow_succ_r by apply Z.log2_nonneg. apply Z.log2_spec. lia. }
  rewrite E. pose proof (Z.mod_pos_bound bn base).
  exists (bn mod base :: ds). split; [|split].
  - unfold getulong. rewrite BN_get_word_spec, Z.abs_eq by lia.
    rewrite (proj2 (Z.ltb_lt _ _)) by lia. done.
  - constructor; [lia|done].
  - cbn [rev]. rewrite digits_val_snoc, Hv. pose proof (Z.div_mod bn base). lia.
Qed.

Lemma isxdigit_hexchar d : 0 <= d < 16 -> isxdigit (hexchar d) = true.
Proof.
  intros H. unfold isxdigit. pose proof (hexchar_range d H).
  destruct (Z.leb_spec 48 (hexchar d)), (Z.leb_spec (hexchar d) 57),
    (Z.leb_spec 97 (hexchar d)), (Z.leb_spec (hexchar d) 102); simpl; try lia;
    by rewrite ?orb_true_r.
Qed.

Lemma sethex_digits_spec ds : forall acc,
  Forall (fun d => 0 <= d < 16) ds ->
  sethex_digits (map hexchar ds) acc = acc * 16 ^ Z.of_nat (length ds) + digits_val 16 ds.
Proof.
  intros acc H. revert acc. induction H as [|d ds Hd H IH]; intros acc.
  { simpl. unfold digits_val. simpl. lia. }
  cbn [map sethex_digits length]. rewrite isxdigit_hexchar, IH, digits_val_cons by done.
  rewrite BN_add_spec, BN_lshift_spec, phexdigit_hexchar, CBigNum_int_spec by lia.
  rewrite Nat2Z.inj_succ, Z.pow_succ_r by lia. change (2 ^ 4) with 16. ring.
Qed.

Lemma map_hexchar_zeros n ds : replicate n 48 ++ map hexchar ds = map hexchar (replicate n 0 ++ ds).
Proof. induction n as [|n IH]; simpl; [done|]. by rewrite IH. Qed.

(** What [GetHex] prints. *)
Lemma GetHex_spec v pad :
  exists ds, Forall (fun d => 0 <= d < 16) ds /\ digits_val 16 ds = Z.abs v /\ ds <> [] /\
    GetHex v pad = Some (if v <? 0 then 45 :: map hexchar ds else map hexchar ds).
Proof.
  unfold GetHex, ToString. rewrite BN_set_negative_spec, BN_cmp_eqb, !CBigNum_int_spec by lia.
  destruct (Z.eqb_spec (Z.abs v) 0) as [E|E].
  { exists [0]. split; [repeat constructor; lia|]. split; [done|]. split; [done|].
    rewrite (proj2 (Z.ltb_ge v 0)) by lia. done. }
  destruct (tostring_loop_spec 16 (Z.to_nat (Z.log2 (Z.abs v) + 2)) (Z.abs v)) as (ds & -> & Hd & Hv);
    [lia|lia|pose proof (Z.log2_nonneg (Z.abs v)); lia..|].
  set (k := (pad - length (map hexchar ds))%nat).
  exists (replicate k 0 ++ rev ds). split; [|split; [|split]].
  - apply Forall_app. split; [by apply Forall_replicate|by apply Forall_rev].
  - rewrite digits_val_app, digits_val_zeros, Hv. lia.
  - intros H. apply app_eq_nil in H as [_ H]. apply (f_equal (@length Z)) in H.
    rewrite length_rev in H. destruct ds; [|done]. unfold digits_val in Hv. simpl in Hv. lia.
  - rewrite BN_is_negative_spec, <- map_hexchar_zeros.
    assert (rev (map hexchar ds ++ replicate k 48) = replicate k 48 ++ map hexchar (rev ds)) as Er.
    { rewrite rev_app_distr, map_rev. f_equal.
      rewrite rev_alt. change (rev_append ?l []) with (reverse l). apply reverse_replicate. }
    case_match; [by rewrite rev_app_distr, Er|by rewrite Er].
Qed.

Lemma SetHex_GetHex_bn v pad : exists s, GetHex v pad = Some s /\ SetHex s = v.
Proof.
  destruct (GetHex_spec v pad) as (ds & Hd & Hv & Hne & E).
  eexists. split; [exact E|]. unfold SetHex. rewrite !CBigNum_int_spec by lia.
  assert (sethex_digits (skip_spaces (skip_0x (map hexchar ds))) 0 = Z.abs v) as Es.
  { rewrite skip_0x_hexchars, skip_spaces_hexchars, sethex_digits_spec by done. lia. }
  destruct (Z.ltb_spec v 0).
  - change (skip_spaces (45 :: map hexchar ds)) with (45 :: map hexchar ds).
    change (rd (45 :: map hexchar ds) 0 =? 45) with true. cbn iota.
    change (drop 1 (45 :: map hexchar ds)) with (map hexchar ds). rewrite Es, BN_sub_spec. lia.
  - rewrite skip_spaces_hexchars by done.
    destruct Hd as [|d ds Hd Hds]; [done|].
    change (rd (map hexchar (d :: ds)) 0) with (hexchar d).
    pose proof (hexchar_range d Hd). rewrite (proj2 (Z.eqb_neq (hexchar d) 45)) by lia.
    rewrite Es. lia.
Qed.

End lemmas.

(** ** Properties *)

(** Conversions of [CBigNum] are exact: signed and unsigned 64-bit values
    and 256-bit numbers convert to the number they denote; the getters return
    the magnitude modulo the target width ([getint] saturates); a number
    survives [getvch]/[setvch], and a byte vector with no superfluous sign or
    zero byte survives [setvch]/[getvch]; [>>] floors for non-negative numbers
    and gives 0 for negative ones. *)
Theorem bignum_conversions {L : BNLib} {HL : BNLaws L} n u a v vch shift :
  - 2 ^ 63 <= n < 2 ^ 63 -> 0 <= u < 2 ^ 64 -> wf 8 a -> mpi_size v < 2 ^ 32 ->
  Forall is_byte vch -> Z.of_nat (length vch) < 2 ^ 32 -> 0 <= shift ->
  setint64 n = n /\ setuint64 u = u /\ setuint256 a = uval a /\
  getuint64 v = Z.abs v mod 2 ^ 64 /\
  uval (getuint256 v) = Z.abs v mod 2 ^ 256 /\ getuint256 (setuint256 a) = a /\
  getint v = Z.max INT_MIN (if v <? - INT_MAX then INT_MIN else Z.min INT_MAX v) /\
  setvch (getvch v) = v /\
  (minimal (rev vch) -> getvch (setvch vch) = vch) /\
  op_rshift v shift = if v <? 0 then 0 else v / 2 ^ shift.
Proof.
  intros Hn Hu Ha Hv Hb Hl Hs.
  split; [by apply setint64_spec|]. split; [by apply setuint64_spec|].
  split; [by apply setuint256_spec|]. split; [by apply getuint64_spec|].
  split; [by apply getuint256_spec|]. split.
  { rewrite setuint256_spec by done. pose proof (uval_range 8 a Ha) as R.
    assert (mpi_size (uval a) < 2 ^ 32).
    { unfold mpi_size. case_match; [done|]. bool_to_prop.
      assert (Z.log2 (Z.abs (uval a)) < 256).
      { apply Z.log2_lt_pow2; [lia|]. unfold modulus in R. simpl in R. lia. }
      assert ((Z.log2 (Z.abs (uval a)) + 1) / 8 < 33) by (apply Z.div_lt_upper_bound; lia). lia. }
    destruct (getuint256_spec (uval a)) as [Hw E]; [done|].
    apply (uval_inj 8); [done..|]. rewrite E, Z.abs_eq by lia. by apply Z.mod_small. }
  split.
  { rewrite getint_spec. unfold INT_MIN, INT_MAX. repeat case_match; bool_to_prop; lia. }
  split.
  { rewrite getvch_spec, setvch_spec, rev_involutive by (done || apply Forall_rev, mpi_payload_bytes ||
      (rewrite length_rev, length_mpi_payload; done)). apply mpi_val_payload. }
  split; [|by apply op_rshift_spec].
  intros Hm. rewrite setvch_spec by done.
  assert (mpi_payload (mpi_val (rev vch)) = rev vch) as E by (apply mpi_payload_val; [by apply Forall_rev|done]).
  rewrite getvch_spec, E by (rewrite <- length_mpi_payload, E, length_rev; done). apply rev_involutive.
Qed.

Lemma bignum_conversions_witness :
  @setint64 bn_reference (-2 ^ 63) = -2 ^ 63 /\
  @getvch bn_reference (@setvch bn_reference [0; 255; 128]) = [0; 255; 128].
Proof.
  destruct (bignum_conversions (HL := bn_reference_laws) (-2 ^ 63) 9 (of_u64 8 7) 77 [0; 255; 128] 3)
    as (E1 & _ & _ & _ & _ & _ & _ & _ & E2 & _);
    [lia|lia|split; [done|repeat constructor; done]|reflexivity|repeat constructor; done|reflexivity|lia|].
  split; [exact E1|apply E2; simpl; right; unfold rd; simpl; lia].
Defined.

(** Compact difficulty bits: [SetCompact] denotes sign * mantissa *
    256^(size-3) for every 32-bit input; [GetCompact] keeps the three most
    significant bytes of the number, so decoding what it encodes truncates
    towards zero, never increases a non-negative target, is exact when the
    number has at most three bytes, and encoding is stable after one
    truncation. *)
Theorem compact_round_trip {L : BNLib} {HL : BNLaws L} c v :
  0 <= c < 2 ^ 32 -> mpi_size v < 256 ->
  SetCompact c = compact_val c /\
  0 <= GetCompact v < 2 ^ 32 /\
  SetCompact (GetCompact v) = compact_trunc v /\
  GetCompact (SetCompact (GetCompact v)) = GetCompact v /\
  (0 <= v -> 0 <= compact_trunc v <= v) /\
  (mpi_size v <= 3 -> compact_trunc v = v).
Proof.
  intros Hc Hv.
  assert (forall w, mpi_size w < 256 -> 0 <= GetCompact w < 2 ^ 32) as HB.
  { intros w Hw. rewrite GetCompact_spec by done. pose proof (mantissa_bound w).
    pose proof (mpi_size_nonneg w). change (2 ^ 32) with (256 * 2 ^ 24). change (2 ^ 24) with (2 * 2 ^ 23).
    case_match; nia. }
  assert (SetCompact (GetCompact v) = compact_trunc v) as E.
  { rewrite SetCompact_spec by auto. by apply compact_val_GetCompact. }
  assert (mpi_size (compact_trunc v) < 256) as Ht by (by rewrite compact_trunc_size).
  split; [by apply SetCompact_spec|]. split; [by apply HB|]. split; [done|]. split; [|split].
  - rewrite E, !GetCompact_spec, compact_trunc_size by done.
    assert (mantissa (compact_trunc v) = mantissa v /\ (compact_trunc v <? 0) = (v <? 0)) as [-> ->]; [|done].
    unfold mantissa. rewrite compact_trunc_size. unfold compact_trunc.
    pose proof (compact_trunc_size v) as Es. unfold compact_trunc in Es.
    set (k := Z.max 0 (mpi_size v - 3)) in *. assert (0 < 256 ^ k) by (apply Z.pow_pos_nonneg; lia).
    assert (0 <= Z.abs v / 256 ^ k) by (apply Z.div_pos; lia).
    assert (Z.abs (Z.sgn v * (Z.abs v / 256 ^ k * 256 ^ k)) = Z.abs v / 256 ^ k * 256 ^ k) as ->.
    { rewrite Z.abs_mul, (Z.abs_eq (_ * _)) by nia.
      destruct (Z.sgn_spec v) as [[? ->]|[[<- ->]|[? ->]]]; [lia|done|lia]. }
    split.
    + destruct (Z.leb_spec (mpi_size v) 3).
      * unfold k. rewrite Z.max_l by lia. by rewrite Z.div_1_r, Z.mul_1_r.
      * replace (mpi_size v - 3) with k by lia. by rewrite Z.div_mul by lia.
    + destruct (decide (v = 0)) as [->|Hv0]; [done|].
      assert (Z.abs v / 256 ^ k <> 0).
      { intros E0. rewrite E0, Z.mul_0_l, Z.mul_0_r in Es. destruct (mpi_size_bound v Hv0).
        change (mpi_size 0) with 0 in Es. lia. }
      destruct (Z.ltb_spec v 0).
      * rewrite Z.sgn_neg by done. apply Z.ltb_lt. nia.
      * rewrite Z.sgn_pos by lia. apply Z.ltb_ge. nia.
  - intros H0. unfold compact_trunc. set (k := Z.max 0 (mpi_size v - 3)).
    assert (0 < 256 ^ k) by (apply Z.pow_pos_nonneg; lia). rewrite Z.abs_eq by done.
    pose proof (Z.mul_div_le v (256 ^ k)). pose proof (Z.div_pos v (256 ^ k)).
    destruct (decide (v = 0)) as [->|]; [done|]. rewrite Z.sgn_pos by lia. nia.
  - intros H3. unfold compact_trunc. rewrite Z.max_l by lia. rewrite Z.div_1_r. lia.
Qed.

Lemma compact_round_trip_witness :
  @SetCompact bn_reference 0x1d00ffff = 0xffff * 256 ^ 26 /\
  @GetCompact bn_reference (0xffff * 256 ^ 26) = 0x1d00ffff.
Proof.
  destruct (compact_round_trip (HL := bn_reference_laws) 0x1d00ffff (0xffff * 256 ^ 26)) as (E & _ & _ & E2 & _);
    [lia|reflexivity|].
  split; [rewrite E; reflexivity|rewrite <- E2; vm_compute; reflexivity].
Defined.

(** [GetHex] terminates without an exception on every number (its division
    loop runs out of digits), and [SetHex] reads the number back, for every
    padding and sign. *)
Theorem bignum_hex_round_trip {L : BNLib} {HL : BNLaws L} v pad :
  exists s, GetHex v pad = Some s /\ SetHex s = v.
Proof. apply SetHex_GetHex_bn. Qed.

Lemma bignum_hex_round_trip_witness :
  exists s, @GetHex bn_reference (-48879) 6 = Some s /\ @SetHex bn_reference s = -48879.
Proof. exact (bignum_hex_round_trip (HL := bn_reference_laws) (-48879) 6). Defined.

End BigNum.
