(* ===== verification/Crypto.v ===== *)
(** * Digest functions (src/src/util.h) and their OpenSSL interface

    SHA-256, RIPEMD-160 and SHA-1 come from OpenSSL; the class [DigestLib] is
    the interface and [DigestLaws] what the manual pages say of the output
    (its length).  [Hash] and [Hash160] are the compositions of util.h; a
    [uint256] or [uint160] result is its memory image, a list of bytes. *)

From S2P Require Import Prelude.

Class DigestLib := {
  SHA256 : list Z -> list Z;
  RIPEMD160 : list Z -> list Z;
  SHA1 : list Z -> list Z
}.

Class DigestLaws (D : DigestLib) : Prop := {
  SHA256_length m : length (SHA256 m) = 32%nat;
  SHA256_bytes m : Forall is_byte (SHA256 m);
  RIPEMD160_length m : length (RIPEMD160 m) = 20%nat;
  RIPEMD160_bytes m : Forall is_byte (RIPEMD160 m);
  SHA1_length m : length (SHA1 m) = 20%nat;
  SHA1_bytes m : Forall is_byte (SHA1 m)
}.

(** A digest library that satisfies the laws (a checksum, for evaluation). *)
Definition toy_digest (n : nat) (m : list Z) : list Z :=
  le_bytes n (fold_left (fun acc b => acc * 257 + b + 1) m 7).

Definition toy_digests : DigestLib := {|
  SHA256 := toy_digest 32;
  RIPEMD160 := toy_digest 20;
  SHA1 := toy_digest 20
|}.

#[export] Instance toy_digests_laws : DigestLaws toy_digests.
Proof. split; intros; apply length_le_bytes || apply le_bytes_is_byte. Qed.

Section digest.
Context {D : DigestLib}.

(** [Hash(pbegin, pend)], and the versions that hash two and three ranges. *)
Definition Hash (m : list Z) : list Z := SHA256 (SHA256 m).
Definition Hash2 (m1 m2 : list Z) : list Z := SHA256 (SHA256 (m1 ++ m2)).
Definition Hash3 (m1 m2 m3 : list Z) : list Z := SHA256 (SHA256 (m1 ++ m2 ++ m3)).

(** [Hash160(vch)] *)
Definition Hash160 (vch : list Z) : list Z := RIPEMD160 (SHA256 vch).

End digest.
