(* ===== verification/Ramhog.v ===== *)
(** * The proof-of-work hash (src/src/hashblock)

    HMAC-SHA256 and PBKDF2 (pbkdf2.c), the xorshift generator, the scratchpads
    and the iterations of ramhog.c, and the way ramhog_mt.cpp spreads the
    generation of the pads over worker threads.  Memory is read through
    [!!]: [None] is an access out of bounds (or a remainder by zero), so a
    result [Some _] also says that the run was memory safe.  A SHA256_CTX is
    the bytes fed to it so far. *)

From S2P Require Import Prelude Crypto.

Module Ramhog.

(** ** pbkdf2.c *)

Definition be32enc (x : Z) : list Z :=
  [Z.land (Z.shiftr x 24) 0xff; Z.land (Z.shiftr x 16) 0xff; Z.land (Z.shiftr x 8) 0xff; Z.land x 0xff].

Record HMAC_SHA256_CTX := mk_hmac { ictx : list Z; octx : list Z }.

(** [memset(pad, b, 64)], then [pad[i] ^= K[i]]. *)
Definition key_pad (b : Z) (K : list Z) : list Z :=
  for_up 0 (length K) (fun i pad => <[i := Z.lxor (rd pad i) (rd K i)]> pad) (replicate 64 b).

Section hash.
Context {D : DigestLib}.

Definition HMAC_SHA256_Init (K : list Z) : HMAC_SHA256_CTX :=
  let K := if 64 <? Z.of_nat (length K) then SHA256 K else K in
  mk_hmac (key_pad 0x36 K) (key_pad 0x5c K).

Definition HMAC_SHA256_Update (ctx : HMAC_SHA256_CTX) (b : list Z) : HMAC_SHA256_CTX :=
  mk_hmac (ictx ctx ++ b) (octx ctx).

Definition HMAC_SHA256_Final (ctx : HMAC_SHA256_CTX) : list Z := SHA256 (octx ctx ++ SHA256 (ictx ctx)).

(** [for (k = 0; k < 32; k++) T[k] ^= U[k]] *)
Definition xor_block (T U : list Z) : list Z :=
  for_up 0 32 (fun k T => <[k := Z.lxor (rd T k) (rd U k)]> T) T.

(** One round of the loop over [j]. *)
Definition pbkdf2_round (passwd : list Z) (ut : list Z * list Z) : list Z * list Z :=
  let '(U, T) := ut in
  let hctx := HMAC_SHA256_Update (HMAC_SHA256_Init passwd) U in
  let U := HMAC_SHA256_Final hctx in
  (U, xor_block T U).

(** The block that round [i] of the outer loop copies out of. *)
Definition pbkdf2_block (passwd : list Z) (PShctx : HMAC_SHA256_CTX) (c i : Z) : list Z :=
  let ivec := be32enc (u32 (i + 1)) in
  let U := HMAC_SHA256_Final (HMAC_SHA256_Update PShctx ivec) in
  (Nat.iter (Z.to_nat (c - 1)) (pbkdf2_round passwd) (U, U)).2.

(** [for (i = 0; i * 32 < dkLen; i++)]; [buf] holds the bytes written. *)
Fixpoint pbkdf2_loop (fuel : nat) (passwd : list Z) (PShctx : HMAC_SHA256_CTX) (c dkLen i : Z) (buf : list Z) : list Z :=
  if i * 32 <? dkLen then
    match fuel with
    | O => buf
    | S f =>
        let T := pbkdf2_block passwd PShctx c i in
        let clen := if 32 <? dkLen - i * 32 then 32 else dkLen - i * 32 in
        pbkdf2_loop f passwd PShctx c dkLen (i + 1) (buf ++ take (Z.to_nat clen) T)
    end
  else buf.

Definition PBKDF2_SHA256 (passwd salt : list Z) (c dkLen : Z) : list Z :=
  let PShctx := HMAC_SHA256_Update (HMAC_SHA256_Init passwd) salt in
  pbkdf2_loop (Z.to_nat dkLen) passwd PShctx c dkLen 0 [].

(** ** The generator of ramhog.c *)

Record xorshift_ctx := mk_xorshift { xs : list Z; xp : nat }.

Definition xorshift_next (ctx : xorshift_ctx) : Z * xorshift_ctx :=
  let s0 := rd (xs ctx) (xp ctx) in
  let p := Z.to_nat (Z.land (Z.of_nat (xp ctx) + 1) 63) in
  let s1 := rd (xs ctx) p in
  let s1 := Z.lxor s1 (u64 (Z.shiftl s1 25)) in
  let s1 := Z.lxor s1 (Z.shiftr s1 3) in
  let s0 := Z.lxor s0 (Z.shiftr s0 49) in
  let v := Z.lxor s0 s1 in
  (u64 (v * 8372773778140471301), mk_xorshift (<[p := v]> (xs ctx)) p).

(** An array of uint64_t over bytes, and its bytes. *)
Fixpoint words_of (n : nat) (b : list Z) : list Z :=
  match n with
  | O => []
  | S n' => le_val (take 8 b) :: words_of n' (drop 8 b)
  end.

Definition bytes_of (w : list Z) : list Z := concat (map (le_bytes 8) w).

Definition xorshift_pbkdf2_seed (seed salt : list Z) : xorshift_ctx :=
  let fullSeed := words_of 65 (PBKDF2_SHA256 seed salt 128 (8 * 65)) in
  mk_xorshift (take 64 fullSeed) (Z.to_nat (Z.land (rd fullSeed 16) 63)).

(** ** Scratchpads *)

(** [for (chunk=2; chunk < C; chunk++)]; [padOut] holds the chunks written. *)
Fixpoint gen_pad_loop (cnt : nat) (ctx : xorshift_ctx) (padOut : list Z) : option (list Z) :=
  match cnt with
  | O => Some padOut
  | S c =>
      let chunk := Z.of_nat (length padOut) in
      let '(x, ctx) := xorshift_next ctx in
      if Z.land x 511 =? 0 then
        let '(r, ctx) := xorshift_next ctx in
        y ← padOut !! Z.to_nat (r mod (chunk / 2) + chunk / 2);
        gen_pad_loop c ctx (padOut ++ [Z.lxor x y])
      else gen_pad_loop c ctx (padOut ++ [x])
  end.

(** The pad has room for [C] chunks; the first two are written always. *)
Definition ramhog_gen_pad (input : list Z) (C padIndex : Z) : option (list Z) :=
  if C <? 2 then None
  else
    let ctx := xorshift_pbkdf2_seed input (le_bytes 4 padIndex) in
    let '(x0, ctx) := xorshift_next ctx in
    let '(x1, ctx) := xorshift_next ctx in
    gen_pad_loop (Z.to_nat C - 2) ctx [x0; x1].

(** ** Iterations *)

(** The 32 chunks copied from one pad. *)
Definition final_chunks (C : Z) (pad : list Z) : option (list Z) :=
  let off := u32 (C - 1 - 32) in
  if off + 32 <=? Z.of_nat (length pad) then Some (take 32 (drop (Z.to_nat off) pad)) else None.

(** [X = scratchpads[...][...] ^ xorshift_next(&ctx)] *)
Definition iterate (N C : Z) (scratchpads : list (list Z)) (st : Z * xorshift_ctx) : option (Z * xorshift_ctx) :=
  let '(X, ctx) := st in
  pad ← scratchpads !! Z.to_nat (Z.land X 0xffffffff00000000 mod N);
  v ← pad !! Z.to_nat (Z.land X 0x00000000ffffffff mod C);
  let '(r, ctx) := xorshift_next ctx in
  Some (Z.lxor v r, ctx).

Fixpoint iterations (n : nat) (N C : Z) (scratchpads : list (list Z)) (st : Z * xorshift_ctx) : option (Z * xorshift_ctx) :=
  match n with
  | O => Some st
  | S n' => st ← iterate N C scratchpads st; iterations n' N C scratchpads st
  end.

(** The last 27 iterations, whose values go into finalSalt. *)
Fixpoint salted (n : nat) (N C : Z) (scratchpads : list (list Z)) (st : Z * xorshift_ctx) : option (list Z) :=
  match n with
  | O => Some []
  | S n' => st ← iterate N C scratchpads st; r ← salted n' N C scratchpads st; Some (st.1 :: r)
  end.

Definition ramhog_run_iterations (input : list Z) (output_size N C I : Z) (scratchpads : list (list Z)) : option (list Z) :=
  if N =? 0 then None
  else
    finalChunks ← mapM (fun i => pad ← scratchpads !! i; final_chunks C pad) (seq 0 (Z.to_nat N));
    let ctx := xorshift_pbkdf2_seed input (bytes_of (take (Z.to_nat N) (concat finalChunks))) in
    let '(X, ctx) := xorshift_next ctx in
    st ← iterations (Z.to_nat (u32 (I - (32 - 5)))) N C scratchpads (X, ctx);
    tl ← salted 27 N C scratchpads st;
    let finalSalt := [N; C; I; Z.of_nat (length input); output_size] ++ tl in
    Some (PBKDF2_SHA256 input (bytes_of finalSalt) 1 output_size).

Definition ramhog (input : list Z) (output_size N C I : Z) : option (list Z) :=
  scratchpads ← mapM (fun i => ramhog_gen_pad input C (Z.of_nat i)) (seq 0 (Z.to_nat N));
  ramhog_run_iterations input output_size N C I scratchpads.

(** ** ramhog_mt.cpp: the pads as jobs of worker threads *)

(** [ramhog_gen_pad_mt] writes its own pad, unless it is interrupted; the
    promise it fulfils is the second component. *)
Definition ramhog_gen_pad_mt (input : list Z) (C : Z) (fInterrupted : bool) (padIndex : nat) (scratchpads : list (list Z))
  : option (list (list Z) * bool) :=
  if fInterrupted then Some (scratchpads, false)
  else pad ← ramhog_gen_pad input C (Z.of_nat padIndex); Some (<[padIndex := pad]> scratchpads, true).

(** The jobs in the order the workers run them. *)
Fixpoint run_jobs (input : list Z) (C : Z) (interrupted : nat -> bool) (order : list nat) (scratchpads : list (list Z))
  : option (list (list Z) * bool) :=
  match order with
  | [] => Some (scratchpads, true)
  | j :: order' =>
      '(scratchpads, ok) ← ramhog_gen_pad_mt input C (interrupted j) j scratchpads;
      '(scratchpads, ok') ← run_jobs input C interrupted order' scratchpads;
      Some (scratchpads, ok && ok')
  end.

(** [ramhog_mt]: the output, or [inl tt] when it was interrupted. *)
Definition ramhog_mt (input : list Z) (output_size N C I : Z) (fInterrupted : bool) (interrupted : nat -> bool)
    (order : list nat) (scratchpads : list (list Z)) : option (unit + list Z) :=
  if fInterrupted then Some (inl tt)
  else
    '(scratchpads, fSuccess) ← run_jobs input C interrupted order scratchpads;
    if negb fSuccess then Some (inl tt)
    else inr <$> ramhog_run_iterations input output_size N C I scratchpads.

Definition MAIN_SHINY_PADS : Z := 16.
Definition MAIN_SHINY_CHUNKS : Z := 125829120.
Definition MAIN_SHINY_ITERS : Z := 8388608.
Definition TEST_SHINY_PADS : Z := 16.
Definition TEST_SHINY_CHUNKS : Z := 8388608.
Definition TEST_SHINY_ITERS : Z := 1048576.

End hash.

(** ** HMAC and PBKDF2 as RFC 2104 and RFC 2898 define them *)

Section rfc.
Context {D : DigestLib}.

Definition block_key (K : list Z) : list Z :=
  let K := if 64 <? Z.of_nat (length K) then SHA256 K else K in K ++ replicate (64 - length K) 0.

Definition hmac (K m : list Z) : list Z :=
  SHA256 (map (Z.lxor 0x5c) (block_key K) ++ SHA256 (map (Z.lxor 0x36) (block_key K) ++ m)).

(** U_(j+1) of block [i], and the sum of the first j+1 of them. *)
Fixpoint rfc_U (P S : list Z) (i : Z) (j : nat) : list Z :=
  match j with
  | O => hmac P (S ++ be_bytes 4 i)
  | Datatypes.S j' => hmac P (rfc_U P S i j')
  end.

Fixpoint rfc_T (P S : list Z) (i : Z) (j : nat) : list Z :=
  match j with
  | O => rfc_U P S i O
  | Datatypes.S j' => zip_with Z.lxor (rfc_T P S i j') (rfc_U P S i j)
  end.

Definition rfc_blocks (P S : list Z) (c : Z) (first n : nat) : list Z :=
  concat (map (fun i => rfc_T P S (Z.of_nat i + 1) (Z.to_nat (c - 1))) (seq first n)).

Definition rfc_pbkdf2 (P S : list Z) (c dkLen : Z) : list Z :=
  take (Z.to_nat dkLen) (rfc_blocks P S c 0 (Z.to_nat ((dkLen + 31) / 32))).

Context {HD : DigestLaws D}.

Lemma be32enc_be_bytes x : be32enc x = be_bytes 4 x.
Proof.
  unfold be32enc. rewrite !land_0xff, !Z.shiftr_div_pow2 by lia. rewrite !be_bytes_S.
  cbn [Z.of_nat]. change (be_bytes 0 x) with (@nil Z). rewrite Z.div_1_r. done.
Qed.

(** The loops that xor one array into another. *)
Lemma xor_loop_spec (l K : list Z) cnt :
  (cnt <= length l)%nat ->
  let r := for_up 0 cnt (fun i l => <[i := Z.lxor (rd l i) (rd K i)]> l) l in
  length r = length l /\ forall j, rd r j = if (j <? cnt)%nat then Z.lxor (rd l j) (rd K j) else rd l j.
Proof.
  intros Hc r.
  pose proof (for_up_inv (fun n r => length r = length l /\
    forall j, rd r j = if (j <? n)%nat then Z.lxor (rd l j) (rd K j) else rd l j)
    (fun i l => <[i := Z.lxor (rd l i) (rd K i)]> l) cnt 0 l) as H. apply H.
  - split; [done|]. intros j. by rewrite (proj2 (Nat.ltb_ge _ _)) by lia.
  - intros i s Hi [Hl Hs]. rewrite length_insert. split; [done|]. intros j. rewrite rd_insert by lia.
    case_decide as Hj.
    + subst j. rewrite Hs, Nat.ltb_irrefl. by rewrite (proj2 (Nat.ltb_lt _ _)) by lia.
    + rewrite Hs. destruct (Nat.ltb_spec j i), (Nat.ltb_spec j (Datatypes.S i)); done || lia.
Qed.

Lemma rd_map (f : Z -> Z) l i : (i < length l)%nat -> rd (map f l) i = f (rd l i).
Proof. intros Hi. unfold rd. rewrite list_lookup_fmap. by destruct (lookup_lt_is_Some_2 l i Hi) as [x ->]. Qed.

Lemma key_pad_spec b K :
  (length K <= 64)%nat -> key_pad b K = map (Z.lxor b) (K ++ replicate (64 - length K) 0).
Proof.
  intros HK. destruct (xor_loop_spec (replicate 64 b) K (length K)) as [Hl Hr]; [by rewrite length_replicate|].
  cbv zeta in Hl, Hr. unfold key_pad. set (r := for_up _ _ _ _) in *. clearbody r. rewrite length_replicate in Hl.
  assert (length (K ++ replicate (64 - length K) 0) = 64%nat) as Hk by (rewrite length_app, length_replicate; lia).
  apply rd_ext; [by rewrite length_map, Hk, Hl|]. intros i Hi. rewrite Hl in Hi. rewrite Hr, rd_map, rd_replicate by lia.
  destruct (Nat.ltb_spec i (length K)); unfold rd.
  - by rewrite lookup_app_l by lia.
  - rewrite lookup_app_r by lia. rewrite lookup_replicate_2 by lia. simpl. by rewrite Z.lxor_0_r.
Qed.

Lemma HMAC_spec K m :
  HMAC_SHA256_Final (HMAC_SHA256_Update (HMAC_SHA256_Init K) m) = hmac K m.
Proof.
  unfold HMAC_SHA256_Final, HMAC_SHA256_Init, hmac, block_key. cbn [HMAC_SHA256_Update ictx octx].
  set (K' := if 64 <? Z.of_nat (length K) then SHA256 K else K).
  assert (length K' <= 64)%nat by (unfold K'; destruct (Z.ltb_spec 64 (Z.of_nat (length K))); [rewrite SHA256_length|]; lia).
  by rewrite !key_pad_spec by done.
Qed.

Lemma xor_block_spec T U : length T = 32%nat -> length U = 32%nat -> xor_block T U = zip_with Z.lxor T U.
Proof.
  intros HT HU. destruct (xor_loop_spec T U 32) as [Hl Hr]; [lia|]. cbv zeta in Hl, Hr. unfold xor_block.
  set (r := for_up _ _ _ _) in *. clearbody r.
  apply rd_ext; [rewrite length_zip_with; lia|]. intros i Hi. rewrite Hr, (proj2 (Nat.ltb_lt _ _)) by lia.
  unfold rd. rewrite lookup_zip_with.
  destruct (lookup_lt_is_Some_2 T i ltac:(lia)) as [x ->], (lookup_lt_is_Some_2 U i ltac:(lia)) as [y ->]. done.
Qed.

Lemma length_hmac K m : length (hmac K m) = 32%nat.
Proof. apply SHA256_length. Qed.

Lemma length_rfc_U P S i j : length (rfc_U P S i j) = 32%nat.
Proof. destruct j; apply length_hmac. Qed.

Lemma length_rfc_T P S i j : length (rfc_T P S i j) = 32%nat.
Proof.
  induction j as [|j IH]; [apply length_hmac|]. cbn [rfc_T]. by rewrite length_zip_with, IH, length_rfc_U.
Qed.

Lemma pbkdf2_rounds P S i j :
  Nat.iter j (pbkdf2_round P) (rfc_U P S i 0, rfc_U P S i 0) = (rfc_U P S i j, rfc_T P S i j).
Proof.
  induction j as [|j IH]; [done|]. cbn [Nat.iter nat_rect]. change (nat_rect _ _ _ j) with (Nat.iter j (pbkdf2_round P) (rfc_U P S i 0, rfc_U P S i 0)).
  rewrite IH. unfold pbkdf2_round. rewrite HMAC_spec. cbn [rfc_U rfc_T].
  by rewrite xor_block_spec by (apply length_rfc_T || apply length_hmac).
Qed.

Lemma pbkdf2_block_spec P S c i :
  0 <= i -> i + 1 < 2 ^ 32 ->
  pbkdf2_block P (HMAC_SHA256_Update (HMAC_SHA256_Init P) S) c i = rfc_T P S (i + 1) (Z.to_nat (c - 1)).
Proof.
  intros Hi Hl. unfold pbkdf2_block. rewrite u32_small, be32enc_be_bytes by lia.
  change (HMAC_SHA256_Update (HMAC_SHA256_Update (HMAC_SHA256_Init P) S) (be_bytes 4 (i + 1)))
    with (mk_hmac ((ictx (HMAC_SHA256_Init P) ++ S) ++ be_bytes 4 (i + 1)) (octx (HMAC_SHA256_Init P))).
  rewrite <- app_assoc.
  change (mk_hmac (ictx (HMAC_SHA256_Init P) ++ S ++ be_bytes 4 (i + 1)) (octx (HMAC_SHA256_Init P)))
    with (HMAC_SHA256_Update (HMAC_SHA256_Init P) (S ++ be_bytes 4 (i + 1))).
  rewrite HMAC_spec. change (hmac P (S ++ be_bytes 4 (i + 1))) with (rfc_U P S (i + 1) 0).
  by rewrite pbkdf2_rounds.
Qed.

Lemma length_rfc_blocks P S c n : forall first, length (rfc_blocks P S c first n) = (32 * n)%nat.
Proof.
  unfold rfc_blocks. induction n as [|n IH]; intros first; [done|]. cbn [seq map concat].
  rewrite length_app, length_rfc_T, IH. lia.
Qed.

Lemma pbkdf2_loop_spec P S c dkLen fuel : forall i buf,
  dkLen <= 32 * (2 ^ 32 - 1) -> dkLen - Z.of_nat i * 32 <= Z.of_nat fuel ->
  pbkdf2_loop fuel P (HMAC_SHA256_Update (HMAC_SHA256_Init P) S) c dkLen (Z.of_nat i) buf =
    buf ++ take (Z.to_nat (dkLen - Z.of_nat i * 32)) (rfc_blocks P S c i (Z.to_nat ((dkLen - Z.of_nat i * 32 + 31) / 32))).
Proof.
  induction fuel as [|fuel IH]; intros i buf Hd Hf.
  { cbn [pbkdf2_loop]. rewrite (proj2 (Z.ltb_ge _ _)) by lia. replace (Z.to_nat (dkLen - Z.of_nat i * 32)) with 0%nat by lia.
    by rewrite app_nil_r. }
  cbn [pbkdf2_loop]. destruct (Z.ltb_spec (Z.of_nat i * 32) dkLen) as [Hi|Hi].
  2:{ replace (Z.to_nat (dkLen - Z.of_nat i * 32)) with 0%nat by lia. by rewrite app_nil_r. }
  cbv zeta. rewrite pbkdf2_block_spec by lia. set (rest := dkLen - Z.of_nat i * 32) in *.
  replace (Z.of_nat i + 1) with (Z.of_nat (Datatypes.S i)) by lia. rewrite IH by lia.
  replace (dkLen - Z.of_nat (Datatypes.S i) * 32) with (rest - 32) by lia.
  replace (Z.to_nat ((rest + 31) / 32)) with (Datatypes.S (Z.to_nat ((rest - 32 + 31) / 32))).
  2:{ replace (rest + 31) with (rest - 32 + 31 + 1 * 32) by lia. rewrite Z.div_add by lia.
      assert (0 <= (rest - 32 + 31) / 32) by (apply Z.div_pos; lia). lia. }
  unfold rfc_blocks. cbn [seq map concat]. replace (Z.of_nat i + 1) with (Z.of_nat (Datatypes.S i)) by lia.
  set (T := rfc_T _ _ _ _). assert (length T = 32%nat) as HT by apply length_rfc_T.
  rewrite <- app_assoc. f_equal. destruct (Z.ltb_spec 32 rest).
  - rewrite (take_ge T (Z.to_nat 32)) by lia. rewrite take_app_ge by lia. f_equal. f_equal. lia.
  - rewrite take_app_le by lia. replace (Z.to_nat (rest - 32)) with 0%nat by lia. by rewrite app_nil_r.
Qed.

Lemma PBKDF2_spec P S c dkLen :
  0 <= dkLen <= 32 * (2 ^ 32 - 1) -> PBKDF2_SHA256 P S c dkLen = rfc_pbkdf2 P S c dkLen.
Proof.
  intros Hd. unfold PBKDF2_SHA256. pose proof (pbkdf2_loop_spec P S c dkLen (Z.to_nat dkLen) 0 []) as H.
  change (Z.of_nat 0) with 0 in H. cbv zeta. rewrite H by lia. cbn [app]. unfold rfc_pbkdf2. by rewrite Z.mul_0_l, Z.sub_0_r.
Qed.

Lemma length_PBKDF2 P S c dkLen :
  0 <= dkLen <= 32 * (2 ^ 32 - 1) -> Z.of_nat (length (PBKDF2_SHA256 P S c dkLen)) = dkLen.
Proof.
  intros Hd. rewrite PBKDF2_spec by done. unfold rfc_pbkdf2. rewrite length_take, length_rfc_blocks.
  pose proof (Z.div_mod (dkLen + 31) 32). pose proof (Z.mod_pos_bound (dkLen + 31) 32).
  assert (0 <= (dkLen + 31) / 32) by (apply Z.div_pos; lia). lia.
Qed.

End rfc.

(** ** Scratchpads and iterations *)

Section safety.
Context {D : DigestLib} {HD : DigestLaws D}.

Lemma gen_pad_loop_some cnt : forall ctx pad,
  (2 <= length pad)%nat -> exists pad', gen_pad_loop cnt ctx pad = Some pad' /\ length pad' = (length pad + cnt)%nat.
Proof.
  induction cnt as [|cnt IH]; intros ctx pad Hp; cbn [gen_pad_loop]; [exists pad; split; [done|lia]|].
  destruct (xorshift_next ctx) as [x ctx1]. cbv zeta. destruct (Z.land x 511 =? 0).
  - destruct (xorshift_next ctx1) as [r ctx2]. set (chunk := Z.of_nat (length pad)).
    assert (1 <= chunk / 2) by (apply Z.div_le_lower_bound; lia).
    pose proof (Z.mod_pos_bound r (chunk / 2) ltac:(lia)). pose proof (Z.mul_div_le chunk 2 ltac:(lia)).
    destruct (lookup_lt_is_Some_2 pad (Z.to_nat (r mod (chunk / 2) + chunk / 2))) as [y ->]; [lia|]. cbn [mbind option_bind].
    destruct (IH ctx2 (pad ++ [Z.lxor x y])) as (pad' & E & Hl); [rewrite length_app; lia|].
    exists pad'. split; [done|]. rewrite Hl, length_app. simpl. lia.
  - destruct (IH ctx1 (pad ++ [x])) as (pad' & E & Hl); [rewrite length_app; lia|].
    exists pad'. split; [done|]. rewrite Hl, length_app. simpl. lia.
Qed.

Lemma gen_pad_some input C padIndex :
  2 <= C -> exists pad, ramhog_gen_pad input C padIndex = Some pad /\ Z.of_nat (length pad) = C.
Proof.
  intros HC. unfold ramhog_gen_pad. rewrite (proj2 (Z.ltb_ge C 2)) by lia.
  destruct (xorshift_next _) as [x0 ctx]. destruct (xorshift_next ctx) as [x1 ctx'].
  destruct (gen_pad_loop_some (Z.to_nat C - 2) ctx' [x0; x1]) as (pad & -> & Hl); [simpl; lia|].
  exists pad. split; [done|]. rewrite Hl. simpl. lia.
Qed.

(** Pads of the right number and size. *)
Definition pads_ok (N C : Z) (pads : list (list Z)) : Prop :=
  Z.of_nat (length pads) = N /\ Forall (fun p => Z.of_nat (length p) = C) pads.

Lemma pads_lookup N C pads i :
  pads_ok N C pads -> 0 <= i < N -> exists p, pads !! Z.to_nat i = Some p /\ Z.of_nat (length p) = C.
Proof.
  intros [Hl Hf] Hi. destruct (lookup_lt_is_Some_2 pads (Z.to_nat i)) as [p E]; [lia|]. exists p. split; [done|].
  by apply (Forall_lookup_1 _ _ _ _ Hf E).
Qed.

Lemma iterate_some N C pads st :
  0 < N -> 0 < C -> pads_ok N C pads -> exists st', iterate N C pads st = Some st'.
Proof.
  intros HN HC Hp. destruct st as [X ctx]. unfold iterate.
  destruct (pads_lookup N C pads _ Hp (Z.mod_pos_bound (Z.land X 0xffffffff00000000) N HN)) as (p & -> & Hl).
  cbn [mbind option_bind]. pose proof (Z.mod_pos_bound (Z.land X 0x00000000ffffffff) C HC).
  destruct (lookup_lt_is_Some_2 p (Z.to_nat (Z.land X 0x00000000ffffffff mod C))) as [v ->]; [lia|].
  cbn [mbind option_bind]. destruct (xorshift_next ctx). eauto.
Qed.

Lemma iterations_some N C pads n : 0 < N -> 0 < C -> pads_ok N C pads ->
  forall st, exists st', iterations n N C pads st = Some st'.
Proof.
  intros HN HC Hp. induction n as [|n IH]; intros st; cbn [iterations]; [eauto|].
  destruct (iterate_some N C pads st HN HC Hp) as [st' ->]. apply IH.
Qed.

Lemma salted_some N C pads n : 0 < N -> 0 < C -> pads_ok N C pads ->
  forall st, exists l, salted n N C pads st = Some l.
Proof.
  intros HN HC Hp. induction n as [|n IH]; intros st; cbn [salted]; [eauto|].
  destruct (iterate_some N C pads st HN HC Hp) as [st' ->]. cbn [mbind option_bind].
  destruct (IH st') as [l ->]. cbn [mbind option_bind]. eauto.
Qed.

(** The chunks that go into the seed of the iterations. *)
Definition pad_chunks (C : Z) (pads : list (list Z)) (i : nat) : option (list Z) :=
  pad ← pads !! i; final_chunks C pad.

Lemma pad_chunks_some N C pads i :
  33 <= C < 2 ^ 32 -> pads_ok N C pads -> (i < Z.to_nat N)%nat ->
  exists c, pad_chunks C pads i = Some c /\ length c = 32%nat.
Proof.
  intros HC Hp Hi. destruct (pads_lookup N C pads (Z.of_nat i) Hp ltac:(lia)) as (p & Ep & Hl).
  rewrite Nat2Z.id in Ep. unfold pad_chunks, final_chunks. rewrite Ep. cbn [mbind option_bind].
  rewrite u32_small by lia. rewrite (proj2 (Z.leb_le _ _)) by lia. eexists. split; [done|].
  rewrite length_take, length_drop. lia.
Qed.

Lemma mapM_pad_chunks N C pads : 33 <= C < 2 ^ 32 -> pads_ok N C pads ->
  exists l, mapM (pad_chunks C pads) (seq 0 (Z.to_nat N)) = Some l.
Proof.
  intros HC Hp. apply mapM_is_Some_2, Forall_forall. intros i Hi%elem_of_seq.
  destruct (pad_chunks_some N C pads i HC Hp ltac:(lia)) as (c & E & _). exists c. exact E.
Qed.

Lemma run_iterations_some input osize N C I pads :
  0 < N -> 33 <= C < 2 ^ 32 -> 0 <= osize <= 32 * (2 ^ 32 - 1) -> pads_ok N C pads ->
  exists out, ramhog_run_iterations input osize N C I pads = Some out /\ Z.of_nat (length out) = osize.
Proof.
  intros HN HC Ho Hp. unfold ramhog_run_iterations. rewrite (proj2 (Z.eqb_neq N 0)) by lia.
  destruct (mapM_pad_chunks N C pads HC Hp) as [l E]. unfold pad_chunks in E. rewrite E. cbn [mbind option_bind].
  destruct (xorshift_next _) as [X ctx].
  destruct (iterations_some N C pads (Z.to_nat (u32 (I - (32 - 5)))) HN ltac:(lia) Hp (X, ctx)) as [st ->].
  cbn [mbind option_bind]. destruct (salted_some N C pads 27 HN ltac:(lia) Hp st) as [tl ->]. cbn [mbind option_bind].
  eexists. split; [done|]. by apply length_PBKDF2.
Qed.

Lemma gen_pads_ok input N C : 0 <= N -> 2 <= C ->
  exists pads, mapM (fun i => ramhog_gen_pad input C (Z.of_nat i)) (seq 0 (Z.to_nat N)) = Some pads /\ pads_ok N C pads.
Proof.
  intros HN HC. destruct (mapM_is_Some_2 (fun i => ramhog_gen_pad input C (Z.of_nat i)) (seq 0 (Z.to_nat N))) as [pads E].
  { apply Forall_forall. intros i _. destruct (gen_pad_some input C (Z.of_nat i) HC) as (pad & E & _). exists pad. exact E. }
  exists pads. split; [done|]. pose proof (length_mapM _ _ _ E) as Hl. rewrite length_seq in Hl. split; [lia|].
  apply mapM_Some_1 in E. apply Forall_lookup. intros k p Hk.
  destruct (Forall2_lookup_r _ _ _ _ _ E Hk) as (i & _ & Ei).
  destruct (gen_pad_some input C (Z.of_nat i) HC) as (pad & Ei' & Hlen). congruence.
Qed.

(** The upper half of [X], not shifted down, is a multiple of 2^32. *)
Lemma high_mask_mod X N : 0 < N -> (N | 2 ^ 32) -> Z.land X 0xffffffff00000000 mod N = 0.
Proof.
  intros HN HNd. apply Z.mod_divide; [lia|]. etrans; [exact HNd|]. apply Z.mod_divide; [lia|].
  rewrite <- Z.land_ones, <- Z.land_assoc by lia. change (Z.land 0xffffffff00000000 (Z.ones 32)) with 0. apply Z.land_0_r.
Qed.

Lemma iterate_first N C pads pads' st :
  0 < N -> (N | 2 ^ 32) -> pads !! 0%nat = pads' !! 0%nat -> iterate N C pads st = iterate N C pads' st.
Proof.
  intros HN Hd E. destruct st as [X ctx]. unfold iterate. rewrite high_mask_mod by done. change (Z.to_nat 0) with 0%nat. by rewrite E.
Qed.

Lemma run_iterations_first input osize N C I pads pads' :
  0 < N <= 32 -> (N | 2 ^ 32) -> 33 <= C < 2 ^ 32 -> pads_ok N C pads -> pads_ok N C pads' ->
  pads !! 0%nat = pads' !! 0%nat ->
  ramhog_run_iterations input osize N C I pads = ramhog_run_iterations input osize N C I pads'.
Proof.
  intros HN Hd HC Hp Hp' E0. unfold ramhog_run_iterations. rewrite (proj2 (Z.eqb_neq N 0)) by lia.
  destruct (mapM_pad_chunks N C pads HC Hp) as [l El], (mapM_pad_chunks N C pads' HC Hp') as [l' El'].
  assert (take (Z.to_nat N) (concat l) = take (Z.to_nat N) (concat l')) as Ec.
  { destruct (Z.to_nat N) as [|n] eqn:En; [lia|]. cbn [seq] in El, El'.
    apply mapM_Some_1 in El, El'. inversion El as [|? c ? cs Hc Hcs]; subst. inversion El' as [|? c' ? cs' Hc' Hcs']; subst.
    assert (c = c') as <- by (unfold pad_chunks in Hc, Hc'; rewrite E0 in Hc; congruence).
    destruct (pad_chunks_some N C pads 0 HC Hp ltac:(lia)) as (c0 & Ec0 & Hl). rewrite Hc in Ec0. injection Ec0 as <-.
    cbn [concat]. rewrite !take_app_le by lia. done. }
  unfold pad_chunks in El, El'. rewrite El, El'. cbn [mbind option_bind]. rewrite Ec. destruct (xorshift_next _) as [X ctx].
  assert (forall n st, iterations n N C pads st = iterations n N C pads' st) as Hi.
  { induction n as [|n IH]; intros st; cbn [iterations]; [done|]. rewrite (iterate_first N C pads pads') by (done || lia).
    destruct (iterate N C pads' st); [apply IH|done]. }
  assert (forall n st, salted n N C pads st = salted n N C pads' st) as Hs.
  { induction n as [|n IH]; intros st; cbn [salted]; [done|]. rewrite (iterate_first N C pads pads') by (done || lia).
    destruct (iterate N C pads' st) as [st'|]; [|done]. cbn [mbind option_bind]. by rewrite IH. }
  rewrite Hi. destruct (iterations_some N C pads' (Z.to_nat (u32 (I - (32 - 5)))) ltac:(lia) ltac:(lia) Hp' (X, ctx)) as [st ->].
  cbn [mbind option_bind]. rewrite Hs. reflexivity.
Qed.

(** *** Worker threads *)

(** Jobs that are not interrupted write each its own pad. *)
Lemma run_jobs_spec input C order : 2 <= C -> forall pads, NoDup order -> Forall (fun j => j < length pads)%nat order ->
  exists pads', run_jobs input C (fun _ => false) order pads = Some (pads', true) /\ length pads' = length pads /\
    forall i, pads' !! i = if bool_decide (i ∈ order) then ramhog_gen_pad input C (Z.of_nat i) else pads !! i.
Proof.
  intros HC. induction order as [|j order IH]; intros pads Hnd Hlt; cbn [run_jobs].
  { exists pads. split; [done|]. split; [done|]. intros i. by rewrite bool_decide_false by (apply not_elem_of_nil). }
  inversion Hnd as [|? ? Hj Hnd']; subst. inversion Hlt as [|? ? Hjl Hlt']; subst.
  unfold ramhog_gen_pad_mt. destruct (gen_pad_some input C (Z.of_nat j) HC) as (pad & Ep & _). rewrite Ep. cbn [mbind option_bind].
  destruct (IH (<[j := pad]> pads) Hnd') as (pads' & -> & Hl & Hi); [by rewrite length_insert|]. cbn [mbind option_bind andb].
  exists pads'. split; [done|]. rewrite length_insert in Hl. split; [done|]. intros i. rewrite Hi.
  destruct (decide (i = j)) as [->|Hne].
  - rewrite bool_decide_false by done. rewrite bool_decide_true by (by left). rewrite list_lookup_insert_eq by done. by rewrite Ep.
  - rewrite list_lookup_insert_ne by done. apply (f_equal (fun b : bool => if b then _ else _)). apply bool_decide_ext.
    rewrite elem_of_cons. tauto.
Qed.

(** An interrupted job makes the whole run report failure. *)
Lemma run_jobs_interrupted input C interrupted order : forall pads pads' ok,
  run_jobs input C interrupted order pads = Some (pads', ok) -> ok = forallb (fun j => negb (interrupted j)) order.
Proof.
  induction order as [|j order IH]; intros pads pads' ok; cbn [run_jobs forallb]; [intros [= _ <-]; done|].
  unfold ramhog_gen_pad_mt. destruct (interrupted j); cbn [negb andb mbind option_bind].
  - destruct (run_jobs _ _ _ order pads) as [[q o]|]; [|done]. cbn [mbind option_bind]. intros [= _ <-]. done.
  - destruct (ramhog_gen_pad input C (Z.of_nat j)) as [pad|]; [|done]. cbn [mbind option_bind].
    destruct (run_jobs _ _ _ order _) as [[q o]|] eqn:Er; [|done]. cbn [mbind option_bind andb]. intros [= _ <-].
    by apply IH in Er.
Qed.

Lemma run_jobs_ext input C f g order : (forall j, j ∈ order -> f j = g j) -> forall pads,
  run_jobs input C f order pads = run_jobs input C g order pads.
Proof.
  induction order as [|j order IH]; intros H pads; cbn [run_jobs]; [done|]. rewrite (H j) by (by left).
  destruct (ramhog_gen_pad_mt _ _ _ _ _) as [[q o]|]; [|done]. cbn [mbind option_bind]. rewrite IH; [done|].
  intros i Hi. apply H. by right.
Qed.

Lemma run_jobs_any_order input C order pads :
  2 <= C -> order ≡ₚ seq 0 (length pads) ->
  exists pads', run_jobs input C (fun _ => false) order pads = Some (pads', true) /\
    mapM (fun i => ramhog_gen_pad input C (Z.of_nat i)) (seq 0 (length pads)) = Some pads'.
Proof.
  intros HC Hperm. destruct (run_jobs_spec input C order HC pads) as (pads' & E & Hl & Hi).
  { rewrite Hperm. apply NoDup_seq. }
  { rewrite Hperm. apply Forall_forall. intros j Hj%elem_of_seq. lia. }
  exists pads'. split; [done|]. apply mapM_Some_2. apply Forall2_same_length_lookup. rewrite length_seq. split; [done|].
  intros k i p Hk Hp. apply lookup_seq in Hk as [-> Hk]. rewrite Hi, bool_decide_true in Hp; [done|].
  rewrite Hperm, elem_of_seq. lia.
Qed.

End safety.

(** ** Properties *)

Section claims.
Context {D : DigestLib} {HD : DigestLaws D}.

(** PBKDF2_SHA256 writes exactly [dkLen] bytes and computes the function
    of RFC 2898 with the HMAC of RFC 2104 over SHA-256, for every password
    (longer than a block included), salt, iteration count and length that the
    comment allows. *)
Theorem PBKDF2_is_rfc2898 P S c dkLen :
  0 <= dkLen <= 32 * (2 ^ 32 - 1) ->
  PBKDF2_SHA256 P S c dkLen = rfc_pbkdf2 P S c dkLen /\ Z.of_nat (length (PBKDF2_SHA256 P S c dkLen)) = dkLen.
Proof. intros Hd. split; [by apply PBKDF2_spec|by apply length_PBKDF2]. Qed.


(** With a number of pads that divides 2^32 and is at most 32, as the 16
    of both networks is, the hash depends on the first scratchpad only: the
    pad index [(X & 0xffffffff00000000) % N] is always zero, and the seed of
    the iterations takes its N words from the first pad, so replacing every
    other pad by anything of the same size gives the same hash. *)
Theorem ramhog_uses_one_pad input osize N C I pads pads' :
  0 < N <= 32 -> (N | 2 ^ 32) -> 33 <= C < 2 ^ 32 -> pads_ok N C pads -> pads_ok N C pads' ->
  pads !! 0%nat = pads' !! 0%nat ->
  ramhog_run_iterations input osize N C I pads = ramhog_run_iterations input osize N C I pads' /\
  0 < MAIN_SHINY_PADS <= 32 /\ (MAIN_SHINY_PADS | 2 ^ 32) /\ MAIN_SHINY_PADS = TEST_SHINY_PADS.
Proof.
  intros. split; [by apply run_iterations_first|]. split; [done|]. split; [by exists (2 ^ 28)|done].
Qed.

End claims.

(** ** Witnesses *)

Lemma PBKDF2_is_rfc2898_witness :
  Z.of_nat (length (PBKDF2_SHA256 (D := toy_digests) [112; 119] [115] 2 40)) = 40.
Proof. apply (PBKDF2_is_rfc2898 (D := toy_digests) [112; 119] [115] 2 40). lia. Defined.


Lemma ramhog_uses_one_pad_witness :
  ramhog_run_iterations (D := toy_digests) [1] 32 2 33 27 [replicate 33 5; replicate 33 6] =
  ramhog_run_iterations (D := toy_digests) [1] 32 2 33 27 [replicate 33 5; replicate 33 0].
Proof.
  assert (pads_ok 2 33 [replicate 33 5; replicate 33 6]) as H by (split; [reflexivity|repeat constructor]).
  assert (pads_ok 2 33 [replicate 33 5; replicate 33 0]) as H' by (split; [reflexivity|repeat constructor]).
  assert (2 | 2 ^ 32) as Hd by (exists (2 ^ 31); reflexivity).
  exact (proj1 (ramhog_uses_one_pad (D := toy_digests) [1] 32 2 33 27 _ _ ltac:(lia) Hd ltac:(lia) H H' eq_refl)).
Defined.
End Ramhog.
