(* ===== verification/RamhogPool.v ===== *)
(** * The scratchpad pool (src/src/hashblock/ramhog_mt.cpp)

    [CRamhogThreadPool::ramhog] is called by several threads (the miners and
    the block checks).  A semaphore counts the free pad sets and the array
    fPadUsed, under a lock, says which they are.  The model interleaves any
    number of callers: every lock section and every semaphore operation is one
    step. *)

From stdpp Require Import relations.
From S2P Require Import Prelude.

Module Pool.

(** Where a caller is. *)
Inductive caller :=
| Idle                     (* not in the function, or returned *)
| Waiting                  (* before [waitPads.wait()] *)
| Acquired                 (* after it, before the pad is picked *)
| Running (whichPad : nat) (* the job is posted and awaited *)
| Released                 (* the pad is given back, before [waitPads.post()] *)
| Thrown.                  (* "waitPads/fPadUsed mismatch" *)

Record pool := mk_pool { waitPads : nat; fPadUsed : list bool; callers : list caller }.

(** [for (i=0; i < numSimultaneous; i++) if (!fPadUsed[i]) ...] *)
Fixpoint pick_pad (used : list bool) (i : nat) : option nat :=
  match used with
  | [] => None
  | u :: used' => if negb u then Some i else pick_pad used' (S i)
  end.

(** One step of one caller: its place before and after, with the semaphore
    and the flags.  [fNeedCheckBlock && fForMiner], a new best block and the
    absence of workers are choices of the environment. *)
Inductive moves : caller -> nat -> list bool -> caller -> nat -> list bool -> Prop :=
| m_refused w f : moves Idle w f Idle w f
| m_enter w f : moves Idle w f Waiting w f
| m_wait w f : moves Waiting (S w) f Acquired w f
| m_interrupted w f : moves Acquired w f Idle (S w) f
| m_pick w f i : pick_pad f 0 = Some i -> moves Acquired w f (Running i) w (<[i := true]> f)
| m_mismatch w f : pick_pad f 0 = None -> moves Acquired w f Thrown (S w) f
| m_done w f i : moves (Running i) w f Released w (<[i := false]> f)
| m_post w f : moves Released w f Idle (S w) f.

Inductive step : pool -> pool -> Prop :=
| step_caller l1 c c' l2 w w' f f' :
    moves c w f c' w' f' ->
    step (mk_pool w f (l1 ++ c :: l2)) (mk_pool w' f' (l1 ++ c' :: l2)).

(** The constructor: [numSimultaneous] pad sets, none used. *)
Definition init (numSimultaneous nCallers : nat) : pool :=
  mk_pool numSimultaneous (replicate numSimultaneous false) (replicate nCallers Idle).

Definition reachable (n k : nat) (s : pool) : Prop := rtc step (init n k) s.

(** ** The invariant *)

(** Callers between [wait] and [post], and the pads they hold. *)
Definition inside (c : caller) : bool := match c with Acquired | Running _ | Released => true | _ => false end.
Definition held (c : caller) : option nat := match c with Running i => Some i | _ => None end.

Definition n_inside (l : list caller) : nat := length (List.filter inside l).
Definition holders (l : list caller) : list nat := omap held l.

Record pool_ok (n : nat) (s : pool) : Prop := {
  ok_count : (waitPads s + n_inside (callers s) = n)%nat;
  ok_flags : length (fPadUsed s) = n;
  ok_used : forall i, fPadUsed s !! i = Some true <-> i ∈ holders (callers s);
  ok_distinct : NoDup (holders (callers s));
  ok_no_throw : Thrown ∉ callers s
}.

Lemma pick_pad_some f : forall k i, pick_pad f k = Some i -> (k <= i)%nat /\ f !! (i - k)%nat = Some false.
Proof.
  induction f as [|u f IH]; intros k i; cbn [pick_pad]; [done|]. destruct u; cbn [negb].
  - intros H. apply IH in H as [Hk H]. split; [lia|]. replace (i - k)%nat with (S (i - S k)) by lia. exact H.
  - intros [= <-]. split; [lia|]. by rewrite Nat.sub_diag.
Qed.

Lemma pick_pad_none f : forall k, pick_pad f k = None -> forall i, (i < length f)%nat -> f !! i = Some true.
Proof.
  induction f as [|u f IH]; intros k Hn i Hi; cbn [pick_pad] in Hn; [simpl in Hi; lia|].
  destruct u; cbn [negb] in Hn; [|done]. destruct i as [|i]; [done|]. apply (IH (S k) Hn). simpl in Hi. lia.
Qed.

Lemma n_inside_mid l1 c l2 : n_inside (l1 ++ c :: l2) = (n_inside l1 + (if inside c then 1 else 0) + n_inside l2)%nat.
Proof. unfold n_inside. rewrite List.filter_app, length_app. cbn [List.filter]. destruct (inside c); cbn [length]; lia. Qed.

Lemma holders_mid l1 c l2 :
  holders (l1 ++ c :: l2) = holders l1 ++ (match held c with Some i => [i] | None => [] end) ++ holders l2.
Proof. unfold holders. rewrite omap_app. cbn. by destruct (held c). Qed.

Lemma holders_inside l : (length (holders l) <= n_inside l)%nat.
Proof.
  induction l as [|c l IH]; [done|]. unfold holders, n_inside in *. cbn. destruct c; cbn; lia.
Qed.

(** Pads that are all in use need as many holders. *)
Lemma all_used_count (h : list nat) n : (forall i, (i < n)%nat -> i ∈ h) -> (n <= length h)%nat.
Proof.
  intros H. rewrite <- (length_seq n 0). apply submseteq_length, NoDup_submseteq; [apply NoDup_seq|].
  intros i Hi%elem_of_seq. apply H. lia.
Qed.

(** A caller that is about to pick finds a free pad. *)
Lemma pick_succeeds n w f l1 l2 :
  pool_ok n (mk_pool w f (l1 ++ Acquired :: l2)) -> pick_pad f 0 <> None.
Proof.
  intros [Hc Hl Hu _ _] Hn. cbn [waitPads fPadUsed callers] in *.
  assert (n <= length (holders (l1 ++ Acquired :: l2)))%nat as Hle.
  { apply all_used_count. intros i Hi. apply Hu. apply (pick_pad_none f 0 Hn). lia. }
  rewrite holders_mid in Hle. cbn [held] in Hle. rewrite !length_app in Hle. cbn [length] in Hle.
  rewrite n_inside_mid in Hc. cbn [inside] in Hc. pose proof (holders_inside l1). pose proof (holders_inside l2). lia.
Qed.

Lemma no_throw_mid l1 c c' l2 : Thrown ∉ l1 ++ c :: l2 -> c' <> Thrown -> Thrown ∉ l1 ++ c' :: l2.
Proof. rewrite !not_elem_of_app, !not_elem_of_cons. intros (H1 & _ & H2) Hc. auto. Qed.

(** Steps that leave the flags and the set of held pads alone. *)
Lemma quiet_preserves n w w' f l1 c c' l2 :
  pool_ok n (mk_pool w f (l1 ++ c :: l2)) -> held c = None -> held c' = None -> c' <> Thrown ->
  (w + (if inside c then 1 else 0) = w' + (if inside c' then 1 else 0))%nat ->
  pool_ok n (mk_pool w' f (l1 ++ c' :: l2)).
Proof.
  intros [Hc Hl Hu Hd Ht] H1 H2 H3 Hw. cbn [waitPads fPadUsed callers] in *.
  rewrite n_inside_mid in Hc. rewrite holders_mid, H1 in Hd.
  split; cbn [waitPads fPadUsed callers]; rewrite ?n_inside_mid, ?holders_mid, ?H2; [lia|done| |done|by eapply no_throw_mid].
  intros i. rewrite Hu, holders_mid, H1. done.
Qed.

Lemma pick_preserves n w f i l1 l2 :
  pool_ok n (mk_pool w f (l1 ++ Acquired :: l2)) -> pick_pad f 0 = Some i ->
  pool_ok n (mk_pool w (<[i := true]> f) (l1 ++ Running i :: l2)).
Proof.
  intros [Hc Hl Hu Hd Ht] Hp. cbn [waitPads fPadUsed callers] in *. rewrite n_inside_mid in Hc. cbn [inside] in Hc.
  apply pick_pad_some in Hp as [_ Hi]. rewrite Nat.sub_0_r in Hi. pose proof (lookup_lt_Some _ _ _ Hi).
  assert (i ∉ holders (l1 ++ Acquired :: l2)) as Hni by (rewrite <- Hu; rewrite Hi; done).
  rewrite holders_mid in Hd, Hni. cbn [held app] in Hd, Hni.
  assert (holders l1 ++ [i] ++ holders l2 ≡ₚ i :: (holders l1 ++ holders l2)) as Hperm
    by (symmetry; apply Permutation_middle).
  split; cbn [waitPads fPadUsed callers]; rewrite ?n_inside_mid, ?holders_mid; cbn [inside held].
  - lia.
  - by rewrite length_insert.
  - intros j. rewrite Hperm, elem_of_cons. destruct (decide (i = j)) as [<-|Hne].
    + rewrite list_lookup_insert_eq by done. split; [by left|done].
    + rewrite list_lookup_insert_ne, Hu, holders_mid by done. cbn [held app]. split; [by right|intros [E|]; [congruence|done]].
  - rewrite Hperm. by constructor.
  - by eapply no_throw_mid.
Qed.

Lemma done_preserves n w f i l1 l2 :
  pool_ok n (mk_pool w f (l1 ++ Running i :: l2)) ->
  pool_ok n (mk_pool w (<[i := false]> f) (l1 ++ Released :: l2)).
Proof.
  intros [Hc Hl Hu Hd Ht]. cbn [waitPads fPadUsed callers] in *. rewrite n_inside_mid in Hc. cbn [inside] in Hc.
  assert (forall j, f !! j = Some true <-> j = i \/ j ∈ holders l1 ++ holders l2) as Hu'.
  { intros j. rewrite Hu, holders_mid. cbn [held app]. rewrite <- elem_of_cons. by rewrite Permutation_middle. }
  assert (f !! i = Some true) as Hi by (apply Hu'; by left). pose proof (lookup_lt_Some _ _ _ Hi).
  rewrite holders_mid in Hd. cbn [held app] in Hd. rewrite <- Permutation_middle in Hd. inversion Hd as [|? ? Hni Hd']; subst.
  split; cbn [waitPads fPadUsed callers]; rewrite ?n_inside_mid, ?holders_mid; cbn [inside held app].
  - lia.
  - by rewrite length_insert.
  - intros j. destruct (decide (i = j)) as [<-|Hne].
    + rewrite list_lookup_insert_eq by done. by split.
    + rewrite list_lookup_insert_ne, Hu' by done. split; [intros [E|]; [congruence|done]|by right].
  - done.
  - by eapply no_throw_mid.
Qed.

Lemma pool_step_preserves n s s' : pool_ok n s -> step s s' -> pool_ok n s'.
Proof.
  intros Hok Hs. destruct Hs as [l1 c c' l2 w w' f f' Hm].
  destruct Hm as [w f|w f|w f|w f|w f i Hp|w f Hp|w f i|w f];
    try (by eapply quiet_preserves; [exact Hok|..]; cbn [inside]; done || lia).
  - by apply pick_preserves.
  - exfalso. by eapply pick_succeeds.
  - by apply done_preserves.
Qed.

Lemma init_ok n k : pool_ok n (init n k).
Proof.
  assert (n_inside (replicate k Idle) = 0%nat /\ holders (replicate k Idle) = []) as [E1 E2]
    by (induction k as [|k [IH1 IH2]]; [done|]; by split).
  split; cbn [init waitPads fPadUsed callers]; rewrite ?E1, ?E2.
  - lia.
  - apply length_replicate.
  - intros i. split; [|by intros ?%elem_of_nil]. intros [[=] _]%lookup_replicate.
  - constructor.
  - intros [[=] _]%elem_of_replicate.
Qed.

Lemma reachable_ok n k s : reachable n k s -> pool_ok n s.
Proof.
  unfold reachable. intros Hr. assert (forall a b, rtc step a b -> pool_ok n a -> pool_ok n b) as H.
  { induction 1 as [|? ? ? Hs _ IH]; [done|]. intros Ha. apply IH. by eapply pool_step_preserves. }
  apply (H _ _ Hr), init_ok.
Qed.

(** Some caller that is in the function can always go on. *)
Lemma pool_progress n s c :
  pool_ok n s -> (0 < n)%nat -> c ∈ callers s -> c <> Idle ->
  exists c1 l1 l2 c2 w f, c1 <> Idle /\ callers s = l1 ++ c1 :: l2 /\ moves c1 (waitPads s) (fPadUsed s) c2 w f.
Proof.
  intros Hok Hn Hin Hne. destruct s as [w f l]. cbn [waitPads fPadUsed callers] in *.
  assert (forall c1, c1 ∈ l -> inside c1 = true -> exists l1 l2 c2 w' f', l = l1 ++ c1 :: l2 /\ moves c1 w f c2 w' f') as Hins.
  { intros c1 (l1 & l2 & ->)%list_elem_of_split Hi. exists l1, l2.
    destruct c1; try done; [|eexists _, _, _; split; [done|constructor]..].
    destruct (pick_pad f 0) as [i|] eqn:Ep; [eexists _, _, _; split; [done|by constructor]|]. exfalso. by eapply pick_succeeds. }
  assert (inside c = true -> exists c1 l1 l2 c2 w' f', c1 <> Idle /\ l = l1 ++ c1 :: l2 /\ moves c1 w f c2 w' f') as Hc.
  { intros Hi. destruct (Hins c Hin Hi) as (l1 & l2 & c2 & w' & f' & ? & ?). eauto 10. }
  destruct c; [done| |by apply Hc..|exfalso; by apply (ok_no_throw _ _ Hok)].
  destruct w as [|w].
  - pose proof (ok_count _ _ Hok) as Hcnt. cbn [waitPads callers] in Hcnt. unfold n_inside in Hcnt.
    destruct (List.filter inside l) as [|c1 r] eqn:Ef; [simpl in Hcnt; lia|].
    assert (In c1 (List.filter inside l)) as [H1 H2]%filter_In by (rewrite Ef; by left).
    destruct (Hins c1 ltac:(by apply list_elem_of_In) H2) as (l1 & l2 & c2 & w' & f' & ? & ?).
    exists c1, l1, l2, c2, w', f'. split; [by intros ->|done].
  - apply list_elem_of_split in Hin as (l1 & l2 & ->). eexists _, l1, l2, _, _, _. split; [done|]. split; [done|constructor].
Qed.



End Pool.
