(* ===== verification/Script.v ===== *)
(** * Scripts as byte strings (src/src/script.h, end of src/src/script.cpp)

    The opcodes, the functions that append to a script ([operator<<]), the
    instruction decoder [GetOp2], [FindAndDelete], the signature-operation
    counters and the pattern tests.  A [CScript] is its byte vector; an
    iterator into it is the rest of the script from there. *)

From S2P Require Import Prelude Uint256 Bignum Crypto.

Module Script.

(** ** Opcodes ([enum opcodetype]) *)

Definition OP_0 : Z := 0x00.
Definition OP_FALSE : Z := OP_0.
Definition OP_PUSHDATA1 : Z := 0x4c.
Definition OP_PUSHDATA2 : Z := 0x4d.
Definition OP_PUSHDATA4 : Z := 0x4e.
Definition OP_1NEGATE : Z := 0x4f.
Definition OP_RESERVED : Z := 0x50.
Definition OP_1 : Z := 0x51.
Definition OP_TRUE : Z := OP_1.
Definition OP_2 : Z := 0x52.
Definition OP_3 : Z := 0x53.
Definition OP_4 : Z := 0x54.
Definition OP_5 : Z := 0x55.
Definition OP_6 : Z := 0x56.
Definition OP_7 : Z := 0x57.
Definition OP_8 : Z := 0x58.
Definition OP_9 : Z := 0x59.
Definition OP_10 : Z := 0x5a.
Definition OP_11 : Z := 0x5b.
Definition OP_12 : Z := 0x5c.
Definition OP_13 : Z := 0x5d.
Definition OP_14 : Z := 0x5e.
Definition OP_15 : Z := 0x5f.
Definition OP_16 : Z := 0x60.
Definition OP_NOP : Z := 0x61.
Definition OP_VER : Z := 0x62.
Definition OP_IF : Z := 0x63.
Definition OP_NOTIF : Z := 0x64.
Definition OP_VERIF : Z := 0x65.
Definition OP_VERNOTIF : Z := 0x66.
Definition OP_ELSE : Z := 0x67.
Definition OP_ENDIF : Z := 0x68.
Definition OP_VERIFY : Z := 0x69.
Definition OP_RETURN : Z := 0x6a.
Definition OP_TOALTSTACK : Z := 0x6b.
Definition OP_FROMALTSTACK : Z := 0x6c.
Definition OP_2DROP : Z := 0x6d.
Definition OP_2DUP : Z := 0x6e.
Definition OP_3DUP : Z := 0x6f.
Definition OP_2OVER : Z := 0x70.
Definition OP_2ROT : Z := 0x71.
Definition OP_2SWAP : Z := 0x72.
Definition OP_IFDUP : Z := 0x73.
Definition OP_DEPTH : Z := 0x74.
Definition OP_DROP : Z := 0x75.
Definition OP_DUP : Z := 0x76.
Definition OP_NIP : Z := 0x77.
Definition OP_OVER : Z := 0x78.
Definition OP_PICK : Z := 0x79.
Definition OP_ROLL : Z := 0x7a.
Definition OP_ROT : Z := 0x7b.
Definition OP_SWAP : Z := 0x7c.
Definition OP_TUCK : Z := 0x7d.
Definition OP_CAT : Z := 0x7e.
Definition OP_SUBSTR : Z := 0x7f.
Definition OP_LEFT : Z := 0x80.
Definition OP_RIGHT : Z := 0x81.
Definition OP_SIZE : Z := 0x82.
Definition OP_INVERT : Z := 0x83.
Definition OP_AND : Z := 0x84.
Definition OP_OR : Z := 0x85.
Definition OP_XOR : Z := 0x86.
Definition OP_EQUAL : Z := 0x87.
Definition OP_EQUALVERIFY : Z := 0x88.
Definition OP_RESERVED1 : Z := 0x89.
Definition OP_RESERVED2 : Z := 0x8a.
Definition OP_1ADD : Z := 0x8b.
Definition OP_1SUB : Z := 0x8c.
Definition OP_2MUL : Z := 0x8d.
Definition OP_2DIV : Z := 0x8e.
Definition OP_NEGATE : Z := 0x8f.
Definition OP_ABS : Z := 0x90.
Definition OP_NOT : Z := 0x91.
Definition OP_0NOTEQUAL : Z := 0x92.
Definition OP_ADD : Z := 0x93.
Definition OP_SUB : Z := 0x94.
Definition OP_MUL : Z := 0x95.
Definition OP_DIV : Z := 0x96.
Definition OP_MOD : Z := 0x97.
Definition OP_LSHIFT : Z := 0x98.
Definition OP_RSHIFT : Z := 0x99.
Definition OP_BOOLAND : Z := 0x9a.
Definition OP_BOOLOR : Z := 0x9b.
Definition OP_NUMEQUAL : Z := 0x9c.
Definition OP_NUMEQUALVERIFY : Z := 0x9d.
Definition OP_NUMNOTEQUAL : Z := 0x9e.
Definition OP_LESSTHAN : Z := 0x9f.
Definition OP_GREATERTHAN : Z := 0xa0.
Definition OP_LESSTHANOREQUAL : Z := 0xa1.
Definition OP_GREATERTHANOREQUAL : Z := 0xa2.
Definition OP_MIN : Z := 0xa3.
Definition OP_MAX : Z := 0xa4.
Definition OP_WITHIN : Z := 0xa5.
Definition OP_RIPEMD160 : Z := 0xa6.
Definition OP_SHA1 : Z := 0xa7.
Definition OP_SHA256 : Z := 0xa8.
Definition OP_HASH160 : Z := 0xa9.
Definition OP_HASH256 : Z := 0xaa.
Definition OP_CODESEPARATOR : Z := 0xab.
Definition OP_CHECKSIG : Z := 0xac.
Definition OP_CHECKSIGVERIFY : Z := 0xad.
Definition OP_CHECKMULTISIG : Z := 0xae.
Definition OP_CHECKMULTISIGVERIFY : Z := 0xaf.
Definition OP_NOP1 : Z := 0xb0.
Definition OP_NOP2 : Z := 0xb1.
Definition OP_NOP3 : Z := 0xb2.
Definition OP_NOP4 : Z := 0xb3.
Definition OP_NOP5 : Z := 0xb4.
Definition OP_NOP6 : Z := 0xb5.
Definition OP_NOP7 : Z := 0xb6.
Definition OP_NOP8 : Z := 0xb7.
Definition OP_NOP9 : Z := 0xb8.
Definition OP_NOP10 : Z := 0xb9.
Definition OP_SMALLINTEGER : Z := 0xfa.
Definition OP_PUBKEYS : Z := 0xfb.
Definition OP_PUBKEYHASH : Z := 0xfd.
Definition OP_PUBKEY : Z := 0xfe.
Definition OP_INVALIDOPCODE : Z := 0xff.

(** ** Appending to a script *)

(** [operator<<(opcodetype)]: throws on a value that is not a byte. *)
Definition push_opcode (s : list Z) (opcode : Z) : option (list Z) :=
  if (opcode <? 0) || (0xff <? opcode) then None else Some (s ++ [opcode]).

(** [operator<<(const std::vector<unsigned char>&)] *)
Definition push_data (s b : list Z) : list Z :=
  let size := Z.of_nat (length b) in
  if size <? OP_PUSHDATA1 then s ++ [u8 size] ++ b
  else if size <=? 0xff then s ++ [OP_PUSHDATA1; u8 size] ++ b
  else if size <=? 0xffff then s ++ [OP_PUSHDATA2] ++ le_bytes 2 size ++ b
  else s ++ [OP_PUSHDATA4] ++ le_bytes 4 (u32 size) ++ b.

(** [operator<<(const uint160&)], [operator<<(const uint256&)] *)
Definition push_uint (s : list Z) (mem : list Z) : list Z := s ++ [u8 (Z.of_nat (length mem))] ++ mem.

Section push_num.
Context {L : BNLib}.

Definition push_int64 (s : list Z) (n : Z) : list Z :=
  if (n =? -1) || ((1 <=? n) && (n <=? 16)) then s ++ [u8 (n + (OP_1 - 1))]
  else push_data s (BigNum.getvch (BigNum.setint64 n)).

Definition push_uint64 (s : list Z) (n : Z) : list Z :=
  if (1 <=? n) && (n <=? 16) then s ++ [u8 (n + (OP_1 - 1))]
  else push_data s (BigNum.getvch (BigNum.setuint64 n)).

(** [operator<<(const CBigNum&)] *)
Definition push_bignum (s : list Z) (b : Z) : list Z := push_data s (BigNum.getvch b).

End push_num.

(** ** Decoding *)

(** The effect of [GetOp2(pc, opcodeRet, pvchRet)]: the returned bool, the new
    iterator, and the two output parameters. *)
Record op_result := mk_op {
  op_ok : bool;
  op_pc : list Z;
  op_opcode : Z;
  op_vch : list Z
}.

Definition op_fail (pc : list Z) : op_result := mk_op false pc OP_INVALIDOPCODE [].

(** The end of [GetOp2]: an immediate operand of [nSize] bytes. *)
Definition GetOp2_data (opcode nSize : Z) (pc : list Z) : op_result :=
  if Z.of_nat (length pc) <? nSize then op_fail pc
  else mk_op true (drop (Z.to_nat nSize) pc) opcode (take (Z.to_nat nSize) pc).

Definition GetOp2 (pc : list Z) : op_result :=
  match pc with
  | [] => op_fail []
  | opcode :: pc =>
      if opcode <=? OP_PUSHDATA4 then
        if opcode <? OP_PUSHDATA1 then GetOp2_data opcode opcode pc
        else if opcode =? OP_PUSHDATA1 then
          match pc with
          | [] => op_fail pc
          | nSize :: pc => GetOp2_data opcode nSize pc
          end
        else if opcode =? OP_PUSHDATA2 then
          if bool_decide (length pc < 2)%nat then op_fail pc
          else GetOp2_data opcode (le_val (take 2 pc)) (drop 2 pc)
        else
          if bool_decide (length pc < 4)%nat then op_fail pc
          else GetOp2_data opcode (le_val (take 4 pc)) (drop 4 pc)
      else mk_op true pc opcode []
  end.

(** [DecodeOP_N]/[EncodeOP_N]; [None] is a failed assertion. *)
Definition DecodeOP_N (opcode : Z) : option Z :=
  if opcode =? OP_0 then Some 0
  else if (OP_1 <=? opcode) && (opcode <=? OP_16) then Some (opcode - (OP_1 - 1))
  else None.

Definition EncodeOP_N (n : Z) : option Z :=
  if (0 <=? n) && (n <=? 16) then Some (if n =? 0 then OP_0 else OP_1 + n - 1) else None.

(** ** [FindAndDelete] *)

(** The inner [while]: erase copies of [b] at the iterator.  [b] is not empty,
    so [length pc] bounds the number of iterations. *)
Fixpoint erase_here (fuel : nat) (b pc : list Z) : list Z * Z :=
  match fuel with
  | O => (pc, 0)
  | S f =>
      if bool_decide (length b <= length pc)%nat && bool_decide (take (length b) pc = b)
      then let '(pc', n) := erase_here f b (drop (length b) pc) in (pc', n + 1)
      else (pc, 0)
  end.

(** The outer [do ... while (GetOp(pc, opcode))]: every instruction read takes
    at least one byte.  Returns what is left of the script from [pc] on. *)
Fixpoint find_and_delete (fuel : nat) (b pc : list Z) : list Z * Z :=
  match fuel with
  | O => (pc, 0)
  | S f =>
      let '(pc, n) := erase_here (length pc) b pc in
      let r := GetOp2 pc in
      if op_ok r then
        let '(rest, m) := find_and_delete f b (op_pc r) in
        (take (length pc - length (op_pc r)) pc ++ rest, n + m)
      else (pc, n)
  end.

Definition FindAndDelete (s b : list Z) : list Z * Z :=
  match b with
  | [] => (s, 0)
  | _ => find_and_delete (S (length s)) b s
  end.

(** ** Scanning a script instruction by instruction *)

(** [Find(op)] *)
Fixpoint find_loop (fuel : nat) (op : Z) (pc : list Z) : Z :=
  match fuel, pc with
  | S f, _ :: _ =>
      let r := GetOp2 pc in
      if op_ok r then (if op_opcode r =? op then 1 else 0) + find_loop f op (op_pc r) else 0
  | _, _ => 0
  end.

Definition Find (s : list Z) (op : Z) : Z := find_loop (length s) op s.

(** [IsPushOnly()] *)
Fixpoint pushonly_loop (fuel : nat) (pc : list Z) : bool :=
  match pc with
  | [] => true
  | _ =>
      match fuel with
      | O => true
      | S f =>
          let r := GetOp2 pc in
          if negb (op_ok r) then false
          else if OP_16 <? op_opcode r then false
          else pushonly_loop f (op_pc r)
      end
  end.

Definition IsPushOnly (s : list Z) : bool := pushonly_loop (length s) s.

(** [GetSigOpCount(bool fAccurate)]; the counter is an unsigned int. *)
Fixpoint sigop_loop (fuel : nat) (fAccurate : bool) (lastOpcode n : Z) (pc : list Z) : Z :=
  match pc with
  | [] => n
  | _ =>
      match fuel with
      | O => n
      | S f =>
          let r := GetOp2 pc in
          if negb (op_ok r) then n
          else
            let opcode := op_opcode r in
            let n :=
              if (opcode =? OP_CHECKSIG) || (opcode =? OP_CHECKSIGVERIFY) then u32 (n + 1)
              else if (opcode =? OP_CHECKMULTISIG) || (opcode =? OP_CHECKMULTISIGVERIFY) then
                if fAccurate && (OP_1 <=? lastOpcode) && (lastOpcode <=? OP_16)
                then u32 (n + default 0 (DecodeOP_N lastOpcode))
                else u32 (n + 20)
              else n in
            sigop_loop f fAccurate opcode n (op_pc r)
      end
  end.

Definition GetSigOpCount (s : list Z) (fAccurate : bool) : Z :=
  sigop_loop (length s) fAccurate OP_INVALIDOPCODE 0 s.

(** [IsPayToScriptHash()] *)
Definition IsPayToScriptHash (s : list Z) : bool :=
  bool_decide (length s = 23%nat) && (rd s 0 =? OP_HASH160) && (rd s 1 =? 0x14) && (rd s 22 =? OP_EQUAL).

(** The scan of [GetSigOpCount(const CScript& scriptSig)] for the last item
    pushed by [scriptSig]; [None] is [return 0]. *)
Fixpoint last_push (fuel : nat) (data pc : list Z) : option (list Z) :=
  match pc with
  | [] => Some data
  | _ =>
      match fuel with
      | O => Some data
      | S f =>
          let r := GetOp2 pc in
          if negb (op_ok r) then None
          else if OP_16 <? op_opcode r then None
          else last_push f (op_vch r) (op_pc r)
      end
  end.

Definition GetSigOpCount_sig (s scriptSig : list Z) : Z :=
  if negb (IsPayToScriptHash s) then GetSigOpCount s true
  else
    match last_push (length scriptSig) [] scriptSig with
    | None => 0
    | Some subscript => GetSigOpCount subscript true
    end.

(** ** Script templates *)

(** [SetBitcoinAddress], given [address.IsScript()] and the address hash. *)
Definition SetBitcoinAddress (IsScript : bool) (hash160 : list Z) : list Z :=
  if IsScript
  then push_uint [OP_HASH160] hash160 ++ [OP_EQUAL]
  else push_uint [OP_DUP; OP_HASH160] hash160 ++ [OP_EQUALVERIFY; OP_CHECKSIG].

(** [SetMultisig(nRequired, keys)], given the public keys; [None] is a failed
    assertion of [EncodeOP_N]. *)
Definition SetMultisig (nRequired : Z) (pubkeys : list (list Z)) : option (list Z) :=
  match EncodeOP_N nRequired, EncodeOP_N (Z.of_nat (length pubkeys)) with
  | Some m, Some n =>
      Some (fold_left push_data pubkeys [m] ++ [n; OP_CHECKMULTISIG])
  | _, _ => None
  end.

(** [SetPayToScriptHash(subscript)]; [None] is the failed assertion. *)
Definition SetPayToScriptHash {D : DigestLib} (subscript : list Z) : option (list Z) :=
  match subscript with
  | [] => None
  | _ => Some (push_uint [OP_HASH160] (Hash160 subscript) ++ [OP_EQUAL])
  end.

(** ** Lemmas *)

Lemma GetOp2_data_spec opcode nSize p :
  op_ok (GetOp2_data opcode nSize p) = true ->
  op_opcode (GetOp2_data opcode nSize p) = opcode /\
  p = op_vch (GetOp2_data opcode nSize p) ++ op_pc (GetOp2_data opcode nSize p).
Proof. unfold GetOp2_data. case_match; [done|]. intros _. simpl. by rewrite take_drop. Qed.

(** A successful read returns a byte of the script as opcode and takes it, the
    size field and the operand off the script. *)
Lemma GetOp2_consumes p :
  op_ok (GetOp2 p) = true ->
  exists hd, p = op_opcode (GetOp2 p) :: hd ++ op_vch (GetOp2 p) ++ op_pc (GetOp2 p).
Proof.
  unfold GetOp2. destruct p as [|c p]; [done|].
  assert (forall hd q n, p = hd ++ q -> op_ok (GetOp2_data c n q) = true ->
    exists hd, c :: p = op_opcode (GetOp2_data c n q) :: hd ++ op_vch (GetOp2_data c n q) ++ op_pc (GetOp2_data c n q)) as H.
  { intros hd q n -> Hok. destruct (GetOp2_data_spec c n q Hok) as [-> E]. exists hd. by rewrite <- E. }
  repeat case_match; subst; intros Hok; try done.
  - by apply (H []).
  - by eapply (H [_]).
  - eapply (H (take 2 p)); [|done]. by rewrite take_drop.
  - eapply (H (take 4 p)); [|done]. by rewrite take_drop.
  - by exists [].
Qed.

Lemma GetOp2_progress p :
  op_ok (GetOp2 p) = true -> (length (op_pc (GetOp2 p)) < length p)%nat.
Proof.
  intros H. destruct (GetOp2_consumes p H) as [hd E].
  apply (f_equal length) in E. simpl in E. rewrite !length_app in E. lia.
Qed.

Lemma GetOp2_suffix p :
  op_ok (GetOp2 p) = true -> exists k, p = k ++ op_pc (GetOp2 p) /\ k <> [].
Proof.
  intros H. destruct (GetOp2_consumes p H) as [hd E]. exists (op_opcode (GetOp2 p) :: hd ++ op_vch (GetOp2 p)).
  split; [|done]. rewrite E at 1. simpl. by rewrite <- app_assoc.
Qed.

Lemma GetOp2_bytes p :
  Forall is_byte p -> op_ok (GetOp2 p) = true ->
  is_byte (op_opcode (GetOp2 p)) /\ Forall is_byte (op_vch (GetOp2 p)) /\ Forall is_byte (op_pc (GetOp2 p)).
Proof.
  intros Hb H. destruct (GetOp2_consumes p H) as [hd E]. rewrite E in Hb at 1.
  apply Forall_cons in Hb as [Ho Hb]. rewrite !Forall_app in Hb.
  destruct Hb as (_ & Hv & Hpc). done.
Qed.

(** A non-push instruction is one byte without operand. *)
Lemma GetOp2_op opcode rest :
  OP_PUSHDATA4 < opcode -> GetOp2 (opcode :: rest) = mk_op true rest opcode [].
Proof.
  intros H. unfold GetOp2. by rewrite (proj2 (Z.leb_gt _ _)) by done.
Qed.

Lemma GetOp2_vch_nonpush p :
  op_ok (GetOp2 p) = true -> OP_PUSHDATA4 < op_opcode (GetOp2 p) -> op_vch (GetOp2 p) = [].
Proof.
  intros Hok Ho. destruct (GetOp2_consumes p Hok) as [hd E]. rewrite E.
  by rewrite GetOp2_op.
Qed.

(** The instructions of a script. *)
Inductive parses : list Z -> list (Z * list Z) -> Prop :=
| parses_nil : parses [] []
| parses_cons p l :
    op_ok (GetOp2 p) = true -> parses (op_pc (GetOp2 p)) l ->
    parses p ((op_opcode (GetOp2 p), op_vch (GetOp2 p)) :: l).

Lemma parses_step p p' o v l :
  GetOp2 p = mk_op true p' o v -> parses p' l -> parses p ((o, v) :: l).
Proof.
  intros E H. pose proof (parses_cons p l) as C. rewrite E in C. by apply C.
Qed.

Lemma parses_nil_inv l : parses [] l -> l = [].
Proof. inversion 1; subst; [done|]. simpl in *. done. Qed.

Lemma pushonly_loop_spec fuel : forall p,
  (length p <= fuel)%nat ->
  pushonly_loop fuel p = true <-> exists l, parses p l /\ Forall (fun i => i.1 <= OP_16) l.
Proof.
  induction fuel as [|fuel IH]; intros p Hf.
  { destruct p; [|simpl in Hf; lia]. split; [|done]. exists []. split; constructor. }
  destruct p as [|c p]; [split; [|done]; exists []; split; constructor|].
  cbn [pushonly_loop]. set (p' := c :: p) in *.
  destruct (op_ok (GetOp2 p')) eqn:Eok; cbn [negb].
  2:{ split; [done|]. intros (l & Hl & _). inversion Hl; congruence. }
  pose proof (GetOp2_progress p' Eok).
  destruct (Z.ltb_spec OP_16 (op_opcode (GetOp2 p'))).
  { split; [done|]. intros (l & Hl & Hf'). inversion Hl; subst. inversion Hf'; subst. simpl in *. lia. }
  rewrite IH by lia. split.
  - intros (l & Hl & Hf'). eexists. split; [by apply parses_cons|]. by constructor.
  - intros (l & Hl & Hf'). inversion Hl; subst. inversion Hf'; subst. eauto.
Qed.

(** The weight of an instruction after [last]. *)
Definition sigop_weight (fAccurate : bool) (last opcode : Z) : Z :=
  if (opcode =? OP_CHECKSIG) || (opcode =? OP_CHECKSIGVERIFY) then 1
  else if (opcode =? OP_CHECKMULTISIG) || (opcode =? OP_CHECKMULTISIGVERIFY) then
    if fAccurate && (OP_1 <=? last) && (last <=? OP_16) then last - (OP_1 - 1) else 20
  else 0.

Fixpoint sigop_sum (fAccurate : bool) (last : Z) (l : list (Z * list Z)) : Z :=
  match l with
  | [] => 0
  | (opcode, _) :: r => sigop_weight fAccurate last opcode + sigop_sum fAccurate opcode r
  end.

Lemma sigop_loop_spec fAccurate fuel : forall p l last n,
  (length p <= fuel)%nat -> parses p l -> 0 <= n -> n + 20 * Z.of_nat (length l) < 2 ^ 32 ->
  sigop_loop fuel fAccurate last n p = n + sigop_sum fAccurate last l.
Proof.
  induction fuel as [|fuel IH]; intros p l last n Hf Hp Hn Hb.
  { destruct p; [|simpl in Hf; lia]. apply parses_nil_inv in Hp as ->. simpl. lia. }
  inversion Hp as [|p' l' Hok Hp']; subst. { simpl. lia. }
  pose proof (GetOp2_progress p Hok). destruct p as [|c p]; [simpl in *; lia|].
  cbn [sigop_loop]. rewrite Hok. cbn [negb]. cbn [length] in Hb.
  set (o := op_opcode (GetOp2 (c :: p))) in *. cbn [sigop_sum].
  assert ((if (o =? OP_CHECKSIG) || (o =? OP_CHECKSIGVERIFY) then u32 (n + 1)
     else if (o =? OP_CHECKMULTISIG) || (o =? OP_CHECKMULTISIGVERIFY)
     then if fAccurate && (OP_1 <=? last) && (last <=? OP_16)
          then u32 (n + default 0 (DecodeOP_N last)) else u32 (n + 20) else n)
    = n + sigop_weight fAccurate last o /\ 0 <= sigop_weight fAccurate last o <= 20) as [-> Hw].
  { unfold sigop_weight. destruct (_ || _); [rewrite u32_small by lia; lia|].
    destruct (_ || _); [|lia].
    destruct (fAccurate && (OP_1 <=? last) && (last <=? OP_16)) eqn:E; [|rewrite u32_small by lia; lia].
    apply andb_true_iff in E as [E E3]. apply andb_true_iff in E as [E1 E2].
    unfold DecodeOP_N. rewrite E2, E3. bool_to_prop. unfold OP_0, OP_1, OP_16 in *.
    rewrite (proj2 (Z.eqb_neq last 0)) by lia. simpl. rewrite u32_small by lia. lia. }
  rewrite (IH _ l'); [lia|lia|done|lia|lia].
Qed.

(** *** Pushes *)

Lemma push_data_app s b : push_data s b = s ++ push_data [] b.
Proof. unfold push_data. by repeat case_match. Qed.

Lemma GetOp2_data_app opcode nSize b rest :
  nSize = Z.of_nat (length b) -> GetOp2_data opcode nSize (b ++ rest) = mk_op true rest opcode b.
Proof.
  intros ->. unfold GetOp2_data. rewrite length_app.
  rewrite (proj2 (Z.ltb_ge _ _)) by lia. rewrite Nat2Z.id.
  by rewrite take_app_length, drop_app_length.
Qed.

(** The opcode [push_data] uses for a given size. *)
Definition push_opcode_of (size : Z) : Z :=
  if size <? OP_PUSHDATA1 then size
  else if size <=? 0xff then OP_PUSHDATA1
  else if size <=? 0xffff then OP_PUSHDATA2
  else OP_PUSHDATA4.

Lemma GetOp2_push_data b rest :
  Z.of_nat (length b) < 2 ^ 32 ->
  GetOp2 (push_data [] b ++ rest) = mk_op true rest (push_opcode_of (Z.of_nat (length b))) b.
Proof.
  intros Hl. unfold push_data, push_opcode_of. set (n := Z.of_nat (length b)) in *.
  assert (0 <= n) by lia. change OP_PUSHDATA1 with 76 in *.
  destruct (Z.ltb_spec n 76).
  { rewrite u8_small by lia. cbn [app]. unfold GetOp2.
    change OP_PUSHDATA4 with 78. change OP_PUSHDATA1 with 76.
    rewrite (proj2 (Z.leb_le _ _)), (proj2 (Z.ltb_lt _ _)) by lia. by apply GetOp2_data_app. }
  destruct (Z.leb_spec n 0xff).
  { rewrite u8_small by lia. cbn [app]. unfold GetOp2. cbn -[GetOp2_data]. by apply GetOp2_data_app. }
  destruct (Z.leb_spec n 0xffff).
  - cbn [app]. unfold GetOp2. cbn -[GetOp2_data le_val take drop le_bytes].
    rewrite <- app_assoc. rewrite bool_decide_false by (rewrite !length_app, length_le_bytes; lia).
    rewrite take_app_length', drop_app_length' by (by rewrite length_le_bytes).
    rewrite le_val_le_bytes, Z.mod_small by (simpl; lia). by apply GetOp2_data_app.
  - cbn [app]. unfold GetOp2. cbn -[GetOp2_data le_val take drop le_bytes].
    rewrite <- app_assoc. rewrite bool_decide_false by (rewrite !length_app, length_le_bytes; lia).
    rewrite take_app_length', drop_app_length' by (by rewrite length_le_bytes).
    rewrite u32_small, le_val_le_bytes, Z.mod_small by (simpl; lia). by apply GetOp2_data_app.
Qed.

Lemma push_opcode_of_range n : 0 <= n -> 0 <= push_opcode_of n <= OP_PUSHDATA4.
Proof.
  intros H. unfold push_opcode_of, OP_PUSHDATA1, OP_PUSHDATA2, OP_PUSHDATA4.
  repeat case_match; bool_to_prop; lia.
Qed.

(** *** Deletion *)

(** One complete instruction, whatever follows it. *)
Definition is_instr (k : list Z) : Prop :=
  forall r, op_ok (GetOp2 (k ++ r)) = true /\ op_pc (GetOp2 (k ++ r)) = r.

Lemma is_instr_nonempty k : is_instr k -> k <> [].
Proof. intros H ->. destruct (H []) as [H1 _]. done. Qed.

Lemma is_instr_inj k b r r' : is_instr k -> is_instr b -> k ++ r = b ++ r' -> k = b /\ r = r'.
Proof.
  intros Hk Hb E. destruct (Hk r) as [_ E1]. destruct (Hb r') as [_ E2].
  assert (r = r') as -> by congruence. split; [|done]. by apply app_inv_tail in E.
Qed.

Lemma is_instr_push b : Z.of_nat (length b) < 2 ^ 32 -> is_instr (push_data [] b).
Proof. intros H r. by rewrite GetOp2_push_data. Qed.

Lemma is_instr_op opcode : OP_PUSHDATA4 < opcode -> is_instr [opcode].
Proof. intros H r. cbn [app]. by rewrite GetOp2_op. Qed.

Lemma GetOp2_data_local c n hd q :
  op_ok (GetOp2_data c n q) = true -> 0 <= n ->
  (forall q', GetOp2 (c :: hd ++ q') = GetOp2_data c n q') ->
  is_instr (c :: hd ++ take (Z.to_nat n) q) /\ op_pc (GetOp2_data c n q) = drop (Z.to_nat n) q.
Proof.
  unfold GetOp2_data at 1 3. intros Hok Hn H. case_match eqn:E; [done|]. bool_to_prop.
  split; [|done]. intros r. cbn [app]. rewrite <- app_assoc, H.
  rewrite GetOp2_data_app; [done|]. rewrite length_take. lia.
Qed.

(** The bytes an instruction takes are an instruction. *)
Lemma GetOp2_instr p :
  Forall is_byte p -> op_ok (GetOp2 p) = true ->
  exists k, is_instr k /\ p = k ++ op_pc (GetOp2 p).
Proof.
  intros Hb Hok. destruct p as [|c p]; [done|]. inversion_clear Hb as [|? ? Hc Hp].
  assert (forall hd q n, p = hd ++ q -> 0 <= n -> GetOp2 (c :: p) = GetOp2_data c n q ->
    (forall q', GetOp2 (c :: hd ++ q') = GetOp2_data c n q') ->
    exists k, is_instr k /\ c :: p = k ++ op_pc (GetOp2 (c :: p))) as H.
  { intros hd q n -> Hn E Hl. rewrite E in *.
    destruct (GetOp2_data_local c n hd q Hok Hn Hl) as [Hi ->].
    eexists. split; [done|]. cbn [app]. by rewrite <- app_assoc, take_drop. }
  unfold is_byte in Hc. unfold OP_PUSHDATA1, OP_PUSHDATA2, OP_PUSHDATA4 in *.
  destruct (Z.leb_spec c OP_PUSHDATA4) as [H4|H4].
  2:{ exists [c]. split; [by apply is_instr_op|]. by rewrite GetOp2_op. }
  assert (GetOp2 (c :: p) = GetOp2 (c :: p)) as E by done. unfold GetOp2 in E at 2.
  rewrite (proj2 (Z.leb_le _ _)) in E by done.
  destruct (Z.ltb_spec c OP_PUSHDATA1) as [H1|H1].
  { apply (H [] p c); [done|lia|done|]. intros q'. cbn [app]. unfold GetOp2.
    by rewrite (proj2 (Z.leb_le _ _)), (proj2 (Z.ltb_lt _ _)) by done. }
  destruct (Z.eqb_spec c OP_PUSHDATA1) as [E1|E1].
  { subst c. destruct p as [|n p]; [by rewrite E in Hok|]. inversion_clear Hp as [|? ? Hn _].
    unfold is_byte in Hn. by apply (H [n] p n); [|lia| |]. }
  destruct (Z.eqb_spec c OP_PUSHDATA2) as [E2|E2].
  { subst c. case_bool_decide as Hl; [by rewrite E in Hok|].
    assert (length (take 2 p) = 2%nat) as Ht by (rewrite length_take; lia).
    apply (H (take 2 p) (drop 2 p) (le_val (take 2 p))); [by rewrite take_drop| |done|].
    - apply le_val_range. by apply Forall_take.
    - intros q'. unfold GetOp2. cbn -[GetOp2_data le_val take drop].
      rewrite bool_decide_false by (rewrite length_app; lia).
      by rewrite take_app_length', drop_app_length' by done. }
  assert (c = OP_PUSHDATA4) as -> by (unfold OP_PUSHDATA1, OP_PUSHDATA2, OP_PUSHDATA4 in *; lia).
  case_bool_decide as Hl; [by rewrite E in Hok|].
  assert (length (take 4 p) = 4%nat) as Ht by (rewrite length_take; lia).
  apply (H (take 4 p) (drop 4 p) (le_val (take 4 p))); [by rewrite take_drop| |done|].
  - apply le_val_range. by apply Forall_take.
  - intros q'. unfold GetOp2. cbn -[GetOp2_data le_val take drop].
    rewrite bool_decide_false by (rewrite length_app; lia).
    by rewrite take_app_length', drop_app_length' by done.
Qed.

(** A script cut into instructions, with what is left when one cannot be read. *)
Inductive chunked : list Z -> list (list Z) -> list Z -> Prop :=
| chunked_end t : op_ok (GetOp2 t) = false -> chunked t [] t
| chunked_cons k r cs t : is_instr k -> chunked r cs t -> chunked (k ++ r) (k :: cs) t.

Lemma chunked_exists s : Forall is_byte s -> exists cs t, chunked s cs t.
Proof.
  remember (length s) as n eqn:En. revert s En.
  induction n as [n IH] using (well_founded_induction lt_wf). intros s -> Hb.
  destruct (op_ok (GetOp2 s)) eqn:Eok; [|exists [], s; by constructor].
  pose proof (GetOp2_progress s Eok). destruct (GetOp2_bytes s Hb Eok) as (_ & _ & Hb').
  destruct (GetOp2_instr s Hb Eok) as (k & Hk & Es).
  destruct (IH (length (op_pc (GetOp2 s))) ltac:(lia) (op_pc (GetOp2 s)) eq_refl Hb') as (cs & t & Hcs).
  exists (k :: cs), t. rewrite Es. by constructor.
Qed.

Definition count_chunks (b : list Z) (cs : list (list Z)) : Z :=
  Z.of_nat (length (filter (fun k => k = b) cs)).
Definition drop_chunks (b : list Z) (cs : list (list Z)) : list Z :=
  concat (filter (fun k => k <> b) cs).

(** The inner loop takes the copies of [b] at the front. *)
Lemma erase_here_spec b fuel : forall s cs t,
  is_instr b -> chunked s cs t -> (length s <= fuel)%nat ->
  exists s' cs' n, erase_here fuel b s = (s', n) /\ chunked s' cs' t /\ (length s' <= length s)%nat /\ (forall r, s' <> b ++ r) /\
    count_chunks b cs = n + count_chunks b cs' /\ drop_chunks b cs = drop_chunks b cs'.
Proof.
  induction fuel as [|fuel IH]; intros s cs t Hb Hs Hf;
    pose proof (is_instr_nonempty b Hb) as Hne.
  { destruct s; [|simpl in Hf; lia]. exists [], cs, 0. split; [done|]. split; [done|]. split; [done|].
    split; [|split; [lia|done]]. intros r E. destruct b; done. }
  cbn [erase_here].
  destruct (bool_decide (length b <= length s)%nat && bool_decide (take (length b) s = b)) eqn:E.
  - apply andb_true_iff in E as [E1%bool_decide_eq_true E2%bool_decide_eq_true].
    assert (s = b ++ drop (length b) s) as Es by (rewrite <- E2 at 1; by rewrite take_drop).
    inversion Hs as [t' Ht|k r cs' t' Hk Hr]; subst.
    { rewrite Es in Ht. destruct (Hb (drop (length b) t)) as [Ht' _]. congruence. }
    destruct (is_instr_inj k b r (drop (length b) (k ++ r))) as [-> Er]; [done..|].
    rewrite <- Er. rewrite length_app in Hf. assert (0 < length b)%nat by (destruct b; simpl; [done|lia]).
    destruct (IH r cs' t Hb Hr ltac:(lia)) as (s' & cs'' & n & -> & Hc & Hl & Hn & Hcnt & Hd).
    exists s', cs'', (n + 1). split; [done|]. split; [done|]. split; [rewrite length_app; lia|]. split; [done|].
    unfold count_chunks, drop_chunks in *. rewrite !filter_cons_True, filter_cons_False by (done || auto).
    cbn [length]. split; [lia|done].
  - exists s, cs, 0. split; [done|]. split; [done|]. split; [done|]. split; [|split; [lia|done]].
    intros r ->. rewrite length_app, take_app_length, !bool_decide_true in E by (done || lia). done.
Qed.

Lemma find_and_delete_spec b fuel : forall s cs t,
  is_instr b -> chunked s cs t -> (length s < fuel)%nat ->
  find_and_delete fuel b s = (drop_chunks b cs ++ t, count_chunks b cs).
Proof.
  induction fuel as [|fuel IH]; intros s cs t Hb Hs Hf; [lia|]. cbn [find_and_delete].
  destruct (erase_here_spec b (length s) s cs t Hb Hs) as (s' & cs' & n & -> & Hc & Hl & Hn & Hcnt & Hd); [lia|].
  rewrite Hcnt, Hd. inversion Hc as [t' Ht|k r cs'' t' Hk Hr]; subst.
  - rewrite Ht. unfold drop_chunks, count_chunks. simpl. f_equal. lia.
  - destruct (Hk r) as [Hok Hpc]. rewrite Hok, Hpc.
    assert (k <> b) as Hkb by (intros ->; by apply (Hn r)).
    pose proof (is_instr_nonempty k Hk). rewrite length_app in *.
    assert (0 < length k)%nat by (destruct k; simpl; [done|lia]).
    rewrite (IH r cs'' t) by (done || lia).
    replace (length k + length r - length r)%nat with (length k) by lia.
    rewrite take_app_length. unfold drop_chunks, count_chunks.
    rewrite filter_cons_True, (filter_cons_False (fun k => k = b)) by done.
    cbn [concat]. by rewrite app_assoc.
Qed.

(** ** Properties *)

(** Pushing data and reading it back: for every byte string below 4 GiB,
    the instruction that [operator<<] appends is decoded by [GetOp] to exactly
    that string, with a push opcode, leaving the rest of the script; the four
    size encodings never overlap. *)
Theorem push_then_GetOp s b rest :
  Z.of_nat (length b) < 2 ^ 32 ->
  exists opcode, push_data s b = s ++ push_data [] b /\
    GetOp2 (push_data [] b ++ rest) = mk_op true rest opcode b /\ 0 <= opcode <= OP_PUSHDATA4.
Proof.
  intros Hl. exists (push_opcode_of (Z.of_nat (length b))). split; [apply push_data_app|].
  split; [by apply GetOp2_push_data|]. apply push_opcode_of_range. lia.
Qed.

Lemma push_then_GetOp_witness :
  exists opcode, push_data [OP_DUP] (replicate 80 7) = [OP_DUP] ++ push_data [] (replicate 80 7) /\
    GetOp2 (push_data [] (replicate 80 7) ++ [OP_DROP]) = mk_op true [OP_DROP] opcode (replicate 80 7) /\
    0 <= opcode <= OP_PUSHDATA4.
Proof. apply (push_then_GetOp [OP_DUP] (replicate 80 7) [OP_DROP]). vm_compute. reflexivity. Defined.

(** [FindAndDelete] with a complete instruction (as in both of its uses: a
    pushed signature and OP_CODESEPARATOR) deletes exactly the instructions of
    the script equal to it, keeps every other instruction and any undecodable
    tail in order, and returns how many it deleted; bytes that merely look
    like the instruction inside an operand are not touched. *)
Theorem FindAndDelete_instructions s b :
  Forall is_byte s -> is_instr b ->
  exists cs t, chunked s cs t /\
    FindAndDelete s b = (concat (filter (fun k => k <> b) cs) ++ t,
                         Z.of_nat (length (filter (fun k => k = b) cs))).
Proof.
  intros Hs Hb. destruct (chunked_exists s Hs) as (cs & t & Hc). exists cs, t. split; [done|].
  unfold FindAndDelete. pose proof (is_instr_nonempty b Hb). destruct b as [|x b]; [done|].
  rewrite (find_and_delete_spec _ _ s cs t) by (done || lia). done.
Qed.

Lemma FindAndDelete_instructions_witness :
  FindAndDelete [OP_CODESEPARATOR; 1; OP_CODESEPARATOR; OP_DUP] [OP_CODESEPARATOR] =
    ([1; OP_CODESEPARATOR; OP_DUP], 1) /\
  exists cs t, chunked [OP_CODESEPARATOR; 1; OP_CODESEPARATOR; OP_DUP] cs t.
Proof.
  split; [reflexivity|].
  destruct (FindAndDelete_instructions [OP_CODESEPARATOR; 1; OP_CODESEPARATOR; OP_DUP] [OP_CODESEPARATOR])
    as (cs & t & H & _); [repeat constructor; done|apply is_instr_op; done|].
  exists cs, t. exact H.
Defined.

(** The scanners agree with the instruction list of a script: [IsPushOnly]
    holds exactly when the script decodes completely into instructions at most
    OP_16, and [GetSigOpCount] of a script that decodes is the sum of the
    weights of its instructions (1 for a check of one signature; for a
    multi-signature check the number just before it when counting accurately,
    20 otherwise), without wrap-around for any script below 200 MB. *)
Theorem scanners_follow_instructions s l fAccurate :
  parses s l -> 20 * Z.of_nat (length s) < 2 ^ 32 ->
  GetSigOpCount s fAccurate = sigop_sum fAccurate OP_INVALIDOPCODE l /\
  (IsPushOnly s = true <-> exists l, parses s l /\ Forall (fun i => i.1 <= OP_16) l).
Proof.
  intros Hp Hl. split; [|by apply pushonly_loop_spec].
  unfold GetSigOpCount. rewrite (sigop_loop_spec _ _ _ l); try done.
  assert (length l <= length s)%nat; [|lia].
  clear Hl. induction Hp as [|p l Hok Hp IH]; [done|].
  pose proof (GetOp2_progress p Hok). simpl. lia.
Qed.

Lemma scanners_follow_instructions_witness :
  GetSigOpCount [OP_2; OP_CHECKMULTISIG; OP_CHECKSIG] true = 3.
Proof.
  destruct (scanners_follow_instructions [OP_2; OP_CHECKMULTISIG; OP_CHECKSIG]
    [(OP_2, []); (OP_CHECKMULTISIG, []); (OP_CHECKSIG, [])] true) as [E _];
    [repeat (eapply parses_step; [reflexivity|]); apply parses_nil|reflexivity|].
  rewrite E. reflexivity.
Defined.

End Script.
