(* ===== verification/Interpreter.v ===== *)
(** * The script interpreter (EvalScript of src/src/script.cpp)

    The state of [EvalScript] is a record; a [vector] used as a stack is the
    list from [back()] to [front()], so [stacktop(-1)] is the head.  An
    iterator is the rest of the script.  One instruction is a function
    [state -> option state]; [None] is [return false], which is also what the
    [catch (...)] around the loop turns every exception into.  The signature
    check is a parameter (see Signature.v), OpenSSL's bignums and digests come
    through their classes. *)

From S2P Require Import Prelude Uint256 Bignum Crypto Script.
Import Script.

Module Interp.

Definition valtype := list Z.

Definition vchFalse : valtype := [].
Definition vchZero : valtype := [].
Definition vchTrue : valtype := [1].
Definition nMaxNumSize : nat := 4.

Record state := mk_state {
  stack : list valtype;
  altstack : list valtype;
  vfExec : list bool;
  nOpCount : Z;
  pc : list Z;
  pbegincodehash : list Z
}.

Definition set_stack (s : state) (st : list valtype) : state :=
  mk_state st (altstack s) (vfExec s) (nOpCount s) (pc s) (pbegincodehash s).

(** [CastToBool] *)
Fixpoint CastToBool (vch : valtype) : bool :=
  match vch with
  | [] => false
  | b :: rest =>
      if negb (b =? 0) then negb (bool_decide (rest = []) && (b =? 0x80))
      else CastToBool rest
  end.

(** [stacktop(-i)]: [stack.at] throws when out of range. *)
Definition stacktop (st : list valtype) (i : nat) : option valtype :=
  match i with O => None | S k => st !! k end.

(** [popstack]: throws on an empty stack. *)
Definition popstack (st : list valtype) : option (list valtype) :=
  match st with [] => None | _ :: st' => Some st' end.

(** [while (n-- > 0) popstack(stack);] *)
Fixpoint popn (n : nat) (st : list valtype) : option (list valtype) :=
  match n with
  | O => Some st
  | S m => popstack st ≫= popn m
  end.

Section interp.
Context {L : BNLib} {D : DigestLib}.

(** [CheckSig(vchSig, vchPubKey, scriptCode, txTo, nIn, nHashType)] for the
    transaction being checked. *)
Context (CheckSig : valtype -> valtype -> list Z -> bool).

(** [CastToBigNum]: throws on more than four bytes. *)
Definition CastToBigNum (vch : valtype) : option Z :=
  if bool_decide (nMaxNumSize < length vch)%nat then None
  else Some (BigNum.setvch (BigNum.getvch (BigNum.setvch vch))).

(** A C++ [bool] assigned to a [CBigNum]. *)
Definition bn_of_bool (b : bool) : Z := BigNum.CBigNum_int (if b then 1 else 0).

Definition bool_vch (b : bool) : valtype := if b then vchTrue else vchFalse.

(** The opcodes rejected wherever they appear. *)
Definition disabled (opcode : Z) : bool :=
  existsb (Z.eqb opcode)
    [OP_CAT; OP_SUBSTR; OP_LEFT; OP_RIGHT; OP_INVERT; OP_AND; OP_OR; OP_XOR; OP_2MUL; OP_2DIV;
     OP_MUL; OP_DIV; OP_MOD; OP_LSHIFT; OP_RSHIFT].

(** *** Control *)

Definition op_if (opcode : Z) (fExec : bool) (s : state) : option state :=
  if fExec then
    vch ← stacktop (stack s) 1;
    let fValue := CastToBool vch in
    let fValue := if opcode =? OP_NOTIF then negb fValue else fValue in
    st ← popstack (stack s);
    Some (mk_state st (altstack s) (fValue :: vfExec s) (nOpCount s) (pc s) (pbegincodehash s))
  else Some (mk_state (stack s) (altstack s) (false :: vfExec s) (nOpCount s) (pc s) (pbegincodehash s)).

Definition op_else (s : state) : option state :=
  match vfExec s with
  | [] => None
  | b :: r => Some (mk_state (stack s) (altstack s) (negb b :: r) (nOpCount s) (pc s) (pbegincodehash s))
  end.

Definition op_endif (s : state) : option state :=
  match vfExec s with
  | [] => None
  | _ :: r => Some (mk_state (stack s) (altstack s) r (nOpCount s) (pc s) (pbegincodehash s))
  end.

Definition op_verify (s : state) : option state :=
  vch ← stacktop (stack s) 1;
  if CastToBool vch then st ← popstack (stack s); Some (set_stack s st) else None.

(** *** Stack operations: the top of the stack is the head of the list *)

Definition op_toaltstack (s : state) : option state :=
  match stack s with
  | x :: st => Some (mk_state st (x :: altstack s) (vfExec s) (nOpCount s) (pc s) (pbegincodehash s))
  | [] => None
  end.

Definition op_fromaltstack (s : state) : option state :=
  match altstack s with
  | x :: alt => Some (mk_state (x :: stack s) alt (vfExec s) (nOpCount s) (pc s) (pbegincodehash s))
  | [] => None
  end.

Definition stack_shuffle (opcode : Z) (st : list valtype) : option (list valtype) :=
  if opcode =? OP_2DROP then
    match st with _ :: _ :: r => Some r | _ => None end
  else if opcode =? OP_2DUP then
    match st with x2 :: x1 :: r => Some (x2 :: x1 :: st) | _ => None end
  else if opcode =? OP_3DUP then
    match st with x3 :: x2 :: x1 :: r => Some (x3 :: x2 :: x1 :: st) | _ => None end
  else if opcode =? OP_2OVER then
    match st with x4 :: x3 :: x2 :: x1 :: r => Some (x2 :: x1 :: st) | _ => None end
  else if opcode =? OP_2ROT then
    match st with
    | x6 :: x5 :: x4 :: x3 :: x2 :: x1 :: r => Some (x2 :: x1 :: x6 :: x5 :: x4 :: x3 :: r)
    | _ => None
    end
  else if opcode =? OP_2SWAP then
    match st with x4 :: x3 :: x2 :: x1 :: r => Some (x2 :: x1 :: x4 :: x3 :: r) | _ => None end
  else if opcode =? OP_IFDUP then
    match st with x :: r => Some (if CastToBool x then x :: st else st) | _ => None end
  else if opcode =? OP_DEPTH then
    Some (BigNum.getvch (BigNum.setulong (Z.of_nat (length st))) :: st)
  else if opcode =? OP_DROP then
    match st with _ :: r => Some r | _ => None end
  else if opcode =? OP_DUP then
    match st with x :: r => Some (x :: st) | _ => None end
  else if opcode =? OP_NIP then
    match st with x2 :: x1 :: r => Some (x2 :: r) | _ => None end
  else if opcode =? OP_OVER then
    match st with x2 :: x1 :: r => Some (x1 :: st) | _ => None end
  else if opcode =? OP_ROT then
    match st with x3 :: x2 :: x1 :: r => Some (x1 :: x3 :: x2 :: r) | _ => None end
  else if opcode =? OP_SWAP then
    match st with x2 :: x1 :: r => Some (x1 :: x2 :: r) | _ => None end
  else if opcode =? OP_TUCK then
    match st with x2 :: x1 :: r => Some (x2 :: x1 :: x2 :: r) | _ => None end
  else None.

Definition is_shuffle (opcode : Z) : bool :=
  existsb (Z.eqb opcode)
    [OP_2DROP; OP_2DUP; OP_3DUP; OP_2OVER; OP_2ROT; OP_2SWAP; OP_IFDUP; OP_DEPTH; OP_DROP; OP_DUP;
     OP_NIP; OP_OVER; OP_ROT; OP_SWAP; OP_TUCK].

Definition op_pick_roll (opcode : Z) (st : list valtype) : option (list valtype) :=
  match st with
  | x :: (_ :: _) as st' =>
      bn ← CastToBigNum x;
      let n := BigNum.getint bn in
      if (n <? 0) || (i32 (Z.of_nat (length st')) <=? n) then None
      else
        vch ← st' !! Z.to_nat n;
        Some (vch :: if opcode =? OP_ROLL then delete (Z.to_nat n) st' else st')
  | _ => None
  end.

Definition op_size (st : list valtype) : option (list valtype) :=
  match st with
  | x :: r => Some (BigNum.getvch (BigNum.setulong (Z.of_nat (length x))) :: st)
  | [] => None
  end.

Definition op_equal (opcode : Z) (st : list valtype) : option (list valtype) :=
  match st with
  | x2 :: x1 :: r =>
      let fEqual := bool_decide (x1 = x2) in
      if opcode =? OP_EQUALVERIFY then if fEqual then Some r else None
      else Some (bool_vch fEqual :: r)
  | _ => None
  end.

(** *** Numeric operations *)

Definition unary_num (opcode : Z) (bn : Z) : Z :=
  if opcode =? OP_1ADD then BigNum.op_plus bn (BigNum.CBigNum_int 1)
  else if opcode =? OP_1SUB then BigNum.op_minus bn (BigNum.CBigNum_int 1)
  else if opcode =? OP_NEGATE then BigNum.op_uminus bn
  else if opcode =? OP_ABS then
    if BigNum.op_ltb bn (BigNum.CBigNum_int 0) then BigNum.op_uminus bn else bn
  else if opcode =? OP_NOT then bn_of_bool (BigNum.op_eqb bn (BigNum.CBigNum_int 0))
  else bn_of_bool (BigNum.op_neb bn (BigNum.CBigNum_int 0)).

Definition is_unary (opcode : Z) : bool :=
  existsb (Z.eqb opcode) [OP_1ADD; OP_1SUB; OP_NEGATE; OP_ABS; OP_NOT; OP_0NOTEQUAL].

Definition op_unary (opcode : Z) (st : list valtype) : option (list valtype) :=
  match st with
  | x :: r => bn ← CastToBigNum x; Some (BigNum.getvch (unary_num opcode bn) :: r)
  | [] => None
  end.

Definition binary_num (opcode : Z) (bn1 bn2 : Z) : Z :=
  let bnZero := BigNum.CBigNum_int 0 in
  if opcode =? OP_ADD then BigNum.op_plus bn1 bn2
  else if opcode =? OP_SUB then BigNum.op_minus bn1 bn2
  else if opcode =? OP_BOOLAND then
    bn_of_bool (BigNum.op_neb bn1 bnZero && BigNum.op_neb bn2 bnZero)
  else if opcode =? OP_BOOLOR then
    bn_of_bool (BigNum.op_neb bn1 bnZero || BigNum.op_neb bn2 bnZero)
  else if opcode =? OP_NUMEQUAL then bn_of_bool (BigNum.op_eqb bn1 bn2)
  else if opcode =? OP_NUMEQUALVERIFY then bn_of_bool (BigNum.op_eqb bn1 bn2)
  else if opcode =? OP_NUMNOTEQUAL then bn_of_bool (BigNum.op_neb bn1 bn2)
  else if opcode =? OP_LESSTHAN then bn_of_bool (BigNum.op_ltb bn1 bn2)
  else if opcode =? OP_GREATERTHAN then bn_of_bool (BigNum.op_gtb bn1 bn2)
  else if opcode =? OP_LESSTHANOREQUAL then bn_of_bool (BigNum.op_leb bn1 bn2)
  else if opcode =? OP_GREATERTHANOREQUAL then bn_of_bool (BigNum.op_geb bn1 bn2)
  else if opcode =? OP_MIN then if BigNum.op_ltb bn1 bn2 then bn1 else bn2
  else if BigNum.op_gtb bn1 bn2 then bn1 else bn2.

Definition is_binary (opcode : Z) : bool :=
  existsb (Z.eqb opcode)
    [OP_ADD; OP_SUB; OP_BOOLAND; OP_BOOLOR; OP_NUMEQUAL; OP_NUMEQUALVERIFY; OP_NUMNOTEQUAL;
     OP_LESSTHAN; OP_GREATERTHAN; OP_LESSTHANOREQUAL; OP_GREATERTHANOREQUAL; OP_MIN; OP_MAX].

Definition op_binary (opcode : Z) (st : list valtype) : option (list valtype) :=
  match st with
  | x2 :: x1 :: r =>
      bn1 ← CastToBigNum x1;
      bn2 ← CastToBigNum x2;
      let vch := BigNum.getvch (binary_num opcode bn1 bn2) in
      if opcode =? OP_NUMEQUALVERIFY then if CastToBool vch then Some r else None
      else Some (vch :: r)
  | _ => None
  end.

Definition op_within (st : list valtype) : option (list valtype) :=
  match st with
  | x3 :: x2 :: x1 :: r =>
      bn1 ← CastToBigNum x1;
      bn2 ← CastToBigNum x2;
      bn3 ← CastToBigNum x3;
      Some (bool_vch (BigNum.op_leb bn2 bn1 && BigNum.op_ltb bn1 bn3) :: r)
  | _ => None
  end.

(** *** Crypto *)

Definition op_hash (opcode : Z) (st : list valtype) : option (list valtype) :=
  match st with
  | vch :: r =>
      let vchHash :=
        if opcode =? OP_RIPEMD160 then RIPEMD160 vch
        else if opcode =? OP_SHA1 then SHA1 vch
        else if opcode =? OP_SHA256 then SHA256 vch
        else if opcode =? OP_HASH160 then Hash160 vch
        else Hash vch in
      Some (vchHash :: r)
  | [] => None
  end.

Definition is_hash (opcode : Z) : bool :=
  existsb (Z.eqb opcode) [OP_RIPEMD160; OP_SHA1; OP_SHA256; OP_HASH160; OP_HASH256].

Definition op_checksig (opcode : Z) (pbegincodehash : list Z) (st : list valtype) : option (list valtype) :=
  match st with
  | vchPubKey :: vchSig :: r =>
      let scriptCode := (FindAndDelete pbegincodehash (push_data [] vchSig)).1 in
      let fSuccess := CheckSig vchSig vchPubKey scriptCode in
      if opcode =? OP_CHECKSIGVERIFY then if fSuccess then Some r else None
      else Some (bool_vch fSuccess :: r)
  | _ => None
  end.

(** The signature loop of OP_CHECKMULTISIG: [sigs] and [keys] from [isig] and
    [ikey] on; it stops when the signatures are used up or outnumber the keys. *)
Fixpoint multisig_loop (scriptCode : list Z) (sigs keys : list valtype) : bool :=
  match sigs, keys with
  | [], _ => true
  | _ :: _, [] => false
  | vchSig :: sigs', vchPubKey :: keys' =>
      let sigs'' := if CheckSig vchSig vchPubKey scriptCode then sigs' else sigs in
      if bool_decide (length keys' < length sigs'')%nat then false
      else multisig_loop scriptCode sigs'' keys'
  end.

Definition op_checkmultisig (opcode : Z) (s : state) : option state :=
  let st := stack s in
  top ← stacktop st 1;
  bn ← CastToBigNum top;
  let nKeysCount := BigNum.getint bn in
  if (nKeysCount <? 0) || (20 <? nKeysCount) then None
  else
    let nOp := nOpCount s + nKeysCount in
    if 201 <? nOp then None
    else
      let nKeys := Z.to_nat nKeysCount in
      if bool_decide (length st < 2 + nKeys)%nat then None
      else
        vchM ← stacktop st (2 + nKeys);
        bnM ← CastToBigNum vchM;
        let nSigsCount := BigNum.getint bnM in
        if (nSigsCount <? 0) || (nKeysCount <? nSigsCount) then None
        else
          let nSigs := Z.to_nat nSigsCount in
          if bool_decide (length st < 3 + nKeys + nSigs)%nat then None
          else
            let keys := take nKeys (drop 1 st) in
            let sigs := take nSigs (drop (2 + nKeys) st) in
            let scriptCode :=
              fold_left (fun sc vchSig => (FindAndDelete sc (push_data [] vchSig)).1) sigs
                (pbegincodehash s) in
            let fSuccess := multisig_loop scriptCode sigs keys in
            st' ← popn (3 + nKeys + nSigs) st;
            let s' := mk_state st' (altstack s) (vfExec s) nOp (pc s) (pbegincodehash s) in
            if opcode =? OP_CHECKMULTISIGVERIFY then if fSuccess then Some s' else None
            else Some (set_stack s' (bool_vch fSuccess :: st')).

(** *** The switch *)

Definition is_nop (opcode : Z) : bool :=
  (opcode =? OP_NOP) || ((OP_NOP1 <=? opcode) && (opcode <=? OP_NOP10)).

Definition lift_stack (f : list valtype -> option (list valtype)) (s : state) : option state :=
  set_stack s <$> f (stack s).

Definition switch (opcode : Z) (fExec : bool) (s : state) : option state :=
  if (opcode =? OP_1NEGATE) || ((OP_1 <=? opcode) && (opcode <=? OP_16)) then
    Some (set_stack s (BigNum.getvch (BigNum.CBigNum_int (opcode - (OP_1 - 1))) :: stack s))
  else if is_nop opcode then Some s
  else if (opcode =? OP_IF) || (opcode =? OP_NOTIF) then op_if opcode fExec s
  else if opcode =? OP_ELSE then op_else s
  else if opcode =? OP_ENDIF then op_endif s
  else if opcode =? OP_VERIFY then op_verify s
  else if opcode =? OP_RETURN then None
  else if opcode =? OP_TOALTSTACK then op_toaltstack s
  else if opcode =? OP_FROMALTSTACK then op_fromaltstack s
  else if is_shuffle opcode then lift_stack (stack_shuffle opcode) s
  else if (opcode =? OP_PICK) || (opcode =? OP_ROLL) then lift_stack (op_pick_roll opcode) s
  else if opcode =? OP_SIZE then lift_stack op_size s
  else if (opcode =? OP_EQUAL) || (opcode =? OP_EQUALVERIFY) then lift_stack (op_equal opcode) s
  else if is_unary opcode then lift_stack (op_unary opcode) s
  else if is_binary opcode then lift_stack (op_binary opcode) s
  else if opcode =? OP_WITHIN then lift_stack op_within s
  else if is_hash opcode then lift_stack (op_hash opcode) s
  else if opcode =? OP_CODESEPARATOR then
    Some (mk_state (stack s) (altstack s) (vfExec s) (nOpCount s) (pc s) (pc s))
  else if (opcode =? OP_CHECKSIG) || (opcode =? OP_CHECKSIGVERIFY) then
    lift_stack (op_checksig opcode (pbegincodehash s)) s
  else if (opcode =? OP_CHECKMULTISIG) || (opcode =? OP_CHECKMULTISIGVERIFY) then
    op_checkmultisig opcode s
  else None.

(** One iteration of [while (pc < pend)]. *)
Definition step (s : state) : option state :=
  let fExec := forallb id (vfExec s) in
  let r := GetOp2 (pc s) in
  if negb (op_ok r) then None
  else if 520 <? Z.of_nat (length (op_vch r)) then None
  else
    let opcode := op_opcode r in
    let n := if OP_16 <? opcode then nOpCount s + 1 else nOpCount s in
    if (OP_16 <? opcode) && (201 <? n) then None
    else if disabled opcode then None
    else
      let s := mk_state (stack s) (altstack s) (vfExec s) n (op_pc r) (pbegincodehash s) in
      s' ← (if fExec && (0 <=? opcode) && (opcode <=? OP_PUSHDATA4)
            then Some (set_stack s (op_vch r :: stack s))
            else if fExec || ((OP_IF <=? opcode) && (opcode <=? OP_ENDIF))
            then switch opcode fExec s
            else Some s);
      if 1000 <? Z.of_nat (length (stack s') + length (altstack s')) then None else Some s'.

(** The loop.  [None]: out of fuel; [Some None]: [return false].  Every
    iteration reads at least one byte, so the length of the script is fuel
    enough. *)
Fixpoint run (fuel : nat) (s : state) : option (option state) :=
  match pc s with
  | [] => Some (Some s)
  | _ =>
      match fuel with
      | O => None
      | S f =>
          match step s with
          | None => Some None
          | Some s' => run f s'
          end
      end
  end.

(** [EvalScript]: the outer [option] is the fuel; the inner one is the
    returned bool with the final stack. *)
Definition EvalScript_fuel (fuel : nat) (st : list valtype) (script : list Z)
    : option (option (list valtype)) :=
  if 10000 <? Z.of_nat (length script) then Some None
  else
    match run fuel (mk_state st [] [] 0 script script) with
    | None => None
    | Some None => Some None
    | Some (Some s) => if bool_decide (vfExec s = []) then Some (Some (stack s)) else Some None
    end.

Definition EvalScript (st : list valtype) (script : list Z) : option (list valtype) :=
  default None (EvalScript_fuel (length script) st script).

End interp.

(** ** Lemmas *)

Section lemmas.
Context {L : BNLib} {HL : BNLaws L} {D : DigestLib} {HD : DigestLaws D}.
Context (CheckSig : valtype -> valtype -> list Z -> bool).

#[local] Abbreviation switch := (switch CheckSig).
#[local] Abbreviation step := (step CheckSig).
#[local] Abbreviation run := (run CheckSig).
#[local] Abbreviation EvalScript := (EvalScript CheckSig).
#[local] Abbreviation EvalScript_fuel := (EvalScript_fuel CheckSig).
#[local] Abbreviation op_checksig := (op_checksig CheckSig).
#[local] Abbreviation op_checkmultisig := (op_checkmultisig CheckSig).

Lemma lift_stack_inv f s s' :
  lift_stack f s = Some s' -> exists st, f (stack s) = Some st /\ s' = set_stack s st.
Proof. unfold lift_stack. intros (st & -> & Hst)%fmap_Some. eauto. Qed.

(** What an instruction can change besides the stack. *)
Definition frame (s s' : state) : Prop :=
  pc s' = pc s /\ (pbegincodehash s' = pbegincodehash s \/ pbegincodehash s' = pc s).

Lemma op_checkmultisig_frame opcode s s' :
  op_checkmultisig opcode s = Some s' -> frame s s' /\ altstack s' = altstack s.
Proof.
  unfold Interp.op_checkmultisig. intros H.
  repeat (simplify_option_eq || case_match || case_bool_decide); simplify_eq; unfold frame; simpl; auto.
Qed.

Lemma switch_frame opcode fExec s s' : switch opcode fExec s = Some s' -> frame s s'.
Proof.
  unfold Interp.switch. intros H.
  repeat (case_match; [simplify_eq;
    try (apply lift_stack_inv in H as (st & _ & ->)); try (by unfold frame; simpl; auto);
    try (by apply op_checkmultisig_frame in H as [? _])|]); try done;
  unfold op_if, op_else, op_endif, op_verify, op_toaltstack, op_fromaltstack in H;
  repeat (simplify_option_eq || case_match); simplify_eq; unfold frame; simpl; auto.
Qed.

(** Inversion of one iteration. *)
Lemma step_inv s s' :
  step s = Some s' ->
  let r := GetOp2 (pc s) in
  let s1 := mk_state (stack s) (altstack s) (vfExec s)
              (if OP_16 <? op_opcode r then nOpCount s + 1 else nOpCount s) (op_pc r) (pbegincodehash s) in
  let fExec := forallb id (vfExec s) in
  op_ok r = true /\ Z.of_nat (length (op_vch r)) <= 520 /\
  (OP_16 < op_opcode r -> nOpCount s + 1 <= 201) /\ disabled (op_opcode r) = false /\
  Z.of_nat (length (stack s') + length (altstack s')) <= 1000 /\
  ((fExec = true /\ 0 <= op_opcode r <= OP_PUSHDATA4 /\ s' = set_stack s1 (op_vch r :: stack s)) \/
   switch (op_opcode r) fExec s1 = Some s' \/
   (fExec = false /\ ~ OP_IF <= op_opcode r <= OP_ENDIF /\ s' = s1)).
Proof.
  cbv zeta. unfold Interp.step. set (r := GetOp2 (pc s)). set (fe := forallb id (vfExec s)).
  destruct (op_ok r); [|done]. cbn [negb].
  destruct (Z.ltb_spec 520 (Z.of_nat (length (op_vch r)))); [done|].
  destruct (Z.ltb_spec OP_16 (op_opcode r)); cbn [andb].
  1: destruct (Z.ltb_spec 201 (nOpCount s + 1)); [done|].
  all: destruct (disabled (op_opcode r)) eqn:Ed; [done|].
  all: intros H'; apply bind_Some in H' as (s2 & E & H').
  all: destruct (Z.ltb_spec 1000 (Z.of_nat (length (stack s2) + length (altstack s2)))); [done|].
  all: simplify_eq; repeat split; try lia; try done.
  all: destruct fe; cbn [andb orb] in E.
  all: destruct (Z.leb_spec 0 (op_opcode r)), (Z.leb_spec (op_opcode r) OP_PUSHDATA4); cbn [andb] in E.
  all: try (left; simplify_eq; unfold OP_PUSHDATA4, OP_16 in *; split; [done|]; split; [lia|done]).
  all: right; try (left; exact E).
  all: destruct ((OP_IF <=? op_opcode r) && (op_opcode r <=? OP_ENDIF)) eqn:Er; [left; exact E|right].
  all: simplify_eq; split; [done|]; split; [apply andb_false_iff in Er as [Er|Er]; lia|done].
Qed.

Lemma step_pc s s' :
  step s = Some s' -> pc s' = op_pc (GetOp2 (pc s)) /\ op_ok (GetOp2 (pc s)) = true /\
    (pbegincodehash s' = pbegincodehash s \/ pbegincodehash s' = pc s').
Proof.
  intros (Hok & _ & _ & _ & _ & [(_ & _ & ->)|[H|(_ & _ & ->)]])%step_inv; [simpl; auto| |simpl; auto].
  apply switch_frame in H as [Hp Hb]. simpl in *. rewrite Hp. auto.
Qed.

Lemma step_progress s s' : step s = Some s' -> (length (pc s') < length (pc s))%nat.
Proof. intros (-> & Hok & _)%step_pc. by apply GetOp2_progress. Qed.

(** The loop never runs out of fuel, and more fuel changes nothing. *)
Lemma run_total fuel : forall s, (length (pc s) <= fuel)%nat -> exists r, run fuel s = Some r.
Proof.
  induction fuel as [|fuel IH]; intros s Hf; simpl; destruct (pc s) as [|c p] eqn:Ep; eauto; [simpl in Hf; lia|].
  destruct (step s) as [s'|] eqn:E; [|eauto].
  apply step_progress in E. rewrite Ep in E. apply IH. simpl in *. lia.
Qed.

Lemma run_mono fuel : forall fuel' s r, run fuel s = Some r -> (fuel <= fuel')%nat -> run fuel' s = Some r.
Proof.
  induction fuel as [|fuel IH]; intros [|fuel'] s r H Hf; simpl in *; destruct (pc s); try done; [lia|].
  destruct (step s); [|done]. apply IH; [done|lia].
Qed.

Lemma run_step s s' fuel :
  step s = Some s' -> (length (pc s) <= fuel)%nat -> run fuel s = run (length (pc s')) s'.
Proof.
  intros E Hf. pose proof (step_progress s s' E).
  destruct (run_total (length (pc s')) s') as [r Hr]; [lia|]. rewrite Hr.
  destruct fuel as [|fuel]; [lia|]. simpl. destruct (pc s) as [|c p] eqn:Ep; [simpl in *; lia|].
  rewrite E. eapply run_mono; [done|]. simpl in *. lia.
Qed.

Lemma run_done s fuel : pc s = [] -> run fuel s = Some (Some s).
Proof. intros E. destruct fuel; simpl; by rewrite E. Qed.

Lemma run_fail s fuel : pc s <> [] -> step s = None -> (0 < fuel)%nat -> run fuel s = Some None.
Proof. intros Hp E Hf. destruct fuel; [lia|]. simpl. destruct (pc s); [done|]. by rewrite E. Qed.

(** *** Script numbers *)

(** The number a stack element denotes. *)
Definition script_num (x : valtype) : Z := mpi_val (rev x).

Lemma mpi_size_le v n : 1 <= n -> Z.abs v < 2 ^ (8 * n - 1) -> mpi_size v <= n.
Proof.
  intros Hn Hv. unfold mpi_size. destruct (Z.eqb_spec v 0); [lia|].
  assert (Z.log2 (Z.abs v) < 8 * n - 1) by (apply Z.log2_lt_pow2; lia).
  assert ((Z.log2 (Z.abs v) + 1) / 8 < n) by (apply Z.div_lt_upper_bound; lia). lia.
Qed.

Lemma mpi_val_bound p : Forall is_byte p -> p <> [] -> Z.abs (mpi_val p) < 2 ^ (8 * Z.of_nat (length p) - 1).
Proof.
  intros Hb Hne. destruct Hb as [|b p Hb Hp]; [done|]. assert (0 <= b < 256) by exact Hb.
  rewrite BigNum.mpi_val_cons by done. cbn [length]. rewrite BigNum.half_pow256.
  pose proof (digits_val_range 256 p ltac:(lia) Hp).
  case_match; bool_to_prop; nia.
Qed.

Lemma getvch_num v n :
  1 <= n < 2 ^ 31 -> Z.abs v < 2 ^ (8 * n - 1) ->
  BigNum.getvch v = rev (mpi_payload v) /\ Z.of_nat (length (BigNum.getvch v)) <= n /\
  Forall is_byte (BigNum.getvch v) /\ script_num (BigNum.getvch v) = v.
Proof.
  intros Hn Hv. pose proof (mpi_size_le v n ltac:(lia) Hv).
  rewrite BigNum.getvch_spec by lia. split; [done|].
  rewrite length_rev, BigNum.length_mpi_payload. split; [done|].
  split; [apply Forall_rev, BigNum.mpi_payload_bytes|].
  unfold script_num. rewrite rev_involutive. apply BigNum.mpi_val_payload.
Qed.

Lemma script_num_bound x :
  Forall is_byte x -> (length x <= 4)%nat -> Z.abs (script_num x) < 2 ^ 31.
Proof.
  intros Hb Hl. unfold script_num. destruct x as [|b x]; [done|].
  eapply Z.lt_le_trans; [apply mpi_val_bound|].
  - by apply Forall_rev.
  - intros E. apply (f_equal (@length Z)) in E. rewrite length_rev in E. done.
  - rewrite length_rev. apply Z.pow_le_mono_r; [lia|]. simpl in *. lia.
Qed.

Lemma CastToBigNum_spec x :
  Forall is_byte x ->
  CastToBigNum x = if bool_decide (4 < length x)%nat then None else Some (script_num x).
Proof.
  intros Hb. unfold CastToBigNum, nMaxNumSize. case_bool_decide as Hl; [done|].
  rewrite (BigNum.setvch_spec x) by (done || lia).
  change (mpi_val (rev x)) with (script_num x).
  pose proof (script_num_bound x Hb ltac:(lia)).
  destruct (getvch_num (script_num x) 4) as (_ & Hl' & Hb' & E); [lia|simpl; lia|].
  rewrite BigNum.setvch_spec by (done || lia). f_equal. exact E.
Qed.

Lemma CastToBigNum_inv x n :
  Forall is_byte x -> CastToBigNum x = Some n ->
  n = script_num x /\ Z.abs n < 2 ^ 31 /\ (length x <= 4)%nat.
Proof.
  intros Hb. rewrite CastToBigNum_spec by done. case_bool_decide; [done|].
  intros [= <-]. split; [done|]. split; [by apply script_num_bound; [|lia]|lia].
Qed.

Lemma bn_of_bool_spec b : bn_of_bool b = if b then 1 else 0.
Proof. unfold bn_of_bool. rewrite BigNum.CBigNum_int_spec by (destruct b; lia). done. Qed.

(** The integer functions of the numeric opcodes. *)
Definition unary_spec (opcode a : Z) : Z :=
  if opcode =? OP_1ADD then a + 1
  else if opcode =? OP_1SUB then a - 1
  else if opcode =? OP_NEGATE then - a
  else if opcode =? OP_ABS then Z.abs a
  else if opcode =? OP_NOT then (if a =? 0 then 1 else 0)
  else (if a =? 0 then 0 else 1).

Definition b2z (b : bool) : Z := if b then 1 else 0.

Definition binary_spec (opcode a b : Z) : Z :=
  if opcode =? OP_ADD then a + b
  else if opcode =? OP_SUB then a - b
  else if opcode =? OP_BOOLAND then b2z (negb (a =? 0) && negb (b =? 0))
  else if opcode =? OP_BOOLOR then b2z (negb (a =? 0) || negb (b =? 0))
  else if opcode =? OP_NUMEQUAL then b2z (a =? b)
  else if opcode =? OP_NUMEQUALVERIFY then b2z (a =? b)
  else if opcode =? OP_NUMNOTEQUAL then b2z (negb (a =? b))
  else if opcode =? OP_LESSTHAN then b2z (a <? b)
  else if opcode =? OP_GREATERTHAN then b2z (b <? a)
  else if opcode =? OP_LESSTHANOREQUAL then b2z (a <=? b)
  else if opcode =? OP_GREATERTHANOREQUAL then b2z (b <=? a)
  else if opcode =? OP_MIN then Z.min a b
  else Z.max a b.

Lemma unary_num_spec opcode a : unary_num opcode a = unary_spec opcode a.
Proof.
  unfold unary_num, unary_spec. rewrite !BigNum.CBigNum_int_spec, !bn_of_bool_spec by lia.
  destruct (BigNum.comparisons_spec a 0) as (-> & -> & _ & _ & -> & _).
  unfold BigNum.op_plus, BigNum.op_minus. rewrite BN_add_spec, BN_sub_spec, BigNum.op_uminus_spec.
  destruct (Z.ltb_spec a 0), (Z.eqb_spec a 0); repeat case_match; simpl; lia || done.
Qed.

Lemma binary_num_spec opcode a b : binary_num opcode a b = binary_spec opcode a b.
Proof.
  unfold binary_num, binary_spec. cbv zeta. rewrite !BigNum.CBigNum_int_spec, !bn_of_bool_spec by lia.
  destruct (BigNum.comparisons_spec a 0) as (_ & -> & _).
  destruct (BigNum.comparisons_spec b 0) as (_ & -> & _).
  destruct (BigNum.comparisons_spec a b) as (-> & -> & -> & -> & -> & ->).
  unfold BigNum.op_plus, BigNum.op_minus. rewrite BN_add_spec, BN_sub_spec. unfold b2z.
  repeat (case_match; [done|]).
  destruct (opcode =? OP_MIN); [destruct (Z.ltb_spec a b)|destruct (Z.ltb_spec b a)]; lia.
Qed.

Lemma unary_spec_bound opcode a : Z.abs a < 2 ^ 31 -> Z.abs (unary_spec opcode a) < 2 ^ 39.
Proof.
  change (2 ^ 31) with 2147483648. change (2 ^ 39) with 549755813888. intros H. unfold unary_spec.
  repeat match goal with |- context [if ?b then _ else _] => destruct b end; lia.
Qed.

Lemma binary_spec_bound opcode a b :
  Z.abs a < 2 ^ 31 -> Z.abs b < 2 ^ 31 -> Z.abs (binary_spec opcode a b) < 2 ^ 39.
Proof.
  change (2 ^ 31) with 2147483648. change (2 ^ 39) with 549755813888. intros Ha Hb.
  assert (forall c, Z.abs (b2z c) < 549755813888) by (intros []; simpl; lia).
  unfold binary_spec.
  repeat match goal with |- context [if opcode =? ?o then _ else _] => destruct (opcode =? o) end;
    done || lia.
Qed.

(** *** Size invariant *)

(** A stack element: at most 520 bytes. *)
Definition item (x : valtype) : Prop := Z.of_nat (length x) <= 520 /\ Forall is_byte x.

Lemma item_num v : Z.abs v < 2 ^ 39 -> item (BigNum.getvch v).
Proof.
  intros Hv. destruct (getvch_num v 5) as (_ & Hl & Hb & _); [lia|done|].
  split; [lia|done].
Qed.

Lemma item_bool b : item (bool_vch b).
Proof. destruct b; (split; [done|repeat constructor; done]). Qed.

Lemma item_size n : 0 <= n <= 1000 -> item (BigNum.getvch (BigNum.setulong n)).
Proof.
  intros Hn. unfold BigNum.setulong. rewrite BN_set_word_spec by lia. apply item_num. lia.
Qed.

Ltac forall_items :=
  repeat match goal with
  | H : Forall item (_ :: _) |- _ => apply Forall_cons in H as [? ?]
  | |- Forall item (_ :: _) => apply Forall_cons; split
  end; try done; auto using item_bool.

Lemma stack_shuffle_items opcode st st' :
  Forall item st -> (length st <= 1000)%nat -> stack_shuffle opcode st = Some st' -> Forall item st'.
Proof.
  intros Hs Hl. unfold stack_shuffle.
  repeat (case_match; [repeat case_match; intros [= <-]; forall_items; try (apply item_size; simpl in *; lia)|]);
    try done.
Qed.

Lemma op_pick_roll_items opcode st st' :
  Forall item st -> op_pick_roll opcode st = Some st' -> Forall item st'.
Proof.
  intros Hs. unfold op_pick_roll. destruct st as [|x [|y r]]; [done..|].
  apply Forall_cons in Hs as [_ Hs]. intros (n & _ & H)%bind_Some. cbv zeta in H.
  destruct (_ || _); [done|]. apply bind_Some in H as (v & Hv & [= <-]).
  apply Forall_cons. split; [by eapply Forall_lookup_1|]. case_match; [by apply Forall_delete|done].
Qed.

Lemma op_unary_items opcode st st' : Forall item st -> op_unary opcode st = Some st' -> Forall item st'.
Proof.
  intros Hs. unfold op_unary. destruct st as [|x r]; [done|]. apply Forall_cons in Hs as [[_ Hx] Hs].
  intros (n & En & [= <-])%bind_Some. apply CastToBigNum_inv in En as (_ & Hn & _); [|done].
  apply Forall_cons. split; [|done]. rewrite unary_num_spec. by apply item_num, unary_spec_bound.
Qed.

Lemma op_binary_items opcode st st' : Forall item st -> op_binary opcode st = Some st' -> Forall item st'.
Proof.
  intros Hs. unfold op_binary. destruct st as [|x2 [|x1 r]]; [done..|].
  apply Forall_cons in Hs as [[_ H2] Hs]. apply Forall_cons in Hs as [[_ H1] Hs].
  intros (n1 & E1 & (n2 & E2 & H)%bind_Some)%bind_Some.
  apply CastToBigNum_inv in E1 as (_ & B1 & _); [|done]. apply CastToBigNum_inv in E2 as (_ & B2 & _); [|done].
  cbv zeta in H. rewrite binary_num_spec in H. repeat case_match; simplify_eq; [done|].
  apply Forall_cons. split; [|done]. by apply item_num, binary_spec_bound.
Qed.

Lemma op_hash_items opcode st st' : Forall item st -> op_hash opcode st = Some st' -> Forall item st'.
Proof.
  intros Hs. unfold op_hash. destruct st as [|x r]; [done|]. apply Forall_cons in Hs as [_ Hs].
  intros [= <-]. apply Forall_cons. split; [|done]. unfold item, Hash, Hash160.
  repeat case_match; (rewrite ?SHA256_length, ?RIPEMD160_length, ?SHA1_length;
    split; [lia|auto using SHA256_bytes, RIPEMD160_bytes, SHA1_bytes]).
Qed.

Lemma small_stack_items st st' :
  Forall item st -> (length st <= 1000)%nat ->
  (op_size st = Some st' -> Forall item st') /\
  (forall opcode, op_equal opcode st = Some st' -> Forall item st') /\
  (op_within st = Some st' -> Forall item st') /\
  (forall opcode p, op_checksig opcode p st = Some st' -> Forall item st').
Proof.
  intros Hs Hl. unfold op_size, op_equal, op_within, Interp.op_checksig. repeat split.
  - destruct st as [|x r]; [done|]. intros [= <-]. apply Forall_cons. split; [|done].
    apply Forall_cons in Hs as [[Hx _] _]. apply item_size. lia.
  - intros opcode H. repeat case_match; simplify_eq; forall_items.
  - destruct st as [|x3 [|x2 [|x1 r]]]; [done..|].
    intros (n1 & _ & (n2 & _ & (n3 & _ & [= <-])%bind_Some)%bind_Some)%bind_Some. forall_items.
  - intros opcode p H. repeat case_match; simplify_eq; forall_items.
Qed.

Lemma popn_suffix n : forall st st', popn n st = Some st' -> exists k, st = k ++ st'.
Proof.
  induction n as [|n IH]; intros st st' H; simpl in H; [simplify_eq; by exists []|].
  destruct st as [|x st]; [done|]. simpl in H. apply IH in H as [k ->]. by exists (x :: k).
Qed.

Lemma popn_app l st : popn (length l) (l ++ st) = Some st.
Proof. induction l as [|x l IH]; simpl; [done|]. exact IH. Qed.

Lemma popn_app' l n st st' : st = l ++ st' -> n = length l -> popn n st = Some st'.
Proof. intros -> ->. apply popn_app. Qed.

(** The invariant of the interpreter loop. *)
Record inv (s : state) : Prop := {
  inv_stack : Forall item (stack s);
  inv_alt : Forall item (altstack s);
  inv_ops : 0 <= nOpCount s <= 201;
  inv_depth : Z.of_nat (length (stack s) + length (altstack s)) <= 1000;
  inv_pc : Forall is_byte (pc s);
  inv_code : Forall is_byte (pbegincodehash s)
}.

Lemma op_checkmultisig_items opcode s s' :
  Forall item (stack s) -> 0 <= nOpCount s -> op_checkmultisig opcode s = Some s' ->
  Forall item (stack s') /\ 0 <= nOpCount s' <= 201.
Proof.
  unfold Interp.op_checkmultisig.
  intros Hs Hn (top & _ & (bn & _ & H)%bind_Some)%bind_Some. cbv zeta in H.
  destruct (_ || _) eqn:E1 in H; [done|]. destruct (201 <? _) eqn:E2 in H; [done|].
  case_bool_decide; [done|]. apply bind_Some in H as (vM & _ & (bnM & _ & H)%bind_Some).
  destruct (_ || _) eqn:E3 in H; [done|]. case_bool_decide; [done|].
  apply bind_Some in H as (st' & Hp & H). apply popn_suffix in Hp as [k Ek].
  rewrite Ek in Hs. apply Forall_app in Hs as [_ Hs]. bool_to_prop.
  repeat case_match; simplify_eq; simpl; (split; [forall_items|lia]).
Qed.

Lemma switch_items opcode fExec s s' :
  Forall item (stack s) -> Forall item (altstack s) -> (length (stack s) <= 1000)%nat ->
  0 <= nOpCount s <= 201 -> is_byte opcode -> switch opcode fExec s = Some s' ->
  Forall item (stack s') /\ Forall item (altstack s') /\ 0 <= nOpCount s' <= 201.
Proof.
  intros Hs Ha Hl Hn Hop H.
  assert (forall f, (forall st st', Forall item st -> (length st <= 1000)%nat -> f st = Some st' -> Forall item st') ->
    lift_stack f s = Some s' -> Forall item (stack s') /\ Forall item (altstack s') /\ 0 <= nOpCount s' <= 201) as HL'.
  { intros f Hf (st & E & ->)%lift_stack_inv. simpl. eauto. }
  unfold Interp.switch in H.
  case_match. { simplify_eq. simpl. split; [|done]. apply Forall_cons. split; [|done].
    unfold is_byte, OP_1 in *. rewrite BigNum.CBigNum_int_spec by lia. apply item_num. lia. }
  case_match. { by simplify_eq. }
  case_match. { unfold op_if in H. destruct fExec; [|by simplify_eq]. destruct (stack s) as [|x r] eqn:Es; [done|].
    simpl in H. simplify_eq. simpl. forall_items. }
  case_match. { unfold op_else in H. case_match; by simplify_eq. }
  case_match. { unfold op_endif in H. case_match; by simplify_eq. }
  case_match. { unfold op_verify in H. destruct (stack s) as [|x r] eqn:Es; [done|].
    simpl in H. case_match; simplify_eq. simpl. forall_items. }
  case_match; [done|].
  case_match. { unfold op_toaltstack in H. destruct (stack s) as [|x r] eqn:Es; simplify_eq. simpl.
    apply Forall_cons in Hs as [? ?]. repeat split; try (apply Forall_cons); auto; lia. }
  case_match. { unfold op_fromaltstack in H. destruct (altstack s) as [|x r] eqn:Es; simplify_eq. simpl.
    apply Forall_cons in Ha as [? ?]. repeat split; try (apply Forall_cons); auto; lia. }
  case_match; [eapply HL', H; intros; eauto using stack_shuffle_items|].
  case_match; [eapply HL', H; intros; eauto using op_pick_roll_items|].
  case_match; [eapply HL', H; intros st st' ? ? ?; destruct (small_stack_items st st') as (?&?&?&?); eauto|].
  case_match; [eapply HL', H; intros st st' ? ? ?; destruct (small_stack_items st st') as (?&?&?&?); eauto|].
  case_match; [eapply HL', H; intros; eauto using op_unary_items|].
  case_match; [eapply HL', H; intros; eauto using op_binary_items|].
  case_match; [eapply HL', H; intros st st' ? ? ?; destruct (small_stack_items st st') as (?&?&?&?); eauto|].
  case_match; [eapply HL', H; intros; eauto using op_hash_items|].
  case_match; [by simplify_eq|].
  case_match; [eapply HL', H; intros st st' ? ? ?; destruct (small_stack_items st st') as (?&?&?&?); eauto|].
  case_match; [|done].
  destruct (op_checkmultisig_frame _ _ _ H) as [_ ->].
  destruct (op_checkmultisig_items _ _ _ Hs ltac:(lia) H) as [? ?]. auto.
Qed.

Lemma step_preserves s s' : inv s -> step s = Some s' -> inv s'.
Proof.
  intros [Hs Ha Hn Hd Hp Hc] H. pose proof (step_pc s s' H) as (Epc & Hok & Eb).
  destruct (GetOp2_bytes _ Hp Hok) as (Bo & Bv & Bp).
  apply step_inv in H as (_ & Hv & Hcnt & _ & Hd' & H).
  assert (0 <= (if OP_16 <? op_opcode (GetOp2 (pc s)) then nOpCount s + 1 else nOpCount s) <= 201) as Hn'
    by (case_match; bool_to_prop; lia).
  assert (Forall item (stack s') /\ Forall item (altstack s') /\ 0 <= nOpCount s' <= 201) as (H1 & H2 & H3).
  { destruct H as [(_ & _ & ->)|[H|(_ & _ & ->)]]; simpl; [|eapply switch_items; [..|exact H]; simpl; done || lia|done].
    split; [|done]. apply Forall_cons. done. }
  split; try done; rewrite ?Epc; try done. destruct Eb as [->| ->]; [done|]. by rewrite Epc.
Qed.

Lemma run_preserves fuel : forall s r, inv s -> run fuel s = Some (Some r) -> inv r /\ pc r = [].
Proof.
  induction fuel as [|fuel IH]; intros s r Hi H; simpl in H; destruct (pc s) eqn:Ep; simplify_eq; auto.
  destruct (step s) as [s'|] eqn:E; [|done]. eapply IH; [|done]. by eapply step_preserves.
Qed.

(** *** What the loop checks of every instruction, executed or not *)

(** The nesting depth of conditionals after an instruction. *)
Definition depth_step (opcode : Z) (d : nat) : option nat :=
  if (opcode =? OP_IF) || (opcode =? OP_NOTIF) then Some (S d)
  else if opcode =? OP_ELSE then match d with O => None | S _ => Some d end
  else if opcode =? OP_ENDIF then match d with O => None | S d' => Some d' end
  else Some d.

Definition depth_after (l : list (Z * list Z)) (d : nat) : option nat :=
  fold_left (fun o i => o ≫= depth_step i.1) l (Some d).

Definition counted (l : list (Z * list Z)) : Z :=
  fold_right (fun i n => (if OP_16 <? i.1 then 1 else 0) + n) 0 l.

Definition allowed (i : Z * list Z) : Prop :=
  disabled i.1 = false /\ i.1 <> OP_VERIF /\ i.1 <> OP_VERNOTIF /\ Z.of_nat (length i.2) <= 520.

Lemma op_checkmultisig_count opcode s s' :
  op_checkmultisig opcode s = Some s' -> nOpCount s <= nOpCount s' <= Z.max (nOpCount s) 201 /\ vfExec s' = vfExec s.
Proof.
  unfold Interp.op_checkmultisig. intros (top & _ & (bn & _ & H)%bind_Some)%bind_Some. cbv zeta in H.
  destruct (_ || _) eqn:E1 in H; [done|]. destruct (201 <? _) eqn:E2 in H; [done|]. bool_to_prop.
  repeat (simplify_option_eq || case_match || case_bool_decide); simplify_eq; simpl; split; lia || done.
Qed.

Lemma switch_count opcode fExec s s' :
  switch opcode fExec s = Some s' ->
  nOpCount s <= nOpCount s' <= Z.max (nOpCount s) 201 /\ depth_step opcode (length (vfExec s)) = Some (length (vfExec s')) /\
  opcode <> OP_VERIF /\ opcode <> OP_VERNOTIF.
Proof.
  intros H. assert (opcode <> OP_VERIF /\ opcode <> OP_VERNOTIF) as Hv
    by (split; intros ->; done).
  split; [|split; [|done]]; unfold Interp.switch, op_if, op_else, op_endif in H.
  - repeat (match type of H with (if ?b then _ else _) = _ => destruct b end; [try (apply lift_stack_inv in H as (st & _ & ->));
      try (apply op_checkmultisig_count in H as [? _]);
      unfold op_verify, op_toaltstack, op_fromaltstack in *;
      repeat (simplify_option_eq || case_match); simplify_eq; cbn [nOpCount set_stack]; lia|]). done.
  - unfold depth_step. destruct (_ || _) eqn:E1 in |- *.
    { apply orb_true_iff in E1 as [->%Z.eqb_eq| ->%Z.eqb_eq]; cbn in H;
        repeat (simplify_option_eq || case_match); simplify_eq; done. }
    destruct (opcode =? OP_ELSE) eqn:E2.
    { apply Z.eqb_eq in E2 as ->. cbn in H. case_match; simplify_eq; done. }
    destruct (opcode =? OP_ENDIF) eqn:E3.
    { apply Z.eqb_eq in E3 as ->. cbn in H. case_match; simplify_eq; done. }
    do 2 (case_match; [by simplify_eq|]). rewrite E1 in H.
    repeat (case_match; [try (apply lift_stack_inv in H as (st & _ & ->));
      try (apply op_checkmultisig_count in H as [_ ->]);
      unfold op_verify, op_toaltstack, op_fromaltstack in *;
      repeat (simplify_option_eq || case_match); simplify_eq; done|]). done.
Qed.

Lemma depth_step_low opcode d : ~ OP_IF <= opcode <= OP_ENDIF -> depth_step opcode d = Some d.
Proof.
  unfold depth_step, OP_IF, OP_NOTIF, OP_ELSE, OP_ENDIF. intros H.
  rewrite !(proj2 (Z.eqb_neq opcode _)) by lia. done.
Qed.

Lemma step_static s s' :
  step s = Some s' ->
  let r := GetOp2 (pc s) in
  allowed (op_opcode r, op_vch r) /\
  nOpCount s + (if OP_16 <? op_opcode r then 1 else 0) <= nOpCount s' <= Z.max (nOpCount s) 201 /\
  depth_step (op_opcode r) (length (vfExec s)) = Some (length (vfExec s')).
Proof.
  intros (_ & Hv & Hc & Hd & _ & H)%step_inv. cbv zeta. unfold allowed. simpl.
  destruct H as [(_ & Hr & ->)|[H|(_ & Hr & ->)]].
  - unfold OP_PUSHDATA4, OP_VERIF, OP_VERNOTIF in *. simpl. rewrite depth_step_low by (unfold OP_IF; lia).
    split_and!; try done; try lia; destruct (Z.ltb_spec OP_16 (op_opcode (GetOp2 (pc s)))); lia.
  - apply switch_count in H as (H1 & H2 & H3 & H4). simpl in *.
    split_and!; try done; destruct (Z.ltb_spec OP_16 (op_opcode (GetOp2 (pc s)))); lia.
  - simpl. rewrite depth_step_low by done. unfold OP_IF, OP_VERIF, OP_VERNOTIF, OP_ENDIF in *.
    split_and!; try done; try lia; destruct (Z.ltb_spec OP_16 (op_opcode (GetOp2 (pc s)))); lia.
Qed.

Lemma depth_after_cons i l d : depth_after (i :: l) d = depth_step i.1 d ≫= depth_after l.
Proof.
  unfold depth_after. simpl. destruct (depth_step i.1 d) as [d'|]; simpl; [done|].
  induction l; simpl; done.
Qed.

Lemma run_static fuel : forall s r,
  run fuel s = Some (Some r) ->
  exists l, parses (pc s) l /\ Forall allowed l /\ nOpCount s + counted l <= Z.max (nOpCount s) 201 /\
    depth_after l (length (vfExec s)) = Some (length (vfExec r)).
Proof.
  induction fuel as [|fuel IH]; intros s r H; simpl in H; destruct (pc s) as [|c p] eqn:Ep; simplify_eq.
  1, 2: exists []; repeat split; [constructor..|simpl; lia].
  destruct (step s) as [s'|] eqn:E; [|done].
  destruct (step_pc s s' E) as (Epc & Hok & _). apply step_static in E as (H1 & H2 & H4).
  destruct (IH _ _ H) as (l & Hp & Hf & Hn & Hd). rewrite Epc in Hp. rewrite Ep in *.
  eexists. split; [by apply parses_cons|]. split; [by constructor|].
  rewrite depth_after_cons. cbn [fst counted fold_right]. fold (counted l). rewrite H4. split; [lia|done].
Qed.

(** *** Multiple signatures *)

(** Every signature is assigned a key that verifies it, later signatures to
    later keys. *)
Inductive matching (scriptCode : list Z) : list valtype -> list valtype -> Prop :=
| matching_nil keys : matching scriptCode [] keys
| matching_use sig key sigs keys :
    CheckSig sig key scriptCode = true -> matching scriptCode sigs keys ->
    matching scriptCode (sig :: sigs) (key :: keys)
| matching_skip sig key sigs keys :
    matching scriptCode (sig :: sigs) keys -> matching scriptCode (sig :: sigs) (key :: keys).

Lemma matching_length sc sigs keys : matching sc sigs keys -> (length sigs <= length keys)%nat.
Proof. induction 1; simpl in *; lia. Qed.

Lemma matching_weaken sc sigs keys key : matching sc sigs keys -> matching sc sigs (key :: keys).
Proof. destruct sigs; [constructor|by apply matching_skip]. Qed.

Lemma matching_tail sc sig sigs keys :
  matching sc (sig :: sigs) keys -> matching sc sigs keys.
Proof.
  remember (sig :: sigs) as l eqn:El. induction 1; simplify_eq; auto using matching_weaken.
Qed.

Lemma multisig_loop_matching sc keys : forall sigs,
  multisig_loop CheckSig sc sigs keys = true <-> matching sc sigs keys.
Proof.
  induction keys as [|key keys IH]; intros [|sig sigs]; simpl; try (split; [constructor|done]).
  { split; [done|]. intros H. inversion H. }
  destruct (CheckSig sig key sc) eqn:E; case_bool_decide as Hl.
  - split; [done|]. intros H. apply matching_length in H. simpl in H. lia.
  - rewrite IH. split; [by apply matching_use|]. intros H. inversion H; subst; eauto using matching_tail.
  - split; [done|]. intros H. exfalso. inversion H as [|? ? ? ? ? Hm|? ? ? ? Hm]; subst; [congruence|].
    apply matching_length in Hm. simpl in *. lia.
  - rewrite IH. split; [by apply matching_skip|]. intros H. inversion H; subst; [congruence|done].
Qed.

Lemma drop_S_app {A} (l : list A) x r : drop (S (length l)) (l ++ x :: r) = r.
Proof. induction l as [|y l IH]; [done|exact IH]. Qed.

Lemma getint_small n : 0 <= n < 128 -> BigNum.getint n = n.
Proof.
  intros Hn. rewrite BigNum.getint_spec. unfold BigNum.INT_MAX, BigNum.INT_MIN.
  repeat case_match; bool_to_prop; lia.
Qed.

Lemma small_num n : 0 <= n < 128 -> CastToBigNum (BigNum.getvch n) = Some n.
Proof.
  intros Hn. destruct (getvch_num n 1) as (_ & Hl & Hb & E); [lia|simpl; lia|].
  rewrite CastToBigNum_spec, bool_decide_false, E by (done || lia). done.
Qed.

(** The layout of a stack that holds m signatures below n keys. *)
Definition multisig_stack (keys sigs : list valtype) (dummy : valtype) (rest : list valtype) : list valtype :=
  BigNum.getvch (Z.of_nat (length keys)) :: keys ++
  BigNum.getvch (Z.of_nat (length sigs)) :: sigs ++ dummy :: rest.

Lemma op_checkmultisig_spec s opcode keys sigs dummy rest :
  stack s = multisig_stack keys sigs dummy rest ->
  (length sigs <= length keys <= 20)%nat -> nOpCount s + Z.of_nat (length keys) <= 201 ->
  op_checkmultisig opcode s =
    let sc := fold_left (fun sc sig => (FindAndDelete sc (push_data [] sig)).1) sigs (pbegincodehash s) in
    let ok := multisig_loop CheckSig sc sigs keys in
    let s' := mk_state rest (altstack s) (vfExec s) (nOpCount s + Z.of_nat (length keys)) (pc s) (pbegincodehash s) in
    if opcode =? OP_CHECKMULTISIGVERIFY then if ok then Some s' else None
    else Some (set_stack s' (bool_vch ok :: rest)).
Proof.
  intros Es Hl Hn. unfold Interp.op_checkmultisig. rewrite Es. unfold multisig_stack.
  set (k := BigNum.getvch (Z.of_nat (length keys))). set (m := BigNum.getvch (Z.of_nat (length sigs))).
  assert (CastToBigNum k = Some (Z.of_nat (length keys))) as Hk by (apply small_num; lia).
  assert (CastToBigNum m = Some (Z.of_nat (length sigs))) as Hm by (apply small_num; lia).
  assert (length (k :: keys ++ m :: sigs ++ dummy :: rest) = 3 + length keys + length sigs + length rest)%nat as El
    by (simpl; rewrite length_app; simpl; rewrite length_app; simpl; lia).
  assert (stacktop (k :: keys ++ m :: sigs ++ dummy :: rest) (2 + length keys) = Some m) as Em
    by (simpl; rewrite lookup_app_r, Nat.sub_diag by lia; done).
  assert (take (length keys) (drop 1 (k :: keys ++ m :: sigs ++ dummy :: rest)) = keys) as Ekeys
    by (simpl; apply take_app_length).
  assert (take (length sigs) (drop (2 + length keys) (k :: keys ++ m :: sigs ++ dummy :: rest)) = sigs) as Esigs.
  { simpl. rewrite drop_S_app. apply take_app_length. }
  assert (popn (3 + length keys + length sigs) (k :: keys ++ m :: sigs ++ dummy :: rest) = Some rest) as Epop.
  { apply (popn_app' (k :: keys ++ m :: sigs ++ [dummy])); cbn [app length].
    - rewrite <- app_assoc. cbn [app]. rewrite <- app_assoc. done.
    - rewrite length_app. cbn [length]. rewrite length_app. simpl. lia. }
  change (stacktop (k :: ?r) 1) with (Some k). cbn [mbind option_bind]. rewrite Hk.
  cbn [mbind option_bind]. cbv zeta. rewrite getint_small by lia.
  rewrite (proj2 (orb_false_iff _ _)) by lia.
  rewrite (proj2 (Z.ltb_ge 201 _)) by lia. rewrite Nat2Z.id.
  rewrite bool_decide_false by (unfold valtype in *; lia). rewrite Em. cbn [mbind option_bind].
  rewrite Hm. cbn [mbind option_bind].
  rewrite getint_small by lia. rewrite (proj2 (orb_false_iff _ _)) by lia.
  rewrite Nat2Z.id, bool_decide_false by (unfold valtype in *; lia).
  unfold valtype in *. rewrite Ekeys, Esigs, Epop. done.
Qed.

Lemma existsb_switch (P : Z -> Prop) l opcode :
  existsb (Z.eqb opcode) l = true -> Forall P l -> P opcode.
Proof.
  intros (x & Hx & ->%Z.eqb_eq)%existsb_exists Hl. rewrite List.Forall_forall in Hl. by apply Hl.
Qed.

Lemma switch_unary opcode fExec s :
  is_unary opcode = true -> switch opcode fExec s = lift_stack (op_unary opcode) s.
Proof.
  intros H. apply (existsb_switch (fun o => switch o fExec s = lift_stack (op_unary o) s) _ _ H).
  repeat constructor.
Qed.

Lemma switch_binary opcode fExec s :
  is_binary opcode = true -> switch opcode fExec s = lift_stack (op_binary opcode) s.
Proof.
  intros H. apply (existsb_switch (fun o => switch o fExec s = lift_stack (op_binary o) s) _ _ H).
  repeat constructor.
Qed.

Lemma num_result v :
  Z.abs v < 2 ^ 39 -> script_num (BigNum.getvch v) = v /\ (length (BigNum.getvch v) <= 5)%nat.
Proof.
  intros Hv. destruct (getvch_num v 5) as (_ & Hl & _ & E); [lia|done|]. split; [done|lia].
Qed.

Lemma getvch_one : BigNum.getvch 1 = [1].
Proof. rewrite BigNum.getvch_spec; [reflexivity|vm_compute; done]. Qed.

Lemma getvch_zero : BigNum.getvch 0 = [].
Proof. rewrite BigNum.getvch_spec; [reflexivity|vm_compute; done]. Qed.

Lemma EvalScript_fuel_enough st script fuel :
  (length script <= fuel)%nat -> EvalScript_fuel fuel st script = Some (EvalScript st script).
Proof.
  intros Hf. unfold Interp.EvalScript, Interp.EvalScript_fuel. case_match; [done|].
  destruct (run_total (length script) (mk_state st [] [] 0 script script)) as [r Hr]; [done|].
  rewrite Hr, (run_mono _ fuel _ _ Hr Hf). destruct r as [r|]; [|done]. by case_bool_decide.
Qed.

Lemma EvalScript_inv st script st' :
  EvalScript st script = Some st' ->
  Z.of_nat (length script) <= 10000 /\
  exists r, run (length script) (mk_state st [] [] 0 script script) = Some (Some r) /\
    vfExec r = [] /\ stack r = st'.
Proof.
  unfold Interp.EvalScript, Interp.EvalScript_fuel. case_match; [done|]. bool_to_prop.
  intros H'. split; [done|]. destruct (run _ _) as [[r|]|]; simpl in H'; try done.
  case_bool_decide; simplify_eq/=. eauto.
Qed.


(** A script on which EvalScript succeeds has at most 10000 bytes, parses
    completely into instructions, and every one of these, also in a branch
    that is not executed, is allowed: no disabled opcode, no OP_VERIF or
    OP_VERNOTIF, no push of more than 520 bytes; at most 201 of them are
    above OP_16, and OP_IF, OP_ELSE and OP_ENDIF are properly nested. *)
Theorem EvalScript_static_rules st script st' :
  EvalScript st script = Some st' ->
  Z.of_nat (length script) <= 10000 /\
  exists l, parses script l /\ Forall allowed l /\ counted l <= 201 /\ depth_after l 0 = Some O.
Proof.
  intros (Hl & r & (l & H1 & H2 & H3 & H4)%run_static & Hv & _)%EvalScript_inv. split; [done|].
  exists l. rewrite Hv in H4. simpl in *. split_and!; try done; lia.
Qed.

(** The numeric opcodes compute integer functions.  An operand of more
    than four bytes makes the script fail; otherwise the one or two operands
    are replaced by a number of at most five bytes that denotes the sum,
    difference, negation, comparison, ... of the numbers the operands denote;
    OP_NUMEQUALVERIFY leaves nothing and fails when they differ. *)
Theorem numeric_opcodes s opcode x1 x2 r :
  Forall is_byte x1 -> Forall is_byte x2 -> stack s = x2 :: x1 :: r ->
  (is_unary opcode = true ->
    if bool_decide (4 < length x2)%nat then switch opcode true s = None
    else exists y, switch opcode true s = Some (set_stack s (y :: x1 :: r)) /\
           script_num y = unary_spec opcode (script_num x2) /\ (length y <= 5)%nat) /\
  (is_binary opcode = true ->
    if bool_decide (4 < length x1 \/ 4 < length x2)%nat then switch opcode true s = None
    else if opcode =? OP_NUMEQUALVERIFY then
      switch opcode true s = if script_num x1 =? script_num x2 then Some (set_stack s r) else None
    else exists y, switch opcode true s = Some (set_stack s (y :: r)) /\
           script_num y = binary_spec opcode (script_num x1) (script_num x2) /\ (length y <= 5)%nat).
Proof.
  intros H1 H2 Es. split; intros Hop.
  - replace (switch opcode true s) with (lift_stack (op_unary opcode) s) by (symmetry; by apply switch_unary).
    unfold lift_stack, op_unary. rewrite Es, CastToBigNum_spec by done. case_bool_decide; [done|].
    simpl. eexists. split; [done|]. rewrite unary_num_spec.
    apply num_result, unary_spec_bound, script_num_bound; [done|lia].
  - replace (switch opcode true s) with (lift_stack (op_binary opcode) s) by (symmetry; by apply switch_binary).
    unfold lift_stack, op_binary. rewrite Es, !CastToBigNum_spec by done.
    case_bool_decide as Hl.
    { destruct Hl as [Hl|Hl]; rewrite (bool_decide_true _ Hl); [done|by case_bool_decide]. }
    rewrite !bool_decide_false by lia. cbn [mbind option_bind]. cbv zeta. rewrite binary_num_spec.
    destruct (num_result (binary_spec opcode (script_num x1) (script_num x2))) as [E1 E2];
      [apply binary_spec_bound; apply script_num_bound; done || lia|].
    destruct (Z.eqb_spec opcode OP_NUMEQUALVERIFY) as [->|]; [|by eexists].
    change (binary_spec OP_NUMEQUALVERIFY ?a ?b) with (b2z (a =? b)). cbn [b2z Z.eqb Pos.eqb OP_NUMEQUALVERIFY].
    destruct (script_num x1 =? script_num x2); unfold b2z; [rewrite getvch_one|rewrite getvch_zero]; done.
Qed.

(** OP_CHECKMULTISIG on n <= 20 keys and m <= n signatures consumes them,
    the two counts and one extra element, counts n operations, and its result
    is true exactly when the signatures can be assigned to keys that verify
    them, later signatures to later keys, against the script since the last
    OP_CODESEPARATOR with every one of the signatures removed. *)
Theorem checkmultisig_matches s opcode keys sigs dummy rest :
  stack s = multisig_stack keys sigs dummy rest ->
  (length sigs <= length keys <= 20)%nat -> nOpCount s + Z.of_nat (length keys) <= 201 ->
  opcode = OP_CHECKMULTISIG \/ opcode = OP_CHECKMULTISIGVERIFY ->
  exists ok,
    (ok = true <->
       matching (fold_left (fun sc sig => (FindAndDelete sc (push_data [] sig)).1) sigs (pbegincodehash s)) sigs keys) /\
    switch opcode true s =
      let s' := mk_state rest (altstack s) (vfExec s) (nOpCount s + Z.of_nat (length keys)) (pc s) (pbegincodehash s) in
      if opcode =? OP_CHECKMULTISIG then Some (set_stack s' (bool_vch ok :: rest))
      else if ok then Some s' else None.
Proof.
  intros Es Hl Hn Hop. eexists. split; [apply multisig_loop_matching|].
  transitivity (op_checkmultisig opcode s); [by destruct Hop as [-> | ->]|].
  rewrite (op_checkmultisig_spec _ _ _ _ _ _ Es Hl Hn). by destruct Hop as [-> | ->].
Qed.

End lemmas.

(** ** Witnesses *)

#[local] Existing Instance bn_reference.
#[local] Existing Instance toy_digests.

(** A signature check for the witnesses: a signature is the key followed by a
    hash type byte. *)
Definition demo_sig (sig key : valtype) (scriptCode : list Z) : bool := bool_decide (sig = key ++ [1]).

Definition demo_script : list Z := [OP_2; OP_3; OP_ADD; OP_IF; OP_5; OP_ELSE; OP_RETURN; OP_ENDIF].


Lemma EvalScript_static_rules_witness :
  exists l, parses demo_script l /\ Forall allowed l /\ counted l <= 201 /\ depth_after l 0 = Some O.
Proof.
  apply (EvalScript_static_rules demo_sig [] demo_script [[5]]). reflexivity.
Defined.

Lemma numeric_opcodes_witness :
  exists y, switch demo_sig OP_SUB true (mk_state [[3]; [1]] [] [] 0 [] []) =
      Some (mk_state [y] [] [] 0 [] []) /\ script_num y = -2 /\ (length y <= 5)%nat.
Proof.
  apply (numeric_opcodes (HL := bn_reference_laws) demo_sig (mk_state [[3]; [1]] [] [] 0 [] []) OP_SUB [1] [3] []).
  - repeat constructor; done.
  - repeat constructor; done.
  - reflexivity.
  - reflexivity.
Defined.

Lemma checkmultisig_matches_witness :
  exists ok, (ok = true <-> matching demo_sig [] [[20; 1]; [30; 1]] [[10]; [20]; [30]]) /\
    switch demo_sig OP_CHECKMULTISIG true
      (mk_state (multisig_stack [[10]; [20]; [30]] [[20; 1]; [30; 1]] [] []) [] [] 0 [] []) =
    Some (mk_state [bool_vch ok] [] [] 3 [] []).
Proof.
  apply (checkmultisig_matches (HL := bn_reference_laws) demo_sig
    (mk_state (multisig_stack [[10]; [20]; [30]] [[20; 1]; [30; 1]] [] []) [] [] 0 [] [])
    OP_CHECKMULTISIG [[10]; [20]; [30]] [[20; 1]; [30; 1]] [] []).
  - reflexivity.
  - simpl. lia.
  - simpl. lia.
  - by left.
Defined.

End Interp.
