(* ===== verification/Serialize.v ===== *)
(** * Serialization (src/src/serialize.h)

    The templates are generic in the stream and in the type.  [Stream] is the
    interface of a stream that is read from, [CDataStream] and the plain byte
    list are its instances; a [Codec] holds the three overloads
    [GetSerializeSize], [Serialize] and [Unserialize] of one C++ type, and a
    codec combinator is one pair of templates (vector, pair, tuple, map, set,
    the READWRITE sequences).  [Lawful] states that what is written is read
    back; its instances follow the combinators. *)

From S2P Require Import Prelude Uint256.

(** ** Streams *)

(** [read(pch, nSize)]: [None] when it throws. *)
Class Stream (S : Type) := {
  read : S -> Z -> option (list Z * S);
  contents : S -> list Z;
  stream_ok : S -> Prop
}.

(** What a reader relies on; the stream's own bookkeeping is [stream_ok]. *)
Class StreamLaws (S : Type) `{Stream S} : Prop := {
  read_enough (s : S) n :
    stream_ok s -> 0 <= n < 2 ^ 31 -> n <= Z.of_nat (length (contents s)) ->
    exists s', read s n = Some (take (Z.to_nat n) (contents s), s') /\
      contents s' = drop (Z.to_nat n) (contents s) /\ stream_ok s';
  read_short (s : S) n :
    stream_ok s -> 0 <= n < 2 ^ 31 -> Z.of_nat (length (contents s)) < n -> read s n = None
}.

#[export] Instance list_stream : Stream (list Z) := {|
  read s n := if bool_decide (n <= Z.of_nat (length s)) then Some (take (Z.to_nat n) s, drop (Z.to_nat n) s) else None;
  contents s := s;
  stream_ok _ := True
|}.

#[export] Instance list_stream_laws : StreamLaws (list Z).
Proof.
  split; simpl; intros s n _ Hn Hl.
  - rewrite bool_decide_true by done. eauto.
  - by rewrite bool_decide_false by lia.
Qed.

Module CDataStream.

(** The buffer and the read position; nType and nVersion only travel along,
    and with the default exception mask every failure bit throws. *)
Record CDataStream := mk_stream { vch : list Z; nReadPos : Z }.

(** The characters from [begin()] to [end()]. *)
Definition unread (s : CDataStream) : list Z := drop (Z.to_nat (nReadPos s)) (vch s).

Definition Init (b : list Z) : CDataStream := mk_stream b 0.
Definition size (s : CDataStream) : Z := Z.of_nat (length (vch s)) - nReadPos s.
Definition eof (s : CDataStream) : bool := size s =? 0.
Definition empty (s : CDataStream) : bool := Z.of_nat (length (vch s)) =? nReadPos s.
Definition clear (s : CDataStream) : CDataStream := mk_stream [] 0.
Definition op_append (s b : CDataStream) : CDataStream := mk_stream (vch s ++ unread b) (nReadPos s).

(** [memcpy(pch, &vch[nReadPos], nSize)]; outside the buffer there is no value. *)
Definition copy_out (s : CDataStream) (nSize : Z) : option (list Z) :=
  if bool_decide (nReadPos s + nSize <= Z.of_nat (length (vch s)))
  then Some (take (Z.to_nat nSize) (unread s)) else None.

Definition read (s : CDataStream) (nSize : Z) : option (list Z * CDataStream) :=
  if nSize <? 0 then None
  else
    let nReadPosNext := u32 (nReadPos s + nSize) in
    let len := Z.of_nat (length (vch s)) in
    if len <=? nReadPosNext then
      if len <? nReadPosNext then None
      else b ← copy_out s nSize; Some (b, mk_stream [] 0)
    else b ← copy_out s nSize; Some (b, mk_stream (vch s) nReadPosNext).

Definition ignore (s : CDataStream) (nSize : Z) : option CDataStream :=
  if nSize <? 0 then None
  else
    let nReadPosNext := u32 (nReadPos s + nSize) in
    let len := Z.of_nat (length (vch s)) in
    if len <=? nReadPosNext then
      if len <? nReadPosNext then None else Some (mk_stream [] 0)
    else Some (mk_stream (vch s) nReadPosNext).

Definition write (s : CDataStream) (b : list Z) : CDataStream := mk_stream (vch s ++ b) (nReadPos s).

Definition Compact (s : CDataStream) : CDataStream := mk_stream (drop (Z.to_nat (nReadPos s)) (vch s)) 0.

Definition Rewind (s : CDataStream) (n : Z) : bool * CDataStream :=
  if nReadPos s <? n then (false, s) else (true, mk_stream (vch s) (nReadPos s - n)).

(** [insert(it, first, last)] with [it] at offset [at_] of the buffer. *)
Definition insert (s : CDataStream) (at_ : Z) (b : list Z) : CDataStream :=
  let n := Z.of_nat (length b) in
  if (at_ =? nReadPos s) && (n <=? nReadPos s) then
    mk_stream (take (Z.to_nat (nReadPos s - n)) (vch s) ++ b ++ drop (Z.to_nat (nReadPos s)) (vch s)) (nReadPos s - n)
  else mk_stream (take (Z.to_nat at_) (vch s) ++ b ++ drop (Z.to_nat at_) (vch s)) (nReadPos s).

(** [erase(first, last)] on offsets of the buffer. *)
Definition erase (s : CDataStream) (first last : Z) : CDataStream :=
  if first =? nReadPos s then
    if last =? Z.of_nat (length (vch s)) then mk_stream [] 0 else mk_stream (vch s) last
  else mk_stream (take (Z.to_nat first) (vch s) ++ drop (Z.to_nat last) (vch s)) (nReadPos s).

(** [erase(it)] *)
Definition erase_one (s : CDataStream) (it : Z) : CDataStream :=
  if it =? nReadPos s then
    if Z.of_nat (length (vch s)) <=? nReadPos s + 1 then mk_stream [] 0 else mk_stream (vch s) (nReadPos s + 1)
  else mk_stream (take (Z.to_nat it) (vch s) ++ drop (Z.to_nat (it + 1)) (vch s)) (nReadPos s).

(** Buffers stay below 2 GB and the position inside the buffer. *)
Definition ok (s : CDataStream) : Prop :=
  0 <= nReadPos s <= Z.of_nat (length (vch s)) /\ Z.of_nat (length (vch s)) < 2 ^ 31.

#[global] Instance stream : Stream CDataStream := {|
  Serialize.read := read; contents := unread; stream_ok := ok
|}.

Lemma length_unread s : ok s -> Z.of_nat (length (unread s)) = size s.
Proof. intros [H _]. unfold unread, size. rewrite length_drop. lia. Qed.

(** [read] in terms of the unread characters. *)
Lemma read_unread s n :
  ok s -> 0 <= n < 2 ^ 31 ->
  read s n = if bool_decide (n <= size s)
             then Some (take (Z.to_nat n) (unread s),
                        if bool_decide (n = size s) then mk_stream [] 0 else mk_stream (vch s) (nReadPos s + n))
             else None.
Proof.
  intros [H1 H2] Hn. unfold read, copy_out, size. change (2 ^ 31) with 2147483648 in *.
  destruct (Z.ltb_spec n 0); [lia|]. rewrite u32_small by (change (2 ^ 32) with 4294967296; lia).
  destruct (Z.leb_spec (Z.of_nat (length (vch s))) (nReadPos s + n)).
  - destruct (Z.ltb_spec (Z.of_nat (length (vch s))) (nReadPos s + n)).
    + by rewrite bool_decide_false by lia.
    + rewrite !bool_decide_true by lia. done.
  - rewrite !(bool_decide_true (_ <= _)), bool_decide_false by lia. done.
Qed.

#[global] Instance stream_laws : StreamLaws CDataStream.
Proof.
  split; simpl; intros s n Hok Hn; rewrite (length_unread _ Hok), (read_unread _ _ Hok Hn); intros Hl.
  - rewrite bool_decide_true by done. eexists. split; [done|]. pose proof Hok as [H1 H2].
    case_bool_decide as E.
    + split; [|split; simpl; lia]. simpl. symmetry. apply drop_ge.
      pose proof (length_unread s Hok). unfold size in *. lia.
    + unfold unread. cbn [vch nReadPos]. rewrite drop_drop, <- Z2Nat.inj_add by lia. split; [done|].
      unfold ok, size in *. simpl. lia.
  - by rewrite bool_decide_false by lia.
Qed.

End CDataStream.

(** ** Codecs *)

(** The overloads of one C++ type.  [None] is a thrown exception; [wf] are the
    values the C++ type can hold. *)
Record Codec (A : Type) := mk_codec {
  wf : A -> Prop;
  GetSerializeSize : A -> option Z;
  Serialize : A -> option (list Z);
  Unserialize : forall {S : Type} `{Stream S}, S -> option (A * S)
}.
Arguments wf {A} c a.
Arguments GetSerializeSize {A} c a.
Arguments Serialize {A} c a.
Arguments Unserialize {A} c {S H} s.
Arguments mk_codec {A} wf GetSerializeSize Serialize Unserialize.

(** Reading gives back what was written and leaves the rest, in every stream;
    the announced size is the number of bytes written (as an unsigned int). *)
Definition reads {A} (c : Codec A) (a : A) (bs : list Z) : Prop :=
  forall (S : Type) (HS : Stream S) (_ : StreamLaws S) (s : S) rest,
    stream_ok s -> contents s = bs ++ rest ->
    exists s', Unserialize c s = Some (a, s') /\ contents s' = rest /\ stream_ok s'.

Class Lawful {A} (c : Codec A) : Prop := lawful : forall a, wf c a ->
  exists bs, Serialize c a = Some bs /\ Forall is_byte bs /\
    GetSerializeSize c a = Some (u32 (Z.of_nat (length bs))) /\ reads c a bs.

(** *** Fundamental types: [WRITEDATA] and [READDATA] *)

Definition uint_codec (n : nat) : Codec Z := mk_codec
  (fun a => 0 <= a < 256 ^ Z.of_nat n)
  (fun _ => Some (Z.of_nat n))
  (fun a => Some (le_bytes n a))
  (fun (S : Type) (_ : Stream S) (s : S) => '(b, s') ← read s (Z.of_nat n); Some (le_val b, s')).

Definition int_codec (n : nat) : Codec Z := mk_codec
  (fun a => - 2 ^ (8 * Z.of_nat n - 1) <= a < 2 ^ (8 * Z.of_nat n - 1))
  (fun _ => Some (Z.of_nat n))
  (fun a => Some (le_bytes n a))
  (fun (S : Type) (_ : Stream S) (s : S) => '(b, s') ← read s (Z.of_nat n); Some (swrap (8 * Z.of_nat n) (le_val b), s')).

Definition bool_codec : Codec bool := mk_codec
  (fun _ => True)
  (fun _ => Some 1)
  (fun a : bool => Some [if a then 1 else 0])
  (fun (S : Type) (_ : Stream S) (s : S) => '(b, s') ← read s 1; Some (negb (rd b 0 =? 0), s')).

(** [uint256], [uint160]: as their value; the bytes are those of
    [base_uint::Serialize]. *)
Definition uint256_codec : Codec Z := uint_codec 32.
Definition uint160_codec : Codec Z := uint_codec 20.

(** *** Compact size *)

Definition MAX_SIZE : Z := 0x02000000.

Definition GetSizeOfCompactSize (nSize : Z) : Z :=
  if nSize <? 253 then 1
  else if nSize <=? 0xffff then 1 + 2
  else if nSize <=? 0xffffffff then 1 + 4
  else 1 + 8.

Definition WriteCompactSize (nSize : Z) : list Z :=
  if nSize <? 253 then [u8 nSize]
  else if nSize <=? 0xffff then 253 :: le_bytes 2 nSize
  else if nSize <=? 0xffffffff then 254 :: le_bytes 4 nSize
  else 255 :: le_bytes 8 nSize.

Definition ReadCompactSize {S : Type} `{Stream S} (s : S) : option (Z * S) :=
  '(ch, s) ← Unserialize (uint_codec 1) s;
  '(nSizeRet, s) ←
    (if ch <? 253 then Some (ch, s)
     else if ch =? 253 then Unserialize (uint_codec 2) s
     else if ch =? 254 then Unserialize (uint_codec 4) s
     else Unserialize (uint_codec 8) s);
  if MAX_SIZE <? nSizeRet then None else Some (nSizeRet, s).

(** *** Byte strings *)

(** [std::string] *)
Definition string_codec : Codec (list Z) := mk_codec
  (fun a => Forall is_byte a /\ Z.of_nat (length a) <= MAX_SIZE)
  (fun a => Some (u32 (GetSizeOfCompactSize (Z.of_nat (length a)) + Z.of_nat (length a))))
  (fun a => Some (WriteCompactSize (Z.of_nat (length a)) ++ a))
  (fun (S : Type) (_ : Stream S) (s : S) =>
     '(nSize, s) ← ReadCompactSize s;
     let nSize := u32 nSize in
     if negb (nSize =? 0) then read s nSize else Some ([], s)).

(** The loop of [Unserialize_impl] for a vector of one-byte elements; [v] is
    the vector so far.  Seven rounds of 5000000 bytes reach MAX_SIZE. *)
Fixpoint unser_blocks {S : Type} `{Stream S} (fuel : nat) (i nSize : Z) (v : list Z) (s : S) : option (list Z * S) :=
  if i <? nSize then
    match fuel with
    | O => None
    | Datatypes.S fuel' =>
        let blk := Z.min (nSize - i) (1 + 4999999) in
        '(b, s) ← read s blk;
        unser_blocks fuel' (i + blk) nSize (v ++ b) s
    end
  else Some (v, s).

(** [std::vector<unsigned char>], and [CScript], which derives from it. *)
Definition bytes_codec : Codec (list Z) := mk_codec
  (fun a => Forall is_byte a /\ Z.of_nat (length a) <= MAX_SIZE)
  (fun a => Some (u32 (GetSizeOfCompactSize (Z.of_nat (length a)) + Z.of_nat (length a))))
  (fun a => Some (WriteCompactSize (Z.of_nat (length a)) ++ a))
  (fun (S : Type) (_ : Stream S) (s : S) => '(nSize, s) ← ReadCompactSize s; unser_blocks 7 0 (u32 nSize) [] s).

(** *** Containers *)

(** The loops over the elements. *)
Fixpoint sizes {A} (c : Codec A) (v : list A) (nSize : Z) : option Z :=
  match v with
  | [] => Some nSize
  | a :: v' => n ← GetSerializeSize c a; sizes c v' (u32 (nSize + n))
  end.

Fixpoint writes {A} (c : Codec A) (v : list A) : option (list Z) :=
  match v with
  | [] => Some []
  | a :: v' => b ← Serialize c a; bs ← writes c v'; Some (b ++ bs)
  end.

Fixpoint read_n {A} (c : Codec A) (n : nat) {S : Type} `{Stream S} (v : list A) (s : S) : option (list A * S) :=
  match n with
  | O => Some (v, s)
  | Datatypes.S n' => '(a, s) ← Unserialize c s; read_n c n' (v ++ [a]) s
  end.

(** [while (nMid < nSize)] of [Unserialize_impl]; [block] is
    [5000000 / sizeof(T)].  Every round reads at least one element. *)
Fixpoint unser_rounds {A} (c : Codec A) (block : Z) (fuel : nat) {S : Type} `{Stream S}
    (nMid nSize : Z) (v : list A) (s : S) : option (list A * S) :=
  if nMid <? nSize then
    match fuel with
    | O => None
    | Datatypes.S fuel' =>
        let nMid' := nMid + block in
        let nMid' := if nSize <? nMid' then nSize else nMid' in
        '(v, s) ← read_n c (Z.to_nat (nMid' - nMid)) v s;
        unser_rounds c block fuel' nMid' nSize v s
    end
  else Some (v, s).

Definition vector_codec {A} (c : Codec A) (sizeof : Z) : Codec (list A) := mk_codec
  (fun v => Forall (wf c) v /\ Z.of_nat (length v) <= MAX_SIZE)
  (fun v => sizes c v (GetSizeOfCompactSize (Z.of_nat (length v))))
  (fun v => bs ← writes c v; Some (WriteCompactSize (Z.of_nat (length v)) ++ bs))
  (fun (S : Type) (_ : Stream S) (s : S) =>
     '(nSize, s) ← ReadCompactSize s;
     unser_rounds c (5000000 / sizeof) (Z.to_nat (u32 nSize)) 0 (u32 nSize) [] s).

Definition pair_codec {A B} (ca : Codec A) (cb : Codec B) : Codec (A * B) := mk_codec
  (fun p => wf ca p.1 /\ wf cb p.2)
  (fun p => m ← GetSerializeSize ca p.1; n ← GetSerializeSize cb p.2; Some (u32 (m + n)))
  (fun p => a ← Serialize ca p.1; b ← Serialize cb p.2; Some (a ++ b))
  (fun (S : Type) (_ : Stream S) (s : S) => '(a, s) ← Unserialize ca s; '(b, s) ← Unserialize cb s; Some ((a, b), s)).

Definition tuple3_codec {A B C} (ca : Codec A) (cb : Codec B) (cc : Codec C) : Codec (A * B * C) :=
  pair_codec (pair_codec ca cb) cc.

Definition tuple4_codec {A B C D} (ca : Codec A) (cb : Codec B) (cc : Codec C) (cd : Codec D)
    : Codec (A * B * C * D) := pair_codec (tuple3_codec ca cb cc) cd.

(** A class whose [IMPLEMENT_SERIALIZE] reads and writes the fields given by
    [fields], in order. *)
Definition class_codec {A B} (c : Codec A) (build : A -> B) (fields : B -> A) : Codec B := mk_codec
  (fun b => wf c (fields b))
  (fun b => GetSerializeSize c (fields b))
  (fun b => Serialize c (fields b))
  (fun (S : Type) (_ : Stream S) (s : S) => '(a, s) ← Unserialize c s; Some (build a, s)).

(** [std::map] and [std::set]: the elements in key order; [insert] of a key
    that is present does nothing. *)
Section ordered.
Context {K V : Type} (key : V -> K) (lt : K -> K -> bool).

Fixpoint ordered_insert (x : V) (m : list V) : list V :=
  match m with
  | [] => [x]
  | y :: m' =>
      if lt (key x) (key y) then x :: m
      else if lt (key y) (key x) then y :: ordered_insert x m'
      else m
  end.

Fixpoint unser_inserts (c : Codec V) (n : nat) {S : Type} `{Stream S} (m : list V) (s : S) : option (list V * S) :=
  match n with
  | O => Some (m, s)
  | Datatypes.S n' => '(x, s) ← Unserialize c s; unser_inserts c n' (ordered_insert x m) s
  end.

(** Strictly increasing keys. *)
Fixpoint increasing (m : list V) : Prop :=
  match m with
  | [] => True
  | x :: m' => Forall (fun y => lt (key x) (key y) = true) m' /\ increasing m'
  end.

Definition ordered_codec (c : Codec V) : Codec (list V) := mk_codec
  (fun m => Forall (wf c) m /\ increasing m /\ Z.of_nat (length m) <= MAX_SIZE)
  (fun m => sizes c m (GetSizeOfCompactSize (Z.of_nat (length m))))
  (fun m => bs ← writes c m; Some (WriteCompactSize (Z.of_nat (length m)) ++ bs))
  (fun (S : Type) (_ : Stream S) (s : S) => '(nSize, s) ← ReadCompactSize s; unser_inserts c (Z.to_nat (u32 nSize)) [] s).
End ordered.

Definition map_codec {K T} (lt : K -> K -> bool) (ck : Codec K) (ct : Codec T) : Codec (list (K * T)) :=
  ordered_codec fst lt (pair_codec ck ct).

Definition set_codec {K} (lt : K -> K -> bool) (ck : Codec K) : Codec (list K) := ordered_codec id lt ck.

(** ** Laws *)

Section reading.
Context {S : Type} {HS : Stream S} {HL : StreamLaws S}.

Lemma read_prefix (s : S) b rest :
  stream_ok s -> contents s = b ++ rest -> Z.of_nat (length b) < 2 ^ 31 ->
  exists s', read s (Z.of_nat (length b)) = Some (b, s') /\ contents s' = rest /\ stream_ok s'.
Proof.
  intros Hok E Hl. destruct (read_enough s (Z.of_nat (length b))) as (s' & Er & Ec & Ho); [done|lia| |].
  { rewrite E, length_app. lia. }
  rewrite Nat2Z.id, E, take_app_length in Er. rewrite Nat2Z.id, E, drop_app_length in Ec. eauto.
Qed.

Lemma read_prefix_n (s : S) n b rest :
  stream_ok s -> contents s = b ++ rest -> Z.of_nat (length b) = n -> n < 2 ^ 31 ->
  exists s', read s n = Some (b, s') /\ contents s' = rest /\ stream_ok s'.
Proof. intros ? ? <- ?. by apply read_prefix. Qed.
End reading.

Lemma u32_app (a b : list Z) m n :
  m = u32 (Z.of_nat (length a)) -> n = u32 (Z.of_nat (length b)) ->
  u32 (m + n) = u32 (Z.of_nat (length (a ++ b))).
Proof. intros -> ->. unfold u32. rewrite <- Zplus_mod, length_app. f_equal. lia. Qed.

Lemma uint_reads n a :
  0 <= a < 256 ^ Z.of_nat n -> Z.of_nat n < 2 ^ 31 -> reads (uint_codec n) a (le_bytes n a).
Proof.
  intros Ha Hn S HS HL s rest Hok E. simpl.
  destruct (read_prefix_n s (Z.of_nat n) _ _ Hok E) as (s' & -> & Hc & Ho); [by rewrite length_le_bytes|done|].
  simpl. exists s'. split; [|done]. rewrite le_val_le_bytes, Z.mod_small by done. done.
Qed.

Class FundamentalSize (n : nat) : Prop := fundamental_size : (0 < n)%nat /\ Z.of_nat n < 2 ^ 31.
#[export] Hint Extern 0 (FundamentalSize _) => split; lia : typeclass_instances.

#[export] Instance uint_lawful n : FundamentalSize n -> Lawful (uint_codec n).
Proof.
  intros [H0 Hn] a Ha. exists (le_bytes n a). split; [done|]. split; [apply le_bytes_is_byte|].
  split; [|by apply uint_reads]. simpl. rewrite length_le_bytes, u32_small by lia. done.
Qed.

Lemma swrap_mod n a : 0 < n -> swrap n (a mod 2 ^ n) = swrap n a.
Proof.
  intros Hn. unfold swrap. rewrite Zplus_mod_idemp_l. done.
Qed.

#[export] Instance int_lawful n : FundamentalSize n -> Lawful (int_codec n).
Proof.
  intros [H0 Hn] a Ha. exists (le_bytes n a). split; [done|]. split; [apply le_bytes_is_byte|]. split.
  { simpl. rewrite length_le_bytes, u32_small by lia. done. }
  intros S HS HL s rest Hok E. simpl.
  destruct (read_prefix_n s (Z.of_nat n) _ _ Hok E) as (s' & -> & Hc & Ho); [by rewrite length_le_bytes|done|].
  simpl. exists s'. split; [|done]. rewrite le_val_le_bytes, pow256, swrap_mod, swrap_small by (simpl in Ha; lia || done).
  done.
Qed.

#[export] Instance bool_lawful : Lawful bool_codec.
Proof.
  intros a _. exists [if a then 1 else 0]. split; [done|]. split; [by destruct a; repeat constructor|].
  split; [done|]. intros S HS HL s rest Hok E. simpl.
  destruct (read_prefix_n s 1 _ _ Hok E) as (s' & -> & Hc & Ho); [done..|].
  simpl. exists s'. by destruct a.
Qed.

(** *** Compact sizes *)

Lemma WriteCompactSize_bytes n : Forall is_byte (WriteCompactSize n).
Proof.
  unfold WriteCompactSize. repeat case_match; repeat constructor; try done; try apply le_bytes_is_byte;
    apply u8_range.
Qed.

Lemma length_WriteCompactSize n : Z.of_nat (length (WriteCompactSize n)) = GetSizeOfCompactSize n.
Proof.
  unfold WriteCompactSize, GetSizeOfCompactSize. repeat case_match; cbn [length]; rewrite ?length_le_bytes; done.
Qed.

Lemma read_head {S} {HS : Stream S} {HL : StreamLaws S} (s : S) hd rest :
  0 <= hd < 256 -> stream_ok s -> contents s = hd :: rest ->
  exists s', Unserialize (uint_codec 1) s = Some (hd, s') /\ contents s' = rest /\ stream_ok s'.
Proof.
  intros Hh Hok E. apply (uint_reads 1 hd Hh ltac:(done) S HS HL); [done|].
  rewrite E. simpl. by rewrite Z.mod_small by done.
Qed.

Lemma ReadCompactSize_write {S} {HS : Stream S} {HL : StreamLaws S} (s : S) n rest :
  0 <= n <= MAX_SIZE -> stream_ok s -> contents s = WriteCompactSize n ++ rest ->
  exists s', ReadCompactSize s = Some (n, s') /\ contents s' = rest /\ stream_ok s'.
Proof.
  intros Hn Hok E.
  assert (forall k (hd : Z) (s1 : S), 0 <= n < 256 ^ Z.of_nat k -> Z.of_nat k < 2 ^ 31 ->
    contents s1 = le_bytes k n ++ rest -> stream_ok s1 ->
    exists s', ('(nSizeRet, s) ← Unserialize (uint_codec k) s1;
                if MAX_SIZE <? nSizeRet then None else Some (nSizeRet, s)) = Some (n, s') /\
      contents s' = rest /\ stream_ok s') as Hk.
  { intros k _ s1 Hn' Hk Ec1 Ho1. destruct (uint_reads k n Hn' Hk S HS HL s1 rest Ho1 Ec1) as (s' & -> & ? & ?).
    cbn [mbind option_bind]. rewrite (proj2 (Z.ltb_ge _ _)) by lia. eauto. }
  unfold ReadCompactSize. unfold WriteCompactSize, MAX_SIZE in *.
  destruct (Z.ltb_spec n 253); [|destruct (Z.leb_spec n 0xffff); [|rewrite (proj2 (Z.leb_le n 0xffffffff)) in E by lia]].
  - rewrite u8_small in E by lia. destruct (read_head s n rest) as (s' & -> & ? & ?); [lia|done..|].
    cbn [mbind option_bind]. rewrite (proj2 (Z.ltb_lt n 253)) by done. cbn [mbind option_bind].
    rewrite (proj2 (Z.ltb_ge _ n)) by lia. eauto.
  - destruct (read_head s 253 (le_bytes 2 n ++ rest)) as (s1 & -> & ? & ?); [lia|done..|].
    apply (Hk 2%nat 253); done || lia.
  - destruct (read_head s 254 (le_bytes 4 n ++ rest)) as (s1 & -> & ? & ?); [lia|done..|].
    apply (Hk 4%nat 254); done || lia.
Qed.

(** *** Byte strings *)

#[export] Instance string_lawful : Lawful string_codec.
Proof.
  intros a [Hb Hl]. exists (WriteCompactSize (Z.of_nat (length a)) ++ a). split; [done|].
  split; [apply Forall_app; split; [apply WriteCompactSize_bytes|done]|].
  split; [cbn; rewrite length_app, Nat2Z.inj_add, length_WriteCompactSize; done|].
  intros S HS HL s rest Hok E. rewrite <- app_assoc in E.
  destruct (ReadCompactSize_write s (Z.of_nat (length a)) _ ltac:(lia) Hok E) as (s1 & E1 & Hc1 & Ho1).
  cbn [Unserialize string_codec]. rewrite E1. cbn [mbind option_bind]. unfold MAX_SIZE in Hl. rewrite u32_small by lia.
  destruct (Z.eqb_spec (Z.of_nat (length a)) 0) as [E0|E0]; cbn [negb].
  - destruct a; [|done]. eauto.
  - destruct (read_prefix s1 a rest) as (s2 & -> & ? & ?); [done..|lia|]. eauto.
Qed.

Lemma unser_blocks_spec {S} {HS : Stream S} {HL : StreamLaws S} fuel : forall (s : S) i v b rest,
  0 <= i -> Z.of_nat (length b) <= 5000000 * Z.of_nat fuel -> i + Z.of_nat (length b) < 2 ^ 31 ->
  stream_ok s -> contents s = b ++ rest ->
  exists s', unser_blocks fuel i (i + Z.of_nat (length b)) v s = Some (v ++ b, s') /\
    contents s' = rest /\ stream_ok s'.
Proof.
  induction fuel as [|fuel IH]; intros s i v b rest Hi Hf Hl Hok E.
  - destruct b; [|simpl in Hf; lia]. simpl in *. rewrite (proj2 (Z.ltb_ge i _)), app_nil_r by lia. eauto.
  - cbn [unser_blocks]. destruct (Z.ltb_spec i (i + Z.of_nat (length b))).
    2:{ destruct b; [|simpl in *; lia]. rewrite app_nil_r. eauto. }
    set (blk := Z.min _ _). assert (0 < blk <= Z.of_nat (length b)) as Hblk by lia.
    assert (b = take (Z.to_nat blk) b ++ drop (Z.to_nat blk) b) as Eb by (by rewrite take_drop).
    rewrite Eb, <- app_assoc in E.
    destruct (read_prefix_n s blk _ _ Hok E) as (s1 & -> & Ec1 & Ho1); [rewrite length_take; lia|lia|].
    cbn [mbind option_bind].
    destruct (IH s1 (i + blk) (v ++ take (Z.to_nat blk) b) (drop (Z.to_nat blk) b) rest) as (s' & E' & ? & ?);
      [lia|rewrite length_drop; lia|rewrite length_drop; lia|done..|].
    rewrite length_drop in E'. rewrite <- app_assoc, take_drop in E'.
    replace (i + blk + Z.of_nat (length b - Z.to_nat blk)) with (i + Z.of_nat (length b)) in E' by lia. eauto.
Qed.

#[export] Instance bytes_lawful : Lawful bytes_codec.
Proof.
  intros a [Hb Hl]. exists (WriteCompactSize (Z.of_nat (length a)) ++ a). split; [done|].
  split; [apply Forall_app; split; [apply WriteCompactSize_bytes|done]|].
  split; [cbn; rewrite length_app, Nat2Z.inj_add, length_WriteCompactSize; done|].
  intros S HS HL s rest Hok E. rewrite <- app_assoc in E.
  destruct (ReadCompactSize_write s (Z.of_nat (length a)) _ ltac:(lia) Hok E) as (s1 & E1 & Hc1 & Ho1).
  cbn [Unserialize bytes_codec]. rewrite E1. cbn [mbind option_bind]. unfold MAX_SIZE in Hl. rewrite u32_small by lia.
  apply (unser_blocks_spec 7 s1 0 [] a rest); done || lia.
Qed.

(** *** Containers *)

Section containers.
Context {A : Type} (c : Codec A) {Hc : Lawful c}.

Lemma writes_spec v : Forall (wf c) v ->
  exists bss, writes c v = Some (concat bss) /\ Forall is_byte (concat bss) /\
    Forall2 (fun a b => reads c a b) v bss /\
    forall n, sizes c v (u32 n) = Some (u32 (n + Z.of_nat (length (concat bss)))).
Proof.
  induction 1 as [|a v Ha Hv (bss & E1 & E2 & E3 & E4)].
  { exists []. split_and!; try constructor. intros n. simpl. by rewrite Z.add_0_r. }
  destruct (Hc a Ha) as (b & Eb & Hb & Es & Hr). exists (b :: bss). simpl. rewrite Eb. simpl. rewrite E1. simpl.
  split; [done|]. split; [by apply Forall_app|]. split; [by constructor|].
  intros n. rewrite Es. cbn [mbind option_bind].
  replace (u32 (u32 n + _)) with (u32 (n + Z.of_nat (length b))) by (unfold u32; by rewrite <- Zplus_mod).
  rewrite E4, length_app. do 2 f_equal. lia.
Qed.

Lemma read_n_spec {S} {HS : Stream S} {HL : StreamLaws S} v bss : Forall2 (fun a b => reads c a b) v bss ->
  forall acc (s : S) rest, stream_ok s -> contents s = concat bss ++ rest ->
  exists s', read_n c (length v) acc s = Some (acc ++ v, s') /\ contents s' = rest /\ stream_ok s'.
Proof.
  induction 1 as [|a b v bss Hab Hv IH]; intros acc s rest Hok E; simpl in *.
  { rewrite app_nil_r. eauto. }
  rewrite <- app_assoc in E. destruct (Hab S HS HL s _ Hok E) as (s1 & -> & E1 & Ho1). simpl.
  destruct (IH (acc ++ [a]) s1 rest Ho1 E1) as (s' & E' & ? & ?). rewrite <- app_assoc in E'. eauto.
Qed.

Lemma unser_rounds_spec {S} {HS : Stream S} {HL : StreamLaws S} block fuel : 0 < block ->
  forall v bss acc (s : S) rest, Forall2 (fun a b => reads c a b) v bss ->
  (length v <= fuel)%nat -> stream_ok s -> contents s = concat bss ++ rest ->
  exists s', unser_rounds c block fuel (Z.of_nat (length acc)) (Z.of_nat (length (acc ++ v))) acc s =
    Some (acc ++ v, s') /\ contents s' = rest /\ stream_ok s'.
Proof.
  intros Hb. induction fuel as [|fuel IH]; intros v bss acc s rest Hv Hf Hok E.
  - destruct v; [|simpl in Hf; lia]. inversion Hv; subst. simpl in *. rewrite app_nil_r, Z.ltb_irrefl. eauto.
  - cbn [unser_rounds]. destruct (Z.ltb_spec (Z.of_nat (length acc)) (Z.of_nat (length (acc ++ v)))) as [Hl|Hl];
      rewrite length_app in Hl.
    2:{ destruct v; [|simpl in Hl; lia]. inversion Hv; subst. rewrite app_nil_r. eauto. }
    set (mid := if _ <? _ then _ else _).
    assert (exists k, (0 < k <= length v)%nat /\ mid = Z.of_nat (length acc + k)) as (k & Hk & Em).
    { exists (Z.to_nat (Z.min block (Z.of_nat (length v)))). unfold mid. rewrite length_app. case_match; bool_to_prop; lia. }
    rewrite Em. replace (Z.to_nat (Z.of_nat (length acc + k) - Z.of_nat (length acc))) with k by lia.
    pose proof (Forall2_take _ _ _ k Hv) as H1. pose proof (Forall2_drop _ _ _ k Hv) as H2.
    rewrite <- (take_drop k bss), concat_app, <- app_assoc in E.
    destruct (read_n_spec _ _ H1 acc s _ Hok E) as (s1 & E1 & Ec1 & Ho1).
    rewrite length_take, Nat.min_l in E1 by lia. rewrite E1. cbn [mbind option_bind].
    destruct (IH (drop k v) (drop k bss) (acc ++ take k v) s1 rest H2) as (s' & E' & ? & ?);
      [rewrite length_drop; lia|done..|].
    rewrite <- app_assoc, take_drop in E'. rewrite length_app, length_take, Nat.min_l in E' by lia. eauto.
Qed.

#[export] Instance vector_lawful sizeof : 0 < sizeof <= 5000000 -> Lawful (vector_codec c sizeof).
Proof.
  intros Hs v [Hv Hl]. destruct (writes_spec v Hv) as (bss & E1 & E2 & E3 & E4).
  exists (WriteCompactSize (Z.of_nat (length v)) ++ concat bss). cbn -[unser_rounds]. rewrite E1. split; [done|].
  split; [apply Forall_app; split; [apply WriteCompactSize_bytes|done]|]. split.
  { rewrite length_app, Nat2Z.inj_add, length_WriteCompactSize, <- E4. f_equal. symmetry. apply u32_small.
    unfold GetSizeOfCompactSize. repeat case_match; lia. }
  intros S HS HL s rest Hok E. rewrite <- app_assoc in E.
  destruct (ReadCompactSize_write s (Z.of_nat (length v)) _ ltac:(lia) Hok E) as (s1 & Er & Hc1 & Ho1).
  cbn [Unserialize vector_codec]. rewrite Er. cbn [mbind option_bind]. unfold MAX_SIZE in Hl. rewrite u32_small by lia.
  rewrite Nat2Z.id. apply (unser_rounds_spec (5000000 / sizeof) (length v)) with (acc := []) (bss := bss); try done.
  apply Z.div_str_pos. lia.
Qed.
End containers.

#[export] Instance pair_lawful {A B} (ca : Codec A) (cb : Codec B) :
  Lawful ca -> Lawful cb -> Lawful (pair_codec ca cb).
Proof.
  intros Ha Hb [a b] [Wa Wb]. simpl in Wa, Wb.
  destruct (Ha a Wa) as (ba & Ea & Fa & Sa & Ra). destruct (Hb b Wb) as (bb & Eb & Fb & Sb & Rb).
  exists (ba ++ bb). cbn. rewrite Ea, Eb, Sa, Sb. cbn. split; [done|]. split; [by apply Forall_app|].
  split; [f_equal; by apply u32_app|]. intros S HS HL s rest Hok E. rewrite <- app_assoc in E. cbn.
  destruct (Ra S HS HL s _ Hok E) as (s1 & -> & E1 & Ho1). cbn.
  destruct (Rb S HS HL s1 _ Ho1 E1) as (s2 & -> & E2 & Ho2). cbn. eauto.
Qed.

Lemma class_reads {A B} (c : Codec A) (build : A -> B) (fields : B -> A) b bs :
  build (fields b) = b -> reads c (fields b) bs -> reads (class_codec c build fields) b bs.
Proof.
  intros Hbf Hr S HS HL s rest Hok E. cbn. destruct (Hr S HS HL s rest Hok E) as (s' & -> & ? & ?). cbn.
  rewrite Hbf. eauto.
Qed.

Lemma class_lawful {A B} (c : Codec A) (build : A -> B) (fields : B -> A) :
  (forall b, build (fields b) = b) -> Lawful c -> Lawful (class_codec c build fields).
Proof.
  intros Hbf Hc b Wb. destruct (Hc _ Wb) as (bs & E1 & E2 & E3 & E4). exists bs. split_and!; try done.
  by apply class_reads.
Qed.

Section ordered_laws.
Context {K V : Type} (key : V -> K) (lt : K -> K -> bool) (c : Codec V) {Hc : Lawful c}.
Context (lt_asym : forall a b, lt a b = true -> lt b a = false).

Lemma ordered_insert_last x m :
  Forall (fun y => lt (key y) (key x) = true) m -> ordered_insert key lt x m = m ++ [x].
Proof.
  induction 1 as [|y m Hy Hm IH]; simpl; [done|]. rewrite (lt_asym _ _ Hy), Hy. by f_equal.
Qed.

Lemma increasing_app m1 x m2 :
  increasing key lt (m1 ++ x :: m2) -> Forall (fun y => lt (key y) (key x) = true) m1.
Proof.
  induction m1 as [|y m1 IH]; simpl; [constructor|]. intros [Hf Hi]. constructor; [|by apply IH].
  rewrite Forall_app, Forall_cons in Hf. apply Hf.
Qed.

Lemma unser_inserts_spec {S} {HS : Stream S} {HL : StreamLaws S} v bss :
  Forall2 (fun a b => reads c a b) v bss ->
  forall acc (s : S) rest, increasing key lt (acc ++ v) -> stream_ok s -> contents s = concat bss ++ rest ->
  exists s', unser_inserts key lt c (length v) acc s = Some (acc ++ v, s') /\ contents s' = rest /\ stream_ok s'.
Proof.
  induction 1 as [|a b v bss Hab Hv IH]; intros acc s rest Hi Hok E; simpl in *.
  { rewrite app_nil_r. eauto. }
  rewrite <- app_assoc in E. destruct (Hab S HS HL s _ Hok E) as (s1 & -> & E1 & Ho1). simpl.
  rewrite ordered_insert_last by (by eapply increasing_app).
  destruct (IH (acc ++ [a]) s1 rest) as (s' & E' & ? & ?); [by rewrite <- app_assoc|done..|].
  rewrite <- app_assoc in E'. eauto.
Qed.

Lemma ordered_lawful : Lawful (ordered_codec key lt c).
Proof.
  intros v (Hv & Hi & Hl). destruct (writes_spec c v Hv) as (bss & E1 & E2 & E3 & E4).
  exists (WriteCompactSize (Z.of_nat (length v)) ++ concat bss). cbn -[unser_inserts]. rewrite E1. split; [done|].
  split; [apply Forall_app; split; [apply WriteCompactSize_bytes|done]|]. split.
  { rewrite length_app, Nat2Z.inj_add, length_WriteCompactSize, <- E4. f_equal. symmetry. apply u32_small.
    unfold GetSizeOfCompactSize. repeat case_match; lia. }
  intros S HS HL s rest Hok E. rewrite <- app_assoc in E.
  destruct (ReadCompactSize_write s (Z.of_nat (length v)) _ ltac:(lia) Hok E) as (s1 & Er & Hc1 & Ho1).
  cbn [Unserialize ordered_codec]. rewrite Er. cbn [mbind option_bind]. unfold MAX_SIZE in Hl. rewrite u32_small by lia.
  rewrite Nat2Z.id. by apply (unser_inserts_spec v bss E3 []).
Qed.
End ordered_laws.

(** ** Properties *)

(** A size is written in 1, 3, 5 or 9 bytes as [GetSizeOfCompactSize]
    announces, and is read back exactly, leaving the rest of the stream, when
    it is at most MAX_SIZE; a larger one makes the reader throw. *)
Theorem compact_size_round_trip n rest :
  0 <= n < 2 ^ 64 ->
  Z.of_nat (length (WriteCompactSize n)) = GetSizeOfCompactSize n /\
  ReadCompactSize (WriteCompactSize n ++ rest) = if MAX_SIZE <? n then None else Some (n, rest).
Proof.
  intros Hn. split; [apply length_WriteCompactSize|]. destruct (Z.ltb_spec MAX_SIZE n) as [Hm|Hm].
  - unfold MAX_SIZE in Hm. unfold ReadCompactSize, WriteCompactSize.
    rewrite !(proj2 (Z.ltb_ge n 253)), (proj2 (Z.leb_gt n 0xffff)) by lia.
    assert (forall k hd, 253 < hd < 256 -> (if hd =? 254 then 4%nat else 8%nat) = k -> 0 <= n < 256 ^ Z.of_nat k ->
      ReadCompactSize ((hd :: le_bytes k n) ++ rest) = None) as H.
    { intros k hd Hh Ek Hk. unfold ReadCompactSize.
      destruct (read_head ((hd :: le_bytes k n) ++ rest) hd (le_bytes k n ++ rest)) as (s1 & -> & E1 & _); [lia|done..|].
      cbn [mbind option_bind]. rewrite (proj2 (Z.ltb_ge hd _)), (proj2 (Z.eqb_neq hd 253)) by lia.
      destruct (uint_reads k n Hk ltac:(destruct (hd =? 254); lia) _ _ list_stream_laws s1 rest Logic.I E1) as (s2 & E2 & _).
      destruct (hd =? 254); subst k; rewrite E2; cbn [mbind option_bind]; by rewrite (proj2 (Z.ltb_lt _ n)) by done. }
    destruct (Z.leb_spec n 0xffffffff); [apply (H 4%nat 254)|apply (H 8%nat 255)]; done || lia.
  - destruct (ReadCompactSize_write (WriteCompactSize n ++ rest) n rest) as (s' & -> & E & _); [lia|done..|].
    by rewrite <- E.
Qed.

Lemma compact_size_round_trip_witness :
  ReadCompactSize (WriteCompactSize 70000 ++ [7]) = Some (70000, [7]) /\
  ReadCompactSize (WriteCompactSize (2 ^ 40) ++ [7]) = None.
Proof.
  split.
  - apply (compact_size_round_trip 70000 [7]). lia.
  - apply (compact_size_round_trip (2 ^ 40) [7]). lia.
Defined.

Module StreamQueue.
Import CDataStream.

Lemma write_unread s b : ok s -> unread (write s b) = unread s ++ b.
Proof. intros [H _]. unfold unread, write. simpl. by rewrite drop_app_le by lia. Qed.

Lemma ignore_unread s n :
  ok s -> 0 <= n < 2 ^ 31 -> ignore s n = snd <$> read s n.
Proof.
  intros Hok Hn. rewrite read_unread by done. destruct Hok as [H1 H2]. unfold ignore, size.
  change (2 ^ 31) with 2147483648 in *. destruct (Z.ltb_spec n 0); [lia|].
  rewrite u32_small by (change (2 ^ 32) with 4294967296; lia).
  repeat case_match; repeat case_bool_decide; bool_to_prop; done || lia.
Qed.

Lemma insert_front s b : ok s -> unread (insert s (nReadPos s) b) = b ++ unread s.
Proof.
  intros [H1 H2]. unfold insert, unread. rewrite Z.eqb_refl. cbn [andb].
  destruct (Z.leb_spec (Z.of_nat (length b)) (nReadPos s)); cbn [vch nReadPos].
  - rewrite drop_app_length' by (rewrite length_take; lia). done.
  - rewrite drop_app_length' by (rewrite length_take; lia). done.
Qed.

(** A CDataStream is a queue of characters: [write] appends, [read] and
    [ignore] take from the front and throw exactly when there are too few,
    [Rewind] puts back what was read since the buffer was last emptied or
    compacted, [Compact] changes nothing, and [insert] and [erase] at the read
    position act on the front; the stream stays well formed. *)
Theorem stream_is_queue s n b :
  ok s -> 0 <= n < 2 ^ 31 -> Z.of_nat (length (vch s) + length b) < 2 ^ 31 ->
  unread (write s b) = unread s ++ b /\ ok (write s b) /\
  (if bool_decide (n <= size s)
   then exists s', read s n = Some (take (Z.to_nat n) (unread s), s') /\ ignore s n = Some s' /\
          unread s' = drop (Z.to_nat n) (unread s) /\ ok s' /\
          (n < size s -> Rewind s' n = (true, s)) /\
          (0 < n -> unread (erase s (nReadPos s) (nReadPos s + n)) = unread s')
   else read s n = None /\ ignore s n = None) /\
  unread (Compact s) = unread s /\ ok (Compact s) /\
  unread (insert s (nReadPos s) b) = b ++ unread s.
Proof.
  intros Hok Hn Hb. pose proof Hok as [H1 H2].
  split; [by apply write_unread|]. split; [unfold ok, write; simpl; rewrite length_app; lia|].
  split; [|split; [unfold unread, Compact; by rewrite drop_0|split;
    [unfold ok, Compact; simpl; rewrite length_drop; lia|by apply insert_front]]].
  rewrite ignore_unread, read_unread by done. case_bool_decide as Hs; [|done]. unfold size in *.
  eexists. split; [done|]. split; [done|].
  destruct (@read_enough CDataStream stream stream_laws s n Hok Hn) as (s' & E & Ec & Ho); [by simpl; rewrite length_unread|].
  simpl in E. rewrite read_unread, bool_decide_true in E by done. unfold size in E. injection E as <-.
  split; [done|]. split; [done|]. split.
  - intros Hlt. rewrite bool_decide_false by lia. unfold Rewind. simpl.
    rewrite (proj2 (Z.ltb_ge _ _)), Z.add_simpl_r by lia. by destruct s.
  - intros _. unfold erase. rewrite Z.eqb_refl. case_bool_decide as En.
    + by rewrite (proj2 (Z.eqb_eq _ _)) by lia.
    + by rewrite (proj2 (Z.eqb_neq _ _)) by lia.
Qed.

Lemma stream_is_queue_witness :
  unread (write (Init [1; 2; 3]) [4]) = [1; 2; 3; 4] /\
  exists s', read (Init [1; 2; 3]) 2 = Some ([1; 2], s') /\ unread s' = [3].
Proof.
  destruct (stream_is_queue (Init [1; 2; 3]) 2 [4]) as (H1 & _ & (s' & H2 & _ & H3 & _) & _).
  - split; simpl; lia.
  - lia.
  - simpl. lia.
  - split; [exact H1|]. exists s'. split; [exact H2|exact H3].
Defined.

End StreamQueue.

(** Containers round trip through a CDataStream: a vector of any type
    whose codec is lawful, and a set or map with its elements in key order,
    written with [<<] after any other data and read with [>>] gives the same
    elements and leaves what follows; [GetSerializeSize] is the number of
    bytes written. *)
Theorem containers_round_trip {A K T} (c : Codec A) (ck : Codec K) (ct : Codec T) (lt : K -> K -> bool)
    sizeof (v : list A) (m : list (K * T)) tail :
  Lawful c -> Lawful ck -> Lawful ct -> (forall a b, lt a b = true -> lt b a = false) ->
  0 < sizeof <= 5000000 -> wf (vector_codec c sizeof) v -> wf (map_codec lt ck ct) m ->
  exists bv bm, Serialize (vector_codec c sizeof) v = Some bv /\ Serialize (map_codec lt ck ct) m = Some bm /\
    GetSerializeSize (vector_codec c sizeof) v = Some (u32 (Z.of_nat (length bv))) /\
    GetSerializeSize (map_codec lt ck ct) m = Some (u32 (Z.of_nat (length bm))) /\
    (Z.of_nat (length (bv ++ bm ++ tail)) < 2 ^ 31 ->
     let s := CDataStream.write (CDataStream.write (CDataStream.write (CDataStream.Init []) bv) bm) tail in
     exists s1 s2, Unserialize (vector_codec c sizeof) s = Some (v, s1) /\
       Unserialize (map_codec lt ck ct) s1 = Some (m, s2) /\ CDataStream.unread s2 = tail).
Proof.
  intros Hc Hk Ht Hlt Hs Wv Wm.
  destruct (vector_lawful c sizeof Hs v Wv) as (bv & E1 & _ & E2 & Rv).
  destruct (ordered_lawful fst lt (pair_codec ck ct) Hlt m Wm) as (bm & E3 & _ & E4 & Rm).
  exists bv, bm. split_and!; try done. intros Hl. set (s := CDataStream.write _ _).
  assert (CDataStream.unread s = bv ++ bm ++ tail) as Es by (unfold s, CDataStream.unread; simpl; by rewrite app_assoc).
  destruct (Rv _ _ CDataStream.stream_laws s (bm ++ tail)) as (s1 & F1 & C1 & O1); [|done|].
  { split; simpl; [lia|]. by rewrite <- app_assoc. }
  destruct (Rm _ _ CDataStream.stream_laws s1 tail O1 C1) as (s2 & F2 & C2 & _). eauto.
Qed.

Lemma containers_round_trip_witness :
  exists s1 s2,
    let s := CDataStream.Init [2; 5; 0; 0; 0; 6; 0; 0; 0; 1; 9; 1; 255] in
    Unserialize (vector_codec (uint_codec 4) 4) s = Some ([5; 6], s1) /\
    Unserialize (map_codec Z.ltb (uint_codec 1) bool_codec) s1 = Some ([(9, true)], s2) /\
    CDataStream.unread s2 = [255].
Proof.
  destruct (containers_round_trip (uint_codec 4) (uint_codec 1) bool_codec Z.ltb 4 [5; 6] [(9, true)] [255])
    as (bv & bm & E1 & E2 & _ & _ & H).
  - apply uint_lawful. split; lia.
  - apply uint_lawful. split; lia.
  - apply bool_lawful.
  - intros a b Hab. apply Z.ltb_lt in Hab. apply Z.ltb_ge. lia.
  - lia.
  - split; [repeat constructor; lia|vm_compute; intros; discriminate].
  - split; [repeat constructor; simpl; lia|]. split; [repeat constructor|vm_compute; intros; discriminate].
  - injection E1 as <-. injection E2 as <-. apply H. vm_compute. reflexivity.
Defined.
