(* ===== verification/Tx.v ===== *)
(** * Transactions (src/src/main.h, src/src/main.cpp, src/src/txinfo.h, src/src/txinfo.cpp)

    The transaction data with its serialization, and the checks that need no
    context.  A uint256 is its value, a script or string a list of bytes; an
    int64 is a Z in range, with the wrap-around of additions written out.  An
    object that is read starts from a default one, whose members the reader
    does not fill are empty or 0. *)

From stdpp Require Import gmap.
From S2P Require Import Prelude Uint256 Bignum Crypto Script Serialize.
Import Script.

(** ** Data *)

Record COutPoint := mk_outpoint { prevhash : Z; out_n : Z }.

Record TxInfoKey := mk_infokey { info_type : Z; keyString : list Z }.

Record CTxInfo := mk_info { info_key : TxInfoKey; info_value : list Z }.

Record CTxIn := mk_txin {
  prevout : COutPoint;
  scriptSig : list Z;
  nSequence : Z;
  infos : list CTxInfo
}.

Record CTxOut := mk_txout {
  subCurrency : list Z;
  nValue : Z;
  scriptPubKey : list Z
}.

(** The members that only minting transactions carry. *)
Record mint_data := mk_mint {
  mint_subCurrencyName : list Z;
  mint_subCurrencyId : list Z;
  mint_numUnits : Z;
  mint_divisibility : Z;
  mint_remintScript : list Z
}.

Record CTransaction := mk_tx {
  nVersion : Z;
  nTime : Z;
  vin : list CTxIn;
  vout : list CTxOut;
  nLockTime : Z;
  mint : mint_data
}.

#[export] Instance COutPoint_eq_dec : EqDecision COutPoint.
Proof. solve_decision. Defined.
#[export] Instance TxInfoKey_eq_dec : EqDecision TxInfoKey.
Proof. solve_decision. Defined.
#[export] Instance CTxInfo_eq_dec : EqDecision CTxInfo.
Proof. solve_decision. Defined.
#[export] Instance CTxIn_eq_dec : EqDecision CTxIn.
Proof. solve_decision. Defined.
#[export] Instance CTxOut_eq_dec : EqDecision CTxOut.
Proof. solve_decision. Defined.

Definition TT_NORMAL : Z := 1.
Definition TT_MINT_SUBCURRENCY : Z := 101.
Definition TT_REMINT_SUBCURRENCY : Z := 102.

(** ** Money *)

Definition COIN : Z := 1000000.
Definition CENT : Z := 10000.
Definition MAX_BLOCK_SIZE : Z := 1000000.
Definition MAX_BLOCK_SIZE_GEN : Z := MAX_BLOCK_SIZE / 2.
Definition MAX_BLOCK_SIGOPS : Z := MAX_BLOCK_SIZE / 50.
Definition BASE_TX_FEE : Z := CENT / 10.
Definition BASE_RELAY_TX_FEE : Z := CENT / 10.
Definition TX_INFO_FEE : Z := CENT / 10.
Definition DUST_FEE : Z := CENT / 10.
Definition MIN_TX_FEE : Z := CENT.
Definition MIN_RELAY_TX_FEE : Z := CENT.
Definition MAX_MONEY : Z := 2000000000 * COIN.
Definition LOCKTIME_THRESHOLD : Z := 500000000.
Definition MoneyRange (v : Z) : bool := (0 <=? v) && (v <=? MAX_MONEY).

Module Tx.

(** ** COutPoint, CTxIn, CTxOut *)

(** [n = -1] for an unsigned int. *)
Definition UINT_MAX : Z := 2 ^ 32 - 1.
Definition outpoint_null : COutPoint := mk_outpoint 0 UINT_MAX.
Definition outpoint_IsNull (o : COutPoint) : bool := (prevhash o =? 0) && (out_n o =? UINT_MAX).
Definition outpoint_lt (a b : COutPoint) : bool :=
  (prevhash a <? prevhash b) || ((prevhash a =? prevhash b) && (out_n a <? out_n b)).
Definition outpoint_eq (a b : COutPoint) : bool := (prevhash a =? prevhash b) && (out_n a =? out_n b).

Definition txin_IsFinal (i : CTxIn) : bool := nSequence i =? UINT_MAX.

Definition txout_null : CTxOut := mk_txout [] (-1) [].
Definition txout_IsNull (o : CTxOut) : bool := nValue o =? -1.
Definition txout_SetEmpty (o : CTxOut) : CTxOut := mk_txout (subCurrency o) 0 [].
Definition txout_IsEmpty (o : CTxOut) : bool := (nValue o =? 0) && bool_decide (scriptPubKey o = []).

(** ** Transaction information entries *)

Definition IsValidIDCharacter (c : Z) : bool :=
  ((97 <=? c) && (c <=? 122)) || ((48 <=? c) && (c <=? 57)) || (c =? 45).

Definition INFO_NORMAL : Z := 0.
Definition INFO_WRITE_ONCE : Z := 1.
Definition INFO_UNIQUE : Z := 2.
Definition INFO_ID : Z := 3.
Definition TX_INFO_MAX_VALID_TYPE : Z := 3.

Definition infokey_IsValid (k : TxInfoKey) : bool :=
  if TX_INFO_MAX_VALID_TYPE <? info_type k then false
  else if bool_decide (keyString k = []) then false
  else forallb IsValidIDCharacter (keyString k).

Definition info_IsValid (i : CTxInfo) : bool :=
  if negb (infokey_IsValid (info_key i)) then false
  else if bool_decide (info_value i = []) then false
  else if info_type (info_key i) =? INFO_ID then forallb IsValidIDCharacter (info_value i)
  else true.

Definition CheckTxInfos (i : CTxIn) : bool := forallb info_IsValid (infos i).

(** ** Serialization *)

(** [sizeof] of the element types of the vectors: the compiler's choice. *)
Class Abi := { sizeof_CTxInfo : Z; sizeof_CTxIn : Z; sizeof_CTxOut : Z; sizeof_CTransaction : Z; sizeof_uint256 : Z }.
Class AbiLaws (B : Abi) : Prop := {
  abi_CTxInfo : 0 < sizeof_CTxInfo <= 5000000;
  abi_CTxIn : 0 < sizeof_CTxIn <= 5000000;
  abi_CTxOut : 0 < sizeof_CTxOut <= 5000000;
  abi_CTransaction : 0 < sizeof_CTransaction <= 5000000;
  abi_uint256 : 0 < sizeof_uint256 <= 5000000
}.

Section codecs.
Context {B : Abi}.

(** FLATDATA of the two members. *)
Definition outpoint_codec : Codec COutPoint :=
  class_codec (pair_codec uint256_codec (uint_codec 4))
    (fun p => mk_outpoint p.1 p.2) (fun o => (prevhash o, out_n o)).

Definition infokey_codec : Codec TxInfoKey :=
  class_codec (pair_codec (uint_codec 1) string_codec)
    (fun p => mk_infokey p.1 p.2) (fun k => (info_type k, keyString k)).

Definition info_codec : Codec CTxInfo :=
  class_codec (pair_codec infokey_codec string_codec) (fun p => mk_info p.1 p.2) (fun i => (info_key i, info_value i)).

Definition txin_codec : Codec CTxIn :=
  class_codec (tuple4_codec outpoint_codec bytes_codec (uint_codec 4) (vector_codec info_codec sizeof_CTxInfo))
    (fun p => mk_txin p.1.1.1 p.1.1.2 p.1.2 p.2)
    (fun i => (prevout i, scriptSig i, nSequence i, infos i)).

Definition txout_codec : Codec CTxOut :=
  class_codec (tuple3_codec bytes_codec (int_codec 8) bytes_codec)
    (fun p => mk_txout p.1.1 p.1.2 p.2) (fun o => (subCurrency o, nValue o, scriptPubKey o)).

Definition no_mint : mint_data := mk_mint [] [] 0 0 [].

(** The [switch] on the version: what follows nLockTime. *)
Definition mint_codec (version : Z) : Codec mint_data :=
  if version =? TT_NORMAL then
    mk_codec (fun m => m = no_mint) (fun _ => Some 0) (fun _ => Some []) (fun S _ s => Some (no_mint, s))
  else if version =? TT_MINT_SUBCURRENCY then
    class_codec (pair_codec (tuple4_codec string_codec bytes_codec (int_codec 8) (int_codec 8)) bytes_codec)
      (fun p => mk_mint p.1.1.1.1 p.1.1.1.2 p.1.1.2 p.1.2 p.2)
      (fun m => (mint_subCurrencyName m, mint_subCurrencyId m, mint_numUnits m, mint_divisibility m, mint_remintScript m))
  else if version =? TT_REMINT_SUBCURRENCY then
    class_codec (tuple3_codec bytes_codec (int_codec 8) bytes_codec)
      (fun p => mk_mint [] p.1.1 p.1.2 0 p.2)
      (fun m => (mint_subCurrencyId m, mint_numUnits m, mint_remintScript m))
  else mk_codec (fun _ => False) (fun _ => None) (fun _ => None) (fun S _ s => None).

Definition header_codec : Codec (Z * Z * list CTxIn * list CTxOut * Z) :=
  pair_codec (tuple4_codec (int_codec 4) (uint_codec 4) (vector_codec txin_codec sizeof_CTxIn)
                (vector_codec txout_codec sizeof_CTxOut)) (uint_codec 4).

Definition tx_header (t : CTransaction) := (nVersion t, nTime t, vin t, vout t, nLockTime t).

Definition tx_codec : Codec CTransaction := mk_codec
  (fun t => Serialize.wf header_codec (tx_header t) /\ Serialize.wf (mint_codec (nVersion t)) (mint t) /\
     (nVersion t = TT_REMINT_SUBCURRENCY -> mint_subCurrencyName (mint t) = [] /\ mint_divisibility (mint t) = 0))
  (fun t => m ← GetSerializeSize header_codec (tx_header t);
            k ← GetSerializeSize (mint_codec (nVersion t)) (mint t); Some (u32 (m + k)))
  (fun t => a ← Serialize header_codec (tx_header t);
            b ← Serialize (mint_codec (nVersion t)) (mint t); Some (a ++ b))
  (fun S _ s =>
     '(h, s) ← Unserialize header_codec s;
     '(m, s) ← Unserialize (mint_codec h.1.1.1.1) s;
     Some (mk_tx h.1.1.1.1 h.1.1.1.2 h.1.1.2 h.1.2 h.2 m, s)).

End codecs.

(** ** CTransaction *)

Section tx.
Context {B : Abi} {D : DigestLib}.

(** [GetHash]: throws for a version that cannot be serialized. *)
Definition GetHash (t : CTransaction) : option Z := le_val ∘ Hash <$> Serialize tx_codec t.

Definition CountInfoTxs (t : CTransaction) : Z :=
  fold_left (fun count txin => u32 (count + Z.of_nat (length (infos txin)))) (vin t) 0.

Definition IsNull (t : CTransaction) : bool := bool_decide (vin t = []) && bool_decide (vout t = []).

(** [IsFinal(nBlockHeight, nBlockTime)]; [best] and [now] are nBestHeight and
    GetAdjustedTime(). *)
Definition IsFinal (best now : Z) (t : CTransaction) (nBlockHeight nBlockTime : Z) : bool :=
  if nLockTime t =? 0 then true
  else
    let nBlockHeight := if nBlockHeight =? 0 then best else nBlockHeight in
    let nBlockTime := if nBlockTime =? 0 then now else nBlockTime in
    if nLockTime t <? (if nLockTime t <? LOCKTIME_THRESHOLD then nBlockHeight else nBlockTime) then true
    else forallb txin_IsFinal (vin t).

(** The two loops of [IsNewerThan]. *)
Definition newer_step (st : bool * Z) (p : CTxIn * CTxIn) : bool * Z :=
  let '(fNewer, nLowest) := st in
  let '(i, old) := p in
  if negb (nSequence i =? nSequence old) then
    let '(fNewer, nLowest) := if nSequence i <=? nLowest then (false, nSequence i) else (fNewer, nLowest) in
    if nSequence old <? nLowest then (true, nSequence old) else (fNewer, nLowest)
  else (fNewer, nLowest).

Definition IsNewerThan (t old : CTransaction) : bool :=
  if negb (bool_decide (length (vin t) = length (vin old))) then false
  else if negb (forallb (fun p => outpoint_eq (prevout p.1) (prevout p.2)) (combine (vin t) (vin old))) then false
  else (fold_left newer_step (combine (vin t) (vin old)) (false, UINT_MAX)).1.

Definition IsCoinBase (t : CTransaction) : bool :=
  match vin t with
  | [i] => outpoint_IsNull (prevout i) && bool_decide (1 <= length (vout t))%nat
  | _ => false
  end.

Definition IsCoinStake (t : CTransaction) : bool :=
  match vin t, vout t with
  | i :: _, o :: _ :: _ => negb (outpoint_IsNull (prevout i)) && txout_IsEmpty o
  | _, _ => false
  end.

(** [GetValueOut]: [None] is the exception. *)
Fixpoint value_out (l : list CTxOut) (nValueOut : Z) : option Z :=
  match l with
  | [] => Some nValueOut
  | o :: l' =>
      let nValueOut := i64 (nValueOut + nValue o) in
      if negb (MoneyRange (nValue o)) || negb (MoneyRange nValueOut) then None
      else value_out l' nValueOut
  end.

Definition GetValueOut (t : CTransaction) : option Z := value_out (vout t) 0.

Definition GetLegacySigOpCount (t : CTransaction) : Z :=
  let nSigOps := fold_left (fun k i => u32 (k + GetSigOpCount (scriptSig i) false)) (vin t) 0 in
  fold_left (fun k o => u32 (k + GetSigOpCount (scriptPubKey o) false)) (vout t) nSigOps.

Inductive GetMinFee_mode := GMF_BLOCK | GMF_RELAY | GMF_SEND.

Definition is_relay (mode : GetMinFee_mode) : bool := match mode with GMF_RELAY => true | _ => false end.

Definition GetMinFee (t : CTransaction) (nBlockSize : Z) (mode : GetMinFee_mode) : option Z :=
  let nBaseFee := if is_relay mode then BASE_RELAY_TX_FEE else BASE_TX_FEE in
  nBytes ← GetSerializeSize tx_codec t;
  let nNewBlockSize := u32 (nBlockSize + nBytes) in
  let nMinFee := i64 ((1 + nBytes / 1000) * nBaseFee) in
  let nMinFee := fold_left (fun f o => if nValue o <? CENT then i64 (f + DUST_FEE) else f) (vout t) nMinFee in
  let nMinFee := i64 (nMinFee + i64 (CountInfoTxs t * TX_INFO_FEE)) in
  let cap f :=
    let f := Z.max f (if is_relay mode then MIN_RELAY_TX_FEE else MIN_TX_FEE) in
    if negb (MoneyRange f) then MAX_MONEY else f in
  if negb (nBlockSize =? 1) && (MAX_BLOCK_SIZE_GEN / 2 <=? nNewBlockSize) then
    if MAX_BLOCK_SIZE_GEN <=? nNewBlockSize then Some MAX_MONEY
    else Some (cap (i64 (nMinFee * (MAX_BLOCK_SIZE_GEN / (MAX_BLOCK_SIZE_GEN - nNewBlockSize)))))
  else Some (cap nMinFee).

(** *** CheckTransaction *)

(** The returned bool with what was added to nDoS: [CheckFailed d] returns
    false. *)
Inductive check := CheckOk | CheckFailed (dos : Z) | CheckThrown.

#[global] Instance check_eq_dec : EqDecision check.
Proof. solve_decision. Defined.

(** The loop over the outputs; the sum is only compared after it. *)
Fixpoint check_outputs (special : bool) (l : list CTxOut) (nValueOut : Z) : check + Z :=
  match l with
  | [] => inr nValueOut
  | o :: l' =>
      if txout_IsEmpty o && negb special then inl (CheckFailed 100)
      else if MAX_MONEY <? nValue o then inl (CheckFailed 100)
      else if nValue o <? 0 then inl (CheckFailed 100)
      else check_outputs special l' (i64 (nValueOut + nValue o))
  end.

Fixpoint has_duplicates (l : list CTxIn) (seen : list COutPoint) : bool :=
  match l with
  | [] => false
  | i :: l' => if existsb (outpoint_eq (prevout i)) seen then true else has_duplicates l' (prevout i :: seen)
  end.

Definition check_inputs (t : CTransaction) : check :=
  if IsCoinBase t then
    let len := Z.of_nat (length (from_option scriptSig [] (head (vin t)))) in
    if (len <? 2) || (100 <? len) then CheckFailed 100 else CheckOk
  else if existsb (fun i => outpoint_IsNull (prevout i)) (vin t) then CheckFailed 10
  else CheckOk.

Definition CheckTransaction (t : CTransaction) : check :=
  if negb (nVersion t =? 1) then CheckFailed 10
  else if existsb (fun o => negb (bool_decide (subCurrency o = []))) (vout t) then CheckFailed 10
  else if bool_decide (vin t = []) then CheckFailed 10
  else
    let haveDbs := existsb (fun i => negb (bool_decide (infos i = []))) (vin t) in
    if negb (forallb CheckTxInfos (vin t)) then CheckFailed 10
    else if bool_decide (vout t = []) && negb haveDbs then CheckFailed 10
    else
      match GetSerializeSize tx_codec t with
      | None => CheckThrown
      | Some size =>
          if MAX_BLOCK_SIZE <? size then CheckFailed 100
          else
            match check_outputs (IsCoinBase t || IsCoinStake t) (vout t) 0 with
            | inl r => r
            | inr nValueOut =>
                if negb (MoneyRange nValueOut) then CheckFailed 100
                else if has_duplicates (vin t) [] then CheckFailed 0
                else check_inputs t
            end
      end.

End tx.

(** ** Serialization laws *)

Section laws.
Context {B : Abi} {HB : AbiLaws B}.

#[local] Ltac lawful_class := apply class_lawful; [by intros []|apply _].

#[global] Instance outpoint_lawful : Lawful outpoint_codec.
Proof. lawful_class. Qed.
#[global] Instance infokey_lawful : Lawful infokey_codec.
Proof. lawful_class. Qed.
#[global] Instance info_lawful : Lawful info_codec.
Proof. lawful_class. Qed.

#[global] Instance txin_lawful : Lawful txin_codec.
Proof.
  apply class_lawful; [by intros []|]. pose proof (vector_lawful info_codec sizeof_CTxInfo abi_CTxInfo). apply _.
Qed.

#[global] Instance txout_lawful : Lawful txout_codec.
Proof. lawful_class. Qed.

#[global] Instance header_lawful : Lawful header_codec.
Proof.
  pose proof (vector_lawful txin_codec sizeof_CTxIn abi_CTxIn).
  pose proof (vector_lawful txout_codec sizeof_CTxOut abi_CTxOut). apply _.
Qed.

(** The part after nLockTime, read back except the members a re-mint does not
    carry. *)
Lemma mint_reads v m :
  Serialize.wf (mint_codec v) m ->
  (v = TT_REMINT_SUBCURRENCY -> mint_subCurrencyName m = [] /\ mint_divisibility m = 0) ->
  exists bs, Serialize (mint_codec v) m = Some bs /\ Forall is_byte bs /\
    GetSerializeSize (mint_codec v) m = Some (u32 (Z.of_nat (length bs))) /\ reads (mint_codec v) m bs.
Proof.
  unfold mint_codec. destruct (Z.eqb_spec v TT_NORMAL) as [->|].
  { simpl. intros -> _. exists []. split_and!; try done. intros S HS HL s rest Hok E. simpl. eauto. }
  destruct (Z.eqb_spec v TT_MINT_SUBCURRENCY) as [->|].
  { intros Hw _. refine (class_lawful _ _ _ _ _ m Hw). by intros []. }
  destruct (Z.eqb_spec v TT_REMINT_SUBCURRENCY) as [->|]; [|done].
  intros Hw Hm. destruct (Hm eq_refl) as [E1 E2]. clear Hm.
  set (c := tuple3_codec _ _ _) in *. assert (Lawful c) as Hc by apply _.
  destruct (Hc _ Hw) as (bs & F1 & F2 & F3 & F4). exists bs. split_and!; try done.
  apply class_reads; [|done]. destruct m. simpl in *. by subst.
Qed.

#[global] Instance tx_lawful : Lawful tx_codec.
Proof.
  intros t (H1 & H2 & H3). destruct (header_lawful _ H1) as (bh & E1 & F1 & S1 & R1).
  destruct (mint_reads _ _ H2 H3) as (bm & E2 & F2 & S2 & R2). exists (bh ++ bm).
  split; [cbn [tx_codec Serialize]; rewrite E1; cbn [mbind option_bind]; by rewrite E2|].
  split; [by apply Forall_app|].
  split; [cbn [tx_codec GetSerializeSize]; rewrite S1; cbn [mbind option_bind]; rewrite S2; cbn; f_equal; by apply u32_app|].
  intros S HS HL s rest Hok E. rewrite <- app_assoc in E. cbn [tx_codec Unserialize].
  destruct (R1 S HS HL s _ Hok E) as (s1 & -> & C1 & O1). cbn [mbind option_bind tx_header fst snd].
  destruct (R2 S HS HL s1 _ O1 C1) as (s2 & -> & C2 & O2). cbn. destruct t. eauto.
Qed.

End laws.
(** ** Lemmas *)

Definition total_out (l : list CTxOut) : Z := foldr (fun o s => nValue o + s) 0 l.

Definition money_out (o : CTxOut) : Prop := 0 <= nValue o <= MAX_MONEY.

Lemma MoneyRange_spec v : MoneyRange v = true <-> 0 <= v <= MAX_MONEY.
Proof. unfold MoneyRange. rewrite andb_true_iff, !Z.leb_le. done. Qed.

Lemma total_out_nonneg l : Forall money_out l -> 0 <= total_out l.
Proof. induction 1 as [|o l [Ho _] _ IH]; simpl; lia. Qed.

Lemma check_outputs_spec special l : forall acc sum,
  check_outputs special l acc = inr sum ->
  Forall money_out l /\ (special = false -> Forall (fun o => txout_IsEmpty o = false) l) /\
  (0 <= acc -> acc + total_out l < 2 ^ 63 -> sum = acc + total_out l).
Proof.
  induction l as [|o l IH]; intros acc sum H; simpl in H.
  { simplify_eq. simpl. split_and!; try constructor. intros. lia. }
  destruct (txout_IsEmpty o && negb special) eqn:Ee; [done|].
  destruct (Z.ltb_spec MAX_MONEY (nValue o)); [done|]. destruct (Z.ltb_spec (nValue o) 0); [done|].
  apply IH in H as (I1 & I2 & I3). split; [constructor; [unfold money_out; lia|done]|]. split.
  { intros ->. rewrite andb_true_r in Ee. constructor; auto. }
  simpl. intros Ha Hs. pose proof (total_out_nonneg l I1).
  rewrite i64_small in I3 by lia. rewrite I3; lia.
Qed.

Lemma check_outputs_inl special l : forall acc, check_outputs special l acc <> inl CheckOk.
Proof. induction l as [|o l IH]; intros acc; simpl; [done|]. repeat case_match; try done; apply IH. Qed.

Lemma value_out_spec l : forall acc, 0 <= acc <= MAX_MONEY -> Forall money_out l ->
  value_out l acc = if bool_decide (acc + total_out l <= MAX_MONEY) then Some (acc + total_out l) else None.
Proof.
  induction l as [|o l IH]; intros acc Ha Hl; simpl.
  { rewrite Z.add_0_r, bool_decide_true by lia. done. }
  apply Forall_cons in Hl as [Ho Hl]. pose proof (total_out_nonneg l Hl). unfold money_out in Ho.
  assert (MAX_MONEY + MAX_MONEY < 2 ^ 63) by done.
  rewrite i64_small by lia. rewrite (proj2 (MoneyRange_spec (nValue o))) by done. cbn [negb orb].
  destruct (MoneyRange (acc + nValue o)) eqn:E; cbn [negb].
  - apply MoneyRange_spec in E. rewrite IH by done. by rewrite Z.add_assoc.
  - rewrite bool_decide_false; [done|]. intros Hle.
    assert (MoneyRange (acc + nValue o) = true) by (apply MoneyRange_spec; lia). congruence.
Qed.

Lemma value_out_money l : forall acc v, value_out l acc = Some v -> Forall money_out l.
Proof.
  induction l as [|o l IH]; intros acc v; simpl; [constructor|].
  destruct (MoneyRange (nValue o)) eqn:E; [|done]. cbn [negb orb]. destruct (MoneyRange (i64 _)); [|done].
  intros H. constructor; [by apply MoneyRange_spec|]. exact (IH _ _ H).
Qed.

Lemma outpoint_eq_spec a b : outpoint_eq a b = true <-> a = b.
Proof.
  unfold outpoint_eq. rewrite andb_true_iff, !Z.eqb_eq. destruct a, b; simpl. split; [intros [-> ->]; done|].
  by intros [= -> ->].
Qed.

Lemma has_duplicates_spec l : forall seen,
  has_duplicates l seen = false <-> NoDup (map prevout l) /\ Forall (fun i => prevout i ∉ seen) l.
Proof.
  induction l as [|i l IH]; intros seen; simpl; [split; [repeat constructor|done]|].
  destruct (existsb (outpoint_eq (prevout i)) seen) eqn:E.
  - split; [done|]. intros [_ [Hi _]%Forall_cons]. apply existsb_exists in E as (o & Ho & Heq%outpoint_eq_spec).
    subst. by rewrite list_elem_of_In in Hi.
  - assert (prevout i ∉ seen) as Hi.
    { intros Hi%list_elem_of_In. rewrite <- not_true_iff_false in E. apply E. apply existsb_exists.
      exists (prevout i). split; [done|]. by apply outpoint_eq_spec. }
    rewrite IH, NoDup_cons, Forall_cons.
    assert (Forall (fun j => prevout j ∉ (prevout i :: seen)) l <->
            (prevout i ∉ map prevout l) /\ Forall (fun j => prevout j ∉ seen) l) as ->; [|tauto].
    rewrite !Forall_forall, list_elem_of_fmap. setoid_rewrite not_elem_of_cons. split.
    + intros H. split; [|intros j Hj; by apply H]. intros (j & Hij & Hj). by destruct (H j Hj).
    + intros [H1 H2] j Hj. split; [|by apply H2]. intros Hij. apply H1. by exists j.
Qed.

Section check.
Context {B : Abi}.

(** What CheckTransaction guarantees. *)
Record checked (t : CTransaction) : Prop := {
  chk_version : nVersion t = TT_NORMAL;
  chk_subcurrency : Forall (fun o => subCurrency o = []) (vout t);
  chk_vin : vin t <> [];
  chk_infos : Forall (fun i => Forall (fun x => info_IsValid x = true) (infos i)) (vin t);
  chk_vout : vout t = [] -> Exists (fun i => infos i <> []) (vin t);
  chk_size : exists k, GetSerializeSize tx_codec t = Some k /\ k <= MAX_BLOCK_SIZE;
  chk_money : Forall money_out (vout t);
  chk_empty : IsCoinBase t = false -> IsCoinStake t = false -> Forall (fun o => txout_IsEmpty o = false) (vout t);
  chk_total : total_out (vout t) < 2 ^ 63 -> total_out (vout t) <= MAX_MONEY;
  chk_inputs : NoDup (map prevout (vin t));
  chk_null : IsCoinBase t = false -> Forall (fun i => outpoint_IsNull (prevout i) = false) (vin t);
  chk_coinbase : IsCoinBase t = true -> exists i, vin t = [i] /\ 2 <= Z.of_nat (length (scriptSig i)) <= 100
}.

Lemma existsb_Forall {A} (f : A -> bool) l : existsb f l = false -> Forall (fun x => f x = false) l.
Proof. induction l; simpl; [constructor|]. intros [? ?]%orb_false_iff. constructor; auto. Qed.

Lemma forallb_Forall' {A} (f : A -> bool) l : forallb f l = true -> Forall (fun x => f x = true) l.
Proof. induction l; simpl; [constructor|]. intros [? ?]%andb_true_iff. constructor; auto. Qed.

Lemma existsb_Exists {A} (f : A -> bool) l : existsb f l = true -> Exists (fun x => f x = true) l.
Proof. induction l; simpl; [done|]. intros [?|?]%orb_true_iff; [by left|right; auto]. Qed.

Lemma check_inputs_ok t :
  check_inputs t = CheckOk ->
  (IsCoinBase t = false -> Forall (fun i => outpoint_IsNull (prevout i) = false) (vin t)) /\
  (IsCoinBase t = true -> exists i, vin t = [i] /\ 2 <= Z.of_nat (length (scriptSig i)) <= 100).
Proof.
  unfold check_inputs. destruct (IsCoinBase t) eqn:E.
  - intros H. split; [done|]. intros _. unfold IsCoinBase in E. destruct (vin t) as [|i [|]]; try done.
    exists i. split; [done|]. simpl in H. destruct (_ || _) eqn:El in H; [done|]. bool_to_prop. lia.
  - intros H. split; [|done]. intros _. case_match; [done|]. by apply existsb_Forall.
Qed.

Lemma CheckTransaction_checked t : CheckTransaction t = CheckOk -> checked t.
Proof.
  unfold CheckTransaction. destruct (Z.eqb_spec (nVersion t) 1) as [Ev|]; [|done]. cbn [negb].
  destruct (existsb _ _) eqn:Es; [done|]. apply existsb_Forall in Es. case_bool_decide as Evin; [done|].
  destruct (forallb CheckTxInfos (vin t)) eqn:Ei; [|done]. cbn [negb]. apply forallb_Forall' in Ei.
  destruct (_ && _) eqn:Eo; [done|]. destruct (GetSerializeSize tx_codec t) as [k|] eqn:Ek; [|done].
  destruct (Z.ltb_spec MAX_BLOCK_SIZE k); [done|]. destruct (check_outputs _ _ _) as [r|v] eqn:Ec.
  { intros ->. by apply check_outputs_inl in Ec. }
  destruct (MoneyRange v) eqn:Em; [|done]. cbn [negb]. apply MoneyRange_spec in Em.
  destruct (has_duplicates _ _) eqn:Ed; [done|]. apply has_duplicates_spec in Ed as [Ed _].
  intros [H1 H2]%check_inputs_ok. apply check_outputs_spec in Ec as (C1 & C2 & C3).
  split; try done.
  - eapply Forall_impl; [exact Es|]. intros o Ho. apply negb_false_iff in Ho. by apply bool_decide_eq_true in Ho.
  - eapply Forall_impl; [exact Ei|]. intros i Hi. by apply forallb_Forall'.
  - intros E. rewrite bool_decide_true in Eo by done. apply negb_false_iff, existsb_Exists in Eo.
    eapply Exists_impl; [exact Eo|]. intros i Hi. apply negb_true_iff in Hi. by apply bool_decide_eq_false in Hi.
  - eauto.
  - intros E1 E2. rewrite E1, E2 in C2. by apply C2.
  - intros Hs. rewrite C3 in Em by lia. lia.
Qed.
End check.
(** *** IsNewerThan *)

(** The pairs of inputs whose sequence numbers differ, and the smallest
    number on one side. *)
Definition differing (l : list (CTxIn * CTxIn)) : list (CTxIn * CTxIn) :=
  List.filter (fun p => negb (nSequence p.1 =? nSequence p.2)) l.

Definition lowest (f : CTxIn * CTxIn -> Z) (l : list (CTxIn * CTxIn)) : Z :=
  foldr (fun p m => Z.min (f p) m) UINT_MAX l.

Lemma lowest_app f l p : lowest f (l ++ [p]) = Z.min (lowest f l) (Z.min (f p) UINT_MAX).
Proof. induction l as [|q l IH]; simpl; [lia|]. rewrite IH. lia. Qed.

Lemma lowest_le f l : lowest f l <= UINT_MAX.
Proof. induction l; simpl; lia. Qed.

Lemma newer_fold l :
  fold_left newer_step l (false, UINT_MAX) =
  (let d := differing l in
   (lowest (fun p => nSequence p.2) d <? lowest (fun p => nSequence p.1) d,
    Z.min (lowest (fun p => nSequence p.2) d) (lowest (fun p => nSequence p.1) d))).
Proof.
  induction l as [|[i o] l IH] using rev_ind; [done|]. rewrite fold_left_app, IH. cbn [fold_left].
  unfold differing. rewrite List.filter_app. cbn [List.filter fst snd]. fold (differing l).
  unfold newer_step. destruct (Z.eqb_spec (nSequence i) (nSequence o)) as [E|E]; cbn [negb].
  { by rewrite app_nil_r. }
  cbv zeta. rewrite !lowest_app. cbn [fst snd].
  set (a := lowest (fun p => nSequence p.2) (differing l)). set (b := lowest (fun p => nSequence p.1) (differing l)).
  assert (a <= UINT_MAX) by apply lowest_le. assert (b <= UINT_MAX) by apply lowest_le.
  destruct (Z.leb_spec (nSequence i) (Z.min a b));
    match goal with |- context [nSequence o <? ?x] => destruct (Z.ltb_spec (nSequence o) x) end;
    f_equal; try lia; repeat match goal with |- context [?x <? ?y] => destruct (Z.ltb_spec x y) end; done || lia.
Qed.

(** *** GetMinFee *)

Definition dust (l : list CTxOut) : Z := Z.of_nat (length (List.filter (fun o => nValue o <? CENT) l)).

Definition fee_cap (f : Z) : Z :=
  let f := Z.max f MIN_TX_FEE in if negb (MoneyRange f) then MAX_MONEY else f.

Lemma dust_range l : 0 <= dust l <= Z.of_nat (length l).
Proof. unfold dust. induction l as [|o l IH]; simpl; [lia|]. destruct (nValue o <? CENT); simpl; lia. Qed.

Lemma dust_fold l : forall f, 0 <= f -> f + DUST_FEE * Z.of_nat (length l) < 2 ^ 63 ->
  fold_left (fun f o => if nValue o <? CENT then i64 (f + DUST_FEE) else f) l f = f + DUST_FEE * dust l.
Proof.
  unfold dust. induction l as [|o l IH]; intros f Hf Hl; cbn [fold_left List.filter]; [simpl; lia|].
  cbn [length] in Hl. change DUST_FEE with 1000 in *. change (2 ^ 63) with 9223372036854775808 in *.
  destruct (nValue o <? CENT); cbn [length].
  - rewrite i64_small by (change (2 ^ 63) with 9223372036854775808; lia). rewrite IH; lia.
  - rewrite IH; lia.
Qed.

Section claims.
Context {B : Abi} {HB : AbiLaws B} {D : DigestLib}.

(** C39: Every well formed transaction is serialized, [GetSerializeSize] is
    the number of bytes, and reading them from a stream gives the transaction
    back and leaves exactly what follows.  [GetHash] is the double SHA-256 of
    these bytes.  A version that is none of the three types throws, when
    writing and when reading. *)
Theorem tx_round_trip t tail :
  Serialize.wf tx_codec t ->
  exists bs, Serialize tx_codec t = Some bs /\ GetSerializeSize tx_codec t = Some (u32 (Z.of_nat (length bs))) /\
    GetHash t = Some (le_val (Hash bs)) /\
    Unserialize tx_codec (bs ++ tail) = Some (t, tail) /\
    (forall v, v <> TT_NORMAL -> v <> TT_MINT_SUBCURRENCY -> v <> TT_REMINT_SUBCURRENCY ->
       Serialize tx_codec (mk_tx v (nTime t) (vin t) (vout t) (nLockTime t) (mint t)) = None).
Proof.
  intros Hw. destruct (tx_lawful t Hw) as (bs & E1 & _ & E2 & R). exists bs. split; [done|]. split; [done|].
  split; [unfold GetHash; by rewrite E1|].
  destruct (R _ _ list_stream_laws (bs ++ tail) tail Logic.I eq_refl) as (s & Es & <- & _). split; [done|].
  intros v H1 H2 H3. cbn [Serialize tx_codec]. unfold mint_codec. cbn [nVersion].
  rewrite !(proj2 (Z.eqb_neq v _)) by done. cbn [Serialize]. by destruct (Serialize header_codec _).
Qed.

(** C12: A transaction that CheckTransaction accepts has version 1, at least
    one input, valid information entries and no sub-currency, at most
    MAX_BLOCK_SIZE bytes; every output is in the money range and none is empty
    in an ordinary transaction; no output is spent twice; only a coinbase has
    a null input, and its script has 2 to 100 bytes.  When the exact sum of
    the outputs fits in an int64 it is at most MAX_MONEY and is what
    [GetValueOut] returns. *)
Theorem CheckTransaction_sound t :
  CheckTransaction t = CheckOk ->
  checked t /\ (total_out (vout t) < 2 ^ 63 -> GetValueOut t = Some (total_out (vout t))).
Proof.
  intros H%CheckTransaction_checked. split; [done|]. intros Ht. pose proof (chk_total t H Ht).
  unfold GetValueOut. rewrite value_out_spec, bool_decide_true; [done..| |by apply chk_money].
  split; [lia|done].
Qed.

(** The minimum fee is between MIN_TX_FEE and MAX_MONEY in every mode and
    for every block size; for a transaction of at most a megabyte and a block
    size of 1 it is the larger of MIN_TX_FEE and one base fee per started
    kilobyte, per output below a cent and per information entry. *)
Theorem GetMinFee_bounds t nBlockSize mode k :
  GetSerializeSize tx_codec t = Some k -> 0 <= k <= MAX_BLOCK_SIZE ->
  Z.of_nat (length (vout t)) <= MAX_BLOCK_SIZE -> 0 <= CountInfoTxs t <= MAX_BLOCK_SIZE ->
  exists f, GetMinFee t nBlockSize mode = Some f /\ MIN_TX_FEE <= f <= MAX_MONEY /\
    GetMinFee t 1 mode =
      Some (Z.max MIN_TX_FEE
        (BASE_TX_FEE * (1 + k / 1000 + dust (vout t) + CountInfoTxs t))).
Proof.
  change MAX_BLOCK_SIZE with 1000000. intros Ek Hk Hv Hc. pose proof (dust_range (vout t)) as Hd.
  assert (0 <= k / 1000 <= 1000) as Hq by (split; [apply Z.div_pos; lia|apply Z.div_le_upper_bound; lia]).
  set (fee := 1000 * (1 + k / 1000 + dust (vout t) + CountInfoTxs t)).
  assert (0 <= fee <= 2002000000) as Hfee by (unfold fee; lia).
  assert (forall m b, GetMinFee t b m =
    if negb (b =? 1) && (250000 <=? u32 (b + k)) then
      if 500000 <=? u32 (b + k) then Some MAX_MONEY
      else Some (fee_cap (i64 (fee * (500000 / (500000 - u32 (b + k))))))
    else Some (fee_cap fee)) as Hm.
  { intros m b. unfold GetMinFee. rewrite Ek. cbn [mbind option_bind]. cbv zeta.
    replace (if is_relay m then BASE_RELAY_TX_FEE else BASE_TX_FEE) with 1000 by (by destruct m).
    replace (if is_relay m then MIN_RELAY_TX_FEE else MIN_TX_FEE) with 10000 by (by destruct m).
    rewrite (i64_small (_ * 1000)), dust_fold by (change DUST_FEE with 1000; lia).
    change DUST_FEE with 1000. change TX_INFO_FEE with 1000.
    rewrite (i64_small (CountInfoTxs t * 1000)) by lia. rewrite (i64_small (_ + _)) by lia.
    replace ((1 + k / 1000) * 1000 + 1000 * dust (vout t) + CountInfoTxs t * 1000) with fee by (unfold fee; lia). done. }
  rewrite !Hm. change MIN_TX_FEE with 10000. change BASE_TX_FEE with 1000. fold fee.
  assert (forall f, 10000 <= fee_cap f <= MAX_MONEY) as Hcap.
  { intros f. unfold fee_cap. change MIN_TX_FEE with 10000. destruct (MoneyRange _) eqn:E; cbn [negb]; [apply MoneyRange_spec in E|];
      change MAX_MONEY with 2000000000000000 in *; lia. }
  assert (fee_cap fee = Z.max 10000 fee) as Ef.
  { unfold fee_cap. rewrite Z.max_comm, (proj2 (MoneyRange_spec _)); [done|].
    change MAX_MONEY with 2000000000000000. change MIN_TX_FEE with 10000. lia. }
  rewrite Ef. destruct (_ && _); [|rewrite <- Ef; eauto].
  destruct (500000 <=? _); [exists MAX_MONEY|eexists; split; [done|split; [apply Hcap|done]]].
  split; [done|]. split; [change MAX_MONEY with 2000000000000000; lia|done].
Qed.

(** A transaction is newer than another one when both spend the same
    outputs in the same order and, over the inputs whose sequence numbers
    differ, the smallest number of the old one is below the smallest of the
    new one. *)
Theorem IsNewerThan_spec t old :
  IsNewerThan t old = true <->
  map prevout (vin t) = map prevout (vin old) /\
  let d := differing (combine (vin t) (vin old)) in
  lowest (fun p => nSequence p.2) d < lowest (fun p => nSequence p.1) d.
Proof.
  unfold IsNewerThan. case_bool_decide as Hl; cbn [negb].
  2:{ split; [done|]. intros [E _]. apply (f_equal length) in E. by rewrite !length_map in E. }
  destruct (forallb _ _) eqn:E; cbn [negb].
  - rewrite newer_fold. cbn [fst]. cbv zeta. rewrite Z.ltb_lt. split; [|tauto]. intros H. split; [|done].
    clear H. revert E Hl. generalize (vin old). induction (vin t) as [|i l IH]; intros [|j l'] E Hl; try done.
    simpl in *. apply andb_true_iff in E as [E1%outpoint_eq_spec E2]. f_equal; [done|]. apply IH; [done|lia].
  - split; [done|]. intros [Ep _]. exfalso. clear Hl. revert E Ep. generalize (vin old).
    induction (vin t) as [|i l IH]; intros [|j l'] E Hl'; try done. simpl in *. simplify_eq.
    apply andb_false_iff in E as [E|E]; [|by eapply IH].
    rewrite (proj2 (outpoint_eq_spec _ _)) in E by done. done.
Qed.

End claims.

(** ** Evaluation *)

Definition demo_abi : Abi := {|
  sizeof_CTxInfo := 40; sizeof_CTxIn := 96; sizeof_CTxOut := 56; sizeof_CTransaction := 200; sizeof_uint256 := 32
|}.

Lemma demo_abi_laws : AbiLaws demo_abi.
Proof. split; simpl; lia. Qed.

Definition demo_in : CTxIn := mk_txin (mk_outpoint 7 0) [0] UINT_MAX [].
Definition demo_tx (outs : list CTxOut) : CTransaction := mk_tx TT_NORMAL 100 [demo_in] outs 0 no_mint.

(** [k] outputs of MAX_MONEY and one more; with 9223 of them the sum is
    2^64 + 1000. *)
Definition max_out : CTxOut := mk_txout [] MAX_MONEY [OP_1].
Definition overflow_outs (k : nat) : list CTxOut := mk_txout [] 744073709552616 [OP_1] :: replicate k max_out.

Lemma check_outputs_replicate o k : forall acc,
  txout_IsEmpty o = false -> 0 <= nValue o <= MAX_MONEY ->
  check_outputs false (replicate k o) (i64 acc) = inr (i64 (acc + Z.of_nat k * nValue o)).
Proof.
  induction k as [|k IH]; intros acc He Hv; [simpl; by rewrite Z.add_0_r|].
  cbn [replicate check_outputs]. rewrite He, (proj2 (Z.ltb_ge _ _)), (proj2 (Z.ltb_ge (nValue o) 0)) by lia.
  cbn [andb]. rewrite i64_add_l, IH by done. do 2 f_equal. lia.
Qed.

Lemma sizes_replicate {A} (c : Codec A) x sz k : forall acc,
  GetSerializeSize c x = Some sz -> sizes c (replicate k x) (u32 acc) = Some (u32 (acc + Z.of_nat k * sz)).
Proof.
  induction k as [|k IH]; intros acc Hs; [simpl; by rewrite Z.add_0_r|].
  cbn [replicate sizes]. rewrite Hs. cbn [mbind option_bind].
  replace (u32 (u32 acc + sz)) with (u32 (acc + sz)) by (unfold u32; by rewrite Zplus_mod_idemp_l).
  rewrite IH by done. do 2 f_equal. lia.
Qed.

Lemma total_out_replicate o k : total_out (replicate k o) = Z.of_nat k * nValue o.
Proof. induction k as [|k IH]; [done|]. cbn [replicate]. simpl. fold (total_out (replicate k o)). rewrite IH. lia. Qed.

Lemma existsb_replicate {A} (f : A -> bool) k x : f x = false -> existsb f (replicate k x) = false.
Proof. intros Hx. induction k; simpl; [done|]. by rewrite Hx. Qed.

Lemma overflow_size {B : Abi} k : Z.of_nat k = 9223 ->
  GetSerializeSize tx_codec (demo_tx (overflow_outs k)) = Some 101523.
Proof.
  intros Hk. cbn [tx_codec GetSerializeSize]. 
  assert (sizes txout_codec (overflow_outs k) (GetSizeOfCompactSize (Z.of_nat (length (overflow_outs k)))) = Some 101467) as E.
  { unfold overflow_outs. cbn [sizes]. change (GetSerializeSize txout_codec _) with (Some 11). cbn [mbind option_bind].
    rewrite (sizes_replicate txout_codec max_out 11) by reflexivity.
    cbn [length]. rewrite length_replicate. rewrite Nat2Z.inj_succ, Hk. reflexivity. }
  change (GetSerializeSize header_codec (tx_header (demo_tx (overflow_outs k)))) with
    (m ← (m ← Some 52;
          k0 ← sizes txout_codec (overflow_outs k) (GetSizeOfCompactSize (Z.of_nat (length (overflow_outs k))));
          Some (u32 (m + k0))); Some (u32 (m + 4))).
  rewrite E. reflexivity.
Qed.

Lemma overflow_accepted {B : Abi} k : Z.of_nat k = 9223 -> CheckTransaction (demo_tx (overflow_outs k)) = CheckOk.
Proof.
  intros Hk. unfold CheckTransaction. rewrite (overflow_size k Hk). cbn [demo_tx nVersion vout vin].
  change (negb (TT_NORMAL =? 1)) with false. cbv iota.
  set (f := fun o => negb (bool_decide (subCurrency o = []))).
  assert (existsb f (overflow_outs k) = false) as -> by (apply orb_false_iff; split; [done|by apply existsb_replicate]).
  assert (check_outputs false (overflow_outs k) 0 = inr 1000) as Ec.
  { unfold overflow_outs. cbn [check_outputs]. change (txout_IsEmpty _) with false. cbn [andb nValue].
    change (MAX_MONEY <? 744073709552616) with false. change (744073709552616 <? 0) with false. cbv iota.
    rewrite (check_outputs_replicate max_out k), Hk by done. done. }
  assert (IsCoinBase (demo_tx (overflow_outs k)) = false) as -> by done.
  assert (IsCoinStake (demo_tx (overflow_outs k)) = false) as -> by (by destruct k).
  cbn [orb]. rewrite Ec. done.
Qed.

(** CheckTransaction adds the outputs in an int64 and compares only the
    final sum, so it accepts a transaction of about 100 kB whose outputs add
    up to more than 9000 times MAX_MONEY: the sum wraps around.
    [GetValueOut], which checks after every addition, throws on it. *)
Theorem CheckTransaction_sum_wraps {B : Abi} :
  exists t, CheckTransaction t = CheckOk /\ total_out (vout t) = 2 ^ 64 + 1000 /\
    9000 * MAX_MONEY < total_out (vout t) /\ GetValueOut t = None.
Proof.
  assert (Z.of_nat (Z.to_nat 9223) = 9223) as Hk by (apply Z2Nat.id; lia). revert Hk.
  generalize (Z.to_nat 9223) as k. intros k Hk. exists (demo_tx (overflow_outs k)).
  assert (total_out (overflow_outs k) = 2 ^ 64 + 1000) as Et.
  { unfold overflow_outs. cbn [total_out foldr]. fold (total_out (replicate k max_out)).
    rewrite total_out_replicate, Hk. done. }
  split; [by apply overflow_accepted|]. cbn [demo_tx vout]. rewrite Et. split; [done|]. split; [done|].
  unfold GetValueOut. cbn [demo_tx vout]. rewrite value_out_spec, Et; [done|done|].
  constructor; [done|]. by apply Forall_replicate.
Qed.

Definition pay_tx : CTransaction := demo_tx [mk_txout [] 5000 [OP_1]; mk_txout [] 3000000 [OP_DUP]].

Lemma tx_round_trip_witness :
  Serialize.wf (tx_codec (B := demo_abi)) pay_tx /\
  exists bs, Serialize (tx_codec (B := demo_abi)) pay_tx = Some bs /\
    Unserialize (tx_codec (B := demo_abi)) (bs ++ [1; 2]) = Some (pay_tx, [1; 2]).
Proof.
  assert (Serialize.wf (tx_codec (B := demo_abi)) pay_tx) as Hw.
  { split; [|split; [reflexivity|intros E; discriminate E]].
    repeat (split || constructor); vm_compute; intros; discriminate. }
  split; [exact Hw|].
  destruct (tx_round_trip (HB := demo_abi_laws) (D := toy_digests) pay_tx [1; 2] Hw) as (bs & E1 & _ & _ & E2 & _).
  exists bs. split; [exact E1|exact E2].
Defined.

Lemma CheckTransaction_sound_witness :
  CheckTransaction (B := demo_abi) pay_tx = CheckOk /\ checked (B := demo_abi) pay_tx /\
  GetValueOut pay_tx = Some 3005000.
Proof.
  split; [reflexivity|]. destruct (CheckTransaction_sound (B := demo_abi) pay_tx) as [H1 H2]; [reflexivity|].
  split; [exact H1|]. apply H2. vm_compute. reflexivity.
Defined.

Lemma GetMinFee_bounds_witness :
  exists f, GetMinFee (B := demo_abi) pay_tx 300000 GMF_BLOCK = Some f /\ MIN_TX_FEE <= f <= MAX_MONEY.
Proof.
  destruct (GetMinFee_bounds (B := demo_abi) pay_tx 300000 GMF_BLOCK 79) as (f & H1 & H2 & _).
  - reflexivity.
  - vm_compute. split; intros; discriminate.
  - vm_compute. intros; discriminate.
  - vm_compute. split; intros; discriminate.
  - exists f. split; [exact H1|exact H2].
Defined.

End Tx.
