(* ===== verification/Util.v ===== *)
(** * Text helpers (src/src/util.cpp, src/src/util.h)

    Splitting, decimal amounts of money, hexadecimal and base64 text, and
    wildcard masks.  A C string is the list of its characters without the
    terminating NUL; the end of the list stands for the NUL. *)

From S2P Require Import Prelude Uint256 Tx.

Module Util.

Definition isdigit (c : Z) : bool := (48 <=? c) && (c <=? 57).
Abbreviation isspace := Uint.isspace.
Abbreviation skip_spaces := Uint.skip_spaces.

(** [str.c_str()], read as a C string. *)
Fixpoint c_str (s : list Z) : list Z :=
  match s with
  | [] => []
  | c :: r => if c =? 0 then [] else c :: c_str r
  end.

(** The parts between the separators; [cur] is the current part. *)
Fixpoint split (c : Z) (cur s : list Z) : list (list Z) :=
  match s with
  | [] => [cur]
  | x :: s => if x =? c then cur :: split c [] s else split c (cur ++ [x]) s
  end.

Definition ParseString (str : list Z) (c : Z) (v : list (list Z)) : list (list Z) :=
  match str with
  | [] => v
  | _ => v ++ split c [] str
  end.

(** ** Decimal numbers *)

(** The decimal digits of a non-negative number, one round per digit. *)
Fixpoint dec_loop (fuel : nat) (n : Z) (acc : list Z) : list Z :=
  match fuel with
  | O => acc
  | S f =>
      let acc := 48 + n mod 10 :: acc in
      if n / 10 =? 0 then acc else dec_loop f (n / 10) acc
  end.

(** Twenty digits are enough for 64 bits. *)
Definition dec (n : Z) : list Z := dec_loop 20 n [].

(** ["%d"] and ["%06d"] of an int64. *)
Definition i64tostr (n : Z) : list Z := if n <? 0 then 45 :: dec (- n) else dec n.
Definition sprintf_06d (n : Z) : list Z :=
  let s := dec (Z.abs n) in
  if n <? 0 then 45 :: replicate (5 - length s) 48 ++ s else replicate (6 - length s) 48 ++ s.

(** The digits at the front. *)
Fixpoint digits (s : list Z) : list Z :=
  match s with
  | c :: r => if isdigit c then c - 48 :: digits r else []
  | [] => []
  end.

Definition INT64_MAX : Z := 2 ^ 63 - 1.

(** [strtoll(psz, NULL, 10)], which saturates. *)
Definition atoi64 (s : list Z) : Z :=
  match skip_spaces s with
  | [] => 0
  | c :: r =>
      if c =? 45 then Z.max (- 2 ^ 63) (- digits_val 10 (digits r))
      else Z.min INT64_MAX (digits_val 10 (digits (if c =? 43 then r else c :: r)))
  end.

(** ** Money *)

(** [for (i = str.size()-1; str[i] == '0' && isdigit(str[i-2]); --i)] on the
    reversed text, which has a point with six digits behind it. *)
Fixpoint trim (r : list Z) : list Z :=
  match r with
  | c :: ((_ :: d :: _) as t) => if (c =? 48) && isdigit d then trim t else r
  | _ => r
  end.

Definition FormatMoney (n : Z) (fPlus : bool) : list Z :=
  let n_abs := if 0 <? n then n else i64 (- n) in
  let quotient := Z.quot n_abs COIN in
  let remainder := Z.rem n_abs COIN in
  let str := i64tostr quotient ++ 46 :: sprintf_06d remainder in
  let str := reverse (trim (reverse str)) in
  if n <? 0 then 45 :: str else if fPlus && (0 <? n) then 43 :: str else str.

(** The digits behind the point, while they count. *)
Fixpoint parse_units (p : list Z) (nMult nUnits : Z) : Z * list Z :=
  match p with
  | c :: r => if isdigit c && (0 <? nMult) then parse_units r (nMult / 10) (i64 (nUnits + nMult * (c - 48))) else (nUnits, p)
  | [] => (nUnits, [])
  end.

(** The loop over the amount: strWhole, nUnits and what is left_. *)
Fixpoint parse_amount (p strWhole : list Z) : option (list Z * Z * list Z) :=
  match p with
  | [] => Some (strWhole, 0, [])
  | c :: r =>
      if c =? 46 then let '(nUnits, rest) := parse_units r (CENT * 10) 0 in Some (strWhole, nUnits, rest)
      else if isspace c then Some (strWhole, 0, p)
      else if negb (isdigit c) then None
      else parse_amount r (strWhole ++ [c])
  end.

Definition ParseMoney (pszIn : list Z) : option Z :=
  '(strWhole, nUnits, rest) ← parse_amount (skip_spaces pszIn) [];
  if negb (forallb isspace rest) then None
  else if 10 <? Z.of_nat (length strWhole) then None
  else if (nUnits <? 0) || (COIN <? nUnits) then None
  else Some (i64 (atoi64 strWhole * COIN + nUnits)).

(** ** Hexadecimal text *)

(** The table [phexdigit] of util.cpp. *)
Definition phexdigit (c : Z) : Z :=
  if (48 <=? c) && (c <=? 57) then c - 48
  else if (65 <=? c) && (c <=? 70) then c - 55
  else if (97 <=? c) && (c <=? 102) then c - 87
  else -1.

Definition IsHex (str : list Z) : bool :=
  forallb (fun c => negb (phexdigit c <? 0)) str && (0 <? length str)%nat && (length str mod 2 =? 0)%nat.

Fixpoint ParseHex (psz : list Z) : list Z :=
  match psz with
  | [] => []
  | c1 :: r =>
      if isspace c1 then ParseHex r
      else if phexdigit c1 =? -1 then []
      else
        match r with
        | [] => []
        | c2 :: r => if phexdigit c2 =? -1 then [] else Z.lor (u8 (Z.shiftl (phexdigit c1) 4)) (phexdigit c2) :: ParseHex r
        end
  end.

Definition hexmap (d : Z) : Z := rd (str "0123456789abcdef") (Z.to_nat d).

(** The loop of [HexStr]; [first] is [it == itbegin]. *)
Fixpoint hex_loop (fSpaces first : bool) (l : list Z) : list Z :=
  match l with
  | [] => []
  | val :: l =>
      (if fSpaces && negb first then [32] else []) ++ hexmap (Z.shiftr val 4) :: hexmap (Z.land val 15) :: hex_loop fSpaces false l
  end.

Definition HexStr (vch : list Z) (fSpaces : bool) : list Z := hex_loop fSpaces true vch.

(** ** Base64 *)

Definition pbase64 (i : Z) : Z := rd (str "ABCDEFGHIJKLMNOPQRSTUVWXYZabcdefghijklmnopqrstuvwxyz0123456789+/") (Z.to_nat i).

Fixpoint encode64_loop (mode : nat) (left_ : Z) (l : list Z) : list Z :=
  match l with
  | [] =>
      match mode with
      | O => []
      | S O => [pbase64 left_; 61; 61]
      | _ => [pbase64 left_; 61]
      end
  | enc :: l =>
      match mode with
      | O => pbase64 (Z.shiftr enc 2) :: encode64_loop 1 (Z.shiftl (Z.land enc 3) 4) l
      | S O => pbase64 (Z.lor left_ (Z.shiftr enc 4)) :: encode64_loop 2 (Z.shiftl (Z.land enc 15) 2) l
      | _ => pbase64 (Z.lor left_ (Z.shiftr enc 6)) :: pbase64 (Z.land enc 63) :: encode64_loop 0 left_ l
      end
  end.

Definition EncodeBase64 (pch : list Z) : list Z := encode64_loop 0 0 pch.

(** The table [decode64_table]. *)
Definition decode64 (c : Z) : Z :=
  if (65 <=? c) && (c <=? 90) then c - 65
  else if (97 <=? c) && (c <=? 122) then c - 71
  else if (48 <=? c) && (c <=? 57) then c + 4
  else if c =? 43 then 62
  else if c =? 47 then 63
  else -1.

(** The loop: the bytes, and mode, left and the text where it stops. *)
Fixpoint decode64_loop (mode : nat) (left_ : Z) (p : list Z) : list Z * (nat * Z * list Z) :=
  match p with
  | [] => ([], (mode, left_, []))
  | c :: r =>
      let dec := decode64 c in
      if dec =? -1 then ([], (mode, left_, p))
      else
        match mode with
        | O => decode64_loop 1 dec r
        | S O => let '(v, e) := decode64_loop 2 (Z.land dec 15) r in (u8 (Z.lor (Z.shiftl left_ 2) (Z.shiftr dec 4)) :: v, e)
        | S (S O) => let '(v, e) := decode64_loop 3 (Z.land dec 3) r in (u8 (Z.lor (Z.shiftl left_ 4) (Z.shiftr dec 2)) :: v, e)
        | _ => let '(v, e) := decode64_loop 0 left_ r in (u8 (Z.lor (Z.shiftl left_ 6) dec) :: v, e)
        end
  end.

(** The bytes and [*pfInvalid]. *)
Definition DecodeBase64 (p : list Z) : list Z * bool :=
  let '(v, (mode, left_, p)) := decode64_loop 0 0 p in
  (v,
   match mode with
   | O => false
   | S O => true
   | S (S O) => negb (left_ =? 0) || negb (rd p 0 =? 61) || negb (rd p 1 =? 61) || negb (decode64 (rd p 2) =? -1)
   | _ => negb (left_ =? 0) || negb (rd p 0 =? 61) || negb (decode64 (rd p 1) =? -1)
   end).

(** ** Wildcards *)

Fixpoint WildcardMatch (psz mask : list Z) {struct mask} : bool :=
  match mask with
  | [] => bool_decide (psz = [])
  | m :: mask' =>
      if m =? 42 then
        (fix star (psz : list Z) : bool := WildcardMatch psz mask' || match psz with [] => false | _ :: r => star r end) psz
      else
        match psz with
        | [] => false
        | c :: r => if (m =? 63) || (c =? m) then WildcardMatch r mask' else false
        end
  end.

(** What a mask stands for. *)
Inductive matches : list Z -> list Z -> Prop :=
  | match_end : matches [] []
  | match_star t s mask : matches s mask -> matches (t ++ s) (42 :: mask)
  | match_any c s mask : matches s mask -> matches (c :: s) (63 :: mask)
  | match_char c s mask : c <> 42 -> c <> 63 -> matches s mask -> matches (c :: s) (c :: mask).

(** ** Hexadecimal and base64 round trips *)

Lemma hexmap_phexdigit d : 0 <= d < 16 -> phexdigit (hexmap d) = d /\ isspace (hexmap d) = false.
Proof.
  intros Hd. assert (forallb (fun i => (phexdigit (hexmap (Z.of_nat i)) =? Z.of_nat i) && negb (isspace (hexmap (Z.of_nat i)))) (seq 0 16) = true) as H
    by (vm_compute; reflexivity).
  rewrite forallb_forall in H. specialize (H (Z.to_nat d)). rewrite in_seq, Z2Nat.id in H by lia. destruct (andb_prop _ _ (H ltac:(lia))) as [H1 H2].
  split; [lia|]. by apply negb_true_iff.
Qed.

Lemma pbase64_decode i : 0 <= i < 64 -> decode64 (pbase64 i) = i.
Proof.
  intros Hi. assert (forallb (fun i => decode64 (pbase64 (Z.of_nat i)) =? Z.of_nat i) (seq 0 64) = true) as H by (vm_compute; reflexivity).
  rewrite forallb_forall in H. specialize (H (Z.to_nat i)). rewrite in_seq, Z2Nat.id in H by lia. specialize (H ltac:(lia)). lia.
Qed.

Lemma nibbles b : is_byte b -> 0 <= Z.shiftr b 4 < 16 /\ 0 <= Z.land b 15 < 16 /\ Z.lor (u8 (Z.shiftl (Z.shiftr b 4) 4)) (Z.land b 15) = b.
Proof.
  intros Hb. pose proof (byte_forall (fun b => (0 <=? Z.shiftr b 4) && (Z.shiftr b 4 <? 16) && (0 <=? Z.land b 15) && (Z.land b 15 <? 16) &&
    (Z.lor (u8 (Z.shiftl (Z.shiftr b 4) 4)) (Z.land b 15) =? b)) eq_refl b Hb) as H. cbn beta in H. bool_to_prop. lia.
Qed.

(** Every number of low bits splits a byte. *)
Lemma byte_split b k : is_byte b -> k = 2 \/ k = 4 \/ k = 6 ->
  0 <= Z.shiftr b k < 2 ^ (8 - k) /\ 0 <= Z.land b (Z.ones k) < 2 ^ k /\ u8 (Z.lor (Z.shiftl (Z.shiftr b k) k) (Z.land b (Z.ones k))) = b.
Proof.
  intros Hb Hk. pose proof (byte_forall (fun b => forallb (fun k => (0 <=? Z.shiftr b k) && (Z.shiftr b k <? 2 ^ (8 - k)) && (0 <=? Z.land b (Z.ones k)) &&
    (Z.land b (Z.ones k) <? 2 ^ k) && (u8 (Z.lor (Z.shiftl (Z.shiftr b k) k) (Z.land b (Z.ones k))) =? b)) [2; 4; 6]) eq_refl b Hb) as H.
  cbn beta in H. rewrite forallb_forall in H. specialize (H k). cbn [In] in H. specialize (H ltac:(lia)). bool_to_prop. lia.
Qed.

(** Two fields in one number. *)
Lemma two_fields k x y : 0 <= k -> 0 <= x -> 0 <= y < 2 ^ k ->
  Z.shiftr (Z.lor (Z.shiftl x k) y) k = x /\ Z.land (Z.lor (Z.shiftl x k) y) (Z.ones k) = y /\ Z.lor (Z.shiftl x k) y = x * 2 ^ k + y.
Proof.
  intros Hk Hx Hy. assert (Z.lor (Z.shiftl x k) y = x * 2 ^ k + y) as E.
  { rewrite Z.lor_comm, lor_shiftl_add by lia. lia. }
  rewrite E, Z.shiftr_div_pow2, Z.land_ones by lia. split; [|split; [|done]]; [rewrite Z.div_add_l by lia|rewrite Z.add_comm, Z.mod_add by lia];
    [rewrite Z.div_small by lia; lia|by apply Z.mod_small].
Qed.

Lemma ParseHex_loop fSpaces l : Forall is_byte l -> forall first, ParseHex (hex_loop fSpaces first l) = l.
Proof.
  induction 1 as [|b l Hb _ IH]; intros first; [done|]. destruct (nibbles b Hb) as (H1 & H2 & H3). destruct (hexmap_phexdigit _ H1) as [E1 S1].
  destruct (hexmap_phexdigit _ H2) as [E2 _].
  assert (ParseHex (hexmap (Z.shiftr b 4) :: hexmap (Z.land b 15) :: hex_loop fSpaces false l) = b :: l) as E0.
  { cbn [ParseHex]. rewrite S1, E1, E2, IH, H3. rewrite !(proj2 (Z.eqb_neq _ (-1))) by lia. done. }
  cbn [hex_loop]. destruct (fSpaces && negb first); [|done]. exact E0.
Qed.

Lemma decode64_step mode left_ i r : 0 <= i < 64 ->
  decode64_loop mode left_ (pbase64 i :: r) =
    match mode with
    | O => decode64_loop 1 i r
    | S O => let '(v, e) := decode64_loop 2 (Z.land i 15) r in (u8 (Z.lor (Z.shiftl left_ 2) (Z.shiftr i 4)) :: v, e)
    | S (S O) => let '(v, e) := decode64_loop 3 (Z.land i 3) r in (u8 (Z.lor (Z.shiftl left_ 4) (Z.shiftr i 2)) :: v, e)
    | _ => let '(v, e) := decode64_loop 0 left_ r in (u8 (Z.lor (Z.shiftl left_ 6) i) :: v, e)
    end.
Proof. intros Hi. cbn [decode64_loop]. rewrite pbase64_decode by done. by rewrite (proj2 (Z.eqb_neq i (-1))) by lia. Qed.

Lemma decode_encode64 n : forall l left_ left', (length l <= n)%nat -> Forall is_byte l ->
  exists mode l' rest, decode64_loop 0 left' (encode64_loop 0 left_ l) = (l, (mode, l', rest)) /\
    (mode = 0%nat \/ (mode = 2%nat /\ l' = 0 /\ rest = [61; 61]) \/ (mode = 3%nat /\ l' = 0 /\ rest = [61])).
Proof.
  induction n as [|n IH]; intros [|a l] left_ left' Hn Hl; cbn in Hn; try lia; [by exists 0%nat, left', []; auto..|].
  inversion Hl as [|? ? Ha Hl1]; subst. destruct (byte_split a 2 Ha ltac:(auto)) as (A1 & A2 & A3). change (Z.ones 2) with 3 in *.
  destruct l as [|b l].
  { exists 2%nat, 0, [61; 61]. destruct (two_fields 4 (Z.land a 3) 0) as (F1 & F2 & F3); [lia..|]. rewrite Z.lor_0_r in F1, F2, F3.
    cbn [encode64_loop]. rewrite !decode64_step by lia. cbn [decode64_loop]. change (Z.ones 4) with 15 in F2. rewrite F1, F2, A3. split; [done|]. auto. }
  inversion Hl1 as [|? ? Hb Hl2]; subst. destruct (byte_split b 4 Hb ltac:(auto)) as (B1 & B2 & B3). change (Z.ones 4) with 15 in *.
  destruct (two_fields 4 (Z.land a 3) (Z.shiftr b 4)) as (F1 & F2 & F3); [lia..|]. change (Z.ones 4) with 15 in *.
  destruct l as [|c l].
  { exists 3%nat, 0, [61]. destruct (two_fields 2 (Z.land b 15) 0) as (G1 & G2 & G3); [lia..|]. rewrite Z.lor_0_r in G1, G2, G3.
    cbn [encode64_loop]. rewrite !decode64_step by lia. cbn [decode64_loop]. change (Z.ones 2) with 3 in G2. rewrite F1, F2, G1, G2, A3, B3. split; [done|]. auto. }
  inversion Hl2 as [|? ? Hc Hl3]; subst. destruct (byte_split c 6 Hc ltac:(auto)) as (C1 & C2 & C3). change (Z.ones 6) with 63 in *.
  destruct (two_fields 2 (Z.land b 15) (Z.shiftr c 6)) as (G1 & G2 & G3); [lia..|]. change (Z.ones 2) with 3 in *.
  set (left3 := Z.shiftl (Z.land b 15) 2) in *.
  destruct (IH l left3 (Z.shiftr c 6)) as (mode & l' & rest & E & Hm); [cbn in Hn; lia|done|]. exists mode, l', rest. split; [|done].
  cbn [encode64_loop]. fold left3. rewrite !decode64_step by lia. by rewrite F1, F2, G1, G2, A3, B3, C3, E.
Qed.

(** ** Money *)

Lemma dec_loop_spec fuel : forall n acc, 0 <= n < 10 ^ Z.of_nat fuel -> (0 < fuel)%nat -> exists ds, dec_loop fuel n acc = map (Z.add 48) ds ++ acc /\
  Forall (fun d => 0 <= d < 10) ds /\ digits_val 10 ds = n /\ (length ds = 1%nat \/ (1 < length ds)%nat /\ 10 ^ Z.of_nat (length ds - 1) <= n).
Proof.
  induction fuel as [|f IH]; intros n acc Hn Hf; [lia|]. cbn [dec_loop]. pose proof (Z.mod_pos_bound n 10 ltac:(lia)) as Hm.
  pose proof (Z.div_mod n 10 ltac:(lia)) as Hd. destruct (Z.eqb_spec (n / 10) 0) as [E|E].
  - exists [n mod 10]. split; [done|]. split; [by constructor|]. split; [cbn; lia|]. by left.
  - rewrite Nat2Z.inj_succ, Z.pow_succ_r in Hn by lia. assert (0 < n / 10) as Hp by (pose proof (Z.div_pos n 10); lia).
    assert (n / 10 < 10 ^ Z.of_nat f) as Hlt by (apply Z.div_lt_upper_bound; lia).
    destruct (IH (n / 10) (48 + n mod 10 :: acc)) as (ds & E1 & D1 & V1 & L1); [lia|destruct f; [cbn in Hlt; lia|lia]|].
    exists (ds ++ [n mod 10]). split; [rewrite E1, map_app, <- app_assoc; done|]. split; [apply Forall_app; split; [done|by constructor]|].
    rewrite digits_val_snoc, V1. split; [lia|]. right. rewrite length_app. cbn [length]. split; [lia|].
    replace (Z.of_nat (length ds + 1 - 1)) with (Z.succ (Z.of_nat (length ds - 1))) by lia. rewrite Z.pow_succ_r by lia.
    destruct L1 as [->|[_ L1]]; [cbn; lia|lia].
Qed.

Lemma dec_spec n : 0 <= n < 2 ^ 63 -> exists ds, dec n = map (Z.add 48) ds /\ Forall (fun d => 0 <= d < 10) ds /\ digits_val 10 ds = n /\
  ds <> [] /\ forall k, (0 < k)%nat -> n < 10 ^ Z.of_nat k <-> (length ds <= k)%nat.
Proof.
  intros Hn. destruct (dec_loop_spec 20 n []) as (ds & E & D & V & Hl); [lia|lia|]. rewrite app_nil_r in E. exists ds. split; [done|]. split; [done|]. split; [done|].
  split; [intros ->; cbn in Hl; lia|]. intros k Hk. split; intros H.
  - destruct (decide (length ds <= k)%nat) as [|Hgt]; [done|]. destruct Hl as [Hl|[_ Hl]]; [lia|].
    assert (10 ^ Z.of_nat k <= 10 ^ Z.of_nat (length ds - 1)) by (apply Z.pow_le_mono_r; lia). lia.
  - destruct (digits_val_range 10 ds) as [_ H2]; [lia|done|]. rewrite V in H2.
    assert (10 ^ Z.of_nat (length ds) <= 10 ^ Z.of_nat k) by (apply Z.pow_le_mono_r; lia). lia.
Qed.

(** The six digits behind the point. *)
Lemma sprintf_06d_spec r : 0 <= r < COIN -> exists x0 x1 x2 x3 x4 x5, sprintf_06d r = map (Z.add 48) [x0; x1; x2; x3; x4; x5] /\
  Forall (fun d => 0 <= d < 10) [x0; x1; x2; x3; x4; x5] /\ r = digits_val 10 [x0; x1; x2; x3; x4; x5].
Proof.
  intros Hr. unfold COIN in Hr. destruct (dec_spec r ltac:(lia)) as (ds & E & D & V & _ & Hk). assert (length ds <= 6)%nat as Hlen by (apply Hk; lia).
  assert (sprintf_06d r = map (Z.add 48) (replicate (6 - length ds) 0 ++ ds)) as E0.
  { unfold sprintf_06d. rewrite Z.abs_eq, (proj2 (Z.ltb_ge r 0)), E, length_map, map_app by lia. f_equal. by rewrite fmap_replicate. }
  assert (digits_val 10 (replicate (6 - length ds) 0 ++ ds) = r) as V0 by (rewrite digits_val_app, digits_val_zeros; lia).
  assert (Forall (fun d => 0 <= d < 10) (replicate (6 - length ds) 0 ++ ds)) as D0 by (apply Forall_app; split; [apply Forall_replicate; lia|done]).
  assert (length (replicate (6 - length ds) 0 ++ ds) = 6%nat) as L0 by (rewrite length_app, length_replicate; lia).
  rewrite E0. revert V0 D0 L0. generalize (replicate (6 - length ds) 0 ++ ds). intros [|x0 [|x1 [|x2 [|x3 [|x4 [|x5 [|]]]]]]] V0 D0 L0; try done.
  by exists x0, x1, x2, x3, x4, x5.
Qed.

Lemma isdigit_digit d : 0 <= d < 10 -> isdigit (48 + d) = true /\ isspace (48 + d) = false /\ (48 + d =? 46) = false /\ 48 + d - 48 = d.
Proof. intros Hd. unfold isdigit, isspace. split; [|split; [|split]]; lia. Qed.

(** Zeros at the end go, except for two digits; what is left is worth as much. *)
Lemma trim_units w x0 x1 x2 x3 x4 x5 : Forall (fun d => 0 <= d < 10) [x0; x1; x2; x3; x4; x5] -> exists k,
  trim (reverse (w ++ 46 :: map (Z.add 48) [x0; x1; x2; x3; x4; x5])) = reverse (w ++ 46 :: map (Z.add 48) (take k [x0; x1; x2; x3; x4; x5])) /\
  (2 <= k <= 6)%nat /\ Forall (eq 0) (drop k [x0; x1; x2; x3; x4; x5]).
Proof.
  intros Hd. repeat (apply Forall_cons in Hd as [? Hd]).
  assert (forall d, 0 <= d < 10 -> isdigit (48 + d) = true) as Hdig by (intros d H'; by apply isdigit_digit).
  destruct (decide (x5 = 0)) as [->|N5]; [destruct (decide (x4 = 0)) as [->|N4]; [destruct (decide (x3 = 0)) as [->|N3]; [destruct (decide (x2 = 0)) as [->|N2]|]|]|].
  - exists 2%nat. rewrite !reverse_app, !reverse_cons. cbn. rewrite !Hdig by done. cbn. split; [by destruct (48 + x1 =? 48)|]. split; [lia|]. by repeat constructor.
  - exists 3%nat. rewrite !reverse_app, !reverse_cons. cbn. rewrite !Hdig by done. rewrite (proj2 (Z.eqb_neq (48 + x2) 48)) by lia. cbn. split; [done|]. split; [lia|]. by repeat constructor.
  - exists 4%nat. rewrite !reverse_app, !reverse_cons. cbn. rewrite !Hdig by done. rewrite (proj2 (Z.eqb_neq (48 + x3) 48)) by lia. cbn. split; [done|]. split; [lia|]. by repeat constructor.
  - exists 5%nat. rewrite !reverse_app, !reverse_cons. cbn. rewrite !Hdig by done. rewrite (proj2 (Z.eqb_neq (48 + x4) 48)) by lia. cbn. split; [done|]. split; [lia|]. by repeat constructor.
  - exists 6%nat. rewrite !reverse_app, !reverse_cons. cbn. rewrite !Hdig by done. rewrite (proj2 (Z.eqb_neq (48 + x5) 48)) by lia. cbn. split; [done|]. split; [lia|]. by repeat constructor.
Qed.

Lemma parse_units_digits l : forall k u, (length l <= k)%nat -> Forall (fun d => 0 <= d < 10) l -> 0 <= u -> u + 10 ^ Z.of_nat k <= 2 * COIN ->
  parse_units (map (Z.add 48) l) (10 ^ Z.of_nat k / 10) u = (u + digits_val 10 l * 10 ^ Z.of_nat (k - length l), []).
Proof.
  unfold COIN. induction l as [|d l IH]; intros k u Hk Hd Hu Hb; [cbn; f_equal; lia|]. inversion Hd as [|? ? Hd0 Hd1]; subst. cbn [length] in *.
  destruct k as [|k]; [lia|]. rewrite Nat2Z.inj_succ, Z.pow_succ_r in * by lia. assert (0 < 10 ^ Z.of_nat k) as Hp by lia.
  rewrite Z.mul_comm, Z.div_mul in * by lia. cbn [map parse_units]. destruct (isdigit_digit d Hd0) as (-> & _ & _ & ->). rewrite (proj2 (Z.ltb_lt 0 _)) by lia. cbn [andb].
  rewrite i64_small by (split; nia). rewrite IH; [|lia|done|nia|nia]. f_equal. rewrite digits_val_cons, Nat.sub_succ, Z.mul_add_distr_r, <- Z.mul_assoc, <- Z.pow_add_r by lia.
  replace (Z.of_nat (length l) + Z.of_nat (k - length l)) with (Z.of_nat k) by lia. lia.
Qed.

Lemma parse_amount_digits ds rest : forall w, Forall (fun d => 0 <= d < 10) ds -> parse_amount (map (Z.add 48) ds ++ 46 :: rest) w =
  let '(nUnits, rest) := parse_units rest (CENT * 10) 0 in Some (w ++ map (Z.add 48) ds, nUnits, rest).
Proof.
  induction ds as [|d ds IH]; intros w Hd; [cbn; by rewrite app_nil_r|]. inversion Hd as [|? ? Hd0 Hd1]; subst. destruct (isdigit_digit d Hd0) as (H1 & H2 & H3 & _).
  cbn [map app parse_amount]. rewrite H1, H2, H3. cbn [negb]. rewrite IH by done. by rewrite <- app_assoc.
Qed.

Lemma digits_digits ds : Forall (fun d => 0 <= d < 10) ds -> digits (map (Z.add 48) ds) = ds.
Proof. induction 1 as [|d ds Hd _ IH]; [done|]. cbn [map digits]. destruct (isdigit_digit d Hd) as (-> & _ & _ & ->). by rewrite IH. Qed.

Lemma atoi64_digits ds : Forall (fun d => 0 <= d < 10) ds -> digits_val 10 ds <= INT64_MAX -> atoi64 (map (Z.add 48) ds) = digits_val 10 ds.
Proof.
  intros Hd Hv. destruct ds as [|d ds]; [done|]. pose proof (digits_digits _ Hd) as E. inversion Hd as [|? ? Hd0 _]; subst. unfold atoi64.
  cbn [map] in *. cbn [Uint.skip_spaces]. destruct (isdigit_digit d Hd0) as (_ & -> & _ & _). rewrite (proj2 (Z.eqb_neq _ 45)), (proj2 (Z.eqb_neq _ 43)) by lia. rewrite E. lia.
Qed.

(** Amounts print and parse back, up to ten digits before the point. *)
Lemma ParseMoney_FormatMoney n : 0 <= n < 2 ^ 63 -> ParseMoney (FormatMoney n false) = if n <? 10 ^ 16 then Some n else None.
Proof.
  intros Hn. unfold FormatMoney. rewrite (proj2 (Z.ltb_ge n 0)) by lia. cbn [andb].
  replace (if 0 <? n then n else i64 (- n)) with n by (destruct (Z.ltb_spec 0 n); [done|]; by replace n with 0 by lia).
  rewrite Z.quot_div_nonneg, Z.rem_mod_nonneg by (unfold COIN; lia). pose proof (Z.mod_pos_bound n COIN eq_refl) as Hm. pose proof (Z.div_mod n COIN ltac:(done)) as Hdm.
  assert (0 <= n / COIN < 2 ^ 63) as Hq by (unfold COIN in *; lia). destruct (dec_spec (n / COIN) Hq) as (ds & E & D & V & Hne & Hk).
  destruct (sprintf_06d_spec (n mod COIN) Hm) as (x0 & x1 & x2 & x3 & x4 & x5 & Eu & Du & Vu). rewrite Eu.
  replace (i64tostr (n / COIN)) with (map (Z.add 48) ds) by (unfold i64tostr; by rewrite (proj2 (Z.ltb_ge _ 0)) by lia).
  destruct (trim_units (map (Z.add 48) ds) _ _ _ _ _ _ Du) as (k & -> & Hk6 & Hz). rewrite reverse_involutive. set (u := [x0; x1; x2; x3; x4; x5]) in *.
  assert (length (take k u) = k) as Hlt by (rewrite length_take; unfold u; cbn; lia).
  assert (digits_val 10 (take k u) * 10 ^ Z.of_nat (6 - k) = n mod COIN) as Hval.
  { assert (digits_val 10 u = digits_val 10 (take k u ++ drop k u)) as E1 by (by rewrite take_drop).
    assert (drop k u = replicate (6 - k) 0) as E2.
    { symmetry. apply replicate_as_Forall_2; [by rewrite length_drop|done]. }
    rewrite Vu, E1, digits_val_app, E2, digits_val_zeros, length_replicate. lia. }
  unfold ParseMoney. destruct ds as [|d ds]; [done|]. replace (skip_spaces _) with (map (Z.add 48) (d :: ds) ++ 46 :: map (Z.add 48) (take k u)).
  2:{ cbn [map app Uint.skip_spaces]. inversion D as [|? ? Hd0 _]; subst. by destruct (isdigit_digit d Hd0) as (_ & -> & _ & _). }
  rewrite parse_amount_digits by done. change (CENT * 10) with (10 ^ Z.of_nat 6 / 10).
  rewrite parse_units_digits; [|lia|by apply Forall_take|done|done]. rewrite Hlt, Hval. cbn [mbind option_bind forallb negb app]. rewrite length_map.
  rewrite (proj2 (Z.ltb_ge (0 + n mod COIN) 0)), (proj2 (Z.ltb_ge COIN (0 + n mod COIN))) by lia. cbn [orb].
  destruct (Z.ltb_spec n (10 ^ 16)) as [Hlt16|Hge16].
  - assert (length (d :: ds) <= 10)%nat as Hl by (apply Hk; [lia|]; unfold COIN in *; lia). rewrite (proj2 (Z.ltb_ge 10 _)) by lia.
    rewrite atoi64_digits by (try done; rewrite V; unfold INT64_MAX; lia). rewrite V, i64_small by lia. f_equal. lia.
  - rewrite (proj2 (Z.ltb_lt 10 _)); [done|]. destruct (decide (length (d :: ds) <= 10)%nat) as [Hl|]; [|lia]. apply Hk in Hl; [|lia]. unfold COIN in *. lia.
Qed.

(** ** Wildcards *)

Lemma matches_star s mask : matches s (42 :: mask) <-> exists t s', s = t ++ s' /\ matches s' mask.
Proof. split; [by inversion 1; subst; eauto|]. intros (t & s' & -> & H). by constructor. Qed.

Lemma WildcardMatch_matches mask : forall s, WildcardMatch s mask = true <-> matches s mask.
Proof.
  induction mask as [|m mask IH]; intros s.
  - cbn. rewrite bool_decide_eq_true. split; [intros ->; constructor|by inversion 1].
  - cbn [WildcardMatch]. destruct (Z.eqb_spec m 42) as [->|Hm].
    + induction s as [|c s IHs].
      * rewrite orb_false_r, IH, matches_star. split; [by exists [], []|]. intros (t & s' & E & H). by destruct (app_eq_nil _ _ (eq_sym E)) as [_ ->].
      * rewrite orb_true_iff, IH, IHs, !matches_star. split.
        -- intros [H|(t & s' & -> & H)]; [by exists [], (c :: s)|by exists (c :: t), s'].
        -- intros ([|c' t] & s' & E & H); cbn in E; [subst s'; by left|]. injection E as -> ->. right. by exists t, s'.
    + destruct s as [|c s]; [split; [done|]; inversion 1; subst; congruence|]. destruct (Z.eqb_spec m 63) as [->|Hq]; cbn [orb].
      * rewrite IH. split; [by constructor|]. by inversion 1.
      * destruct (Z.eqb_spec c m) as [->|Hne]; [rewrite IH; split; [by constructor|by inversion 1]|]. split; [done|]. by inversion 1.
Qed.

(** The text forms: what [HexStr] prints, with or without blanks, [ParseHex]
    reads back; base64 text decodes to the bytes it was made of and is valid;
    an amount of money below 10^10 coins prints to a text that parses to it,
    and the text of a larger amount is refused; a wildcard mask matches
    exactly the strings it stands for. *)
Theorem text_round_trips :
  (forall vch fSpaces, Forall is_byte vch -> ParseHex (HexStr vch fSpaces) = vch) /\
  (forall vch, Forall is_byte vch -> DecodeBase64 (EncodeBase64 vch) = (vch, false)) /\
  (forall n, 0 <= n < 2 ^ 63 -> ParseMoney (FormatMoney n false) = if n <? 10 ^ 16 then Some n else None) /\
  (forall psz mask, WildcardMatch psz mask = true <-> matches psz mask).
Proof.
  split; [|split; [|split]].
  - intros vch fSpaces H. by apply ParseHex_loop.
  - intros vch H. unfold DecodeBase64, EncodeBase64.
    destruct (decode_encode64 (length vch) vch 0 0) as (mode & l' & rest & -> & Hm); [lia|done|]. by destruct Hm as [->|[(-> & -> & ->)|(-> & -> & ->)]].
  - apply ParseMoney_FormatMoney.
  - intros psz mask. apply WildcardMatch_matches.
Qed.

End Util.
