(* ===== verification/TxInfo.v ===== *)
(** * The transaction information store (src/src/txinfo.h, src/src/txinfo.cpp)

    A table of records that transactions attach to addresses, kept in an SQL
    database.  The table is the list of its rows in the order of insertion;
    each SQL statement of the code is written out as the list operation it
    denotes.  An address is the text that the statements see, a block hash the
    number whose 64 hexadecimal digits are stored.  [seq] is what
    AUTOINCREMENT has given out; [snapshot] is what a rollback restores. *)

From stdpp Require Import list sorting.
From S2P Require Import Prelude Tx.
Import Tx.

Record TxInfoRecord := mk_record {
  rec_addr : list Z;
  rec_info : CTxInfo;
  rec_blockHash : Z;
  rec_indexTx : Z;
  rec_indexTxIn : Z;
  rec_indexInfo : Z
}.

(** A row of TxDbEntry. *)
Record row := mk_row { row_id : Z; is_latest : bool; row_rec : TxInfoRecord }.

#[export] Instance TxInfoRecord_eq_dec : EqDecision TxInfoRecord.
Proof. solve_decision. Defined.
#[export] Instance row_eq_dec : EqDecision row.
Proof. solve_decision. Defined.

Record CTxInfoStore := mk_store {
  rows : list row;
  seq : Z;
  snapshot : option (list row * Z);
  byteEstimate : Z
}.

Module TxInfo.

Definition row_addr (r : row) : list Z := rec_addr (row_rec r).
Definition row_key (r : row) : TxInfoKey := info_key (rec_info (row_rec r)).
Definition row_value (r : row) : list Z := info_value (rec_info (row_rec r)).

(** [WHERE address=? AND key_type=? AND key=?] *)
Definition matches (a : list Z) (k : TxInfoKey) (r : row) : bool :=
  bool_decide (row_addr r = a) && bool_decide (row_key r = k).

Definition set_latest (b : bool) (r : row) : row := mk_row (row_id r) b (row_rec r).

Definition with_rows (s : CTxInfoStore) (l : list row) : CTxInfoStore := mk_store l (seq s) (snapshot s) (byteEstimate s).

(** ** Transactions; [None] is the exception *)

Definition InTransaction (s : CTxInfoStore) : bool := bool_decide (is_Some (snapshot s)).

Definition BeginTransaction (s : CTxInfoStore) : option CTxInfoStore :=
  if InTransaction s then None else Some (mk_store (rows s) (seq s) (Some (rows s, seq s)) 0).

Definition Commit (s : CTxInfoStore) : option CTxInfoStore :=
  if InTransaction s then Some (mk_store (rows s) (seq s) None 0) else None.

Definition Rollback (s : CTxInfoStore) : option CTxInfoStore :=
  '(l, n) ← snapshot s; Some (mk_store l n None 0).

Definition GetCommitByteEstimate (s : CTxInfoStore) : Z := if InTransaction s then byteEstimate s else 0.

(** [Reset]: the table is dropped and created. *)
Definition Reset (s : CTxInfoStore) : CTxInfoStore := mk_store [] 0 (snapshot s) (byteEstimate s).

(** ** Queries *)

(** [SELECT MAX(id) ... WHERE address=? AND key_type=? AND key=?] *)
Definition max_id (a : list Z) (k : TxInfoKey) (l : list row) : option Z :=
  foldr (fun r m => if matches a k r then Some (match m with Some x => Z.max (row_id r) x | None => row_id r end) else m) None l.

(** [WHERE id=(SELECT MAX(id) ...)] *)
Definition is_max (a : list Z) (k : TxInfoKey) (l : list row) (r : row) : bool :=
  match max_id a k l with Some m => row_id r =? m | None => false end.

Definition Get (s : CTxInfoStore) (a : list Z) (k : TxInfoKey) : option (list Z) :=
  row_value <$> head (List.filter (is_max a k (rows s)) (rows s)).

Definition AddressesWithValue (s : CTxInfoStore) (k : TxInfoKey) (v : list Z) : list (list Z) :=
  row_addr <$> List.filter (fun r => bool_decide (row_key r = k) && bool_decide (row_value r = v) && is_latest r) (rows s).

(** The outer [None] is an exception. *)
Definition UniqueAddressWithValue (s : CTxInfoStore) (k : TxInfoKey) (v : list Z) : option (option (list Z)) :=
  if negb ((info_type k =? INFO_UNIQUE) || (info_type k =? INFO_ID)) then None
  else match AddressesWithValue s k v with
       | [] => Some None
       | [a] => Some (Some a)
       | _ => None
       end.

Definition RecordsWithAddress (s : CTxInfoStore) (a : list Z) : list TxInfoRecord :=
  row_rec <$> List.filter (fun r => bool_decide (row_addr r = a)) (rows s).

Definition RecordsWithKey (s : CTxInfoStore) (k : TxInfoKey) : list TxInfoRecord :=
  row_rec <$> List.filter (fun r => bool_decide (row_key r = k)) (rows s).

(** ** Processing and undoing a record *)

Definition IsValid (s : CTxInfoStore) (r : TxInfoRecord) : option bool :=
  let k := info_key (rec_info r) in
  if negb (info_IsValid (rec_info r)) then Some false
  else
    let unique := (info_type k =? INFO_UNIQUE) || (info_type k =? INFO_ID) in
    taken ← (if unique then UniqueAddressWithValue s k (info_value (rec_info r)) else Some None);
    match taken with
    | Some _ => Some false
    | None =>
        if (unique || (info_type k =? INFO_WRITE_ONCE))
           && bool_decide (0 < length (List.filter (matches (rec_addr r) k) (rows s)))%nat
        then Some false
        else Some true
    end.

(** The result and the store; [None] is an exception. *)
Definition Process_ (s : CTxInfoStore) (r : TxInfoRecord) : option (bool * CTxInfoStore) :=
  ok ← IsValid s r;
  if negb ok then Some (false, s)
  else
    let a := rec_addr r in
    let k := info_key (rec_info r) in
    let l := map (fun x => if matches a k x then set_latest false x else x) (rows s) in
    let bytes := 4 + 1 + Z.of_nat (length a) + 1 + Z.of_nat (length (keyString k)) + Z.of_nat (length (info_value (rec_info r))) + 64 + 12 in
    Some (true, mk_store (l ++ [mk_row (seq s + 1) true r]) (seq s + 1) (snapshot s) (u32 (byteEstimate s + bytes))).

Definition Undo_ (s : CTxInfoStore) (r : TxInfoRecord) : bool * CTxInfoStore :=
  let a := rec_addr r in
  let k := info_key (rec_info r) in
  let hit x := is_latest x && bool_decide (row_rec x = r) in
  let l := List.filter (fun x => negb (hit x)) (rows s) in
  if bool_decide (length (List.filter hit (rows s)) = 0%nat) then (false, s)
  else (true, with_rows s (map (fun x => if is_max a k l x then set_latest true x else x) l)).

(** Outside a transaction the record is processed in one of its own, which is
    rolled back when it fails. *)
Definition in_view (s : CTxInfoStore) (f : CTxInfoStore -> option (bool * CTxInfoStore)) : option (bool * CTxInfoStore) :=
  if InTransaction s then f s
  else
    s0 ← BeginTransaction s;
    '(ok, s1) ← f s0;
    s2 ← (if (ok : bool) then Commit s1 else Rollback s1);
    Some (ok, s2).

Definition Process (s : CTxInfoStore) (r : TxInfoRecord) : option (bool * CTxInfoStore) := in_view s (fun s => Process_ s r).
Definition Undo (s : CTxInfoStore) (r : TxInfoRecord) : option (bool * CTxInfoStore) := in_view s (fun s => Some (Undo_ s r)).

(** ** The invariant *)

Definition unique_type (k : TxInfoKey) : Prop := info_type k = INFO_UNIQUE \/ info_type k = INFO_ID.
Definition once_type (k : TxInfoKey) : Prop := unique_type k \/ info_type k = INFO_WRITE_ONCE.

Record rows_ok (l : list row) : Prop := {
  ok_sorted : StronglySorted (fun x y => row_id x < row_id y) l;
  ok_latest : forall x, x ∈ l ->
    is_latest x = true <-> (forall y, y ∈ l -> matches (row_addr x) (row_key x) y = true -> row_id y <= row_id x);
  ok_once : forall x y, x ∈ l -> y ∈ l -> once_type (row_key x) -> matches (row_addr x) (row_key x) y = true -> x = y;
  ok_unique : forall x y, x ∈ l -> y ∈ l -> unique_type (row_key x) -> row_key y = row_key x -> row_value y = row_value x -> x = y
}.

Definition store_ok (s : CTxInfoStore) : Prop := rows_ok (rows s) /\ Forall (fun r => row_id r <= seq s) (rows s).

Lemma matches_spec a k r : matches a k r = true <-> row_addr r = a /\ row_key r = k.
Proof. unfold matches. rewrite andb_true_iff, !bool_decide_eq_true. done. Qed.

Lemma matches_set_latest a k b r : matches a k (set_latest b r) = matches a k r.
Proof. done. Qed.

Lemma sorted_id_inj l x y : StronglySorted (fun x y => row_id x < row_id y) l -> x ∈ l -> y ∈ l -> row_id x = row_id y -> x = y.
Proof.
  induction 1 as [|z l Hs IH Hz]; intros Hx Hy E; [by apply elem_of_nil in Hx|]. rewrite Forall_forall in Hz.
  apply elem_of_cons in Hx as [->|Hx]; apply elem_of_cons in Hy as [->|Hy]; [done| | |by apply IH].
  - specialize (Hz y Hy). lia.
  - specialize (Hz x Hx). lia.
Qed.

Lemma max_id_spec a k l :
  match max_id a k l with
  | Some m => (exists x, x ∈ l /\ matches a k x = true /\ row_id x = m) /\ (forall y, y ∈ l -> matches a k y = true -> row_id y <= m)
  | None => forall y, y ∈ l -> matches a k y = false
  end.
Proof.
  induction l as [|r l IH]; [intros y Hy; by apply elem_of_nil in Hy|]. cbn [max_id foldr]. fold (max_id a k l).
  destruct (matches a k r) eqn:Em.
  - destruct (max_id a k l) as [m|].
    + destruct IH as [(x & Hx & Ex & <-) Hle]. split.
      * destruct (Z.max_spec (row_id r) (row_id x)) as [[? ->]|[? ->]]; [exists x|exists r]; (split; [|done]); [by right|by left].
      * intros y [->|Hy]%elem_of_cons Ey; [lia|]. specialize (Hle y Hy Ey). lia.
    + split; [exists r; split; [by left|done]|]. intros y [->|Hy]%elem_of_cons Ey; [lia|]. rewrite (IH y Hy) in Ey. done.
  - destruct (max_id a k l) as [m|].
    + destruct IH as [(x & Hx & Ex) Hle]. split; [exists x; split; [by right|done]|].
      intros y [->|Hy]%elem_of_cons Ey; [congruence|by apply Hle].
    + intros y [->|Hy]%elem_of_cons; [done|by apply IH].
Qed.

(** The row that [WHERE id=(SELECT MAX(id) ...)] names is the latest one. *)
Lemma is_max_latest l x a k : rows_ok l -> x ∈ l -> is_max a k l x = matches a k x && is_latest x.
Proof.
  intros Hok Hx. unfold is_max. pose proof (max_id_spec a k l) as Hm. destruct (max_id a k l) as [m|].
  2:{ by rewrite (Hm x Hx). }
  destruct Hm as [(y & Hy & Ey & <-) Hle]. destruct (matches a k x) eqn:Ex; cbn [andb].
  - apply matches_spec in Ex as [<- <-].
    destruct (is_latest x) eqn:El.
    + apply Z.eqb_eq. apply (ok_latest l Hok x Hx) with (y := y) in El; [|done|done].
      assert (matches (row_addr x) (row_key x) x = true) as Exx by (by apply matches_spec). specialize (Hle x Hx Exx). lia.
    + apply Z.eqb_neq. intros E. assert (x = y) as <- by (by apply (sorted_id_inj l); [apply (ok_sorted l Hok)|..]).
      enough (is_latest x = true) by congruence. by apply (ok_latest l Hok x Hx).
  - apply Z.eqb_neq. intros E. assert (x = y) as <- by (by apply (sorted_id_inj l); [apply (ok_sorted l Hok)|..]). congruence.
Qed.

(** Rows of a non-overwritable key are latest. *)
Lemma once_latest l x : rows_ok l -> x ∈ l -> once_type (row_key x) -> is_latest x = true.
Proof.
  intros Hok Hx Ho. apply (ok_latest l Hok x Hx). intros y Hy Em. by rewrite (ok_once l Hok x y Hx Hy Ho Em).
Qed.

Lemma filter_elem f (l : list row) x : x ∈ List.filter f l <-> x ∈ l /\ f x = true.
Proof. by rewrite !list_elem_of_In, filter_In. Qed.

(** A value of a unique key belongs to one address at most, so that the check
    for several addresses never throws. *)
Lemma unique_address_total s k v : rows_ok (rows s) -> unique_type k ->
  exists o, UniqueAddressWithValue s k v = Some o /\
    (forall a, o = Some a <-> exists x, x ∈ rows s /\ row_addr x = a /\ row_key x = k /\ row_value x = v).
Proof.
  intros Hok Hu. unfold UniqueAddressWithValue.
  replace (negb _) with false.
  2:{ symmetry. apply negb_false_iff, orb_true_iff. rewrite !Z.eqb_eq. done. }
  unfold AddressesWithValue. set (f := fun r : row => bool_decide (row_key r = k) && bool_decide (row_value r = v) && is_latest r).
  assert (forall x, x ∈ List.filter f (rows s) <-> x ∈ rows s /\ row_key x = k /\ row_value x = v) as Hf.
  { intros x. rewrite filter_elem. unfold f. rewrite !andb_true_iff, !bool_decide_eq_true. split; [tauto|].
    intros (Hx & <- & <-). split; [done|]. split; [done|]. apply (once_latest (rows s)); [done|done|by left]. }
  destruct (List.filter f (rows s)) as [|x [|y l]] eqn:El; cbn.
  - exists None. split; [done|]. intros a. split; [done|]. intros (x & Hx & _ & H1 & H2).
    assert (x ∈ ([] : list row)) as Hn by (by apply Hf). by apply elem_of_nil in Hn.
  - exists (Some (row_addr x)). split; [done|]. destruct (proj1 (Hf x) ltac:(by left)) as (Hx & H1 & H2).
    intros a. split; [intros [= <-]; eauto|]. intros (z & Hz & <- & H3 & H4). f_equal.
    rewrite (ok_unique (rows s) Hok x z Hx Hz); [done| | |]; congruence.
  - exfalso. destruct (proj1 (Hf x) ltac:(by left)) as (Hx & H1 & H2), (proj1 (Hf y) ltac:(by right; left)) as (Hy & H3 & H4).
    assert (x = y) as <- by (apply (ok_unique (rows s) Hok); congruence).
    assert (NoDup (rows s)) as Hnd.
    { pose proof (ok_sorted _ Hok) as Hs. clear -Hs. induction Hs as [|z l Hs IH Hz]; constructor; [|done].
      intros Hin. rewrite Forall_forall in Hz. specialize (Hz z Hin). lia. }
    assert (NoDup (List.filter f (rows s))) as Hnf by (apply NoDup_ListNoDup, List.NoDup_filter, NoDup_ListNoDup; done).
    rewrite El in Hnf. inversion Hnf as [|? ? Hnin _]. apply Hnin. by left.
Qed.

(** ** Processing *)

Definition acceptable (l : list row) (r : TxInfoRecord) : Prop :=
  let k := info_key (rec_info r) in
  info_IsValid (rec_info r) = true /\
  (unique_type k -> forall x, x ∈ l -> row_key x = k -> row_value x <> info_value (rec_info r)) /\
  (once_type k -> forall x, x ∈ l -> matches (rec_addr r) k x = false).

Lemma no_match_length f (l : list row) :
  bool_decide (0 < length (List.filter f l))%nat = false <-> forall x, x ∈ l -> f x = false.
Proof.
  rewrite bool_decide_eq_false. split.
  - intros H x Hx. destruct (f x) eqn:E; [|done]. exfalso. apply H.
    assert (x ∈ List.filter f l) as Hin by (by apply filter_elem). destruct (List.filter f l); [by apply elem_of_nil in Hin|cbn; lia].
  - intros H Hlt. destruct (List.filter f l) as [|x t] eqn:E; [cbn in Hlt; lia|].
    assert (x ∈ List.filter f l) as Hin by (rewrite E; by left). apply filter_elem in Hin as [Hx Ex]. by rewrite (H x Hx) in Ex.
Qed.

Lemma IsValid_total s r : rows_ok (rows s) -> exists b, IsValid s r = Some b /\ (b = true <-> acceptable (rows s) r).
Proof.
  intros Hok. unfold IsValid, acceptable. set (k := info_key (rec_info r)). set (v := info_value (rec_info r)).
  destruct (info_IsValid (rec_info r)); cbn [negb]; [|exists false; split; [done|]; split; [done|by intros (? & _)]].
  assert ((info_type k =? INFO_UNIQUE) || (info_type k =? INFO_ID) = true <-> unique_type k) as Hu.
  { rewrite orb_true_iff, !Z.eqb_eq. done. }
  assert (forall b, (b = true <-> once_type k) ->
    exists b', (if b && bool_decide (0 < length (List.filter (matches (rec_addr r) k) (rows s)))%nat then Some false else Some true) = Some b' /\
      (b' = true <-> (once_type k -> forall x, x ∈ rows s -> matches (rec_addr r) k x = false))) as Hcount.
  { intros b Hb. exists (negb (b && bool_decide (0 < length (List.filter (matches (rec_addr r) k) (rows s)))%nat)).
    split; [by destruct (b && _)|]. rewrite negb_true_iff. split.
    - intros E Ho. apply no_match_length. apply Hb in Ho. rewrite Ho in E. done.
    - intros H. destruct b; [|done]. cbn [andb]. apply no_match_length, H, Hb. done. }
  destruct ((info_type k =? INFO_UNIQUE) || (info_type k =? INFO_ID)) eqn:Eu.
  - assert (unique_type k) as Huk by (by apply Hu). destruct (unique_address_total s k v Hok Huk) as (o & -> & Ho). cbn [mbind option_bind].
    destruct o as [a|].
    + exists false. split; [done|]. split; [done|]. intros (_ & H & _). destruct (proj1 (Ho a) eq_refl) as (x & Hx & _ & H1 & H2).
      by destruct (H Huk x Hx H1).
    + destruct (Hcount true) as (b' & E & Hb'); [split; [by left|done]|]. cbn [orb]. exists b'. split; [done|]. rewrite Hb'. split; [|tauto].
      intros H. split; [done|]. split; [|done]. intros _ x Hx H1 H2.
      assert (None = Some (row_addr x)) as Ex by (apply Ho; eauto). done.
  - cbn [mbind option_bind orb].
    destruct (Hcount (info_type k =? INFO_WRITE_ONCE)) as (b' & E & Hb').
    { rewrite Z.eqb_eq. split; [by right|]. intros [H|H]; [apply Hu in H; done|done]. }
    exists b'. split; [done|]. rewrite Hb'. split; [|tauto]. intros H. split; [done|]. split; [|done].
    intros H'. apply Hu in H'. done.
Qed.

(** The rows after a record is accepted. *)
Definition processed (l : list row) (id : Z) (r : TxInfoRecord) : list row :=
  map (fun x => if matches (rec_addr r) (info_key (rec_info r)) x then set_latest false x else x) l ++ [mk_row id true r].

Lemma processed_elem l id r x : x ∈ processed l id r <->
  x = mk_row id true r \/
  exists y, y ∈ l /\ x = (if matches (rec_addr r) (info_key (rec_info r)) y then set_latest false y else y).
Proof.
  unfold processed. rewrite elem_of_app, list_elem_of_singleton. rewrite (list_elem_of_fmap _ l x). firstorder.
Qed.

Lemma processed_ok l id r : rows_ok l -> Forall (fun x => row_id x < id) l -> acceptable l r -> rows_ok (processed l id r).
Proof.
  intros [Hs Hl Ho Hu] Hid (_ & Hau & Hao). rewrite Forall_forall in Hid. set (k := info_key (rec_info r)) in *.
  assert (forall y, row_rec (if matches (rec_addr r) k y then set_latest false y else y) = row_rec y) as Erec by (intros y; by destruct (matches _ _ y)).
  assert (forall y, row_id (if matches (rec_addr r) k y then set_latest false y else y) = row_id y) as Eid by (intros y; by destruct (matches _ _ y)).
  assert (forall y, row_addr (if matches (rec_addr r) k y then set_latest false y else y) = row_addr y) as Eaddr by (intros y; by destruct (matches _ _ y)).
  assert (forall y, row_key (if matches (rec_addr r) k y then set_latest false y else y) = row_key y) as Ekey by (intros y; by destruct (matches _ _ y)).
  assert (forall y, row_value (if matches (rec_addr r) k y then set_latest false y else y) = row_value y) as Eval by (intros y; by destruct (matches _ _ y)).
  assert (forall a' k' y, matches a' k' (if matches (rec_addr r) k y then set_latest false y else y) = matches a' k' y) as Ematch.
  { intros a' k' y. unfold matches at 1. by rewrite Eaddr, Ekey. }
  assert (forall y, once_type k -> y ∈ l -> matches (rec_addr r) k y = false) as Hno by (intros y Hok Hy; by apply Hao).
  split.
  - unfold processed. fold k. apply StronglySorted_app_2; [|  |repeat constructor].
    2:{ clear -Hs Eid. induction Hs as [|x l Hs IH Hx]; cbn; constructor; [done|].
      apply Forall_forall. intros z (y & -> & Hy)%list_elem_of_fmap. rewrite !Eid. rewrite Forall_forall in Hx. by apply Hx. }
    intros x y Hx Hy. apply list_elem_of_fmap in Hx as (z & -> & Hz).
    apply list_elem_of_singleton in Hy as ->. rewrite Eid. by apply Hid.
  - intros x [->|(y & Hy & ->)]%processed_elem.
    + split; [intros _|done]. intros z [->|(y & Hy & ->)]%processed_elem _; [done|]. fold k. rewrite Eid. cbn. specialize (Hid y Hy). lia.
    + fold k. rewrite Eaddr, Ekey, Eid. destruct (matches (rec_addr r) k y) eqn:Em.
      * cbn. split; [done|]. intros H. specialize (H (mk_row id true r)). exfalso.
        apply matches_spec in Em as [E1 E2]. assert (id <= row_id y) as Hle.
        { apply H; [apply processed_elem; by left|]. apply matches_spec. split; symmetry; [exact E1|exact E2]. }
        specialize (Hid y Hy). lia.
      * rewrite (Hl y Hy). split.
        -- intros H z [->|(w & Hw & ->)]%processed_elem; fold k.
           ++ intros Ez. apply matches_spec in Ez as [E1 E2]. exfalso.
              assert (matches (rec_addr r) k y = true) by (apply matches_spec; split; symmetry; [exact E1|exact E2]). congruence.
           ++ rewrite Ematch, Eid. by apply H.
        -- intros H z Hz Ez. specialize (H (if matches (rec_addr r) k z then set_latest false z else z)).
           rewrite Ematch, Eid in H. apply H; [|done]. apply processed_elem. right. eauto.
  - intros x y [->|(x' & Hx & ->)]%processed_elem [->|(y' & Hy & ->)]%processed_elem; fold k; try done.
    + rewrite Ematch. unfold row_addr, row_key. cbn. fold k. intros Hok E. rewrite (Hno y' Hok Hy) in E. done.
    + rewrite Eaddr, Ekey. intros Hok E. apply matches_spec in E as [E1 E2].
      exfalso. assert (matches (rec_addr r) k x' = true) as Em by (apply matches_spec; split; symmetry; [exact E1|exact E2]).
      rewrite (Hno x') in Em; [done|by rewrite <- E2 in Hok|done].
    + rewrite Eaddr, Ekey, Ematch. intros Hok E. by rewrite (Ho x' y' Hx Hy Hok E).
  - intros x y [->|(x' & Hx & ->)]%processed_elem [->|(y' & Hy & ->)]%processed_elem; fold k; try done.
    + rewrite Ekey, Eval. intros Hut E1 E2. by destruct (Hau Hut y' Hy E1).
    + rewrite Ekey, Eval. intros Hut E1 E2. change (row_key (mk_row id true r)) with k in E1. rewrite <- E1 in Hut. exfalso.
      apply (Hau Hut x' Hx); [done|]. by rewrite <- E2.
    + rewrite !Ekey, !Eval. intros Hut E1 E2. by rewrite (Hu x' y' Hx Hy Hut E1 E2).
Qed.

(** ** Undoing *)

(** Undoing the record that was processed last gives back the table. *)
Lemma undo_processed l id r sq sn by_ : rows_ok l -> Forall (fun x => row_id x < id) l ->
  Undo_ (mk_store (processed l id r) sq sn by_) r = (true, mk_store l sq sn by_).
Proof.
  intros Hok Hid. unfold Undo_, with_rows. cbv zeta. cbn [rows seq snapshot byteEstimate]. set (a := rec_addr r). set (k := info_key (rec_info r)).
  set (hit := fun x => is_latest x && bool_decide (row_rec x = r)).
  set (old := map (fun x => if matches a k x then set_latest false x else x) l).
  assert (forall x, x ∈ old -> hit x = false) as Hold.
  { intros x (y & -> & Hy)%list_elem_of_fmap. unfold hit. destruct (matches a k y) eqn:Em; [done|].
    destruct (is_latest y); [|done]. cbn. apply bool_decide_eq_false. intros E.
    unfold matches, row_addr, row_key in Em. rewrite E in Em. fold a k in Em. rewrite !bool_decide_true in Em by done. done. }
  assert (forall f (t : list row), (forall x, x ∈ t -> f x = true) -> List.filter f t = t) as Hall.
  { intros f t H. induction t as [|x t IH]; [done|]. cbn. rewrite (H x ltac:(by left)). f_equal. apply IH. intros y Hy. apply H. by right. }
  assert (List.filter (fun x => negb (is_latest x && bool_decide (row_rec x = r))) (processed l id r) = old) as Ef.
  { change (List.filter (fun x => negb (hit x)) (processed l id r) = old). unfold processed. fold a k old. rewrite List.filter_app. cbn [List.filter].
    replace (hit (mk_row id true r)) with true by (unfold hit; cbn; by rewrite bool_decide_true). cbn [negb]. rewrite app_nil_r.
    apply Hall. intros x Hx. by rewrite (Hold x Hx). }
  rewrite Ef. rewrite bool_decide_false.
  2:{ unfold processed. fold a k old. rewrite List.filter_app, length_app. cbn [List.filter].
      replace (hit (mk_row id true r)) with true by (unfold hit; cbn; by rewrite bool_decide_true). cbn. lia. }
  do 2 f_equal.
  assert (max_id a k old = max_id a k l) as Emax.
  { clear. subst old. induction l as [|x l IH]; [done|]. cbn [map max_id foldr]. fold (max_id a k l).
    fold (max_id a k (map (fun x => if matches a k x then set_latest false x else x) l)). rewrite IH.
    by destruct (matches a k x) eqn:E; [rewrite matches_set_latest|]; rewrite E. }
  assert (forall x, is_max a k old x = is_max a k l x) as Eis by (intros x; unfold is_max; by rewrite Emax).
  unfold old. rewrite map_map. rewrite <- (map_id l) at 2. apply map_ext_in. intros x Hx. rewrite <- list_elem_of_In in Hx.
  fold old. rewrite Eis. replace (is_max a k l (if matches a k x then set_latest false x else x)) with (is_max a k l x).
  2:{ unfold is_max. by destruct (matches a k x). }
  rewrite (is_max_latest l x a k Hok Hx). destruct (matches a k x); cbn [andb]; [|done].
  destruct (is_latest x) eqn:El; unfold set_latest; destruct x; cbn in *; by subst.
Qed.

(** A record that is not the latest of its key is not undone. *)
Lemma undo_nothing s r : (forall x, x ∈ rows s -> row_rec x <> r) -> Undo_ s r = (false, s).
Proof.
  intros H. unfold Undo_. rewrite bool_decide_true; [done|].
  destruct (List.filter _ (rows s)) as [|x t] eqn:E; [done|]. exfalso.
  assert (x ∈ List.filter (fun x => is_latest x && bool_decide (row_rec x = r)) (rows s)) as Hin by (rewrite E; by left).
  apply filter_elem in Hin as [Hx Ex]. apply andb_true_iff in Ex as [_ Ex]. apply bool_decide_eq_true in Ex. by apply (H x).
Qed.

(** ** The store as a map *)

Lemma latest_unique l x y : rows_ok l -> x ∈ l -> y ∈ l -> is_latest x = true -> is_latest y = true ->
  matches (row_addr x) (row_key x) y = true -> x = y.
Proof.
  intros Hok Hx Hy Lx Ly Em. apply (sorted_id_inj l); [apply (ok_sorted l Hok)|done|done|].
  pose proof (proj1 (ok_latest l Hok x Hx) Lx y Hy Em). apply matches_spec in Em as [E1 E2].
  assert (matches (row_addr y) (row_key y) x = true) as Em' by (by apply matches_spec).
  pose proof (proj1 (ok_latest l Hok y Hy) Ly x Hx Em'). lia.
Qed.

Lemma Get_spec s a k v : rows_ok (rows s) ->
  Get s a k = Some v <-> exists x, x ∈ rows s /\ matches a k x = true /\ is_latest x = true /\ row_value x = v.
Proof.
  intros Hok. unfold Get. set (f := is_max a k (rows s)).
  assert (forall x, x ∈ List.filter f (rows s) <-> x ∈ rows s /\ matches a k x = true /\ is_latest x = true) as Hf.
  { intros x. rewrite filter_elem. unfold f. split.
    - intros [Hx E]. rewrite is_max_latest in E by done. apply andb_true_iff in E. tauto.
    - intros (Hx & E1 & E2). split; [done|]. rewrite is_max_latest by done. by rewrite E1, E2. }
  split.
  - intros E. apply fmap_Some in E as (x & E & ->). apply head_Some in E as (t & E).
    destruct (proj1 (Hf x)) as (H1 & H2 & H3); [rewrite E; by left|]. eauto.
  - intros (x & Hx & Em & El & <-). destruct (List.filter f (rows s)) as [|y t] eqn:E.
    + assert (x ∈ ([] : list row)) as Hin by (by apply Hf). by apply elem_of_nil in Hin.
    + cbn. f_equal. destruct (proj1 (Hf y) ltac:(by left)) as (Hy & Emy & Ely). f_equal.
      apply (latest_unique (rows s)); try done. apply matches_spec in Em as [<- <-]. apply matches_spec in Emy as [E1 E2].
      apply matches_spec. by split.
Qed.

Lemma Get_option_ext (o1 o2 : option (list Z)) : (forall v, o1 = Some v <-> o2 = Some v) -> o1 = o2.
Proof. intros H. apply option_eq. done. Qed.


(** A view that is left without a commit gives back the table it began with. *)
Lemma rollback_restores s s0 s1 : BeginTransaction s = Some s0 -> snapshot s1 = snapshot s0 ->
  exists s2, Rollback s1 = Some s2 /\ rows s2 = rows s /\ seq s2 = seq s /\ InTransaction s2 = false.
Proof.
  unfold BeginTransaction, Rollback. destruct (InTransaction s); [done|]. intros [= <-] ->. cbn. eexists. split; [done|]. done.
Qed.

Lemma Process_snapshot s r ok s' : Process_ s r = Some (ok, s') -> snapshot s' = snapshot s.
Proof.
  unfold Process_. destruct (IsValid s r) as [[]|]; cbn; [|intros [= <- <-]; done|done]. intros [= <- <-]. done.
Qed.

(** ** Witness *)

Definition demo_store : CTxInfoStore := mk_store [] 0 None 0.
Definition demo_record (a : list Z) (ty : Z) (v : list Z) : TxInfoRecord := mk_record a (mk_info (mk_infokey ty [110]) v) 5 1 0 0.


End TxInfo.
