(* ===== verification/Coins.v ===== *)
(** * The abstract ledger

    What the transaction database promises to the rest of the program: a set
    of coins.  Every transaction hash that is known has one flag per output,
    true while the output is unspent.  A transaction spends the outputs it
    names, each of which must be unspent, and creates its own; undoing it
    takes both back.  Ledger.v and ConnectBlock.v refine this specification. *)

From stdpp Require Import gmap.
From S2P Require Import Prelude Tx.

Abbreviation coins := (gmap Z (list bool)).

Module Coins.

(** A transaction as the ledger sees it: the outputs it spends, its hash and
    the number of its outputs. *)
Record action := mk_action { act_spends : list COutPoint; act_hash : Z; act_outputs : nat }.

Definition unspent (c : coins) (o : COutPoint) : bool :=
  default false (c !! prevhash o ≫= fun l => l !! Z.to_nat (out_n o)).

Definition set_flag (b : bool) (o : COutPoint) (c : coins) : coins :=
  alter (fun l => <[Z.to_nat (out_n o) := b]> l) (prevhash o) c.

Definition spend (c : coins) (o : COutPoint) : option coins :=
  if unspent c o then Some (set_flag false o c) else None.

(** Whether the ledger has the output at all. *)
Definition known (c : coins) (o : COutPoint) : bool :=
  bool_decide (is_Some (c !! prevhash o ≫= fun l => l !! Z.to_nat (out_n o))).

Definition unspend (c : coins) (o : COutPoint) : option coins :=
  if known c o then Some (set_flag true o c) else None.

Fixpoint spend_all (os : list COutPoint) (c : coins) : option coins :=
  match os with
  | [] => Some c
  | o :: os => c ← spend c o; spend_all os c
  end.

Fixpoint unspend_all (os : list COutPoint) (c : coins) : option coins :=
  match os with
  | [] => Some c
  | o :: os => c ← unspend c o; unspend_all os c
  end.

Definition apply_tx (a : action) (c : coins) : option coins :=
  c ← spend_all (act_spends a) c; Some (<[act_hash a := replicate (act_outputs a) true]> c).

Definition undo_tx (a : action) (c : coins) : option coins :=
  c ← unspend_all (act_spends a) c; Some (delete (act_hash a) c).

Fixpoint apply_all (l : list action) (c : coins) : option coins :=
  match l with
  | [] => Some c
  | a :: l => c ← apply_tx a c; apply_all l c
  end.

Fixpoint undo_all (l : list action) (c : coins) : option coins :=
  match l with
  | [] => Some c
  | a :: l => c ← undo_tx a c; undo_all l c
  end.

(** No output of the hash is unspent. *)
Definition dead (c : coins) (h : Z) : Prop := forall l, c !! h = Some l -> Forall (fun b => b = false) l.

(** ** Spending *)

Lemma lookup_set_flag b o c h : set_flag b o c !! h =
  (if decide (h = prevhash o) then (fun l => <[Z.to_nat (out_n o) := b]> l) <$> c !! h else c !! h).
Proof. unfold set_flag. case_decide as E; [subst; by rewrite lookup_alter_eq|by rewrite lookup_alter_ne]. Qed.

Lemma unspent_known c o : unspent c o = true -> known c o = true.
Proof.
  unfold unspent, known. intros H. apply bool_decide_eq_true. destruct (c !! prevhash o ≫= _); [eauto|done].
Qed.

Definition nonneg (o : COutPoint) : Prop := 0 <= out_n o.

Lemma outpoint_ext o1 o2 : nonneg o1 -> nonneg o2 -> prevhash o1 = prevhash o2 -> Z.to_nat (out_n o1) = Z.to_nat (out_n o2) -> o1 = o2.
Proof. destruct o1, o2. unfold nonneg. cbn. intros H1 H2 -> E. f_equal. lia. Qed.

Lemma unspent_set_flag b o c o' : nonneg o -> nonneg o' -> known c o = true ->
  unspent (set_flag b o c) o' = if bool_decide (o' = o) then b else unspent c o'.
Proof.
  intros Hn Hn' Hk. unfold unspent. rewrite lookup_set_flag. apply bool_decide_eq_true in Hk. destruct Hk as [x Hx].
  apply bind_Some in Hx as (l & Hl & Hx). case_decide as E.
  - rewrite E, Hl. cbn. destruct (decide (Z.to_nat (out_n o') = Z.to_nat (out_n o))) as [En|En].
    + rewrite bool_decide_true by (by apply outpoint_ext). rewrite En, list_lookup_insert_eq; [done|by eapply lookup_lt_Some].
    + rewrite bool_decide_false by (by intros ->). by rewrite list_lookup_insert_ne.
  - by rewrite bool_decide_false by (by intros ->).
Qed.

Lemma known_set_flag b o c o' : known (set_flag b o c) o' = known c o'.
Proof.
  unfold known. apply bool_decide_ext. rewrite lookup_set_flag. case_decide as E; [|done].
  destruct (c !! prevhash o') as [l|]; cbn; [|done]. rewrite !lookup_lt_is_Some. by rewrite length_insert.
Qed.

(** Spending a list of outputs needs them to be distinct and unspent, and
    changes nothing else. *)
Lemma spend_all_spec os : forall c c', Forall nonneg os -> spend_all os c = Some c' ->
  NoDup os /\ Forall (fun o => unspent c o = true) os /\
  (forall o, nonneg o -> unspent c' o = unspent c o && negb (bool_decide (o ∈ os))) /\
  (forall o, known c' o = known c o).
Proof.
  induction os as [|o os IH]; intros c c' Hn E; cbn in E.
  { injection E as <-. split; [constructor|]. split; [constructor|]. split; [|done]. intros o _. by rewrite bool_decide_false, andb_true_r by apply not_elem_of_nil. }
  inversion Hn as [|? ? Hno Hnos]; subst. unfold spend in E. destruct (unspent c o) eqn:Eu; [|done]. cbn in E.
  pose proof (unspent_known _ _ Eu) as Ek. destruct (IH _ _ Hnos E) as (H1 & H2 & H3 & H4).
  assert (o ∉ os) as Hnin.
  { intros Hin. rewrite Forall_forall in H2. specialize (H2 o Hin). rewrite unspent_set_flag, bool_decide_true in H2 by done. done. }
  split; [by constructor|]. split.
  { constructor; [done|]. rewrite Forall_forall in *. intros x Hx. specialize (H2 x Hx).
    rewrite unspent_set_flag, bool_decide_false in H2; try done; [by intros ->|by apply Hnos]. }
  split; [|intros x; by rewrite H4, known_set_flag].
  intros x Hx. rewrite H3, unspent_set_flag by done. destruct (decide (x = o)) as [->|Hne].
  - rewrite bool_decide_true by done. rewrite (bool_decide_true (o ∈ o :: os)) by (by left). by rewrite andb_false_r.
  - rewrite bool_decide_false by done. f_equal. f_equal. apply bool_decide_ext. rewrite elem_of_cons. tauto.
Qed.

Lemma set_flag_other b o c h : prevhash o <> h -> set_flag b o c !! h = c !! h.
Proof. intros Hne. rewrite lookup_set_flag. by rewrite decide_False. Qed.

Lemma spend_all_other os : forall c c' h, spend_all os c = Some c' -> Forall (fun o => prevhash o <> h) os -> c' !! h = c !! h.
Proof.
  induction os as [|o os IH]; intros c c' h E Hn; cbn in E; [by injection E as <-|].
  inversion Hn; subst. unfold spend in E. destruct (unspent c o); [|done]. cbn in E. rewrite (IH _ _ h E) by done. by apply set_flag_other.
Qed.

Lemma dead_not_unspent c h o : dead c h -> unspent c o = true -> prevhash o <> h.
Proof.
  intros Hd Hu <-. unfold unspent in Hu. destruct (c !! prevhash o) as [l|] eqn:El; [|done]. cbn in Hu.
  destruct (l !! Z.to_nat (out_n o)) as [b|] eqn:Eb; [|done]. cbn in Hu. subst b. specialize (Hd l El). rewrite Forall_forall in Hd.
  apply list_elem_of_lookup_2 in Eb. by specialize (Hd true Eb).
Qed.

(** ** Undoing *)

Lemma set_flag_set_flag o c : unspent c o = true -> set_flag true o (set_flag false o c) = c.
Proof.
  intros Hu. apply map_eq. intros h. rewrite !lookup_set_flag. case_decide as E; [|done]. subst h.
  unfold unspent in Hu. destruct (c !! prevhash o) as [l|]; [|done]. cbn in *. f_equal.
  destruct (l !! Z.to_nat (out_n o)) as [b|] eqn:Eb; [|done]. cbn in Hu. subst b.
  rewrite list_insert_insert_eq. by apply list_insert_id.
Qed.

Lemma set_flag_comm b1 b2 o1 o2 c : nonneg o1 -> nonneg o2 -> o1 <> o2 -> set_flag b1 o1 (set_flag b2 o2 c) = set_flag b2 o2 (set_flag b1 o1 c).
Proof.
  intros H1 H2 Hne. apply map_eq. intros h. rewrite !lookup_set_flag. case_decide as E1; destruct (decide (h = prevhash o2)) as [E2|E2]; try done.
  destruct (c !! h) as [l|]; cbn; [|done]. f_equal. apply list_insert_insert_ne. intros En. apply Hne. apply outpoint_ext; congruence.
Qed.

(** Marking a fixed output commutes with spending and unspending others. *)
Lemma spend_all_set_flag os : forall c c' o, Forall nonneg os -> nonneg o -> o ∉ os -> spend_all os c = Some c' -> forall b,
  known c o = true -> spend_all os (set_flag b o c) = Some (set_flag b o c').
Proof.
  induction os as [|x os IH]; intros c c' o Hn Hno Hnin E b Hk; cbn in E |- *; [by injection E as <-|].
  inversion Hn; subst. apply not_elem_of_cons in Hnin as [Hne Hnin]. unfold spend in E |- *. destruct (unspent c x) eqn:Eu; [|done]. cbn in E.
  rewrite unspent_set_flag, bool_decide_false, Eu by congruence. cbn.
  rewrite set_flag_comm by (done || congruence). apply IH; try done. by rewrite known_set_flag.
Qed.

(** Unspending what was just spent. *)
Lemma unspend_spend_all os : forall c c', Forall nonneg os -> spend_all os c = Some c' -> unspend_all os c' = Some c.
Proof.
  induction os as [|o os IH]; intros c c' Hn E; [cbn in *; by injection E as <-|]. cbn [spend_all] in E.
  destruct (spend_all_spec (o :: os) c c' Hn E) as (Hnd & Hu & _ & Hkn). inversion Hnd; subst. inversion Hn; subst. inversion Hu; subst.
  unfold spend in E. destruct (unspent c o) eqn:Eu; [|done]. cbn in E. pose proof (unspent_known _ _ Eu) as Hk.
  cbn [unspend_all]. unfold unspend. rewrite Hkn, Hk. cbn. apply IH; [done|].
  pose proof (spend_all_set_flag os _ _ o ltac:(done) ltac:(done) ltac:(done) E true ltac:(by rewrite known_set_flag)) as E2.
  by rewrite set_flag_set_flag in E2.
Qed.

(** Removing hashes that are not touched commutes with unspending. *)
Lemma set_flag_delete b o c h : prevhash o <> h -> set_flag b o (delete h c) = delete h (set_flag b o c).
Proof.
  intros Hne. apply map_eq. intros x. rewrite lookup_set_flag. destruct (decide (x = h)) as [->|Hx].
  - rewrite !lookup_delete_eq. by rewrite decide_False.
  - rewrite !lookup_delete_ne by done. by rewrite lookup_set_flag.
Qed.

Lemma unspend_all_delete os : forall c c' h, Forall (fun o => prevhash o <> h) os -> unspend_all os c = Some c' ->
  unspend_all os (delete h c) = Some (delete h c').
Proof.
  induction os as [|o os IH]; intros c c' h Hn E; cbn in E |- *; [by injection E as <-|]. inversion Hn; subst.
  unfold unspend, known in *. rewrite lookup_delete_ne by done. destruct (bool_decide _); [|done]. cbn in *.
  rewrite set_flag_delete by done. by apply IH.
Qed.

Lemma unspend_all_insert os : forall c c' h l, Forall (fun o => prevhash o <> h) os -> unspend_all os c = Some c' ->
  unspend_all os (<[h := l]> c) = Some (<[h := l]> c').
Proof.
  induction os as [|o os IH]; intros c c' h l Hn E; cbn in E |- *; [by injection E as <-|]. inversion Hn; subst.
  unfold unspend, known in *. rewrite lookup_insert_ne by done. destruct (bool_decide _); [|done]. cbn in *.
  replace (set_flag true o (<[h := l]> c)) with (<[h := l]> (set_flag true o c)); [by apply IH|].
  apply map_eq. intros x. rewrite lookup_set_flag. destruct (decide (x = h)) as [->|Hx].
  - rewrite !lookup_insert_eq. by rewrite decide_False.
  - rewrite !lookup_insert_ne by done. by rewrite lookup_set_flag.
Qed.

(** Undoing a transaction leaves the ledger as it was, but for the flags of an
    earlier transaction with the same hash, all of whose outputs were spent. *)
Lemma undo_apply_tx a c c' : Forall nonneg (act_spends a) -> dead c (act_hash a) -> apply_tx a c = Some c' ->
  undo_tx a c' = Some (delete (act_hash a) c) /\ Forall (fun o => prevhash o <> act_hash a) (act_spends a).
Proof.
  intros Hn Hd E. unfold apply_tx in E. destruct (spend_all (act_spends a) c) as [c1|] eqn:Es; [|done]. cbn in E. injection E as <-.
  destruct (spend_all_spec _ _ _ Hn Es) as (_ & Hu & _ & _).
  assert (Forall (fun o => prevhash o <> act_hash a) (act_spends a)) as Hne.
  { eapply Forall_impl; [exact Hu|]. intros o Ho. by apply (dead_not_unspent c). }
  split; [|done]. unfold undo_tx. rewrite (unspend_all_insert _ c1 c) by (done || by apply unspend_spend_all). cbn.
  by rewrite delete_insert_eq.
Qed.

Definition delete_all (hs : list Z) (c : coins) : coins := foldr delete c hs.

Lemma lookup_delete_all hs c h : delete_all hs c !! h = if bool_decide (h ∈ hs) then None else c !! h.
Proof.
  induction hs as [|x hs IH]; [by rewrite bool_decide_false by apply not_elem_of_nil|].
  change (delete_all (x :: hs) c) with (delete x (delete_all hs c)). destruct (decide (h = x)) as [->|Hne].
  - rewrite lookup_delete_eq, bool_decide_true; [done|by left].
  - rewrite lookup_delete_ne, IH by done. by rewrite (bool_decide_ext (h ∈ x :: hs) (h ∈ hs)) by (rewrite elem_of_cons; tauto).
Qed.

Lemma unspend_all_delete_all hs os c c' : Forall (fun o => prevhash o ∉ hs) os -> unspend_all os c = Some c' ->
  unspend_all os (delete_all hs c) = Some (delete_all hs c').
Proof.
  intros Hn E. induction hs as [|h hs IH]; [done|].
  apply unspend_all_delete.
  - eapply Forall_impl; [exact Hn|]. intros o Ho Eo. apply Ho. rewrite Eo. by left.
  - apply IH. eapply Forall_impl; [exact Hn|]. intros o Ho Hin. apply Ho. by right.
Qed.

(** The block level: undoing the transactions in reverse order. *)
Lemma undo_apply_all l : forall c c', Forall (fun a => Forall nonneg (act_spends a)) l -> NoDup (act_hash <$> l) ->
  Forall (fun a => dead c (act_hash a)) l -> apply_all l c = Some c' ->
  undo_all (reverse l) c' = Some (delete_all (act_hash <$> l) c).
Proof.
  induction l as [|a l IH]; intros c c' Hn Hnd Hd E; cbn in E; [by injection E as <-|].
  inversion Hn as [|? ? Hna Hnl]; subst. inversion Hd as [|? ? Hda Hdl]; subst. cbn in Hnd. apply NoDup_cons in Hnd as [Hnin Hnd].
  destruct (apply_tx a c) as [c1|] eqn:Ea; [|done]. cbn in E. destruct (undo_apply_tx a c c1 Hna Hda Ea) as [Eu Hne].
  assert (forall o, o ∈ act_spends a -> unspent c o = true) as Hus.
  { unfold apply_tx in Ea. destruct (spend_all (act_spends a) c) as [c2|] eqn:Es; [|done].
    destruct (spend_all_spec _ _ _ Hna Es) as (_ & Hu & _). by rewrite Forall_forall in Hu. }
  assert (Forall (fun o => prevhash o ∉ act_hash <$> l) (act_spends a)) as Hout.
  { apply Forall_forall. intros o Ho (x & Ex & Hx)%list_elem_of_fmap. rewrite Forall_forall in Hdl.
    by apply (dead_not_unspent c (act_hash x) o (Hdl x Hx) (Hus o Ho)). }
  assert (Forall (fun x => dead c1 (act_hash x)) l) as Hd1.
  { rewrite Forall_forall in Hdl |- *. intros x Hx fl Hfl. apply (Hdl x Hx). unfold apply_tx in Ea.
    destruct (spend_all (act_spends a) c) as [c2|] eqn:Es; [|done]. cbn in Ea. injection Ea as <-.
    rewrite lookup_insert_ne in Hfl.
    - rewrite <- Hfl. symmetry. apply (spend_all_other _ _ _ _ Es). eapply Forall_impl; [exact Hout|].
      intros o Ho Eo. apply Ho. rewrite Eo. by apply list_elem_of_fmap_2.
    - intros Eh. apply Hnin. rewrite Eh. by apply list_elem_of_fmap_2. }
  specialize (IH c1 c' Hnl Hnd Hd1 E). rewrite reverse_cons.
  assert (forall l1 l2 x, undo_all (l1 ++ l2) x = undo_all l1 x ≫= undo_all l2) as Happ.
  { intros l1. induction l1 as [|y l1 IHl]; intros l2 x; cbn; [done|]. destruct (undo_tx y x); cbn; [apply IHl|done]. }
  rewrite Happ, IH. cbn. unfold undo_tx in Eu |- *.
  destruct (unspend_all (act_spends a) c1) as [c2|] eqn:E2; [|done]. cbn in Eu. injection Eu as Eu.
  rewrite (unspend_all_delete_all _ _ c1 c2) by done. cbn. fold (delete_all (act_hash <$> l) c). f_equal. apply map_eq. intros h.
  destruct (decide (h = act_hash a)) as [->|Hh]; [by rewrite !lookup_delete_eq|]. rewrite !lookup_delete_ne by done.
  rewrite !lookup_delete_all. case_bool_decide; [done|]. apply (f_equal (fun m => m !! h)) in Eu. by rewrite !lookup_delete_ne in Eu.
Qed.

(** Removing dead hashes does not change what can be spent. *)
Lemma unspent_delete_all hs c o : Forall (dead c) hs -> unspent (delete_all hs c) o = unspent c o.
Proof.
  intros Hd. unfold unspent. rewrite lookup_delete_all. case_bool_decide as Hin; [|done]. cbn. symmetry.
  destruct (unspent c o) eqn:E; [|done]. rewrite Forall_forall in Hd. by destruct (dead_not_unspent c (prevhash o) o (Hd _ Hin) E).
Qed.

End Coins.
