(* ===== verification/Base58.v ===== *)
(** * Base58 and addresses (src/src/base58.h)

    The two conversions over the big number interface, the checksummed form,
    and [CBase58Data] with the address class.  A C string is the list of its
    characters before the terminating zero; a failed decoding is [None]. *)

From S2P Require Import Prelude Uint256 Bignum Crypto.

Module Base58.

Definition pszBase58 : list Z := str "123456789ABCDEFGHJKLMNPQRSTUVWXYZabcdefghijkmnopqrstuvwxyz".

Definition isspace (c : Z) : bool := (c =? 32) || ((9 <=? c) && (c <=? 13)).

(** [while (isspace( *p)) p++] *)
Fixpoint skip_spaces (psz : list Z) : list Z :=
  match psz with
  | c :: r => if isspace c then skip_spaces r else psz
  | [] => []
  end.

(** [strchr(pszBase58, c) - pszBase58] *)
Fixpoint index_in (l : list Z) (c : Z) (i : Z) : option Z :=
  match l with
  | [] => None
  | x :: r => if x =? c then Some i else index_in r c (i + 1)
  end.

(** The number of elements at the front that are [x]. *)
Fixpoint leading (x : Z) (l : list Z) : nat :=
  match l with
  | y :: r => if y =? x then S (leading x r) else O
  | [] => O
  end.

Section base58.
Context {L : BNLib}.

(** [while (bn > bn0)]: the characters in the order they are appended;
    [None]: out of fuel or a failed division. *)
Fixpoint encode_loop (fuel : nat) (bn : Z) : option (list Z) :=
  match fuel with
  | O => None
  | S f =>
      if BigNum.op_gtb bn (BigNum.CBigNum_int 0) then
        '(dv, rem) ← BN_div bn (BigNum.CBigNum_int 58);
        str ← encode_loop f dv;
        Some (rd pszBase58 (Z.to_nat (u32 (BigNum.getulong rem))) :: str)
      else Some []
  end.

Definition EncodeBase58 (b : list Z) : option (list Z) :=
  let vchTmp := rev b ++ [0] in
  let bn := BigNum.setvch vchTmp in
  str ← encode_loop (Z.to_nat (Z.log2 bn + 2)) bn;
  let str := str ++ replicate (leading 0 b) (rd pszBase58 0) in
  Some (rev str).

(** The loop over the characters. *)
Fixpoint decode_loop (p : list Z) (bn : Z) : option Z :=
  match p with
  | [] => Some bn
  | c :: r =>
      match index_in pszBase58 c 0 with
      | None => if bool_decide (skip_spaces p = []) then Some bn else None
      | Some i => decode_loop r (BigNum.op_plus (BN_mul bn (BigNum.CBigNum_int 58)) (BigNum.setulong i))
      end
  end.

(** [if (size >= 2 && end[-1] == 0 && end[-2] >= 0x80) erase(end-1)], on the
    number with its most significant byte first. *)
Definition trim_sign (be : list Z) : list Z :=
  match be with
  | 0 :: y :: r => if 0x80 <=? y then y :: r else be
  | _ => be
  end.

Definition DecodeBase58 (psz : list Z) : option (list Z) :=
  let psz := skip_spaces psz in
  bn ← decode_loop psz (BigNum.CBigNum_int 0);
  let vchTmp := BigNum.getvch bn in
  let vchTmp := rev (trim_sign (rev vchTmp)) in
  Some (replicate (leading (rd pszBase58 0) psz) 0 ++ rev vchTmp).

Context {D : DigestLib}.

Definition EncodeBase58Check (vchIn : list Z) : option (list Z) :=
  EncodeBase58 (vchIn ++ take 4 (Hash vchIn)).

Definition DecodeBase58Check (psz : list Z) : option (list Z) :=
  vchRet ← DecodeBase58 psz;
  if bool_decide (length vchRet < 4)%nat then None
  else
    let data := take (length vchRet - 4) vchRet in
    if bool_decide (take 4 (Hash data) = drop (length vchRet - 4) vchRet) then Some data else None.

(** ** CBase58Data *)

Record CBase58Data := mk_data { nVersion : Z; vchData : list Z }.

Definition Clear : CBase58Data := mk_data 0 [].
Definition SetData (nVersionIn : Z) (pdata : list Z) : CBase58Data := mk_data (u8 nVersionIn) pdata.

(** [SetString]: the returned bool and the object. *)
Definition SetString (psz : list Z) : bool * CBase58Data :=
  match default [] (DecodeBase58Check psz) with
  | [] => (false, mk_data 0 [])
  | v :: data => (true, mk_data v data)
  end.

Definition ToString (d : CBase58Data) : option (list Z) := EncodeBase58Check (nVersion d :: vchData d).

(** [std::vector<unsigned char>::operator<] *)
Fixpoint lex_lt (a b : list Z) : bool :=
  match a, b with
  | _, [] => false
  | [], _ :: _ => true
  | x :: a', y :: b' => if x <? y then true else if y <? x then false else lex_lt a' b'
  end.

Definition CompareTo (a b : CBase58Data) : Z :=
  if nVersion a <? nVersion b then -1
  else if nVersion b <? nVersion a then 1
  else if lex_lt (vchData a) (vchData b) then -1
  else if lex_lt (vchData b) (vchData a) then 1
  else 0.

Definition op_eq (a b : CBase58Data) : bool := CompareTo a b =? 0.
Definition op_le (a b : CBase58Data) : bool := CompareTo a b <=? 0.
Definition op_ge (a b : CBase58Data) : bool := 0 <=? CompareTo a b.
Definition op_lt (a b : CBase58Data) : bool := CompareTo a b <? 0.
Definition op_gt (a b : CBase58Data) : bool := 0 <? CompareTo a b.

(** ** CBitcoinAddress; [fTestNet] is the global flag *)

Definition PUBKEY_ADDRESS : Z := 63.
Definition SCRIPT_ADDRESS : Z := 125.
Definition PUBKEY_ADDRESS_TEST : Z := 6.
Definition SCRIPT_ADDRESS_TEST : Z := 11.

Context (fTestNet : bool).

Definition SetHash160 (hash160 : list Z) : CBase58Data :=
  SetData (if fTestNet then PUBKEY_ADDRESS_TEST else PUBKEY_ADDRESS) hash160.
Definition SetPubKey (vchPubKey : list Z) : CBase58Data := SetHash160 (Hash160 vchPubKey).
Definition SetScriptHash160 (hash160 : list Z) : CBase58Data :=
  SetData (if fTestNet then SCRIPT_ADDRESS_TEST else SCRIPT_ADDRESS) hash160.

Definition IsValid (a : CBase58Data) : bool :=
  let sized (fExpectTestNet : bool) :=
    Bool.eqb fExpectTestNet fTestNet && bool_decide (length (vchData a) = 20%nat) in
  if nVersion a =? PUBKEY_ADDRESS then sized false
  else if nVersion a =? SCRIPT_ADDRESS then sized false
  else if nVersion a =? PUBKEY_ADDRESS_TEST then sized true
  else if nVersion a =? SCRIPT_ADDRESS_TEST then sized true
  else false.

Definition IsScript (a : CBase58Data) : bool :=
  if negb (IsValid a) then false
  else if fTestNet then nVersion a =? SCRIPT_ADDRESS_TEST
  else nVersion a =? SCRIPT_ADDRESS.

(** [GetHash160]: the assertion is [None]. *)
Definition GetHash160 (a : CBase58Data) : option (list Z) :=
  if bool_decide (length (vchData a) = 20%nat) then Some (vchData a) else None.

(** ** CBitcoinSecret *)

Definition SetSecret (vchSecret : list Z) (fCompressed : bool) : option CBase58Data :=
  if bool_decide (length vchSecret = 32%nat) then
    let d := SetData (128 + if fTestNet then PUBKEY_ADDRESS_TEST else PUBKEY_ADDRESS) vchSecret in
    Some (if fCompressed then mk_data (nVersion d) (vchData d ++ [1]) else d)
  else None.

Definition GetSecret (d : CBase58Data) : list Z * bool :=
  (take 32 (vchData d), bool_decide (length (vchData d) = 33%nat)).

Definition secret_IsValid (d : CBase58Data) : bool :=
  let sized (fExpectTestNet : bool) :=
    Bool.eqb fExpectTestNet fTestNet &&
    (bool_decide (length (vchData d) = 32%nat) ||
     (bool_decide (length (vchData d) = 33%nat) && (rd (vchData d) 32 =? 1))) in
  if nVersion d =? 128 + PUBKEY_ADDRESS then sized false
  else if nVersion d =? 128 + PUBKEY_ADDRESS_TEST then sized true
  else false.

Definition secret_SetString (psz : list Z) : bool * CBase58Data :=
  let '(ok, d) := SetString psz in (ok && secret_IsValid d, d).

End base58.

(** ** Lemmas *)

Section lemmas.
Context {L : BNLib} {HL : BNLaws L}.

Definition b58char (d : Z) : Z := rd pszBase58 (Z.to_nat d).

Lemma b58_table :
  forallb (fun d => bool_decide (index_in pszBase58 (b58char (Z.of_nat d)) 0 = Some (Z.of_nat d)) &&
                    negb (isspace (b58char (Z.of_nat d))) &&
                    Bool.eqb (b58char (Z.of_nat d) =? 49) (bool_decide (d = 0%nat))) (seq 0 58) = true.
Proof. vm_compute. reflexivity. Qed.

Lemma b58char_spec d : 0 <= d < 58 ->
  index_in pszBase58 (b58char d) 0 = Some d /\ isspace (b58char d) = false /\ ((b58char d =? 49) = (d =? 0)).
Proof.
  intros Hd. pose proof b58_table as H. rewrite forallb_forall in H.
  specialize (H (Z.to_nat d) ltac:(apply in_seq; lia)). rewrite Z2Nat.id in H by lia.
  rewrite !andb_true_iff, bool_decide_eq_true, negb_true_iff in H. destruct H as [[H1 H2] H3].
  split; [done|]. split; [done|]. apply eqb_prop in H3. rewrite H3.
  case_bool_decide; destruct (Z.eqb_spec d 0); lia || done.
Qed.

Lemma encode_loop_spec fuel : forall bn,
  0 <= bn -> (0 < fuel)%nat -> (0 < bn -> Z.log2 bn + 2 <= Z.of_nat fuel) ->
  exists ds, encode_loop fuel bn = Some (map b58char ds) /\
    Forall (fun d => 0 <= d < 58) ds /\ digits_val 58 (rev ds) = bn /\ (forall d r, rev ds = d :: r -> d <> 0).
Proof.
  induction fuel as [|fuel IH]; intros bn Hn Hf0 Hf; [lia|].
  cbn [encode_loop]. rewrite !BigNum.CBigNum_int_spec by lia.
  destruct (BigNum.comparisons_spec bn 0) as (_ & _ & _ & _ & _ & ->).
  destruct (Z.ltb_spec 0 bn) as [Hpos|Hz].
  2:{ exists []. split_and!; try done. simpl. unfold digits_val. simpl. lia. }
  rewrite BN_div_spec. change (58 =? 0) with false. cbn [mbind option_bind].
  rewrite Z.quot_div_nonneg, Z.rem_mod_nonneg by lia.
  specialize (Hf Hpos). pose proof (Z.log2_nonneg bn).
  destruct (IH (bn / 58)) as (ds & E & Hd & Hv & Hm); [apply Z.div_pos; lia|lia| |].
  { intros Hq. assert (Z.log2 (bn / 58) < Z.log2 bn); [|lia].
    apply Z.log2_lt_pow2; [done|].
    eapply Z.le_lt_trans; [apply (Z.div_le_compat_l bn 2 58); lia|].
    apply Z.div_lt_upper_bound; [lia|].
    rewrite <- Z.pow_succ_r by apply Z.log2_nonneg. apply Z.log2_spec. lia. }
  rewrite E. pose proof (Z.mod_pos_bound bn 58 ltac:(lia)).
  exists (bn mod 58 :: ds). split_and!.
  - cbn [mbind option_bind map]. do 2 f_equal. unfold b58char, BigNum.getulong.
    rewrite BN_get_word_spec, Z.abs_eq, (proj2 (Z.ltb_lt _ _)), u32_small by lia. done.
  - constructor; [lia|done].
  - cbn [rev]. rewrite digits_val_snoc, Hv. pose proof (Z.div_mod bn 58). lia.
  - cbn [rev]. intros d r Er. destruct (rev ds) as [|d' r'] eqn:Erd; simplify_eq/=; [|by eapply Hm].
    unfold digits_val in Hv. simpl in Hv. pose proof (Z.div_mod bn 58). lia.
Qed.

Lemma decode_loop_spec ds : forall bn, Forall (fun d => 0 <= d < 58) ds ->
  decode_loop (map b58char ds) bn = Some (fold_left (fun acc d => acc * 58 + d) ds bn).
Proof.
  induction ds as [|d ds IH]; intros bn Hd; [done|]. apply Forall_cons in Hd as [Hd Hds].
  cbn [map decode_loop]. destruct (b58char_spec d Hd) as (-> & _). cbn [fold_left]. rewrite IH by done.
  rewrite BigNum.CBigNum_int_spec by lia. unfold BigNum.op_plus, BigNum.setulong.
  by rewrite BN_add_spec, BN_mul_spec, BN_set_word_spec by lia.
Qed.

(** A big-endian number without leading zeros is determined by its value. *)
Definition no_lead (l : list Z) : Prop := forall x r, l = x :: r -> x <> 0.

Lemma no_lead_bound x r :
  Forall is_byte (x :: r) -> x <> 0 -> 256 ^ Z.of_nat (length r) <= digits_val 256 (x :: r) < 256 ^ Z.of_nat (S (length r)).
Proof.
  intros Hb Hx. split; [|apply (digits_val_range 256 (x :: r)); [lia|done]].
  apply Forall_cons in Hb as [Hx' Hr]. rewrite digits_val_cons.
  pose proof (digits_val_range 256 r ltac:(lia) Hr). unfold is_byte in Hx'. nia.
Qed.

Lemma no_lead_unique l1 l2 :
  Forall is_byte l1 -> Forall is_byte l2 -> no_lead l1 -> no_lead l2 ->
  digits_val 256 l1 = digits_val 256 l2 -> l1 = l2.
Proof.
  intros H1 H2 N1 N2 E. assert (length l1 = length l2) as El.
  { destruct l1 as [|x1 r1], l2 as [|x2 r2]; [done| | |].
    - pose proof (no_lead_bound x2 r2 H2 (N2 _ _ eq_refl)). change (digits_val 256 []) with 0 in E. lia.
    - pose proof (no_lead_bound x1 r1 H1 (N1 _ _ eq_refl)). change (digits_val 256 []) with 0 in E. lia.
    - pose proof (no_lead_bound x1 r1 H1 (N1 _ _ eq_refl)) as B1.
      pose proof (no_lead_bound x2 r2 H2 (N2 _ _ eq_refl)) as B2. rewrite E in B1.
      assert (Z.of_nat (length r1) < Z.of_nat (S (length r2))) by (eapply (Z.pow_lt_mono_r_iff 256); lia).
      assert (Z.of_nat (length r2) < Z.of_nat (S (length r1))) by (eapply (Z.pow_lt_mono_r_iff 256); lia).
      simpl. lia. }
  rewrite <- (be_bytes_digits_val l1), <- (be_bytes_digits_val l2) by done. by rewrite El, E.
Qed.

(** Trimming the sign byte of a payload leaves the number without leading
    zeros. *)
Lemma trim_payload v : 0 <= v ->
  digits_val 256 (trim_sign (mpi_payload v)) = v /\ Forall is_byte (trim_sign (mpi_payload v)) /\
  no_lead (trim_sign (mpi_payload v)).
Proof.
  intros Hv. destruct (decide (v = 0)) as [->|Hv0]; [done|].
  pose proof (BigNum.mpi_payload_digits v) as Ev. pose proof (BigNum.mpi_payload_bytes v) as Hb.
  pose proof (BigNum.length_mpi_payload v) as Hl. destruct (BigNum.mpi_size_bound v Hv0) as [_ Hs].
  rewrite (proj2 (Z.ltb_ge v 0)), Z.abs_eq, Z.add_0_r in Ev by lia.
  assert (128 * 256 ^ (mpi_size v - 2) <= v \/ mpi_size v = 1) as Hlow.
  { destruct (decide (mpi_size v = 1)) as [|Hs1]; [by right|left].
    unfold mpi_size in *. rewrite (proj2 (Z.eqb_neq v 0)), Z.abs_eq in * by lia.
    set (q := (Z.log2 v + 1) / 8) in *. pose proof (Z.mul_div_le (Z.log2 v + 1) 8 ltac:(lia)).
    replace (q + 1 - 2) with (q - 1) by lia. rewrite pow256 by lia.
    change 128 with (2 ^ 7). rewrite <- Z.pow_add_r by lia.
    eapply Z.le_trans; [|apply Z.log2_spec; lia]. apply Z.pow_le_mono_r; [lia|]. unfold q in *. lia. }
  destruct (mpi_payload v) as [|x [|y r]] eqn:Ep.
  - simpl in Hl. lia.
  - pose proof (Forall_inv Hb) as Hx. unfold digits_val in Ev. simpl in Ev.
    assert (trim_sign [x] = [x]) as -> by (by destruct x). split; [done|]. split; [done|]. intros ? ? [= <- <-]. lia.
  - pose proof (Forall_inv Hb) as Hx. pose proof (Forall_inv_tail Hb) as Hr. rewrite digits_val_cons in Ev.
    pose proof (Forall_inv Hr) as Hy. pose proof (Forall_inv_tail Hr) as Hr'.
    destruct (decide (x = 0)) as [->|Hx0].
    + assert (128 <= y).
      { destruct Hlow as [Hlow|Hlow]; [|simpl in Hl; lia]. rewrite digits_val_cons in Ev.
        replace (mpi_size v - 2) with (Z.of_nat (length r)) in Hlow by (simpl in Hl; lia).
        pose proof (digits_val_range 256 r ltac:(lia) Hr'). nia. }
      simpl. rewrite (proj2 (Z.leb_le 128 y)) by done. split; [lia|]. split; [done|]. intros ? ? [= <- <-]. lia.
    + assert (trim_sign (x :: y :: r) = x :: y :: r) as -> by (by destruct x).
      split; [by rewrite digits_val_cons|]. split; [done|]. by intros ? ? [= <- <-].
Qed.

Lemma rev_replicate {A} k (x : A) : rev (replicate k x) = replicate k x.
Proof. induction k as [|k IH]; simpl; [done|]. rewrite IH. clear. induction k; simpl; [done|]. by f_equal. Qed.

Lemma map_replicate {A B} (f : A -> B) k x : map f (replicate k x) = replicate k (f x).
Proof. induction k; simpl; [done|]. by f_equal. Qed.

Lemma leading_split x l :
  exists r, l = replicate (leading x l) x ++ r /\ (forall y r', r = y :: r' -> y <> x).
Proof.
  induction l as [|y l (r & E & H)]; [by exists []|]. simpl. destruct (Z.eqb_spec y x) as [->|Hy].
  - exists r. split; [|done]. simpl. by rewrite <- E.
  - exists (y :: l). split; [done|]. by intros ? ? [= <- <-].
Qed.

Lemma leading_app x k r : (forall y r', r = y :: r' -> y <> x) -> leading x (replicate k x ++ r) = k.
Proof.
  intros H. induction k as [|k IH]; simpl; [|rewrite Z.eqb_refl; by f_equal].
  destruct r as [|y r]; [done|]. simpl. by rewrite (proj2 (Z.eqb_neq y x)) by (by eapply H).
Qed.

Lemma skip_spaces_b58 ds : Forall (fun d => 0 <= d < 58) ds -> skip_spaces (map b58char ds) = map b58char ds.
Proof. intros [|d ds' Hd _]; [done|]. simpl. by destruct (b58char_spec d Hd) as (_ & -> & _). Qed.

Lemma mpi_size_bytes v n : 0 <= n -> 0 <= v < 256 ^ n -> mpi_size v <= n + 1.
Proof.
  intros Hn Hv. unfold mpi_size. destruct (Z.eqb_spec v 0); [lia|]. rewrite Z.abs_eq by lia.
  assert (Z.log2 v < 8 * n) by (apply Z.log2_lt_pow2; [lia|rewrite <- pow256; lia]).
  assert ((Z.log2 v + 1) / 8 <= n) by (apply Z.div_le_upper_bound; lia). lia.
Qed.

(** Decoding undoes encoding. *)
Lemma base58_round_trip b :
  Forall is_byte b -> Z.of_nat (length b) < 2 ^ 28 ->
  exists s, EncodeBase58 b = Some s /\ DecodeBase58 s = Some b.
Proof.
  intros Hb Hl. destruct (leading_split 0 b) as (r & Eb & Hr). set (k := leading 0 b) in *.
  assert (Forall is_byte r) as Hrb by (rewrite Eb in Hb; by apply Forall_app in Hb as [_ ?]).
  set (v := digits_val 256 b).
  assert (digits_val 256 r = v) as Ev by (unfold v; rewrite Eb, digits_val_app, digits_val_zeros; lia).
  assert (0 <= v < 256 ^ Z.of_nat (length b)) as Hv by (by apply digits_val_range; [lia|]).
  assert (BigNum.setvch (rev b ++ [0]) = v) as Es.
  { rewrite BigNum.setvch_spec; [|rewrite length_app, length_rev; simpl; lia|].
    2:{ apply Forall_app. split; [by apply Forall_rev|repeat constructor; done]. }
    rewrite rev_app_distr, rev_involutive. cbn [rev app]. rewrite BigNum.mpi_val_cons by done.
    change (128 <=? 0) with false. cbv iota. rewrite Z.mul_0_l, Z.add_0_l. done. }
  unfold EncodeBase58. rewrite Es.
  destruct (encode_loop_spec (Z.to_nat (Z.log2 v + 2)) v) as (ds & -> & Hd & Hdv & Hm);
    [lia|pose proof (Z.log2_nonneg v); lia|pose proof (Z.log2_nonneg v); lia|].
  cbn [mbind option_bind]. cbv zeta. fold k. eexists. split; [done|].
  assert (rev (map b58char ds ++ replicate k (rd pszBase58 0)) = map b58char (replicate k 0 ++ rev ds)) as ->.
  { rewrite rev_app_distr, map_app, <- map_rev. f_equal. rewrite rev_replicate.
    change (rd pszBase58 0) with (b58char 0). by rewrite map_replicate. }
  assert (Forall (fun d => 0 <= d < 58) (replicate k 0 ++ rev ds)) as Hall.
  { apply Forall_app. split; [by apply Forall_replicate|by apply Forall_rev]. }
  unfold DecodeBase58. rewrite skip_spaces_b58, decode_loop_spec by done. cbn [mbind option_bind].
  rewrite BigNum.CBigNum_int_spec by lia.
  change (fold_left _ _ 0) with (digits_val 58 (replicate k 0 ++ rev ds)).
  rewrite digits_val_app, digits_val_zeros, Hdv, Z.mul_0_l, Z.add_0_l.
  assert (mpi_size v < 2 ^ 32) as Hms.
  { apply Z.le_lt_trans with (Z.of_nat (length b) + 1); [|lia]. apply mpi_size_bytes; lia. }
  rewrite BigNum.getvch_spec, rev_involutive, rev_involutive by done.
  destruct (trim_payload v) as (T1 & T2 & T3); [lia|].
  rewrite (no_lead_unique (trim_sign (mpi_payload v)) r) by (try done; congruence).
  rewrite Eb at 1. do 2 f_equal. rewrite map_app.
  replace (map b58char (replicate k 0)) with (replicate k (rd pszBase58 0)) by (by rewrite map_replicate).
  f_equal. apply leading_app. intros y r' Ey. destruct (rev ds) as [|d l] eqn:Erd; [done|]. simpl in Ey. simplify_eq.
  pose proof (Hm d l eq_refl) as Hd0. assert (0 <= d < 58) as Hdr.
  { apply Forall_rev in Hd. rewrite Erd in Hd. by apply Forall_cons in Hd as [? _]. }
  destruct (b58char_spec d Hdr) as (_ & _ & E49). change (rd pszBase58 0) with 49.
  rewrite (proj2 (Z.eqb_neq d 0)) in E49 by done. by apply Z.eqb_neq in E49.
Qed.
End lemmas.
Section claims.
Context {L : BNLib} {HL : BNLaws L} {D : DigestLib} {HD : DigestLaws D}.

Lemma length_take_Hash m : length (take 4 (Hash m)) = 4%nat.
Proof. unfold Hash. rewrite length_take, SHA256_length. done. Qed.

Lemma check_round_trip b :
  Forall is_byte b -> Z.of_nat (length b) + 4 < 2 ^ 28 ->
  exists s, EncodeBase58Check b = Some s /\ DecodeBase58Check s = Some b.
Proof.
  intros Hb Hl. destruct (base58_round_trip (b ++ take 4 (Hash b))) as (s & E1 & E2).
  { apply Forall_app. split; [done|]. apply Forall_take, SHA256_bytes. }
  { rewrite length_app, length_take_Hash. lia. }
  exists s. split; [done|]. unfold DecodeBase58Check. rewrite E2. cbn [mbind option_bind].
  rewrite length_app, length_take_Hash, bool_decide_false by lia.
  replace (length b + 4 - 4)%nat with (length b) by lia. cbv zeta. rewrite take_app_length, drop_app_length.
  by rewrite bool_decide_true.
Qed.

(** Base58 encoding terminates, and decoding gives the bytes back,
    leading zero bytes included; the same with the checksum.  Whatever string
    [DecodeBase58Check] accepts decodes to data followed by the first four
    bytes of its double SHA-256, so any other tail is rejected. *)
Theorem base58_decode_encode b :
  Forall is_byte b -> Z.of_nat (length b) + 4 < 2 ^ 28 ->
  (exists s, EncodeBase58 b = Some s /\ DecodeBase58 s = Some b) /\
  (exists s, EncodeBase58Check b = Some s /\ DecodeBase58Check s = Some b) /\
  (forall s d, DecodeBase58Check s = Some d <-> DecodeBase58 s = Some (d ++ take 4 (Hash d))).
Proof.
  intros Hb Hl. split; [apply base58_round_trip; [done|lia]|]. split; [by apply check_round_trip|].
  intros s d. unfold DecodeBase58Check. destruct (DecodeBase58 s) as [v|]; cbn [mbind option_bind]; [|done].
  case_bool_decide as H4.
  { split; [done|]. intros [= ->]. rewrite length_app, length_take_Hash in H4. lia. }
  cbv zeta. case_bool_decide as E.
  - split; [|intros [= ->]].
    + intros [= <-]. rewrite E, take_drop. done.
    + rewrite length_app, length_take_Hash. replace (length d + 4 - 4)%nat with (length d) by lia.
      by rewrite take_app_length.
  - split; [done|]. intros [= ->]. exfalso. apply E. rewrite length_app, length_take_Hash.
    replace (length d + 4 - 4)%nat with (length d) by lia. by rewrite take_app_length, drop_app_length.
Qed.

Lemma data_round_trip v d :
  is_byte v -> Forall is_byte d -> Z.of_nat (length d) < 2 ^ 20 ->
  exists s, ToString (mk_data v d) = Some s /\ SetString s = (true, mk_data v d).
Proof.
  intros Hv Hd Hl. destruct (check_round_trip (v :: d)) as (s & E1 & E2).
  { by constructor. } { simpl. lia. }
  exists s. split; [done|]. unfold SetString. by rewrite E2.
Qed.

(** The address of a public key or of a script hash, and an encoded
    secret, are valid on their own network only; printing one and reading the
    text gives the same object, from which the hash or the secret and its
    compression flag are recovered; script addresses are told apart. *)
Theorem address_text_round_trip fTestNet vchPubKey hash160 secret fCompressed :
  Forall is_byte hash160 -> length hash160 = 20%nat -> Forall is_byte secret -> length secret = 32%nat ->
  let a := SetPubKey fTestNet vchPubKey in
  let sa := SetScriptHash160 fTestNet hash160 in
  (exists s, ToString a = Some s /\ SetString s = (true, a)) /\
  (exists s, ToString sa = Some s /\ SetString s = (true, sa)) /\
  IsValid fTestNet a = true /\ IsValid fTestNet sa = true /\
  IsValid (negb fTestNet) a = false /\ IsValid (negb fTestNet) sa = false /\
  IsScript fTestNet a = false /\ IsScript fTestNet sa = true /\
  GetHash160 a = Some (Hash160 vchPubKey) /\ GetHash160 sa = Some hash160 /\
  (exists d s, SetSecret fTestNet secret fCompressed = Some d /\ ToString d = Some s /\
     secret_SetString fTestNet s = (true, d) /\ GetSecret d = (secret, fCompressed)).
Proof.
  intros Hh Hl Hs Hls. cbv zeta.
  assert (Forall is_byte (Hash160 vchPubKey)) as Hb by apply RIPEMD160_bytes.
  assert (length (Hash160 vchPubKey) = 20%nat) as Hl160 by apply RIPEMD160_length.
  split; [apply data_round_trip; [destruct fTestNet; done|done|lia]|].
  split; [apply data_round_trip; [destruct fTestNet; done|done|lia]|].
  unfold IsValid, IsScript, GetHash160, SetPubKey, SetHash160, SetScriptHash160, IsValid. simpl.
  rewrite Hl160, Hl. do 8 (split; [by destruct fTestNet|]).
  unfold SetSecret. rewrite bool_decide_true by done. cbv zeta.
  set (d := if fCompressed then _ else _).
  assert (exists v, is_byte v /\ d = mk_data v (if fCompressed then secret ++ [1] else secret) /\
    (v =? 128 + PUBKEY_ADDRESS) = negb fTestNet /\ (v =? 128 + PUBKEY_ADDRESS_TEST) = fTestNet) as (v & Hv & Ed & E1 & E2).
  { eexists. split; [|split; [unfold d; destruct fCompressed; reflexivity|]]; by destruct fTestNet. }
  destruct (data_round_trip v (if fCompressed then secret ++ [1] else secret)) as (s & F1 & F2).
  { done. } { destruct fCompressed; [|done]. apply Forall_app. split; [done|repeat constructor; done]. }
  { destruct fCompressed; rewrite ?length_app; simpl; lia. }
  exists d, s. split; [done|]. rewrite Ed. split; [done|].
  unfold secret_SetString, secret_IsValid, GetSecret. rewrite F2. cbn [nVersion vchData]. rewrite E1, E2.
  destruct fCompressed.
  - rewrite length_app, Hls, take_app_length' by done. change (32 + length [1])%nat with 33%nat.
    replace (rd (secret ++ [1]) 32) with 1 by (rewrite <- Hls; symmetry; apply rd_app_mid). by destruct fTestNet.
  - rewrite Hls, take_ge by lia. by destruct fTestNet.
Qed.

End claims.

#[local] Existing Instance bn_reference.
#[local] Existing Instance toy_digests.

Lemma base58_decode_encode_witness :
  exists s, EncodeBase58 [0; 0; 255; 3] = Some s /\ DecodeBase58 s = Some [0; 0; 255; 3].
Proof.
  apply (base58_decode_encode (HL := bn_reference_laws) (HD := toy_digests_laws) [0; 0; 255; 3]).
  - repeat constructor; done.
  - simpl. lia.
Defined.

Lemma address_text_round_trip_witness :
  exists s, ToString (SetScriptHash160 false (replicate 20 9)) = Some s /\
    SetString s = (true, SetScriptHash160 false (replicate 20 9)).
Proof.
  apply (address_text_round_trip (HL := bn_reference_laws) (HD := toy_digests_laws)
    false [2; 3] (replicate 20 9) (replicate 32 5) true).
  - apply Forall_replicate. done.
  - reflexivity.
  - apply Forall_replicate. done.
  - reflexivity.
Defined.

End Base58.
