(* ===== verification/Signature.v ===== *)
(** * Signature hashes, the signature cache and CheckSig (src/src/script.cpp, src/src/key.cpp)

    Elliptic curve operations are OpenSSL's and come through [ECLib].  The
    static cache of CheckSig is explicit state; the random hashes its eviction
    loop draws are an argument. *)

From S2P Require Import Prelude Uint256 Bignum Crypto Script Serialize Tx.
Import Script Tx.

(** The OpenSSL functions behind CKey. *)
Class ECLib := {
  ec_point : Type;
  o2i_ECPublicKey : list Z -> option ec_point;
  ECDSA_verify : list Z -> list Z -> ec_point -> Z
}.

Module Sig.

Definition SIGHASH_ALL : Z := 1.
Definition SIGHASH_NONE : Z := 2.
Definition SIGHASH_SINGLE : Z := 3.
Definition SIGHASH_ANYONECANPAY : Z := 0x80.

Definition set_scriptSig (i : CTxIn) (s : list Z) : CTxIn := mk_txin (prevout i) s (nSequence i) (infos i).
Definition set_nSequence (i : CTxIn) (q : Z) : CTxIn := mk_txin (prevout i) (scriptSig i) q (infos i).
Definition set_vin (t : CTransaction) (v : list CTxIn) : CTransaction :=
  mk_tx (nVersion t) (nTime t) v (vout t) (nLockTime t) (mint t).
Definition set_vout (t : CTransaction) (v : list CTxOut) : CTransaction :=
  mk_tx (nVersion t) (nTime t) (vin t) v (nLockTime t) (mint t).

(** [for (i ...) if (i != nIn) txTmp.vin[i].nSequence = 0] *)
Definition clear_sequences (nIn : nat) (v : list CTxIn) : list CTxIn :=
  imap (fun i x => if bool_decide (i = nIn) then x else set_nSequence x 0) v.

(** Blank the scripts and put the script being checked into input [nIn]. *)
Definition blank_scripts (nIn : nat) (scriptCode : list Z) (v : list CTxIn) : list CTxIn :=
  imap (fun i x => set_scriptSig x (if bool_decide (i = nIn) then scriptCode else [])) v.

(** [vout.resize(nOut+1)] on a vector that is long enough, and [SetNull] of
    the earlier ones. *)
Definition single_output (nOut : nat) (v : list CTxOut) : list CTxOut :=
  replicate nOut txout_null ++ take 1 (drop nOut v).

(** The transaction that is hashed; [None]: the function returns 1. *)
Definition sighash_tx (scriptCode : list Z) (txTo : CTransaction) (nIn : nat) (nHashType : Z) : option CTransaction :=
  if bool_decide (length (vin txTo) <= nIn)%nat then None
  else
    let scriptCode := (FindAndDelete scriptCode [OP_CODESEPARATOR]).1 in
    let txTmp := set_vin txTo (blank_scripts nIn scriptCode (vin txTo)) in
    txTmp ←
      (if Z.land nHashType 0x1f =? SIGHASH_NONE then
         Some (set_vin (set_vout txTmp []) (clear_sequences nIn (vin txTmp)))
       else if Z.land nHashType 0x1f =? SIGHASH_SINGLE then
         if bool_decide (length (vout txTmp) <= nIn)%nat then None
         else Some (set_vin (set_vout txTmp (single_output nIn (vout txTmp))) (clear_sequences nIn (vin txTmp)))
       else Some txTmp);
    if negb (Z.land nHashType SIGHASH_ANYONECANPAY =? 0)
    then Some (set_vin txTmp (take 1 (drop nIn (vin txTmp))))
    else Some txTmp.

Section sighash.
Context {B : Abi} {D : DigestLib}.

(** [SignatureHash]: throws when the transaction cannot be serialized. *)
Definition SignatureHash (scriptCode : list Z) (txTo : CTransaction) (nIn : nat) (nHashType : Z) : option Z :=
  match sighash_tx scriptCode txTo nIn nHashType with
  | None => Some 1
  | Some txTmp =>
      b ← Serialize tx_codec txTmp;
      h ← Serialize (int_codec 4) nHashType;
      Some (le_val (Hash (b ++ h)))
  end.

(** ** CKey *)

Context {E : ECLib}.

(** [CKey::SetPubKey] then [CKey::Verify] *)
Definition SetPubKey (vchPubKey : list Z) : option ec_point := o2i_ECPublicKey vchPubKey.
Definition Verify (key : ec_point) (hash : Z) (vchSig : list Z) : bool :=
  ECDSA_verify (le_bytes 32 hash) vchSig key =? 1.

(** ** CSignatureCache *)

(** (signature hash, signature, public key), ordered as the tuple. *)
Definition sigdata_type : Type := Z * list Z * list Z.

Fixpoint vch_lt (a b : list Z) : bool :=
  match a, b with
  | _, [] => false
  | [], _ :: _ => true
  | x :: a', y :: b' => if x <? y then true else if y <? x then false else vch_lt a' b'
  end.

Definition sigdata_lt (a b : sigdata_type) : bool :=
  let '(h1, s1, k1) := a in
  let '(h2, s2, k2) := b in
  if h1 <? h2 then true else if h2 <? h1 then false
  else if vch_lt s1 s2 then true else if vch_lt s2 s1 then false
  else vch_lt k1 k2.

(** setValid, a std::set: its elements in order. *)
Definition cache := list sigdata_type.

Definition Get (c : cache) (k : sigdata_type) : bool :=
  existsb (fun x => negb (sigdata_lt x k) && negb (sigdata_lt k x)) c.

(** [lower_bound] and the fallback to [begin()], then [erase]. *)
Fixpoint evict_at (k : sigdata_type) (c : cache) : option cache :=
  match c with
  | [] => None
  | x :: r => if sigdata_lt x k then cons x <$> evict_at k r else Some r
  end.

Definition evict (randomHash : Z) (c : cache) : cache :=
  match evict_at (randomHash, [], []) c with
  | Some c' => c'
  | None => tail c
  end.

(** [while (setValid.size() > nMaxCacheSize)]; every round removes one entry. *)
Fixpoint shrink (fuel : nat) (rnd : nat -> Z) (nMaxCacheSize : Z) (c : cache) : cache :=
  if nMaxCacheSize <? Z.of_nat (length c) then
    match fuel with
    | O => c
    | S f => shrink f rnd nMaxCacheSize (evict (rnd f) c)
    end
  else c.

Definition Set_ (nMaxCacheSize : Z) (rnd : nat -> Z) (c : cache) (k : sigdata_type) : cache :=
  if nMaxCacheSize <=? 0 then c
  else ordered_insert id sigdata_lt k (shrink (length c) rnd nMaxCacheSize c).

(** ** CheckSig *)

Section checksig.
Context (nMaxCacheSize : Z) (rnd : nat -> Z).

(** [None]: the exception of SignatureHash. *)
Definition CheckSig (c : cache) (vchSig vchPubKey scriptCode : list Z) (txTo : CTransaction) (nIn : nat)
    (nHashType : Z) : option (bool * cache) :=
  match rev vchSig with
  | [] => Some (false, c)
  | back :: front =>
      if negb (nHashType =? 0) && negb (nHashType =? back) then Some (false, c)
      else
        let nHashType := back in
        let vchSig := rev front in
        sighash ← SignatureHash scriptCode txTo nIn nHashType;
        if Get c (sighash, vchSig, vchPubKey) then Some (true, c)
        else
          match SetPubKey vchPubKey with
          | None => Some (false, c)
          | Some key =>
              if negb (Verify key sighash vchSig) then Some (false, c)
              else Some (true, Set_ nMaxCacheSize rnd c (sighash, vchSig, vchPubKey))
          end
  end.

End checksig.

(** The same check without the cache. *)
Definition CheckSig_uncached (vchSig vchPubKey scriptCode : list Z) (txTo : CTransaction) (nIn : nat)
    (nHashType : Z) : option bool :=
  match rev vchSig with
  | [] => Some false
  | back :: front =>
      if negb (nHashType =? 0) && negb (nHashType =? back) then Some false
      else
        sighash ← SignatureHash scriptCode txTo nIn back;
        match SetPubKey vchPubKey with
        | None => Some false
        | Some key => Some (Verify key sighash (rev front))
        end
  end.

End sighash.

(** ** The order of the cache *)

Lemma vch_lt_total a : forall b, vch_lt a b = false -> vch_lt b a = false -> a = b.
Proof.
  induction a as [|x a IH]; intros [|y b]; simpl; try done.
  destruct (Z.ltb_spec x y), (Z.ltb_spec y x); try done. intros H1 H2. f_equal; [lia|]. by apply IH.
Qed.

Lemma sigdata_lt_total a b : sigdata_lt a b = false -> sigdata_lt b a = false -> a = b.
Proof.
  destruct a as [[h1 s1] k1], b as [[h2 s2] k2]. simpl.
  destruct (Z.ltb_spec h1 h2), (Z.ltb_spec h2 h1); try done. assert (h1 = h2) as -> by lia.
  destruct (vch_lt s1 s2) eqn:E1, (vch_lt s2 s1) eqn:E2; try done. rewrite (vch_lt_total s1 s2 E1 E2).
  intros H1 H2. by rewrite (vch_lt_total k1 k2 H1 H2).
Qed.

Lemma cached_spec c k : Get c k = true -> k ∈ c.
Proof.
  unfold Get. intros (x & Hx & [H1%negb_true_iff H2%negb_true_iff]%andb_true_iff)%existsb_exists.
  apply list_elem_of_In. by rewrite <- (sigdata_lt_total x k H1 H2).
Qed.

Lemma evict_at_spec k c c' : evict_at k c = Some c' -> sublist c' c /\ length c = S (length c').
Proof.
  revert c'. induction c as [|x c IH]; intros c'; simpl; [done|]. case_match.
  - intros (r & Hr & ->)%fmap_Some. destruct (IH r Hr) as [H1 H2]. split; [by constructor|]. simpl. by rewrite H2.
  - intros [= <-]. split; [by constructor|done].
Qed.

Lemma evict_spec r c : c <> [] -> sublist (evict r c) c /\ length c = S (length (evict r c)).
Proof.
  intros Hc. unfold evict. destruct (evict_at _ c) eqn:E; [by apply evict_at_spec in E|].
  destruct c; [done|]. simpl. split; [by constructor|done].
Qed.

Lemma shrink_spec fuel rnd n : forall c, 0 <= n -> (length c <= fuel)%nat ->
  sublist (shrink fuel rnd n c) c /\ Z.of_nat (length (shrink fuel rnd n c)) <= Z.max n 0.
Proof.
  induction fuel as [|fuel IH]; intros c Hn Hf; simpl; destruct (Z.ltb_spec n (Z.of_nat (length c))).
  - lia.
  - split; [done|lia].
  - destruct (evict_spec (rnd fuel) c) as [H1 H2]; [by intros ->; simpl in *; lia|].
    destruct (IH (evict (rnd fuel) c)) as [H3 H4]; [done|lia|]. split; [by etrans|done].
  - split; [done|lia].
Qed.

Lemma elem_of_sublist {A} (l k : list A) x : x ∈ l -> sublist l k -> x ∈ k.
Proof.
  intros Hx Hs. induction Hs as [|y l k Hs IH|y l k Hs IH]; [done| |right; auto].
  apply elem_of_cons in Hx as [->|Hx]; [left|right; auto].
Qed.

Lemma ordered_insert_in {K V} (key : V -> K) lt x m y : y ∈ ordered_insert key lt x m -> y = x \/ y ∈ m.
Proof.
  induction m as [|z m IH]; simpl; [rewrite list_elem_of_singleton; auto|].
  destruct (lt (key x) (key z)); [intros [H|H]%elem_of_cons; auto|].
  destruct (lt (key z) (key x)); [|auto].
  intros [->|H]%elem_of_cons; [right; left|]. destruct (IH H) as [?|?]; [by left|right; by right].
Qed.

Lemma length_ordered_insert {K V} (key : V -> K) lt x m : (length (ordered_insert key lt x m) <= S (length m))%nat.
Proof. induction m as [|z m IH]; simpl; [done|]. repeat case_match; simpl; lia. Qed.

(** ** What a signature commits to *)

Lemma take1_drop {A} (l : list A) k x : l !! k = Some x -> take 1 (drop k l) = [x].
Proof.
  revert k. induction l as [|y l IH]; intros [|k]; simpl; try done; [by intros [= ->]|]. apply IH.
Qed.

Lemma imap_imap {A B C} (f : nat -> A -> B) (g : nat -> B -> C) l :
  imap g (imap f l) = imap (fun i x => g i (f i x)) l.
Proof. revert f g. induction l as [|x l IH]; intros f g; [done|]. rewrite !imap_cons. f_equal. apply IH. Qed.

Definition is_none (ht : Z) : bool := Z.land ht 0x1f =? SIGHASH_NONE.
Definition is_single (ht : Z) : bool := negb (is_none ht) && (Z.land ht 0x1f =? SIGHASH_SINGLE).
Definition anyone_can_pay (ht : Z) : bool := negb (Z.land ht SIGHASH_ANYONECANPAY =? 0).

(** What is kept of an input: never the script, the sequence number only when
    it is locked in. *)
Definition committed_input (ht : Z) (nIn i : nat) (x : CTxIn) : COutPoint * Z * list CTxInfo :=
  (prevout x, if (is_none ht || is_single ht) && negb (bool_decide (i = nIn)) then 0 else nSequence x, infos x).

Definition committed_inputs (ht : Z) (nIn : nat) (v : list CTxIn) : list (COutPoint * Z * list CTxInfo) :=
  let all := imap (committed_input ht nIn) v in
  if anyone_can_pay ht then take 1 (drop nIn all) else all.

Definition committed_outputs (ht : Z) (nIn : nat) (v : list CTxOut) : option (list CTxOut) :=
  if is_none ht then Some []
  else if is_single ht then (fun o => [o]) <$> v !! nIn
  else Some v.

Record same_commitment (ht : Z) (nIn : nat) (t t' : CTransaction) : Prop := {
  same_version : nVersion t = nVersion t';
  same_time : nTime t = nTime t';
  same_locktime : nLockTime t = nLockTime t';
  same_mint : mint t = mint t';
  same_inputs : committed_inputs ht nIn (vin t) = committed_inputs ht nIn (vin t');
  same_outputs : committed_outputs ht nIn (vout t) = committed_outputs ht nIn (vout t')
}.

(** The hashed inputs from what is kept. *)
Definition rebuild_input (sc : list Z) (c : COutPoint * Z * list CTxInfo) : CTxIn := mk_txin c.1.1 sc c.1.2 c.2.

Definition rebuild_inputs (ht : Z) (nIn : nat) (sc : list Z) (l : list (COutPoint * Z * list CTxInfo)) : list CTxIn :=
  if anyone_can_pay ht then map (rebuild_input sc) l
  else imap (fun i => rebuild_input (if bool_decide (i = nIn) then sc else [])) l.

Definition rebuild_outputs (ht : Z) (nIn : nat) (l : list CTxOut) : list CTxOut :=
  if is_single ht then replicate nIn txout_null ++ l else l.

Lemma sighash_tx_commitment sc t nIn ht :
  (nIn < length (vin t))%nat ->
  sighash_tx sc t nIn ht =
    (fun o => mk_tx (nVersion t) (nTime t)
       (rebuild_inputs ht nIn (FindAndDelete sc [OP_CODESEPARATOR]).1 (committed_inputs ht nIn (vin t)))
       (rebuild_outputs ht nIn o) (nLockTime t) (mint t)) <$> committed_outputs ht nIn (vout t).
Proof.
  intros Hn. destruct (lookup_lt_is_Some_2 (vin t) nIn Hn) as [x Hx].
  unfold sighash_tx. rewrite bool_decide_false by lia. set (s := (FindAndDelete _ _).1). cbv zeta.
  assert (forall f, (forall i y, f i y = rebuild_input (if bool_decide (i = nIn) then s else []) (committed_input ht nIn i y)) ->
    (if anyone_can_pay ht then take 1 (drop nIn (imap f (vin t))) else imap f (vin t)) =
    rebuild_inputs ht nIn s (committed_inputs ht nIn (vin t))) as Hf.
  { intros f Hf. unfold rebuild_inputs, committed_inputs. destruct (anyone_can_pay ht).
    - rewrite (take1_drop _ nIn (f nIn x)) by (rewrite list_lookup_imap, Hx; done).
      rewrite (take1_drop _ nIn (committed_input ht nIn nIn x)) by (rewrite list_lookup_imap, Hx; done).
      simpl. by rewrite Hf, bool_decide_true.
    - rewrite imap_imap. apply imap_ext. intros i y _. apply Hf. }
  assert (forall u f, vin u = imap f (vin t) ->
    (forall i y, f i y = rebuild_input (if bool_decide (i = nIn) then s else []) (committed_input ht nIn i y)) ->
    (if anyone_can_pay ht then Some (set_vin u (take 1 (drop nIn (vin u)))) else Some u) =
    Some (set_vin u (rebuild_inputs ht nIn s (committed_inputs ht nIn (vin t))))) as Hu.
  { intros u f Ev Hfe. rewrite <- (Hf f Hfe), Ev. destruct (anyone_can_pay ht); [done|]. rewrite <- Ev. by destruct u. }
  unfold committed_outputs, rebuild_outputs. fold (is_none ht) (anyone_can_pay ht).
  assert (is_single ht = negb (is_none ht) && (Z.land ht 31 =? SIGHASH_SINGLE)) as Eis by done.
  destruct (is_none ht) eqn:Eno; [|destruct (Z.land ht 31 =? SIGHASH_SINGLE)]; cbn [negb andb] in Eis; rewrite ?Eis.
  - cbn [mbind option_bind]. erewrite Hu; [done|cbn [set_vin vin]; apply imap_imap|].
    intros i y. unfold committed_input. rewrite Eno. simpl. by destruct (bool_decide (i = nIn)).
  - cbn [set_vin set_vout vout]. destruct (vout t !! nIn) as [o|] eqn:Eo.
    + rewrite bool_decide_false by (apply lookup_lt_Some in Eo; lia). cbn [mbind option_bind].
      erewrite Hu; [|cbn [set_vin vin]; apply imap_imap|].
      * unfold single_output. rewrite (take1_drop _ nIn o) by done. done.
      * intros i y. unfold committed_input. rewrite Eno, Eis. simpl. by destruct (bool_decide (i = nIn)).
    + rewrite bool_decide_true by (by apply lookup_ge_None in Eo). done.
  - cbn [mbind option_bind]. erewrite Hu; [done|done|].
    intros i y. unfold committed_input. by rewrite Eno, Eis.
Qed.

Section claims.
Context {B : Abi} {D : DigestLib} {E : ECLib}.

(** C10: A signature hash depends on a transaction only through what its hash
    type locks in: never the scripts of the inputs; all outputs, none, or the
    one at the index of the input; the sequence numbers of the other inputs
    only with SIGHASH_ALL; the other inputs not at all with
    SIGHASH_ANYONECANPAY.  An input index out of range, or an output index out
    of range under SIGHASH_SINGLE, gives the hash 1. *)
Theorem SignatureHash_commitment sc t t' nIn ht :
  (nIn < length (vin t))%nat -> (nIn < length (vin t'))%nat -> same_commitment ht nIn t t' ->
  SignatureHash sc t nIn ht = SignatureHash sc t' nIn ht /\
  (is_single ht = true -> (length (vout t) <= nIn)%nat -> SignatureHash sc t nIn ht = Some 1) /\
  (forall k, (length (vin t) <= k)%nat -> SignatureHash sc t k ht = Some 1).
Proof.
  intros H1 H2 [E1 E2 E3 E4 E5 E6]. unfold SignatureHash. rewrite (sighash_tx_commitment sc t'), sighash_tx_commitment by done.
  split; [by rewrite E1, E2, E3, E4, E5, E6|]. split.
  - intros Hs Hl. unfold committed_outputs. unfold is_single in Hs.
    destruct (is_none ht) eqn:Eno; [done|]. unfold is_single. rewrite Eno, Hs.
    by rewrite (proj2 (lookup_ge_None (vout t) nIn)).
  - intros k Hk. unfold sighash_tx. by rewrite bool_decide_true.
Qed.

(** Every entry of the cache is a signature that verifies. *)
Definition cache_ok (c : cache) : Prop :=
  Forall (fun '(h, s, k) => exists key, SetPubKey k = Some key /\ Verify key h s = true) c.

Lemma cache_ok_in c h s k : cache_ok c -> (h, s, k) ∈ c -> exists key, SetPubKey k = Some key /\ Verify key h s = true.
Proof. intros Hc Hin. unfold cache_ok in Hc. rewrite Forall_forall in Hc. exact (Hc _ Hin). Qed.

Lemma Set_ok n rnd c h s k key :
  cache_ok c -> SetPubKey k = Some key -> Verify key h s = true ->
  cache_ok (Set_ n rnd c (h, s, k)) /\
  Z.of_nat (length (Set_ n rnd c (h, s, k))) <= Z.max (Z.of_nat (length c)) (n + 1).
Proof.
  intros Hc Hk Hv. unfold Set_. destruct (Z.leb_spec n 0); [split; [done|lia]|].
  destruct (shrink_spec (length c) rnd n c) as [Hs Hl]; [lia|done|]. split.
  - apply Forall_forall. intros x [->|Hx]%ordered_insert_in; [eauto|].
    unfold cache_ok in Hc. rewrite Forall_forall in Hc. apply Hc. by eapply elem_of_sublist.
  - pose proof (length_ordered_insert id sigdata_lt (h, s, k) (shrink (length c) rnd n c)). lia.
Qed.

(** C11: The signature cache never changes an answer: from a cache of
    verified entries, CheckSig returns what it would without a cache and
    leaves a cache of verified entries, which exceeds the configured size by
    at most one entry. *)
Theorem CheckSig_cache_transparent nMax rnd c vchSig vchPubKey sc t nIn ht :
  cache_ok c ->
  fst <$> CheckSig nMax rnd c vchSig vchPubKey sc t nIn ht = CheckSig_uncached vchSig vchPubKey sc t nIn ht /\
  (forall b c', CheckSig nMax rnd c vchSig vchPubKey sc t nIn ht = Some (b, c') ->
     cache_ok c' /\ Z.of_nat (length c') <= Z.max (Z.of_nat (length c)) (nMax + 1)).
Proof.
  intros Hc. unfold CheckSig, CheckSig_uncached. destruct (rev vchSig) as [|back front].
  { split; [done|]. intros b c' [= <- <-]. split; [done|lia]. }
  destruct (_ && _). { split; [done|]. intros b c' [= <- <-]. split; [done|lia]. }
  cbv zeta. destruct (SignatureHash sc t nIn back) as [h|]; cbn [mbind option_bind]; [|done].
  destruct (Get c _) eqn:Eg.
  - apply cached_spec in Eg. destruct (cache_ok_in c _ _ _ Hc Eg) as (key & -> & ->).
    split; [done|]. intros b c' [= <- <-]. split; [done|lia].
  - destruct (SetPubKey vchPubKey) as [key|] eqn:Ek.
    2:{ split; [done|]. intros b c' [= <- <-]. split; [done|lia]. }
    destruct (Verify key h (rev front)) eqn:Ev; cbn [negb].
    + split; [done|]. intros b c' [= <- <-]. by eapply Set_ok.
    + split; [done|]. intros b c' [= <- <-]. split; [done|lia].
Qed.

End claims.

(** ** Evaluation *)

(** Curve operations for the witnesses: a signature is the key followed by
    the first byte of the hash. *)
Definition demo_ec : ECLib := {|
  ec_point := list Z;
  o2i_ECPublicKey k := if bool_decide (k = []) then None else Some k;
  ECDSA_verify h s k := if bool_decide (s = k ++ take 1 h) then 1 else 0
|}.

Definition two_in (q : Z) : CTransaction :=
  mk_tx TT_NORMAL 100 [demo_in; mk_txin (mk_outpoint 9 1) [q] q []] [mk_txout [] 5000 [OP_1]] 0 no_mint.

Lemma SignatureHash_commitment_witness :
  SignatureHash (B := demo_abi) (D := toy_digests) [OP_1] (two_in 3) 0 0x82 =
  SignatureHash (B := demo_abi) (D := toy_digests) [OP_1] (two_in 4) 0 0x82.
Proof.
  apply (SignatureHash_commitment (B := demo_abi) (D := toy_digests) [OP_1] (two_in 3) (two_in 4) 0 0x82).
  - simpl. lia.
  - simpl. lia.
  - split; reflexivity.
Defined.

Lemma CheckSig_cache_transparent_witness :
  fst <$> CheckSig (B := demo_abi) (D := toy_digests) (E := demo_ec) 1 (fun _ => 0) [(7, [5; 7], [5])] [2; 1] [2] [] pay_tx 0 0 =
  CheckSig_uncached (B := demo_abi) (D := toy_digests) (E := demo_ec) [2; 1] [2] [] pay_tx 0 0.
Proof.
  apply (CheckSig_cache_transparent (B := demo_abi) (D := toy_digests) (E := demo_ec)
    1 (fun _ => 0) [(7, [5; 7], [5])] [2; 1] [2] [] pay_tx 0 0).
  constructor; [|constructor]. exists [5]. split; reflexivity.
Defined.

End Sig.
