(* ===== verification/Key.v ===== *)
(** * Keys (src/src/key.cpp, src/src/key.h)

    CKey wraps an EC_KEY of OpenSSL.  The curve arithmetic, the encoding of
    points and ECDSA come through [ECGroup]; everything key.cpp does with them is
    modelled: secrets, public keys, compact signatures and the recovery of the
    public key from a signature.  An exception is [None]. *)

From S2P Require Import Prelude Uint256 Bignum Crypto Script Serialize Tx Signature.
Import Script Tx.

(** The functions of OpenSSL on EC_GROUP, EC_POINT and ECDSA for secp256k1.
    [ec_gen d] is d times the generator, [ec_lin a R b] is a times the
    generator plus b times R, [ec_mul R b] is b times R. *)
Class ECGroup (E : ECLib) := {
  ec_order : Z;
  ec_field : Z;
  ec_degree : Z;
  ec_gen : Z -> ec_point;
  ec_lin : Z -> ec_point -> Z -> ec_point;
  ec_mul : ec_point -> Z -> ec_point;
  ec_at_infinity : ec_point -> bool;
  ec_decompress : Z -> Z -> option ec_point;
  i2o_ECPublicKey : ec_point -> Z -> list Z;
  BN_mod_inverse : Z -> Z -> option Z;
  ECDSA_do_sign : list Z -> Z -> option (Z * Z);
  ECDSA_sign : list Z -> Z -> option (list Z)
}.

(** POINT_CONVERSION_COMPRESSED and POINT_CONVERSION_UNCOMPRESSED *)
Definition FORM_COMPRESSED : Z := 2.
Definition FORM_UNCOMPRESSED : Z := 4.

(** The documented behaviour used below: the generator's multiples form a group
    of order [ec_order], points are encoded uniquely, and a signature of ECDSA is
    made from the multiple k of the generator (SEC 1, 4.1.3). *)
Class ECGroupLaws {E : ECLib} (G : ECGroup E) : Prop := {
  ec_order_range : 1 < ec_order < 2 ^ 256;
  ec_field_range : ec_order <= ec_field < 2 * ec_order;
  ec_degree_eq : ec_degree = 256;
  ec_gen_mod : forall d, ec_gen (d mod ec_order) = ec_gen d;
  ec_lin_gen : forall a k b, ec_lin a (ec_gen k) b = ec_gen (a + b * k);
  ec_gen_order : forall k, ec_at_infinity (ec_mul (ec_gen k) ec_order) = true;
  o2i_i2o : forall p form, form = FORM_COMPRESSED \/ form = FORM_UNCOMPRESSED ->
    o2i_ECPublicKey (i2o_ECPublicKey p form) = Some p;
  i2o_o2i : forall v p, o2i_ECPublicKey v = Some p ->
    i2o_ECPublicKey p (Z.land (rd v 0) 0xfe) = v;
  i2o_form : forall p form, form = FORM_COMPRESSED \/ form = FORM_UNCOMPRESSED ->
    Z.land (rd (i2o_ECPublicKey p form) 0) 0xfe = form;
  i2o_length : forall p form, form = FORM_COMPRESSED \/ form = FORM_UNCOMPRESSED ->
    length (i2o_ECPublicKey p form) = if form =? FORM_COMPRESSED then 33%nat else 65%nat;
  BN_mod_inverse_ok : forall a n i, BN_mod_inverse a n = Some i -> (a * i) mod n = 1;
  BN_mod_inverse_some : forall a, 0 < a < ec_order -> is_Some (BN_mod_inverse a ec_order);
  ECDSA_do_sign_ok : forall msg d r s, ECDSA_do_sign msg d = Some (r, s) ->
    0 < r < ec_order /\ 0 < s < ec_order /\
    exists k x bit, ec_decompress x bit = Some (ec_gen k) /\ 0 <= x < ec_field /\ (bit = 0 \/ bit = 1) /\
      r = x mod ec_order /\ (s * k) mod ec_order = (digits_val 256 msg + r * d) mod ec_order;
  ECDSA_sign_verify : forall msg d sig, ECDSA_sign msg d = Some sig -> ECDSA_verify msg sig (ec_gen d) = 1
}.

(** A group of order 101 in which the laws hold: the points are the residues,
    the x coordinate of a point is the point. *)
Definition toy_order : Z := 101.
Definition toy_i2o (p form : Z) : list Z :=
  form :: p :: replicate (if form =? FORM_COMPRESSED then 31 else 63) 0.
Definition toy_sign (msg : list Z) (d : Z) : list Z := [d mod toy_order; digits_val 256 msg mod 251].

Definition toy_ec : ECLib := {|
  ec_point := Z;
  o2i_ECPublicKey v :=
    let f := Z.land (rd v 0) 0xfe in
    if bool_decide (v = toy_i2o (rd v 1) f /\ (f = FORM_COMPRESSED \/ f = FORM_UNCOMPRESSED)) then Some (rd v 1) else None;
  ECDSA_verify msg sig p := if bool_decide (sig = toy_sign msg p) then 1 else 0
|}.

Definition toy_inverse (a n : Z) : option Z := List.find (fun i => (a * i) mod n =? 1) (seqZ 0 n).

Definition toy_group : ECGroup toy_ec := Build_ECGroup toy_ec toy_order 103 256
  (fun d => d mod toy_order)
  (fun a R b => (a + b * R) mod toy_order)
  (fun R b => (b * R) mod toy_order)
  (fun R => R =? 0)
  (fun x bit => if (bit =? 0) && (x <? toy_order) then Some x else None)
  toy_i2o toy_inverse
  (fun msg d => let s := (digits_val 256 msg + d) mod toy_order in if s =? 0 then None else Some (1, s))
  (fun msg d => Some (toy_sign msg d)).

Lemma toy_inverse_some a : 0 < a < toy_order -> is_Some (toy_inverse a toy_order).
Proof.
  intros Ha.
  assert (forallb (fun a => match toy_inverse a toy_order with Some _ => true | None => false end)
            (seqZ 1 100) = true) as H by (vm_compute; reflexivity).
  rewrite forallb_forall in H. specialize (H a).
  destruct (toy_inverse a toy_order); [eauto|].
  discriminate H. apply list_elem_of_In, elem_of_seqZ. unfold toy_order in Ha. lia.
Qed.

#[export] Instance toy_group_laws : ECGroupLaws toy_group.
Proof.
  split; try done; cbn [toy_group toy_ec ec_order ec_field ec_degree ec_gen ec_lin ec_mul ec_at_infinity
    ec_decompress i2o_ECPublicKey BN_mod_inverse ECDSA_do_sign ECDSA_sign o2i_ECPublicKey ECDSA_verify ec_point].
  - intros d. apply Z.mod_mod. done.
  - intros a k b. rewrite <- Zplus_mod_idemp_r, Zmult_mod_idemp_r, Zplus_mod_idemp_r. done.
  - intros k. rewrite Z.mul_comm, Z.mod_mul by done. done.
  - intros p form [-> | ->]; by rewrite bool_decide_eq_true_2 by (simpl; auto).
  - intros v p H. case_bool_decide as Hv; [|done]. injection H as <-. by destruct Hv as [<- _].
  - by intros p form [-> | ->].
  - by intros p form [-> | ->].
  - intros a n i H. apply find_some in H. destruct H as [_ H]. by apply Z.eqb_eq.
  - apply toy_inverse_some.
  - intros msg d r s H. pose proof (Z.mod_pos_bound (digits_val 256 msg + d) toy_order eq_refl) as Hs.
    destruct (Z.eqb_spec ((digits_val 256 msg + d) mod toy_order) 0) as [|Hne]; [done|].
    injection H as <- <-. unfold toy_order in *. split; [lia|]. split; [lia|].
    exists 1, 1, 0. split; [done|]. split; [lia|]. split; [by left|]. split; [done|].
    rewrite Z.mul_1_r, Z.mod_mod, Z.mul_1_l by done. done.
  - intros msg d sig [= <-]. unfold toy_sign. rewrite Z.mod_mod by done. by rewrite bool_decide_eq_true_2.
Qed.

Module Key.

Section key.
Context {E : ECLib} {G : ECGroup E}.

(** An EC_KEY: the private and public parts that are set, and the form in
    which the public key is written. *)
Record EC_KEY := mk_ec { priv_key : option Z; pub_key : option ec_point; conv_form : Z }.

Record CKey := mk_key { pkey : EC_KEY; fSet : bool; fCompressedPubKey : bool }.

Definition EC_KEY_new : EC_KEY := mk_ec None None FORM_UNCOMPRESSED.

Definition Reset : CKey := mk_key EC_KEY_new false false.

Definition SetCompressedPubKey (k : CKey) : CKey :=
  mk_key (mk_ec (priv_key (pkey k)) (pub_key (pkey k)) FORM_COMPRESSED) (fSet k) true.

(** [CKey(const CKey& b)] does not initialize fCompressedPubKey: [garbage] is
    what the memory holds. *)
Definition copy (garbage : bool) (b : CKey) : CKey := mk_key (pkey b) (fSet b) garbage.

Definition assign (k b : CKey) : CKey := mk_key (pkey b) (fSet b) (fCompressedPubKey k).

Definition IsNull (k : CKey) : bool := negb (fSet k).
Definition IsCompressed (k : CKey) : bool := fCompressedPubKey k.

Definition EC_KEY_regenerate_key (k : EC_KEY) (d : Z) : EC_KEY := mk_ec (Some d) (Some (ec_gen d)) (conv_form k).

(** [MakeNewKey]; [d] is the secret EC_KEY_generate_key draws. *)
Definition MakeNewKey (k : CKey) (fCompressed : bool) (d : Z) : CKey :=
  let k := mk_key (EC_KEY_regenerate_key (pkey k) d) (fSet k) (fCompressedPubKey k) in
  let k := if fCompressed then SetCompressedPubKey k else k in
  mk_key (pkey k) true (fCompressedPubKey k).

Definition SetSecret (k : CKey) (vchSecret : list Z) (fCompressed : bool) : option CKey :=
  if negb (Z.of_nat (length vchSecret) =? 32) then None
  else
    let k := mk_key (EC_KEY_regenerate_key EC_KEY_new (digits_val 256 vchSecret)) true (fCompressedPubKey k) in
    Some (if fCompressed || fCompressedPubKey k then SetCompressedPubKey k else k).

(** The 32 bytes of the secret, and fCompressed. *)
Definition GetSecret (k : CKey) : option (list Z * bool) :=
  bn ← priv_key (pkey k);
  Some (be_bytes 32 bn, fCompressedPubKey k).

(** [SetPubKey]: [None] is [return false]. *)
Definition SetPubKey (k : CKey) (vchPubKey : list Z) : option CKey :=
  p ← o2i_ECPublicKey vchPubKey;
  let k := mk_key (mk_ec (priv_key (pkey k)) (Some p) (Z.land (rd vchPubKey 0) 0xfe)) true (fCompressedPubKey k) in
  Some (if Z.of_nat (length vchPubKey) =? 33 then SetCompressedPubKey k else k).

Definition GetPubKey (k : CKey) : option (list Z) :=
  p ← pub_key (pkey k);
  Some (i2o_ECPublicKey p (conv_form (pkey k))).

Definition Sign (k : CKey) (hash : Z) : option (list Z) :=
  d ← priv_key (pkey k);
  ECDSA_sign (le_bytes 32 hash) d.

Definition Verify (k : CKey) (hash : Z) (vchSig : list Z) : bool :=
  match pub_key (pkey k) with
  | Some p => ECDSA_verify (le_bytes 32 hash) vchSig p =? 1
  | None => false
  end.

(** ** Recovery of the public key (SEC 1, 4.1.6) *)

(** [ECDSA_SIG_recover_key_GFp]: the result and the new public key. *)
Definition ECDSA_SIG_recover_key_GFp (r s : Z) (msg : list Z) (recid : Z) (check : bool) : option ec_point :=
  let i := recid / 2 in
  let order := ec_order in
  let x := order * i + r in
  if ec_field <=? x then None
  else
    R ← ec_decompress x (recid mod 2);
    if check && negb (ec_at_infinity (ec_mul R order)) then None
    else
      let n := ec_degree in
      let e := digits_val 256 msg in
      let e := if n <? 8 * Z.of_nat (length msg) then Z.shiftr e (8 - Z.land n 7) else e in
      let e := (0 - e) mod order in
      rr ← BN_mod_inverse r order;
      let sor := (s * rr) mod order in
      let eor := (e * rr) mod order in
      Some (ec_lin eor R sor).

(** [for (int i=0; i<4; i++)]: the first recovery that gives the public key. *)
Fixpoint find_recid (k : CKey) (r s : Z) (msg : list Z) (i : Z) (n : nat) : option Z :=
  match n with
  | O => None
  | S n =>
      let keyRec := if fCompressedPubKey k then SetCompressedPubKey (mk_key EC_KEY_new true false)
                    else mk_key EC_KEY_new true false in
      let found :=
        match ECDSA_SIG_recover_key_GFp r s msg i true with
        | Some Q => bool_decide (Some (i2o_ECPublicKey Q (conv_form (pkey keyRec))) = GetPubKey k)
        | None => false
        end in
      if found then Some i else find_recid k r s msg (i + 1) n
  end.

(** The outer [None] is the exception; the inner one [return false]. *)
Definition SignCompact (k : CKey) (hash : Z) : option (option (list Z)) :=
  let msg := le_bytes 32 hash in
  match priv_key (pkey k) with
  | None => Some None
  | Some d =>
      match ECDSA_do_sign msg d with
      | None => Some None
      | Some (r, s) =>
          if (r <? 2 ^ 256) && (s <? 2 ^ 256) then
            nRecId ← find_recid k r s msg 0 4;
            Some (Some (u8 (nRecId + 27 + (if fCompressedPubKey k then 4 else 0)) :: be_bytes 32 r ++ be_bytes 32 s))
          else Some None
      end
  end.

(** The returned bool and the object. *)
Definition SetCompactSignature (k : CKey) (hash : Z) (vchSig : list Z) : bool * CKey :=
  if negb (Z.of_nat (length vchSig) =? 65) then (false, k)
  else
    let nV := rd vchSig 0 in
    if (nV <? 27) || (35 <=? nV) then (false, k)
    else
      let r := digits_val 256 (take 32 (drop 1 vchSig)) in
      let s := digits_val 256 (take 32 (drop 33 vchSig)) in
      let k := mk_key EC_KEY_new (fSet k) (fCompressedPubKey k) in
      let '(k, nV) := if 31 <=? nV then (SetCompressedPubKey k, nV - 4) else (k, nV) in
      match ECDSA_SIG_recover_key_GFp r s (le_bytes 32 hash) (nV - 27) false with
      | Some Q => (true, mk_key (mk_ec (priv_key (pkey k)) (Some Q) (conv_form (pkey k))) true (fCompressedPubKey k))
      | None => (false, k)
      end.

Definition VerifyCompact (k : CKey) (hash : Z) (vchSig : list Z) : option bool :=
  let '(ok, key) := SetCompactSignature Reset hash vchSig in
  if negb ok then Some false
  else
    a ← GetPubKey k;
    b ← GetPubKey key;
    Some (bool_decide (a = b)).

Definition IsValid (k : CKey) : option bool :=
  if negb (fSet k) then Some false
  else
    '(secret, fCompr) ← GetSecret k;
    key2 ← SetSecret Reset secret fCompr;
    a ← GetPubKey k;
    b ← GetPubKey key2;
    Some (bool_decide (a = b)).

End key.

(** ** Properties *)

Section laws.
Context {E : ECLib} {G : ECGroup E} {HG : ECGroupLaws G}.

Definition form_of (fCompressed : bool) : Z := if fCompressed then FORM_COMPRESSED else FORM_UNCOMPRESSED.

(** A key with the secret [d], as MakeNewKey and SetSecret build it. *)
Definition full_key (d : Z) (fCompressed : bool) : CKey :=
  mk_key (mk_ec (Some d) (Some (ec_gen d)) (form_of fCompressed)) true fCompressed.

Lemma form_of_ok c : form_of c = FORM_COMPRESSED \/ form_of c = FORM_UNCOMPRESSED.
Proof. destruct c; auto. Qed.

#[local] Hint Resolve form_of_ok : shiny.

Lemma MakeNewKey_full c d : MakeNewKey Reset c d = full_key d c.
Proof. by destruct c. Qed.

Lemma SetSecret_full k b c :
  length b = 32%nat -> SetSecret k b c = Some (full_key (digits_val 256 b) (c || fCompressedPubKey k)).
Proof. intros Hb. unfold SetSecret. rewrite Hb. by destruct c, k as [k s []]. Qed.

Lemma GetSecret_full d c : GetSecret (full_key d c) = Some (be_bytes 32 d, c).
Proof. done. Qed.

Lemma GetPubKey_full d c : GetPubKey (full_key d c) = Some (i2o_ECPublicKey (ec_gen d) (form_of c)).
Proof. done. Qed.

(** The arithmetic of the recovery: with s*k = e + r*d, the point
    (-e/r) G + (s/r) (k G) is d G. *)
Lemma recover_scalar n e r s k d rr :
  1 < n -> (s * k) mod n = (e + r * d) mod n -> (r * rr) mod n = 1 ->
  (((0 - e) mod n * rr) mod n + (s * rr) mod n * k) mod n = d mod n.
Proof.
  intros Hn Hs Hr.
  rewrite Zplus_mod_idemp_l, Z.add_comm, <- Zplus_mod_idemp_l.
  rewrite Zmult_mod_idemp_l, Zplus_mod_idemp_l, Z.add_comm.
  rewrite <- Zplus_mod_idemp_l, Zmult_mod_idemp_l, Zplus_mod_idemp_l.
  replace ((0 - e) * rr + s * rr * k) with (s * k * rr + - e * rr) by ring.
  rewrite <- Zplus_mod_idemp_l, <- (Zmult_mod_idemp_l (s * k)), Hs.
  rewrite Zmult_mod_idemp_l, Zplus_mod_idemp_l.
  replace ((e + r * d) * rr + - e * rr) with (r * rr * d) by ring.
  rewrite <- Zmult_mod_idemp_l, Hr. f_equal. lia.
Qed.

Lemma recover_ok hash d r s check :
  ECDSA_do_sign (le_bytes 32 hash) d = Some (r, s) ->
  exists recid, 0 <= recid < 4 /\ ECDSA_SIG_recover_key_GFp r s (le_bytes 32 hash) recid check = Some (ec_gen d).
Proof.
  intros Hs. destruct (ECDSA_do_sign_ok _ _ _ _ Hs) as (Hr & Hs' & k & x & bit & HR & Hx & Hbit & Er & Ek).
  pose proof ec_order_range as Ho. pose proof ec_field_range as Hf. pose proof ec_degree_eq as Hd.
  assert (0 <= x / ec_order < 2) as Hq.
  { split; [apply Z.div_pos; lia|]. apply Z.div_lt_upper_bound; lia. }
  exists (2 * (x / ec_order) + bit). split; [lia|].
  unfold ECDSA_SIG_recover_key_GFp.
  replace ((2 * (x / ec_order) + bit) / 2) with (x / ec_order) by (apply (Z.div_unique_pos _ _ _ bit); lia).
  replace ((2 * (x / ec_order) + bit) mod 2) with bit by (apply (Z.mod_unique_pos _ _ (x / ec_order)); lia).
  replace (ec_order * (x / ec_order) + r) with x by (rewrite Er; apply Z.div_mod; lia).
  rewrite (proj2 (Z.leb_gt _ _)) by lia. rewrite HR. cbn [mbind option_bind].
  rewrite ec_gen_order. cbn [negb]. rewrite andb_false_r.
  rewrite Hd, length_le_bytes. change (256 <? 8 * Z.of_nat 32) with false. cbv iota.
  destruct (BN_mod_inverse_some r Hr) as [rr Hrr]. rewrite Hrr. cbn [mbind option_bind].
  f_equal. rewrite ec_lin_gen. rewrite <- ec_gen_mod, <- (ec_gen_mod d). f_equal.
  apply (recover_scalar _ (digits_val 256 (le_bytes 32 hash)) r); [lia|done|by apply BN_mod_inverse_ok].
Qed.

Lemma recover_check r s msg recid Q :
  ECDSA_SIG_recover_key_GFp r s msg recid true = Some Q ->
  ECDSA_SIG_recover_key_GFp r s msg recid false = Some Q.
Proof.
  unfold ECDSA_SIG_recover_key_GFp. destruct (_ <=? _); [done|].
  destruct (ec_decompress _ _) as [R|]; [|done]. cbn [mbind option_bind andb].
  by destruct (negb _).
Qed.

(** What the search of SignCompact returns. *)
Lemma find_recid_spec d c r s msg n : forall i j,
  find_recid (full_key d c) r s msg i n = Some j ->
  i <= j < i + Z.of_nat n /\
  exists Q, ECDSA_SIG_recover_key_GFp r s msg j true = Some Q /\
            i2o_ECPublicKey Q (form_of c) = i2o_ECPublicKey (ec_gen d) (form_of c).
Proof.
  induction n as [|n IH]; intros i j H; [done|]. cbn [find_recid] in H.
  destruct (ECDSA_SIG_recover_key_GFp r s msg i true) as [Q|] eqn:HQ.
  - rewrite GetPubKey_full in H. case_bool_decide as He.
    + injection H as <-. split; [lia|]. exists Q. split; [done|].
      destruct c; by injection He.
    + apply IH in H. destruct H as [Hj H]. split; [lia|done].
  - apply IH in H. destruct H as [Hj H]. split; [lia|done].
Qed.

Lemma find_recid_some d c r s msg n : forall i j,
  i <= j < i + Z.of_nat n -> ECDSA_SIG_recover_key_GFp r s msg j true = Some (ec_gen d) ->
  is_Some (find_recid (full_key d c) r s msg i n).
Proof.
  induction n as [|n IH]; intros i j Hj HQ; [lia|]. cbn [find_recid].
  destruct (decide (i = j)) as [->|Hne].
  - rewrite HQ, GetPubKey_full. rewrite bool_decide_eq_true_2 by (by destruct c). eauto.
  - case_match; [eauto|]. apply (IH _ j); [lia|done].
Qed.

Lemma take_be_bytes a b : take 32 (be_bytes 32 a ++ be_bytes 32 b) = be_bytes 32 a.
Proof. rewrite take_app_le by (rewrite length_be_bytes; lia). apply take_ge. rewrite length_be_bytes. lia. Qed.

Lemma drop_be_bytes a b : drop 32 (be_bytes 32 a ++ be_bytes 32 b) = be_bytes 32 b.
Proof. by rewrite drop_app_length' by (by rewrite length_be_bytes). Qed.

Lemma compact_parts v r s :
  0 <= r < 2 ^ 256 -> 0 <= s < 2 ^ 256 ->
  digits_val 256 (take 32 (drop 1 (v :: be_bytes 32 r ++ be_bytes 32 s))) = r /\
  digits_val 256 (take 32 (drop 33 (v :: be_bytes 32 r ++ be_bytes 32 s))) = s.
Proof.
  intros Hr Hs. cbn [drop]. rewrite drop_0, take_be_bytes, drop_be_bytes.
  rewrite (take_ge (be_bytes 32 s)) by (rewrite length_be_bytes; lia).
  rewrite !digits_val_be_bytes. change (256 ^ Z.of_nat 32) with (2 ^ 256).
  by rewrite !Z.mod_small.
Qed.

(** The object after SetCompactSignature of a signature made from the parts. *)
Lemma SetCompactSignature_parts hash j (c : bool) r s Q :
  0 <= j < 4 -> 0 <= r < 2 ^ 256 -> 0 <= s < 2 ^ 256 ->
  ECDSA_SIG_recover_key_GFp r s (le_bytes 32 hash) j false = Some Q ->
  SetCompactSignature Reset hash (u8 (j + 27 + (if c then 4 else 0)) :: be_bytes 32 r ++ be_bytes 32 s) =
    (true, mk_key (mk_ec None (Some Q) (form_of c)) true c).
Proof.
  intros Hj Hr Hs HQ. unfold SetCompactSignature.
  rewrite u8_small by (destruct c; lia).
  replace (Z.of_nat (length _) =? 65) with true
    by (cbn [length]; by rewrite length_app, !length_be_bytes).
  cbn [negb]. change (rd (j + 27 + (if c then 4 else 0) :: be_bytes 32 r ++ be_bytes 32 s) 0) with (j + 27 + (if c then 4 else 0)).
  destruct (compact_parts (j + 27 + (if c then 4 else 0)) r s Hr Hs) as [-> ->].
  rewrite (proj2 (Z.ltb_ge _ 27)) by (destruct c; lia).
  rewrite (proj2 (Z.leb_gt 35 _)) by (destruct c; lia). cbn [orb].
  destruct c.
  - rewrite (proj2 (Z.leb_le 31 _)) by lia. replace (j + 27 + 4 - 4 - 27) with j by lia. by rewrite HQ.
  - rewrite (proj2 (Z.leb_gt 31 _)) by lia. replace (j + 27 + 0 - 27) with j by lia. by rewrite HQ.
Qed.

(** Signing with a key and reading the public key back from the 65 bytes: the
    signature is produced whenever ECDSA produces one, the search for the
    recovery number never fails, and the key that is read from the signature has
    the public key, in the same form, so VerifyCompact accepts. *)
Theorem compact_signature_recovers d c hash r s :
  ECDSA_do_sign (le_bytes 32 hash) d = Some (r, s) ->
  exists vchSig key,
    SignCompact (full_key d c) hash = Some (Some vchSig) /\ length vchSig = 65%nat /\
    SetCompactSignature Reset hash vchSig = (true, key) /\
    GetPubKey key = GetPubKey (full_key d c) /\ IsCompressed key = c /\
    VerifyCompact (full_key d c) hash vchSig = Some true.
Proof.
  intros Hs. destruct (ECDSA_do_sign_ok _ _ _ _ Hs) as (Hr & Hs' & _). pose proof ec_order_range as Ho.
  destruct (recover_ok hash d r s true Hs) as (recid & Hrec & HQ).
  destruct (find_recid_some d c r s _ 4 0 recid ltac:(lia) HQ) as [j Hj].
  destruct (find_recid_spec _ _ _ _ _ _ _ _ Hj) as (Hj' & Q & HQ' & Epub).
  pose proof (SetCompactSignature_parts hash j c r s Q ltac:(lia) ltac:(lia) ltac:(lia)
    (recover_check _ _ _ _ _ HQ')) as Hset.
  exists (u8 (j + 27 + (if c then 4 else 0)) :: be_bytes 32 r ++ be_bytes 32 s), (mk_key (mk_ec None (Some Q) (form_of c)) true c).
  split_and!; [| |exact Hset| |done|].
  - unfold SignCompact. cbn [full_key pkey priv_key]. rewrite Hs.
    rewrite (proj2 (Z.ltb_lt r _)), (proj2 (Z.ltb_lt s _)) by lia. cbn [andb].
    by rewrite Hj.
  - cbn [length]. by rewrite length_app, !length_be_bytes.
  - rewrite GetPubKey_full. cbn. by rewrite Epub.
  - unfold VerifyCompact. rewrite Hset. cbn [negb]. rewrite GetPubKey_full. cbn. by rewrite Epub, bool_decide_eq_true_2.
Qed.

(** The secret of a key builds the same key again, and IsValid says so. *)
Lemma secret_round_trip d c :
  0 <= d < 2 ^ 256 ->
  (exists b, GetSecret (full_key d c) = Some (b, c) /\ length b = 32%nat /\ SetSecret Reset b c = Some (full_key d c)) /\
  IsValid (full_key d c) = Some true.
Proof.
  intros Hd.
  assert (SetSecret Reset (be_bytes 32 d) c = Some (full_key d c)) as Hset.
  { rewrite SetSecret_full by apply length_be_bytes. rewrite orb_false_r, digits_val_be_bytes.
    change (256 ^ Z.of_nat 32) with (2 ^ 256). by rewrite Z.mod_small. }
  split.
  - exists (be_bytes 32 d). rewrite length_be_bytes. done.
  - unfold IsValid. cbn [full_key fSet negb]. rewrite GetSecret_full. cbn [mbind option_bind].
    rewrite Hset. cbn [mbind option_bind]. rewrite GetPubKey_full. cbn [mbind option_bind]. by rewrite bool_decide_eq_true_2.
Qed.

(** Reading a public key and writing it again. *)
Lemma SetPubKey_GetPubKey k v k' : SetPubKey k v = Some k' -> length v <> 33%nat \/ Z.land (rd v 0) 0xfe = 2 ->
  GetPubKey k' = Some v.
Proof.
  unfold SetPubKey. destruct (o2i_ECPublicKey v) as [p|] eqn:Hp; [|done]. cbn [mbind option_bind].
  intros [= <-] Hv. pose proof (i2o_o2i _ _ Hp) as Hi.
  destruct (Z.eqb_spec (Z.of_nat (length v)) 33); cbn; [|by rewrite Hi].
  destruct Hv as [Hv|Hv]; [lia|]. rewrite Hv in Hi. unfold FORM_COMPRESSED. by rewrite Hi.
Qed.

(** A public key that was written for a secret is read with the flag of its
    form, and the secret then gives the whole key again. *)
Lemma SetPubKey_then_secret d c k k' b :
  fCompressedPubKey k = false ->
  SetPubKey k (i2o_ECPublicKey (ec_gen d) (form_of c)) = Some k' ->
  length b = 32%nat -> SetSecret k' b false = Some (full_key (digits_val 256 b) c).
Proof.
  intros Hk Hset Hb. rewrite SetSecret_full by done. f_equal. simpl. f_equal.
  unfold SetPubKey in Hset. rewrite o2i_i2o in Hset by auto with shiny. cbn [mbind option_bind] in Hset.
  rewrite i2o_length in Hset by auto with shiny.
  destruct c; simpl in Hset; injection Hset as <-; [done|]. simpl. by rewrite Hk.
Qed.

End laws.

#[local] Existing Instance toy_ec.
#[local] Existing Instance toy_group.

Lemma compact_signature_recovers_witness :
  exists vchSig key,
    SignCompact (full_key 5 true) 77 = Some (Some vchSig) /\ length vchSig = 65%nat /\
    SetCompactSignature Reset 77 vchSig = (true, key) /\
    GetPubKey key = GetPubKey (full_key 5 true) /\ IsCompressed key = true /\
    VerifyCompact (full_key 5 true) 77 vchSig = Some true.
Proof. apply (compact_signature_recovers (G := toy_group) 5 true 77 1 11). vm_compute. reflexivity. Defined.

End Key.
