(* ===== verification/Solver.v ===== *)
(** * Standard scripts, signing and script verification (src/src/script.cpp)

    The template matcher [Solver], what is built on it ([IsStandard],
    [IsMine], [ExtractAddress], signing), and [VerifyScript].  A key store is
    an interface ([KeyStore]); the signature check inside the interpreter is
    the uncached CheckSig of Signature.v. *)

From S2P Require Import Prelude Uint256 Bignum Crypto Script Interpreter Serialize Tx Base58 Signature.
Import Script Interp.

Module Solve.

Inductive txnouttype := TX_NONSTANDARD | TX_PUBKEY | TX_PUBKEYHASH | TX_SCRIPTHASH | TX_MULTISIG.

#[global] Instance txnouttype_eq_dec : EqDecision txnouttype.
Proof. solve_decision. Defined.

(** ** Templates *)

Definition template_pubkey : list Z := [OP_PUBKEY; OP_CHECKSIG].
Definition template_pubkeyhash : list Z := [OP_DUP; OP_HASH160; OP_PUBKEYHASH; OP_EQUALVERIFY; OP_CHECKSIG].
Definition template_multisig : list Z := [OP_SMALLINTEGER; OP_PUBKEYS; OP_SMALLINTEGER; OP_CHECKMULTISIG].

(** In the order of the map's keys. *)
Definition mTemplates : list (txnouttype * list Z) :=
  [(TX_PUBKEY, template_pubkey); (TX_PUBKEYHASH, template_pubkeyhash); (TX_MULTISIG, template_multisig)].

Definition key_sized (v : list Z) : bool := (33 <=? Z.of_nat (length v)) && (Z.of_nat (length v) <=? 120).

(** [while (vch1.size() >= 33 && vch1.size() <= 120)]: the solutions and the
    result of the last GetOp.  Every round reads at least one byte. *)
Fixpoint take_pubkeys (fuel : nat) (r1 : op_result) (vSolutions : list valtype) : list valtype * op_result :=
  if key_sized (op_vch r1) then
    let vSolutions := vSolutions ++ [op_vch r1] in
    let r1 := GetOp2 (op_pc r1) in
    if negb (op_ok r1) then (vSolutions, r1)
    else
      match fuel with
      | O => (vSolutions, r1)
      | S f => take_pubkeys f r1 vSolutions
      end
  else (vSolutions, r1).

(** The comparison of one instruction; [None] is [break]. *)
Definition match_op (opcode2 : Z) (r1 r2 : op_result) (vSolutions : list valtype) : option (list valtype) :=
  if opcode2 =? OP_PUBKEY then
    if negb (key_sized (op_vch r1)) then None else Some (vSolutions ++ [op_vch r1])
  else if opcode2 =? OP_PUBKEYHASH then
    if negb (bool_decide (length (op_vch r1) = 20%nat)) then None else Some (vSolutions ++ [op_vch r1])
  else if opcode2 =? OP_SMALLINTEGER then
    if (op_opcode r1 =? OP_0) || ((OP_1 <=? op_opcode r1) && (op_opcode r1 <=? OP_16))
    then Some (vSolutions ++ [[default 0 (DecodeOP_N (op_opcode r1))]])
    else None
  else if negb (op_opcode r1 =? opcode2) || negb (bool_decide (op_vch r1 = op_vch r2)) then None
  else Some vSolutions.

(** The inner [loop] on one template: [None] is [break], otherwise the
    solutions at the match.  Every round takes an instruction of the template. *)
Fixpoint match_template (fuel : nat) (pc1 pc2 : list Z) (vSolutions : list valtype) : option (list valtype) :=
  if bool_decide (pc1 = []) && bool_decide (pc2 = []) then Some vSolutions
  else
    match fuel with
    | O => None
    | S f =>
        let r1 := GetOp2 pc1 in
        if negb (op_ok r1) then None
        else
          let r2 := GetOp2 pc2 in
          if negb (op_ok r2) then None
          else if op_opcode r2 =? OP_PUBKEYS then
            let '(vSolutions, r1) := take_pubkeys (length pc1) r1 vSolutions in
            let r2 := GetOp2 (op_pc r2) in
            if negb (op_ok r2) then None
            else vSolutions ← match_op (op_opcode r2) r1 r2 vSolutions; match_template f (op_pc r1) (op_pc r2) vSolutions
          else vSolutions ← match_op (op_opcode r2) r1 r2 vSolutions; match_template f (op_pc r1) (op_pc r2) vSolutions
    end.

(** The result of [Solver]: the returned bool, typeRet and vSolutionsRet. *)
Record solved := mk_solved { sol_ok : bool; sol_type : txnouttype; sol_sols : list valtype }.

(** The additional checks for TX_MULTISIG. *)
Definition multisig_ok (vSolutions : list valtype) : bool :=
  let m := rd (default [] (head vSolutions)) 0 in
  let n := rd (default [] (last vSolutions)) 0 in
  negb ((m <? 1) || (n <? 1) || (n <? m) || negb (u64 (Z.of_nat (length vSolutions) - 2) =? n)).

Fixpoint scan_templates (scriptPubKey : list Z) (l : list (txnouttype * list Z)) : solved :=
  match l with
  | [] => mk_solved false TX_NONSTANDARD []
  | (ty, script2) :: l' =>
      match match_template (length script2) scriptPubKey script2 [] with
      | Some sols =>
          if bool_decide (ty = TX_MULTISIG) && negb (multisig_ok sols) then mk_solved false ty sols
          else mk_solved true ty sols
      | None => scan_templates scriptPubKey l'
      end
  end.

Definition Solver (scriptPubKey : list Z) : solved :=
  if IsPayToScriptHash scriptPubKey
  then mk_solved true TX_SCRIPTHASH [take 20 (drop 2 scriptPubKey)]
  else scan_templates scriptPubKey mTemplates.

Definition ScriptSigArgsExpected (t : txnouttype) (vSolutions : list valtype) : Z :=
  match t with
  | TX_NONSTANDARD => -1
  | TX_PUBKEY => 1
  | TX_PUBKEYHASH => 2
  | TX_MULTISIG =>
      match vSolutions with
      | (m :: _) :: _ => m + 1
      | _ => -1
      end
  | TX_SCRIPTHASH => 1
  end.

Definition IsStandard (scriptPubKey : list Z) : bool :=
  let r := Solver scriptPubKey in
  if negb (sol_ok r) then false
  else
    let m := rd (default [] (head (sol_sols r))) 0 in
    let n := rd (default [] (last (sol_sols r))) 0 in
    if bool_decide (sol_type r = TX_MULTISIG) && ((n <? 1) || (3 <? n)) then false
    else if bool_decide (sol_type r = TX_MULTISIG) && ((m <? 1) || (n <? m)) then false
    else negb (bool_decide (sol_type r = TX_NONSTANDARD)).

(** [CTransaction::IsStandard] *)
Definition tx_IsStandard (t : CTransaction) : bool :=
  forallb (fun i => negb (500 <? Z.of_nat (length (scriptSig i))) && IsPushOnly (scriptSig i)) (vin t) &&
  forallb (fun o => IsStandard (scriptPubKey o)) (vout t).

(** ** Keys *)

(** What a CKeyStore offers: whether it has the key of an address, the signing
    function of the key (CKey::Sign of a hash), its public key, and redemption
    scripts.  A locked store has keys that it can not give. *)
Class KeyStore (K : Type) := {
  HaveKey : K -> Base58.CBase58Data -> bool;
  GetKey : K -> Base58.CBase58Data -> option (Z -> option (list Z));
  GetPubKey : K -> Base58.CBase58Data -> option (list Z);
  GetCScript : K -> list Z -> option (list Z)
}.

Section keys.
Context {D : DigestLib} (fTestNet : bool) {K : Type} `{KeyStore K} (keystore : K).

Definition HaveKeys (pubkeys : list valtype) : Z :=
  fold_left (fun nResult pubkey => if HaveKey keystore (Base58.SetPubKey fTestNet pubkey) then u32 (nResult + 1) else nResult)
    pubkeys 0.

(** The middle of the solutions of a multisig script. *)
Definition middle (l : list valtype) : list valtype := take (length l - 2) (drop 1 l).

(** The recursion goes into redemption scripts; [None]: too deep. *)
Fixpoint IsMine (fuel : nat) (scriptPubKey : list Z) : option bool :=
  let r := Solver scriptPubKey in
  if negb (sol_ok r) then Some false
  else
    let s0 := default [] (head (sol_sols r)) in
    match sol_type r with
    | TX_NONSTANDARD => Some false
    | TX_PUBKEY => Some (HaveKey keystore (Base58.SetPubKey fTestNet s0))
    | TX_PUBKEYHASH => Some (HaveKey keystore (Base58.SetHash160 fTestNet s0))
    | TX_SCRIPTHASH =>
        match GetCScript keystore s0 with
        | None => Some false
        | Some subscript => match fuel with O => None | S f => IsMine f subscript end
        end
    | TX_MULTISIG =>
        let keys := middle (sol_sols r) in
        Some (HaveKeys keys =? Z.of_nat (length keys))
    end.

Definition ExtractAddress (scriptPubKey : list Z) : option Base58.CBase58Data :=
  let r := Solver scriptPubKey in
  if negb (sol_ok r) then None
  else
    let s0 := default [] (head (sol_sols r)) in
    match sol_type r with
    | TX_PUBKEY => Some (Base58.SetPubKey fTestNet s0)
    | TX_PUBKEYHASH => Some (Base58.SetHash160 fTestNet s0)
    | TX_SCRIPTHASH => Some (Base58.SetScriptHash160 fTestNet s0)
    | _ => None
    end.

(** typeRet, addressRet and nRequiredRet. *)
Definition ExtractAddresses (scriptPubKey : list Z) : option (txnouttype * list Base58.CBase58Data * Z) :=
  let r := Solver scriptPubKey in
  if negb (sol_ok r) then None
  else
    let s0 := default [] (head (sol_sols r)) in
    match sol_type r with
    | TX_MULTISIG => Some (TX_MULTISIG, map (Base58.SetPubKey fTestNet) (middle (sol_sols r)), rd s0 0)
    | TX_PUBKEYHASH => Some (TX_PUBKEYHASH, [Base58.SetHash160 fTestNet s0], 1)
    | TX_SCRIPTHASH => Some (TX_SCRIPTHASH, [Base58.SetScriptHash160 fTestNet s0], 1)
    | TX_PUBKEY => Some (TX_PUBKEY, [Base58.SetPubKey fTestNet s0], 1)
    | TX_NONSTANDARD => Some (TX_NONSTANDARD, [Base58.Clear], 1)
    end.

(** *** Signing: the returned bool and scriptSigRet *)

Definition Sign1 (address : Base58.CBase58Data) (hash nHashType : Z) (scriptSigRet : list Z) : bool * list Z :=
  match GetKey keystore address with
  | None => (false, scriptSigRet)
  | Some sign =>
      match sign hash with
      | None => (false, scriptSigRet)
      | Some vchSig => (true, push_data scriptSigRet (vchSig ++ [u8 nHashType]))
      end
  end.

Fixpoint sign_loop (pubkeys : list valtype) (hash nHashType nRequired nSigned : Z) (ret : list Z) : Z * list Z :=
  match pubkeys with
  | [] => (nSigned, ret)
  | pubkey :: l =>
      let '(ok, ret) := Sign1 (Base58.SetPubKey fTestNet pubkey) hash nHashType ret in
      if ok then
        let nSigned := nSigned + 1 in
        if nSigned =? nRequired then (nSigned, ret) else sign_loop l hash nHashType nRequired nSigned ret
      else sign_loop l hash nHashType nRequired nSigned ret
  end.

Definition SignN (multisigdata : list valtype) (hash nHashType : Z) (ret : list Z) : bool * list Z :=
  let nRequired := rd (default [] (head multisigdata)) 0 in
  let '(nSigned, ret) := sign_loop (middle multisigdata) hash nHashType nRequired 0 ret in
  (nSigned =? nRequired, ret).

Definition Solver_sign (scriptPubKey : list Z) (hash nHashType : Z) : bool * list Z * txnouttype :=
  let r := Solver scriptPubKey in
  if negb (sol_ok r) then (false, [], sol_type r)
  else
    let s0 := default [] (head (sol_sols r)) in
    match sol_type r with
    | TX_NONSTANDARD => (false, [], TX_NONSTANDARD)
    | TX_PUBKEY => (Sign1 (Base58.SetPubKey fTestNet s0) hash nHashType [], TX_PUBKEY)
    | TX_PUBKEYHASH =>
        let address := Base58.SetHash160 fTestNet s0 in
        let '(ok, ret) := Sign1 address hash nHashType [] in
        if negb ok then (false, ret, TX_PUBKEYHASH)
        else (true, push_data ret (default [] (GetPubKey keystore address)), TX_PUBKEYHASH)
    | TX_SCRIPTHASH =>
        match GetCScript keystore s0 with
        | None => (false, [], TX_SCRIPTHASH)
        | Some script => (true, script, TX_SCRIPTHASH)
        end
    | TX_MULTISIG => (SignN (sol_sols r) hash nHashType (default [] (push_opcode [] OP_0)), TX_MULTISIG)
    end.

End keys.

(** ** Verification *)

Section verify.
Context {L : BNLib} {D : DigestLib}.
Context (CheckSig : valtype -> valtype -> list Z -> bool).

(** [VerifyScript]; [None] would be [back()] of an empty vector. *)
Definition VerifyScript (scriptSig scriptPubKey : list Z) : option bool :=
  match EvalScript CheckSig [] scriptSig with
  | None => Some false
  | Some stackCopy =>
      match EvalScript CheckSig stackCopy scriptPubKey with
      | None | Some [] => Some false
      | Some (top :: _) =>
          if negb (CastToBool top) then Some false
          else if IsPayToScriptHash scriptPubKey then
            if negb (IsPushOnly scriptSig) then Some false
            else
              match stackCopy with
              | [] => None
              | pubKeySerialized :: stackCopy =>
                  match EvalScript CheckSig stackCopy pubKeySerialized with
                  | None | Some [] => Some false
                  | Some (top :: _) => Some (CastToBool top)
                  end
              end
          else Some true
      end
  end.

End verify.

Section transactions.
Context {B : Tx.Abi} {L : BNLib} {D : DigestLib} {E : ECLib}.

(** The interpreter's signature check for input [nIn]; an exception of the
    hash counts as a failed check. *)
Definition check_for (txTo : CTransaction) (nIn : nat) (nHashType : Z) (vchSig vchPubKey : valtype) (sc : list Z) : bool :=
  default false (Sig.CheckSig_uncached vchSig vchPubKey sc txTo nIn nHashType).

(** [None]: the assertion fails or the hash throws. *)
Definition VerifySignature (txFrom txTo : CTransaction) (nIn : nat) (nHashType : Z) : option bool :=
  txin ← vin txTo !! nIn;
  match vout txFrom !! Z.to_nat (out_n (prevout txin)) with
  | None => Some false
  | Some txout =>
      h ← Tx.GetHash txFrom;
      if negb (prevhash (prevout txin) =? h) then Some false
      else VerifyScript (check_for txTo nIn nHashType) (scriptSig txin) (scriptPubKey txout)
  end.

Context (fTestNet : bool) {K : Type} `{KeyStore K} (keystore : K).

(** [SignSignature]: the returned bool and txTo with the new scriptSig. *)
Definition SignSignature (txFrom txTo : CTransaction) (nIn : nat) (nHashType : Z) : option (bool * CTransaction) :=
  txin ← vin txTo !! nIn;
  txout ← vout txFrom !! Z.to_nat (out_n (prevout txin));
  h ← Tx.GetHash txFrom;
  if negb (prevhash (prevout txin) =? h) then None
  else
    hash ← Sig.SignatureHash (scriptPubKey txout) txTo nIn nHashType;
    let '(ok, ss, whichType) := Solver_sign fTestNet keystore (scriptPubKey txout) hash nHashType in
    let with_sig s := Sig.set_vin txTo (<[nIn := Sig.set_scriptSig txin s]> (vin txTo)) in
    if negb ok then Some (false, with_sig ss)
    else
      r ← (if bool_decide (whichType = TX_SCRIPTHASH) then
             hash2 ← Sig.SignatureHash ss (with_sig ss) nIn nHashType;
             let '(ok2, ss2, subType) := Solver_sign fTestNet keystore ss hash2 nHashType in
             if negb ok2 || bool_decide (subType = TX_SCRIPTHASH) then Some (false, ss2)
             else Some (true, push_data ss2 ss)
           else Some (true, ss));
      let '(ok3, ss3) := r in
      if negb ok3 then Some (false, with_sig ss3)
      else
        b ← VerifyScript (check_for (with_sig ss3) nIn 0) ss3 (scriptPubKey txout);
        Some (b, with_sig ss3).

End transactions.

(** ** Symbolic evaluation *)

Section evaluation.
Context {L : BNLib} {HL : BNLaws L} {D : DigestLib} {HD : DigestLaws D}.
Context (CheckSig : valtype -> valtype -> list Z -> bool).

Lemma disabled_low x : x <= OP_NOP -> disabled x = false.
Proof.
  unfold OP_NOP. intros Hx. unfold disabled, existsb.
  rewrite !(proj2 (Z.eqb_neq x _)) by (intros ->; revert Hx; vm_compute; congruence). done.
Qed.

Lemma step_push_eq s v rest :
  pc s = push_data [] v ++ rest -> vfExec s = [] -> Z.of_nat (length v) <= 520 ->
  step CheckSig s =
    if 1000 <=? Z.of_nat (length (stack s) + length (altstack s)) then None
    else Some (mk_state (v :: stack s) (altstack s) [] (nOpCount s) rest (pbegincodehash s)).
Proof.
  intros Ep Ev Hl. unfold step. rewrite Ep, GetOp2_push_data, Ev by lia. cbn [op_ok op_vch op_opcode op_pc negb forallb].
  pose proof (push_opcode_of_range (Z.of_nat (length v)) ltac:(lia)) as Hr.
  rewrite (proj2 (Z.ltb_ge 520 _)) by done. cbv zeta.
  rewrite (proj2 (Z.ltb_ge OP_16 _)) by (unfold OP_PUSHDATA4, OP_16 in *; lia). cbn [andb].
  rewrite disabled_low by (unfold OP_PUSHDATA4, OP_NOP in *; lia).
  rewrite (proj2 (Z.leb_le 0 _)), (proj2 (Z.leb_le _ OP_PUSHDATA4)) by lia.
  cbn [andb mbind option_bind set_stack stack altstack length].
  destruct (Z.leb_spec 1000 (Z.of_nat (length (stack s) + length (altstack s)))) as [Hs|Hs].
  - by rewrite (proj2 (Z.ltb_lt 1000 _)) by lia.
  - by rewrite (proj2 (Z.ltb_ge 1000 _)) by lia.
Qed.

Lemma step_push s v rest :
  pc s = push_data [] v ++ rest -> vfExec s = [] -> Z.of_nat (length v) <= 520 ->
  Z.of_nat (length (stack s) + length (altstack s)) < 1000 ->
  step CheckSig s = Some (mk_state (v :: stack s) (altstack s) [] (nOpCount s) rest (pbegincodehash s)).
Proof. intros Ep Ev Hl Hs. rewrite (step_push_eq s v rest) by done. by rewrite (proj2 (Z.leb_gt _ _)). Qed.

Lemma step_op s op rest :
  pc s = op :: rest -> vfExec s = [] -> OP_16 < op -> nOpCount s < 201 -> disabled op = false ->
  step CheckSig s =
    (s' ← switch CheckSig op true (mk_state (stack s) (altstack s) [] (nOpCount s + 1) rest (pbegincodehash s));
     if 1000 <? Z.of_nat (length (stack s') + length (altstack s')) then None else Some s').
Proof.
  intros Ep Ev Ho Hn Hd. unfold step. rewrite Ep, GetOp2_op, Ev by (unfold OP_PUSHDATA4, OP_16 in *; lia).
  cbn [op_ok op_vch op_opcode op_pc negb forallb length]. cbv zeta.
  change (520 <? Z.of_nat 0) with false. cbv iota. rewrite (proj2 (Z.ltb_lt OP_16 op)) by done.
  rewrite (proj2 (Z.ltb_ge 201 _)), Hd by lia. cbn [andb].
  rewrite (proj2 (Z.leb_gt op OP_PUSHDATA4)) by (unfold OP_PUSHDATA4, OP_16 in *; lia).
  rewrite andb_false_r. done.
Qed.

Lemma run_one s s' : step CheckSig s = Some s' -> run CheckSig (length (pc s)) s = run CheckSig (length (pc s')) s'.
Proof. intros Hs. by apply run_step. Qed.

(** The loop from a state to its end. *)
Definition runs (s : state) : option (option state) := run CheckSig (length (pc s)) s.

Lemma runs_step s s' : step CheckSig s = Some s' -> runs s = runs s'.
Proof. apply run_one. Qed.

Lemma runs_fail s : pc s <> [] -> step CheckSig s = None -> runs s = Some None.
Proof. intros Hp Hs. apply run_fail; [done..|]. destruct (pc s); [done|simpl; lia]. Qed.

Lemma runs_done s : pc s = [] -> runs s = Some (Some s).
Proof. apply run_done. Qed.

Lemma EvalScript_runs st script :
  EvalScript CheckSig st script =
    if 10000 <? Z.of_nat (length script) then None
    else match runs (mk_state st [] [] 0 script script) with
         | Some (Some s) => if bool_decide (vfExec s = []) then Some (stack s) else None
         | _ => None
         end.
Proof.
  unfold EvalScript, EvalScript_fuel. case_match; [done|]. unfold runs. cbn [pc].
  destruct (run _ _ _) as [[s|]|]; simpl; try done. by case_bool_decide.
Qed.

(** A script of pushes puts its data on the stack. *)
Definition pushes (l : list valtype) : list Z := concat (map (push_data []) l).

Lemma runs_pushes l : forall s rest,
  pc s = pushes l ++ rest -> vfExec s = [] -> Forall (fun v => Z.of_nat (length v) <= 520) l ->
  Z.of_nat (length l + length (stack s) + length (altstack s)) <= 1000 ->
  runs s = runs (mk_state (rev l ++ stack s) (altstack s) [] (nOpCount s) rest (pbegincodehash s)).
Proof.
  induction l as [|v l IH]; intros s rest Ep Ev Hl Hs.
  { simpl in *. f_equal. destruct s; simpl in *. by subst. }
  apply Forall_cons in Hl as [Hv Hl]. unfold pushes in Ep. simpl in Ep. rewrite <- app_assoc in Ep.
  cbn [length] in Hs. assert (Z.of_nat (length (stack s) + length (altstack s)) < 1000) as Hs' by lia.
  rewrite (runs_step _ _ (step_push s v _ Ep Ev Hv Hs')).
  rewrite (IH _ rest) by (try done; cbn [stack altstack length]; lia). simpl. by rewrite <- app_assoc.
Qed.

Lemma EvalScript_pushes l st :
  Forall (fun v => Z.of_nat (length v) <= 520) l -> Z.of_nat (length (pushes l)) <= 10000 ->
  Z.of_nat (length l + length st) <= 1000 -> EvalScript CheckSig st (pushes l) = Some (rev l ++ st).
Proof.
  intros Hl Hp Hs. rewrite EvalScript_runs, (proj2 (Z.ltb_ge _ _)) by done.
  rewrite (runs_pushes l _ []) by (simpl; rewrite ?app_nil_r; done || (unfold valtype in *; lia)). by rewrite runs_done.
Qed.

Lemma push_20 h : length h = 20%nat -> push_data [] h = 20 :: h.
Proof. intros Hh. unfold push_data. rewrite Hh. done. Qed.

Lemma p2sh_script h : length h = 20%nat ->
  SetBitcoinAddress true h = OP_HASH160 :: push_data [] h ++ [OP_EQUAL].
Proof. intros Hh. rewrite push_20 by done. unfold SetBitcoinAddress, push_uint. rewrite Hh. done. Qed.

Lemma p2pkh_script h : length h = 20%nat ->
  SetBitcoinAddress false h = OP_DUP :: OP_HASH160 :: push_data [] h ++ [OP_EQUALVERIFY; OP_CHECKSIG].
Proof. intros Hh. rewrite push_20 by done. unfold SetBitcoinAddress, push_uint. rewrite Hh. done. Qed.

Lemma length_address b h : length h = 20%nat -> length (SetBitcoinAddress b h) = if b then 23%nat else 25%nat.
Proof.
  intros Hh. destruct b; [rewrite p2sh_script by done|rewrite p2pkh_script by done]; rewrite push_20 by done;
    cbn [length app]; rewrite length_app, Hh; done.
Qed.

(** Pay to script hash: the top element is replaced by whether it hashes to
    the given value. *)
Lemma EvalScript_p2sh h st :
  length h = 20%nat ->
  EvalScript CheckSig st (SetBitcoinAddress true h) =
    match st with
    | [] => None
    | x :: st' => if 1000 <=? Z.of_nat (length st) then None
                  else Some (bool_vch (bool_decide (Hash160 x = h)) :: st')
    end.
Proof.
  intros Hh. rewrite EvalScript_runs, length_address, p2sh_script by done. change (10000 <? _) with false. cbv iota.
  set (code := OP_HASH160 :: _).
  destruct st as [|x st].
  { rewrite runs_fail; [done|done|]. by rewrite (step_op _ OP_HASH160 (push_data [] h ++ [OP_EQUAL])). }
  assert (step CheckSig (mk_state (x :: st) [] [] 0 code code) =
    if 1000 <? Z.of_nat (length (x :: st) + 0) then None
    else Some (mk_state (Hash160 x :: st) [] [] 1 (push_data [] h ++ [OP_EQUAL]) code)) as E1
    by (by rewrite (step_op _ OP_HASH160 (push_data [] h ++ [OP_EQUAL]))).
  destruct (Z.ltb_spec 1000 (Z.of_nat (length (x :: st) + 0))).
  { rewrite runs_fail by done. by rewrite (proj2 (Z.leb_le _ _)) by lia. }
  rewrite (runs_step _ _ E1).
  pose proof (step_push_eq (mk_state (Hash160 x :: st) [] [] 1 (push_data [] h ++ [OP_EQUAL]) code) h [OP_EQUAL]
    eq_refl eq_refl ltac:(lia)) as E2. cbn [stack altstack nOpCount pbegincodehash length] in E2 |- *.
  rewrite Nat.add_0_r in E2. destruct (Z.leb_spec 1000 (Z.of_nat (S (length st)))).
  { rewrite runs_fail; [done| |done]. cbn [pc]. by rewrite push_20. }
  rewrite (runs_step _ _ E2).
  assert (step CheckSig (mk_state (h :: Hash160 x :: st) [] [] 1 [OP_EQUAL] code) =
    if 1000 <? Z.of_nat (S (length st) + 0) then None
    else Some (mk_state (bool_vch (bool_decide (Hash160 x = h)) :: st) [] [] 2 [] code)) as E3
    by (by rewrite (step_op _ OP_EQUAL [])).
  rewrite (proj2 (Z.ltb_ge _ _)) in E3 by lia. by rewrite (runs_step _ _ E3), runs_done.
Qed.


Lemma length_push_data v : Z.of_nat (length (push_data [] v)) <= Z.of_nat (length v) + 5.
Proof.
  unfold push_data. repeat case_match; cbn [length app]; rewrite ?length_app, ?length_le_bytes; simpl; lia.
Qed.

(** Pay to public key hash on a stack with the key above the signature. *)
Lemma EvalScript_p2pkh h pubkey sig :
  length h = 20%nat ->
  let script := SetBitcoinAddress false h in
  EvalScript CheckSig [pubkey; sig] script =
    if bool_decide (Hash160 pubkey = h)
    then Some [bool_vch (CheckSig sig pubkey (FindAndDelete script (push_data [] sig)).1)]
    else None.
Proof.
  intros Hh. cbv zeta. rewrite EvalScript_runs, length_address by done. change (10000 <? _) with false. cbv iota.
  set (code := SetBitcoinAddress false h). pose proof (p2pkh_script h Hh) as Ec. fold code in Ec.
  set (rest := push_data [] h ++ [OP_EQUALVERIFY; OP_CHECKSIG]) in *.
  rewrite (runs_step _ (mk_state [pubkey; pubkey; sig] [] [] 1 (OP_HASH160 :: rest) code))
    by (by rewrite (step_op _ OP_DUP (OP_HASH160 :: rest))).
  rewrite (runs_step _ (mk_state [Hash160 pubkey; pubkey; sig] [] [] 2 rest code))
    by (by rewrite (step_op _ OP_HASH160 rest)).
  rewrite (runs_step _ _ (step_push (mk_state [Hash160 pubkey; pubkey; sig] [] [] 2 rest code) h
    [OP_EQUALVERIFY; OP_CHECKSIG] eq_refl eq_refl ltac:(lia) ltac:(simpl; lia))).
  cbn [stack altstack nOpCount pbegincodehash].
  assert (step CheckSig (mk_state [h; Hash160 pubkey; pubkey; sig] [] [] 2 [OP_EQUALVERIFY; OP_CHECKSIG] code) =
    if bool_decide (Hash160 pubkey = h) then Some (mk_state [pubkey; sig] [] [] 3 [OP_CHECKSIG] code) else None) as E.
  { rewrite (step_op _ OP_EQUALVERIFY [OP_CHECKSIG]) by done.
    change (switch CheckSig OP_EQUALVERIFY true ?s) with (lift_stack (op_equal OP_EQUALVERIFY) s).
    unfold lift_stack, op_equal. cbn [stack Z.eqb]. change (OP_EQUALVERIFY =? OP_EQUALVERIFY) with true. cbv iota zeta.
    destruct (decide (Hash160 pubkey = h)); [rewrite !bool_decide_true by done|rewrite !bool_decide_false by done]; done. }
  case_bool_decide as Eh; [|by rewrite runs_fail].
  rewrite (runs_step _ _ E).
  rewrite (runs_step _ (mk_state [bool_vch (CheckSig sig pubkey (FindAndDelete code (push_data [] sig)).1)] [] [] 4 [] code))
    by (by rewrite (step_op _ OP_CHECKSIG [])).
  by rewrite runs_done.
Qed.

Lemma CastToBool_bool_vch b : CastToBool (bool_vch b) = b.
Proof. by destruct b. Qed.

Lemma address_not_p2sh h : length h = 20%nat -> IsPayToScriptHash (SetBitcoinAddress false h) = false.
Proof. intros Hh. unfold IsPayToScriptHash. by rewrite length_address. Qed.

Lemma address_p2sh h : length h = 20%nat -> IsPayToScriptHash (SetBitcoinAddress true h) = true.
Proof.
  intros Hh. unfold IsPayToScriptHash. rewrite length_address, p2sh_script, push_20 by done.
  change (rd (OP_HASH160 :: (20 :: h) ++ [OP_EQUAL]) 22) with (rd (h ++ [OP_EQUAL]) 20).
  rewrite <- Hh, rd_app_mid, bool_decide_true by done. done.
Qed.

(** C8: A pay-to-public-key-hash output is spent exactly by a key with that
    hash and a signature that checks: VerifyScript on the input script
    <signature> <key> succeeds if and only if the key hashes to the value in
    the output and CheckSig accepts the signature for the output script (with
    the signature removed from it). *)
Theorem VerifyScript_pubkeyhash h pubkey sig :
  length h = 20%nat -> Z.of_nat (length pubkey) <= 520 -> Z.of_nat (length sig) <= 520 ->
  let script := SetBitcoinAddress false h in
  VerifyScript CheckSig (push_data (push_data [] sig) pubkey) script =
    Some (bool_decide (Hash160 pubkey = h) && CheckSig sig pubkey (FindAndDelete script (push_data [] sig)).1).
Proof.
  intros Hh Hk Hs. cbv zeta. unfold VerifyScript.
  replace (push_data (push_data [] sig) pubkey) with (pushes [sig; pubkey])
    by (unfold pushes; simpl; rewrite app_nil_r; symmetry; apply push_data_app).
  rewrite EvalScript_pushes; [|by repeat constructor| |simpl; lia].
  2:{ unfold pushes. simpl. rewrite !length_app. pose proof (length_push_data sig). pose proof (length_push_data pubkey).
      simpl. lia. }
  simpl rev. cbn [app]. rewrite EvalScript_p2pkh by done.
  case_bool_decide; [|done]. rewrite CastToBool_bool_vch, address_not_p2sh by done.
  by destruct (CheckSig _ _ _).
Qed.

(** C9: A pay-to-script-hash output is spent exactly by an input script of
    pushes that leaves a script with that hash on top of a stack on which this
    script then succeeds; the last element of the copied stack is only taken
    when there is one (the result is never undefined). *)
Theorem VerifyScript_scripthash h ss :
  length h = 20%nat ->
  exists b, VerifyScript CheckSig ss (SetBitcoinAddress true h) = Some b /\
    (b = true <->
     IsPushOnly ss = true /\
     exists redeem st top rest, EvalScript CheckSig [] ss = Some (redeem :: st) /\
       Z.of_nat (length st) < 999 /\ Hash160 redeem = h /\
       EvalScript CheckSig st redeem = Some (top :: rest) /\ CastToBool top = true).
Proof.
  intros Hh. unfold VerifyScript.
  destruct (EvalScript CheckSig [] ss) as [st|];
    [|exists false; split; [done|split; [done|by intros (_ & ? & ? & ? & ? & ? & _)]]].
  rewrite EvalScript_p2sh, address_p2sh by done. destruct st as [|x st];
    [exists false; split; [done|split; [done|by intros (_ & ? & ? & ? & ? & ? & _)]]|].
  destruct (Z.leb_spec 1000 (Z.of_nat (length (x :: st)))) as [Hl|Hl].
  { exists false. split; [done|]. split; [done|]. intros (_ & r & st' & ? & ? & [= <- <-] & Hl' & _). simpl in Hl. lia. }
  rewrite CastToBool_bool_vch. case_bool_decide as Hx; cbn [negb].
  2:{ exists false. split; [done|]. split; [done|]. by intros (_ & ? & ? & ? & ? & [= <- <-] & _ & ? & _). }
  destruct (IsPushOnly ss); cbn [negb]; [|exists false; split; [done|split; [done|by intros [? _]]]].
  destruct (EvalScript CheckSig st x) as [[|top rest]|] eqn:E.
  - exists false. split; [done|]. split; [done|]. intros (_ & r & st' & ? & ? & [= <- <-] & _ & _ & E' & _). congruence.
  - exists (CastToBool top). split; [done|]. split.
    + intros Ht. split; [done|]. exists x, st, top, rest. simpl in Hl. split_and!; done || lia.
    + intros (_ & r & st' & ? & ? & [= <- <-] & _ & _ & E' & Ht). by simplify_eq.
  - exists false. split; [done|]. split; [done|]. intros (_ & r & st' & ? & ? & [= <- <-] & _ & _ & E' & _). congruence.
Qed.

End evaluation.

(** ** Recognising the standard scripts *)

Lemma key_sized_length k : key_sized k = true -> 33 <= Z.of_nat (length k) <= 120.
Proof. unfold key_sized. rewrite andb_true_iff, !Z.leb_le. done. Qed.

Lemma take_pubkeys_spec keys rest : forall fuel sols,
  Forall (fun k => key_sized k = true) keys -> op_ok (GetOp2 rest) = true ->
  key_sized (op_vch (GetOp2 rest)) = false -> (length keys <= fuel)%nat ->
  take_pubkeys fuel (GetOp2 (pushes keys ++ rest)) sols = (sols ++ keys, GetOp2 rest).
Proof.
  induction keys as [|k keys IH]; intros fuel sols Hk Hok Hr Hf.
  { simpl. rewrite app_nil_r. destruct fuel; simpl; by rewrite Hr. }
  apply Forall_cons in Hk as [Hk Hks]. pose proof (key_sized_length k Hk) as Hl.
  destruct fuel as [|fuel]; [simpl in Hf; lia|]. unfold pushes. cbn [map concat]. rewrite <- app_assoc.
  rewrite GetOp2_push_data by lia. cbn [take_pubkeys op_vch op_pc]. rewrite Hk. cbv zeta.
  fold (pushes keys). assert (op_ok (GetOp2 (pushes keys ++ rest)) = true) as ->.
  { destruct keys as [|k' keys]; [done|]. unfold pushes. cbn [map concat]. rewrite <- app_assoc.
    apply Forall_cons in Hks as [Hk' _]. apply key_sized_length in Hk'. by rewrite GetOp2_push_data by lia. }
  cbn [negb]. rewrite IH by (done || (simpl in Hf; lia)). by rewrite <- app_assoc.
Qed.

Lemma fold_push_data keys : forall s, fold_left push_data keys s = s ++ pushes keys.
Proof.
  induction keys as [|k keys IH]; intros s; simpl; [by rewrite app_nil_r|].
  rewrite IH, push_data_app, <- app_assoc. done.
Qed.

Lemma length_pushes keys : (length keys <= length (pushes keys))%nat /\
  (Forall (fun k => key_sized k = true) keys -> (33 * length keys <= length (pushes keys))%nat).
Proof.
  induction keys as [|k keys [IH1 IH2]]; [simpl; lia|]. unfold pushes in *. cbn [map concat length].
  assert (length k < length (push_data [] k))%nat
    by (unfold push_data; repeat case_match; cbn [length app]; rewrite ?length_app; simpl; lia).
  rewrite length_app. split; [lia|]. intros [Hk Hks]%Forall_cons. apply key_sized_length in Hk.
  specialize (IH2 Hks). lia.
Qed.

Lemma not_p2sh s : length s <> 23%nat -> IsPayToScriptHash s = false.
Proof. intros Hl. unfold IsPayToScriptHash. by rewrite bool_decide_false. Qed.

Lemma match_step fuel pc1 pc2 p1 o1 v1 p2 o2 v2 sols sols' :
  GetOp2 pc1 = mk_op true p1 o1 v1 -> GetOp2 pc2 = mk_op true p2 o2 v2 -> (o2 =? OP_PUBKEYS) = false ->
  match_op o2 (mk_op true p1 o1 v1) (mk_op true p2 o2 v2) sols = Some sols' ->
  match_template (S fuel) pc1 pc2 sols = match_template fuel p1 p2 sols'.
Proof.
  intros E1 E2 Ho Em. cbn [match_template]. rewrite E1, E2. cbn [op_ok op_opcode op_pc negb]. rewrite Ho, Em.
  destruct pc1; [done|]. done.
Qed.

Lemma match_fail fuel pc1 pc2 p1 o1 v1 p2 o2 v2 sols :
  GetOp2 pc1 = mk_op true p1 o1 v1 -> GetOp2 pc2 = mk_op true p2 o2 v2 -> (o2 =? OP_PUBKEYS) = false ->
  match_op o2 (mk_op true p1 o1 v1) (mk_op true p2 o2 v2) sols = None ->
  match_template (S fuel) pc1 pc2 sols = None.
Proof.
  intros E1 E2 Ho Em. cbn [match_template]. rewrite E1, E2. cbn [op_ok op_opcode op_pc negb]. rewrite Ho, Em.
  destruct pc1; [done|]. done.
Qed.

Lemma match_end fuel sols : match_template fuel [] [] sols = Some sols.
Proof. by destruct fuel. Qed.

#[local] Ltac match_one := erewrite match_step; [|reflexivity|reflexivity|reflexivity|reflexivity].

Lemma Solver_pubkeyhash h : length h = 20%nat ->
  Solver (SetBitcoinAddress false h) = mk_solved true TX_PUBKEYHASH [h].
Proof.
  intros Hh. unfold Solver. rewrite address_not_p2sh by done. rewrite p2pkh_script by done.
  set (script := OP_DUP :: _). unfold mTemplates, scan_templates.
  assert (match_template (length template_pubkey) script template_pubkey [] = None) as -> by done.
  assert (match_template (length template_pubkeyhash) script template_pubkeyhash [] = Some [h]) as E; [|by rewrite E].
  change (length template_pubkeyhash) with 5%nat. unfold script, template_pubkeyhash. do 2 match_one.
  erewrite match_step; [|apply GetOp2_push_data; lia|reflexivity|reflexivity|].
  2:{ unfold match_op. cbn [op_vch]. rewrite bool_decide_true by done. reflexivity. }
  do 2 match_one. apply match_end.
Qed.

Lemma Solver_scripthash h : length h = 20%nat ->
  Solver (SetBitcoinAddress true h) = mk_solved true TX_SCRIPTHASH [h].
Proof.
  intros Hh. unfold Solver. rewrite address_p2sh, p2sh_script, push_20 by done.
  change (drop 2 (OP_HASH160 :: (20 :: h) ++ [OP_EQUAL])) with (h ++ [OP_EQUAL]). by rewrite take_app_length'.
Qed.

Lemma Solver_pubkey k : key_sized k = true ->
  Solver (push_data [] k ++ [OP_CHECKSIG]) = mk_solved true TX_PUBKEY [k].
Proof.
  intros Hk. pose proof (key_sized_length k Hk) as Hl. unfold Solver. rewrite not_p2sh.
  2:{ destruct (length_pushes [k]) as [_ H]. unfold pushes in H. simpl in H. rewrite app_nil_r in H.
      rewrite length_app. specialize (H ltac:(by repeat constructor)). simpl. lia. }
  unfold mTemplates, scan_templates.
  assert (match_template (length template_pubkey) (push_data [] k ++ [OP_CHECKSIG]) template_pubkey [] = Some [k]) as E;
    [|by rewrite E].
  change (length template_pubkey) with 2%nat. unfold template_pubkey.
  erewrite match_step; [|apply GetOp2_push_data; lia|reflexivity|reflexivity|].
  2:{ unfold match_op. cbn [op_vch]. rewrite Hk. reflexivity. }
  match_one. apply match_end.
Qed.

Lemma match_pubkeys_step fuel pc1 pc2 p1 o1 v1 p2 p3 o3 v3 sols sols1 sols2 :
  op_ok (GetOp2 pc1) = true -> GetOp2 pc2 = mk_op true p2 OP_PUBKEYS [] ->
  take_pubkeys (length pc1) (GetOp2 pc1) sols = (sols1, mk_op true p1 o1 v1) ->
  GetOp2 p2 = mk_op true p3 o3 v3 ->
  match_op o3 (mk_op true p1 o1 v1) (mk_op true p3 o3 v3) sols1 = Some sols2 ->
  match_template (S fuel) pc1 pc2 sols = match_template fuel p1 p3 sols2.
Proof.
  intros E1 E2 Et E3 Em. cbn [match_template]. rewrite E1, E2. cbn [op_ok op_opcode op_pc negb].
  rewrite Z.eqb_refl, Et, E3. cbn [op_ok op_opcode op_pc negb]. rewrite Em.
  destruct pc1; [done|]. done.
Qed.

Lemma match_op_small m p r2 sols : 1 <= m <= 16 ->
  match_op OP_SMALLINTEGER (mk_op true p (OP_1 + m - 1) []) r2 sols = Some (sols ++ [[m]]).
Proof.
  intros Hm. unfold match_op. cbn [op_opcode]. unfold DecodeOP_N.
  change (OP_SMALLINTEGER =? OP_PUBKEY) with false. change (OP_SMALLINTEGER =? OP_PUBKEYHASH) with false.
  change (OP_SMALLINTEGER =? OP_SMALLINTEGER) with true. cbv iota. unfold OP_0, OP_1, OP_16.
  rewrite (proj2 (Z.eqb_neq _ 0)), (proj2 (Z.leb_le 81 _)), (proj2 (Z.leb_le _ 96)) by lia. cbn [andb orb].
  replace (default 0 _) with m by (simpl; lia). done.
Qed.

Lemma GetOp2_small m rest : 1 <= m <= 16 -> GetOp2 (OP_1 + m - 1 :: rest) = mk_op true rest (OP_1 + m - 1) [].
Proof. intros Hm. apply GetOp2_op. unfold OP_1, OP_PUSHDATA4. lia. Qed.

(** The multisig template on the script of [SetMultisig]. *)
Lemma match_multisig m n keys :
  Forall (fun k => key_sized k = true) keys -> keys <> [] -> 1 <= m <= 16 -> 1 <= n <= 16 ->
  match_template 4 ((OP_1 + m - 1) :: pushes keys ++ [OP_1 + n - 1; OP_CHECKMULTISIG]) template_multisig [] =
  Some ([m] :: keys ++ [[n]]).
Proof.
  intros Hk Hne Hm Hn. set (tl := [OP_1 + n - 1; OP_CHECKMULTISIG]). unfold template_multisig.
  erewrite match_step; [|apply GetOp2_small; done|reflexivity|reflexivity|by apply match_op_small].
  assert (op_ok (GetOp2 (pushes keys ++ tl)) = true) as Hok.
  { destruct keys as [|k keys]; [done|]. unfold pushes. cbn [map concat]. rewrite <- app_assoc.
    apply Forall_cons in Hk as [Hk _]. apply key_sized_length in Hk. by rewrite GetOp2_push_data by lia. }
  pose proof (GetOp2_small n [OP_CHECKMULTISIG] Hn) as Et. fold tl in Et.
  erewrite match_pubkeys_step; [|done|reflexivity| |reflexivity|].
  2:{ rewrite take_pubkeys_spec; [by rewrite Et|done|by rewrite Et|by rewrite Et|].
      destruct (length_pushes keys) as [? _]. rewrite length_app. unfold valtype in *. lia. }
  2:{ by apply match_op_small. }
  match_one. rewrite match_end. simpl. done.
Qed.

Lemma Solver_multisig m keys script :
  Forall (fun k => key_sized k = true) keys -> 1 <= m <= Z.of_nat (length keys) -> Z.of_nat (length keys) <= 16 ->
  SetMultisig m keys = Some script ->
  Solver script = mk_solved true TX_MULTISIG ([m] :: keys ++ [[Z.of_nat (length keys)]]).
Proof.
  intros Hk Hm Hn. unfold SetMultisig, EncodeOP_N.
  rewrite (proj2 (Z.leb_le 0 m)), (proj2 (Z.leb_le m 16)), (proj2 (Z.leb_le _ 16)), (proj2 (Z.leb_le 0 _)) by lia. cbn [andb].
  rewrite !(proj2 (Z.eqb_neq _ 0)) by lia. rewrite fold_push_data. intros [= <-].
  set (n := Z.of_nat (length keys)) in *. assert (keys <> []) as Hne by (intros ->; simpl in *; lia).
  destruct (length_pushes keys) as [_ Hlen]. specialize (Hlen Hk).
  assert (Z.of_nat (length keys) = n) as Hn' by done. unfold Solver. rewrite not_p2sh.
  2:{ cbn [app length]. rewrite length_app. unfold valtype in *. lia. }
  cbn [app]. set (script := OP_1 + m - 1 :: _). unfold mTemplates, scan_templates.
  assert (GetOp2 script = mk_op true (pushes keys ++ [OP_1 + n - 1; OP_CHECKMULTISIG]) (OP_1 + m - 1) []) as Es
    by (apply GetOp2_small; lia).
  assert (match_template (length template_pubkey) script template_pubkey [] = None) as ->
    by (by eapply match_fail).
  assert (match_template (length template_pubkeyhash) script template_pubkeyhash [] = None) as ->.
  { eapply match_fail; [done..|]. unfold match_op. cbn [op_opcode].
    change (OP_DUP =? OP_PUBKEY) with false. change (OP_DUP =? OP_PUBKEYHASH) with false.
    change (OP_DUP =? OP_SMALLINTEGER) with false. cbv iota.
    rewrite (proj2 (Z.eqb_neq _ OP_DUP)) by (unfold OP_DUP, OP_1; lia). done. }
  assert (match_template (length template_multisig) script template_multisig [] = Some ([m] :: keys ++ [[n]])) as ->
    by (apply match_multisig; done || lia).
  replace (multisig_ok _) with true; [done|]. symmetry. unfold multisig_ok. cbn [head].
  rewrite app_comm_cons, last_snoc. cbn [default from_option rd lookup list_lookup].
  change (rd (id [m]) 0) with m. change (rd (id [n]) 0) with n. cbn [app length]. rewrite length_app. cbn [length].
  rewrite u64_small by (unfold valtype in *; lia).
  rewrite (proj2 (Z.ltb_ge m 1)), (proj2 (Z.ltb_ge n 1)), (proj2 (Z.ltb_ge n m)), (proj2 (Z.eqb_eq _ n))
    by (unfold valtype in *; lia). done.
Qed.

(** The scripts the wallet builds are recognised for what they are:
    Solver classifies the output script of an address, of a public key of 33
    to 120 bytes and of an m-of-n multisig (n <= 16) and returns the hash, the
    key, or m, the keys and n; the destination is read back from the script;
    all are standard, a multisig up to three keys only. *)
Theorem Solver_recognises {D : DigestLib} fTestNet h k m keys script :
  length h = 20%nat -> key_sized k = true -> Forall (fun k => key_sized k = true) keys ->
  1 <= m <= Z.of_nat (length keys) -> Z.of_nat (length keys) <= 16 -> SetMultisig m keys = Some script ->
  Solver (SetBitcoinAddress false h) = mk_solved true TX_PUBKEYHASH [h] /\
  Solver (SetBitcoinAddress true h) = mk_solved true TX_SCRIPTHASH [h] /\
  Solver (push_data [] k ++ [OP_CHECKSIG]) = mk_solved true TX_PUBKEY [k] /\
  Solver script = mk_solved true TX_MULTISIG ([m] :: keys ++ [[Z.of_nat (length keys)]]) /\
  ExtractAddress fTestNet (SetBitcoinAddress false h) = Some (Base58.SetHash160 fTestNet h) /\
  ExtractAddress fTestNet (SetBitcoinAddress true h) = Some (Base58.SetScriptHash160 fTestNet h) /\
  IsStandard (SetBitcoinAddress false h) = true /\ IsStandard (SetBitcoinAddress true h) = true /\
  IsStandard script = (Z.of_nat (length keys) <=? 3).
Proof.
  intros Hh Hk Hks Hm Hn Hs. pose proof (Solver_pubkeyhash h Hh) as E1. pose proof (Solver_scripthash h Hh) as E2.
  pose proof (Solver_pubkey k Hk) as E3. pose proof (Solver_multisig m keys script Hks Hm Hn Hs) as E4.
  unfold ExtractAddress, IsStandard. rewrite E1, E2, E3, E4. repeat (split; [done|]).
  cbn [sol_ok sol_type sol_sols negb head]. rewrite bool_decide_true by done. rewrite app_comm_cons, last_snoc.
  change (rd (default [] (Some [?x])) 0) with x. cbn [andb].
  rewrite (proj2 (Z.ltb_ge _ 1)), (proj2 (Z.ltb_ge m 1)), (proj2 (Z.ltb_ge _ m)) by lia. cbn [orb].
  by destruct (Z.ltb_spec 3 (Z.of_nat (length keys))), (Z.leb_spec (Z.of_nat (length keys)) 3); lia || done.
Qed.

(** ** Witnesses *)

#[local] Existing Instance bn_reference.
#[local] Existing Instance toy_digests.

Lemma VerifyScript_pubkeyhash_witness :
  VerifyScript demo_sig (push_data (push_data [] [7; 1]) [7]) (SetBitcoinAddress false (Hash160 [7])) = Some true.
Proof.
  etransitivity; [apply (VerifyScript_pubkeyhash demo_sig (Hash160 [7]) [7] [7; 1])|].
  - reflexivity.
  - simpl. lia.
  - simpl. lia.
  - reflexivity.
Defined.

Lemma VerifyScript_scripthash_witness :
  exists b, VerifyScript demo_sig (push_data [] [OP_1]) (SetBitcoinAddress true (Hash160 [OP_1])) = Some b.
Proof.
  destruct (VerifyScript_scripthash demo_sig (Hash160 [OP_1]) (push_data [] [OP_1])) as (b & H & _).
  - reflexivity.
  - exists b. exact H.
Defined.

Lemma Solver_recognises_witness :
  exists script, SetMultisig 1 [replicate 33 2; replicate 33 3] = Some script /\
    Solver script = mk_solved true TX_MULTISIG [[1]; replicate 33 2; replicate 33 3; [2]].
Proof.
  eexists. split; [reflexivity|].
  apply (Solver_recognises false (replicate 20 1) (replicate 33 2) 1 [replicate 33 2; replicate 33 3]).
  - reflexivity.
  - reflexivity.
  - repeat constructor.
  - simpl. lia.
  - simpl. lia.
  - reflexivity.
Defined.

End Solve.
