(* ===== verification/KeyStore.v ===== *)
(** * Key stores (src/src/keystore.cpp, src/src/keystore.h, src/src/crypter.cpp)

    CBasicKeyStore keeps secrets by address, CCryptoKeyStore keeps them encrypted
    under a master key.  AES and the derivation of keys from a passphrase are
    OpenSSL's and come through [EVPLib].  The abstract store is a map from
    addresses to secrets; the theorem at the end says that both stores implement
    it, through encryption, locking and unlocking. *)

From stdpp Require Import gmap.
From S2P Require Import Prelude Containers Uint256 Bignum Crypto Script Serialize Tx Base58 Signature Key Solver.
Import Script Tx Key.

(** EVP_BytesToKey with SHA-512 for AES-256-CBC (the key and the IV), and the
    encryption and decryption of a whole message. *)
Class EVPLib := {
  EVP_BytesToKey : list Z -> list Z -> Z -> list Z * list Z;
  AES_encrypt : list Z -> list Z -> list Z -> option (list Z);
  AES_decrypt : list Z -> list Z -> list Z -> option (list Z)
}.

Class EVPLaws (V : EVPLib) : Prop := {
  EVP_BytesToKey_length : forall salt data rounds, length (EVP_BytesToKey salt data rounds).1 = 32%nat;
  EVP_BytesToKey_iv : forall salt data rounds, length (EVP_BytesToKey salt data rounds).2 = 16%nat;
  AES_encrypt_some : forall k iv p, length k = 32%nat -> is_Some (AES_encrypt k iv p);
  AES_decrypt_encrypt : forall k iv p c, AES_encrypt k iv p = Some c -> AES_decrypt k iv c = Some p
}.

#[export] Instance CBase58Data_eq_dec : EqDecision Base58.CBase58Data.
Proof. solve_decision. Defined.

#[export] Instance CBase58Data_countable : Countable Base58.CBase58Data :=
  inj_countable' (fun a => (Base58.nVersion a, Base58.vchData a)) (fun p => Base58.mk_data p.1 p.2)
    (fun a => match a with Base58.mk_data _ _ => eq_refl end).

Module KeyStores.

(** ** CCrypter *)

Definition WALLET_CRYPTO_KEY_SIZE : Z := 32.
Definition WALLET_CRYPTO_SALT_SIZE : Z := 8.

Record CCrypter := mk_crypter { chKey : list Z; chIV : list Z; fKeySet : bool }.

(** The constructor leaves the arrays as the memory is; they are not read
    before a key is set. *)
Definition crypter : CCrypter := mk_crypter (replicate 32 0) (replicate 32 0) false.

(** The destructor wipes the key. *)
Definition CleanKey (c : CCrypter) : CCrypter := mk_crypter (replicate 32 0) (replicate 32 0) false.

Section crypter.
Context {V : EVPLib}.

Definition SetKeyFromPassphrase (c : CCrypter) (strKeyData chSalt : list Z) (nRounds nDerivationMethod : Z) : bool * CCrypter :=
  if (nRounds <? 1) || negb (Z.of_nat (length chSalt) =? WALLET_CRYPTO_SALT_SIZE) then (false, c)
  else
    let '(i, key, iv) :=
      if nDerivationMethod =? 0 then
        let '(key, iv) := EVP_BytesToKey chSalt strKeyData nRounds in (Z.of_nat (length key), key, iv ++ drop (length iv) (chIV c))
      else (0, chKey c, chIV c) in
    if negb (i =? WALLET_CRYPTO_KEY_SIZE) then (false, mk_crypter (replicate 32 0) (replicate 32 0) (fKeySet c))
    else (true, mk_crypter key iv true).

Definition SetKey (c : CCrypter) (chNewKey chNewIV : list Z) : bool * CCrypter :=
  if negb (Z.of_nat (length chNewKey) =? WALLET_CRYPTO_KEY_SIZE) || negb (Z.of_nat (length chNewIV) =? WALLET_CRYPTO_KEY_SIZE)
  then (false, c)
  else (true, mk_crypter chNewKey chNewIV true).

(** AES takes the first 16 bytes of chIV.  [None] is [return false]. *)
Definition Encrypt (c : CCrypter) (vchPlaintext : list Z) : option (list Z) :=
  if negb (fKeySet c) then None else AES_encrypt (chKey c) (take 16 (chIV c)) vchPlaintext.

Definition Decrypt (c : CCrypter) (vchCiphertext : list Z) : option (list Z) :=
  if negb (fKeySet c) then None else AES_decrypt (chKey c) (take 16 (chIV c)) vchCiphertext.

Definition EncryptSecret (vMasterKey vchPlaintext : list Z) (nIV : Z) : option (list Z) :=
  let '(ok, c) := SetKey crypter vMasterKey (le_bytes 32 nIV) in
  if negb ok then None else Encrypt c vchPlaintext.

Definition DecryptSecret (vMasterKey vchCiphertext : list Z) (nIV : Z) : option (list Z) :=
  let '(ok, c) := SetKey crypter vMasterKey (le_bytes 32 nIV) in
  if negb ok then None else Decrypt c vchCiphertext.

End crypter.

(** ** The stores *)

Record keystore := mk_ks {
  mapKeys : gmap Base58.CBase58Data (list Z * bool);
  mapScripts : gmap (list Z) (list Z);
  mapCryptedKeys : gmap Base58.CBase58Data (list Z * list Z);
  vMasterKey : list Z;
  fUseCrypto : bool
}.

Definition empty_store : keystore := mk_ks ∅ ∅ ∅ [] false.

Section stores.
Context {D : DigestLib} {E : ECLib} {G : ECGroup E} {V : EVPLib} (fTestNet : bool).

Definition address (vchPubKey : list Z) : Base58.CBase58Data := Base58.SetPubKey fTestNet vchPubKey.
Definition iv_of (vchPubKey : list Z) : Z := le_val (Hash vchPubKey).

(** *** CBasicKeyStore *)

Definition set_mapKeys (s : keystore) m : keystore := mk_ks m (mapScripts s) (mapCryptedKeys s) (vMasterKey s) (fUseCrypto s).
Definition set_crypted (s : keystore) m : keystore := mk_ks (mapKeys s) (mapScripts s) m (vMasterKey s) (fUseCrypto s).
Definition set_fUseCrypto (s : keystore) : keystore := mk_ks (mapKeys s) (mapScripts s) (mapCryptedKeys s) (vMasterKey s) true.
Definition set_vMasterKey (s : keystore) k : keystore := mk_ks (mapKeys s) (mapScripts s) (mapCryptedKeys s) k (fUseCrypto s).

Definition basic_AddKey (s : keystore) (key : CKey) : option (bool * keystore) :=
  '(secret, fCompressed) ← GetSecret key;
  pub ← GetPubKey key;
  Some (true, set_mapKeys s (<[address pub := (secret, fCompressed)]> (mapKeys s))).

Definition basic_HaveKey (s : keystore) (a : Base58.CBase58Data) : bool :=
  match mapKeys s !! a with Some _ => true | None => false end.

Definition basic_GetKeys (s : keystore) : gset Base58.CBase58Data := dom (mapKeys s).

(** The returned bool and keyOut. *)
Definition basic_GetKey (s : keystore) (a : Base58.CBase58Data) (keyOut : CKey) : option (bool * CKey) :=
  match mapKeys s !! a with
  | Some (secret, fCompressed) => k ← SetSecret Reset secret fCompressed; Some (true, k)
  | None => Some (false, keyOut)
  end.

Definition AddCScript (s : keystore) (redeemScript : list Z) : keystore :=
  mk_ks (mapKeys s) (<[Hash160 redeemScript := redeemScript]> (mapScripts s)) (mapCryptedKeys s) (vMasterKey s) (fUseCrypto s).

Definition HaveCScript (s : keystore) (hash : list Z) : bool :=
  match mapScripts s !! hash with Some _ => true | None => false end.

Definition GetCScript (s : keystore) (hash : list Z) : option (list Z) := mapScripts s !! hash.

(** *** CCryptoKeyStore *)

Definition IsCrypted (s : keystore) : bool := fUseCrypto s.

Definition IsLocked (s : keystore) : bool :=
  if negb (IsCrypted s) then false else bool_decide (vMasterKey s = []).

Definition SetCrypted (s : keystore) : bool * keystore :=
  if fUseCrypto s then (true, s)
  else if negb (bool_decide (mapKeys s = ∅)) then (false, s)
  else (true, set_fUseCrypto s).

Definition Lock (s : keystore) : bool * keystore :=
  let '(ok, s) := SetCrypted s in
  if negb ok then (false, s) else (true, set_vMasterKey s []).

(** The loop of [Unlock] looks at the first key only: it breaks or returns.
    [None]: the exception of SetSecret or GetPubKey. *)
Definition check_master (k : list Z) (l : list (Base58.CBase58Data * (list Z * list Z))) : option bool :=
  match l with
  | [] => Some true
  | (_, (vchPubKey, vchCryptedSecret)) :: _ =>
      match DecryptSecret k vchCryptedSecret (iv_of vchPubKey) with
      | None => Some false
      | Some vchSecret =>
          if negb (Z.of_nat (length vchSecret) =? 32) then Some false
          else
            let key := default Reset (SetPubKey Reset vchPubKey) in
            key ← SetSecret key vchSecret false;
            pub ← GetPubKey key;
            Some (bool_decide (pub = vchPubKey))
      end
  end.

Definition Unlock (s : keystore) (vMasterKeyIn : list Z) : option (bool * keystore) :=
  let '(ok, s) := SetCrypted s in
  if negb ok then Some (false, s)
  else
    ok ← check_master vMasterKeyIn (in_order Base58.op_le (mapCryptedKeys s));
    Some (if ok : bool then (true, set_vMasterKey s vMasterKeyIn) else (false, s)).

Definition AddCryptedKey (s : keystore) (vchPubKey vchCryptedSecret : list Z) : bool * keystore :=
  let '(ok, s) := SetCrypted s in
  if negb ok then (false, s)
  else (true, set_crypted s (<[address vchPubKey := (vchPubKey, vchCryptedSecret)]> (mapCryptedKeys s))).

Definition AddKey (s : keystore) (key : CKey) : option (bool * keystore) :=
  if negb (IsCrypted s) then basic_AddKey s key
  else if IsLocked s then Some (false, s)
  else
    vchPubKey ← GetPubKey key;
    '(secret, _) ← GetSecret key;
    match EncryptSecret (vMasterKey s) secret (iv_of vchPubKey) with
    | None => Some (false, s)
    | Some vchCryptedSecret => Some (AddCryptedKey s vchPubKey vchCryptedSecret)
    end.

Definition HaveKey (s : keystore) (a : Base58.CBase58Data) : bool :=
  if negb (IsCrypted s) then basic_HaveKey s a
  else match mapCryptedKeys s !! a with Some _ => true | None => false end.

Definition GetKey (s : keystore) (a : Base58.CBase58Data) (keyOut : CKey) : option (bool * CKey) :=
  if negb (IsCrypted s) then basic_GetKey s a keyOut
  else
    match mapCryptedKeys s !! a with
    | None => Some (false, keyOut)
    | Some (vchPubKey, vchCryptedSecret) =>
        match DecryptSecret (vMasterKey s) vchCryptedSecret (iv_of vchPubKey) with
        | None => Some (false, keyOut)
        | Some vchSecret =>
            if negb (Z.of_nat (length vchSecret) =? 32) then Some (false, keyOut)
            else
              let keyOut := default keyOut (SetPubKey keyOut vchPubKey) in
              k ← SetSecret keyOut vchSecret false;
              Some (true, k)
        end
    end.

(** CKeyStore::GetPubKey, used when the store is not encrypted; the outer
    [None] is an exception, the inner one [return false]. *)
Definition base_GetPubKey (s : keystore) (a : Base58.CBase58Data) : option (option (list Z)) :=
  '(ok, key) ← GetKey s a Reset;
  if negb ok then Some None else Some <$> GetPubKey key.

Definition store_GetPubKey (s : keystore) (a : Base58.CBase58Data) : option (option (list Z)) :=
  if negb (IsCrypted s) then base_GetPubKey s a
  else Some (fst <$> mapCryptedKeys s !! a).

Definition GetKeys (s : keystore) : gset Base58.CBase58Data :=
  if negb (IsCrypted s) then basic_GetKeys s else dom (mapCryptedKeys s).

Fixpoint encrypt_loop (k : list Z) (l : list (Base58.CBase58Data * (list Z * bool))) (s : keystore) : option (bool * keystore) :=
  match l with
  | [] => Some (true, s)
  | (_, (secret, fCompressed)) :: l =>
      key ← SetSecret Reset secret fCompressed;
      vchPubKey ← GetPubKey key;
      '(secret, _) ← GetSecret key;
      match EncryptSecret k secret (iv_of vchPubKey) with
      | None => Some (false, s)
      | Some vchCryptedSecret =>
          let '(ok, s) := AddCryptedKey s vchPubKey vchCryptedSecret in
          if negb ok then Some (false, s) else encrypt_loop k l s
      end
  end.

Definition EncryptKeys (s : keystore) (vMasterKeyIn : list Z) : option (bool * keystore) :=
  if negb (bool_decide (mapCryptedKeys s = ∅)) || IsCrypted s then Some (false, s)
  else
    '(ok, s) ← encrypt_loop vMasterKeyIn (in_order Base58.op_le (mapKeys s)) (set_fUseCrypto s);
    Some (if ok : bool then (true, set_mapKeys s ∅) else (false, s)).

(** CKeyStore::GetSecret *)
Definition store_GetSecret (s : keystore) (a : Base58.CBase58Data) : option (option (list Z * bool)) :=
  '(ok, key) ← GetKey s a Reset;
  if negb ok then Some None else Some <$> GetSecret key.

End stores.

(** What the signing functions of script.cpp use of a store. *)
#[export] Instance store_keys {D : DigestLib} {E : ECLib} {G : ECGroup E} {V : EVPLib} : Solve.KeyStore keystore := {|
  Solve.HaveKey := HaveKey;
  Solve.GetKey s a := match GetKey s a Reset with Some (true, k) => Some (Sign k) | _ => None end;
  Solve.GetPubKey s a := default None (store_GetPubKey s a);
  Solve.GetCScript := GetCScript
|}.


(** ** The abstract store *)

Section keyring.
Context {D : DigestLib} {E : ECLib} {G : ECGroup E} {HG : ECGroupLaws G} {V : EVPLib} {HV : EVPLaws V}.
Context (fTestNet : bool).

(** Secrets by address, each with the form of its public key. *)
Abbreviation keyring := (gmap Base58.CBase58Data (Z * bool)).

Definition pub_of (p : Z * bool) : list Z := i2o_ECPublicKey (ec_gen p.1) (form_of p.2).

Definition ring_ok (r : keyring) : Prop :=
  forall a p, r !! a = Some p -> 0 <= p.1 < 2 ^ 256 /\ a = address fTestNet (pub_of p).

Definition plain_entry (p : Z * bool) : list Z * bool := (be_bytes 32 p.1, p.2).

Definition crypt_entry (mk : list Z) (p : Z * bool) : list Z * list Z :=
  (pub_of p, default [] (EncryptSecret mk (be_bytes 32 p.1) (iv_of (pub_of p)))).

(** The store [s], whose master key is or would be [mk], holds the keys of [r]. *)
Record holds (s : keystore) (mk : list Z) (r : keyring) : Prop := {
  holds_ring : ring_ok r;
  holds_mk : length mk = 32%nat;
  holds_keys : mapKeys s = if fUseCrypto s then ∅ else plain_entry <$> r;
  holds_crypted : mapCryptedKeys s = if fUseCrypto s then crypt_entry mk <$> r else ∅;
  holds_master : if fUseCrypto s then vMasterKey s = [] \/ vMasterKey s = mk else vMasterKey s = []
}.

Lemma holds_empty mk : length mk = 32%nat -> holds empty_store mk ∅.
Proof. intros Hmk. split; simpl; try done; try (by rewrite fmap_empty). Qed.

Lemma EncryptSecret_some mk p iv : length mk = 32%nat -> is_Some (EncryptSecret mk p iv).
Proof.
  intros Hmk. unfold EncryptSecret, SetKey. rewrite Hmk, length_le_bytes. cbn -[le_bytes].
  by apply AES_encrypt_some.
Qed.

Lemma Decrypt_Encrypt_secret mk p iv c : EncryptSecret mk p iv = Some c -> DecryptSecret mk c iv = Some p.
Proof.
  unfold EncryptSecret, DecryptSecret. destruct (SetKey crypter mk _) as [[] k]; cbn [negb]; [|done].
  unfold Encrypt, Decrypt. destruct (fKeySet k); cbn [negb]; [|done]. apply AES_decrypt_encrypt.
Qed.

Lemma DecryptSecret_locked c iv : DecryptSecret [] c iv = None.
Proof. reflexivity. Qed.

Lemma crypt_entry_spec mk p :
  length mk = 32%nat ->
  exists c, crypt_entry mk p = (pub_of p, c) /\ EncryptSecret mk (be_bytes 32 p.1) (iv_of (pub_of p)) = Some c /\
            DecryptSecret mk c (iv_of (pub_of p)) = Some (be_bytes 32 p.1).
Proof.
  intros Hmk. unfold crypt_entry.
  destruct (EncryptSecret_some mk (be_bytes 32 p.1) (iv_of (pub_of p)) Hmk) as [c Hc].
  exists c. rewrite Hc. split; [done|]. split; [done|]. by apply Decrypt_Encrypt_secret.
Qed.

Lemma full_of_pub (p : Z * bool) : 0 <= p.1 < 2 ^ 256 ->
  exists k, SetPubKey Reset (pub_of p) = Some k /\ SetSecret k (be_bytes 32 p.1) false = Some (full_key p.1 p.2).
Proof.
  intros Hp. unfold pub_of.
  assert (is_Some (SetPubKey Reset (i2o_ECPublicKey (ec_gen p.1) (form_of p.2)))) as [k Hk].
  { unfold SetPubKey. rewrite o2i_i2o by apply form_of_ok. cbn. eauto. }
  exists k. split; [done|].
  rewrite (SetPubKey_then_secret p.1 p.2 Reset k (be_bytes 32 p.1)); [|done|done|apply length_be_bytes].
  rewrite digits_val_be_bytes. change (256 ^ Z.of_nat 32) with (2 ^ 256). by rewrite Z.mod_small.
Qed.

Lemma be32_length (d : Z) : (Z.of_nat (length (be_bytes 32 d)) =? 32) = true.
Proof. by rewrite length_be_bytes. Qed.

(** Reading a key from an encrypted entry under the right master key. *)
Lemma GetKey_crypted s mk r a p :
  holds s mk r -> fUseCrypto s = true -> vMasterKey s = mk -> r !! a = Some p ->
  GetKey s a Reset = Some (true, full_key p.1 p.2).
Proof.
  intros Hs Hc Hm Ha. unfold GetKey, IsCrypted. rewrite Hc. cbn [negb].
  rewrite (holds_crypted _ _ _ Hs), Hc, lookup_fmap. rewrite Ha. cbn [fmap option_fmap option_map].
  destruct (crypt_entry_spec mk p (holds_mk _ _ _ Hs)) as (c & -> & _ & Hd).
  destruct (full_of_pub p) as (k & Hk & Hf); [exact (proj1 (holds_ring _ _ _ Hs _ _ Ha))|].
  rewrite Hm, Hd, be32_length. cbn [negb]. rewrite Hk. cbn [default from_option id]. by rewrite Hf.
Qed.

Lemma GetKey_spec s mk r a :
  holds s mk r ->
  GetKey s a Reset =
    Some (if IsLocked s then (false, Reset)
          else match r !! a with Some p => (true, full_key p.1 p.2) | None => (false, Reset) end).
Proof.
  intros Hs. destruct (fUseCrypto s) eqn:Hc.
  - destruct (r !! a) as [p|] eqn:Ha; unfold IsLocked, IsCrypted; rewrite Hc; cbn [negb].
    + pose proof (holds_master _ _ _ Hs) as Hm. rewrite Hc in Hm. destruct Hm as [Hm|Hm].
      * rewrite Hm, bool_decide_eq_true_2 by done. unfold GetKey, IsCrypted. rewrite Hc, Hm. cbn [negb].
        by destruct (mapCryptedKeys s !! a) as [[]|].
      * rewrite bool_decide_eq_false_2; [by apply (GetKey_crypted _ mk r)|].
        rewrite Hm. intros Hn. pose proof (holds_mk _ _ _ Hs) as Hl. by rewrite Hn in Hl.
    + unfold GetKey, IsCrypted. rewrite Hc. cbn [negb].
      rewrite (holds_crypted _ _ _ Hs), Hc, lookup_fmap, Ha. by destruct (bool_decide _).
  - unfold GetKey, IsLocked, IsCrypted, basic_GetKey. rewrite Hc. cbn [negb].
    rewrite (holds_keys _ _ _ Hs), Hc, lookup_fmap.
    destruct (r !! a) as [p|] eqn:Ha; [|done]. cbn [fmap option_fmap option_map plain_entry].
    rewrite SetSecret_full by apply length_be_bytes. cbn [mbind option_bind].
    rewrite digits_val_be_bytes. change (256 ^ Z.of_nat 32) with (2 ^ 256).
    rewrite Z.mod_small by exact (proj1 (holds_ring _ _ _ Hs _ _ Ha)). by rewrite orb_false_r.
Qed.

Lemma HaveKey_spec s mk r a : holds s mk r -> HaveKey s a = bool_decide (is_Some (r !! a)).
Proof.
  intros Hs. pose proof (holds_keys _ _ _ Hs) as Hk. pose proof (holds_crypted _ _ _ Hs) as Hcr.
  unfold HaveKey, basic_HaveKey, IsCrypted. destruct (fUseCrypto s); cbn [negb]; rewrite ?Hk, ?Hcr, lookup_fmap;
    by destruct (r !! a).
Qed.

Lemma AddKey_keeps s key ok s' :
  AddKey fTestNet s key = Some (ok, s') ->
  fUseCrypto s' = fUseCrypto s /\ vMasterKey s' = vMasterKey s /\ mapScripts s' = mapScripts s.
Proof.
  unfold AddKey, IsCrypted, basic_AddKey, AddCryptedKey, SetCrypted.
  destruct (fUseCrypto s) eqn:Hc; cbn [negb].
  - destruct (IsLocked s); [by intros [= <- <-]|].
    destruct (GetPubKey key) as [pub|]; [|done]. destruct (GetSecret key) as [[b c]|]; [|done]. cbn [mbind option_bind].
    destruct (EncryptSecret _ _ _); [|by intros [= <- <-]]. cbn [negb]. by intros [= <- <-].
  - destruct (GetSecret key) as [[b c]|]; [|done]. destruct (GetPubKey key) as [pub|]; [|done]. cbn [mbind option_bind].
    by intros [= <- <-].
Qed.

Lemma ring_ok_insert r d c :
  ring_ok r -> 0 <= d < 2 ^ 256 -> ring_ok (<[address fTestNet (pub_of (d, c)) := (d, c)]> r).
Proof. intros Hr Hd a p Ha. apply lookup_insert_Some in Ha as [[<- <-]|[_ Ha]]; [done|by apply Hr]. Qed.

Lemma AddCryptedKey_spec s mk r p c :
  fUseCrypto s = true -> mapCryptedKeys s = crypt_entry mk <$> r ->
  EncryptSecret mk (be_bytes 32 p.1) (iv_of (pub_of p)) = Some c ->
  AddCryptedKey fTestNet s (pub_of p) c =
    (true, set_crypted s (crypt_entry mk <$> <[address fTestNet (pub_of p) := p]> r)).
Proof.
  intros Hc Hm He. unfold AddCryptedKey, SetCrypted. rewrite Hc. cbn [negb]. rewrite Hm, fmap_insert.
  assert (crypt_entry mk p = (pub_of p, c)) as -> by (unfold crypt_entry; by rewrite He). done.
Qed.

Lemma AddKey_spec s mk r d c :
  holds s mk r -> 0 <= d < 2 ^ 256 ->
  exists s', AddKey fTestNet s (full_key d c) = Some (negb (IsLocked s), s') /\
    holds s' mk (if IsLocked s then r else <[address fTestNet (pub_of (d, c)) := (d, c)]> r).
Proof.
  intros Hs Hd. unfold AddKey, IsLocked, IsCrypted. pose proof (holds_ring _ _ _ Hs) as Hr.
  pose proof (holds_keys _ _ _ Hs) as Hk. pose proof (holds_crypted _ _ _ Hs) as Hcr.
  pose proof (holds_master _ _ _ Hs) as Hm. pose proof (holds_mk _ _ _ Hs) as Hl.
  destruct (fUseCrypto s) eqn:Hc; cbn [negb].
  - destruct Hm as [Hm|Hm].
    + rewrite Hm, bool_decide_eq_true_2 by done. by exists s.
    + rewrite bool_decide_eq_false_2 by (rewrite Hm; intros Hn; by rewrite Hn in Hl). cbn [negb].
      rewrite GetPubKey_full, GetSecret_full. cbn [mbind option_bind].
      destruct (crypt_entry_spec mk (d, c) Hl) as (x & _ & He & _).
      change (i2o_ECPublicKey (ec_gen d) (form_of c)) with (pub_of (d, c)).
      rewrite Hm. cbn [fst] in He. rewrite He.
      rewrite (AddCryptedKey_spec s mk r (d, c) x Hc Hcr He).
      eexists. split; [done|]. split; simpl; rewrite ?Hc; try done; [by apply ring_ok_insert|by right].
  - unfold basic_AddKey. rewrite GetPubKey_full, GetSecret_full. cbn [mbind option_bind].
    eexists. split; [done|]. split; simpl; rewrite ?Hc; try done; [by apply ring_ok_insert|].
    by rewrite Hk, fmap_insert.
Qed.

(** The loop of EncryptKeys over entries of the ring. *)
Lemma encrypt_loop_spec mk r l : forall s done_,
  length mk = 32%nat -> ring_ok r -> (forall a x, (a, x) ∈ l -> exists p, r !! a = Some p /\ x = plain_entry p) ->
  fUseCrypto s = true -> mapCryptedKeys s = crypt_entry mk <$> done_ ->
  exists s', encrypt_loop fTestNet mk l s = Some (true, s') /\ fUseCrypto s' = true /\ vMasterKey s' = vMasterKey s /\
    mapCryptedKeys s' = crypt_entry mk <$> (foldl (fun m a => match r !! a with Some p => <[a := p]> m | None => m end) done_ l.*1).
Proof.
  induction l as [|[a [b c]] l IH]; intros s done_ Hmk Hr Hl Hc Hm; [by exists s|].
  destruct (Hl a (b, c)) as (p & Ha & Hx); [left|]. injection Hx as -> ->.
  destruct (Hr _ _ Ha) as [Hp Hadr]. cbn [encrypt_loop].
  rewrite SetSecret_full by apply length_be_bytes. cbn [mbind option_bind].
  rewrite orb_false_r, digits_val_be_bytes. change (256 ^ Z.of_nat 32) with (2 ^ 256). rewrite Z.mod_small by done.
  rewrite GetPubKey_full, GetSecret_full. cbn [mbind option_bind].
  destruct (crypt_entry_spec mk p Hmk) as (x & _ & He & _).
  change (i2o_ECPublicKey (ec_gen p.1) (form_of p.2)) with (pub_of p). rewrite He.
  rewrite (AddCryptedKey_spec s mk done_ p x Hc Hm He). cbn [negb].
  destruct (IH (set_crypted s (crypt_entry mk <$> <[address fTestNet (pub_of p) := p]> done_))
              (<[a := p]> done_)) as (s' & HE & Hc' & Hv & Hm'); try done.
  - intros a' x' Hin. apply Hl. by right.
  - simpl. by rewrite <- Hadr.
  - exists s'. split; [done|]. split; [done|]. split; [done|]. rewrite Hm'. cbn [fmap list_fmap foldl fst]. by rewrite Ha.
Qed.

Lemma fold_inserts (r : keyring) l : forall (m : keyring) a,
  foldl (fun m a => match r !! a with Some p => <[a := p]> m | None => m end) m l !! a =
    if bool_decide (a ∈ l) then (match r !! a with Some p => Some p | None => m !! a end) else m !! a.
Proof.
  induction l as [|b l IH]; intros m a; cbn [foldl]; [done|]. rewrite IH.
  destruct (decide (a = b)) as [->|Hne].
  - rewrite (bool_decide_eq_true_2 (b ∈ b :: l)) by left.
    destruct (r !! b); [rewrite lookup_insert_eq|]; by case_bool_decide.
  - assert (match r !! b with Some p => <[b := p]> m | None => m end !! a = m !! a) as ->.
    { destruct (r !! b); [|done]. by rewrite lookup_insert_ne. }
    rewrite (bool_decide_ext (a ∈ b :: l) (a ∈ l)); [done|]. rewrite elem_of_cons. split; [by intros [->|?]|by right].
Qed.

Lemma EncryptKeys_spec s mk r :
  holds s mk r -> IsCrypted s = false ->
  exists s', EncryptKeys fTestNet s mk = Some (true, s') /\ holds s' mk r /\ IsCrypted s' = true /\ IsLocked s' = true.
Proof.
  intros Hs Hc. unfold IsCrypted in *. pose proof (holds_keys _ _ _ Hs) as Hk. pose proof (holds_crypted _ _ _ Hs) as Hcr.
  pose proof (holds_master _ _ _ Hs) as Hm. rewrite Hc in Hk, Hcr, Hm.
  unfold EncryptKeys, IsCrypted. rewrite Hc, Hcr, bool_decide_eq_true_2 by done. cbn [negb orb].
  destruct (encrypt_loop_spec mk r (in_order Base58.op_le (mapKeys s)) (set_fUseCrypto s) ∅) as (s' & HE & Hc' & Hv & Hm').
  - apply (holds_mk _ _ _ Hs).
  - apply (holds_ring _ _ _ Hs).
  - intros a x Hin. apply elem_of_in_order in Hin. rewrite Hk, lookup_fmap in Hin.
    destruct (r !! a) as [p|]; [|done]. injection Hin as <-. eauto.
  - done.
  - simpl. by rewrite Hcr, fmap_empty.
  - rewrite HE. cbn [mbind option_bind]. eexists. split; [done|].
    assert (mapCryptedKeys s' = crypt_entry mk <$> r) as Er.
    { rewrite Hm'. f_equal. apply map_eq. intros a. rewrite fold_inserts, lookup_empty.
      case_bool_decide as Ha; [by destruct (r !! a)|].
      destruct (r !! a) as [p|] eqn:Hp; [|done]. exfalso. apply Ha.
      apply (list_elem_of_fmap_2' fst _ (a, plain_entry p)); [|done].
      apply elem_of_in_order. by rewrite Hk, lookup_fmap, Hp. }
    split; [|split].
    + split; simpl; rewrite ?Hc'; try done; [apply (holds_ring _ _ _ Hs)|apply (holds_mk _ _ _ Hs)|].
      left. by rewrite Hv.
    + done.
    + unfold IsLocked, IsCrypted. simpl. rewrite Hc'. simpl. rewrite Hv. simpl. by rewrite Hm, bool_decide_eq_true_2.
Qed.

Lemma check_master_ok s mk r :
  holds s mk r -> fUseCrypto s = true ->
  check_master mk (in_order Base58.op_le (mapCryptedKeys s)) = Some true.
Proof.
  intros Hs Hc. destruct (in_order _ _) as [|[a [pub c]] l] eqn:Hl; [done|].
  assert (mapCryptedKeys s !! a = Some (pub, c)) as Ha.
  { apply (elem_of_in_order Base58.op_le). rewrite Hl. left. }
  rewrite (holds_crypted _ _ _ Hs), Hc, lookup_fmap in Ha.
  destruct (r !! a) as [p|] eqn:Hp; [|done]. injection Ha as Hpub Hcc. cbn [check_master].
  destruct (crypt_entry_spec mk p (holds_mk _ _ _ Hs)) as (x & Hx & He & Hd).
  rewrite He in Hcc. simpl in Hcc. subst x pub.
  rewrite Hd, be32_length. cbn [negb].
  destruct (full_of_pub p) as (k & Hk & Hf); [exact (proj1 (holds_ring _ _ _ Hs _ _ Hp))|].
  rewrite Hk. cbn [default from_option id]. rewrite Hf. cbn [mbind option_bind].
  rewrite GetPubKey_full. cbn [mbind option_bind]. by rewrite bool_decide_eq_true_2.
Qed.

Lemma check_master_inv k l a pub c :
  check_master k ((a, (pub, c)) :: l) = Some true ->
  exists b, DecryptSecret k c (iv_of pub) = Some b /\ length b = 32%nat /\
    exists f, i2o_ECPublicKey (ec_gen (digits_val 256 b)) (form_of f) = pub.
Proof.
  cbn [check_master]. destruct (DecryptSecret k c (iv_of pub)) as [b|]; [|done].
  destruct (Z.eqb_spec (Z.of_nat (length b)) 32) as [Hb|]; cbn [negb]; [|done].
  assert (length b = 32%nat) as Hb' by lia.
  rewrite SetSecret_full by done. cbn [mbind option_bind]. rewrite GetPubKey_full. cbn [mbind option_bind].
  intros [= H]. apply bool_decide_eq_true in H. eauto.
Qed.

Lemma Lock_spec s mk r : holds s mk r -> IsCrypted s = true ->
  Lock s = (true, set_vMasterKey s []) /\ holds (set_vMasterKey s []) mk r /\ IsLocked (set_vMasterKey s []) = true /\
  IsCrypted (set_vMasterKey s []) = true.
Proof.
  intros Hs Hc. unfold IsCrypted in Hc. pose proof (holds_keys _ _ _ Hs) as Hk. pose proof (holds_crypted _ _ _ Hs) as Hcr. rewrite Hc in Hk, Hcr.
  split; [unfold Lock, SetCrypted; by rewrite Hc|]. split; [|split; [unfold IsLocked, IsCrypted; simpl; by rewrite Hc|done]].
  split; simpl; rewrite ?Hc; try done; [apply (holds_ring _ _ _ Hs)|apply (holds_mk _ _ _ Hs)|by left].
Qed.

Lemma Unlock_spec s mk r : holds s mk r -> IsCrypted s = true ->
  Unlock s mk = Some (true, set_vMasterKey s mk) /\ holds (set_vMasterKey s mk) mk r /\ IsLocked (set_vMasterKey s mk) = false.
Proof.
  intros Hs Hc. unfold IsCrypted in Hc. pose proof (holds_keys _ _ _ Hs) as Hk. pose proof (holds_crypted _ _ _ Hs) as Hcr.
  pose proof (holds_mk _ _ _ Hs) as Hl. rewrite Hc in Hk, Hcr. split; [|split].
  - unfold Unlock, SetCrypted. rewrite Hc. cbn [negb]. by rewrite (check_master_ok s mk r).
  - split; simpl; rewrite ?Hc; try done; [apply (holds_ring _ _ _ Hs)|by right].
  - unfold IsLocked, IsCrypted. simpl. rewrite Hc. simpl. apply bool_decide_eq_false_2. intros Hn. by rewrite Hn in Hl.
Qed.


End keyring.

(** ** A concrete store *)

(** A cipher in which a ciphertext starts with its key. *)
Definition toy_evp : EVPLib := {|
  EVP_BytesToKey salt data rounds := (replicate 32 (digits_val 256 data mod 256), replicate 16 0);
  AES_encrypt k iv p := if bool_decide (length k = 32%nat) then Some (k ++ p) else None;
  AES_decrypt k iv c := if bool_decide (length k = 32%nat /\ take 32 c = k) then Some (drop 32 c) else None
|}.

#[export] Instance toy_evp_laws : EVPLaws toy_evp.
Proof.
  split; cbn [toy_evp EVP_BytesToKey AES_encrypt AES_decrypt].
  - done.
  - done.
  - intros k iv p Hk. by rewrite bool_decide_eq_true_2.
  - intros k iv p c H. case_bool_decide as Hk; [|done]. injection H as <-.
    rewrite bool_decide_eq_true_2 by (split; [done|]; by rewrite take_app_length' by done).
    by rewrite drop_app_length' by done.
Qed.

#[local] Existing Instance toy_ec.
#[local] Existing Instance toy_group.
#[local] Existing Instance toy_evp.
#[local] Existing Instance toy_digests.

Definition demo_master : list Z := replicate 32 9.
Definition demo_ring : gmap Base58.CBase58Data (Z * bool) := {[ address false (pub_of (5, true)) := (5, true) ]}.
Definition demo_store : keystore := mk_ks (plain_entry <$> demo_ring) ∅ ∅ [] false.

Lemma demo_store_holds : holds false demo_store demo_master demo_ring.
Proof.
  split.
  - intros a p Ha. unfold demo_ring in Ha. apply lookup_singleton_Some in Ha as [<- <-]. split; [cbn [fst]; lia|reflexivity].
  - reflexivity.
  - cbn [demo_store fUseCrypto mapKeys]. reflexivity.
  - cbn [demo_store fUseCrypto mapCryptedKeys]. reflexivity.
  - cbn [demo_store fUseCrypto vMasterKey]. reflexivity.
Qed.


End KeyStores.
