(* ===== verification/Work.v ===== *)
(** * Difficulty, rewards and the block index (src/src/main.cpp, src/src/main.h)

    Network parameters, the block index entry, the proof-of-work test, the
    two rewards, the minimum work and the retargeting rule.  A [CBlockIndex*]
    is modelled by the chain it heads: the entry itself followed by what
    [pprev] leads to, the genesis entry last, so that [NULL] is the empty
    chain.  The [double] arithmetic of the retargeting rule is IEEE binary64,
    with the standard library's executable specification of it. *)

From Stdlib Require Import SpecFloat Sorting.
From stdpp Require Import sorting.
From S2P Require Import Prelude Containers Uint256 Bignum Tx.
Import Tx.

(** ** Network parameters *)

Record NetParams := mk_params {
  bnNewProofOfWorkLimit : Z;
  bnOldProofOfWorkLimit : Z;
  bnInitialPoSTarget : Z;
  nStakeMinAge : Z;
  nCoinbaseMaturity : Z;
  nModifierInterval : Z;
  nPoSMinHeight : Z
}.

(** ** The block index entry, without its pointers *)

Record CBlockIndex := mk_index {
  bi_hash : Z;
  bi_bnChainTrust : Z;
  bi_nHeight : Z;
  bi_nPoWHeight : Z;
  bi_nMint : Z;
  bi_nMoneySupply : Z;
  bi_nPoSTotalMint : Z;
  bi_nPoSDebt : Z;
  bi_nFlags : Z;
  bi_nStakeModifier : Z;
  bi_nStakeModifierChecksum : Z;
  bi_prevoutStake : COutPoint;
  bi_nStakeTime : Z;
  bi_hashProofOfStake : Z;
  bi_nVersion : Z;
  bi_hashMerkleRoot : Z;
  bi_nTime : Z;
  bi_nBits : Z;
  bi_nNonce : Z
}.

Module Work.

Definition MAX_MINT_PROOF_OF_WORK : Z := 400 * COIN.
Definition WORK_TARGET_SPACING : Z := 5 * 60.
Definition STAKE_TARGET_SPACING : Z := 2 * 60.
Definition STAKE_MIN_AGE : Z := 60 * 60 * 24 * 7.
Definition STAKE_MAX_AGE : Z := 60 * 60 * 24 * 60.
Definition STAKE_MIN_AGE_TEST : Z := 60 * 60 * 2.
Definition COINBASE_MATURITY : Z := 250.
Definition COINBASE_MATURITY_TEST : Z := 30.
Definition POS_MIN_HEIGHT : Z := 60 * 60 * 24 * 365 / 4 / WORK_TARGET_SPACING.
Definition POS_TEST_MIN_HEIGHT : Z := 24.
Definition MODIFIER_INTERVAL : Z := 5400.
Definition MODIFIER_INTERVAL_TEST : Z := 150.
Definition nMaxClockDrift : Z := 2 * 60 * 60.
Definition nTargetSpacingWorkMax : Z := 60 * STAKE_TARGET_SPACING.
Definition nPoWSwitchHeight : Z := 8.

Section work.
Context {L : BNLib}.

(** [CBigNum(~uint256(0) >> shift)] *)
Definition limit_of (shift : Z) : Z := BigNum.setuint256 (Uint.op_shr (Uint.op_compl (Uint.of_u64 8 0)) shift).

(** The globals, as LoadBlockIndex leaves them. *)
Definition net_params (fTestNet : bool) : NetParams :=
  if fTestNet
  then mk_params (limit_of 5) (limit_of 5) (limit_of 14) STAKE_MIN_AGE_TEST COINBASE_MATURITY_TEST
         MODIFIER_INTERVAL_TEST POS_TEST_MIN_HEIGHT
  else mk_params (limit_of 10) (limit_of 17) (limit_of 36) STAKE_MIN_AGE COINBASE_MATURITY
         MODIFIER_INTERVAL POS_MIN_HEIGHT.

Definition GetProofOfWorkLimit (p : NetParams) (nHeight : Z) : Z :=
  if nHeight <? nPoWSwitchHeight then bnOldProofOfWorkLimit p else bnNewProofOfWorkLimit p.

(** ** CBlockIndex *)

Definition BLOCK_PROOF_OF_STAKE : Z := 1.
Definition BLOCK_STAKE_ENTROPY : Z := 2.
Definition BLOCK_STAKE_MODIFIER : Z := 4.

Definition bi_GetBlockTime (i : CBlockIndex) : Z := bi_nTime i.

Definition bi_IsProofOfWork (i : CBlockIndex) : bool := Z.land (bi_nFlags i) BLOCK_PROOF_OF_STAKE =? 0.
Definition bi_IsProofOfStake (i : CBlockIndex) : bool := negb (Z.land (bi_nFlags i) BLOCK_PROOF_OF_STAKE =? 0).

Definition set_flags (i : CBlockIndex) (f : Z) : CBlockIndex :=
  mk_index (bi_hash i) (bi_bnChainTrust i) (bi_nHeight i) (bi_nPoWHeight i) (bi_nMint i) (bi_nMoneySupply i)
    (bi_nPoSTotalMint i) (bi_nPoSDebt i) f (bi_nStakeModifier i) (bi_nStakeModifierChecksum i) (bi_prevoutStake i)
    (bi_nStakeTime i) (bi_hashProofOfStake i) (bi_nVersion i) (bi_hashMerkleRoot i) (bi_nTime i) (bi_nBits i) (bi_nNonce i).

Definition set_modifier (i : CBlockIndex) (m : Z) : CBlockIndex :=
  mk_index (bi_hash i) (bi_bnChainTrust i) (bi_nHeight i) (bi_nPoWHeight i) (bi_nMint i) (bi_nMoneySupply i)
    (bi_nPoSTotalMint i) (bi_nPoSDebt i) (bi_nFlags i) m (bi_nStakeModifierChecksum i) (bi_prevoutStake i)
    (bi_nStakeTime i) (bi_hashProofOfStake i) (bi_nVersion i) (bi_hashMerkleRoot i) (bi_nTime i) (bi_nBits i) (bi_nNonce i).

Definition SetProofOfStake (i : CBlockIndex) : CBlockIndex := set_flags i (Z.lor (bi_nFlags i) BLOCK_PROOF_OF_STAKE).

Definition GetStakeEntropyBit (i : CBlockIndex) : Z := Z.shiftr (Z.land (bi_nFlags i) BLOCK_STAKE_ENTROPY) 1.

(** [None] is the result false. *)
Definition SetStakeEntropyBit (i : CBlockIndex) (nEntropyBit : Z) : option CBlockIndex :=
  if 1 <? nEntropyBit then None
  else Some (set_flags i (Z.lor (bi_nFlags i) (if nEntropyBit =? 0 then 0 else BLOCK_STAKE_ENTROPY))).

Definition GeneratedStakeModifier (i : CBlockIndex) : bool :=
  negb (Z.land (bi_nFlags i) BLOCK_STAKE_MODIFIER =? 0).

Definition SetStakeModifier (i : CBlockIndex) (nModifier : Z) (fGeneratedStakeModifier : bool) : CBlockIndex :=
  let i := set_modifier i nModifier in
  if fGeneratedStakeModifier then set_flags i (Z.lor (bi_nFlags i) BLOCK_STAKE_MODIFIER) else i.

(** [None]: the division failed. *)
Definition GetBlockTrust (i : CBlockIndex) : option Z :=
  let bnTarget := BigNum.SetCompact (bi_nBits i) in
  if BigNum.op_leb bnTarget (BigNum.CBigNum_int 0) then Some (BigNum.CBigNum_int 0)
  else if bi_IsProofOfStake i
  then BigNum.op_div (BigNum.op_lshift (BigNum.CBigNum_int 1) 256) (BigNum.op_plus bnTarget (BigNum.CBigNum_int 1))
  else Some (BigNum.CBigNum_int 1).

(** [GetMedianTimePast] of the entry that heads a chain: the times of at most
    11 entries, sorted, and the one in the middle. *)
Definition nMedianTimeSpan : nat := 11.

Definition GetMedianTimePast (chain : list CBlockIndex) : Z :=
  let times := merge_sort Z.le (map bi_GetBlockTime (take nMedianTimeSpan chain)) in
  rd times (length times / 2).

(** ** Proof of work *)

Definition CheckProofOfWork (p : NetParams) (hash : list Z) (nBits : Z) : bool :=
  let bnTarget := BigNum.SetCompact nBits in
  if BigNum.op_leb bnTarget (BigNum.CBigNum_int 0) || BigNum.op_gtb bnTarget (bnNewProofOfWorkLimit p) then false
  else if Uint.op_gt hash (BigNum.getuint256 bnTarget) then false
  else true.

(** ** Rewards *)

Definition GetNextProofOfWorkReward (pPrev : option CBlockIndex) (fAccountForPoS : bool) : Z :=
  match pPrev with
  | None => COIN
  | Some prev =>
      let nPoWHeight := i64 (bi_nPoWHeight prev + 1) in
      let nFullSubsidy :=
        if nPoWHeight <? 576
        then i64 (COIN + Z.quot (Z.quot (i64 (i64 (399 * COIN * (nPoWHeight - 1)) * (nPoWHeight - 1))) 575) 575)
        else Z.quot (400 * COIN * 26280 * 26280) (i64 (nPoWHeight * nPoWHeight)) in
      let nFullSubsidy := Z.min nFullSubsidy MAX_MINT_PROOF_OF_WORK in
      if negb fAccountForPoS then nFullSubsidy
      else Z.max (Z.quot nFullSubsidy 4) (i64 (nFullSubsidy - bi_nPoSDebt prev))
  end.

Definition GetProofOfStakeReward (nCoinAgeSeconds : Z) : Z :=
  let nRewardCoinYear := CENT in
  Z.quot (Z.quot (Z.quot (Z.quot (i64 (i64 (nRewardCoinYear * nCoinAgeSeconds) * 33)) 60) 60) 24) (365 * 33 + 8).

(** ** Minimum work *)

(** [while (nTime > 0 && bnResult < bnProofOfWorkLimit)]: one round per day. *)
Fixpoint min_work_loop (fuel : nat) (bnProofOfWorkLimit nTime bnResult : Z) : Z :=
  if (0 <? nTime) && BigNum.op_ltb bnResult bnProofOfWorkLimit then
    match fuel with
    | O => bnResult
    | S f =>
        min_work_loop f bnProofOfWorkLimit (i64 (nTime - 24 * 60 * 60)) (BigNum.op_times bnResult (BigNum.CBigNum_int 2))
    end
  else bnResult.

Definition days_left (nTime : Z) : nat := Z.to_nat ((nTime + 86399) / 86400).

Definition ComputeMinWork (p : NetParams) (last : CBlockIndex) (nTime : Z) : Z :=
  let bnResult := BigNum.op_times (BigNum.SetCompact (u32 (bi_nBits last))) (BigNum.CBigNum_int 2) in
  let bnResult := min_work_loop (days_left nTime) (bnNewProofOfWorkLimit p) nTime bnResult in
  BigNum.GetCompact (if BigNum.op_gtb bnResult (bnNewProofOfWorkLimit p) then bnNewProofOfWorkLimit p else bnResult).

(** ** Retargeting *)

(** [while (pindex && pindex->pprev && ...) pindex = pindex->pprev] *)
Fixpoint GetLastBlockIndex (pindex : list CBlockIndex) (fProofOfStake : bool) : list CBlockIndex :=
  match pindex with
  | i :: (_ :: _) as pprev => if negb (Bool.eqb (bi_IsProofOfStake i) fProofOfStake) then GetLastBlockIndex pprev fProofOfStake else pindex
  | _ => pindex
  end.

Fixpoint GetLastBlockIndex2 (pindex : list CBlockIndex) (fProofOfStake : bool) : list CBlockIndex :=
  match pindex with
  | i :: pprev => if negb (Bool.eqb (bi_IsProofOfStake i) fProofOfStake) then GetLastBlockIndex2 pprev fProofOfStake else pindex
  | [] => []
  end.

Definition GetTypeHeight (pindex : list CBlockIndex) (fProofOfStake : bool) : Z :=
  match pindex with
  | [] => 0
  | i :: _ => if fProofOfStake then i32 (bi_nHeight i - bi_nPoWHeight i) else bi_nPoWHeight i
  end.

(** Conversions to and from [double] and the three operations used. *)
Definition dbl (z : Z) : spec_float := binary_normalize 53 1024 z 0 false.
Definition dadd : spec_float -> spec_float -> spec_float := SFadd 53 1024.
Definition dmul : spec_float -> spec_float -> spec_float := SFmul 53 1024.
Definition ddiv : spec_float -> spec_float -> spec_float := SFdiv 53 1024.

(** [(int64)x]: truncation towards zero, of a double within range. *)
Definition dbl_to_int64 (x : spec_float) : Z :=
  match x with
  | S754_finite s m e =>
      let a := if 0 <=? e then Z.pos m * 2 ^ e else Z.pos m / 2 ^ (- e) in
      if s then - a else a
  | _ => 0
  end.

Definition nPastBlocksMin : Z := 2.
Definition nPastBlocksMax : Z := 24.

(** What the averaging loop keeps. *)
Record past := mk_past {
  nCountBlocks : Z;
  nActualTimespan : Z;
  nLastBlockTime : Z;
  bnPastTargetAverage : Z;
  pLastBlockReading : list CBlockIndex
}.

(** One round of the loop. *)
Definition past_step (pBlockReading : list CBlockIndex) (i : CBlockIndex) (st : past) : option past :=
  avg ←
    (if nCountBlocks st =? 0 then Some (BigNum.SetCompact (bi_nBits i))
     else
       let bnTarget := BigNum.SetCompact (bi_nBits i) in
       BigNum.op_div (BigNum.op_plus (BigNum.op_times (bnPastTargetAverage st) (BigNum.setint64 (nCountBlocks st))) bnTarget)
         (BigNum.setint64 (nCountBlocks st + 1)));
  Some (mk_past (nCountBlocks st + 1) (i64 (nActualTimespan st + (nLastBlockTime st - bi_GetBlockTime i)))
          (bi_GetBlockTime i) avg pBlockReading).

(** The loop reads at most nPastBlocksMax entries. *)
Fixpoint past_loop (fuel : nat) (fProofOfStake : bool) (pBlockReading : list CBlockIndex) (st : past) : option past :=
  match fuel, pBlockReading with
  | S f, i :: pprev =>
      if (1 <? GetTypeHeight pBlockReading fProofOfStake) && (nCountBlocks st <? nPastBlocksMax) then
        st ← past_step pBlockReading i st;
        past_loop f fProofOfStake (GetLastBlockIndex2 pprev fProofOfStake) st
      else Some st
  | _, _ => Some st
  end.

Definition target_timespan (pBlockLastSolved : list CBlockIndex) (fProofOfStake : bool) (st : past) : Z :=
  if fProofOfStake then nCountBlocks st * STAKE_TARGET_SPACING
  else
    let nCountStakeBlocks := GetTypeHeight pBlockLastSolved true - GetTypeHeight (pLastBlockReading st) true in
    let nTargetTimespan := nCountBlocks st * WORK_TARGET_SPACING + nCountStakeBlocks * STAKE_TARGET_SPACING in
    if nCountBlocks st * nTargetSpacingWorkMax <? nTargetTimespan then nCountBlocks st * nTargetSpacingWorkMax
    else nTargetTimespan.

Definition dMaxAdjust (n : Z) : spec_float := dadd (dbl 1) (ddiv (dmul (dbl 2) (dbl n)) (dbl nPastBlocksMax)).

(** The two comparisons with [double] bounds. *)
Definition clamp_timespan (nActualTimespan nTargetTimespan n : Z) : Z :=
  let lo := ddiv (dbl nTargetTimespan) (dMaxAdjust n) in
  let hi := dmul (dbl nTargetTimespan) (dMaxAdjust n) in
  let nActualTimespan := if SFltb (dbl nActualTimespan) lo then dbl_to_int64 lo else nActualTimespan in
  if SFltb hi (dbl nActualTimespan) then dbl_to_int64 hi else nActualTimespan.

Definition retarget (bnProofOfWorkLimit : Z) (st : past) (nTargetTimespan : Z) : option Z :=
  let nActualTimespan := clamp_timespan (nActualTimespan st) nTargetTimespan (nCountBlocks st) in
  bnNewTarget ← BigNum.op_div (BigNum.op_times (bnPastTargetAverage st) (BigNum.setint64 nActualTimespan))
                  (BigNum.setint64 nTargetTimespan);
  let bnNewTarget := if BigNum.op_gtb bnNewTarget bnProofOfWorkLimit then bnProofOfWorkLimit else bnNewTarget in
  Some (BigNum.GetCompact bnNewTarget).

(** [GetNextTargetRequired] on the non-empty chain whose first entry is
    [last]; the printing and its static counters are left out.  [None]: a
    [bignum_error] from a division by zero. *)
Definition GetNextTargetRequired (p : NetParams) (last : CBlockIndex) (pprev : list CBlockIndex) (fProofOfStake : bool) : option Z :=
  let pBlockLastSolved := last :: pprev in
  if (nPoWSwitchHeight <=? bi_nHeight last) && (bi_nHeight last <? nPoWSwitchHeight + 8)
  then Some (BigNum.GetCompact (bnNewProofOfWorkLimit p))
  else
    let pBlockReading := GetLastBlockIndex2 pBlockLastSolved fProofOfStake in
    let bnProofOfWorkLimit := GetProofOfWorkLimit p (bi_nHeight last) in
    if bool_decide (pBlockReading = []) || (GetTypeHeight pBlockReading fProofOfStake - 1 <? nPastBlocksMin)
    then Some (BigNum.GetCompact (if fProofOfStake then bnInitialPoSTarget p else bnProofOfWorkLimit))
    else
      st ← past_loop (Z.to_nat nPastBlocksMax) fProofOfStake pBlockReading (mk_past 0 0 (bi_GetBlockTime last) 0 []);
      retarget bnProofOfWorkLimit st (target_timespan pBlockLastSolved fProofOfStake st).

End work.

(** ** Lemmas *)

Section lemmas.
Context {L : BNLib} {HL : BNLaws L}.

Lemma limit_of_spec shift : 0 <= shift <= 256 -> limit_of shift = 2 ^ (256 - shift) - 1.
Proof.
  intros Hs. unfold limit_of.
  assert (Uint.wf 8 (Uint.of_u64 8 0)) as Hz by (split; [done|repeat constructor; done]).
  destruct (Uint.op_compl_spec 8 _ Hz) as [Hc Ec].
  destruct (Uint.op_shr_spec 8 _ shift Hc) as [Hw Ew]; [lia|].
  rewrite BigNum.setuint256_spec, Ew, Ec by done.
  replace (Uint.modulus 8 - 1 - Uint.uval (Uint.of_u64 8 0)) with (2 ^ 256 - 1) by reflexivity.
  symmetry. apply (Z.div_unique _ _ _ (2 ^ shift - 1)).
  - left. assert (0 < 2 ^ shift) by (apply Z.pow_pos_nonneg; lia). lia.
  - replace 256 with (shift + (256 - shift)) at 1 by lia. rewrite Z.pow_add_r by lia. ring.
Qed.

Lemma net_limits f :
  let p := net_params f in
  bnNewProofOfWorkLimit p = 2 ^ (if f then 251 else 246) - 1 /\
  bnOldProofOfWorkLimit p = 2 ^ (if f then 251 else 239) - 1 /\
  bnInitialPoSTarget p = 2 ^ (if f then 242 else 220) - 1.
Proof. destruct f; cbn -[limit_of Z.pow]; rewrite !limit_of_spec by lia; done. Qed.

(** Numbers of at most 256 bits are inside every size bound. *)
Lemma mpi_size_small v n : 1 <= n -> Z.abs v < 2 ^ (8 * n) -> mpi_size v <= n + 1.
Proof.
  intros Hn Hv. unfold mpi_size. destruct (Z.eqb_spec v 0); [lia|].
  assert (Z.log2 (Z.abs v) < 8 * n) by (apply Z.log2_lt_pow2; lia).
  assert ((Z.log2 (Z.abs v) + 1) / 8 < n + 1) by (apply Z.div_lt_upper_bound; lia). lia.
Qed.

Lemma mpi_size_uint256 v : 0 <= v < 2 ^ 256 -> mpi_size v <= 33.
Proof. intros Hv. apply (mpi_size_small v 32); [lia|]. change (8 * 32) with 256. lia. Qed.

Lemma CheckProofOfWork_iff f hash nBits :
  Uint.wf 8 hash -> 0 <= nBits < 2 ^ 32 ->
  CheckProofOfWork (net_params f) hash nBits = true <->
  0 < BigNum.compact_val nBits <= bnNewProofOfWorkLimit (net_params f) /\ Uint.uval hash <= BigNum.compact_val nBits.
Proof.
  intros Hw Hb. destruct (net_limits f) as (El & _). unfold CheckProofOfWork.
  rewrite BigNum.SetCompact_spec, BigNum.CBigNum_int_spec by (done || lia).
  set (t := BigNum.compact_val nBits). set (lim := bnNewProofOfWorkLimit _) in *.
  assert (lim < 2 ^ 256) as Hlim by (rewrite El; by destruct f).
  destruct (BigNum.comparisons_spec t 0) as (_ & _ & -> & _).
  destruct (BigNum.comparisons_spec t lim) as (_ & _ & _ & _ & _ & ->).
  destruct (Z.leb_spec t 0), (Z.ltb_spec lim t); cbn [orb]; [split; [done|lia]..|].
  destruct (BigNum.getuint256_spec t) as [Hg Eg].
  { pose proof (mpi_size_uint256 t). lia. }
  destruct (Uint.compare_spec 8 hash (BigNum.getuint256 t) Hw Hg) as (_ & _ & -> & _).
  rewrite Eg, Z.abs_eq, Z.mod_small by lia.
  destruct (Z.ltb_spec t (Uint.uval hash)); split; try done; lia.
Qed.

(** *** Rewards *)

Definition full_subsidy (h : Z) : Z :=
  Z.min MAX_MINT_PROOF_OF_WORK
    (if h <? 576 then COIN + 399 * COIN * ((h - 1) * (h - 1)) / 575 / 575
     else 400 * COIN * (26280 * 26280) / (h * h)).

Lemma full_subsidy_rising h1 h2 : 1 <= h1 <= h2 -> h2 <= 26280 -> full_subsidy h1 <= full_subsidy h2.
Proof.
  intros H1 H2. unfold full_subsidy. change MAX_MINT_PROOF_OF_WORK with (400 * COIN). change COIN with 1000000.
  assert (forall h, 576 <= h <= 26280 -> 400 * 1000000 <= 400 * 1000000 * (26280 * 26280) / (h * h)) as Hbig.
  { intros h Hh. apply Z.div_le_lower_bound; [nia|]. nia. }
  destruct (Z.ltb_spec h1 576), (Z.ltb_spec h2 576).
  - assert (399 * 1000000 * ((h1 - 1) * (h1 - 1)) / 575 / 575 <= 399 * 1000000 * ((h2 - 1) * (h2 - 1)) / 575 / 575); [|lia].
    do 2 (apply Z.div_le_mono; [lia|]). nia.
  - specialize (Hbig h2). lia.
  - lia.
  - specialize (Hbig h2). lia.
Qed.

Lemma full_subsidy_falling h1 h2 : 26280 <= h1 <= h2 -> full_subsidy h2 <= full_subsidy h1.
Proof.
  intros H. unfold full_subsidy. rewrite !(proj2 (Z.ltb_ge _ _)) by lia.
  apply Z.min_le_compat_l. apply Z.div_le_compat_l; [done|nia].
Qed.

Lemma full_subsidy_range h : 1 <= h -> 0 <= full_subsidy h <= MAX_MINT_PROOF_OF_WORK.
Proof.
  intros Hh. unfold full_subsidy. split; [|lia]. apply Z.min_glb; [done|]. destruct (Z.ltb_spec h 576).
  - apply Z.add_nonneg_nonneg; [done|]. do 2 (apply Z.div_pos; [|lia]). change COIN with 1000000. nia.
  - apply Z.div_pos; [done|nia].
Qed.

Lemma PoWReward_full prev :
  0 <= bi_nPoWHeight prev < 2 ^ 31 ->
  GetNextProofOfWorkReward (Some prev) false = full_subsidy (bi_nPoWHeight prev + 1).
Proof.
  intros Hh. unfold GetNextProofOfWorkReward, full_subsidy. cbv zeta. cbn [negb].
  rewrite (i64_small (bi_nPoWHeight prev + 1)) by lia. set (h := bi_nPoWHeight prev + 1).
  assert (1 <= h <= 2 ^ 31) as Hr by (unfold h; lia). rewrite Z.min_comm. f_equal.
  change COIN with 1000000. destruct (Z.ltb_spec h 576).
  - rewrite (i64_small (399 * 1000000 * (h - 1))) by nia.
    rewrite (i64_small (_ * (h - 1))) by nia.
    assert (0 <= 399 * 1000000 * (h - 1) * (h - 1)) by nia.
    rewrite !Z.quot_div_nonneg by (repeat (apply Z.quot_pos; [|lia]); lia).
    replace (399 * 1000000 * ((h - 1) * (h - 1))) with (399 * 1000000 * (h - 1) * (h - 1)) by ring.
    apply i64_small. assert (0 <= 399 * 1000000 * (h - 1) * (h - 1) / 575 / 575 <= 399 * 1000000).
    { split; [do 2 (apply Z.div_pos; [|lia]); nia|]. do 2 (apply Z.div_le_upper_bound; [lia|]). nia. }
    lia.
  - rewrite i64_small by nia. rewrite Z.quot_div_nonneg by nia. done.
Qed.

Lemma PoSReward_exact age :
  0 <= age <= 27949612232893 ->
  GetProofOfStakeReward age = CENT * age * 33 / (86400 * (365 * 33 + 8)).
Proof.
  intros Ha. unfold GetProofOfStakeReward. change CENT with 10000.
  rewrite (i64_small (10000 * age)), i64_small by lia.
  rewrite !Z.quot_div_nonneg by (repeat (apply Z.quot_pos; [|lia]); lia).
  rewrite !Z.div_div by lia. done.
Qed.

(** *** Minimum work *)

Lemma min_work_loop_spec fuel : forall lim nTime r,
  0 < r -> 0 <= nTime < 2 ^ 63 -> (days_left nTime <= fuel)%nat ->
  Z.min lim (min_work_loop fuel lim nTime r) = Z.min lim (r * 2 ^ Z.of_nat (days_left nTime)).
Proof.
  induction fuel as [|fuel IH]; intros lim nTime r Hr Ht Hf.
  - assert (days_left nTime = 0%nat) as E by lia. cbn [min_work_loop]. rewrite E, Z.mul_1_r. by case_match.
  - cbn [min_work_loop]. destruct (BigNum.comparisons_spec r lim) as (_ & _ & _ & _ & -> & _).
    destruct (Z.ltb_spec 0 nTime) as [Hp|]; cbn [andb].
    2:{ replace nTime with 0 by lia. change (days_left 0) with 0%nat. by rewrite Z.mul_1_r. }
    assert (1 <= 2 ^ Z.of_nat (days_left nTime)).
    { pose proof (Z.pow_pos_nonneg 2 (Z.of_nat (days_left nTime))). lia. }
    destruct (Z.ltb_spec r lim) as [Hlt|]; [|rewrite !Z.min_l by nia; done].
    rewrite BigNum.CBigNum_int_spec by lia. unfold BigNum.op_times. rewrite BN_mul_spec.
    assert (days_left nTime = S (days_left (nTime - 86400))) as E.
    { unfold days_left. replace (nTime + 86399) with (nTime - 86400 + 86399 + 1 * 86400) by lia.
      rewrite Z.div_add by lia. assert (0 <= (nTime - 86400 + 86399) / 86400 \/ nTime - 86400 + 86399 < 0) by
        (destruct (Z.lt_ge_cases (nTime - 86400 + 86399) 0); [by right|left; apply Z.div_pos; lia]).
      destruct (Z.lt_ge_cases (nTime - 86400 + 86399) 0); [lia|].
      assert (0 <= (nTime - 86400 + 86399) / 86400) by (apply Z.div_pos; lia). lia. }
    rewrite i64_small by lia. change (24 * 60 * 60) with 86400.
    destruct (Z.le_gt_cases 0 (nTime - 86400)) as [H0|H0].
    + rewrite IH by lia. rewrite E, Nat2Z.inj_succ, Z.pow_succ_r by lia. f_equal. ring.
    + assert (days_left (nTime - 86400) = 0)%nat as E0.
      { unfold days_left. rewrite Z.div_small by lia. done. }
      rewrite E, E0. destruct fuel; cbn [min_work_loop]; rewrite (proj2 (Z.ltb_ge 0 _)) by lia; cbn [andb]; done.
Qed.

Lemma ComputeMinWork_spec f last nTime :
  0 <= bi_nBits last < 2 ^ 32 -> 0 < BigNum.compact_val (bi_nBits last) -> 0 <= nTime < 2 ^ 63 ->
  let p := net_params f in
  ComputeMinWork p last nTime =
    BigNum.GetCompact (Z.min (bnNewProofOfWorkLimit p)
      (BigNum.compact_val (bi_nBits last) * 2 ^ (1 + (nTime + 86399) / 86400))).
Proof.
  intros Hb Hv Ht p. unfold ComputeMinWork. rewrite u32_small, BigNum.SetCompact_spec, BigNum.CBigNum_int_spec by (done || lia).
  unfold BigNum.op_times. rewrite !BN_mul_spec. set (r := BigNum.compact_val (bi_nBits last)) in *.
  set (lim := bnNewProofOfWorkLimit p).
  pose proof (min_work_loop_spec (days_left nTime) lim nTime (r * 2) ltac:(lia) Ht ltac:(lia)) as E.
  set (w := min_work_loop _ _ _ _) in *. destruct (BigNum.comparisons_spec w lim) as (_ & _ & _ & _ & _ & ->).
  assert (0 <= (nTime + 86399) / 86400) by (apply Z.div_pos; lia).
  replace (r * 2 ^ (1 + (nTime + 86399) / 86400)) with (r * 2 * 2 ^ Z.of_nat (days_left nTime)).
  2:{ unfold days_left. rewrite Z2Nat.id, Z.pow_add_r by lia. change (2 ^ 1) with 2. ring. }
  rewrite <- E. f_equal. destruct (Z.ltb_spec lim w); [by rewrite Z.min_l by lia|by rewrite Z.min_r by lia].
Qed.


(** The median time is the time of one of the last eleven entries, with at
    most half of them before and at most half after it. *)
Lemma GetMedianTimePast_spec chain :
  chain <> [] ->
  let ts := map bi_GetBlockTime (take nMedianTimeSpan chain) in
  let m := GetMedianTimePast chain in
  m ∈ ts /\ (2 * length (filter (fun x => (x < m)%Z) ts) <= length ts)%nat /\
  (2 * length (filter (fun x => (m < x)%Z) ts) <= length ts)%nat.
Proof. intros Hne ts m. apply median_spec. unfold ts. by destruct chain. Qed.

(** *** Doubles that come from integers *)

(** A positive double with a full mantissa. *)
Definition full_mantissa (m : positive) : Prop := 2 ^ 52 <= Z.pos m < 2 ^ 53.

Lemma digits2_pos_bounds m : 2 ^ (Z.pos (digits2_pos m) - 1) <= Z.pos m < 2 ^ Z.pos (digits2_pos m).
Proof.
  induction m as [m IH|m IH|]; cbn [digits2_pos]; [| |lia];
    rewrite Pos2Z.inj_succ, Z.pow_succ_r by lia;
    replace (Z.succ (Z.pos (digits2_pos m)) - 1) with (Z.succ (Z.pos (digits2_pos m) - 1)) by lia;
    rewrite Z.pow_succ_r by lia; lia.
Qed.

Lemma digits2_pos_unique m d : 0 <= d -> 2 ^ (d - 1) <= Z.pos m < 2 ^ d -> Z.pos (digits2_pos m) = d.
Proof.
  intros Hd H. pose proof (digits2_pos_bounds m) as B. set (k := Z.pos (digits2_pos m)) in *.
  assert (0 < k) by (unfold k; lia).
  destruct (Z.lt_trichotomy k d) as [Hl|[|Hl]]; [|done|].
  - assert (2 ^ k <= 2 ^ (d - 1)) by (apply Z.pow_le_mono_r; lia). lia.
  - assert (2 ^ d <= 2 ^ (k - 1)) by (apply Z.pow_le_mono_r; lia). lia.
Qed.

Lemma iter_xO m d : Z.pos (Pos.iter xO m d) = Z.pos m * 2 ^ Z.pos d.
Proof.
  induction d as [|d IH] using Pos.peano_ind; [simpl; lia|].
  rewrite Pos.iter_succ, Pos2Z.inj_succ, Z.pow_succ_r by lia. lia.
Qed.

(** An integer below 2^53 is represented exactly. *)
Lemma dbl_exact s m : Z.pos m < 2 ^ 53 ->
  exists m' e, binary_round 53 1024 s m 0 = S754_finite s m' e /\ full_mantissa m' /\
    -52 <= e <= 0 /\ Z.pos m' = Z.pos m * 2 ^ (- e).
Proof.
  intros Hm. pose proof (digits2_pos_bounds m) as B. set (d := Z.pos (digits2_pos m)) in *.
  assert (1 <= d <= 53) as Hd.
  { split; [unfold d; lia|]. destruct (Z.le_gt_cases d 53); [done|].
    assert (2 ^ 53 <= 2 ^ (d - 1)) by (apply Z.pow_le_mono_r; lia). lia. }
  assert (forall mz, Z.pos mz = Z.pos m * 2 ^ (53 - d) -> full_mantissa mz) as Hfull.
  { intros mz E. unfold full_mantissa. rewrite E. replace 52 with ((d - 1) + (53 - d)) by lia.
    replace (2 ^ 53) with (2 ^ d * 2 ^ (53 - d)) by (rewrite <- Z.pow_add_r by lia; f_equal; lia).
    rewrite Z.pow_add_r by lia. assert (0 < 2 ^ (53 - d)) by (apply Z.pow_pos_nonneg; lia). nia. }
  assert (forall mz, full_mantissa mz ->
    binary_round_aux 53 1024 s (Z.pos mz) (d - 53) loc_Exact = S754_finite s mz (d - 53)) as Haux.
  { intros mz Hz. assert (Zdigits2 (Z.pos mz) = 53) as Hg by (apply digits2_pos_unique; [lia|done]).
    unfold binary_round_aux, shr_fexp. rewrite Hg.
    replace (fexp 53 1024 (53 + (d - 53)) - (d - 53)) with 0 by (unfold fexp, emin; lia).
    cbn [shr shr_record_of_loc loc_of_shr_record round_nearest_even shr_m]. rewrite Hg.
    replace (fexp 53 1024 (53 + (d - 53)) - (d - 53)) with 0 by (unfold fexp, emin; lia).
    cbn [shr shr_record_of_loc shr_m]. rewrite (proj2 (Z.leb_le _ _)) by lia. done. }
  unfold binary_round. fold d.
  replace (fexp 53 1024 (d + 0)) with (d - 53) by (unfold fexp, emin; lia).
  unfold shl_align. destruct (d - 53 - 0) as [|q|q] eqn:Eq; [|lia|].
  - assert (d = 53) as Ed by lia. rewrite Ed in *. exists m, 0.
    assert (full_mantissa m) by (apply Hfull; change (53 - 53) with 0; lia).
    split; [by apply (Haux m)|]. split; [done|]. change (- 0) with 0. lia.
  - assert (Z.pos (Pos.iter xO m q) = Z.pos m * 2 ^ (53 - d)) as E by (rewrite iter_xO; do 2 f_equal; lia).
    exists (Pos.iter xO m q), (d - 53). split; [by apply Haux, Hfull|]. split; [by apply Hfull|].
    split; [lia|]. rewrite E. do 2 f_equal. lia.
Qed.

(** Comparing full mantissas with exponents compares the numbers. *)
Lemma SFltb_full m1 e1 m2 e2 :
  full_mantissa m1 -> full_mantissa m2 -> -60 <= e1 -> -60 <= e2 ->
  SFltb (S754_finite false m1 e1) (S754_finite false m2 e2) = (Z.pos m1 * 2 ^ (e1 + 60) <? Z.pos m2 * 2 ^ (e2 + 60)).
Proof.
  unfold full_mantissa. change (2 ^ 53) with (2 * 2 ^ 52). intros H1 H2 He1 He2. unfold SFltb. cbn [SFcompare].
  assert (forall a b, -60 <= a -> a < b -> 2 * 2 ^ (a + 60) <= 2 ^ (b + 60)) as Hp.
  { intros a b Ha Hab. rewrite <- Z.pow_succ_r by lia. apply Z.pow_le_mono_r; lia. }
  assert (0 < 2 ^ (e1 + 60)) by (apply Z.pow_pos_nonneg; lia).
  assert (0 < 2 ^ (e2 + 60)) by (apply Z.pow_pos_nonneg; lia).
  destruct (Z.compare_spec e1 e2) as [->|Hl|Hl].
  - change (Pos.compare_cont Eq m1 m2) with (Pos.compare m1 m2). symmetry.
    destruct (Pos.compare_spec m1 m2) as [->|Hm|Hm]; [apply Z.ltb_irrefl|apply Z.ltb_lt|apply Z.ltb_ge]; nia.
  - specialize (Hp e1 e2 He1 Hl). symmetry. apply Z.ltb_lt. nia.
  - specialize (Hp e2 e1 He2 Hl). symmetry. apply Z.ltb_ge. nia.
Qed.

(** The floor of a positive double. *)
Lemma dbl_to_int64_floor m e : -60 <= e <= 0 ->
  dbl_to_int64 (S754_finite false m e) = Z.pos m * 2 ^ (e + 60) / 2 ^ 60.
Proof.
  intros He. cbn [dbl_to_int64]. destruct (Z.leb_spec 0 e).
  - assert (e = 0) as -> by lia. change (0 + 60) with 60.
    rewrite Z.div_mul, Z.pow_0_r by done. apply Z.mul_1_r.
  - replace (2 ^ 60) with (2 ^ (e + 60) * 2 ^ (- e)) by (rewrite <- Z.pow_add_r by lia; f_equal; lia).
    rewrite (Z.mul_comm (Z.pos m)), Z.div_mul_cancel_l by (apply Z.pow_nonzero; lia). done.
Qed.

(** Comparisons of an integer with a positive double. *)
Lemma dbl_ltb_l a m e :
  Z.abs a < 2 ^ 53 -> full_mantissa m -> -60 <= e ->
  SFltb (dbl a) (S754_finite false m e) = (a * 2 ^ 60 <? Z.pos m * 2 ^ (e + 60)).
Proof.
  intros Ha Hm He. assert (0 < 2 ^ (e + 60)) by (apply Z.pow_pos_nonneg; lia). destruct a as [|a|a].
  - symmetry. apply Z.ltb_lt. lia.
  - destruct (dbl_exact false a) as (m' & e' & E & Hf & He' & Em); [lia|]. change (dbl (Z.pos a)) with (binary_round 53 1024 false a 0).
    rewrite E, SFltb_full by (done || lia). f_equal. rewrite Em, <- Z.mul_assoc, <- Z.pow_add_r by lia. do 2 f_equal. lia.
  - destruct (dbl_exact true a) as (m' & e' & E & _); [lia|]. change (dbl (Z.neg a)) with (binary_round 53 1024 true a 0).
    rewrite E. symmetry. apply Z.ltb_lt. lia.
Qed.

Lemma dbl_ltb_r a m e :
  Z.abs a < 2 ^ 53 -> full_mantissa m -> -60 <= e ->
  SFltb (S754_finite false m e) (dbl a) = (Z.pos m * 2 ^ (e + 60) <? a * 2 ^ 60).
Proof.
  intros Ha Hm He. assert (0 < 2 ^ (e + 60)) by (apply Z.pow_pos_nonneg; lia). destruct a as [|a|a].
  - symmetry. apply Z.ltb_ge. lia.
  - destruct (dbl_exact false a) as (m' & e' & E & Hf & He' & Em); [lia|]. change (dbl (Z.pos a)) with (binary_round 53 1024 false a 0).
    rewrite E, SFltb_full by (done || lia). f_equal. rewrite Em, <- Z.mul_assoc, <- Z.pow_add_r by lia. do 2 f_equal. lia.
  - destruct (dbl_exact true a) as (m' & e' & E & _); [lia|]. change (dbl (Z.neg a)) with (binary_round 53 1024 true a 0).
    rewrite E. symmetry. apply Z.ltb_ge. lia.
Qed.

(** A double with a full mantissa, as a number scaled by 2^60. *)
Definition scaled (x : spec_float) : option Z :=
  match x with
  | S754_finite false m e =>
      if (2 ^ 52 <=? Z.pos m) && (Z.pos m <? 2 ^ 53) && (-60 <=? e) && (e <=? 0) then Some (Z.pos m * 2 ^ (e + 60)) else None
  | _ => None
  end.

Lemma scaled_spec x v : scaled x = Some v ->
  0 < v /\ dbl_to_int64 x = v / 2 ^ 60 /\
  forall a, Z.abs a < 2 ^ 53 -> SFltb (dbl a) x = (a * 2 ^ 60 <? v) /\ SFltb x (dbl a) = (v <? a * 2 ^ 60).
Proof.
  unfold scaled. destruct x as [| | |[] m e]; try done. case_match eqn:E; [|done]. intros [= <-]. bool_to_prop.
  assert (0 < 2 ^ (e + 60)) by (apply Z.pow_pos_nonneg; lia).
  split; [nia|]. split; [apply dbl_to_int64_floor; lia|]. intros a Ha. split; [apply dbl_ltb_l|apply dbl_ltb_r]; unfold full_mantissa; lia.
Qed.

(** What the two comparisons with doubles do to an integer. *)
Lemma clamp_spec a T n lo hi :
  scaled (ddiv (dbl T) (dMaxAdjust n)) = Some lo -> scaled (dmul (dbl T) (dMaxAdjust n)) = Some hi ->
  Z.abs a < 2 ^ 53 -> lo <= hi < 2 ^ 112 ->
  lo / 2 ^ 60 <= clamp_timespan a T n <= hi / 2 ^ 60 /\
  (lo <= a * 2 ^ 60 <= hi -> clamp_timespan a T n = a).
Proof.
  intros Hlo Hhi Ha Hr. destruct (scaled_spec _ _ Hlo) as (L0 & L1 & L2), (scaled_spec _ _ Hhi) as (H0 & H1 & H2).
  unfold clamp_timespan. rewrite L1, (proj1 (L2 a Ha)).
  assert (0 <= lo / 2 ^ 60) by (apply Z.div_pos; lia).
  assert (lo / 2 ^ 60 <= hi / 2 ^ 60) by (apply Z.div_le_mono; lia).
  assert (hi / 2 ^ 60 < 2 ^ 52) by (apply Z.div_lt_upper_bound; lia).
  destruct (Z.ltb_spec (a * 2 ^ 60) lo).
  - rewrite (proj2 (H2 (lo / 2 ^ 60) ltac:(lia))), H1. assert (2 ^ 60 * (lo / 2 ^ 60) <= lo) by (by apply Z.mul_div_le). split; [|lia].
    rewrite (proj2 (Z.ltb_ge _ _)) by lia. done.
  - rewrite (proj2 (H2 _ Ha)), H1. destruct (Z.ltb_spec hi (a * 2 ^ 60)); [split; lia|].
    assert (lo / 2 ^ 60 <= a) by (apply Z.div_le_upper_bound; lia).
    assert (a <= hi / 2 ^ 60) by (apply Z.div_le_lower_bound; lia). split; [lia|done].
Qed.

(** The bounds for proof-of-stake retargeting, for every number of blocks. *)
Definition stake_bounds_ok (n : Z) : bool :=
  match scaled (ddiv (dbl (n * STAKE_TARGET_SPACING)) (dMaxAdjust n)),
        scaled (dmul (dbl (n * STAKE_TARGET_SPACING)) (dMaxAdjust n)) with
  | Some lo, Some hi =>
      (lo <=? hi) && (hi <? 2 ^ 112) && (120 * n * 24 / (24 + 2 * n) - 1 <=? lo / 2 ^ 60) &&
      (hi / 2 ^ 60 <=? 120 * n * (24 + 2 * n) / 24)
  | _, _ => false
  end.

Lemma stake_bounds_all : forallb (fun n => stake_bounds_ok (Z.of_nat n)) (seq 1 24) = true.
Proof. vm_compute. reflexivity. Qed.

Lemma clamp_stake a n :
  1 <= n <= 24 -> Z.abs a < 2 ^ 53 ->
  120 * n * 24 / (24 + 2 * n) - 1 <= clamp_timespan a (n * STAKE_TARGET_SPACING) n <= 120 * n * (24 + 2 * n) / 24.
Proof.
  intros Hn Ha. pose proof stake_bounds_all as H. rewrite forallb_forall in H.
  specialize (H (Z.to_nat n)). rewrite Z2Nat.id in H by lia. specialize (H ltac:(apply in_seq; lia)).
  unfold stake_bounds_ok in H. destruct (scaled (ddiv _ _)) as [lo|] eqn:E1; [|done]. destruct (scaled (dmul _ _)) as [hi|] eqn:E2; [|done].
  bool_to_prop.
  destruct (clamp_spec a _ _ _ _ E1 E2 Ha) as [B _]; lia.
Qed.

(** *** The averaging loop *)

Section average.
Context (lo hi : Z) (Hlo : 0 < lo).

Definition entry_ok (i : CBlockIndex) : Prop :=
  0 <= bi_nBits i < 2 ^ 32 /\ lo <= BigNum.compact_val (bi_nBits i) <= hi /\ 0 <= bi_nTime i < 2 ^ 32.

Definition past_inv (chain : list CBlockIndex) (st : past) : Prop :=
  0 <= nCountBlocks st <= 24 /\ 0 <= nLastBlockTime st < 2 ^ 32 /\
  Z.abs (nActualTimespan st) <= nCountBlocks st * 2 ^ 32 /\
  (0 < nCountBlocks st -> lo <= bnPastTargetAverage st <= hi /\
     exists j r, pLastBlockReading st = j :: r /\ j ∈ chain).

Lemma average_bounds n avg t :
  0 < n -> lo <= avg <= hi -> lo <= t <= hi -> lo <= (avg * n + t) / (n + 1) <= hi.
Proof. intros Hn Ha Ht. split; [apply Z.div_le_lower_bound|apply Z.div_le_upper_bound]; nia. Qed.

Lemma past_step_spec chain i r st :
  past_inv chain st -> nCountBlocks st < 24 -> entry_ok i -> i ∈ chain ->
  exists st', past_step (i :: r) i st = Some st' /\ past_inv chain st' /\ nCountBlocks st' = nCountBlocks st + 1.
Proof.
  intros (I1 & I2 & I3 & I4) Hc (E1 & E2 & E3) Hi. unfold past_step.
  rewrite BigNum.SetCompact_spec, !BigNum.setint64_spec by (done || lia).
  unfold BigNum.op_plus, BigNum.op_times. rewrite BN_add_spec, BN_mul_spec, BigNum.op_div_spec.
  assert (past_inv chain (mk_past (nCountBlocks st + 1)
    (i64 (nActualTimespan st + (nLastBlockTime st - bi_GetBlockTime i))) (bi_GetBlockTime i) lo (i :: r))) as Hinv.
  { unfold past_inv, bi_GetBlockTime. cbn [nCountBlocks nLastBlockTime nActualTimespan bnPastTargetAverage pLastBlockReading].
    rewrite i64_small by lia. repeat split; try lia. eauto. }
  unfold past_inv in Hinv |- *. cbn [nCountBlocks nLastBlockTime nActualTimespan bnPastTargetAverage pLastBlockReading] in Hinv.
  destruct Hinv as (J1 & J2 & J3 & J4).
  destruct (Z.eqb_spec (nCountBlocks st) 0) as [E0|E0].
  - eexists. split; [reflexivity|]. cbn [nCountBlocks nLastBlockTime nActualTimespan bnPastTargetAverage pLastBlockReading].
    repeat split; try done; try lia. eauto.
  - rewrite (proj2 (Z.eqb_neq _ _)) by lia. eexists. split; [reflexivity|].
    cbn [nCountBlocks nLastBlockTime nActualTimespan bnPastTargetAverage pLastBlockReading].
    destruct (I4 ltac:(lia)) as [Ha _]. rewrite Z.quot_div_nonneg by nia.
    pose proof (average_bounds (nCountBlocks st) (bnPastTargetAverage st) _ ltac:(lia) Ha E2).
    repeat split; try done; try lia. eauto.
Qed.

Lemma GetLastBlockIndex2_suffix f chain :
  GetLastBlockIndex2 chain f `suffix_of` chain /\
  (forall i r, GetLastBlockIndex2 chain f = i :: r -> bi_IsProofOfStake i = f).
Proof.
  induction chain as [|i chain [IH1 IH2]]; cbn [GetLastBlockIndex2]; [done|].
  destruct (Bool.eqb (bi_IsProofOfStake i) f) eqn:E; cbn [negb].
  - split; [done|]. intros ? ? [= <- <-]. by apply eqb_prop.
  - split; [by apply suffix_cons_r|done].
Qed.

(** The loop always returns, has read at least one entry when it entered, and
    its average stays between the smallest and the largest target. *)
Lemma past_loop_spec fuel : forall f chain reading st,
  past_inv chain st -> nCountBlocks st + Z.of_nat fuel <= 24 -> Forall entry_ok chain -> reading `suffix_of` chain ->
  exists st', past_loop fuel f reading st = Some st' /\ past_inv chain st' /\ nCountBlocks st <= nCountBlocks st' /\
    (reading <> [] -> (0 < fuel)%nat -> 1 < GetTypeHeight reading f -> nCountBlocks st < nCountBlocks st').
Proof.
  induction fuel as [|fuel IH]; intros f chain reading st Hi Hf Hc Hs; cbn [past_loop].
  { exists st. split; [done|]. split; [done|]. split; lia. }
  destruct reading as [|i r]; [exists st; split; [done|]; split; [done|]; split; [lia|done]|].
  assert (i ∈ chain) as Hin.
  { destruct Hs as [k ->]. apply elem_of_app. right. by left. }
  destruct (Z.ltb_spec 1 (GetTypeHeight (i :: r) f)); cbn [andb].
  2:{ exists st. split; [done|]. split; [done|]. split; lia. }
  change nPastBlocksMax with 24. rewrite (proj2 (Z.ltb_lt _ _)) by lia.
  destruct (past_step_spec chain i r st Hi ltac:(lia)) as (st' & -> & Hi' & En); [by eapply Forall_forall|done|].
  cbn [mbind option_bind].
  destruct (IH f chain (GetLastBlockIndex2 r f) st') as (st'' & E & Hi'' & Hle & _); [done|lia|done| |].
  { etrans; [apply GetLastBlockIndex2_suffix|]. etrans; [|exact Hs]. by apply suffix_cons_r. }
  exists st''. split; [done|]. split; [done|]. split; [lia|]. intros _ _ _. lia.
Qed.

End average.

(** *** Retargeting *)

Definition stake_height (i : CBlockIndex) : Z := bi_nHeight i - bi_nPoWHeight i.

(** A chain whose targets lie between [lo] and [hi] and whose counters are
    those of a chain: the number of stake blocks never grows towards genesis. *)
Definition chain_ok (lo hi : Z) (chain : list CBlockIndex) : Prop :=
  Forall (entry_ok lo hi) chain /\
  Forall (fun i => 0 <= bi_nPoWHeight i <= bi_nHeight i /\ bi_nHeight i < 2 ^ 31) chain /\
  StronglySorted (fun a b => stake_height b <= stake_height a) chain.

Lemma target_timespan_pos lo hi last pprev f st :
  chain_ok lo hi (last :: pprev) -> past_inv lo hi (last :: pprev) st -> 0 < nCountBlocks st ->
  0 < target_timespan (last :: pprev) f st < 2 ^ 60.
Proof.
  intros (_ & Hh & Hs) (I1 & _ & _ & I4) Hn. destruct (I4 Hn) as (_ & j & r & Ej & Hj).
  unfold target_timespan. change STAKE_TARGET_SPACING with 120. change WORK_TARGET_SPACING with 300.
  change nTargetSpacingWorkMax with 7200. destruct f; [lia|]. cbv zeta. rewrite Ej. cbn [GetTypeHeight].
  assert (0 <= stake_height j <= stake_height last) as Hsh.
  { split; [rewrite Forall_forall in Hh; unfold stake_height; destruct (Hh j Hj); lia|].
    inversion Hs as [|? ? _ Hall]; subst. apply elem_of_cons in Hj. destruct Hj as [->|Hj]; [lia|].
    rewrite Forall_forall in Hall. by apply Hall. }
  unfold stake_height in Hsh. rewrite Forall_forall in Hh. destruct (Hh last ltac:(by left)), (Hh j Hj).
  rewrite !i32_small by lia. destruct (Z.ltb_spec (nCountBlocks st * 7200)
    (nCountBlocks st * 300 + (bi_nHeight last - bi_nPoWHeight last - (bi_nHeight j - bi_nPoWHeight j)) * 120)); lia.
Qed.

(** The new stake target against the average of the old ones. *)
Lemma stake_step_bounds avg ts n :
  0 < avg -> 1 <= n <= 24 ->
  120 * n * 24 / (24 + 2 * n) - 1 <= ts <= 120 * n * (24 + 2 * n) / 24 ->
  avg / 4 <= avg * ts / (n * 120) <= 3 * avg.
Proof.
  intros Ha Hn Ht.
  assert (40 * n <= 120 * n * 24 / (24 + 2 * n)) by (apply Z.div_le_lower_bound; nia).
  assert (120 * n * (24 + 2 * n) / 24 <= 360 * n) by (apply Z.div_le_upper_bound; nia).
  pose proof (Z.mul_div_le avg 4 ltac:(lia)). pose proof (Z.div_pos avg 4 ltac:(lia) ltac:(lia)).
  assert (30 * n <= ts <= 360 * n) by lia.
  split; [apply Z.div_le_lower_bound; [lia|]|apply Z.div_le_upper_bound; [lia|]]; nia.
Qed.

Lemma retarget_stake lim chain lo hi st :
  0 < lo -> past_inv lo hi chain st -> 0 < nCountBlocks st ->
  exists X, retarget lim st (nCountBlocks st * STAKE_TARGET_SPACING) = Some (BigNum.GetCompact (Z.min lim X)) /\
    lo / 4 <= X <= 3 * hi.
Proof.
  intros Hlo (I1 & _ & I3 & I4) Hn. destruct (I4 Hn) as [Havg _]. unfold retarget.
  pose proof (clamp_stake (nActualTimespan st) (nCountBlocks st) ltac:(lia) ltac:(lia)) as B.
  set (ts := clamp_timespan _ _ _) in *.
  pose proof (stake_step_bounds (bnPastTargetAverage st) ts (nCountBlocks st) ltac:(lia) ltac:(lia) B) as S.
  change STAKE_TARGET_SPACING with 120 in *.
  assert (0 <= 120 * nCountBlocks st * 24 / (24 + 2 * nCountBlocks st)) by (apply Z.div_pos; lia).
  assert (120 * nCountBlocks st * (24 + 2 * nCountBlocks st) / 24 <= 10000) by (apply Z.div_le_upper_bound; nia).
  assert (40 <= 120 * nCountBlocks st * 24 / (24 + 2 * nCountBlocks st)) by (apply Z.div_le_lower_bound; nia).
  rewrite !BigNum.setint64_spec by lia. unfold BigNum.op_times. rewrite BN_mul_spec, BigNum.op_div_spec.
  rewrite (proj2 (Z.eqb_neq _ _)) by lia. cbn [mbind option_bind]. rewrite Z.quot_div_nonneg by nia.
  set (X := bnPastTargetAverage st * ts / (nCountBlocks st * 120)) in *. exists X.
  destruct (BigNum.comparisons_spec X lim) as (_ & _ & _ & _ & _ & ->). split.
  - do 2 f_equal. destruct (Z.ltb_spec lim X); lia.
  - assert (lo / 4 <= bnPastTargetAverage st / 4) by (apply Z.div_le_mono; lia). lia.
Qed.

Lemma retarget_some lim st T : 0 < T < 2 ^ 60 -> exists bits, retarget lim st T = Some bits.
Proof.
  intros HT. unfold retarget. rewrite (BigNum.setint64_spec T), BigNum.op_div_spec, (proj2 (Z.eqb_neq T 0)) by lia.
  cbn [mbind option_bind]. eauto.
Qed.
End lemmas.

(** ** Properties *)

Section claims.
Context {L : BNLib} {HL : BNLaws L}.

(** CheckProofOfWork accepts a hash exactly when the compact target is
    positive and at most the network's limit (2^246 - 1, or 2^251 - 1 on the
    test network) and the hash, as a number, does not exceed the target. *)
Theorem CheckProofOfWork_spec f hash nBits :
  Uint.wf 8 hash -> 0 <= nBits < 2 ^ 32 ->
  CheckProofOfWork (net_params f) hash nBits = true <->
  0 < BigNum.compact_val nBits <= 2 ^ (if f then 251 else 246) - 1 /\ Uint.uval hash <= BigNum.compact_val nBits.
Proof. intros Hw Hb. rewrite CheckProofOfWork_iff by done. destruct (net_limits f) as (-> & _). done. Qed.

(** The proof-of-work reward never overflows for any height of an [int]:
    the full subsidy follows the two formulas capped at MAX_MINT_PROOF_OF_WORK,
    never falls up to height 26280 and never rises after it; subtracting the
    stake debt leaves at least a quarter and at most the full subsidy; and
    the genesis reward is one coin. *)
Theorem proof_of_work_reward prev h1 h2 :
  0 <= bi_nPoWHeight prev < 2 ^ 31 -> 0 <= bi_nPoSDebt prev < 2 ^ 62 -> 1 <= h1 <= h2 ->
  GetNextProofOfWorkReward None true = COIN /\
  GetNextProofOfWorkReward (Some prev) false = full_subsidy (bi_nPoWHeight prev + 1) /\
  0 <= full_subsidy (bi_nPoWHeight prev + 1) <= MAX_MINT_PROOF_OF_WORK /\
  GetNextProofOfWorkReward (Some prev) true =
    Z.max (full_subsidy (bi_nPoWHeight prev + 1) / 4) (full_subsidy (bi_nPoWHeight prev + 1) - bi_nPoSDebt prev) /\
  full_subsidy (bi_nPoWHeight prev + 1) / 4 <= GetNextProofOfWorkReward (Some prev) true <= full_subsidy (bi_nPoWHeight prev + 1) /\
  (h2 <= 26280 -> full_subsidy h1 <= full_subsidy h2) /\ (26280 <= h1 -> full_subsidy h2 <= full_subsidy h1).
Proof.
  intros Hh Hd H12. split; [done|]. pose proof (PoWReward_full prev Hh) as E. split; [done|].
  pose proof (full_subsidy_range (bi_nPoWHeight prev + 1) ltac:(lia)) as R. split; [done|].
  change MAX_MINT_PROOF_OF_WORK with 400000000 in R.
  assert (GetNextProofOfWorkReward (Some prev) true =
    Z.max (full_subsidy (bi_nPoWHeight prev + 1) / 4) (full_subsidy (bi_nPoWHeight prev + 1) - bi_nPoSDebt prev)) as Et.
  { change (GetNextProofOfWorkReward (Some prev) true) with
      (Z.max (Z.quot (GetNextProofOfWorkReward (Some prev) false) 4)
         (i64 (GetNextProofOfWorkReward (Some prev) false - bi_nPoSDebt prev))).
    rewrite E, Z.quot_div_nonneg, i64_small by lia. done. }
  split; [done|]. rewrite Et.
  assert (full_subsidy (bi_nPoWHeight prev + 1) / 4 <= full_subsidy (bi_nPoWHeight prev + 1)) by (apply Z.div_le_upper_bound; lia).
  split; [lia|]. split; intros; [apply full_subsidy_rising|apply full_subsidy_falling]; lia.
Qed.

(** The proof-of-stake reward is one cent per coin-year of 365 8/33 days,
    rounded down, for every coin age up to 27949612232893 coin-seconds (about
    5.4 million coins staked for 60 days), and grows with the age; the
    int64 product overflows at the next value, which is rewarded with a
    negative amount. *)
Theorem proof_of_stake_reward age1 age2 :
  0 <= age1 <= age2 -> age2 <= 27949612232893 ->
  GetProofOfStakeReward age2 = CENT * age2 * 33 / (86400 * (365 * 33 + 8)) /\
  0 <= GetProofOfStakeReward age1 <= GetProofOfStakeReward age2 /\
  GetProofOfStakeReward 27949612232894 < 0.
Proof.
  intros H1 H2. rewrite !PoSReward_exact by lia. split; [done|]. split; [|reflexivity].
  change CENT with 10000. split; [apply Z.div_pos; lia|]. apply Z.div_le_mono; lia.
Qed.

(** C32: On a chain with targets between [lo] and [hi], GetNextTargetRequired
    always returns: no division by zero, whatever the timestamps are.  In the
    eight blocks after the switch it returns the new limit, with fewer than
    two counted stake blocks the initial target; otherwise the stake target is
    at least a quarter of [lo], at most three times [hi], and capped by the
    limit of the height, in compact form. *)
Theorem GetNextTargetRequired_bounds f last pprev lo hi fProofOfStake :
  0 < lo -> chain_ok lo hi (last :: pprev) ->
  let p := net_params f in
  let reading := GetLastBlockIndex2 (last :: pprev) true in
  (exists bits, GetNextTargetRequired p last pprev fProofOfStake = Some bits) /\
  (if (8 <=? bi_nHeight last) && (bi_nHeight last <? 16)
   then GetNextTargetRequired p last pprev true = Some (BigNum.GetCompact (bnNewProofOfWorkLimit p))
   else if bool_decide (reading = []) || (GetTypeHeight reading true <? 3)
   then GetNextTargetRequired p last pprev true = Some (BigNum.GetCompact (bnInitialPoSTarget p))
   else exists X, GetNextTargetRequired p last pprev true =
     Some (BigNum.GetCompact (Z.min (GetProofOfWorkLimit p (bi_nHeight last)) X)) /\ lo / 4 <= X <= 3 * hi).
Proof.
  intros Hlo Hc p reading. pose proof Hc as (Hent & _ & _).
  assert (forall stake, let rd := GetLastBlockIndex2 (last :: pprev) stake in
    bool_decide (rd = []) || (GetTypeHeight rd stake - 1 <? nPastBlocksMin) = false ->
    exists st, past_loop (Z.to_nat nPastBlocksMax) stake rd (mk_past 0 0 (bi_GetBlockTime last) 0 []) = Some st /\
      past_inv lo hi (last :: pprev) st /\ 0 < nCountBlocks st) as Hloop.
  { intros stake rd Hb. apply orb_false_iff in Hb as [Hne%bool_decide_eq_false Hth]. change nPastBlocksMin with 2 in Hth.
    apply Z.ltb_ge in Hth. inversion Hent as [|? ? (_ & _ & Ht) _]; subst.
    destruct (past_loop_spec lo hi Hlo (Z.to_nat nPastBlocksMax) stake (last :: pprev) rd
                (mk_past 0 0 (bi_GetBlockTime last) 0 [])) as (st & E & Hi & _ & Hpos);
      [|done|done|apply GetLastBlockIndex2_suffix|].
    { unfold past_inv, bi_GetBlockTime. cbn [nCountBlocks nLastBlockTime nActualTimespan]. repeat split; lia. }
    exists st. split; [done|]. split; [done|]. apply Hpos; [done|unfold nPastBlocksMax; lia|lia]. }
  unfold GetNextTargetRequired. change nPoWSwitchHeight with 8. change (8 + 8) with 16.
  destruct ((8 <=? bi_nHeight last) && (bi_nHeight last <? 16)); [eauto|]. split.
  - destruct (_ || _) eqn:Eb; [eauto|]. destruct (Hloop _ Eb) as (st & -> & Hi & Hn). cbn [mbind option_bind].
    apply retarget_some. by apply (target_timespan_pos lo hi).
  - fold reading. change nPastBlocksMin with 2.
    replace (GetTypeHeight reading true - 1 <? 2) with (GetTypeHeight reading true <? 3)
      by (destruct (Z.ltb_spec (GetTypeHeight reading true) 3), (Z.ltb_spec (GetTypeHeight reading true - 1) 2); lia).
    destruct (_ || _) eqn:Eb; [done|]. destruct (Hloop true) as (st & E & Hi & Hn).
    { fold reading. apply orb_false_iff in Eb as [-> Eb]. change nPastBlocksMin with 2. cbn [orb].
      apply Z.ltb_ge in Eb. apply Z.ltb_ge. lia. }
    fold reading in E. rewrite E. cbn [mbind option_bind]. change (target_timespan (last :: pprev) true st) with (nCountBlocks st * STAKE_TARGET_SPACING).
    by apply (retarget_stake _ (last :: pprev)).
Qed.

End claims.

(** ** Witnesses *)

Definition demo_index (height powheight flags time : Z) : CBlockIndex :=
  mk_index 0 0 height powheight 0 0 0 5 flags 0 0 outpoint_null 0 0 1 0 time 0x1b00ffff 0.

Definition demo_chain : list CBlockIndex :=
  [demo_index 26 20 1 3000; demo_index 25 20 1 2800; demo_index 24 20 1 2600; demo_index 23 20 1 2500;
   demo_index 22 20 0 2400].

Lemma CheckProofOfWork_spec_witness :
  @CheckProofOfWork bn_reference (@net_params bn_reference false) (Uint.of_u64 8 12345) 0x1d00ffff = true.
Proof.
  apply (CheckProofOfWork_spec (HL := bn_reference_laws) false);
    [split; [done|repeat constructor; done]|lia|]. split; [|vm_compute; discriminate].
  split; [reflexivity|vm_compute; discriminate].
Defined.

Lemma proof_of_work_reward_witness :
  GetNextProofOfWorkReward (Some (demo_index 1000 575 0 0)) false = 400 * COIN /\
  GetNextProofOfWorkReward (Some (demo_index 1000 575 0 0)) true = 400 * COIN - 5.
Proof.
  destruct (proof_of_work_reward (demo_index 1000 575 0 0) 1 2) as (_ & E & _ & F & _); [cbn; lia..|].
  rewrite E, F. split; reflexivity.
Defined.

Lemma proof_of_stake_reward_witness : GetProofOfStakeReward (86400 * 365) = 9993.
Proof. destruct (proof_of_stake_reward 0 (86400 * 365)) as [-> _]; [lia|lia|reflexivity]. Defined.

Lemma demo_chain_ok : chain_ok (0xffff * 256 ^ 24) (0xffff * 256 ^ 24) demo_chain.
Proof.
  split; [|split].
  - repeat (apply List.Forall_cons; [unfold entry_ok; cbn -[Z.pow BigNum.compact_val]; split; [lia|];
      split; [vm_compute; split; discriminate|lia]|]). constructor.
  - repeat (apply List.Forall_cons; [cbn -[Z.pow]; lia|]). constructor.
  - repeat (constructor; [|repeat (apply List.Forall_cons; [unfold stake_height; cbn; lia|]); constructor]). constructor.
Qed.

Lemma GetNextTargetRequired_bounds_witness :
  exists X, @GetNextTargetRequired bn_reference (@net_params bn_reference false) (demo_index 26 20 1 3000) (tail demo_chain) true =
    Some (@BigNum.GetCompact bn_reference (Z.min (2 ^ 246 - 1) X)) /\
    0xffff * 256 ^ 24 / 4 <= X <= 3 * (0xffff * 256 ^ 24).
Proof.
  destruct (GetNextTargetRequired_bounds (HL := bn_reference_laws) false (demo_index 26 20 1 3000) (tail demo_chain)
    (0xffff * 256 ^ 24) (0xffff * 256 ^ 24) true) as [_ H]; [reflexivity|exact demo_chain_ok|exact H].
Defined.
End Work.
