(* ===== verification/Block.v ===== *)
(** * Blocks (src/src/main.h, src/src/main.cpp)

    The block with its serialization and identifier, the merkle tree, the
    proof-of-work test and the checks of a block that need no context.  The
    proof-of-work hash itself (the memory-hard function and its signed cache)
    is an argument. *)

From S2P Require Import Prelude Uint256 Bignum Crypto Script Interpreter Serialize Tx Base58 Signature Solver Work.

Record CBlock := mk_block {
  blk_nVersion : Z;
  hashPrevBlock : Z;
  hashMerkleRoot : Z;
  blk_nTime : Z;
  nBits : Z;
  nNonce : Z;
  vtx : list CTransaction;
  vchBlockSig : list Z
}.

Module Block.

Definition null_block : CBlock := mk_block 1 0 0 0 0 0 [] [].
Definition IsNull (b : CBlock) : bool := nBits b =? 0.
Definition GetBlockTime (b : CBlock) : Z := blk_nTime b.

(** ** Serialization *)

Section codecs.
Context {B : Tx.Abi}.

(** The header fields; under SER_GETHASH or SER_BLOCKHEADERONLY nothing else
    is written, and a reader clears the rest. *)
Definition header_codec : Codec (Z * Z * Z * Z * (Z * Z)) :=
  pair_codec (tuple4_codec (int_codec 4) uint256_codec uint256_codec (uint_codec 4)) (pair_codec (uint_codec 4) (uint_codec 4)).

Definition header (b : CBlock) :=
  (blk_nVersion b, hashPrevBlock b, hashMerkleRoot b, blk_nTime b, (nBits b, nNonce b)).

Definition body_codec : Codec (list CTransaction * list Z) :=
  pair_codec (vector_codec Tx.tx_codec Tx.sizeof_CTransaction) bytes_codec.

Definition block_codec : Codec CBlock :=
  class_codec (pair_codec header_codec body_codec)
    (fun p => let '(v, hp, hm, t, (bits, nonce)) := p.1 in mk_block v hp hm t bits nonce p.2.1 p.2.2)
    (fun b => (header b, (vtx b, vchBlockSig b))).

Definition blockheader_codec : Codec CBlock := mk_codec
  (fun b => Serialize.wf header_codec (header b) /\ vtx b = [] /\ vchBlockSig b = [])
  (fun b => GetSerializeSize header_codec (header b))
  (fun b => Serialize header_codec (header b))
  (fun S _ s => '(p, s) ← Unserialize header_codec s;
     let '(v, hp, hm, t, (bits, nonce)) := p in Some (mk_block v hp hm t bits nonce [] [], s)).

End codecs.

(** [Hash(BEGIN(nVersion), END(nNonce))]: the 80 bytes of the header members,
    which are adjacent in memory. *)
Definition header_bytes (b : CBlock) : list Z :=
  le_bytes 4 (blk_nVersion b) ++ le_bytes 32 (hashPrevBlock b) ++ le_bytes 32 (hashMerkleRoot b) ++
  le_bytes 4 (blk_nTime b) ++ le_bytes 4 (nBits b) ++ le_bytes 4 (nNonce b).

Definition IsProofOfStake (b : CBlock) : bool :=
  match vtx b with
  | _ :: t :: _ => Tx.IsCoinStake t
  | _ => false
  end.

Definition IsProofOfWork (b : CBlock) : bool := negb (IsProofOfStake b).

(** [GetProofOfStake]; [vin[0]] exists in a coinstake. *)
Definition GetProofOfStake (b : CBlock) : COutPoint * Z :=
  match vtx b with
  | _ :: t :: _ =>
      if Tx.IsCoinStake t
      then (from_option prevout Tx.outpoint_null (head (vin t)), nTime t)
      else (Tx.outpoint_null, 0)
  | _ => (Tx.outpoint_null, 0)
  end.

Definition GetMaxTransactionTime (b : CBlock) : Z :=
  fold_left (fun m t => Z.max m (nTime t)) (vtx b) 0.

Section hashing.
Context {D : DigestLib}.

Definition GetIDHash (b : CBlock) : Z := le_val (Hash (header_bytes b)).

(** ** The merkle tree *)

(** [Hash(BEGIN(a), END(a), BEGIN(b), END(b))] of two uint256. *)
Definition hash_pair (a b : Z) : Z := le_val (Hash2 (le_bytes 32 a) (le_bytes 32 b)).

(** The inner loop of [BuildMerkleTree]; [cnt] bounds the rounds. *)
Fixpoint build_level (cnt : nat) (j nSize i : Z) (tree : list Z) : list Z :=
  match cnt with
  | O => tree
  | S c =>
      if i <? nSize then
        let i2 := Z.min (i + 1) (nSize - 1) in
        build_level c j nSize (i + 2)
          (tree ++ [hash_pair (rd tree (Z.to_nat (j + i))) (rd tree (Z.to_nat (j + i2)))])
      else tree
  end.

(** The outer loop: nSize at least halves. *)
Fixpoint build_loop (fuel : nat) (j nSize : Z) (tree : list Z) : list Z :=
  if 1 <? nSize then
    match fuel with
    | O => tree
    | S f => build_loop f (j + nSize) ((nSize + 1) / 2) (build_level (Z.to_nat nSize) j nSize 0 tree)
    end
  else tree.

(** vMerkleTree for the transaction hashes, and the root. *)
Definition merkle_tree (hashes : list Z) : list Z :=
  build_loop (length hashes) 0 (Z.of_nat (length hashes)) hashes.

Definition BuildMerkleTree (hashes : list Z) : Z := default 0 (last (merkle_tree hashes)).

Fixpoint branch_loop (fuel : nat) (tree : list Z) (j nSize nIndex : Z) : list Z :=
  if 1 <? nSize then
    match fuel with
    | O => []
    | S f =>
        let i := Z.min (Z.lxor nIndex 1) (nSize - 1) in
        rd tree (Z.to_nat (j + i)) :: branch_loop f tree (j + nSize) ((nSize + 1) / 2) (Z.shiftr nIndex 1)
    end
  else [].

Definition GetMerkleBranch (hashes : list Z) (nIndex : Z) : list Z :=
  branch_loop (length hashes) (merkle_tree hashes) 0 (Z.of_nat (length hashes)) nIndex.

Fixpoint check_branch (hash : Z) (vMerkleBranch : list Z) (nIndex : Z) : Z :=
  match vMerkleBranch with
  | [] => hash
  | otherside :: r =>
      check_branch (if negb (Z.land nIndex 1 =? 0) then hash_pair otherside hash else hash_pair hash otherside)
        r (Z.shiftr nIndex 1)
  end.

Definition CheckMerkleBranch (hash : Z) (vMerkleBranch : list Z) (nIndex : Z) : Z :=
  if nIndex =? -1 then 0 else check_branch hash vMerkleBranch nIndex.

End hashing.

(** ** Checks that need no context *)

(** kernel.cpp: the protocol switches and the coinstake timestamp. *)
Definition IsProtocolV03 (fTestNet : bool) (nTimeCoinStake : Z) : bool :=
  (if fTestNet then 1359781000 else 1363800000) <=? nTimeCoinStake.
Definition IsProtocolV04 (fTestNet : bool) (nTimeBlock : Z) : bool :=
  (if fTestNet then 1395700000 else 1399300000) <=? nTimeBlock.

Definition CheckCoinStakeTimestamp (fTestNet : bool) (nTimeBlock nTimeTx : Z) : bool :=
  if IsProtocolV03 fTestNet (u32 nTimeTx) then nTimeBlock =? nTimeTx
  else (nTimeTx <=? nTimeBlock) && (nTimeBlock <=? nTimeTx + Work.nMaxClockDrift).

Section checks.
Context {B : Tx.Abi} {L : BNLib} {D : DigestLib} {E : ECLib}.
Context (fTestNet : bool) (hashGenesisBlock : Z).

(** [GetStakeEntropyBit]: the lowest bit of the block hash, or before v0.4 the
    highest bit of the hash of the signature. *)
Definition GetStakeEntropyBit (b : CBlock) : Z :=
  if IsProtocolV04 fTestNet (blk_nTime b) then Z.land (u64 (GetIDHash b)) 1
  else u64 (Z.shiftr (le_val (Hash160 (vchBlockSig b))) 159).

(** The output whose key signs the block: [vtx[1].vout[1]] or
    [vtx[0].vout[0]]; [None] where the indices are out of range. *)
Definition signing_output (b : CBlock) : option CTxOut :=
  if IsProofOfStake b then t ← vtx b !! 1%nat; vout t !! 1%nat
  else t ← vtx b !! 0%nat; vout t !! 0%nat.

Definition CheckBlockSignature (b : CBlock) : bool :=
  if GetIDHash b =? hashGenesisBlock then bool_decide (vchBlockSig b = [])
  else
    match signing_output b with
    | None => false
    | Some txout =>
        let r := Solve.Solver (scriptPubKey txout) in
        if negb (Solve.sol_ok r) then false
        else if bool_decide (Solve.sol_type r = Solve.TX_PUBKEY) then
          let vchPubKey := default [] (head (Solve.sol_sols r)) in
          match Sig.SetPubKey vchPubKey with
          | None => false
          | Some key =>
              if bool_decide (vchBlockSig b = []) then false
              else Sig.Verify key (GetIDHash b) (vchBlockSig b)
          end
        else false
    end.

(** [SignBlock] with the keys of a store, looked up by the key's hash. *)
Definition SignBlock {K : Type} `{Solve.KeyStore K} (keystore : K) (b : CBlock) : option CBlock :=
  txout ← signing_output b;
  let r := Solve.Solver (scriptPubKey txout) in
  if negb (Solve.sol_ok r) then None
  else if bool_decide (Solve.sol_type r = Solve.TX_PUBKEY) then
    let vchPubKey := default [] (head (Solve.sol_sols r)) in
    let address := Base58.SetPubKey fTestNet vchPubKey in
    sign ← Solve.GetKey keystore address;
    pub ← Solve.GetPubKey keystore address;
    if negb (bool_decide (pub = vchPubKey)) then None
    else
      sig ← sign (GetIDHash b);
      Some (mk_block (blk_nVersion b) (hashPrevBlock b) (hashMerkleRoot b) (blk_nTime b) (nBits b) (nNonce b) (vtx b) sig)
  else None.

(** The loop over the transactions: CheckTransaction and the timestamps. *)
Fixpoint check_txs (nBlockTime : Z) (l : list CTransaction) : Tx.check :=
  match l with
  | [] => Tx.CheckOk
  | t :: l' =>
      match Tx.CheckTransaction t with
      | Tx.CheckOk => if nBlockTime <? nTime t then Tx.CheckFailed 50 else check_txs nBlockTime l'
      | r => r
      end
  end.

(** [CheckBlock(fCheckPoWHash)]; [now] is GetAdjustedTime() and [GetPoWHash]
    the proof-of-work hash, when it can be computed. *)
Definition CheckBlock (now : Z) (GetPoWHash : CBlock -> option (list Z)) (fCheckPoWHash : bool) (b : CBlock) : Tx.check :=
  match vtx b with
  | [] => Tx.CheckFailed 100
  | coinbase :: rest =>
      if MAX_BLOCK_SIZE <? Z.of_nat (length (vtx b)) then Tx.CheckFailed 100
      else
        match GetSerializeSize block_codec b with
        | None => Tx.CheckThrown
        | Some size =>
            if MAX_BLOCK_SIZE <? size then Tx.CheckFailed 100
            else if now + Work.nMaxClockDrift <? GetBlockTime b then Tx.CheckFailed 0
            else if negb (Tx.IsCoinBase coinbase) then Tx.CheckFailed 100
            else if existsb Tx.IsCoinBase rest then Tx.CheckFailed 100
            else if existsb Tx.IsCoinStake (drop 1 rest) then Tx.CheckFailed 100
            else if nTime coinbase + Work.nMaxClockDrift <? GetBlockTime b then Tx.CheckFailed 50
            else if IsProofOfStake b && negb (CheckCoinStakeTimestamp fTestNet (GetBlockTime b) (from_option nTime 0 (head rest)))
            then Tx.CheckFailed 50
            else
              match check_txs (GetBlockTime b) (vtx b) with
              | Tx.CheckOk =>
                  match mapM Tx.GetHash (vtx b) with
                  | None => Tx.CheckThrown
                  | Some hashes =>
                      if negb (bool_decide (length (remove_dups hashes) = length (vtx b))) then Tx.CheckFailed 100
                      else if MAX_BLOCK_SIGOPS <? fold_left (fun k t => u32 (k + Tx.GetLegacySigOpCount t)) (vtx b) 0
                      then Tx.CheckFailed 100
                      else if negb (hashMerkleRoot b =? BuildMerkleTree hashes) then Tx.CheckFailed 100
                      else if negb (CheckBlockSignature b) then Tx.CheckFailed 100
                      else if IsProofOfWork b && fCheckPoWHash then
                        match GetPoWHash b with
                        | None => Tx.CheckFailed 0
                        | Some powHash =>
                            if negb (Work.CheckProofOfWork (Work.net_params fTestNet) powHash (nBits b))
                            then Tx.CheckFailed 500 else Tx.CheckOk
                        end
                      else Tx.CheckOk
                  end
              | r => r
              end
        end
  end.

End checks.

(** ** Correctness of the merkle tree *)

Section merkle.
Context {D : DigestLib}.

(** One level up. *)
Fixpoint next_level (l : list Z) : list Z :=
  match l with
  | a :: b :: r => hash_pair a b :: next_level r
  | [a] => [hash_pair a a]
  | [] => []
  end.

Lemma list_ind2 {A} (P : list A -> Prop) :
  P [] -> (forall a, P [a]) -> (forall a b l, P l -> P (a :: b :: l)) -> forall l, P l.
Proof.
  intros H0 H1 H2 l. assert (P l /\ forall a, P (a :: l)) as [? _]; [|done].
  induction l as [|x l [IH1 IH2]]; [auto|]. split; [apply IH2|]. intros a. by apply H2.
Qed.

Lemma length_next_level l : Z.of_nat (length (next_level l)) = (Z.of_nat (length l) + 1) / 2.
Proof.
  induction l as [|a|a b l IH] using list_ind2; [done..|]. cbn [next_level length].
  rewrite !Nat2Z.inj_succ, IH. replace (Z.succ (Z.succ (Z.of_nat (length l))) + 1) with (Z.of_nat (length l) + 1 + 1 * 2) by lia.
  rewrite Z.div_add by lia. lia.
Qed.

Lemma rd_app_l l1 l2 i : (i < length l1)%nat -> rd (l1 ++ l2) i = rd l1 i.
Proof. intros Hi. unfold rd. by rewrite lookup_app_l. Qed.

Lemma rd_app_r l1 l2 i : rd (l1 ++ l2) (length l1 + i) = rd l2 i.
Proof. unfold rd. rewrite lookup_app_r by lia. do 2 f_equal. lia. Qed.

(** The inner loop appends the next level of the slice it reads: [done] of it
    has been read, [l] is to come. *)
Lemma build_level_spec cnt : forall pre seen l post,
  (length l <= cnt)%nat ->
  build_level cnt (Z.of_nat (length pre)) (Z.of_nat (length seen + length l)) (Z.of_nat (length seen))
    (pre ++ seen ++ l ++ post) = pre ++ seen ++ l ++ post ++ next_level l.
Proof.
  induction cnt as [|cnt IH]; intros pre seen l post Hc.
  { destruct l; [|simpl in Hc; lia]. simpl. by rewrite app_nil_r. }
  cbn [build_level]. destruct l as [|a [|b l]].
  - rewrite Nat.add_0_r, Z.ltb_irrefl. simpl. by rewrite app_nil_r.
  - rewrite (proj2 (Z.ltb_lt _ _)) by (simpl; lia). cbv zeta.
    rewrite Z.min_r by (simpl; lia).
    set (T := pre ++ seen ++ [a] ++ post).
    assert (rd T (Z.to_nat (Z.of_nat (length pre) + Z.of_nat (length seen))) = a) as Ea.
    { replace (Z.to_nat _) with (length pre + length seen)%nat by lia.
      unfold T. rewrite rd_app_r. simpl. apply rd_app_mid. }
    rewrite Ea. replace (Z.of_nat (length pre) + (Z.of_nat (length seen + length [a]) - 1))
      with (Z.of_nat (length pre) + Z.of_nat (length seen)) by (simpl; lia). rewrite Ea.
    destruct cnt as [|cnt]; cbn [build_level].
    + unfold T. cbn [next_level app]. rewrite <- ?app_assoc. simpl. by rewrite <- ?app_assoc.
    + rewrite (proj2 (Z.ltb_ge _ _)) by (simpl; lia). unfold T. cbn [next_level app].
      rewrite <- ?app_assoc. simpl. by rewrite <- ?app_assoc.
  - rewrite (proj2 (Z.ltb_lt _ _)) by (simpl; lia). cbv zeta.
    rewrite Z.min_l by (simpl; lia).
    set (T := pre ++ seen ++ (a :: b :: l) ++ post).
    assert (rd T (Z.to_nat (Z.of_nat (length pre) + Z.of_nat (length seen))) = a) as ->.
    { replace (Z.to_nat _) with (length pre + length seen)%nat by lia. unfold T. rewrite rd_app_r. apply rd_app_mid. }
    assert (rd T (Z.to_nat (Z.of_nat (length pre) + (Z.of_nat (length seen) + 1))) = b) as ->.
    { replace (Z.to_nat _) with (length pre + (length (seen ++ [a]) + 0))%nat by (rewrite length_app; simpl; lia).
      unfold T. rewrite rd_app_r.
      replace (seen ++ (a :: b :: l) ++ post) with ((seen ++ [a]) ++ (b :: l ++ post)) by (by rewrite <- app_assoc).
      by rewrite rd_app_r. }
    specialize (IH pre (seen ++ [a; b]) l (post ++ [hash_pair a b])).
    assert (T ++ [hash_pair a b] = pre ++ (seen ++ [a; b]) ++ l ++ post ++ [hash_pair a b]) as ->.
    { unfold T. rewrite <- ?app_assoc. simpl. by rewrite <- ?app_assoc. }
    replace (Z.of_nat (length seen + length (a :: b :: l))) with (Z.of_nat (length (seen ++ [a; b]) + length l))
      by (rewrite length_app; simpl; lia).
    replace (Z.of_nat (length seen) + 2) with (Z.of_nat (length (seen ++ [a; b]))) by (rewrite length_app; simpl; lia).
    rewrite IH by (simpl in Hc; lia). cbn [next_level]. rewrite <- ?app_assoc. simpl. by rewrite <- ?app_assoc.
Qed.

(** The tree, level by level. *)
Fixpoint levels (fuel : nat) (l : list Z) : list Z :=
  match fuel with
  | S f => if bool_decide (1 < length l)%nat then l ++ levels f (next_level l) else l
  | O => l
  end.

Lemma build_loop_spec fuel : forall pre l,
  build_loop fuel (Z.of_nat (length pre)) (Z.of_nat (length l)) (pre ++ l) = pre ++ levels fuel l.
Proof.
  induction fuel as [|fuel IH]; intros pre l; simpl; [by case_match|].
  case_bool_decide as Hl.
  - rewrite (proj2 (Z.ltb_lt 1 _)) by lia. rewrite Nat2Z.id.
    pose proof (build_level_spec (length l) pre [] l [] ltac:(lia)) as E. simpl in E. change (Z.of_nat 0) with 0 in E.
    rewrite app_nil_r in E. rewrite E. rewrite app_assoc. replace (Z.of_nat (length pre) + Z.of_nat (length l)) with (Z.of_nat (length (pre ++ l)))
      by (rewrite length_app; lia).
    rewrite <- length_next_level, IH, <- app_assoc. done.
  - by rewrite (proj2 (Z.ltb_ge 1 _)) by lia.
Qed.

Lemma merkle_tree_levels l : merkle_tree l = levels (length l) l.
Proof. apply (build_loop_spec (length l) [] l). Qed.

Lemma next_level_shorter l : (1 < length l)%nat -> (length (next_level l) < length l)%nat.
Proof.
  intros Hl. pose proof (length_next_level l). assert ((Z.of_nat (length l) + 1) / 2 < Z.of_nat (length l)); [|lia].
  apply Z.div_lt_upper_bound; lia.
Qed.

(** Flipping the lowest bit goes to the other element of a pair. *)
Lemma lxor_1_of_nat i : Z.lxor (Z.of_nat i) 1 = if Nat.odd i then Z.of_nat i - 1 else Z.of_nat i + 1.
Proof.
  assert (forall k, Z.lxor (2 * k) 1 = 2 * k + 1) as He.
  { intros k. rewrite Z.add_nocarry_lxor; [done|]. change (Z.land (2 * k) (Z.ones 1) = 0).
    rewrite Z.land_ones, Z.mul_comm by lia. apply Z.mod_mul. lia. }
  destruct (Nat.Even_or_Odd i) as [[k ->]|[k ->]].
  - rewrite Nat.odd_mul, andb_false_l, Nat2Z.inj_mul. apply He.
  - rewrite Nat.odd_add, Nat.odd_mul, andb_false_l. cbn [xorb Nat.odd Nat.even negb].
    rewrite Nat2Z.inj_add, Nat2Z.inj_mul. change (Z.of_nat 2) with 2. change (Z.of_nat 1) with 1.
    rewrite <- He, Z.lxor_assoc, Z.lxor_nilpotent, Z.lxor_0_r, He. lia.
Qed.

Lemma land_1_of_nat i : negb (Z.land (Z.of_nat i) 1 =? 0) = Nat.odd i.
Proof.
  change 1 with (Z.ones 1). rewrite Z.land_ones by lia. change (2 ^ 1) with 2.
  destruct (Nat.Even_or_Odd i) as [[k ->]|[k ->]].
  - rewrite Nat.odd_mul, andb_false_l, Nat2Z.inj_mul, Z.mul_comm. by rewrite Z.mod_mul.
  - rewrite Nat.odd_add, Nat.odd_mul, andb_false_l, Nat2Z.inj_add, Nat2Z.inj_mul, Z.add_comm, Z.mul_comm.
    by rewrite Z.mod_add.
Qed.

(** The parent of an element. *)
Lemma next_level_parent l : forall i, (i < length l)%nat ->
  let sib := Z.to_nat (Z.min (Z.lxor (Z.of_nat i) 1) (Z.of_nat (length l) - 1)) in
  rd (next_level l) (i / 2) =
    if Nat.odd i then hash_pair (rd l sib) (rd l i) else hash_pair (rd l i) (rd l sib).
Proof.
  induction l as [|a|a b l IH] using list_ind2; intros i Hi; [simpl in Hi; lia| |].
  { destruct i as [|i]; [done|simpl in Hi; lia]. }
  destruct i as [|[|i]].
  - cbv zeta. change (Z.lxor (Z.of_nat 0) 1) with 1.
    replace (Z.to_nat _) with 1%nat by (cbn [length]; lia). done.
  - cbv zeta. change (Z.lxor (Z.of_nat 1) 1) with 0.
    replace (Z.to_nat _) with 0%nat by (cbn [length]; lia). done.
  - assert (i < length l)%nat as Hi' by (simpl in Hi; lia). specialize (IH i Hi'). cbv zeta in IH |- *.
    replace (Z.to_nat (Z.min (Z.lxor (Z.of_nat (S (S i))) 1) (Z.of_nat (length (a :: b :: l)) - 1)))
      with (S (S (Z.to_nat (Z.min (Z.lxor (Z.of_nat i) 1) (Z.of_nat (length l) - 1))))).
    2:{ rewrite !lxor_1_of_nat. change (Nat.odd (S (S i))) with (Nat.odd i). cbn [length].
        assert (Nat.odd i = true -> (0 < i)%nat) by (destruct i; [done|lia]). destruct (Nat.odd i); lia. }
    change (Nat.odd (S (S i))) with (Nat.odd i). replace (S (S i) / 2)%nat with (S (i / 2))%nat; [done|].
    replace (S (S i)) with (i + 1 * 2)%nat by lia. rewrite Nat.div_add by lia. lia.
Qed.

Lemma rd_levels fuel l i : (i < length l)%nat -> rd (levels fuel l) i = rd l i.
Proof. intros Hi. destruct fuel; simpl; [done|]. case_bool_decide; [|done]. by apply rd_app_l. Qed.

Lemma next_level_nonempty l : l <> [] -> next_level l <> [].
Proof. destruct l as [|a [|b l]]; done. Qed.

(** Climbing the tree from any leaf with the branch of that leaf reaches the
    last element of the tree. *)
Lemma branch_climbs fuel : forall pre l i,
  (length l <= S fuel)%nat -> (i < length l)%nat ->
  last (levels fuel l) =
    Some (check_branch (rd l i) (branch_loop fuel (pre ++ levels fuel l) (Z.of_nat (length pre)) (Z.of_nat (length l)) (Z.of_nat i))
            (Z.of_nat i)).
Proof.
  induction fuel as [|fuel IH]; intros pre l i Hf Hi.
  { destruct l as [|a [|b l]]; [simpl in Hi; lia| |simpl in Hf; lia]. assert (i = 0)%nat as -> by (simpl in Hi; lia). done. }
  cbn [levels branch_loop]. case_bool_decide as Hl.
  2:{ rewrite (proj2 (Z.ltb_ge 1 _)) by lia. destruct l as [|a [|b l]]; [simpl in Hi; lia| |simpl in Hl; lia].
      assert (i = 0)%nat as -> by (simpl in Hi; lia). done. }
  rewrite (proj2 (Z.ltb_lt 1 _)) by lia. cbv zeta. cbn [check_branch].
  pose proof (next_level_shorter l Hl) as Hsh. pose proof (length_next_level l) as Hn.
  assert (i / 2 < length (next_level l))%nat as Hi2.
  { apply Nat2Z.inj_lt. rewrite Hn, Nat2Z.inj_div. change (Z.of_nat 2) with 2.
    apply Z.div_lt_upper_bound; [lia|]. pose proof (Z.div_mod (Z.of_nat (length l) + 1) 2).
    pose proof (Z.mod_pos_bound (Z.of_nat (length l) + 1) 2). lia. }
  rewrite last_app. rewrite (IH (pre ++ l) (next_level l) (i / 2)%nat) by lia. f_equal.
  rewrite Z.shiftr_div_pow2 by lia. change (2 ^ 1) with 2.
  replace (Z.of_nat i / 2) with (Z.of_nat (i / 2)) by (rewrite Nat2Z.inj_div; done).
  rewrite app_assoc, <- Hn. replace (Z.of_nat (length pre) + Z.of_nat (length l)) with (Z.of_nat (length (pre ++ l)))
    by (rewrite length_app; lia).
  f_equal. rewrite next_level_parent by done. cbv zeta.
  set (sib := Z.min _ _).
  assert (0 <= sib < Z.of_nat (length l)) as Hs.
  { unfold sib. rewrite lxor_1_of_nat. assert (Nat.odd i = true -> (0 < i)%nat) by (destruct i; [done|lia]).
    destruct (Nat.odd i); lia. }
  assert (rd ((pre ++ l) ++ levels fuel (next_level l)) (Z.to_nat (Z.of_nat (length pre) + sib)) = rd l (Z.to_nat sib)) as ->.
  { replace (Z.to_nat (Z.of_nat (length pre) + sib)) with (length pre + Z.to_nat sib)%nat by lia.
    rewrite <- app_assoc, rd_app_r. apply rd_app_l. lia. }
  rewrite land_1_of_nat. by destruct (Nat.odd i).
Qed.

Lemma branch_to_root (hashes : list Z) (i : nat) :
  (i < length hashes)%nat ->
  CheckMerkleBranch (rd hashes i) (GetMerkleBranch hashes (Z.of_nat i)) (Z.of_nat i) = BuildMerkleTree hashes.
Proof.
  intros Hi. unfold CheckMerkleBranch, GetMerkleBranch, BuildMerkleTree.
  rewrite (proj2 (Z.eqb_neq _ _)) by lia. rewrite merkle_tree_levels.
  by rewrite (branch_climbs (length hashes) [] hashes i) by lia.
Qed.

(** C29: The branch that GetMerkleBranch extracts for a transaction of a
    block leads CheckMerkleBranch from the transaction's hash to the root
    that BuildMerkleTree returns, for every number of transactions and every
    index in range (the last element of an odd level paired with itself
    included); and an index of -1 is answered with zero. *)
Theorem merkle_branch_correct (hashes branch : list Z) (i : nat) :
  (i < length hashes)%nat ->
  CheckMerkleBranch (rd hashes i) (GetMerkleBranch hashes (Z.of_nat i)) (Z.of_nat i) = BuildMerkleTree hashes /\
  CheckMerkleBranch (rd hashes i) branch (-1) = 0.
Proof. intros Hi. split; [by apply branch_to_root|done]. Qed.

End merkle.

(** ** Serialization laws *)

Section laws.
Context {B : Tx.Abi} {HB : Tx.AbiLaws B}.

#[global] Instance header_lawful : Lawful header_codec.
Proof. apply _. Qed.

#[global] Instance body_lawful : Lawful body_codec.
Proof. pose proof (vector_lawful Tx.tx_codec Tx.sizeof_CTransaction Tx.abi_CTransaction). apply _. Qed.

#[global] Instance block_lawful : Lawful block_codec.
Proof. apply class_lawful; [by intros []|apply _]. Qed.

(** The bytes of the header members in memory are its serialization. *)
Lemma header_bytes_serialized b :
  Serialize header_codec (header b) = Some (header_bytes b).
Proof.
  unfold header_bytes, header_codec, tuple4_codec, tuple3_codec, uint256_codec, header.
  cbn [Serialize pair_codec uint_codec int_codec mbind option_bind fst snd]. by rewrite <- !app_assoc.
Qed.

End laws.

(** ** What CheckBlock establishes *)

Section claims.
Context {B : Tx.Abi} {HB : Tx.AbiLaws B} {L : BNLib} {HL : BNLaws L} {D : DigestLib} {E : ECLib}.
Context (fTestNet : bool) (hashGenesisBlock now : Z) (GetPoWHash : CBlock -> option (list Z)).

(** What a block that passes the checks satisfies. *)
Record block_checked (fCheckPoWHash : bool) (b : CBlock) : Prop := {
  bck_size : exists k, GetSerializeSize block_codec b = Some k /\ k <= MAX_BLOCK_SIZE;
  bck_coinbase : exists t r, vtx b = t :: r /\ Tx.IsCoinBase t = true /\
    Forall (fun t' => Tx.IsCoinBase t' = false) r /\ Forall (fun t' => Tx.IsCoinStake t' = false) (drop 1 r) /\
    blk_nTime b <= nTime t + Work.nMaxClockDrift;
  bck_time : blk_nTime b <= now + Work.nMaxClockDrift;
  bck_txs : Forall (fun t => Tx.checked t /\ nTime t <= blk_nTime b) (vtx b);
  bck_stake : IsProofOfStake b = true -> exists t, vtx b !! 1%nat = Some t /\ Tx.IsCoinStake t = true /\
    CheckCoinStakeTimestamp fTestNet (blk_nTime b) (nTime t) = true;
  bck_merkle : exists hashes, mapM Tx.GetHash (vtx b) = Some hashes /\ NoDup hashes /\
    hashMerkleRoot b = BuildMerkleTree hashes;
  bck_sigops : fold_left (fun k t => u32 (k + Tx.GetLegacySigOpCount t)) (vtx b) 0 <= MAX_BLOCK_SIGOPS;
  bck_output : is_Some (signing_output b);
  bck_signature : CheckBlockSignature hashGenesisBlock b = true;
  bck_work : IsProofOfStake b = false -> fCheckPoWHash = true ->
    exists h, GetPoWHash b = Some h /\ Work.CheckProofOfWork (Work.net_params fTestNet) h (nBits b) = true
}.

Lemma check_txs_ok time l :
  check_txs time l = Tx.CheckOk -> Forall (fun t => Tx.checked t /\ nTime t <= time) l.
Proof.
  induction l as [|t l IH]; cbn [check_txs]; [constructor|]. destruct (Tx.CheckTransaction t) eqn:Et; try done.
  destruct (Z.ltb_spec time (nTime t)); [done|]. intros Hl. constructor; [|auto]. split; [|lia].
  by apply Tx.CheckTransaction_checked.
Qed.

Lemma remove_dups_length_NoDup (l : list Z) : length (remove_dups l) = length l -> NoDup l.
Proof.
  induction l as [|x l IH]; cbn; [constructor|].
  assert (length (remove_dups l) <= length l)%nat as Hle.
  { clear. induction l as [|y l IH]; cbn; [lia|]. destruct (decide_rel _ _ _); cbn; lia. }
  destruct (decide_rel _ x l) as [Hx|Hx]; cbn; intros H; [lia|]. constructor; [done|]. apply IH. lia.
Qed.

(** The output that CheckBlockSignature reads exists. *)
Lemma signing_output_exists b t r :
  vtx b = t :: r -> Tx.IsCoinBase t = true -> is_Some (signing_output b).
Proof.
  intros Ev Hc. unfold signing_output, IsProofOfStake. rewrite Ev. destruct r as [|t' r]; [|destruct (Tx.IsCoinStake t') eqn:Es]; cbn.
  1,3: unfold Tx.IsCoinBase in Hc; destruct (vin t) as [|i [|]]; try done; apply andb_true_iff in Hc as [_ Hc%bool_decide_eq_true];
    destruct (vout t); [simpl in Hc; lia|eauto].
  unfold Tx.IsCoinStake in Es. destruct (vin t') as [|i v]; [done|]. destruct (vout t') as [|o [|o' l]]; [done..|]. eauto.
Qed.

Lemma CheckBlock_checked fCheckPoWHash b :
  CheckBlock fTestNet hashGenesisBlock now GetPoWHash fCheckPoWHash b = Tx.CheckOk -> block_checked fCheckPoWHash b.
Proof.
  unfold CheckBlock. destruct (vtx b) as [|cb rest] eqn:Ev; [done|].
  destruct (MAX_BLOCK_SIZE <? _) eqn:E1; [done|].
  destruct (GetSerializeSize block_codec b) as [size|] eqn:Es; [|done].
  destruct (Z.ltb_spec MAX_BLOCK_SIZE size); [done|].
  destruct (Z.ltb_spec (now + Work.nMaxClockDrift) (GetBlockTime b)); [done|].
  destruct (Tx.IsCoinBase cb) eqn:Ecb; cbn [negb]; [|done].
  destruct (existsb Tx.IsCoinBase rest) eqn:E2; [done|]. apply Tx.existsb_Forall in E2.
  destruct (existsb Tx.IsCoinStake (drop 1 rest)) eqn:E3; [done|]. apply Tx.existsb_Forall in E3.
  destruct (Z.ltb_spec (nTime cb + Work.nMaxClockDrift) (GetBlockTime b)); [done|].
  destruct (_ && negb (CheckCoinStakeTimestamp _ _ _)) eqn:E4; [done|].
  destruct (check_txs _ _) eqn:E5; try done. apply check_txs_ok in E5.
  destruct (mapM Tx.GetHash (cb :: rest)) as [hashes|] eqn:E6; [|done].
  case_bool_decide as E7; cbn [negb]; [|done].
  destruct (Z.ltb_spec MAX_BLOCK_SIGOPS (fold_left (fun k t => u32 (k + Tx.GetLegacySigOpCount t)) (cb :: rest) 0)); [done|].
  destruct (Z.eqb_spec (hashMerkleRoot b) (BuildMerkleTree hashes)); cbn [negb]; [|done].
  destruct (CheckBlockSignature hashGenesisBlock b) eqn:E8; cbn [negb]; [|done]. intros Hw.
  split; rewrite ?Ev; try done; try lia; eauto 10.
  - intros Hps. rewrite Hps in E4. cbn [andb] in E4. unfold IsProofOfStake in Hps. rewrite Ev in Hps.
    destruct rest as [|t rest]; [done|]. exists t. split; [done|]. split; [done|]. by apply negb_false_iff in E4.
  - exists hashes. split; [done|]. split; [|done]. apply remove_dups_length_NoDup. rewrite E7.
    by apply length_mapM in E6.
  - by eapply signing_output_exists.
  - intros Hps Hf. unfold IsProofOfWork in Hw. rewrite Hps, Hf in Hw. cbn [negb andb] in Hw.
    destruct (GetPoWHash b) as [h|]; [|done]. exists h. split; [done|]. by destruct (Work.CheckProofOfWork _ h _).
Qed.

(** C13: A block that CheckBlock accepts has at most MAX_BLOCK_SIZE bytes,
    starts with its only coinbase, has a coinstake only in second place,
    contains only transactions that pass CheckTransaction and are not newer
    than the block, with distinct hashes and a bounded signature operation
    count; its timestamp is within the allowed drift; it is signed (or the
    genesis block); a proof-of-work block meets its target when that is
    checked; and the merkle branch of every transaction leads from the
    transaction's hash to the merkle root of the header. *)
Theorem CheckBlock_sound fCheckPoWHash b :
  CheckBlock fTestNet hashGenesisBlock now GetPoWHash fCheckPoWHash b = Tx.CheckOk ->
  block_checked fCheckPoWHash b /\
  exists hashes, mapM Tx.GetHash (vtx b) = Some hashes /\
    forall i t, vtx b !! i = Some t -> exists h, Tx.GetHash t = Some h /\
      CheckMerkleBranch h (GetMerkleBranch hashes (Z.of_nat i)) (Z.of_nat i) = hashMerkleRoot b.
Proof.
  intros H%CheckBlock_checked. split; [done|]. destruct (bck_merkle _ _ H) as (hashes & Eh & _ & Er).
  exists hashes. split; [done|]. intros i t Ht. pose proof (mapM_Some_1 _ _ _ Eh) as F2.
  destruct (Forall2_lookup_l _ _ _ _ _ F2 Ht) as (h & Hh & Eht). exists h. split; [done|].
  rewrite Er. assert (rd hashes i = h) as <- by (unfold rd; by rewrite Hh).
  apply branch_to_root. by eapply lookup_lt_Some.
Qed.

(** A well formed block is serialized and read back exactly, with its
    size reported, and its header alone likewise; the identifier of a block is
    the double SHA-256 of the serialized header, so it depends on nothing
    but the six header fields. *)
Theorem block_round_trip b b' tail :
  Serialize.wf block_codec b ->
  (exists bs, Serialize block_codec b = Some bs /\ GetSerializeSize block_codec b = Some (u32 (Z.of_nat (length bs))) /\
     Unserialize block_codec (bs ++ tail) = Some (b, tail)) /\
  (exists hs, Serialize header_codec (header b) = Some hs /\ length hs = 80%nat /\ GetIDHash b = le_val (Hash hs) /\
     Unserialize header_codec (hs ++ tail) = Some (header b, tail)) /\
  (header b = header b' -> GetIDHash b = GetIDHash b').
Proof.
  intros Hw. destruct (block_lawful b Hw) as (bs & E1 & _ & E2 & R). split; [|split].
  - exists bs. split; [done|]. split; [done|].
    by destruct (R _ _ list_stream_laws (bs ++ tail) tail Logic.I eq_refl) as (s & Es & <- & _).
  - destruct Hw as [Hh _]. destruct (header_lawful (header b) Hh) as (hs & F1 & _ & F2 & R').
    exists hs. split; [done|]. rewrite header_bytes_serialized in F1. injection F1 as <-.
    split; [unfold header_bytes; by rewrite !length_app, !length_le_bytes|]. split; [done|].
    by destruct (R' _ _ list_stream_laws (header_bytes b ++ tail) tail Logic.I eq_refl) as (s & Es & <- & _).
  - intros He. unfold GetIDHash. do 2 f_equal. apply (inj Some). rewrite <- !header_bytes_serialized. by rewrite He.
Qed.

End claims.

(** ** Witnesses *)

Section witnesses.
#[local] Existing Instance bn_reference.
#[local] Existing Instance toy_digests.
#[local] Existing Instance Tx.demo_abi.
#[local] Existing Instance Sig.demo_ec.

Definition demo_coinbase : CTransaction :=
  mk_tx TT_NORMAL 100 [mk_txin Tx.outpoint_null [1; 2] Tx.UINT_MAX []] [mk_txout [] 5000 [Script.OP_1]] 0 Tx.no_mint.

Definition demo_block : CBlock :=
  mk_block 1 0 (default 0 (Tx.GetHash demo_coinbase)) 100 0x1d00ffff 7 [demo_coinbase] [].

Lemma merkle_branch_correct_witness :
  CheckMerkleBranch (rd [11; 12; 13] 2) (GetMerkleBranch [11; 12; 13] (Z.of_nat 2)) (Z.of_nat 2) = BuildMerkleTree [11; 12; 13].
Proof.
  assert (2 < length [11; 12; 13])%nat as H by (simpl; lia).
  exact (proj1 (merkle_branch_correct [11; 12; 13] [] 2 H)).
Defined.

Lemma CheckBlock_sound_witness :
  block_checked false (GetIDHash demo_block) 50 (fun _ => None) false demo_block.
Proof.
  apply (CheckBlock_sound false (GetIDHash demo_block) 50 (fun _ => None) false demo_block).
  vm_compute. reflexivity.
Defined.

Lemma demo_block_wf : Serialize.wf block_codec demo_block.
Proof.
  split; [repeat (split || constructor); vm_compute; intros; discriminate|].
  split; [|repeat (split || constructor); vm_compute; intros; discriminate].
  split; [|vm_compute; intros; discriminate]. constructor; [|constructor].
  split; [|split; [reflexivity|intros E; discriminate E]].
  repeat (split || constructor); vm_compute; intros; discriminate.
Qed.

Lemma block_round_trip_witness :
  exists bs, Serialize block_codec demo_block = Some bs /\ Unserialize block_codec (bs ++ [1; 2]) = Some (demo_block, [1; 2]).
Proof.
  destruct (block_round_trip (HB := Tx.demo_abi_laws) demo_block demo_block [1; 2]) as [(bs & E1 & _ & E2) _]; [|eauto].
  apply demo_block_wf.
Defined.

End witnesses.
End Block.
