(* ===== verification/BlockIndex.v ===== *)
(** * The block index with its links (src/src/main.h)

    The entries of mapBlockIndex linked by [pprev] and [pnext], their form in
    the block database (CDiskBlockIndex), the records of the transaction
    database (CDiskTxPos, CTxIndex), and CBlockLocator, by which two nodes find
    where their chains part.  The entries live in a shared store and are
    addressed by their hash: the code allocates one entry per key of
    mapBlockIndex and [phashBlock] points at that key, so that a pointer and
    the hash of its entry determine each other.  [NULL] is [None]. *)

From stdpp Require Import gmap.
From S2P Require Import Prelude Crypto Serialize Tx Work Block.

(** An entry with its links and its place on disk. *)
Record node := mk_node {
  entry : CBlockIndex;
  pprev : option Z;
  pnext : option Z;
  nFile : Z;
  nBlockPos : Z
}.

(** The globals: mapBlockIndex, pindexBest, pindexGenesisBlock, hashGenesisBlock. *)
Record index := mk_blockindex {
  mapBlockIndex : gmap Z node;
  pindexBest : option Z;
  pindexGenesisBlock : option Z;
  hashGenesisBlock : Z
}.

(** ** Disk positions and the transaction index *)

Record CDiskTxPos := mk_pos { pos_nFile : Z; pos_nBlockPos : Z; pos_nTxPos : Z }.

#[export] Instance CDiskTxPos_eq_dec : EqDecision CDiskTxPos.
Proof. solve_decision. Defined.

Record CTxIndex := mk_txindex { txi_pos : CDiskTxPos; vSpent : list CDiskTxPos }.

(** The form of an entry in the block database. *)
Record CDiskBlockIndex := mk_disk { disk_node : node; hashPrev : Z; hashNext : Z }.

Record CBlockLocator := mk_locator { vHave : list Z }.

Module BlockIndex.

(** [READWRITE(nVersion)] of the version of the stream, which the reader
    takes from the record and does not keep. *)
Definition versioned_codec {A} (ver : Z) (c : Codec A) : Codec A :=
  class_codec (pair_codec (int_codec 4) c) snd (fun a => (ver, a)).

Definition pos_null : CDiskTxPos := mk_pos Tx.UINT_MAX 0 0.
Definition pos_IsNull (p : CDiskTxPos) : bool := pos_nFile p =? Tx.UINT_MAX.
Definition pos_eq (a b : CDiskTxPos) : bool :=
  (pos_nFile a =? pos_nFile b) && (pos_nBlockPos a =? pos_nBlockPos b) && (pos_nTxPos a =? pos_nTxPos b).

(** FLATDATA of the three members. *)
Definition pos_codec : Codec CDiskTxPos :=
  class_codec (tuple3_codec (uint_codec 4) (uint_codec 4) (uint_codec 4))
    (fun p => mk_pos p.1.1 p.1.2 p.2) (fun p => (pos_nFile p, pos_nBlockPos p, pos_nTxPos p)).
Definition sizeof_CDiskTxPos : Z := 12.

Definition txindex_null : CTxIndex := mk_txindex pos_null [].
Definition new_txindex (pos : CDiskTxPos) (nOutputs : nat) : CTxIndex := mk_txindex pos (replicate nOutputs pos_null).
Definition txindex_IsNull (t : CTxIndex) : bool := pos_IsNull (txi_pos t).
Definition txindex_eq (a b : CTxIndex) : bool :=
  pos_eq (txi_pos a) (txi_pos b) && bool_decide (vSpent a = vSpent b).

Definition txindex_codec (ver : Z) : Codec CTxIndex :=
  class_codec (versioned_codec ver (pair_codec pos_codec (vector_codec pos_codec sizeof_CDiskTxPos)))
    (fun p => mk_txindex p.1 p.2) (fun t => (txi_pos t, vSpent t)).

(** ** CBlockIndex: constructors and the block header *)

(** The hash is set when the entry is put into mapBlockIndex; until then
    [phashBlock] is NULL, here 0. *)
Definition null_entry : CBlockIndex := mk_index 0 0 0 0 0 0 0 0 0 0 0 Tx.outpoint_null 0 0 0 0 0 0 0.

Definition null_node : node := mk_node null_entry None None 0 0.

Definition node_of_block (nFileIn nBlockPosIn : Z) (b : CBlock) : node :=
  let stake := Block.GetProofOfStake b in
  let i := mk_index 0 0 0 0 0 0 0 0 0 0 0 stake.1 stake.2 0
             (blk_nVersion b) (Block.hashMerkleRoot b) (blk_nTime b) (nBits b) (nNonce b) in
  mk_node (if Block.IsProofOfStake b then Work.SetProofOfStake i else i) None None nFileIn nBlockPosIn.

Definition GetBlockIDHash (n : node) : Z := bi_hash (entry n).

(** [GetBlockHeader]: a null block with the header members filled in. *)
Definition header_of (hashPrev : Z) (i : CBlockIndex) : CBlock :=
  mk_block (bi_nVersion i) hashPrev (bi_hashMerkleRoot i) (bi_nTime i) (bi_nBits i) (bi_nNonce i) [] [].

Section index.
Context (I : index).

(** [p->...] for a pointer of the index. *)
Definition deref (p : option Z) : option node := h ← p; mapBlockIndex I !! h.

Definition GetBlockHeader (n : node) : CBlock :=
  header_of (from_option GetBlockIDHash 0 (deref (pprev n))) (entry n).

(** [pnext || this == pindexBest] *)
Definition IsInMainChain (h : Z) (n : node) : bool :=
  bool_decide (pnext n <> None) || bool_decide (pindexBest I = Some h).

(** [for (i = 0; pindex && i < nStep; i++) pindex = pindex->pprev] *)
Fixpoint walk_back (n : nat) (p : option Z) : option Z :=
  match n, p with
  | S k, Some _ => walk_back k (n ← deref p; pprev n)
  | _, _ => p
  end.

(** At most [n] entries from [p] on. *)
Fixpoint ancestors (n : nat) (p : option Z) : list CBlockIndex :=
  match n, deref p with
  | S k, Some nd => entry nd :: ancestors k (pprev nd)
  | _, _ => []
  end.

Definition GetMedianTimePast (p : option Z) : Z := Work.GetMedianTimePast (ancestors Work.nMedianTimeSpan p).

(** [GetMedianTime]: five steps along [pnext], or the entry's own time. *)
Fixpoint walk_next (n : nat) (h : Z) : option Z :=
  match n with
  | O => Some h
  | S k => h' ← (n ← mapBlockIndex I !! h; pnext n); walk_next k h'
  end.

Definition GetMedianTime (h : Z) : Z :=
  match walk_next (Work.nMedianTimeSpan / 2) h with
  | None => from_option (fun n => Work.bi_GetBlockTime (entry n)) 0 (mapBlockIndex I !! h)
  | Some h' => GetMedianTimePast (Some h')
  end.

(** ** CBlockLocator *)

(** The loop of [Set]: [size] is the number of hashes pushed before. *)
Fixpoint set_loop (fuel : nat) (p : option Z) (nStep : Z) (size : nat) : list Z :=
  match fuel, p with
  | S f, Some h =>
      let size := S size in
      let p := walk_back (Z.to_nat nStep) p in
      h :: set_loop f p (if (10 <? size)%nat then i32 (nStep * 2) else nStep) size
  | _, _ => []
  end.

(** One round per entry at most. *)
Definition Set_ (p : option Z) : CBlockLocator :=
  mk_locator (set_loop (S (size (mapBlockIndex I))) p 1 0 ++ [hashGenesisBlock I]).

Definition locator_of_hash (hashBlock : Z) : CBlockLocator :=
  match mapBlockIndex I !! hashBlock with
  | None => mk_locator []
  | Some _ => Set_ (Some hashBlock)
  end.

Definition locator_IsNull (l : CBlockLocator) : bool := bool_decide (vHave l = []).

(** Whether a hash is that of an entry in the main chain. *)
Definition in_main_chain (h : Z) : bool :=
  match mapBlockIndex I !! h with
  | None => false
  | Some n => IsInMainChain h n
  end.

Fixpoint distance_loop (l : list Z) (nDistance nStep : Z) : Z :=
  match l with
  | [] => nDistance
  | h :: l =>
      if in_main_chain h then nDistance
      else
        let nDistance := i32 (nDistance + nStep) in
        distance_loop l nDistance (if 10 <? nDistance then i32 (nStep * 2) else nStep)
  end.

Definition GetDistanceBack (l : CBlockLocator) : Z := distance_loop (vHave l) 0 1.

(** The first hash of an entry of the main chain. *)
Fixpoint first_main (l : list Z) : option Z :=
  match l with
  | [] => None
  | h :: l => if in_main_chain h then Some h else first_main l
  end.

Definition locator_GetBlockIndex (l : CBlockLocator) : option Z :=
  match first_main (vHave l) with
  | Some h => Some h
  | None => pindexGenesisBlock I
  end.

Definition locator_GetBlockIDHash (l : CBlockLocator) : Z :=
  default (hashGenesisBlock I) (first_main (vHave l)).

Definition GetHeight (l : CBlockLocator) : Z :=
  match deref (locator_GetBlockIndex l) with
  | None => 0
  | Some n => bi_nHeight (entry n)
  end.

(** ** CDiskBlockIndex *)

Definition disk_of (n : node) : CDiskBlockIndex :=
  mk_disk n (from_option GetBlockIDHash 0 (deref (pprev n))) (from_option GetBlockIDHash 0 (deref (pnext n))).

End index.

Definition locator_codec `{Tx.Abi} (ver : Z) : Codec CBlockLocator :=
  class_codec (versioned_codec ver (vector_codec uint256_codec Tx.sizeof_uint256)) mk_locator vHave.

(** A record whose second part has a form that depends on the first. *)
Definition dep_codec {A B} (ca : Codec A) (cb : A -> Codec B) : Codec (A * B) := mk_codec
  (fun p => Serialize.wf ca p.1 /\ Serialize.wf (cb p.1) p.2)
  (fun p => m ← GetSerializeSize ca p.1; n ← GetSerializeSize (cb p.1) p.2; Some (u32 (m + n)))
  (fun p => a ← Serialize ca p.1; b ← Serialize (cb p.1) p.2; Some (a ++ b))
  (fun (S : Type) (_ : Stream S) (s : S) => '(a, s) ← Unserialize ca s; '(b, s) ← Unserialize (cb a) s; Some ((a, b), s)).

(** The members that only proof-of-stake entries store; a reader clears them
    in the others. *)
Definition stake_codec (nFlags : Z) : Codec (COutPoint * Z * Z) :=
  if negb (Z.land nFlags Work.BLOCK_PROOF_OF_STAKE =? 0)
  then tuple3_codec Tx.outpoint_codec (uint_codec 4) uint256_codec
  else mk_codec (fun p => p = (Tx.outpoint_null, 0, 0)) (fun _ => Some 0) (fun _ => Some [])
         (fun (S : Type) (_ : Stream S) (s : S) => Some ((Tx.outpoint_null, 0, 0), s)).

(** hashNext to nStakeModifier, with nFlags as the third of the last four. *)
Definition position_codec : Codec ((Z * Z * Z) * (Z * Z * Z * Z) * (Z * Z * Z * Z)) :=
  tuple3_codec (tuple3_codec uint256_codec (uint_codec 4) (uint_codec 4))
    (tuple4_codec (int_codec 4) (int_codec 4) (int_codec 8) (int_codec 8))
    (tuple4_codec (int_codec 8) (int_codec 8) (uint_codec 4) (uint_codec 8)).

Definition disk_fields (d : CDiskBlockIndex) :=
  let n := disk_node d in let i := entry n in
  ((((hashNext d, nFile n, nBlockPos n), (bi_nHeight i, bi_nPoWHeight i, bi_nMint i, bi_nMoneySupply i),
     (bi_nPoSTotalMint i, bi_nPoSDebt i, bi_nFlags i, bi_nStakeModifier i)),
    (bi_prevoutStake i, bi_nStakeTime i, bi_hashProofOfStake i)),
   Block.header (header_of (hashPrev d) i)).

(** What a reader fills in; bnChainTrust, nStakeModifierChecksum and the
    pointers keep the values of the default constructor. *)
Definition disk_build (p : ((Z * Z * Z) * (Z * Z * Z * Z) * (Z * Z * Z * Z)) * (COutPoint * Z * Z) * (Z * Z * Z * Z * (Z * Z))) :=
  let '((((next, file, pos), (height, powheight, mint, supply), (postotal, posdebt, flags, modifier)), (stake, staketime, hashproof)),
        (version, prev, merkle, time, (bits, nonce))) := p in
  mk_disk (mk_node (mk_index 0 0 height powheight mint supply postotal posdebt flags modifier 0 stake staketime hashproof
                      version merkle time bits nonce) None None file pos) prev next.

Definition disk_codec (ver : Z) : Codec CDiskBlockIndex :=
  class_codec (versioned_codec ver (pair_codec (dep_codec position_codec (fun p => stake_codec p.2.1.2)) Block.header_codec))
    disk_build disk_fields.

(** The hash recomputed from the record. *)
Definition disk_GetBlockIDHash `{DigestLib} (d : CDiskBlockIndex) : Z :=
  Block.GetIDHash (header_of (hashPrev d) (entry (disk_node d))).

(** ** Paths *)

Section paths.
Context (I : index).

(** The hashes met from [p] on along [pprev]. *)
Fixpoint path (p : option Z) (l : list Z) : Prop :=
  match l with
  | [] => p = None
  | h :: l => p = Some h /\ exists n, mapBlockIndex I !! h = Some n /\ path (pprev n) l
  end.

(** Every entry is found under its hash, has its predecessor in the index at
    the height below, or is the genesis block; heights are int. *)
Definition links_ok : Prop := forall h n, mapBlockIndex I !! h = Some n ->
  bi_hash (entry n) = h /\ 0 <= bi_nHeight (entry n) < 2 ^ 31 /\
  match pprev n with
  | None => h = hashGenesisBlock I /\ bi_nHeight (entry n) = 0
  | Some h' => exists n', mapBlockIndex I !! h' = Some n' /\ bi_nHeight (entry n) = bi_nHeight (entry n') + 1
  end.

(** The main chain holds the genesis block and every predecessor. *)
Definition main_ok : Prop :=
  in_main_chain I (hashGenesisBlock I) = true /\
  forall h n h', mapBlockIndex I !! h = Some n -> in_main_chain I h = true -> pprev n = Some h' ->
    in_main_chain I h' = true.

Lemma path_walk_back l : forall p k, path p l -> path (walk_back I k p) (drop k l).
Proof.
  induction l as [|h l IH]; intros p k Hp; cbn [path] in Hp.
  - subst p. destruct k; done.
  - destruct Hp as (-> & n & Hn & Hl). destruct k as [|k]; [by cbn; eauto|].
    cbn [walk_back deref drop]. cbn. rewrite Hn. cbn. by apply IH.
Qed.

Lemma path_lookup l : forall p i h, path p l -> l !! i = Some h ->
  exists n, mapBlockIndex I !! h = Some n /\ path (pprev n) (drop (S i) l).
Proof.
  induction l as [|x l IH]; intros p i h Hp Hi; [done|]. destruct Hp as (_ & n & Hn & Hl).
  destruct i as [|i]; [|by apply (IH _ i h Hl)]. injection Hi as <-. cbn [drop]. rewrite drop_0. eauto.
Qed.

Lemma path_unique l1 : forall l2 p, path p l1 -> path p l2 -> l1 = l2.
Proof.
  induction l1 as [|h l1 IH]; intros [|h2 l2] p H1 H2; cbn [path] in *; [done| | |].
  - destruct H2. congruence.
  - destruct H1. congruence.
  - destruct H1 as (-> & n & Hn & H1), H2 as ([= <-] & n2 & Hn2 & H2). rewrite Hn in Hn2. injection Hn2 as <-.
    f_equal. by eapply IH.
Qed.

(** In a well linked index every entry has a path to the genesis block, one
    entry per height. *)
Lemma path_exists : links_ok -> forall k h n, mapBlockIndex I !! h = Some n -> bi_nHeight (entry n) = Z.of_nat k ->
  exists l, path (Some h) l /\ length l = S k /\ last l = Some (hashGenesisBlock I) /\ head l = Some h /\
    forall i x, l !! i = Some x -> exists m, mapBlockIndex I !! x = Some m /\ bi_nHeight (entry m) = Z.of_nat k - Z.of_nat i.
Proof.
  intros Hok. induction k as [|k IH]; intros h n Hn Hk; destruct (Hok h n Hn) as (_ & _ & Hp).
  - destruct (pprev n) as [h'|] eqn:Ep.
    { destruct Hp as (n' & Hn' & E). destruct (Hok h' n' Hn') as (_ & ? & _). lia. }
    destruct Hp as [-> _]. exists [hashGenesisBlock I]. split; [cbn; split; [done|exists n; by rewrite Ep]|].
    split; [done|]. split; [done|]. split; [done|]. intros [|i] x Hx; [|done]. injection Hx as <-. exists n. split; [done|lia].
  - destruct (pprev n) as [h'|] eqn:Ep; [|lia]. destruct Hp as (n' & Hn' & E).
    destruct (IH h' n' Hn' ltac:(lia)) as (l & P1 & P2 & P3 & P4 & P5). exists (h :: l).
    split; [cbn; split; [done|exists n; by rewrite Ep]|]. split; [cbn; lia|]. split; [destruct l; done|]. split; [done|].
    intros [|i] x Hx; cbn in Hx; [injection Hx as <-; exists n; split; [done|lia]|].
    destruct (P5 i x Hx) as (m & Hm & Em). exists m. split; [done|lia].
Qed.

Lemma path_size l p : path p l ->
  (forall i j x, l !! i = Some x -> l !! j = Some x -> i = j) -> (length l <= size (mapBlockIndex I))%nat.
Proof.
  intros Hp Hinj. assert (NoDup l) as Hnd by (by apply NoDup_alt).
  rewrite <- (size_list_to_set (C := gset Z) l Hnd), <- size_dom. apply subseteq_size.
  intros x Hx. apply elem_of_list_to_set, list_elem_of_lookup_1 in Hx as (i & Hi).
  destruct (path_lookup _ _ _ _ Hp Hi) as (n & Hn & _). by apply elem_of_dom_2 in Hn.
Qed.

End paths.

(** ** Locators *)

(** The distance from the tip of the [k]-th hash of a locator, and the step
    that follows it. *)
Definition dist (k : nat) : Z := if (k <=? 10)%nat then Z.of_nat k else 2 ^ (Z.of_nat k - 10) + 9.
Definition step_at (k : nat) : Z := if (k <=? 10)%nat then 1 else 2 ^ (Z.of_nat k - 10).

Lemma dist_step k : dist (S k) = dist k + step_at k.
Proof.
  unfold dist, step_at. destruct (Nat.leb_spec k 10) as [H|H].
  - destruct (Nat.leb_spec (S k) 10); [lia|]. replace k with 10%nat by lia. reflexivity.
  - rewrite (proj2 (Nat.leb_gt _ _)) by lia.
    replace (Z.of_nat (S k) - 10) with (Z.succ (Z.of_nat k - 10)) by lia. rewrite Z.pow_succ_r by lia. lia.
Qed.

Lemma step_at_succ k : step_at (S k) = if (10 <? S k)%nat then step_at k * 2 else step_at k.
Proof.
  unfold step_at. destruct (Nat.ltb_spec 10 (S k)), (Nat.leb_spec (S k) 10), (Nat.leb_spec k 10); try lia.
  - by replace k with 10%nat by lia.
  - replace (Z.of_nat (S k) - 10) with (Z.succ (Z.of_nat k - 10)) by lia. rewrite Z.pow_succ_r by lia. lia.
Qed.

Lemma step_at_pos k : 1 <= step_at k <= dist k + 1.
Proof.
  unfold step_at, dist. destruct (Nat.leb_spec k 10); [lia|].
  pose proof (Z.pow_pos_nonneg 2 (Z.of_nat k - 10)). lia.
Qed.

Lemma dist_ge k : Z.of_nat k <= dist k.
Proof. induction k as [|k IH]; [done|]. rewrite dist_step. pose proof (step_at_pos k). lia. Qed.

Lemma dist_mono k j : dist k + Z.of_nat j <= dist (k + j).
Proof.
  induction j as [|j IH]; [rewrite Nat.add_0_r; lia|]. rewrite Nat.add_succ_r, dist_step.
  pose proof (step_at_pos (k + j)). lia.
Qed.

Lemma dist_double k : dist (S k) <= 2 * dist k + 1 /\ (dist k <= 10 -> dist (S k) = dist k + 1).
Proof.
  rewrite dist_step. pose proof (step_at_pos k). split; [lia|]. intros H10.
  unfold step_at. destruct (Nat.leb_spec k 10); [done|]. pose proof (dist_ge k). lia.
Qed.

Lemma step_at_int k : dist k < 2 ^ 31 -> step_at k < 2 ^ 31.
Proof.
  unfold step_at, dist. destruct (Nat.leb_spec k 10); lia.
Qed.

Lemma dist_gt_10 k : (10 <? dist k) = (10 <? k)%nat.
Proof.
  destruct (Nat.ltb_spec 10 k) as [H|H].
  - apply Z.ltb_lt. pose proof (dist_ge k). lia.
  - apply Z.ltb_ge. unfold dist. rewrite (proj2 (Nat.leb_le _ _)) by lia. lia.
Qed.

(** The loop of [Set] samples the path at the distances [dist k], [dist (k + 1)], ... *)
Lemma set_loop_spec I hs fuel : forall k p st, Z.of_nat (length hs) <= 2 ^ 31 ->
  path I p (drop (Z.to_nat (dist k)) hs) -> (p = None \/ st = step_at k) -> (length hs - Z.to_nat (dist k) <= fuel)%nat ->
  forall j, set_loop I fuel p st k !! j = hs !! Z.to_nat (dist (k + j)).
Proof.
  induction fuel as [|fuel IH]; intros k p st Hlen Hp Hst Hf j.
  { cbn. symmetry. apply lookup_ge_None_2. pose proof (dist_mono k j). lia. }
  cbn [set_loop]. destruct (drop (Z.to_nat (dist k)) hs) as [|x tl] eqn:Ed; cbn [path] in Hp.
  { subst p. symmetry. apply lookup_ge_None_2. apply (f_equal length) in Ed. rewrite length_drop in Ed. cbn in Ed.
    pose proof (dist_mono k j). lia. }
  pose proof Hp as (-> & _). destruct Hst as [?| ->]; [done|].
  pose proof (step_at_pos k) as Hk. pose proof (f_equal length Ed) as El. rewrite length_drop in El. cbn [length] in El.
  destruct j as [|j].
  { rewrite Nat.add_0_r. cbn [lookup list_lookup]. rewrite <- (Nat.add_0_r (Z.to_nat (dist k))), <- lookup_drop, Ed. done. }
  cbn [lookup list_lookup]. rewrite <- Nat.add_succ_comm.
  pose proof (path_walk_back I (x :: tl) (Some x) (Z.to_nat (step_at k)) Hp) as Hw. rewrite <- Ed, drop_drop in Hw.
  rewrite <- Z2Nat.inj_add in Hw by lia. rewrite <- dist_step in Hw.
  apply IH; [done|exact Hw| |rewrite dist_step; lia].
  destruct (Z.le_gt_cases (Z.of_nat (length hs)) (dist (S k))) as [Hend|Hin].
  - left. rewrite drop_ge in Hw by lia. exact Hw.
  - right. rewrite step_at_succ. destruct (10 <? S k)%nat eqn:E10; [|done].
    pose proof (step_at_int (S k) ltac:(lia)) as Hi. rewrite step_at_succ, E10 in Hi. apply i32_small. lia.
Qed.

(** The first hash of the main chain, and the distance [GetDistanceBack] counts. *)
Lemma first_main_spec I l g : g ∈ l -> in_main_chain I g = true ->
  exists j h, l !! j = Some h /\ in_main_chain I h = true /\ first_main I l = Some h /\
    forall i x, (i < j)%nat -> l !! i = Some x -> in_main_chain I x = false.
Proof.
  intros Hg Hm. induction l as [|x l IH]; [by apply elem_of_nil in Hg|]. cbn [first_main].
  destruct (in_main_chain I x) eqn:Ex.
  { exists 0%nat, x. split; [done|]. split; [done|]. split; [done|]. intros i y Hi. lia. }
  apply elem_of_cons in Hg as [->|Hg]; [congruence|]. destruct (IH Hg) as (j & h & H1 & H2 & H3 & H4).
  exists (S j), h. split; [done|]. split; [done|]. split; [done|]. intros [|i] y Hi Hy; [by injection Hy as <-|].
  apply (H4 i y); [lia|done].
Qed.

Lemma distance_loop_spec I l : forall j k h, l !! j = Some h -> in_main_chain I h = true ->
  (forall i x, (i < j)%nat -> l !! i = Some x -> in_main_chain I x = false) ->
  dist (k + j) < 2 ^ 31 -> distance_loop I l (dist k) (step_at k) = dist (k + j).
Proof.
  induction l as [|x l IH]; intros j k h Hj Hm Hb Hd; [done|]. cbn [distance_loop]. destruct j as [|j].
  { injection Hj as ->. rewrite Hm. by rewrite Nat.add_0_r. }
  rewrite (Hb 0%nat x) by (done || lia). cbv zeta. rewrite <- dist_step. rewrite <- Nat.add_succ_comm in Hd |- *.
  pose proof (dist_mono (S k) j). pose proof (dist_ge (S k)).
  rewrite (i32_small (dist (S k))), dist_gt_10 by lia.
  pose proof (step_at_int (S k) ltac:(lia)) as Hi. pose proof (step_at_pos (S k)).
  replace (if (10 <? S k)%nat then i32 (step_at k * 2) else step_at k) with (step_at (S k)).
  2:{ rewrite step_at_succ in *. destruct (10 <? S k)%nat; [|done]. symmetry. apply i32_small. lia. }
  apply (IH j (S k) h); [done|done| |done]. intros i y Hlt Hy. apply (Hb (S i) y); [lia|done].
Qed.

(** Two nodes: the index [A] of the one that sends a locator, and the index
    [B] of the one that receives it.  A block has the same predecessor in both. *)
Section two_nodes.
Context (A B : index) (HA : links_ok A) (HB : links_ok B) (HM : main_ok B).
Context (same_genesis : hashGenesisBlock A = hashGenesisBlock B).
Context (same_prev : forall h na nb, mapBlockIndex A !! h = Some na -> mapBlockIndex B !! h = Some nb -> pprev na = pprev nb).

Lemma in_main_known h : in_main_chain B h = true -> exists nb, mapBlockIndex B !! h = Some nb.
Proof. unfold in_main_chain. destruct (mapBlockIndex B !! h); [eauto|done]. Qed.

Lemma path_shared l : forall x nb, path A (Some x) l -> mapBlockIndex B !! x = Some nb -> path B (Some x) l.
Proof.
  induction l as [|h l IH]; intros x nb Hp Hx; [done|]. destruct Hp as ([= <-] & na & Ha & Hl).
  cbn [path]. split; [done|]. exists nb. split; [done|]. rewrite <- (same_prev _ _ _ Ha Hx).
  destruct (HB _ _ Hx) as (_ & _ & Hb). rewrite <- (same_prev _ _ _ Ha Hx) in Hb.
  destruct (pprev na) as [y|]; [|by destruct l as [|? ?]; [|destruct Hl]].
  destruct Hb as (ny & Hy & _). by apply (IH y ny).
Qed.

Lemma main_downward l : forall x, path B (Some x) l -> in_main_chain B x = true -> forall y, y ∈ l -> in_main_chain B y = true.
Proof.
  induction l as [|h l IH]; intros x Hp Hx y Hy; [by apply elem_of_nil in Hy|]. destruct Hp as ([= <-] & n & Hn & Hl).
  apply elem_of_cons in Hy as [->|Hy]; [done|]. destruct (pprev n) as [z|] eqn:Ez.
  - apply (IH z); [done| |done]. by apply (proj2 HM x n z).
  - destruct l; [by apply elem_of_nil in Hy|]. destruct Hl. done.
Qed.

(** On the sender's path the blocks of the receiver's main chain are those
    from the fork on. *)
Lemma fork_point hs h : path A (Some h) hs -> last hs = Some (hashGenesisBlock A) ->
  exists f, (f < length hs)%nat /\ forall i x, hs !! i = Some x -> in_main_chain B x = (f <=? i)%nat.
Proof.
  intros Hp Hlast. destruct HM as [Hg _]. rewrite <- same_genesis in Hg.
  destruct (first_main_spec B hs (hashGenesisBlock A)) as (f & hf & Hf & Hm & _ & Hb); [|done|].
  { apply last_Some in Hlast as (l' & ->). apply elem_of_app. right. by left. }
  exists f. split; [by eapply lookup_lt_Some|]. intros i x Hi. destruct (Nat.leb_spec f i) as [Hle|Hlt]; [|by apply (Hb i)].
  destruct (in_main_known _ Hm) as (nb & Hnb). destruct (path_lookup A _ _ _ _ Hp Hf) as (na & Hna & Hpa).
  assert (path A (Some hf) (hf :: drop (S f) hs)) as Hpf by (cbn [path]; eauto).
  pose proof (path_shared _ _ _ Hpf Hnb) as Hpb. apply (main_downward _ _ Hpb Hm).
  apply list_elem_of_lookup. exists (i - f)%nat. rewrite <- (drop_S _ _ _ Hf), lookup_drop. by replace (f + (i - f))%nat with i by lia.
Qed.

(** The hashes of a locator: samples of the path, then the genesis block. *)
Lemma Set_samples h n : mapBlockIndex A !! h = Some n ->
  exists hs m, path A (Some h) hs /\ Z.of_nat (length hs) = bi_nHeight (entry n) + 1 /\ last hs = Some (hashGenesisBlock A) /\
    (0 < m)%nat /\ dist (m - 1) < Z.of_nat (length hs) <= dist m /\
    (forall j, (j < m)%nat -> vHave (Set_ A (Some h)) !! j = hs !! Z.to_nat (dist j)) /\
    vHave (Set_ A (Some h)) !! m = Some (hashGenesisBlock A) /\ length (vHave (Set_ A (Some h))) = S m /\
    (forall i x, hs !! i = Some x -> exists nx, mapBlockIndex A !! x = Some nx /\ bi_nHeight (entry nx) = bi_nHeight (entry n) - Z.of_nat i).
Proof.
  intros Hn. destruct (HA h n Hn) as (_ & Hh & _).
  destruct (path_exists A HA (Z.to_nat (bi_nHeight (entry n))) h n Hn ltac:(lia)) as (hs & P1 & P2 & P3 & _ & P5).
  assert (length hs <= size (mapBlockIndex A))%nat as Hsz.
  { apply (path_size A hs _ P1). intros i j x Hi Hj. destruct (P5 i x Hi) as (m1 & E1 & F1), (P5 j x Hj) as (m2 & E2 & F2).
    rewrite E1 in E2. injection E2 as <-. lia. }
  pose proof (set_loop_spec A hs (S (size (mapBlockIndex A))) 0 (Some h) 1 ltac:(lia) P1 (or_intror eq_refl) ltac:(cbn; lia)) as Hs.
  unfold Set_. cbn [vHave]. set (l := set_loop A _ _ _ _) in *. cbn [Nat.add] in Hs.
  assert (forall j, (j < length l)%nat <-> dist j < Z.of_nat (length hs)) as Hj.
  { intros j. pose proof (dist_ge j). rewrite <- lookup_lt_is_Some, Hs, lookup_lt_is_Some. lia. }
  exists hs, (length l). pose proof (proj2 (Hj 0%nat) ltac:(cbn; lia)) as Hl0.
  split; [done|]. split; [lia|]. split; [done|]. split; [done|].
  split; [split; [apply Hj; lia|]; destruct (Z.le_gt_cases (Z.of_nat (length hs)) (dist (length l))) as [|H]; [done|apply Hj in H; lia]|].
  split; [intros j Hlt; by rewrite lookup_app_l, Hs|].
  split; [rewrite lookup_app_r, Nat.sub_diag by lia; done|]. split; [rewrite length_app; cbn; lia|].
  intros i x Hi. destruct (P5 i x Hi) as (nx & Hx & E). exists nx. split; [done|lia].
Qed.

(** Where in the sender's path the first main-chain hash of a locator is. *)
Lemma locator_hit hs m loc f : (0 < m)%nat -> dist (m - 1) < Z.of_nat (length hs) <= dist m ->
  last hs = Some (hashGenesisBlock A) -> Z.of_nat (length hs) <= 2 ^ 31 ->
  (forall j, (j < m)%nat -> vHave loc !! j = hs !! Z.to_nat (dist j)) -> vHave loc !! m = Some (hashGenesisBlock A) ->
  length (vHave loc) = S m -> (f < length hs)%nat ->
  (forall i x, hs !! i = Some x -> in_main_chain B x = (f <=? i)%nat) ->
  exists d x, hs !! d = Some x /\ (f <= d <= 2 * f)%nat /\ ((f <= 11)%nat -> d = f) /\
    first_main B (vHave loc) = Some x /\ (x <> hashGenesisBlock B -> GetDistanceBack B loc = Z.of_nat d).
Proof.
  intros Hm0 Hm Hlast Hlen Hs Hg Hl Hf Hmain. destruct HM as [Hgm _].
  destruct (first_main_spec B (vHave loc) (hashGenesisBlock A)) as (j & x & Hj & Hx & Hfm & Hb);
    [by eapply list_elem_of_lookup_2|by rewrite same_genesis|].
  assert (forall i, (i < j)%nat -> (i < m)%nat -> dist i < Z.of_nat f) as Hbefore.
  { intros i Hi Him. pose proof (dist_ge i). pose proof (dist_mono i (m - 1 - i)) as Hmm.
    replace (i + (m - 1 - i))%nat with (m - 1)%nat in Hmm by lia.
    destruct (lookup_lt_is_Some_2 hs (Z.to_nat (dist i)) ltac:(lia)) as [y Hy].
    pose proof (Hb i y Hi ltac:(rewrite Hs; done)) as Hn. rewrite (Hmain _ _ Hy) in Hn. apply Nat.leb_gt in Hn. lia. }
  assert (j <= m)%nat as Hjm by (apply lookup_lt_Some in Hj; lia).
  destruct (Nat.lt_ge_cases j m) as [Hlt|Hge].
  - pose proof Hj as Hj'. rewrite Hs in Hj' by done. pose proof (dist_ge j).
    pose proof (Hmain _ _ Hj') as E. rewrite Hx in E. symmetry in E. apply Nat.leb_le in E.
    exists (Z.to_nat (dist j)), x. split; [done|].
    assert ((Z.to_nat (dist j) <= 2 * f)%nat /\ ((f <= 11)%nat -> Z.to_nat (dist j) = f)) as [H1 H2].
    { destruct j as [|j]; [change (dist 0) with 0 in *; cbn in *; lia|]. pose proof (Hbefore j ltac:(lia) ltac:(lia)).
      destruct (dist_double j) as [? Hd]. split; [lia|]. intros ?. rewrite Hd in *; lia. }
    split; [lia|]. split; [done|]. split; [done|]. intros _. unfold GetDistanceBack.
    apply lookup_lt_Some in Hj'. pose proof (distance_loop_spec B _ j 0 x Hj Hx Hb ltac:(cbn [Nat.add]; lia)) as Ed.
    change (dist 0) with 0 in Ed. change (step_at 0) with 1 in Ed. rewrite Ed. cbn [Nat.add]. lia.
  - assert (j = m) as -> by lia. rewrite Hg in Hj. injection Hj as <-. rewrite last_lookup in Hlast.
    exists (pred (length hs)), (hashGenesisBlock A). pose proof (Hbefore (m - 1)%nat ltac:(lia) ltac:(lia)).
    destruct (dist_double (m - 1)) as [Hd1 Hd2]. replace (S (m - 1)) with m in * by lia.
    split; [done|]. split; [lia|]. split; [intros ?; destruct (Z.le_gt_cases (dist (m - 1)) 10); [rewrite Hd2 in * by lia|]; lia|].
    split; [done|]. intros []. done.
Qed.

(** C36: From a locator that a node makes of its block [h], a node that knows
    other blocks finds a block of its own main chain on the sender's chain, no
    more than twice as far from [h] as the last common block, and the last
    common block itself when that is at most 11 blocks back.  The height the
    receiver reads is the one the block has for the sender, and
    [GetDistanceBack] is its distance, unless only the genesis block is in
    common.  The locator has no more than 12 hashes plus one for every doubling
    of the height, the loops end, and no counter overflows. *)
Theorem locator_finds_fork h n :
  mapBlockIndex A !! h = Some n ->
  let loc := Set_ A (Some h) in
  Z.of_nat (length (vHave loc)) <= 12 + Z.log2 (bi_nHeight (entry n)) /\
  exists hs f d x, path A (Some h) hs /\ (f < length hs)%nat /\ hs !! d = Some x /\
    (forall i y, hs !! i = Some y -> in_main_chain B y = (f <=? i)%nat) /\
    (f <= d <= 2 * f)%nat /\ ((f <= 11)%nat -> d = f) /\
    locator_GetBlockIndex B loc = Some x /\ locator_GetBlockIDHash B loc = x /\
    GetHeight B loc = bi_nHeight (entry n) - Z.of_nat d /\
    (x <> hashGenesisBlock B -> GetDistanceBack B loc = Z.of_nat d).
Proof.
  intros Hn loc. destruct (HA h n Hn) as (_ & Hh & _).
  destruct (Set_samples h n Hn) as (hs & m & P1 & P2 & P3 & P4 & P5 & P6 & P7 & P8 & P9).
  fold loc in P6, P7, P8. destruct (fork_point hs h P1 P3) as (f & Hf & Hmain).
  destruct (locator_hit hs m loc f P4 P5 P3 ltac:(lia) P6 P7 P8 Hf Hmain) as (d & x & Hx & Hd & H11 & Hfm & Hdist).
  split.
  { rewrite P8. pose proof (Z.log2_nonneg (bi_nHeight (entry n))). unfold dist in P5. destruct (Nat.leb_spec (m - 1) 10); [lia|].
    assert (Z.of_nat (m - 1) - 10 <= Z.log2 (bi_nHeight (entry n))); [|lia]. apply Z.log2_le_pow2; lia. }
  exists hs, f, d, x. split; [done|]. split; [done|]. split; [done|]. split; [done|]. split; [done|]. split; [done|].
  assert (locator_GetBlockIndex B loc = Some x) as Egi by (unfold locator_GetBlockIndex; by rewrite Hfm).
  split; [done|]. split; [unfold locator_GetBlockIDHash; by rewrite Hfm|]. split; [|done].
  unfold GetHeight. rewrite Egi. cbn.
  pose proof (Hmain _ _ Hx) as Em. rewrite (proj2 (Nat.leb_le _ _)) in Em by lia.
  destruct (in_main_known _ Em) as (nb & Hnb). rewrite Hnb. destruct (HB x nb Hnb) as (_ & Hbh & _).
  destruct (path_exists B HB (Z.to_nat (bi_nHeight (entry nb))) x nb Hnb ltac:(lia)) as (lb & Q1 & Q2 & _).
  destruct (path_lookup A _ _ _ _ P1 Hx) as (na & Hna & Hpa).
  assert (path B (Some x) (x :: drop (S d) hs)) as Hpb by (apply (path_shared _ x nb); [cbn [path]; eauto|done]).
  rewrite (path_unique B _ _ _ Q1 Hpb) in Q2. cbn [length] in Q2. rewrite length_drop in Q2.
  apply lookup_lt_Some in Hx. lia.
Qed.

End two_nodes.

(** ** The records of the databases *)

#[global] Instance dep_lawful {A B} (ca : Codec A) (cb : A -> Codec B) :
  Lawful ca -> (forall a, Lawful (cb a)) -> Lawful (dep_codec ca cb).
Proof.
  intros Ha Hb [a b] [Wa Wb]. simpl in Wa, Wb.
  destruct (Ha a Wa) as (ba & Ea & Fa & Sa & Ra). destruct (Hb a b Wb) as (bb & Eb & Fb & Sb & Rb).
  exists (ba ++ bb). cbn. rewrite Ea, Eb, Sa, Sb. cbn. split; [done|]. split; [by apply Forall_app|].
  split; [f_equal; by apply u32_app|]. intros S HS HL s rest Hok E. rewrite <- app_assoc in E. cbn.
  destruct (Ra S HS HL s _ Hok E) as (s1 & -> & E1 & Ho1). cbn.
  destruct (Rb S HS HL s1 _ Ho1 E1) as (s2 & -> & E2 & Ho2). cbn. eauto.
Qed.

#[global] Instance versioned_lawful {A} ver (c : Codec A) : Lawful c -> Lawful (versioned_codec ver c).
Proof. intros Hc. apply class_lawful; [done|apply _]. Qed.

#[global] Instance pos_lawful : Lawful pos_codec.
Proof. apply class_lawful; [by intros []|apply _]. Qed.

#[global] Instance txindex_lawful ver : Lawful (txindex_codec ver).
Proof.
  assert (Lawful (vector_codec pos_codec sizeof_CDiskTxPos)) by (apply vector_lawful; [apply _|unfold sizeof_CDiskTxPos; lia]).
  apply class_lawful; [by intros []|apply _].
Qed.

#[global] Instance locator_lawful `{!Tx.Abi, !Tx.AbiLaws _} ver : Lawful (locator_codec ver).
Proof.
  pose proof (vector_lawful uint256_codec Tx.sizeof_uint256 Tx.abi_uint256).
  apply class_lawful; [by intros []|apply _].
Qed.

#[global] Instance outpoint_lawful : Lawful Tx.outpoint_codec.
Proof. apply class_lawful; [by intros []|apply _]. Qed.

#[global] Instance stake_lawful f : Lawful (stake_codec f).
Proof.
  unfold stake_codec. destruct (negb _); [apply _|]. intros p ->. exists []. split; [done|]. split; [done|]. split; [done|].
  intros S HS HL s rest Hok E. cbn. eauto.
Qed.

#[global] Instance disk_fields_lawful ver :
  Lawful (versioned_codec ver (pair_codec (dep_codec position_codec (fun p => stake_codec p.2.1.2)) Block.header_codec)).
Proof. apply _. Qed.

(** The record of an entry [n] of a well linked index is written and read
    back: every stored member is restored, the hashes of the neighbours
    stand for the pointers, and the hash recomputed from the record is the
    identifier of the header of [n], so that the key under which the entry is
    stored need not be. *)
Theorem disk_index_round_trip `{DigestLib} I ver n tail :
  Serialize.wf (disk_codec ver) (disk_of I n) ->
  exists bs d, Serialize (disk_codec ver) (disk_of I n) = Some bs /\
    GetSerializeSize (disk_codec ver) (disk_of I n) = Some (u32 (Z.of_nat (length bs))) /\
    Unserialize (disk_codec ver) (bs ++ tail) = Some (d, tail) /\
    disk_fields d = disk_fields (disk_of I n) /\ disk_GetBlockIDHash d = Block.GetIDHash (GetBlockHeader I n) /\
    bi_bnChainTrust (entry (disk_node d)) = 0 /\ pprev (disk_node d) = None /\ pnext (disk_node d) = None.
Proof.
  intros Hw. destruct (disk_fields_lawful ver _ Hw) as (bs & E1 & _ & E2 & R). exists bs, (disk_build (disk_fields (disk_of I n))).
  split; [exact E1|]. split; [exact E2|].
  destruct (R _ _ list_stream_laws (bs ++ tail) tail Logic.I eq_refl) as (s & Es & Et & _).
  split; [|done]. change (Unserialize (disk_codec ver) (bs ++ tail)) with
    ('(a, s) ← Unserialize (versioned_codec ver (pair_codec (dep_codec position_codec (fun p => stake_codec p.2.1.2)) Block.header_codec)) (bs ++ tail);
     Some (disk_build a, s)).
  rewrite Es. cbn [mbind option_bind]. by rewrite <- Et.
Qed.

(** Positions, transaction index records and locators are written and read back. *)
Theorem database_records_round_trip `{!Tx.Abi, !Tx.AbiLaws _} ver t l tail :
  Serialize.wf (txindex_codec ver) t -> Serialize.wf (locator_codec ver) l ->
  (exists bs, Serialize (txindex_codec ver) t = Some bs /\ Unserialize (txindex_codec ver) (bs ++ tail) = Some (t, tail)) /\
  (exists bs, Serialize (locator_codec ver) l = Some bs /\ Unserialize (locator_codec ver) (bs ++ tail) = Some (l, tail)).
Proof.
  intros Ht Hl. split.
  - destruct (txindex_lawful ver t Ht) as (bs & E1 & _ & _ & R). exists bs. split; [done|].
    by destruct (R _ _ list_stream_laws (bs ++ tail) tail Logic.I eq_refl) as (s & Es & <- & _).
  - destruct (locator_lawful ver l Hl) as (bs & E1 & _ & _ & R). exists bs. split; [done|].
    by destruct (R _ _ list_stream_laws (bs ++ tail) tail Logic.I eq_refl) as (s & Es & <- & _).
Qed.

(** ** Witnesses *)

(** A chain of [k + 1] blocks with hashes 100 + height. *)
Fixpoint demo_blocks (k : nat) (m : gmap Z node) : gmap Z node :=
  let h := Z.of_nat k in
  let nd p := mk_node (mk_index (100 + h) 0 h h 0 0 0 0 0 0 0 Tx.outpoint_null 0 0 1 0 h 0 0) p None 0 0 in
  match k with
  | O => <[100 := nd None]> m
  | S k' => demo_blocks k' (<[100 + h := nd (Some (99 + h))]> m)
  end.

Definition demo_sender : index := mk_blockindex (demo_blocks 30 ∅) (Some 130) (Some 100) 100.

(** The receiver has the first blocks only. *)
Definition demo_receiver : index := mk_blockindex
  (fmap (fun n => mk_node (entry n) (pprev n) (if bi_nHeight (entry n) <? 10 then Some (bi_hash (entry n) + 1) else None) 0 0)
     (demo_blocks 10 ∅)) (Some 110) (Some 100) 100.

Definition links_okb (I : index) : bool :=
  forallb (fun p : Z * node => let '(h, n) := p in
     (bi_hash (entry n) =? h) && (0 <=? bi_nHeight (entry n)) && (bi_nHeight (entry n) <? 2 ^ 31) &&
     match pprev n with
     | None => (h =? hashGenesisBlock I) && (bi_nHeight (entry n) =? 0)
     | Some h' => match mapBlockIndex I !! h' with
                  | None => false
                  | Some n' => bi_nHeight (entry n) =? bi_nHeight (entry n') + 1
                  end
     end) (map_to_list (mapBlockIndex I)).

Lemma links_okb_sound I : links_okb I = true -> links_ok I.
Proof.
  intros H h n Hn. unfold links_okb in H. rewrite forallb_forall in H.
  specialize (H (h, n)). rewrite <- list_elem_of_In, elem_of_map_to_list in H. specialize (H Hn). cbn beta iota in H.
  rewrite !andb_true_iff, Z.eqb_eq, Z.leb_le, Z.ltb_lt in H. destruct H as (((H1 & H2) & H3) & H4).
  split; [done|]. split; [done|]. destruct (pprev n) as [h'|].
  - destruct (mapBlockIndex I !! h') as [n'|]; [|done]. apply Z.eqb_eq in H4. eauto.
  - apply andb_true_iff in H4 as [?%Z.eqb_eq ?%Z.eqb_eq]. done.
Qed.

Definition main_okb (I : index) : bool :=
  in_main_chain I (hashGenesisBlock I) &&
  forallb (fun p : Z * node => let '(h, n) := p in
     match pprev n with
     | Some h' => negb (in_main_chain I h) || in_main_chain I h'
     | None => true
     end) (map_to_list (mapBlockIndex I)).

Lemma main_okb_sound I : main_okb I = true -> main_ok I.
Proof.
  intros H. apply andb_true_iff in H as [H1 H]. split; [done|]. intros h n h' Hn Hm Hp. rewrite forallb_forall in H.
  specialize (H (h, n)). rewrite <- list_elem_of_In, elem_of_map_to_list in H. specialize (H Hn). cbn beta iota in H.
  rewrite Hp, Hm in H. done.
Qed.

Definition same_prevb (A B : index) : bool :=
  forallb (fun p : Z * node => let '(h, n) := p in
     match mapBlockIndex B !! h with
     | Some n' => bool_decide (pprev n = pprev n')
     | None => true
     end) (map_to_list (mapBlockIndex A)).

Lemma same_prevb_sound A B : same_prevb A B = true ->
  forall h na nb, mapBlockIndex A !! h = Some na -> mapBlockIndex B !! h = Some nb -> pprev na = pprev nb.
Proof.
  intros H h na nb Ha Hb. unfold same_prevb in H. rewrite forallb_forall in H.
  specialize (H (h, na)). rewrite <- list_elem_of_In, elem_of_map_to_list in H. specialize (H Ha). cbn beta iota in H.
  rewrite Hb in H. by apply bool_decide_eq_true in H.
Qed.

Lemma locator_finds_fork_witness :
  exists d x, locator_GetBlockIndex demo_receiver (Set_ demo_sender (Some 130)) = Some x /\
    GetHeight demo_receiver (Set_ demo_sender (Some 130)) = 30 - Z.of_nat d /\ (20 <= d <= 40)%nat.
Proof.
  assert (links_ok demo_sender) as HA by (apply links_okb_sound; vm_compute; reflexivity).
  assert (links_ok demo_receiver) as HB by (apply links_okb_sound; vm_compute; reflexivity).
  assert (main_ok demo_receiver) as HM by (apply main_okb_sound; vm_compute; reflexivity).
  assert (forall h na nb, mapBlockIndex demo_sender !! h = Some na -> mapBlockIndex demo_receiver !! h = Some nb -> pprev na = pprev nb)
    as HP by (apply same_prevb_sound; vm_compute; reflexivity).
  destruct (mapBlockIndex demo_sender !! 130) as [n|] eqn:En; [|vm_compute in En; discriminate].
  destruct (locator_finds_fork demo_sender demo_receiver HA HB HM eq_refl HP 130 n En)
    as (_ & hs & f & d & x & Hp & Hf & _ & Hm & Hd & _ & H1 & _ & H2 & _).
  exists d, x. split; [exact H1|]. assert (bi_nHeight (entry n) = 30) as Eh by (vm_compute in En; injection En as <-; reflexivity).
  rewrite Eh in H2. split; [exact H2|].
  assert (locator_GetBlockIndex demo_receiver (Set_ demo_sender (Some 130)) = Some 105) as E by (vm_compute; reflexivity).
  assert (GetHeight demo_receiver (Set_ demo_sender (Some 130)) = 5) as E2 by (vm_compute; reflexivity).
  rewrite E2 in H2. lia.
Defined.

End BlockIndex.
