(* ===== verification/SignedHash.v ===== *)
(** * Signed proof-of-work hashes (src/src/signedhash.cpp, src/src/signedhash.h)

    Computing a proof-of-work hash takes long; the node keeps those it has
    computed, and those a master key has signed, in memory and in the
    database.  [CBlock::GetPoWHash] asks the caches before it computes.  The
    database is taken to succeed; signing with the master key and the relay to
    peers are left out.  The computation, which can be interrupted, is the
    parameter [ramhog]. *)

From stdpp Require Import gmap.
From S2P Require Import Prelude Crypto Serialize Tx Signature Work Block BlockIndex Util.
Import BlockIndex.

Record CSignedHash := mk_signed { sh_nVersion : Z; idHash : Z; powHash : Z; sh_vchMsg : list Z; sh_vchSig : list Z }.

(** The caches of the namespace, and the records of the database. *)
Record hash_cache := mk_cache {
  mapPoWCache : gmap Z Z;
  mapSigCache : gmap Z (Z * list Z);
  mapInvSignedHash : gmap Z CSignedHash;
  db_powhash : gmap Z Z;
  db_signedhash : gmap Z (Z * list Z);
  db_pubkey : option (list Z)
}.

Module SignedHash.

Definition strMasterPubKey : list Z :=
  str "04de9cd6a14a2174db54c597a88248022b6bf0d51513ec00f789abe82096db245dc2fe5eb8a8d7163c5005b507da48771b41a65051687865a7ba825705f5eb0e04".

(** nVersion, idHash and powHash. *)
Definition unsigned_codec : Codec (Z * Z * Z) := tuple3_codec (int_codec 4) uint256_codec uint256_codec.

Definition null_signed : CSignedHash := mk_signed 1 0 0 [] [].
Definition signed_IsNull (s : CSignedHash) : bool := idHash s =? 0.

Section caches.
Context {D : DigestLib} {E : ECLib}.

(** ** CSignedHash *)

(** The members read from the message; [None] when that throws. *)
Definition read_message (s : CSignedHash) : option CSignedHash :=
  '(v, id, pow, _) ← Unserialize unsigned_codec (sh_vchMsg s);
  Some (mk_signed v id pow (sh_vchMsg s) (sh_vchSig s)).

(** [None] when reading the message throws. *)
Definition CheckSignature (s : CSignedHash) : option (bool * CSignedHash) :=
  match Sig.SetPubKey (Util.ParseHex strMasterPubKey) with
  | None => Some (false, s)
  | Some key =>
      if negb (Sig.Verify key (le_val (Hash (sh_vchMsg s))) (sh_vchSig s)) then Some (false, s)
      else s ← read_message s; Some (true, s)
  end.

Definition SetHashes (id pow : Z) (s : CSignedHash) : option CSignedHash :=
  msg ← Serialize unsigned_codec (sh_nVersion s, id, pow);
  Some (mk_signed (sh_nVersion s) id pow msg []).

Definition SetSignature (vchSigIn : list Z) (s : CSignedHash) : option (bool * CSignedHash) :=
  match CheckSignature (mk_signed (sh_nVersion s) (idHash s) (powHash s) (sh_vchMsg s) vchSigIn) with
  | None => None
  | Some (true, s) => Some (true, s)
  | Some (false, s) => Some (false, mk_signed (sh_nVersion s) (idHash s) (powHash s) (sh_vchMsg s) [])
  end.

(** [SerializeHash] of the object; writing reads the message as well. *)
Definition GetHash (s : CSignedHash) : option Z :=
  _ ← read_message s; bs ← Serialize (pair_codec bytes_codec bytes_codec) (sh_vchMsg s, sh_vchSig s); Some (le_val (Hash bs)).

(** ** The caches *)

Definition GetSignedPoWHash (id : Z) (c : hash_cache) : option (Z * list Z) := mapSigCache c !! id.
Definition CountSignedHashes (c : hash_cache) : nat := size (mapSigCache c).

(** [GetPoWHash]; [fUse] is the option -usesignedhashes. *)
Definition GetPoWHash (fUse : bool) (id : Z) (c : hash_cache) : option Z :=
  match (if fUse then GetSignedPoWHash id c else None) with
  | Some (pow, _) => Some pow
  | None => mapPoWCache c !! id
  end.

Definition UncheckedAddHash (id pow : Z) (c : hash_cache) : hash_cache :=
  mk_cache (<[id := pow]> (mapPoWCache c)) (mapSigCache c) (mapInvSignedHash c) (<[id := pow]> (db_powhash c)) (db_signedhash c) (db_pubkey c).

Definition UncheckedAddSignedHash (id pow : Z) (vchSig : list Z) (c : hash_cache) : hash_cache :=
  mk_cache (mapPoWCache c) (<[id := (pow, vchSig)]> (mapSigCache c)) (mapInvSignedHash c) (db_powhash c) (<[id := (pow, vchSig)]> (db_signedhash c)) (db_pubkey c).

Definition add_inv (h : Z) (s : CSignedHash) (c : hash_cache) : hash_cache :=
  mk_cache (mapPoWCache c) (mapSigCache c) (<[h := s]> (mapInvSignedHash c)) (db_powhash c) (db_signedhash c) (db_pubkey c).

(** [None] when it throws. *)
Definition ProcessRelaySignedHash (s : CSignedHash) (c : hash_cache) : option (bool * hash_cache) :=
  match CheckSignature s with
  | None => None
  | Some (false, _) => Some (false, c)
  | Some (true, s) => h ← GetHash s; Some (true, add_inv h s (UncheckedAddSignedHash (idHash s) (powHash s) (sh_vchSig s) c))
  end.

(** [for (pindex = pindexBest; pindex && pindex->pprev; pindex = pindex->pprev)]:
    the blocks of the best chain above the genesis block. *)
Fixpoint chain_ids (I : index) (fuel : nat) (p : option Z) : list Z :=
  match fuel, deref I p with
  | S fuel, Some n => if bool_decide (is_Some (pprev n)) then GetBlockIDHash n :: chain_ids I fuel (pprev n) else []
  | _, _ => []
  end.

(** One block of the loading loop: the computed hash, then the signed one. *)
Definition load_pow (id : Z) (c : hash_cache) : hash_cache :=
  match db_powhash c !! id with
  | Some pow => mk_cache (<[id := pow]> (mapPoWCache c)) (mapSigCache c) (mapInvSignedHash c) (db_powhash c) (db_signedhash c) (db_pubkey c)
  | None => c
  end.

Definition load_block (id : Z) (c : hash_cache) : option hash_cache :=
  let c := load_pow id c in
  match db_signedhash c !! id with
  | None => Some c
  | Some (pow, vchSig) =>
      s ← SetHashes id pow null_signed;
      match SetSignature vchSig s with
      | None => None
      | Some (false, _) => Some c
      | Some (true, s) =>
          h ← GetHash s;
          Some (add_inv h s (mk_cache (mapPoWCache c) (<[id := (pow, vchSig)]> (mapSigCache c)) (mapInvSignedHash c) (db_powhash c) (db_signedhash c) (db_pubkey c)))
      end
  end.

Fixpoint load_blocks (l : list Z) (c : hash_cache) : option hash_cache :=
  match l with
  | [] => Some c
  | id :: l => c ← load_block id c; load_blocks l c
  end.

(** With a new master key the signed hashes are dropped, those of the best
    chain from the database as well. *)
Definition LoadHashCache (I : index) (c : hash_cache) : option hash_cache :=
  let l := chain_ids I (size (mapBlockIndex I)) (pindexBest I) in
  if bool_decide (db_pubkey c = Some strMasterPubKey) then load_blocks l c
  else Some (mk_cache (mapPoWCache c) ∅ ∅ (db_powhash c) (foldl (fun m id => delete id m) (db_signedhash c) l) (Some strMasterPubKey)).

(** ** The hash of a block *)

Section blocks.
Context (ramhog : list Z -> option (list Z)) (fUse : bool).

(** [CBlock::GetPoWHash]: the hash and the caches, or [None] when the
    computation is interrupted. *)
Definition block_GetPoWHash (b : CBlock) (c : hash_cache) : option (Z * hash_cache) :=
  let id := Block.GetIDHash b in
  match GetPoWHash fUse id c with
  | Some pow => Some (pow, c)
  | None => out ← ramhog (Block.header_bytes b); Some (le_val out, UncheckedAddHash id (le_val out) c)
  end.

(** [CBlockIndex::ComputeBlockPoWHash] *)
Definition ComputeBlockPoWHash (I : index) (n : node) (c : hash_cache) : option (Z * hash_cache) := block_GetPoWHash (GetBlockHeader I n) c.

(** ** What is in the caches *)

(** The master key has signed a message that gives [id] the hash [pow]. *)
Definition vouched (id pow : Z) (vchSig : list Z) : Prop := exists key msg v rest,
  Sig.SetPubKey (Util.ParseHex strMasterPubKey) = Some key /\ Sig.Verify key (le_val (Hash msg)) vchSig = true /\
  Unserialize unsigned_codec msg = Some ((v, id, pow), rest).

(** [pow] was computed from a header with the identifier [id]. *)
Definition computed (id pow : Z) : Prop := exists b out, Block.GetIDHash b = id /\ ramhog (Block.header_bytes b) = Some out /\ le_val out = pow.

Record caches_ok (c : hash_cache) : Prop := {
  co_pow : forall id pow, mapPoWCache c !! id = Some pow -> computed id pow;
  co_sig : forall id pow sig, mapSigCache c !! id = Some (pow, sig) -> vouched id pow sig;
  co_db : forall id pow, db_powhash c !! id = Some pow -> computed id pow;
  co_range : forall id pow sig, db_signedhash c !! id = Some (pow, sig) -> 0 <= id < 2 ^ 256 /\ 0 <= pow < 2 ^ 256
}.

Lemma CheckSignature_vouched s s' : CheckSignature s = Some (true, s') ->
  vouched (idHash s') (powHash s') (sh_vchSig s') /\ sh_vchSig s' = sh_vchSig s /\ sh_vchMsg s' = sh_vchMsg s.
Proof.
  unfold CheckSignature, read_message. destruct (Sig.SetPubKey _) as [key|] eqn:Ek; [|done]. destruct (Sig.Verify _ _ _) eqn:Ev; [|done]. cbn [negb].
  destruct (Unserialize _ _) as [[[[v id] pow] rest]|] eqn:Eu; [|done]. cbn [mbind option_bind]. intros [= <-]. split; [|done]. by exists key, (sh_vchMsg s), v, rest.
Qed.

Lemma CheckSignature_reads s s' : CheckSignature s = Some (true, s') -> read_message s = Some s'.
Proof.
  unfold CheckSignature. destruct (Sig.SetPubKey _) as [key|]; [|done]. destruct (negb _); [done|]. destruct (read_message s); [|done]. cbn. by intros [= <-].
Qed.

(** What [SetHashes] writes is read back. *)
Lemma SetHashes_read id pow s s' : 0 <= id < 2 ^ 256 -> 0 <= pow < 2 ^ 256 -> SetHashes id pow null_signed = Some s -> read_message s = Some s' ->
  idHash s' = id /\ powHash s' = pow.
Proof.
  intros Hi Hp. unfold SetHashes, read_message. assert (Serialize.wf unsigned_codec (1, id, pow)) as Hw by (split; [split|]; cbn; lia).
  destruct ((_ : Lawful unsigned_codec) (1, id, pow) Hw) as (bs & E1 & _ & _ & R). change (sh_nVersion null_signed) with 1. rewrite E1. cbn [mbind option_bind]. intros [= <-]. cbn [sh_vchMsg].
  destruct (R _ _ list_stream_laws bs [] Logic.I (eq_sym (app_nil_r bs))) as (rest & -> & _). cbn. by intros [= <-].
Qed.

Lemma unsigned_range msg v id pow rest : Forall is_byte msg -> Unserialize unsigned_codec msg = Some ((v, id, pow), rest) -> 0 <= id < 2 ^ 256 /\ 0 <= pow < 2 ^ 256.
Proof.
  intros Hb. assert (forall l k, Forall is_byte l -> (k <= length l)%nat -> k = 32%nat -> 0 <= le_val (take k l) < 2 ^ 256) as Hr.
  { intros l k Hl Hk ->. pose proof (le_val_range (take 32 l) ltac:(by apply Forall_take)) as H. rewrite length_take_le in H by lia. change (256 ^ Z.of_nat 32) with (2 ^ 256) in H. lia. }
  unfold unsigned_codec, tuple3_codec, uint256_codec. cbn [Unserialize pair_codec int_codec uint_codec read list_stream].
  case_bool_decide as H1; [|done]. cbn [mbind option_bind]. case_bool_decide as H2; [|done]. cbn [mbind option_bind]. case_bool_decide as H3; [|done]. cbn [mbind option_bind].
  intros [= _ <- <- _]. split; (apply Hr; [|lia|done]); repeat apply Forall_drop; done.
Qed.

Lemma relay_ok s c ok c' : Forall is_byte (sh_vchMsg s) -> caches_ok c -> ProcessRelaySignedHash s c = Some (ok, c') -> caches_ok c' /\ (ok = false -> c' = c).
Proof.
  intros Hb [H1 H2 H3 H4]. unfold ProcessRelaySignedHash. destruct (CheckSignature s) as [[[] s']|] eqn:Ec; [| |done].
  2:{ intros [= <- <-]. by split. }
  destruct (GetHash s') as [h|]; [|done]. cbn [mbind option_bind]. intros [= <- <-]. split; [|done]. destruct (CheckSignature_vouched s s' Ec) as (Hv & _ & _).
  pose proof (CheckSignature_reads s s' Ec) as Hr. unfold read_message in Hr. destruct (Unserialize _ _) as [[[[v id] pow] rest]|] eqn:Eu; [|done]. cbn in Hr. injection Hr as <-.
  split; cbn; [done| |done|].
  - intros x y z [[<- [= <- <-]]|[_ Hx]]%lookup_insert_Some; [done|by apply H2].
  - intros x y z [[<- [= <- <-]]|[_ Hx]]%lookup_insert_Some; [by apply (unsigned_range _ _ _ _ _ Hb Eu)|by apply (H4 x y z)].
Qed.

Lemma load_block_ok id c c' : caches_ok c -> load_block id c = Some c' -> caches_ok c'.
Proof.
  intros [H1 H2 H3 H4]. unfold load_block. cbv zeta. set (c1 := load_pow id c).
  assert (caches_ok c1 /\ db_signedhash c1 = db_signedhash c) as [[A1 A2 A3 A4] E1].
  { unfold c1, load_pow. destruct (db_powhash c !! id) as [pow|] eqn:Ep; [|by split]. split; [|done]. split; cbn; [|done|done|done].
    intros x y [[<- <-]|[_ Hx]]%lookup_insert_Some; [by apply H3|by apply H1]. }
  destruct (db_signedhash c1 !! id) as [[pow sig]|] eqn:Es; [|by intros [= <-]]. destruct (A4 _ _ _ Es) as [R1 R2].
  destruct (SetHashes id pow null_signed) as [s|] eqn:Eh; [|done]. cbn [mbind option_bind]. unfold SetSignature.
  destruct (CheckSignature _) as [[[] s']|] eqn:Ec; [|by intros [= <-]|done]. destruct (GetHash s') as [h|]; [|done]. cbn [mbind option_bind]. intros [= <-].
  destruct (CheckSignature_vouched _ s' Ec) as (Hv & Hsig & _). pose proof (CheckSignature_reads _ s' Ec) as Hr. cbn [sh_vchSig] in Hsig.
  assert (idHash s' = id /\ powHash s' = pow) as [Ei Ep].
  { unfold read_message in Hr. cbn [sh_vchMsg sh_vchSig] in Hr. destruct (read_message s) as [s2|] eqn:Er.
    - destruct (SetHashes_read id pow s s2 R1 R2 Eh Er) as [<- <-]. unfold read_message in Er. destruct (Unserialize _ (sh_vchMsg s)) as [[[[v x] y] rest]|]; [|done].
      cbn in Er, Hr. injection Er as <-. injection Hr as <-. done.
    - unfold read_message in Er. by destruct (Unserialize _ (sh_vchMsg s)) as [[[[v x] y] rest]|]. }
  split; cbn; [done| |done|done]. intros x y z [[<- [= <- <-]]|[_ Hx]]%lookup_insert_Some; [|by apply A2]. by rewrite Ei, Ep, Hsig in Hv.
Qed.

Lemma load_ok I c c' : caches_ok c -> LoadHashCache I c = Some c' -> caches_ok c'.
Proof.
  intros Hok. unfold LoadHashCache. set (l := chain_ids _ _ _). case_bool_decide as Hk.
  - clear Hk. clearbody l. revert c Hok. induction l as [|id l IH]; intros c Hok; cbn [load_blocks]; [by intros [= <-]|].
    destruct (load_block id c) as [c1|] eqn:E1; [|done]. cbn [mbind option_bind]. apply IH. by apply (load_block_ok id c).
  - intros [= <-]. destruct Hok as [H1 H2 H3 H4]. split; cbn; [done|by intros x y z Hx|done|].
    assert (forall m : gmap Z (Z * list Z), (forall x y z, foldl (fun m id => delete id m) m l !! x = Some (y, z) -> m !! x = Some (y, z))) as Hd.
    { clear. induction l as [|id l IH]; intros m x y z; cbn; [done|]. intros Hx%IH. by apply lookup_delete_Some in Hx as [_ Hx]. }
    intros x y z Hx%Hd. by apply (H4 x y z).
Qed.

(** C28: The proof-of-work hashes.  As long as the caches are filled by the code,
    a hash the node uses for a block was computed from a header with the
    identifier of the block, or the master key signed a message that gives
    it to that identifier; with signed hashes turned off it was computed.
    Received messages and loading the database, whose signatures are
    verified again, keep this, and a message without a valid signature changes
    nothing. *)
Theorem pow_hash_vouched c : caches_ok c ->
  (forall b pow c', block_GetPoWHash b c = Some (pow, c') ->
     caches_ok c' /\ (computed (Block.GetIDHash b) pow \/ fUse = true /\ exists sig, vouched (Block.GetIDHash b) pow sig)) /\
  (forall s ok c', Forall is_byte (sh_vchMsg s) -> ProcessRelaySignedHash s c = Some (ok, c') -> caches_ok c' /\ (ok = false -> c' = c)) /\
  (forall I c', LoadHashCache I c = Some c' -> caches_ok c').
Proof.
  intros Hok. split; [|split].
  - intros b pow c' E0. pose proof Hok as [H1 H2 H3 H4]. unfold block_GetPoWHash, GetPoWHash, GetSignedPoWHash in E0.
    destruct (if fUse then mapSigCache c !! Block.GetIDHash b else None) as [[p1 sig]|] eqn:Es.
    { injection E0 as <- <-. split; [done|]. right. destruct fUse; [|done]. split; [done|]. exists sig. by apply H2. }
    destruct (mapPoWCache c !! Block.GetIDHash b) as [p1|] eqn:Ep; [injection E0 as <- <-; split; [done|]; left; by apply H1|].
    destruct (ramhog (Block.header_bytes b)) as [out|] eqn:Eo; [|done]. cbn [mbind option_bind] in E0. injection E0 as <- <-.
    assert (computed (Block.GetIDHash b) (le_val out)) as Hc by (by exists b, out). split; [|by left].
    split; cbn; [|done| |done]; intros x y [[<- <-]|[_ Hx]]%lookup_insert_Some; [done|by apply H1|done|by apply H3].
  - intros s ok c' Hb. by apply relay_ok.
  - intros I c'. by apply load_ok.
Qed.

End blocks.

End caches.

(** ** A received hash *)

Section witnesses.
#[local] Existing Instance toy_digests.
#[local] Existing Instance Sig.demo_ec.

Definition no_caches : hash_cache := mk_cache ∅ ∅ ∅ ∅ ∅ None.

(** A header whose hash is received with a signature, and used. *)
Definition demo_header : CBlock := mk_block 1 0 0 100 0x1d00ffff 7 [] [].
Definition demo_signed : CSignedHash :=
  let msg := default [] (Serialize unsigned_codec (1, Block.GetIDHash demo_header, 5)) in
  mk_signed 1 0 0 msg (Util.ParseHex strMasterPubKey ++ take 1 (Hash msg)).

Lemma pow_hash_vouched_witness : exists c, ProcessRelaySignedHash demo_signed no_caches = Some (true, c) /\ caches_ok (fun _ => None) c.
Proof.
  assert (caches_ok (fun _ => None) no_caches) as H0 by (split; intros *; discriminate).
  destruct (ProcessRelaySignedHash demo_signed no_caches) as [[ok c]|] eqn:Er.
  - assert (ok = true) as ->.
    { apply (f_equal (fun r => from_option fst false r)) in Er. cbn [from_option fst] in Er. rewrite <- Er. vm_compute. reflexivity. }
    exists c. split; [reflexivity|]. destruct (pow_hash_vouched (fun _ => None) true no_caches H0) as (_ & H & _). refine (proj1 (H demo_signed true c _ Er)).
    apply (bool_decide_eq_true_1 (Forall (fun b => 0 <= b < 256) _)). vm_compute. reflexivity.
  - exfalso. apply (f_equal (fun r => bool_decide (is_Some r))) in Er. vm_compute in Er. discriminate Er.
Defined.

End witnesses.

End SignedHash.
