(* ===== verification/Kernel.v ===== *)
(** * The proof-of-stake kernel (src/src/kernel.cpp)

    The stake modifier, a 64-bit value renewed once per interval from the
    entropy bits of up to 64 blocks chosen pseudo-randomly from the recent
    past, and the kernel hash that a coin must bring below a target weighted
    by its age.  The functions walk the block index, so they take it as an
    argument; the loops over [pprev] and [pnext] are bounded by the number of
    entries. *)

From stdpp Require Import gmap sorting.
From S2P Require Import Prelude Uint256 Bignum Crypto Serialize Tx Work Block BlockIndex.
Import BlockIndex.

Module Kernel.

Definition MODIFIER_INTERVAL_RATIO : Z := 3.

(** [pair<int64, uint256>] in the order of [sort]. *)
Abbreviation item := (Z * Z)%type.
Definition item_le (a b : item) : Prop := a.1 < b.1 \/ (a.1 = b.1 /\ a.2 <= b.2).

#[global] Instance item_le_dec a b : Decision (item_le a b).
Proof. unfold item_le. apply _. Defined.
#[global] Instance item_le_trans : Transitive item_le.
Proof. intros a b c. unfold item_le. lia. Qed.
#[global] Instance item_le_total : Total item_le.
Proof. intros a b. unfold item_le. lia. Qed.

Section kernel.
Context {L : BNLib} {D : DigestLib} (fTestNet : bool) (p : NetParams) (I : index).

(** Walking back to the last entry that generated a modifier: the modifier
    and its time; [None] when there is none. *)
Fixpoint last_modifier (fuel : nat) (n : node) : option (Z * Z) :=
  if Work.GeneratedStakeModifier (entry n)
  then Some (bi_nStakeModifier (entry n), Work.bi_GetBlockTime (entry n))
  else match fuel, deref I (pprev n) with
       | S f, Some m => last_modifier f m
       | _, _ => None
       end.

Definition GetLastStakeModifier (pindex : option Z) : option (Z * Z) :=
  n ← deref I pindex; last_modifier (size (mapBlockIndex I)) n.

(** [nModifierInterval] is an unsigned int, so the product and the quotient are. *)
Definition GetStakeModifierSelectionIntervalSection (nSection : Z) : Z :=
  u32 (nModifierInterval p * 63) / (63 + (63 - nSection) * (MODIFIER_INTERVAL_RATIO - 1)).

Definition GetStakeModifierSelectionInterval : Z :=
  fold_left (fun s k => s + GetStakeModifierSelectionIntervalSection (Z.of_nat k)) (seq 0 64) 0.

(** The hash by which the candidates compete. *)
Definition selection_hash (nStakeModifierPrev : Z) (i : CBlockIndex) : Z :=
  let hashProof := if Work.bi_IsProofOfStake i then bi_hashProofOfStake i else bi_hash i in
  let hashSelection := le_val (Hash (le_bytes 32 hashProof ++ le_bytes 8 nStakeModifierPrev)) in
  if Work.bi_IsProofOfStake i then Z.shiftr hashSelection 32 else hashSelection.

(** The loop over the candidates; [best] is the best hash and its entry once
    fSelected holds, and the outer [None] a candidate that is not indexed. *)
Fixpoint select_loop (l : list item) (selected : gset Z) (stop prev : Z) (best : option (Z * node)) : option (option (Z * node)) :=
  match l with
  | [] => Some best
  | it :: l =>
      match mapBlockIndex I !! it.2 with
      | None => None
      | Some n =>
          match best with
          | Some b =>
              if stop <? Work.bi_GetBlockTime (entry n) then Some best
              else if bool_decide (GetBlockIDHash n ∈ selected) then select_loop l selected stop prev best
              else
                let h := selection_hash prev (entry n) in
                select_loop l selected stop prev (if h <? b.1 then Some (h, n) else best)
          | None =>
              if bool_decide (GetBlockIDHash n ∈ selected) then select_loop l selected stop prev None
              else select_loop l selected stop prev (Some (selection_hash prev (entry n), n))
          end
      end
  end.

(** [None]: the result is false. *)
Definition SelectBlockFromCandidates (vSortedByTimestamp : list item) (mapSelectedBlocks : gset Z)
    (nSelectionIntervalStop nStakeModifierPrev : Z) : option node :=
  b ← select_loop vSortedByTimestamp mapSelectedBlocks nSelectionIntervalStop nStakeModifierPrev None;
  snd <$> b.

(** The entries from [pindex] back to the start of the selection interval. *)
Fixpoint collect (fuel : nat) (pindex : option Z) (start : Z) : list item :=
  match fuel, deref I pindex with
  | S f, Some n =>
      if start <=? Work.bi_GetBlockTime (entry n)
      then (Work.bi_GetBlockTime (entry n), GetBlockIDHash n) :: collect f (pprev n) start
      else []
  | _, _ => []
  end.

Definition candidates (pindexPrev : option Z) (start : Z) : list item :=
  merge_sort item_le (reverse (collect (size (mapBlockIndex I)) pindexPrev start)).

(** The selection rounds from [nRound] on: the new modifier. *)
Fixpoint rounds (cnt : nat) (nRound : Z) (cands : list item) (prev stop : Z) (selected : gset Z) (acc : Z) : option Z :=
  match cnt with
  | O => Some acc
  | S c =>
      let stop := stop + GetStakeModifierSelectionIntervalSection nRound in
      n ← SelectBlockFromCandidates cands selected stop prev;
      rounds c (nRound + 1) cands prev stop ({[GetBlockIDHash n]} ∪ selected)
        (Z.lor acc (u64 (Z.shiftl (Work.GetStakeEntropyBit (entry n)) nRound)))
  end.

(** The modifier for the block after [pindexCurrent->pprev] and whether it is
    a new one; [None]: an error. *)
Definition ComputeNextStakeModifier (current : node) : option (Z * bool) :=
  match deref I (pprev current) with
  | None => Some (0, true)
  | Some prev =>
      '(nStakeModifier, nModifierTime) ← GetLastStakeModifier (pprev current);
      let interval := nModifierInterval p in
      let time := Work.bi_GetBlockTime (entry prev) in
      if time / interval <=? nModifierTime / interval then Some (nStakeModifier, false)
      else if (Work.bi_GetBlockTime (entry current) / interval <=? nModifierTime / interval)
              && Block.IsProtocolV04 fTestNet (bi_nTime (entry current))
      then Some (nStakeModifier, false)
      else
        let start := time / interval * interval - GetStakeModifierSelectionInterval in
        let cands := candidates (pprev current) start in
        m ← rounds (Nat.min 64 (length cands)) 0 cands nStakeModifier start ∅ 0;
        Some (m, true)
  end.

(** [GetKernelStakeModifier]: along [pnext] until the last generated modifier
    is a selection interval younger than the block the coin comes from.  The
    result is the modifier, its height and its time. *)
Fixpoint kernel_modifier_loop (fuel : nat) (until : Z) (n : node) (height time : Z) : option (Z * Z * Z) :=
  if until <=? time then Some (bi_nStakeModifier (entry n), height, time)
  else
    match fuel, deref I (pnext n) with
    | S f, Some m =>
        if Work.GeneratedStakeModifier (entry m)
        then kernel_modifier_loop f until m (bi_nHeight (entry m)) (Work.bi_GetBlockTime (entry m))
        else kernel_modifier_loop f until m height time
    | _, _ => None
    end.

Definition GetKernelStakeModifier (hashBlockFrom : Z) : option (Z * Z * Z) :=
  from ← mapBlockIndex I !! hashBlockFrom;
  kernel_modifier_loop (size (mapBlockIndex I))
    (Work.bi_GetBlockTime (entry from) + GetStakeModifierSelectionInterval) from
    (bi_nHeight (entry from)) (Work.bi_GetBlockTime (entry from)).

(** The weight of a coin: its value times its age beyond the minimum, in
    coin-days.  [None]: a division by zero. *)
Definition coin_day_weight (nValueIn nTimeTxPrev nTimeTx : Z) : option Z :=
  let nTimeWeight :=
    Z.min (nTimeTx - nTimeTxPrev) Work.STAKE_MAX_AGE -
    (if Block.IsProtocolV03 fTestNet nTimeTx then nStakeMinAge p else 0) in
  w ← BigNum.op_div (BigNum.op_times (BigNum.CBigNum_int nValueIn) (BigNum.CBigNum_int nTimeWeight)) (BigNum.CBigNum_int COIN);
  BigNum.op_div w (BigNum.CBigNum_int (24 * 60 * 60)).

(** [CheckStakeKernelHash]: hashProofOfStake, or [None] for false. *)
Definition CheckStakeKernelHash (nBits : Z) (blockFrom : CBlock) (nTxPrevOffset : Z) (txPrev : CTransaction)
    (prevout : COutPoint) (nTimeTx : Z) : option Z :=
  if nTimeTx <? nTime txPrev then None
  else
    let nTimeBlockFrom := u32 (Block.GetBlockTime blockFrom) in
    if nTimeTx <? u32 (nTimeBlockFrom + nStakeMinAge p) then None
    else
      let bnTargetPerCoinDay := BigNum.SetCompact nBits in
      out ← vout txPrev !! Z.to_nat (out_n prevout);
      bnCoinDayWeight ← coin_day_weight (nValue out) (nTime txPrev) nTimeTx;
      first ← (if Block.IsProtocolV03 fTestNet nTimeTx
               then (fun r => le_bytes 8 r.1.1) <$> GetKernelStakeModifier (Block.GetIDHash blockFrom)
               else Some (le_bytes 4 nBits));
      let hash := Hash (first ++ le_bytes 4 nTimeBlockFrom ++ le_bytes 4 nTxPrevOffset ++ le_bytes 4 (nTime txPrev)
                          ++ le_bytes 4 (out_n prevout) ++ le_bytes 4 nTimeTx) in
      if BigNum.op_gtb (BigNum.setuint256 (Uint.limbs_of_bytes 8 hash)) (BigNum.op_times bnCoinDayWeight bnTargetPerCoinDay)
      then None
      else Some (le_val hash).

(** [hashChecksum >>= (256 - 32)] and [Get64]. *)
Definition GetStakeModifierChecksum (n : node) : Z :=
  let i := entry n in
  let prev := from_option (fun m => le_bytes 4 (bi_nStakeModifierChecksum (entry m))) [] (deref I (pprev n)) in
  u32 (Z.shiftr (le_val (Hash (prev ++ le_bytes 4 (bi_nFlags i) ++ le_bytes 32 (bi_hashProofOfStake i)
                                 ++ le_bytes 8 (bi_nStakeModifier i)))) (256 - 32)).

(** The table of checkpoints is empty in this version. *)
Definition mapStakeModifierCheckpoints : gmap Z Z := ∅.

Definition CheckStakeModifierCheckpoints (nHeight nStakeModifierChecksum : Z) : bool :=
  if fTestNet then true
  else match mapStakeModifierCheckpoints !! nHeight with
       | Some c => nStakeModifierChecksum =? c
       | None => true
       end.

End kernel.

(** ** Selection *)

Section selection.
Context {D : DigestLib} (p : NetParams) (I : index).

(** A candidate stands for an entry of the index, with its time and hash. *)
Definition stands_for (it : item) (n : node) : Prop :=
  mapBlockIndex I !! it.2 = Some n /\ it.1 = Work.bi_GetBlockTime (entry n) /\ it.2 = GetBlockIDHash n.

Record cands_ok (l : list item) : Prop := {
  cands_indexed : Forall (fun it => exists n, stands_for it n) l;
  cands_sorted : StronglySorted item_le l;
  cands_nodup : NoDup (l.*2)
}.

(** What a round promises: [n] is a candidate that is not selected yet, no
    such candidate up to the end of the round hashes lower, and a candidate
    after the end is taken only if there is none up to it. *)
Record best_candidate (l : list item) (selected : gset Z) (stop prev : Z) (n : node) : Prop := {
  best_in : (Work.bi_GetBlockTime (entry n), GetBlockIDHash n) ∈ l;
  best_new : GetBlockIDHash n ∉ selected;
  best_min : forall it m, it ∈ l -> stands_for it m -> it.2 ∉ selected -> it.1 <= stop ->
    selection_hash prev (entry n) <= selection_hash prev (entry m);
  best_late : stop < Work.bi_GetBlockTime (entry n) ->
    forall it, it ∈ l -> it.2 ∉ selected -> stop < it.1
}.

Lemma select_loop_some l selected stop prev : forall h n,
  Forall (fun it => exists n, stands_for it n) l -> StronglySorted item_le l ->
  h = selection_hash prev (entry n) ->
  exists m, select_loop I l selected stop prev (Some (h, n)) = Some (Some (selection_hash prev (entry m), m)) /\
    selection_hash prev (entry m) <= h /\
    (m = n \/ ((Work.bi_GetBlockTime (entry m), GetBlockIDHash m) ∈ l /\ (GetBlockIDHash m ∉ selected) /\
              Work.bi_GetBlockTime (entry m) <= stop)) /\
    forall it x, it ∈ l -> stands_for it x -> it.2 ∉ selected -> it.1 <= stop ->
      selection_hash prev (entry m) <= selection_hash prev (entry x).
Proof.
  induction l as [|it l IH]; intros h n Hix Hso Hh.
  { exists n. cbn. subst h. split; [done|]. split; [lia|]. split; [by left|]. intros it x Hit. by apply elem_of_nil in Hit. }
  inversion Hix as [|? ? (x & Hx) Hix']; subst. inversion Hso as [|? ? Hso' Hle]; subst.
  pose proof Hx as (Ex & Et & Ehash). cbn [select_loop]. rewrite Ex. cbn [fst].
  destruct (Z.ltb_spec stop (Work.bi_GetBlockTime (entry x))) as [Hstop|Hstop].
  { exists n. split; [done|]. split; [lia|]. split; [by left|].
    intros it' y [->|Hin]%elem_of_cons _ _ Hs; [lia|]. rewrite Forall_forall in Hle.
    specialize (Hle it' Hin). unfold item_le in Hle. lia. }
  case_bool_decide as Hsel.
  { destruct (IH (selection_hash prev (entry n)) n Hix' Hso' eq_refl) as (m & E & Hm & Ho & Hmin). exists m. split; [done|]. split; [done|].
    split; [destruct Ho as [?|(? & ?)]; [by left|right; split; [by right|done]]|].
    intros it' y [->|Hin]%elem_of_cons Hy Hns; [congruence|by apply (Hmin it')]. }
  destruct (Z.ltb_spec (selection_hash prev (entry x)) (selection_hash prev (entry n))) as [Hlt|Hge].
  - destruct (IH _ x Hix' Hso' eq_refl) as (m & E & Hm & Ho & Hmin). exists m. split; [done|]. split; [lia|].
    split; [right; destruct Ho as [->|(? & ?)]; [|split; [by right|done]]|].
    + split; [rewrite <- Et, <- Ehash, <- surjective_pairing; by left|done].
    + intros it' y [->|Hin]%elem_of_cons Hy Hns Hs; [|by apply (Hmin it')]. destruct Hy as (Ey & _). congruence.
  - destruct (IH _ n Hix' Hso' eq_refl) as (m & E & Hm & Ho & Hmin). exists m. split; [done|]. split; [lia|].
    split; [destruct Ho as [?|(? & ?)]; [by left|right; split; [by right|done]]|].
    intros it' y [->|Hin]%elem_of_cons Hy Hns Hs; [|by apply (Hmin it')]. destruct Hy as (Ey & _). assert (y = x) as -> by congruence. lia.
Qed.

(** A candidate that is not selected yet is enough for a round to succeed. *)
Lemma select_spec l selected stop prev :
  cands_ok l -> (exists it, it ∈ l /\ it.2 ∉ selected) ->
  exists n, SelectBlockFromCandidates I l selected stop prev = Some n /\ best_candidate l selected stop prev n.
Proof.
  intros [Hix Hso _]. unfold SelectBlockFromCandidates. induction l as [|it l IH]; intros (i0 & Hin & Hns).
  { by apply elem_of_nil in Hin. }
  inversion Hix as [|? ? (x & Hx) Hix']; subst. inversion Hso as [|? ? Hso' Hle]; subst.
  pose proof Hx as (Ex & Et & Eh). cbn [select_loop]. rewrite Ex. case_bool_decide as Hsel.
  - apply elem_of_cons in Hin as [->|Hin]; [congruence|].
    destruct (IH Hix' Hso') as (n & E & [B1 B2 B3 B4]); [eauto|]. exists n. split; [done|].
    split; [by right|done| |].
    + intros it' m [->|Hi]%elem_of_cons Hm Hn; [congruence|by apply (B3 it')].
    + intros Hs it' [->|Hi]%elem_of_cons Hn; [congruence|by apply B4].
  - destruct (select_loop_some l selected stop prev _ x Hix' Hso' eq_refl) as (m & E & Hm & Ho & Hmin).
    rewrite E. cbn. exists m. split; [done|].
    assert (it = (Work.bi_GetBlockTime (entry x), GetBlockIDHash x)) as Eit by (by rewrite <- Et, <- Eh, <- surjective_pairing).
    split.
    + destruct Ho as [->|(Hi & _)]; [rewrite Eit; by left|by right].
    + destruct Ho as [->|(_ & ? & _)]; done.
    + intros it' y [->|Hi]%elem_of_cons Hy Hn Hs; [|by apply (Hmin it')]. destruct Hy as (Ey & _). assert (y = x) as -> by congruence. lia.
    + intros Hs. destruct Ho as [->|(_ & _ & ?)]; [|lia]. intros it' [->|Hi]%elem_of_cons _; [lia|].
      rewrite Forall_forall in Hle. specialize (Hle it' Hi). unfold item_le in Hle. lia.
Qed.

Lemma unselected_exists l (selected : gset Z) :
  NoDup (l.*2) -> (size selected < length l)%nat -> exists it : item, it ∈ l /\ it.2 ∉ selected.
Proof.
  intros Hnd Hsz. destruct (decide (Exists (fun it => it.2 ∉ selected) l)) as [He|Hne]; [by apply Exists_exists in He|].
  exfalso. apply not_Exists_Forall in Hne; [|apply _].
  assert (list_to_set (C := gset Z) (l.*2) ⊆ selected) as Hsub.
  { intros h Hh. apply elem_of_list_to_set, list_elem_of_fmap in Hh as (it & -> & Hit). rewrite Forall_forall in Hne.
    specialize (Hne it Hit). by destruct (decide (it.2 ∈ selected)). }
  apply subseteq_size in Hsub. rewrite size_list_to_set, length_fmap in Hsub by done. lia.
Qed.

(** The entries chosen in consecutive rounds. *)
Fixpoint chosen (l : list item) (prev : Z) (nRound : Z) (stop : Z) (selected : gset Z) (ns : list node) : Prop :=
  match ns with
  | [] => True
  | n :: ns =>
      let stop := stop + GetStakeModifierSelectionIntervalSection p nRound in
      best_candidate l selected stop prev n /\ chosen l prev (nRound + 1) stop ({[GetBlockIDHash n]} ∪ selected) ns
  end.

Lemma chosen_nodup l prev : forall ns r stop selected, chosen l prev r stop selected ns ->
  NoDup (GetBlockIDHash <$> ns) /\ Forall (fun n => GetBlockIDHash n ∉ selected) ns.
Proof.
  induction ns as [|n ns IH]; intros r stop selected Hc; [split; constructor|]. destruct Hc as [[_ Hn _ _] Hc].
  destruct (IH _ _ _ Hc) as [Hd Hf]. rewrite Forall_forall in Hf. split; cbn.
  - constructor; [|done]. intros (m & Em & Hm)%list_elem_of_fmap. specialize (Hf m Hm). set_solver.
  - constructor; [done|]. apply Forall_forall. intros m Hm. specialize (Hf m Hm). set_solver.
Qed.

Lemma entropy_bit i : Work.GetStakeEntropyBit i = Z.b2z (Z.testbit (bi_nFlags i) 1).
Proof.
  unfold Work.GetStakeEntropyBit. change Work.BLOCK_STAKE_ENTROPY with (Z.shiftl 1 1).
  apply Z.bits_inj'. intros k Hk. rewrite Z.shiftr_spec, Z.land_spec, Z.shiftl_spec by lia.
  destruct (Z.eq_dec k 0) as [->|Hne].
  { change (Z.testbit 1 (0 + 1 - 1)) with true. rewrite andb_true_r. change (0 + 1) with 1. by destruct (Z.testbit (bi_nFlags i) 1). }
  replace (k + 1 - 1) with k by lia. rewrite (Z.bits_above_log2 1 k), andb_false_r by (cbn; lia).
  destruct (Z.testbit (bi_nFlags i) 1); cbn; [|by rewrite Z.bits_0].
  by rewrite (Z.bits_above_log2 1 k) by (cbn; lia).
Qed.

Lemma rounds_spec cands prev : cands_ok cands -> forall cnt r stop selected acc,
  0 <= r -> r + Z.of_nat cnt <= 64 -> (size selected + cnt <= length cands)%nat -> 0 <= acc < 2 ^ r ->
  exists ns m, rounds p I cnt r cands prev stop selected acc = Some m /\ length ns = cnt /\
    0 <= m < 2 ^ (r + Z.of_nat cnt) /\ (forall i, 0 <= i < r -> Z.testbit m i = Z.testbit acc i) /\
    (forall i n, ns !! i = Some n -> Z.testbit m (r + Z.of_nat i) = Z.testbit (bi_nFlags (entry n)) 1) /\
    chosen cands prev r stop selected ns.
Proof.
  intros Hc. induction cnt as [|cnt IH]; intros r stop selected acc Hr Hr64 Hsz Hacc.
  { exists [], acc. change (Z.of_nat 0) with 0. rewrite Z.add_0_r. split; [done|]. split; [done|]. split; [done|]. done. }
  destruct (unselected_exists cands selected (cands_nodup _ Hc) ltac:(lia)) as (it & Hit & Hns).
  cbn [rounds]. set (stop' := stop + _). destruct (select_spec cands selected stop' prev Hc ltac:(eauto)) as (n & E & Hb).
  rewrite E. cbn [mbind option_bind]. rewrite entropy_bit.
  set (b := Z.testbit (bi_nFlags (entry n)) 1).
  assert (0 < 2 ^ r) by (apply Z.pow_pos_nonneg; lia).
  assert (2 ^ (r + 1) = 2 * 2 ^ r) as Epow by (rewrite Z.pow_add_r by lia; lia).
  assert (2 ^ (r + 1) <= 2 ^ 64) by (apply Z.pow_le_mono_r; lia).
  assert (0 <= Z.shiftl (Z.b2z b) r <= 2 ^ r) as Hsh by (rewrite Z.shiftl_mul_pow2 by lia; destruct b; cbn [Z.b2z]; lia).
  rewrite u64_small by lia.
  assert (Z.lor acc (Z.shiftl (Z.b2z b) r) = acc + Z.b2z b * 2 ^ r) as El.
  { rewrite lor_shiftl_add by lia. done. }
  destruct (IH (r + 1) stop' ({[GetBlockIDHash n]} ∪ selected) (Z.lor acc (Z.shiftl (Z.b2z b) r)))
    as (ns & m & Em & Hl & Hm & Hlow & Hbits & Hch); [lia|lia| | |].
  { rewrite size_union_alt, size_singleton.
    pose proof (subseteq_size (selected ∖ {[GetBlockIDHash n]}) selected ltac:(set_solver)). lia. }
  { rewrite El, Epow. destruct b; cbn [Z.b2z]; lia. }
  exists (n :: ns), m. split; [done|]. split; [by cbn; f_equal|].
  replace (r + Z.of_nat (S cnt)) with (r + 1 + Z.of_nat cnt) by lia. split; [done|].
  split; [intros i Hi; rewrite Hlow by lia; rewrite Z.lor_spec, Z.shiftl_spec, (Z.testbit_neg_r _ (i - r)), orb_false_r by lia; done|].
  split; [|cbn; by split].
  intros [|i] x Hx; cbn in Hx.
  - injection Hx as <-. rewrite Z.add_0_r, Hlow by lia. rewrite Z.lor_spec, Z.shiftl_spec, Z.sub_diag by lia.
    rewrite (testbit_high r acc r) by lia. cbn [orb]. fold b. by destruct b.
  - replace (r + Z.of_nat (S i)) with (r + 1 + Z.of_nat i) by lia. by apply Hbits.
Qed.

End selection.

(** ** The modifier of the next block *)

Section modifier.
Context {D : DigestLib} (fTestNet : bool) (p : NetParams) (I : index) (HI : links_ok I).

Lemma indexed_path h n : mapBlockIndex I !! h = Some n ->
  exists l, path I (Some h) l /\ last l = Some (hashGenesisBlock I) /\ NoDup l /\ (length l <= size (mapBlockIndex I))%nat.
Proof.
  intros Hn. destruct (HI h n Hn) as (_ & Hh & _).
  destruct (path_exists I HI (Z.to_nat (bi_nHeight (entry n))) h n Hn ltac:(lia)) as (l & P1 & _ & P3 & _ & P5).
  assert (forall i j x, l !! i = Some x -> l !! j = Some x -> i = j) as Hinj.
  { intros i j x Hi Hj. destruct (P5 i x Hi) as (m1 & E1 & F1), (P5 j x Hj) as (m2 & E2 & F2).
    rewrite E1 in E2. injection E2 as <-. lia. }
  exists l. split; [done|]. split; [done|]. split; [by apply NoDup_alt|]. by apply (path_size I l (Some h)).
Qed.

(** [collect] gives the first entries of the path, each with its time. *)
Lemma collect_prefix start : forall fuel q l, path I q l ->
  Forall (fun it => exists n, stands_for I it n /\ start <= it.1) (collect I fuel q start) /\
  (collect I fuel q start).*2 `prefix_of` l.
Proof.
  induction fuel as [|fuel IH]; intros q l Hp; [split; [constructor|apply prefix_nil]|]. cbn [collect].
  destruct l as [|h l]; cbn [path] in Hp; [subst q; cbn; split; [constructor|done]|].
  destruct Hp as (-> & n & Hn & Hl). cbn [deref mbind option_bind]. rewrite Hn.
  destruct (HI h n Hn) as (Eh & _). destruct (Z.leb_spec start (Work.bi_GetBlockTime (entry n))); [|split; [constructor|apply prefix_nil]].
  destruct (IH _ _ Hl) as [H1 H2]. split.
  - constructor; [|done]. exists n. unfold stands_for, GetBlockIDHash. cbn. rewrite Eh. done.
  - cbn. unfold GetBlockIDHash. rewrite Eh. by apply prefix_cons.
Qed.

Lemma candidates_ok h n start : mapBlockIndex I !! h = Some n -> cands_ok I (candidates I (Some h) start).
Proof.
  intros Hn. destruct (indexed_path h n Hn) as (l & Hp & _ & Hnd & _).
  destruct (collect_prefix start (size (mapBlockIndex I)) _ l Hp) as [H1 [k H2]].
  assert (candidates I (Some h) start ≡ₚ collect I (size (mapBlockIndex I)) (Some h) start) as HP.
  { unfold candidates. by rewrite merge_sort_Permutation, reverse_Permutation. }
  split.
  - rewrite HP. eapply Forall_impl; [exact H1|]. intros it (x & Hx & _). eauto.
  - apply StronglySorted_merge_sort; apply _.
  - rewrite HP. rewrite H2 in Hnd. by apply NoDup_app in Hnd as (? & _).
Qed.

(** The entry whose modifier is current: the first on the path that generated one. *)
Lemma last_modifier_spec l : forall fuel h n g, path I (Some h) l -> mapBlockIndex I !! h = Some n -> (length l <= S fuel)%nat ->
  last l = Some g -> (forall ng, mapBlockIndex I !! g = Some ng -> Work.GeneratedStakeModifier (entry ng) = true) ->
  exists k x nx, l !! k = Some x /\ mapBlockIndex I !! x = Some nx /\ Work.GeneratedStakeModifier (entry nx) = true /\
    (forall i y ny, (i < k)%nat -> l !! i = Some y -> mapBlockIndex I !! y = Some ny -> Work.GeneratedStakeModifier (entry ny) = false) /\
    last_modifier I fuel n = Some (bi_nStakeModifier (entry nx), Work.bi_GetBlockTime (entry nx)).
Proof.
  induction l as [|h' l IH]; intros fuel h n g Hp Hn Hf Hlast Hg; [done|].
  destruct Hp as ([= <-] & n' & Hn' & Hl). rewrite Hn in Hn'. injection Hn' as <-.
  destruct (Work.GeneratedStakeModifier (entry n)) eqn:Eg.
  { exists 0%nat, h, n. split; [done|]. split; [done|]. split; [done|]. split; [intros; lia|]. destruct fuel; cbn; by rewrite Eg. }
  destruct l as [|h2 l].
  { injection Hlast as <-. rewrite (Hg n Hn) in Eg. done. }
  pose proof Hl as (Ep & n2 & Hn2 & _). destruct fuel as [|fuel]; [cbn in Hf; lia|].
  rewrite Ep in Hl. destruct (IH fuel h2 n2 g Hl Hn2) as (k & x & nx & H1 & H2 & H3 & H4 & H5); [cbn in *; lia|done|done|].
  exists (S k), x, nx. split; [done|]. split; [done|]. split; [done|]. split.
  - intros [|i] y ny Hi Hy Hny; [injection Hy as <-; congruence|]. apply (H4 i y ny); [lia|done|done].
  - cbn [last_modifier]. rewrite Eg, Ep. cbn. by rewrite Hn2.
Qed.

(** C30: When the genesis block carries a modifier, every block has a next one:
    0 for the genesis block; the current modifier while the interval of the
    previous block (and of the new one, from protocol 0.4 on) has not changed;
    otherwise a new 64-bit number whose bit [i] is the entropy bit of the block
    chosen in round [i], among the distinct blocks of the selection interval,
    each the one with the lowest hash that its round admits. *)
Theorem next_modifier_total current :
  (forall h, pprev current = Some h -> is_Some (mapBlockIndex I !! h)) ->
  (forall ng, mapBlockIndex I !! hashGenesisBlock I = Some ng -> Work.GeneratedStakeModifier (entry ng) = true) ->
  match deref I (pprev current) with
  | None => ComputeNextStakeModifier fTestNet p I current = Some (0, true)
  | Some prev =>
      exists nx, mapBlockIndex I !! GetBlockIDHash nx = Some nx /\ Work.GeneratedStakeModifier (entry nx) = true /\
        let T n := Work.bi_GetBlockTime (entry n) / nModifierInterval p in
        if (T prev <=? T nx) || ((T current <=? T nx) && Block.IsProtocolV04 fTestNet (bi_nTime (entry current)))
        then ComputeNextStakeModifier fTestNet p I current = Some (bi_nStakeModifier (entry nx), false)
        else exists ns m,
          let start := T prev * nModifierInterval p - GetStakeModifierSelectionInterval p in
          let cands := candidates I (pprev current) start in
          ComputeNextStakeModifier fTestNet p I current = Some (m, true) /\ 0 <= m < 2 ^ 64 /\
          length ns = Nat.min 64 (length cands) /\ NoDup (GetBlockIDHash <$> ns) /\
          (forall i n, ns !! i = Some n -> Z.testbit m (Z.of_nat i) = Z.testbit (bi_nFlags (entry n)) 1) /\
          chosen p I cands (bi_nStakeModifier (entry nx)) 0 start ∅ ns
  end.
Proof.
  intros Hprev Hgen. unfold ComputeNextStakeModifier. destruct (deref I (pprev current)) as [prev|] eqn:Ed; [|done].
  destruct (pprev current) as [h|] eqn:Ep; [|done]. cbn in Ed.
  destruct (indexed_path h prev Ed) as (l & Hp & Hlast & _ & Hsz).
  destruct (last_modifier_spec l (size (mapBlockIndex I)) h prev _ Hp Ed ltac:(lia) Hlast Hgen) as (k & x & nx & _ & Hx & Hg & _ & Em).
  unfold GetLastStakeModifier. cbn [deref mbind option_bind]. rewrite Ed. cbn [mbind option_bind]. rewrite Em. cbn [mbind option_bind].
  exists nx. destruct (HI x nx Hx) as (Eh & _). unfold GetBlockIDHash at 1. rewrite Eh. split; [done|]. split; [done|]. cbv zeta.
  destruct (_ <=? _); [done|]. cbn [orb]. destruct (_ && _); [done|].
  set (start := _ - _). set (cands := candidates I (Some h) start).
  destruct (rounds_spec p I cands (bi_nStakeModifier (entry nx)) (candidates_ok h prev start Ed)
              (Nat.min 64 (length cands)) 0 start ∅ 0) as (ns & m & E & Hl & Hm & _ & Hb & Hc); [lia|lia| |lia|].
  { rewrite size_empty. lia. }
  exists ns, m. split; [by rewrite E|].
  assert (2 ^ (0 + Z.of_nat (Nat.min 64 (length cands))) <= 2 ^ 64) by (apply Z.pow_le_mono_r; lia).
  split; [lia|]. split; [done|]. split; [by apply (chosen_nodup p I cands (bi_nStakeModifier (entry nx)) ns 0 start ∅)|]. split; [|done].
  intros i n Hi. by rewrite <- (Hb i n Hi).
Qed.

End modifier.

(** ** The modifier of a kernel *)

Section kernel_modifier.
Context (p : NetParams) (I : index).

(** [pnext] leads to an entry one higher. *)
Definition next_ok : Prop := forall n h', pnext n = Some h' ->
  (exists h, mapBlockIndex I !! h = Some n) ->
  exists n', mapBlockIndex I !! h' = Some n' /\ bi_nHeight (entry n') = bi_nHeight (entry n) + 1.

Fixpoint next_chain (n : node) (ns : list node) : Prop :=
  match ns with
  | [] => True
  | m :: ns => deref I (pnext n) = Some m /\ next_chain m ns
  end.

(** The entries above a height: what is left for the loop. *)
Definition above (n : node) : gmap Z node :=
  filter (fun p : Z * node => bi_nHeight (entry n) < bi_nHeight (entry p.2)) (mapBlockIndex I).

Lemma above_step h n h' m : mapBlockIndex I !! h' = Some m -> bi_nHeight (entry m) = bi_nHeight (entry n) + 1 ->
  mapBlockIndex I !! h = Some n -> (size (above m) < size (above n))%nat.
Proof.
  intros Hm Hh Hn.
  assert (above n !! h' = Some m) as Hin by (apply map_lookup_filter_Some; split; [done|cbn; lia]).
  assert (above m ⊆ delete h' (above n)) as Hsub.
  { apply map_subseteq_spec. intros k x (Hx & Hlt)%map_lookup_filter_Some. cbn in Hlt. rewrite lookup_delete_ne.
    - apply map_lookup_filter_Some. split; [done|]. cbn. lia.
    - intros ->. rewrite Hm in Hx. injection Hx as <-. lia. }
  apply map_subseteq_size in Hsub. rewrite map_size_delete_Some in Hsub by (by eexists).
  assert (size (above n) <> 0%nat); [|lia]. intros E. apply map_size_empty_inv in E. rewrite E in Hin. done.
Qed.

(** An entry whose modifier would do. *)
Definition late_modifier (until : Z) (n : node) : Prop :=
  Work.GeneratedStakeModifier (entry n) = true /\ until <= Work.bi_GetBlockTime (entry n).

Lemma kernel_modifier_loop_spec until : next_ok -> forall fuel h n height time,
  mapBlockIndex I !! h = Some n -> (size (above n) <= fuel)%nat -> time < until ->
  match kernel_modifier_loop I fuel until n height time with
  | Some r => exists ns m, next_chain n (ns ++ [m]) /\ late_modifier until m /\ Forall (fun x => ~ late_modifier until x) ns /\
      r = (bi_nStakeModifier (entry m), bi_nHeight (entry m), Work.bi_GetBlockTime (entry m))
  | None => exists ns, next_chain n ns /\ Forall (fun x => ~ late_modifier until x) ns /\
      pnext (default n (last ns)) = None
  end.
Proof.
  intros Hnext. induction fuel as [|fuel IH]; intros h n height time Hn Hf Ht; cbn [kernel_modifier_loop];
    rewrite (proj2 (Z.leb_gt _ _)) by lia.
  - exists []. split; [done|]. split; [constructor|]. cbn. destruct (pnext n) as [h'|] eqn:Ep; [|done].
    destruct (Hnext n h' Ep) as (m & Hm & Hh); [eauto|]. pose proof (above_step h n h' m Hm Hh Hn). lia.
  - destruct (pnext n) as [h'|] eqn:Ep; [|exists []; split; [done|split; [constructor|done]]].
    destruct (Hnext n h' Ep) as (m & Hm & Hh); [eauto|]. pose proof (above_step h n h' m Hm Hh Hn) as Hlt.
    cbn. rewrite Hm.
    assert (forall ns, next_chain m ns -> next_chain n (m :: ns)) as Hcons.
    { intros ns Hns. split; [|done]. rewrite Ep. done. }
    destruct (decide (late_modifier until m)) as [Hl|Hl].
    { destruct Hl as [Hg Hl]. rewrite Hg. assert (forall f, kernel_modifier_loop I f until m (bi_nHeight (entry m)) (Work.bi_GetBlockTime (entry m)) =
        Some (bi_nStakeModifier (entry m), bi_nHeight (entry m), Work.bi_GetBlockTime (entry m))) as ->.
      { intros f. destruct f; cbn; by rewrite (proj2 (Z.leb_le _ _) Hl). }
      exists [], m. split; [by apply (Hcons [])|]. split; [done|]. split; [constructor|done]. }
    destruct (Work.GeneratedStakeModifier (entry m)) eqn:Eg.
    + assert (Work.bi_GetBlockTime (entry m) < until) as Ht'.
      { apply Z.nle_gt. intros Hle. by apply Hl. }
      specialize (IH h' m (bi_nHeight (entry m)) (Work.bi_GetBlockTime (entry m)) Hm ltac:(lia) Ht').
      destruct (kernel_modifier_loop I fuel until m _ _) as [r|].
      * destruct IH as (ns & x & H1 & H2 & H3 & H4). exists (m :: ns), x. split; [by apply Hcons|]. split; [done|]. split; [by constructor|done].
      * destruct IH as (ns & H1 & H2 & H3). exists (m :: ns). split; [by apply Hcons|]. split; [by constructor|].
        rewrite last_cons. by destruct (last ns).
    + specialize (IH h' m height time Hm ltac:(lia) Ht).
      destruct (kernel_modifier_loop I fuel until m _ _) as [r|].
      * destruct IH as (ns & x & H1 & H2 & H3 & H4). exists (m :: ns), x. split; [by apply Hcons|]. split; [done|]. split; [by constructor|done].
      * destruct IH as (ns & H1 & H2 & H3). exists (m :: ns). split; [by apply Hcons|]. split; [by constructor|].
        rewrite last_cons. by destruct (last ns).
Qed.

(** GetKernelStakeModifier of an indexed block returns the first modifier
    generated along the main chain at least a selection interval after it, and
    fails exactly when the end of the chain is reached without one. *)
Theorem kernel_modifier_spec h from :
  next_ok -> mapBlockIndex I !! h = Some from -> 0 < GetStakeModifierSelectionInterval p ->
  let until := Work.bi_GetBlockTime (entry from) + GetStakeModifierSelectionInterval p in
  match GetKernelStakeModifier p I h with
  | Some r => exists ns m, next_chain from (ns ++ [m]) /\ late_modifier until m /\ Forall (fun x => ~ late_modifier until x) ns /\
      r = (bi_nStakeModifier (entry m), bi_nHeight (entry m), Work.bi_GetBlockTime (entry m))
  | None => exists ns, next_chain from ns /\ Forall (fun x => ~ late_modifier until x) ns /\ pnext (default from (last ns)) = None
  end.
Proof.
  intros Hnext Hf Hpos until. unfold GetKernelStakeModifier. rewrite Hf. cbn [mbind option_bind].
  apply (kernel_modifier_loop_spec until Hnext _ h); [done| |unfold until; lia].
  apply map_subseteq_size, map_filter_subseteq.
Qed.

End kernel_modifier.

(** ** The kernel hash *)

Section kernel_hash.
Context {L : BNLib} {HL : BNLaws L} {D : DigestLib} {HD : DigestLaws D} (fTestNet : bool) (p : NetParams) (I : index).

(** The weight as a number. *)
Definition weight (nValueIn nTimeTxPrev nTimeTx : Z) : Z :=
  Z.quot (Z.quot (nValueIn * (Z.min (nTimeTx - nTimeTxPrev) Work.STAKE_MAX_AGE -
    (if Block.IsProtocolV03 fTestNet nTimeTx then nStakeMinAge p else 0))) COIN) 86400.

Lemma coin_day_weight_spec v t0 t1 : 0 <= v < 2 ^ 63 -> 0 <= t0 < 2 ^ 32 -> 0 <= t1 < 2 ^ 32 -> 0 <= nStakeMinAge p < 2 ^ 32 ->
  coin_day_weight fTestNet p v t0 t1 = Some (weight v t0 t1).
Proof.
  intros Hv H0 H1 Ha. unfold coin_day_weight. set (tw := Z.min _ _ - _).
  assert (- 2 ^ 63 <= tw < 2 ^ 63) as Htw.
  { unfold tw, Work.STAKE_MAX_AGE. change (2 ^ 63) with (2 ^ 31 * 2 ^ 32). destruct (Block.IsProtocolV03 fTestNet t1); lia. }
  rewrite !BigNum.CBigNum_int_spec by (done || (cbn; lia) || lia).
  rewrite BigNum.op_div_spec. change (COIN =? 0) with false. cbn [mbind option_bind].
  rewrite BigNum.op_div_spec. change (24 * 60 * 60 =? 0) with false. cbn.
  unfold BigNum.op_times. rewrite BN_mul_spec. done.
Qed.

(** The data that is hashed. *)
Definition kernel_data (modifier : list Z) (nTimeBlockFrom nTxPrevOffset nTimeTxPrev nOut nTimeTx : Z) : list Z :=
  modifier ++ le_bytes 4 nTimeBlockFrom ++ le_bytes 4 nTxPrevOffset ++ le_bytes 4 nTimeTxPrev ++ le_bytes 4 nOut ++ le_bytes 4 nTimeTx.


End kernel_hash.

(** ** Witnesses *)

Section witnesses.
#[local] Existing Instance bn_reference.
#[local] Existing Instance toy_digests.

Definition demo_params : NetParams := mk_params 0 0 0 (60 * 60 * 24 * 7) 250 5400 0.

(** The block a coin comes from: the genesis block of a small index. *)
Definition demo_from : CBlock := mk_block 1 0 7 1400000000 0x1d00ffff 0 [] [].
Definition demo_hash : Z := Block.GetIDHash demo_from.

Definition demo_entry (hash height flags modifier time : Z) : CBlockIndex :=
  mk_index hash 0 height height 0 0 0 0 flags modifier 0 Tx.outpoint_null 0 0 1 0 time 0 0.

Definition demo_first : node := mk_node (demo_entry demo_hash 0 6 99 1400000000) None (Some 5) 0 0.
Definition demo_second : node := mk_node (demo_entry 5 1 6 1234 1402000000) (Some demo_hash) None 0 0.
Definition demo_current : node := mk_node (demo_entry 6 2 0 0 1402010000) (Some 5) None 0 0.

Definition demo_index : index := mk_blockindex (<[5 := demo_second]> (<[demo_hash := demo_first]> ∅)) (Some 5) (Some demo_hash) demo_hash.

Lemma demo_lookup h n : mapBlockIndex demo_index !! h = Some n -> (h = 5 /\ n = demo_second) \/ (h = demo_hash /\ n = demo_first).
Proof.
  cbn [demo_index mapBlockIndex]. intros [(<- & <-)|(_ & [(<- & <-)|(_ & ?)]%lookup_insert_Some)]%lookup_insert_Some; auto. done.
Qed.

Lemma demo_links : links_ok demo_index.
Proof. apply links_okb_sound. vm_compute. reflexivity. Qed.

Lemma demo_next : next_ok demo_index.
Proof.
  intros n h' Hp (h & [[-> ->]|[-> ->]]%demo_lookup); [done|]. injection Hp as <-. exists demo_second. split; vm_compute; reflexivity.
Qed.

(** One more block whose previous block opened a new interval. *)
Definition demo_quiet : node := mk_node (demo_entry 5 1 2 0 1402000000) (Some demo_hash) None 0 0.
Definition demo_index2 : index := mk_blockindex (<[5 := demo_quiet]> (<[demo_hash := demo_first]> ∅)) (Some 5) (Some demo_hash) demo_hash.

Lemma next_modifier_total_witness :
  exists m, ComputeNextStakeModifier false demo_params demo_index2 demo_current = Some (m, true) /\ 0 <= m < 2 ^ 64.
Proof.
  assert (links_ok demo_index2) as HI by (apply links_okb_sound; vm_compute; reflexivity).
  assert (forall h, pprev demo_current = Some h -> is_Some (mapBlockIndex demo_index2 !! h)) as H1
    by (intros h [= <-]; exists demo_quiet; vm_compute; reflexivity).
  assert (forall ng, mapBlockIndex demo_index2 !! hashGenesisBlock demo_index2 = Some ng -> Work.GeneratedStakeModifier (entry ng) = true) as H2.
  { intros ng E. assert (mapBlockIndex demo_index2 !! hashGenesisBlock demo_index2 = Some demo_first) as E2 by (vm_compute; reflexivity).
    rewrite E2 in E. injection E as <-. reflexivity. }
  pose proof (next_modifier_total false demo_params demo_index2 HI demo_current H1 H2) as H.
  assert (deref demo_index2 (pprev demo_current) = Some demo_quiet) as Ed by (vm_compute; reflexivity). rewrite Ed in H.
  destruct H as (nx & Hx & Hg & H). assert (nx = demo_first) as ->.
  { cbn [demo_index2 mapBlockIndex] in Hx.
    apply lookup_insert_Some in Hx as [(_ & <-)|(_ & [(_ & <-)|(_ & Hx)]%lookup_insert_Some)]; [discriminate Hg|reflexivity|discriminate Hx]. }
  cbv zeta in H. match type of H with (if ?c then _ else _) => replace c with false in H by (vm_compute; reflexivity) end. destruct H as (ns & m & E & Hm & _). exists m. split; [exact E|exact Hm].
Defined.

Lemma kernel_modifier_spec_witness :
  GetKernelStakeModifier demo_params demo_index demo_hash = Some (1234, 1, 1402000000) /\
  exists ns m, next_chain demo_index demo_first (ns ++ [m]).
Proof.
  assert (GetKernelStakeModifier demo_params demo_index demo_hash = Some (1234, 1, 1402000000)) as E by (vm_compute; reflexivity).
  split; [exact E|].
  assert (mapBlockIndex demo_index !! demo_hash = Some demo_first) as Hf by (vm_compute; reflexivity).
  assert (0 < GetStakeModifierSelectionInterval demo_params) as Hp by (vm_compute; reflexivity).
  pose proof (kernel_modifier_spec demo_params demo_index demo_hash demo_first demo_next Hf Hp) as H. cbv zeta in H.
  rewrite E in H. destruct H as (ns & m & H & _). exists ns, m. exact H.
Defined.

(** 200 coins, spent 50 days after they were received. *)
Definition demo_prev : CTransaction := mk_tx 1 1400000000 [] [mk_txout [] 200000000 []] 0 Tx.no_mint.


End witnesses.

End Kernel.
