(* ===== verification/Ledger.v ===== *)
(** * The ledger: connecting the inputs of transactions (src/src/main.cpp, src/src/db.cpp)

    The transaction database maps the hash of every transaction of the main
    chain to its place on disk and, for every output, to the place of the
    transaction that spends it.  [FetchInputs] collects the transactions a
    transaction spends, [ConnectInputs] checks them and marks the outputs as
    spent in a map of pending changes, [DisconnectInputs] takes that back.
    Reading and writing the database always succeeds in the model: a
    database is a map, the block files are maps from positions to what is
    stored there. *)

From stdpp Require Import gmap.
From S2P Require Import Prelude Uint256 Bignum Crypto Script Interpreter Serialize Tx Base58 Signature Solver Work Block BlockIndex Kernel Coins.
Import BlockIndex.

(** What the block files hold: transactions by file and position, blocks by
    file and position. *)
Record disk := mk_diskfiles {
  disk_txs : gmap (Z * Z) CTransaction;
  disk_blocks : gmap (Z * Z) CBlock
}.

(** The transaction database. *)
Record CTxDB := mk_txdb {
  db_tx : gmap Z CTxIndex;
  db_blockindex : gmap Z CDiskBlockIndex;
  db_hashBestChain : option Z
}.

(** [MapPrevTx]: the transactions that are spent, with their index records. *)
Abbreviation MapPrevTx := (gmap Z (CTxIndex * CTransaction)).

Module Ledger.

(** ** The database and the files *)

Definition ReadTxIndex (db : CTxDB) (hash : Z) : option CTxIndex := db_tx db !! hash.
Definition UpdateTxIndex (db : CTxDB) (hash : Z) (t : CTxIndex) : CTxDB :=
  mk_txdb (<[hash := t]> (db_tx db)) (db_blockindex db) (db_hashBestChain db).
Definition EraseTxIndex (db : CTxDB) (hash : Z) : CTxDB :=
  mk_txdb (delete hash (db_tx db)) (db_blockindex db) (db_hashBestChain db).
Definition ContainsTx (db : CTxDB) (hash : Z) : bool := bool_decide (is_Some (db_tx db !! hash)).
Definition WriteHashBestChain (db : CTxDB) (hash : Z) : CTxDB := mk_txdb (db_tx db) (db_blockindex db) (Some hash).

(** [CTransaction::ReadFromDisk(CDiskTxPos)]; nBlockPos is not used. *)
Definition tx_ReadFromDisk (d : disk) (pos : CDiskTxPos) : option CTransaction := disk_txs d !! (pos_nFile pos, pos_nTxPos pos).

Definition ReadDiskTx (db : CTxDB) (d : disk) (hash : Z) : option (CTransaction * CTxIndex) :=
  txindex ← ReadTxIndex db hash; tx ← tx_ReadFromDisk d (txi_pos txindex); Some (tx, txindex).

(** [CTransaction::ReadFromDisk(txdb, prevout, txindexRet)] *)
Definition prev_ReadFromDisk (db : CTxDB) (d : disk) (o : COutPoint) : option (CTransaction * CTxIndex) :=
  '(tx, txindex) ← ReadDiskTx db d (prevhash o);
  if Z.of_nat (length (vout tx)) <=? out_n o then None else Some (tx, txindex).

Section ledger.
Context {B : Tx.Abi} {L : BNLib} {D : DigestLib} {E : ECLib} (fTestNet : bool) (p : NetParams).

(** [CBlock::ReadFromDisk(nFile, nBlockPos, fReadTransactions)]; reading the
    header only leaves the transactions out. *)
Definition block_ReadFromDisk (d : disk) (nFile nBlockPos : Z) (fReadTransactions : bool) : option CBlock :=
  b ← disk_blocks d !! (nFile, nBlockPos);
  if negb fReadTransactions
  then Some (mk_block (blk_nVersion b) (hashPrevBlock b) (hashMerkleRoot b) (blk_nTime b) (nBits b) (nNonce b) [] [])
  else if Block.IsProofOfWork b && negb (Work.CheckProofOfWork p (Uint.of_u64 8 0) (nBits b)) then None
  else Some b.

(** ** FetchInputs *)

Inductive fetch := Fetched (inputs : MapPrevTx) | FetchFailed (fInvalid : bool).

Definition pos_mempool : CDiskTxPos := mk_pos 1 1 1.

(** The index record of a previous transaction: from the pending changes when
    a block is being connected or made, else from the database. *)
Definition fetch_index (db : CTxDB) (mapTestPool : gmap Z CTxIndex) (fPool : bool) (hash : Z) : option CTxIndex :=
  match (if fPool then mapTestPool !! hash else None) with
  | Some t => Some t
  | None => ReadTxIndex db hash
  end.

(** One previous transaction; [None]: it is not found. *)
Definition fetch_one (db : CTxDB) (d : disk) (mempool : gmap Z CTransaction) (mapTestPool : gmap Z CTxIndex)
    (fPool : bool) (hash : Z) : option (CTxIndex * CTransaction) :=
  match fetch_index db mapTestPool fPool hash with
  | None =>
      if fPool then None
      else txPrev ← mempool !! hash; Some (mk_txindex pos_null (replicate (length (vout txPrev)) pos_null), txPrev)
  | Some txindex =>
      if pos_eq (txi_pos txindex) pos_mempool
      then txPrev ← mempool !! hash; Some (txindex, txPrev)
      else txPrev ← tx_ReadFromDisk d (txi_pos txindex); Some (txindex, txPrev)
  end.

Fixpoint fetch_loop (db : CTxDB) (d : disk) (mempool : gmap Z CTransaction) (mapTestPool : gmap Z CTxIndex) (fPool : bool)
    (l : list CTxIn) (inputs : MapPrevTx) : option MapPrevTx :=
  match l with
  | [] => Some inputs
  | txin :: l =>
      let h := prevhash (prevout txin) in
      match inputs !! h with
      | Some _ => fetch_loop db d mempool mapTestPool fPool l inputs
      | None =>
          r ← fetch_one db d mempool mapTestPool fPool h;
          fetch_loop db d mempool mapTestPool fPool l (<[h := r]> inputs)
      end
  end.

(** [prevout.n >= txPrev.vout.size() || prevout.n >= txindex.vSpent.size()] *)
Definition out_of_range (r : CTxIndex * CTransaction) (n : Z) : bool :=
  (Z.of_nat (length (vout r.2)) <=? n) || (Z.of_nat (length (vSpent r.1)) <=? n).

Definition FetchInputs (db : CTxDB) (d : disk) (mempool : gmap Z CTransaction) (mapTestPool : gmap Z CTxIndex)
    (fBlock fMiner : bool) (t : CTransaction) (inputs : MapPrevTx) : fetch :=
  if Tx.IsCoinBase t then Fetched inputs
  else
    match fetch_loop db d mempool mapTestPool (fBlock || fMiner) (vin t) inputs with
    | None => FetchFailed false
    | Some inputs =>
        if existsb (fun i => match inputs !! prevhash (prevout i) with
                             | Some r => out_of_range r (out_n (prevout i))
                             | None => true
                             end) (vin t)
        then FetchFailed true
        else Fetched inputs
    end.

(** [GetOutputFor]; [None] is the exception. *)
Definition GetOutputFor (i : CTxIn) (inputs : MapPrevTx) : option CTxOut :=
  r ← inputs !! prevhash (prevout i); vout r.2 !! Z.to_nat (out_n (prevout i)).

Definition GetValueIn (t : CTransaction) (inputs : MapPrevTx) : option Z :=
  if Tx.IsCoinBase t then Some 0
  else foldl (fun acc i => s ← acc; o ← GetOutputFor i inputs; Some (i64 (s + nValue o))) (Some 0) (vin t).

Definition GetP2SHSigOpCount (t : CTransaction) (inputs : MapPrevTx) : option Z :=
  if Tx.IsCoinBase t then Some 0
  else foldl (fun acc i => k ← acc; o ← GetOutputFor i inputs;
                Some (if Script.IsPayToScriptHash (scriptPubKey o)
                      then u32 (k + Script.GetSigOpCount_sig (scriptPubKey o) (scriptSig i)) else k)) (Some 0) (vin t).

(** ** Coin age *)

(** The cent-seconds of one input added to the sum; [None] is the result false. *)
Definition coin_age_step (db : CTxDB) (d : disk) (t : CTransaction) (acc : option Z) (i : CTxIn) : option Z :=
  bnCentSecond ← acc;
  match prev_ReadFromDisk db d (prevout i) with
  | None => Some bnCentSecond
  | Some (txPrev, txindex) =>
      if nTime t <? nTime txPrev then None
      else
        block ← block_ReadFromDisk d (pos_nFile (txi_pos txindex)) (pos_nBlockPos (txi_pos txindex)) false;
        if nTime t <? Block.GetBlockTime block + nStakeMinAge p then Some bnCentSecond
        else
          o ← vout txPrev !! Z.to_nat (out_n (prevout i));
          q ← BigNum.op_div (BigNum.op_times (BigNum.CBigNum_int (nValue o)) (BigNum.CBigNum_int (u32 (nTime t - nTime txPrev))))
                 (BigNum.CBigNum_int CENT);
          Some (BigNum.op_plus bnCentSecond q)
  end.

(** [CTransaction::GetCoinAge] *)
Definition GetCoinAge (db : CTxDB) (d : disk) (t : CTransaction) : option Z :=
  if Tx.IsCoinBase t then Some 0
  else
    bnCentSecond ← foldl (coin_age_step db d t) (Some (BigNum.CBigNum_int 0)) (vin t);
    bnCoinSecond ← BigNum.op_div (BigNum.op_times bnCentSecond (BigNum.CBigNum_int CENT)) (BigNum.CBigNum_int COIN);
    Some (BigNum.getuint64 bnCoinSecond).

(** [CBlock::GetCoinAge] *)
Definition block_GetCoinAge (db : CTxDB) (d : disk) (b : CBlock) : option Z :=
  n ← foldl (fun acc t => s ← acc; a ← GetCoinAge db d t; Some (u64 (s + a))) (Some 0) (vtx b);
  Some (if n =? 0 then 1 else n).

(** ** ConnectInputs *)

(** Whether the block at a disk position is among the entries from [pindex] on
    that are less than nCoinbaseMaturity below [nHeight]. *)
Fixpoint recent_block (I : index) (fuel : nat) (pindex : option Z) (nHeight : Z) (pos : CDiskTxPos) : bool :=
  match fuel, deref I pindex with
  | S f, Some n =>
      if nHeight - bi_nHeight (entry n) <? nCoinbaseMaturity p
      then ((nBlockPos n =? pos_nBlockPos pos) && (nFile n =? pos_nFile pos)) || recent_block I f (pprev n) nHeight pos
      else false
  | _, _ => false
  end.

Inductive outcome (A : Type) := Done (a : A) | Failed (dos : Z) | Thrown.
#[global] Arguments Done {A} a.
#[global] Arguments Failed {A} dos.
#[global] Arguments Thrown {A}.

(** The first loop of [ConnectInputs]: the checks that need no signature, and
    the sum of the inputs. *)
Fixpoint check_values (I : index) (pindexBlock : option Z) (nHeight : Z) (t : CTransaction) (inputs : MapPrevTx)
    (l : list CTxIn) (nValueIn : Z) : outcome Z :=
  match l with
  | [] => Done nValueIn
  | i :: l =>
      match inputs !! prevhash (prevout i) with
      | None => Thrown
      | Some r =>
          if out_of_range r (out_n (prevout i)) then Failed 100
          else if (Tx.IsCoinBase r.2 || Tx.IsCoinStake r.2)
                  && recent_block I (S (size (mapBlockIndex I))) pindexBlock nHeight (txi_pos r.1)
          then Failed 0
          else if nTime t <? nTime r.2 then Failed 100
          else
            let v := from_option nValue 0 (vout r.2 !! Z.to_nat (out_n (prevout i))) in
            let nValueIn := i64 (nValueIn + v) in
            if negb (MoneyRange v) || negb (MoneyRange nValueIn) then Failed 100
            else check_values I pindexBlock nHeight t inputs l nValueIn
      end
  end.

(** The second loop: double spends and signatures; the outputs are marked in
    [inputs], the local copy, and in the pending changes. *)
Fixpoint spend_inputs (t : CTransaction) (posThisTx : CDiskTxPos) (fVerify fWrite : bool)
    (l : list CTxIn) (nIn : nat) (inputs : MapPrevTx) (mapTestPool : gmap Z CTxIndex) : outcome (gmap Z CTxIndex) :=
  match l with
  | [] => Done mapTestPool
  | i :: l =>
      let h := prevhash (prevout i) in
      let n := Z.to_nat (out_n (prevout i)) in
      match inputs !! h with
      | None => Thrown
      | Some r =>
          match vSpent r.1 !! n with
          | None => Thrown
          | Some spent =>
              if negb (pos_IsNull spent) then Failed 0
              else
                match (if fVerify then Solve.VerifySignature r.2 t nIn 0 else Some true) with
                | None => Thrown
                | Some false => Failed 100
                | Some true =>
                    let txindex := mk_txindex (txi_pos r.1) (<[n := posThisTx]> (vSpent r.1)) in
                    spend_inputs t posThisTx fVerify fWrite l (S nIn) (<[h := (txindex, r.2)]> inputs)
                      (if fWrite then <[h := txindex]> mapTestPool else mapTestPool)
                end
          end
      end
  end.

(** The test of the amounts: a coinstake earns at most its reward, any other
    transaction pays a fee. *)
Definition check_amounts (db : CTxDB) (d : disk) (t : CTransaction) (nValueIn : Z) : outcome unit :=
  if Tx.IsCoinStake t then
    match GetCoinAge db d t with
    | None => Failed 0
    | Some nCoinAgeSeconds =>
        match Tx.GetValueOut t, Tx.GetMinFee t 1 Tx.GMF_BLOCK with
        | Some out, Some fee =>
            let nStakeReward := i64 (out - nValueIn) in
            if i64 (i64 (Work.GetProofOfStakeReward (i64 nCoinAgeSeconds) - fee) + MIN_TX_FEE) <? nStakeReward
            then Failed 100 else Done tt
        | _, _ => Thrown
        end
    end
  else
    match Tx.GetValueOut t with
    | None => Thrown
    | Some out =>
        if nValueIn <? out then Failed 100
        else
          let nTxFee := i64 (nValueIn - out) in
          if nTxFee <? 0 then Failed 100
          else if negb (MoneyRange nTxFee) then Failed 100
          else Done tt
    end.

(** [ConnectInputs]: the new pending changes.  [pindexBlock] is given by its
    hash and height; [fBelowCheckpoint] is
    [nBestHeight < Checkpoints::GetTotalBlocksEstimate()]. *)
Definition ConnectInputs (db : CTxDB) (d : disk) (I : index) (fBelowCheckpoint : bool) (t : CTransaction) (inputs : MapPrevTx)
    (mapTestPool : gmap Z CTxIndex) (posThisTx : CDiskTxPos) (pindexBlock : option Z) (fBlock fMiner : bool) : outcome (gmap Z CTxIndex) :=
  if Tx.IsCoinBase t then Done mapTestPool
  else
    match check_values I pindexBlock (from_option (fun n => bi_nHeight (entry n)) 0 (deref I pindexBlock)) t inputs (vin t) 0 with
    | Thrown => Thrown
    | Failed dos => Failed dos
    | Done nValueIn =>
        match spend_inputs t posThisTx (negb (fBlock && fBelowCheckpoint)) (fBlock || fMiner) (vin t) 0 inputs mapTestPool with
        | Thrown => Thrown
        | Failed dos => Failed dos
        | Done pool =>
            match check_amounts db d t nValueIn with
            | Thrown => Thrown
            | Failed dos => Failed dos
            | Done _ => Done pool
            end
        end
    end.

(** ** DisconnectInputs *)

Fixpoint unspend_inputs (l : list CTxIn) (db : CTxDB) : option CTxDB :=
  match l with
  | [] => Some db
  | i :: l =>
      txindex ← ReadTxIndex db (prevhash (prevout i));
      if Z.of_nat (length (vSpent txindex)) <=? out_n (prevout i) then None
      else
        unspend_inputs l
          (UpdateTxIndex db (prevhash (prevout i))
             (mk_txindex (txi_pos txindex) (<[Z.to_nat (out_n (prevout i)) := pos_null]> (vSpent txindex))))
  end.

(** [None]: false, or the hash throws. *)
Definition DisconnectInputs (t : CTransaction) (db : CTxDB) : option CTxDB :=
  db ← (if Tx.IsCoinBase t then Some db else unspend_inputs (vin t) db);
  hash ← Tx.GetHash t;
  Some (EraseTxIndex db hash).

(** ** CheckProofOfStake *)

(** hashProofOfStake, or the added misbehaviour. *)
Definition CheckProofOfStake (db : CTxDB) (d : disk) (I : index) (t : CTransaction) (nBits : Z) : outcome Z :=
  if negb (Tx.IsCoinStake t) then Failed 0
  else
    match vin t with
    | [] => Thrown
    | txin :: _ =>
        match prev_ReadFromDisk db d (prevout txin) with
        | None => Failed 1
        | Some (txPrev, txindex) =>
            match Solve.VerifySignature txPrev t 0 0 with
            | None => Thrown
            | Some false => Failed 100
            | Some true =>
                match block_ReadFromDisk d (pos_nFile (txi_pos txindex)) (pos_nBlockPos (txi_pos txindex)) false with
                | None => Failed 0
                | Some block =>
                    match Kernel.CheckStakeKernelHash fTestNet p I nBits block
                            (u32 (pos_nTxPos (txi_pos txindex) - pos_nBlockPos (txi_pos txindex))) txPrev (prevout txin) (nTime t) with
                    | None => Failed 1
                    | Some hash => Done hash
                    end
                end
            end
        end
    end.

End ledger.

(** ** Refinement of the abstract ledger *)

(** An index record as its flags, and a map of records as the coins. *)
Definition flags (t : CTxIndex) : list bool := pos_IsNull <$> vSpent t.
Definition coins_of (m : gmap Z CTxIndex) : coins := flags <$> m.

Lemma coins_of_lookup m h : coins_of m !! h = flags <$> m !! h.
Proof. apply lookup_fmap. Qed.

Lemma flags_insert t pos n s : flags (mk_txindex pos (<[n := s]> (vSpent t))) = <[n := pos_IsNull s]> (flags t).
Proof. unfold flags. cbn. apply list_fmap_insert. Qed.

Lemma coins_of_mark m h t pos s o : prevhash o = h -> m !! h = Some t ->
  coins_of (<[h := mk_txindex pos (<[Z.to_nat (out_n o) := s]> (vSpent t))]> m) = Coins.set_flag (pos_IsNull s) o (coins_of m).
Proof.
  intros <- Hm. apply map_eq. intros x. rewrite coins_of_lookup, Coins.lookup_set_flag, coins_of_lookup. case_decide as Ex.
  - subst x. rewrite lookup_insert_eq, Hm. cbn [fmap option_fmap option_map]. by rewrite flags_insert.
  - by rewrite lookup_insert_ne.
Qed.

Lemma unspent_coins_of m o t s : m !! prevhash o = Some t -> vSpent t !! Z.to_nat (out_n o) = Some s ->
  Coins.unspent (coins_of m) o = pos_IsNull s.
Proof. intros Hm Hs. unfold Coins.unspent. rewrite coins_of_lookup, Hm. cbn. unfold flags. by rewrite list_lookup_fmap, Hs. Qed.

Section refine.
Context {B : Tx.Abi} {L : BNLib} {D : DigestLib} {E : ECLib} (fTestNet : bool) (p : NetParams).

(** Pending changes over the database. *)
Definition view (pool : gmap Z CTxIndex) (db : CTxDB) : gmap Z CTxIndex := pool ∪ db_tx db.

Definition inputs_agree (inputs : MapPrevTx) (m : gmap Z CTxIndex) : Prop := forall h r, inputs !! h = Some r -> m !! h = Some r.1.

Lemma fetch_loop_agree db d mempool pool l : forall inputs inputs', inputs_agree inputs (view pool db) ->
  fetch_loop db d mempool pool true l inputs = Some inputs' -> inputs_agree inputs' (view pool db).
Proof.
  induction l as [|i l IH]; intros inputs inputs' Ha E0; cbn in E0; [by injection E0 as <-|].
  destruct (inputs !! prevhash (prevout i)) eqn:Ei; [by apply (IH inputs)|].
  destruct (fetch_one db d mempool pool true (prevhash (prevout i))) as [r|] eqn:Er; [|done]. cbn in E0. apply IH in E0; [done|].
  intros h x. destruct (decide (h = prevhash (prevout i))) as [->|Hne].
  - rewrite lookup_insert_eq. intros [= <-]. unfold fetch_one, fetch_index, ReadTxIndex in Er. unfold view. rewrite lookup_union.
    destruct (pool !! prevhash (prevout i)) as [t|].
    + rewrite union_Some_l. destruct (pos_eq _ _); [destruct (mempool !! _)|destruct (tx_ReadFromDisk d _)]; cbn in Er; try done; by injection Er as <-.
    + rewrite (left_id_L None _). destruct (db_tx db !! prevhash (prevout i)) as [t|]; [|done].
      destruct (pos_eq _ _); [destruct (mempool !! _)|destruct (tx_ReadFromDisk d _)]; cbn in Er; try done; by injection Er as <-.
  - rewrite lookup_insert_ne by done. apply Ha.
Qed.

Lemma FetchInputs_agree db d mempool pool t inputs :
  FetchInputs db d mempool pool true false t ∅ = Fetched inputs -> inputs_agree inputs (view pool db).
Proof.
  unfold FetchInputs. assert (inputs_agree ∅ (view pool db)) as H0 by (intros h r; by rewrite lookup_empty).
  destruct (Tx.IsCoinBase t); [by intros [= <-]|]. cbn [orb].
  destruct (fetch_loop db d mempool pool true (vin t) ∅) as [i|] eqn:Ei; [|done]. destruct (existsb _ _); [done|]. intros [= <-].
  by apply (fetch_loop_agree db d mempool pool (vin t) ∅).
Qed.

(** The second loop of ConnectInputs spends the outputs in the abstract ledger. *)
Lemma spend_inputs_refines t pos fVerify db l : pos_IsNull pos = false -> forall nIn inputs pool pool',
  inputs_agree inputs (view pool db) -> spend_inputs t pos fVerify true l nIn inputs pool = Done pool' ->
  Coins.spend_all (prevout <$> l) (coins_of (view pool db)) = Some (coins_of (view pool' db)).
Proof.
  intros Hpos. induction l as [|i l IH]; intros nIn inputs pool pool' Ha E0; cbn in E0; [by injection E0 as <-|].
  set (h := prevhash (prevout i)) in *. set (n := Z.to_nat (out_n (prevout i))) in *.
  destruct (inputs !! h) as [r|] eqn:Ei; [|done]. destruct (vSpent r.1 !! n) as [sp|] eqn:Es; [|done].
  destruct (pos_IsNull sp) eqn:En; cbn [negb] in E0; [|done]. pose proof (Ha h r Ei) as Hv.
  destruct (if fVerify then _ else _) as [[]|]; [|done..].
  cbn [fmap list_fmap Coins.spend_all]. unfold Coins.spend. rewrite (unspent_coins_of _ _ r.1 sp), En by done. cbn [mbind option_bind].
  rewrite <- Hpos, <- (coins_of_mark _ h r.1 (txi_pos r.1)) by done. unfold view. rewrite insert_union_l.
  eapply (IH _ _ (<[h := mk_txindex (txi_pos r.1) (<[n := pos]> (vSpent r.1))]> pool)); [|exact E0].
  intros x y. destruct (decide (x = h)) as [->|Hne].
  - rewrite lookup_insert_eq. intros [= <-]. unfold view. by rewrite lookup_union, lookup_insert_eq, union_Some_l.
  - rewrite lookup_insert_ne by done. intros Hx. unfold view. rewrite lookup_union, lookup_insert_ne, <- lookup_union by done. by apply Ha.
Qed.

(** Every input was verified against the transaction it spends. *)
Lemma spend_inputs_verified t pos fWrite l : forall nIn inputs pool pool', spend_inputs t pos true fWrite l nIn inputs pool = Done pool' ->
  forall k i r, l !! k = Some i -> inputs !! prevhash (prevout i) = Some r -> Solve.VerifySignature r.2 t (nIn + k) 0 = Some true.
Proof.
  induction l as [|i l IH]; intros nIn inputs pool pool' E0 k x r Hk Hr; [done|]. cbn in E0.
  destruct (inputs !! prevhash (prevout i)) as [r0|] eqn:Ei; [|done]. destruct (vSpent r0.1 !! _) as [sp|]; [|done].
  destruct (negb _); [done|]. destruct (Solve.VerifySignature r0.2 t nIn 0) as [[]|] eqn:Ev; [|done..].
  destruct k as [|k].
  - injection Hk as <-. rewrite Ei in Hr. injection Hr as <-. by rewrite Nat.add_0_r.
  - rewrite <- Nat.add_succ_comm. destruct (decide (prevhash (prevout x) = prevhash (prevout i))) as [Eh|Hne].
    + rewrite Eh, Ei in Hr. injection Hr as <-.
      apply (IH _ _ _ _ E0 k x (mk_txindex (txi_pos r0.1) (<[Z.to_nat (out_n (prevout i)):=pos]> (vSpent r0.1)), r0.2) Hk).
      by rewrite Eh, lookup_insert_eq.
    + apply (IH _ _ _ _ E0 k x r Hk). by rewrite lookup_insert_ne.
Qed.

(** The sum of the inputs, as the outputs they name. *)
Definition input_value (inputs : MapPrevTx) (i : CTxIn) : Z := from_option nValue 0 (GetOutputFor i inputs).
Definition total_in (inputs : MapPrevTx) (l : list CTxIn) : Z := foldr (fun i s => input_value inputs i + s) 0 l.

Lemma check_values_spec I q hh t inputs l : forall acc v, Forall (fun i => Coins.nonneg (prevout i)) l ->
  0 <= acc <= MAX_MONEY -> check_values p I q hh t inputs l acc = Done v ->
  v = acc + total_in inputs l /\ 0 <= v <= MAX_MONEY /\
  Forall (fun i => exists r o, inputs !! prevhash (prevout i) = Some r /\ GetOutputFor i inputs = Some o /\
    nTime r.2 <= nTime t /\ 0 <= nValue o <= MAX_MONEY) l.
Proof.
  induction l as [|i l IH]; intros acc v Hn Hacc E0; cbn in E0; [injection E0 as <-; split; [cbn; lia|]; split; [done|constructor]|].
  inversion Hn as [|? ? Hni Hnl]; subst. unfold Coins.nonneg in Hni.
  destruct (inputs !! prevhash (prevout i)) as [r|] eqn:Ei; [|done]. destruct (out_of_range r (out_n (prevout i))) eqn:Eo; [done|].
  destruct (_ && _); [done|]. destruct (Z.ltb_spec (nTime t) (nTime r.2)); [done|].
  apply orb_false_iff in Eo as [Eo1 Eo2]. apply Z.leb_gt in Eo1, Eo2.
  destruct (lookup_lt_is_Some_2 (vout r.2) (Z.to_nat (out_n (prevout i))) ltac:(lia)) as [o Eout]. rewrite Eout in E0. cbn [from_option] in E0.
  assert (GetOutputFor i inputs = Some o) as Eg by (unfold GetOutputFor; by rewrite Ei).
  destruct (MoneyRange (nValue o)) eqn:Em; [|done]. apply Tx.MoneyRange_spec in Em.
  rewrite i64_small in E0 by (unfold MAX_MONEY, COIN in *; lia).
  destruct (MoneyRange (acc + nValue o)) eqn:Em2; [|done]. apply Tx.MoneyRange_spec in Em2. cbn in E0.
  destruct (IH _ _ Hnl Em2 E0) as (H1 & H2 & H3). cbn [total_in foldr]. fold (total_in inputs l). unfold input_value. rewrite Eg. cbn [from_option].
  split; [lia|]. split; [done|]. constructor; [|done]. exists r, o. done.
Qed.

(** [GetValueIn] returns the same sum. *)
Lemma GetValueIn_sum t inputs : Tx.IsCoinBase t = false ->
  Forall (fun i => exists o, GetOutputFor i inputs = Some o /\ 0 <= nValue o <= MAX_MONEY) (vin t) -> total_in inputs (vin t) <= MAX_MONEY ->
  GetValueIn t inputs = Some (total_in inputs (vin t)).
Proof.
  intros Hc Hf Ht. unfold GetValueIn. rewrite Hc.
  assert (forall l acc, Forall (fun i => exists o, GetOutputFor i inputs = Some o /\ 0 <= nValue o <= MAX_MONEY) l -> 0 <= acc ->
    acc + total_in inputs l <= MAX_MONEY ->
    foldl (fun acc i => s ← acc; o ← GetOutputFor i inputs; Some (i64 (s + nValue o))) (Some acc) l = Some (acc + total_in inputs l)) as Hgen.
  { induction l as [|i l IH]; intros acc Hl Hacc Hle; [cbn; by rewrite Z.add_0_r|]. inversion Hl as [|? ? (o & Ho & Hv) Hl']; subst.
    assert (0 <= total_in inputs l) as Hnn.
    { clear -Hl'. induction Hl' as [|j l (oj & Hj & Hvj) _ IH]; [done|]. cbn [total_in foldr]. fold (total_in inputs l). unfold input_value. rewrite Hj. cbn. lia. }
    cbn [total_in foldr] in Hle |- *. fold (total_in inputs l) in Hle |- *. unfold input_value in Hle |- *. rewrite Ho in Hle |- *. cbn [from_option] in *.
    cbn [foldl mbind option_bind]. rewrite Ho. cbn [mbind option_bind]. rewrite i64_small by (unfold MAX_MONEY, COIN in *; lia).
    rewrite IH by (done || lia). f_equal. lia. }
  rewrite Hgen by (done || lia). done.
Qed.

(** ** DisconnectInputs *)

Lemma unspend_inputs_refines l : forall db c, Forall (fun i => Coins.nonneg (prevout i)) l ->
  Coins.unspend_all (prevout <$> l) (coins_of (db_tx db)) = Some c ->
  exists db', unspend_inputs l db = Some db' /\ coins_of (db_tx db') = c /\ db_blockindex db' = db_blockindex db /\
    db_hashBestChain db' = db_hashBestChain db.
Proof.
  induction l as [|i l IH]; intros db c Hn E0; cbn in E0; [injection E0 as <-; exists db; done|].
  inversion Hn as [|? ? Hni Hnl]; subst. unfold Coins.nonneg in Hni.
  unfold Coins.unspend in E0. destruct (Coins.known (coins_of (db_tx db)) (prevout i)) eqn:Ek; [|done]. cbn [mbind option_bind] in E0.
  apply bool_decide_eq_true in Ek as [b Eb]. rewrite coins_of_lookup in Eb. cbn [unspend_inputs]. unfold ReadTxIndex.
  destruct (db_tx db !! prevhash (prevout i)) as [t|] eqn:Et; [|done]. cbn in Eb. unfold flags in Eb. rewrite list_lookup_fmap in Eb.
  destruct (vSpent t !! Z.to_nat (out_n (prevout i))) as [sp|] eqn:Es; [|done]. apply lookup_lt_Some in Es.
  cbn [mbind option_bind]. rewrite (proj2 (Z.leb_gt _ _)) by lia.
  set (db1 := UpdateTxIndex db _ _). assert (coins_of (db_tx db1) = Coins.set_flag true (prevout i) (coins_of (db_tx db))) as E1.
  { unfold db1, UpdateTxIndex. cbn [db_tx]. by apply coins_of_mark. }
  rewrite <- E1 in E0. destruct (IH db1 c Hnl E0) as (db' & H1 & H2 & H3 & H4). exists db'. done.
Qed.

(** The transaction as an action on the coins. *)
Definition action_of (t : CTransaction) (h : Z) : Coins.action :=
  Coins.mk_action (if Tx.IsCoinBase t then [] else prevout <$> vin t) h (length (vout t)).

Lemma coins_of_delete m h : coins_of (delete h m) = delete h (coins_of m).
Proof. apply fmap_delete. Qed.

Lemma DisconnectInputs_refines t h db c : Forall (fun i => Coins.nonneg (prevout i)) (vin t) -> Tx.GetHash t = Some h ->
  Coins.undo_tx (action_of t h) (coins_of (db_tx db)) = Some c ->
  exists db', DisconnectInputs t db = Some db' /\ coins_of (db_tx db') = c /\ db_blockindex db' = db_blockindex db /\
    db_hashBestChain db' = db_hashBestChain db.
Proof.
  intros Hn Hh E0. unfold Coins.undo_tx, action_of in E0. cbn [Coins.act_spends Coins.act_hash] in E0. unfold DisconnectInputs. rewrite Hh.
  destruct (Tx.IsCoinBase t).
  - cbn in E0 |- *. injection E0 as <-. eexists. split; [done|]. split; [apply coins_of_delete|done].
  - destruct (Coins.unspend_all (prevout <$> vin t) (coins_of (db_tx db))) as [c1|] eqn:Ec; [|done]. cbn in E0. injection E0 as <-.
    destruct (unspend_inputs_refines _ _ _ Hn Ec) as (db' & -> & <- & H3 & H4). cbn. eexists. split; [done|].
    split; [apply coins_of_delete|done].
Qed.

(** ** ConnectInputs *)

(** What a coinstake may earn beyond its inputs. *)
Definition stake_limit (db : CTxDB) (d : disk) (t : CTransaction) : option Z :=
  age ← GetCoinAge p db d t; fee ← Tx.GetMinFee t 1 Tx.GMF_BLOCK;
  Some (i64 (i64 (Work.GetProofOfStakeReward (i64 age) - fee) + MIN_TX_FEE)).

Lemma check_amounts_spec db d t v : 0 <= v <= MAX_MONEY -> check_amounts p db d t v = Done tt ->
  exists out, Tx.GetValueOut t = Some out /\
    (Tx.IsCoinStake t = false -> out <= v) /\
    (Tx.IsCoinStake t = true -> exists lim, stake_limit db d t = Some lim /\ i64 (out - v) <= lim).
Proof.
  intros Hv. unfold check_amounts, stake_limit. destruct (Tx.IsCoinStake t).
  - destruct (GetCoinAge p db d t) as [age|]; [|done]. destruct (Tx.GetValueOut t) as [out|]; [|done].
    destruct (Tx.GetMinFee t 1 Tx.GMF_BLOCK) as [fee|]; [|done]. case_bool; [done|]. intros _. exists out. split; [done|]. split; [done|].
    intros _. eexists. split; [done|]. bool_to_prop. lia.
  - destruct (Tx.GetValueOut t) as [out|]; [|done]. destruct (Z.ltb_spec v out); [done|]. intros _. exists out. split; [done|]. split; [lia|done].
Qed.

(** What ConnectInputs does to the ledger and to the amounts. *)
Lemma ConnectInputs_sound_helper db d mempool I below t pool pos q inputs pool' :
  FetchInputs db d mempool pool true false t ∅ = Fetched inputs ->
  ConnectInputs p db d I below t inputs pool pos q true false = Done pool' ->
  Tx.IsCoinBase t = false -> pos_IsNull pos = false -> Forall (fun i => Coins.nonneg (prevout i)) (vin t) ->
  Coins.spend_all (prevout <$> vin t) (coins_of (view pool db)) = Some (coins_of (view pool' db)) /\
  exists out, GetValueIn t inputs = Some (total_in inputs (vin t)) /\ 0 <= total_in inputs (vin t) <= MAX_MONEY /\
     Tx.GetValueOut t = Some out /\
     (Tx.IsCoinStake t = false -> out <= total_in inputs (vin t)) /\
     (Tx.IsCoinStake t = true -> exists lim, stake_limit db d t = Some lim /\ i64 (out - total_in inputs (vin t)) <= lim).
Proof.
  intros Hf Hc Hcb Hpos Hn. unfold ConnectInputs in Hc. rewrite Hcb in Hc. cbn [andb orb] in Hc.
  destruct (check_values p I q _ t inputs (vin t) 0) as [v| |] eqn:Ev; [|done..].
  destruct (spend_inputs t pos _ true (vin t) 0 inputs pool) as [pool1| |] eqn:Es; [|done..].
  destruct (check_amounts p db d t v) as [[]| |] eqn:Ea; [|done..]. injection Hc as ->.
  split; [exact (spend_inputs_refines t pos _ db (vin t) Hpos _ _ _ _ (FetchInputs_agree _ _ _ _ _ _ Hf) Es)|].
  assert (0 <= 0 <= MAX_MONEY) as H0 by (unfold MAX_MONEY, COIN; lia).
  destruct (check_values_spec I q _ t inputs (vin t) 0 v Hn H0 Ev) as (H4 & H5 & H6).
  rewrite Z.add_0_l in H4. subst v. destruct (check_amounts_spec db d t _ H5 Ea) as (out & H7 & H8 & H9).
  exists out. split; [|done]. apply GetValueIn_sum; [done| |lia]. eapply Forall_impl; [exact H6|]. intros i (r & o & _ & Ho & _ & Hv). eauto.
Qed.

(** C4: When ConnectInputs accepts a transaction whose inputs were fetched from
    the database and the pending changes, the outputs it spends are distinct
    and unspent there, and exactly these are marked; every input is in the
    money range and not younger than the transaction, and their sum is the
    exact one; the transaction spends no more than this sum, or if it is a
    coinstake exceeds it by no more than its reward; and every signature was
    verified, unless the block lies below the last checkpoint. *)
Theorem ConnectInputs_sound db d mempool I below t pool pos q inputs pool' :
  FetchInputs db d mempool pool true false t ∅ = Fetched inputs ->
  ConnectInputs p db d I below t inputs pool pos q true false = Done pool' ->
  Tx.IsCoinBase t = false -> pos_IsNull pos = false -> Forall (fun i => Coins.nonneg (prevout i)) (vin t) ->
  let spent := prevout <$> vin t in
  let before := coins_of (view pool db) in
  let after := coins_of (view pool' db) in
  Coins.spend_all spent before = Some after /\ NoDup spent /\ Forall (fun o => Coins.unspent before o = true) spent /\
  (forall o, Coins.nonneg o -> Coins.unspent after o = Coins.unspent before o && negb (bool_decide (o ∈ spent))) /\
  (exists out, GetValueIn t inputs = Some (total_in inputs (vin t)) /\ 0 <= total_in inputs (vin t) <= MAX_MONEY /\
     Tx.GetValueOut t = Some out /\
     (Tx.IsCoinStake t = false -> out <= total_in inputs (vin t)) /\
     (Tx.IsCoinStake t = true -> exists lim, stake_limit db d t = Some lim /\ i64 (out - total_in inputs (vin t)) <= lim)) /\
  (below = false -> forall k i r, vin t !! k = Some i -> inputs !! prevhash (prevout i) = Some r ->
     Solve.VerifySignature r.2 t k 0 = Some true).
Proof.
  intros Hf Hc Hcb Hpos Hn spent before after.
  destruct (ConnectInputs_sound_helper db d mempool I below t pool pos q inputs pool' Hf Hc Hcb Hpos Hn) as (Hr & Hamounts).
  fold spent before after in Hr.
  assert (Forall Coins.nonneg spent) as Hns by (by apply Forall_fmap).
  destruct (Coins.spend_all_spec spent before after Hns Hr) as (H1 & H2 & H3 & _).
  split; [done|]. split; [done|]. split; [done|]. split; [done|]. split; [done|].
  intros ->. unfold ConnectInputs in Hc. rewrite Hcb in Hc. cbn [andb orb negb] in Hc.
  destruct (check_values p I q _ t inputs (vin t) 0) as [v| |]; [|done..].
  destruct (spend_inputs t pos _ true (vin t) 0 inputs pool) as [pool1| |] eqn:Es; [|done..].
  by apply (spend_inputs_verified t pos true (vin t) 0 inputs pool pool1).
Qed.

End refine.

(** ** Witness *)

Section witnesses.
#[local] Existing Instance bn_reference.
#[local] Existing Instance toy_digests.
#[local] Existing Instance Tx.demo_abi.
#[local] Existing Instance Sig.demo_ec.

(** A transaction on disk with an output of five coins that anyone can spend,
    and one that spends it. *)
Definition demo_source : CTransaction := Tx.demo_tx [mk_txout [] (5 * COIN) [Script.OP_1]].
Definition demo_spender (n v : Z) : CTransaction :=
  mk_tx 1 100 [mk_txin (mk_outpoint (default 0 (Tx.GetHash demo_source)) n) [] Tx.UINT_MAX []] [mk_txout [] v [Script.OP_1]] 0 Tx.no_mint.
Definition demo_db : CTxDB := mk_txdb {[ default 0 (Tx.GetHash demo_source) := mk_txindex (mk_pos 1 0 100) [pos_null] ]} ∅ None.
Definition demo_disk : disk := mk_diskfiles {[ (1, 100) := demo_source ]} ∅.
Definition demo_net : NetParams := mk_params 0 0 0 0 250 5400 0.
Definition demo_chain : index := mk_blockindex ∅ None None 0.

Definition demo_fetched : MapPrevTx :=
  match FetchInputs demo_db demo_disk ∅ ∅ true false (demo_spender 0 (3 * COIN)) ∅ with Fetched m => m | FetchFailed _ => ∅ end.

Lemma ConnectInputs_sound_witness :
  exists pool', ConnectInputs demo_net demo_db demo_disk demo_chain false (demo_spender 0 (3 * COIN)) demo_fetched ∅ (mk_pos 1 0 200) None true false = Done pool' /\
    NoDup (prevout <$> vin (demo_spender 0 (3 * COIN))).
Proof.
  assert (FetchInputs demo_db demo_disk ∅ ∅ true false (demo_spender 0 (3 * COIN)) ∅ = Fetched demo_fetched) as Hf by (vm_compute; reflexivity).
  destruct (ConnectInputs demo_net demo_db demo_disk demo_chain false (demo_spender 0 (3 * COIN)) demo_fetched ∅ (mk_pos 1 0 200) None true false) as [pool'|dos|] eqn:Ec.
  2:{ vm_compute in Ec. discriminate. }
  2:{ vm_compute in Ec. discriminate. }
  exists pool'. split; [reflexivity|].
  assert (Tx.IsCoinBase (demo_spender 0 (3 * COIN)) = false) as Hcb by (vm_compute; reflexivity).
  assert (Forall (fun i => Coins.nonneg (prevout i)) (vin (demo_spender 0 (3 * COIN)))) as Hn by (repeat constructor; vm_compute; discriminate).
  exact (proj1 (proj2 (ConnectInputs_sound demo_net demo_db demo_disk ∅ demo_chain false (demo_spender 0 (3 * COIN)) ∅ (mk_pos 1 0 200) None
    demo_fetched pool' Hf Ec Hcb eq_refl Hn))).
Defined.

(** Spending it twice is refused. *)
Lemma double_spend_refused :
  ConnectInputs demo_net demo_db demo_disk demo_chain false (demo_spender 0 (3 * COIN))
    (fmap (fun r => (mk_txindex (txi_pos r.1) [mk_pos 1 0 150], r.2)) demo_fetched) ∅ (mk_pos 1 0 200) None true false = Failed 0.
Proof. vm_compute. reflexivity. Qed.

End witnesses.

End Ledger.
