(* ===== verification/MerkleTx.v ===== *)
(** * Transactions linked to the chain (src/src/main.h, src/src/main.cpp: CMerkleTx)

    A CMerkleTx carries the block its transaction is in and the merkle branch
    that proves it.  [fMerkleVerified] is a mutable flag that remembers a
    successful check of the branch, so the const methods return the object too.
    The client mode (fClient) is a constant false in the source.  [None] is an
    exception, or a null pindexBest. *)

From stdpp Require Import gmap.
From S2P Require Import Prelude Uint256 Bignum Crypto Script Serialize Tx Base58 Signature Solver Work Block BlockIndex Kernel Coins Ledger.
Import BlockIndex Ledger.

Record CMerkleTx := mk_mtx {
  mt_tx : CTransaction;
  hashBlock : Z;
  vMerkleBranch : list Z;
  nIndex : Z;
  fMerkleVerified : bool
}.

Module MerkleTx.

Definition of_tx (t : CTransaction) : CMerkleTx := mk_mtx t 0 [] (-1) false.

(** CTransaction's [operator==]: the members of minting transactions are not compared. *)
Definition tx_eq (a b : CTransaction) : bool :=
  (nVersion a =? nVersion b) && (nTime a =? nTime b) && bool_decide (vin a = vin b) &&
  bool_decide (vout a = vout b) && (nLockTime a =? nLockTime b).

Definition merkletx_codec {B : Tx.Abi} : Codec CMerkleTx :=
  class_codec (tuple4_codec Tx.tx_codec uint256_codec (vector_codec uint256_codec Tx.sizeof_uint256) (int_codec 4))
    (fun p => match p with (t, h, v, n) => mk_mtx t h v n false end)
    (fun m => (mt_tx m, hashBlock m, vMerkleBranch m, nIndex m)).

Section merkletx.
Context {B : Tx.Abi} {L : BNLib} {D : DigestLib} (p : NetParams) (nCoinbaseMaturity : Z).

(** The depth of a block of the index: [pindexBest->nHeight - pindex->nHeight + 1]
    in the main chain, 0 elsewhere. *)
Definition block_depth (I : index) (h : Z) : option Z :=
  match mapBlockIndex I !! h with
  | None => Some 0
  | Some n =>
      if negb (IsInMainChain I h n) then Some 0
      else best ← deref I (pindexBest I); Some (i32 (bi_nHeight (entry best) - bi_nHeight (entry n) + 1))
  end.

Fixpoint find_tx (t : CTransaction) (l : list CTransaction) (i : Z) : option Z :=
  match l with
  | [] => None
  | x :: l => if tx_eq x t then Some i else find_tx t l (i + 1)
  end.

(** The block to use: the argument, or the one the transaction database names. *)
Definition block_for (db : CTxDB) (d : disk) (m : CMerkleTx) (pblock : option CBlock) : option (option CBlock) :=
  match pblock with
  | Some b => Some (Some b)
  | None =>
      h ← Tx.GetHash (mt_tx m);
      Some (txindex ← ReadTxIndex db h; block_ReadFromDisk p d (pos_nFile (txi_pos txindex)) (pos_nBlockPos (txi_pos txindex)) true)
  end.

(** The returned depth and the object. *)
Definition SetMerkleBranch (db : CTxDB) (d : disk) (I : index) (pblock : option CBlock) (m : CMerkleTx) : option (Z * CMerkleTx) :=
  ob ← block_for db d m pblock;
  match ob with
  | None => Some (0, m)
  | Some b =>
      let h := Block.GetIDHash b in
      match find_tx (mt_tx m) (vtx b) 0 with
      | None => Some (0, mk_mtx (mt_tx m) h [] (-1) (fMerkleVerified m))
      | Some i =>
          hashes ← mapM Tx.GetHash (vtx b);
          depth ← block_depth I h;
          Some (depth, mk_mtx (mt_tx m) h (Block.GetMerkleBranch hashes i) i (fMerkleVerified m))
      end
  end.

Definition GetDepthInMainChain (I : index) (m : CMerkleTx) : option (Z * CMerkleTx) :=
  if (hashBlock m =? 0) || (nIndex m =? -1) then Some (0, m)
  else
    match mapBlockIndex I !! hashBlock m with
    | None => Some (0, m)
    | Some n =>
        if negb (IsInMainChain I (hashBlock m) n) then Some (0, m)
        else
          ok ← (if fMerkleVerified m then Some true
                else h ← Tx.GetHash (mt_tx m);
                     Some (Block.CheckMerkleBranch h (vMerkleBranch m) (nIndex m) =? bi_hashMerkleRoot (entry n)));
          if negb ok then Some (0, m)
          else
            best ← deref I (pindexBest I);
            Some (i32 (bi_nHeight (entry best) - bi_nHeight (entry n) + 1),
                  mk_mtx (mt_tx m) (hashBlock m) (vMerkleBranch m) (nIndex m) true)
    end.

Definition mt_IsInMainChain (I : index) (m : CMerkleTx) : option (bool * CMerkleTx) :=
  '(depth, m) ← GetDepthInMainChain I m; Some (0 <? depth, m).

Definition GetBlocksToMaturity (I : index) (m : CMerkleTx) : option (Z * CMerkleTx) :=
  if negb (Tx.IsCoinBase (mt_tx m) || Tx.IsCoinStake (mt_tx m)) then Some (0, m)
  else
    '(depth, m) ← GetDepthInMainChain I m;
    Some (Z.max 0 (i32 (i32 (nCoinbaseMaturity + 20) - depth)), m).

End merkletx.

(** ** Properties *)

Section properties.
Context {B : Tx.Abi} {L : BNLib} {D : DigestLib} (p : NetParams).

Lemma tx_eq_hash a b : tx_eq a b = true -> mint a = mint b -> a = b.
Proof.
  unfold tx_eq. intros H Hm. bool_to_prop. destruct a, b; simpl in *.
  repeat match goal with H : bool_decide _ = true |- _ => apply bool_decide_eq_true in H end. by subst.
Qed.

Lemma find_tx_spec t l : forall i j, find_tx t l i = Some j ->
  exists k x, j = i + Z.of_nat k /\ l !! k = Some x /\ tx_eq x t = true /\
    forall k' x', (k' < k)%nat -> l !! k' = Some x' -> tx_eq x' t = false.
Proof.
  induction l as [|x l IH]; intros i j H; [done|]. cbn [find_tx] in H.
  destruct (tx_eq x t) eqn:He.
  - injection H as <-. exists 0%nat, x. split; [lia|]. split; [done|]. split; [done|]. lia.
  - apply IH in H as (k & y & -> & Hk & Hy & Hlt). exists (S k), y. split; [lia|]. split; [done|]. split; [done|].
    intros [|k'] x' Hk' Hx'; [by injection Hx' as <-|]. apply (Hlt k'); [lia|done].
Qed.

Lemma mapM_lookup {A C} (f : A -> option C) l r i x :
  mapM f l = Some r -> l !! i = Some x -> exists y, f x = Some y /\ r !! i = Some y.
Proof.
  revert r i. induction l as [|a l IH]; intros r i H Hi; [done|].
  apply mapM_Some_1 in H. apply Forall2_cons_inv_l in H as (y & r' & Hy & Hr & ->).
  destruct i as [|i]; [injection Hi as <-; by exists y|]. apply (IH r'); [by apply mapM_Some_2|done].
Qed.

(** What the stored branch proves when the flag is set or a depth is reported. *)
Definition branch_ok (I : index) (m : CMerkleTx) : Prop :=
  forall n h, mapBlockIndex I !! hashBlock m = Some n -> Tx.GetHash (mt_tx m) = Some h ->
    Block.CheckMerkleBranch h (vMerkleBranch m) (nIndex m) = bi_hashMerkleRoot (entry n).

Lemma depth_positive I m depth m' :
  (fMerkleVerified m = true -> branch_ok I m) ->
  GetDepthInMainChain I m = Some (depth, m') -> depth <> 0 ->
  branch_ok I m' /\ fMerkleVerified m' = true /\ mt_tx m' = mt_tx m /\ hashBlock m' = hashBlock m /\
  vMerkleBranch m' = vMerkleBranch m /\ nIndex m' = nIndex m /\
  exists n, mapBlockIndex I !! hashBlock m = Some n /\ IsInMainChain I (hashBlock m) n = true.
Proof.
  intros Hv. unfold GetDepthInMainChain. destruct (_ || _); [by intros [= <- <-]|].
  destruct (mapBlockIndex I !! hashBlock m) as [n|] eqn:Hn; [|by intros [= <- <-]].
  destruct (IsInMainChain I (hashBlock m) n) eqn:Hmain; cbn [negb]; [|by intros [= <- <-]].
  destruct (fMerkleVerified m) eqn:Hf.
  - cbn [mbind option_bind negb]. destruct (deref I (pindexBest I)) as [best|]; [|done]. intros [= <- <-] _.
    split; [by intros n' h Hn' Hh; apply Hv|]. repeat split. eauto.
  - destruct (Tx.GetHash (mt_tx m)) as [h|] eqn:Hh; [|done]. cbn [mbind option_bind].
    destruct (Z.eqb_spec (Block.CheckMerkleBranch h (vMerkleBranch m) (nIndex m)) (bi_hashMerkleRoot (entry n))) as [He|];
      cbn [negb]; [|by intros [= <- <-]].
    destruct (deref I (pindexBest I)) as [best|]; [|done]. intros [= <- <-] _.
    split; [|repeat split; eauto]. intros n' h' Hn' Hh'. simpl in *. congruence.
Qed.

(** The depth a transaction has once its branch was set from its block: the
    distance of the block from the best block plus one in the main chain, and 0
    in a side chain; the stored branch then convinces GetDepthInMainChain, which
    answers the same. *)
Lemma depth_of_block db d I b m i depth n best hashes m' :
  Block.GetIDHash b <> 0 ->
  find_tx (mt_tx m) (vtx b) 0 = Some i -> mint (mt_tx m) = mint (default (mt_tx m) (vtx b !! Z.to_nat i)) ->
  mapM Tx.GetHash (vtx b) = Some hashes ->
  mapBlockIndex I !! Block.GetIDHash b = Some n -> bi_hashMerkleRoot (entry n) = Block.BuildMerkleTree hashes ->
  deref I (pindexBest I) = Some best ->
  SetMerkleBranch p db d I (Some b) m = Some (depth, m') ->
  depth = (if IsInMainChain I (Block.GetIDHash b) n then i32 (bi_nHeight (entry best) - bi_nHeight (entry n) + 1) else 0) /\
  exists m'', GetDepthInMainChain I m' = Some (depth, m'').
Proof.
  intros H0 Hf Hm Hh Hn Hroot Hbest. unfold SetMerkleBranch, block_for. cbn [mbind option_bind].
  rewrite Hf, Hh. cbn [mbind option_bind]. unfold block_depth. rewrite Hn, Hbest.
  apply find_tx_spec in Hf as (k & x & Hi & Hk & Hx & _). assert (Z.to_nat i = k) as Hik by lia.
  rewrite Hik, Hk in Hm. simpl in Hm. apply tx_eq_hash in Hx; [|done]. subst x.
  destruct (mapM_lookup _ _ _ _ _ Hh Hk) as (y & Hy & Hyk).
  assert (length hashes = length (vtx b)) as Hlen.
  { apply mapM_Some_1 in Hh. symmetry. by eapply Forall2_length. }
  assert (k < length hashes)%nat as Hlt by (by apply lookup_lt_Some in Hyk).
  assert (Block.CheckMerkleBranch y (Block.GetMerkleBranch hashes i) i = Block.BuildMerkleTree hashes) as Hbr.
  { replace i with (Z.of_nat k) by lia. rewrite <- (Block.branch_to_root hashes k Hlt).
    do 2 f_equal. unfold rd. by rewrite Hyk. }
  unfold GetDepthInMainChain.
  destruct (IsInMainChain I (Block.GetIDHash b) n) eqn:Hmain; cbn [negb mbind option_bind]; intros [= <- <-]; split; try done;
    cbn [hashBlock nIndex fMerkleVerified mt_tx vMerkleBranch];
    rewrite (proj2 (Z.eqb_neq _ 0)) by done; rewrite (proj2 (Z.eqb_neq i (-1))) by lia; cbn [orb];
    rewrite Hn, Hmain; cbn [negb]; [|eauto].
  destruct (fMerkleVerified m); cbn [mbind option_bind negb]; rewrite ?Hy; cbn [mbind option_bind];
    rewrite ?Hbr, <- ?Hroot, ?Z.eqb_refl; cbn [negb]; rewrite Hbest; cbn [mbind option_bind]; eauto.
Qed.

End properties.
End MerkleTx.
