(* ===== verification/Wallet.v ===== *)
(** * The wallet (src/src/wallet.h, src/src/wallet.cpp)

    The transactions of the wallet with their spent flags and cached amounts,
    credit, debit and change, the balances, and the operations that add and
    update transactions.  A transaction of the wallet carries four cached
    amounts that const methods fill ([Some v]: the flag is set and the amount is
    v) and the flag of its merkle branch, so these methods return the object
    too.  The wallet file is the map of the records written to it; writing
    succeeds.  [None] is an exception. *)

From stdpp Require Import gmap sorting.
From S2P Require Import Prelude Containers Uint256 Bignum Crypto Script Serialize Tx Base58 Signature Key Solver KeyStore Work Block BlockIndex Kernel Coins Ledger MerkleTx.
Import BlockIndex Ledger MerkleTx KeyStores.

Record CKeyPool := mk_keypool { kp_nTime : Z; kp_vchPubKey : list Z }.

Record CWalletTx := mk_wtx {
  wtx : CMerkleTx;
  vtxPrev : list CMerkleTx;
  mapValue : gmap (list Z) (list Z);
  vOrderForm : list (list Z * list Z);
  fTimeReceivedIsTxTime : bool;
  nTimeReceived : Z;
  fFromMe : bool;
  strFromAccount : list Z;
  vfSpent : list bool;
  debitCached : option Z;
  creditCached : option Z;
  availableCached : option Z;
  changeCached : option Z
}.

Record CWallet := mk_wallet {
  store : keystore;
  nWalletVersion : Z;
  nWalletMaxVersion : Z;
  fFileBacked : bool;
  setKeyPool : gset Z;
  mapWallet : gmap Z CWalletTx;
  vWalletUpdated : list Z;
  mapRequestCount : gmap Z Z;
  mapAddressBook : gmap Base58.CBase58Data (list Z);
  vchDefaultKey : list Z;
  file_tx : gmap Z CWalletTx;
  file_pool : gmap Z CKeyPool;
  nDraws : nat
}.

Module Wallet.

(** ** Objects *)

Definition tx_of (x : CWalletTx) : CTransaction := mt_tx (wtx x).

Definition Init (m : CMerkleTx) : CWalletTx := mk_wtx m [] ∅ [] false 0 false [] [] None None None None.

Definition with_wtx (m : CMerkleTx) (x : CWalletTx) : CWalletTx :=
  mk_wtx m (vtxPrev x) (mapValue x) (vOrderForm x) (fTimeReceivedIsTxTime x) (nTimeReceived x) (fFromMe x) (strFromAccount x)
    (vfSpent x) (debitCached x) (creditCached x) (availableCached x) (changeCached x).
Definition with_prevs (l : list CMerkleTx) (x : CWalletTx) : CWalletTx :=
  mk_wtx (wtx x) l (mapValue x) (vOrderForm x) (fTimeReceivedIsTxTime x) (nTimeReceived x) (fFromMe x) (strFromAccount x)
    (vfSpent x) (debitCached x) (creditCached x) (availableCached x) (changeCached x).
Definition with_spent (vf : list bool) (avail : option Z) (x : CWalletTx) : CWalletTx :=
  mk_wtx (wtx x) (vtxPrev x) (mapValue x) (vOrderForm x) (fTimeReceivedIsTxTime x) (nTimeReceived x) (fFromMe x) (strFromAccount x)
    vf (debitCached x) (creditCached x) avail (changeCached x).
Definition with_caches (d c a g : option Z) (x : CWalletTx) : CWalletTx :=
  mk_wtx (wtx x) (vtxPrev x) (mapValue x) (vOrderForm x) (fTimeReceivedIsTxTime x) (nTimeReceived x) (fFromMe x) (strFromAccount x)
    (vfSpent x) d c a g.
Definition with_received (n : Z) (x : CWalletTx) : CWalletTx :=
  mk_wtx (wtx x) (vtxPrev x) (mapValue x) (vOrderForm x) (fTimeReceivedIsTxTime x) n (fFromMe x) (strFromAccount x)
    (vfSpent x) (debitCached x) (creditCached x) (availableCached x) (changeCached x).
Definition with_fromMe (f : bool) (x : CWalletTx) : CWalletTx :=
  mk_wtx (wtx x) (vtxPrev x) (mapValue x) (vOrderForm x) (fTimeReceivedIsTxTime x) (nTimeReceived x) f (strFromAccount x)
    (vfSpent x) (debitCached x) (creditCached x) (availableCached x) (changeCached x).

Definition set_mapWallet (m : gmap Z CWalletTx) (w : CWallet) : CWallet :=
  mk_wallet (store w) (nWalletVersion w) (nWalletMaxVersion w) (fFileBacked w) (setKeyPool w) m (vWalletUpdated w)
    (mapRequestCount w) (mapAddressBook w) (vchDefaultKey w) (file_tx w) (file_pool w) (nDraws w).

(** ** Spent flags *)

Definition out_count (x : CWalletTx) : Z := Z.of_nat (length (vout (tx_of x))).

(** The loop of UpdateSpent: the flags, and whether one was set. *)
Fixpoint merge_spent (vfNew vf : list bool) : list bool * bool :=
  match vfNew, vf with
  | n :: vfNew, o :: vf => let '(r, up) := merge_spent vfNew vf in ((o || n) :: r, (n && negb o) || up)
  | _, _ => (vf, false)
  end.

Definition UpdateSpent (x : CWalletTx) (vfNewSpent : list bool) : bool * CWalletTx :=
  let '(vf, up) := merge_spent vfNewSpent (vfSpent x) in
  (up, with_spent vf (if up : bool then None else availableCached x) x).

Definition MarkDirty (x : CWalletTx) : CWalletTx := with_caches None None None None x.

(** The pointer to the wallet is implicit here. *)
Definition BindWallet (x : CWalletTx) : CWalletTx := MarkDirty x.

(** [vfSpent.resize(n)] *)
Definition resize_flags (n : nat) (vf : list bool) : list bool := take n (vf ++ replicate n false).

Definition MarkSpent (nOut : Z) (x : CWalletTx) : option CWalletTx :=
  if out_count x <=? nOut then None
  else
    let vf := resize_flags (length (vout (tx_of x))) (vfSpent x) in
    if default false (vf !! Z.to_nat nOut) then Some (with_spent vf (availableCached x) x)
    else Some (with_spent (<[Z.to_nat nOut := true]> vf) None x).

Definition MarkUnspent (nOut : Z) (x : CWalletTx) : option CWalletTx :=
  if out_count x <=? nOut then None
  else
    let vf := resize_flags (length (vout (tx_of x))) (vfSpent x) in
    if default false (vf !! Z.to_nat nOut) then Some (with_spent (<[Z.to_nat nOut := false]> vf) None x)
    else Some (with_spent vf (availableCached x) x).

Definition IsSpent (x : CWalletTx) (nOut : Z) : option bool :=
  if out_count x <=? nOut then None
  else if Z.of_nat (length (vfSpent x)) <=? nOut then Some false
  else Some (default false (vfSpent x !! Z.to_nat nOut)).

(** ** Amounts *)

Section amounts.
Context {B : Tx.Abi} {L : BNLib} {D : DigestLib} {E : ECLib} {G : ECGroup E} {V : EVPLib} (fTestNet : bool).
Context (w : CWallet).

(** The global IsMine on the wallet's store.  Redemption scripts that name each other
    do not go deeper than the number of scripts in the store. *)
Definition IsMine_script (scriptPubKey : list Z) : bool :=
  default false (Solve.IsMine fTestNet (store w) (S (size (mapScripts (store w)))) scriptPubKey).

Definition IsMine_out (o : CTxOut) : bool := IsMine_script (scriptPubKey o).

(** The output an input spends, when its transaction is in the wallet. *)
Definition spent_output (i : CTxIn) : option CTxOut :=
  prev ← mapWallet w !! prevhash (prevout i);
  vout (tx_of prev) !! Z.to_nat (out_n (prevout i)).

Definition IsMine_in (i : CTxIn) : bool :=
  match spent_output i with Some o => IsMine_out o | None => false end.

Definition GetDebit_in (i : CTxIn) : Z :=
  match spent_output i with Some o => if IsMine_out o then nValue o else 0 | None => 0 end.

Definition IsChange (o : CTxOut) : bool :=
  match Solve.ExtractAddress fTestNet (scriptPubKey o) with
  | Some address => HaveKey (store w) address && negb (bool_decide (is_Some (mapAddressBook w !! address)))
  | None => false
  end.

(** [nTotal += v; if (!MoneyRange(nTotal)) throw] *)
Definition add_money (acc : option Z) (v : option Z) : option Z :=
  t ← acc; v ← v; let t := i64 (t + v) in if MoneyRange t then Some t else None.

Definition GetDebit_tx (t : CTransaction) : option Z :=
  foldl (fun acc i => add_money acc (Some (GetDebit_in i))) (Some 0) (vin t).

Definition GetCredit_out (o : CTxOut) : option Z :=
  if negb (MoneyRange (nValue o)) then None else Some (if IsMine_out o then nValue o else 0).

Definition GetCredit_tx (t : CTransaction) : option Z :=
  foldl (fun acc o => add_money acc (GetCredit_out o)) (Some 0) (vout t).

Definition GetChange_out (o : CTxOut) : option Z :=
  if negb (MoneyRange (nValue o)) then None else Some (if IsChange o then nValue o else 0).

Definition GetChange_tx (t : CTransaction) : option Z :=
  foldl (fun acc o => add_money acc (GetChange_out o)) (Some 0) (vout t).

Definition IsMine_tx (t : CTransaction) : bool := existsb IsMine_out (vout t).

Definition IsFromMe_tx (t : CTransaction) : option bool := d ← GetDebit_tx t; Some (0 <? d).

(** *** The methods of CWalletTx, with their caches *)

Context (I : index) (nCoinbaseMaturity nBestHeight nNow : Z).

(** Coin base and coin stake outputs are not counted before maturity. *)
Definition generated (t : CTransaction) : bool := Tx.IsCoinBase t || Tx.IsCoinStake t.

Definition immature (x : CWalletTx) : option (bool * CWalletTx) :=
  if generated (tx_of x) then
    '(n, m) ← GetBlocksToMaturity nCoinbaseMaturity I (wtx x);
    Some (0 <? n, with_wtx m x)
  else Some (false, x).

Definition GetDebit (x : CWalletTx) : option (Z * CWalletTx) :=
  if bool_decide (vin (tx_of x) = []) then Some (0, x)
  else
    match debitCached x with
    | Some v => Some (v, x)
    | None => v ← GetDebit_tx (tx_of x); Some (v, with_caches (Some v) (creditCached x) (availableCached x) (changeCached x) x)
    end.

Definition GetCredit (fUseCache : bool) (x : CWalletTx) : option (Z * CWalletTx) :=
  '(im, x) ← immature x;
  if im : bool then Some (0, x)
  else
    match creditCached x with
    | Some v => if fUseCache then Some (v, x)
                else v ← GetCredit_tx (tx_of x); Some (v, with_caches (debitCached x) (Some v) (availableCached x) (changeCached x) x)
    | None => v ← GetCredit_tx (tx_of x); Some (v, with_caches (debitCached x) (Some v) (availableCached x) (changeCached x) x)
    end.

(** The sum over the outputs that are not marked as spent. *)
Fixpoint unspent_credit (outs : list CTxOut) (vf : list bool) (acc : option Z) : option Z :=
  match outs with
  | [] => acc
  | o :: outs =>
      unspent_credit outs (tail vf) (if default false (head vf) then acc else add_money acc (GetCredit_out o))
  end.

Definition available (x : CWalletTx) : option Z := unspent_credit (vout (tx_of x)) (vfSpent x) (Some 0).

Definition GetAvailableCredit (fUseCache : bool) (x : CWalletTx) : option (Z * CWalletTx) :=
  '(im, x) ← immature x;
  if im : bool then Some (0, x)
  else
    match availableCached x with
    | Some v => if fUseCache then Some (v, x)
                else v ← available x; Some (v, with_caches (debitCached x) (creditCached x) (Some v) (changeCached x) x)
    | None => v ← available x; Some (v, with_caches (debitCached x) (creditCached x) (Some v) (changeCached x) x)
    end.

Definition GetChange (x : CWalletTx) : option (Z * CWalletTx) :=
  match changeCached x with
  | Some v => Some (v, x)
  | None => v ← GetChange_tx (tx_of x); Some (v, with_caches (debitCached x) (creditCached x) (availableCached x) (Some v) x)
  end.

Definition IsFromMe (x : CWalletTx) : option (bool * CWalletTx) := '(d, x) ← GetDebit x; Some (0 <? d, x).

Definition IsFinal (t : CTransaction) : bool := Tx.IsFinal nBestHeight nNow t 0 0.

(** *** IsConfirmed

    The work queue holds pointers: [None] is the transaction itself, [Some k] the
    k-th of vtxPrev. *)

Definition at_ptr (x : CWalletTx) (q : option nat) : option CMerkleTx :=
  match q with None => Some (wtx x) | Some k => vtxPrev x !! k end.

Definition put_ptr (q : option nat) (m : CMerkleTx) (x : CWalletTx) : CWalletTx :=
  match q with None => with_wtx m x | Some k => with_prevs (<[k := m]> (vtxPrev x)) x end.

(** [mapPrev[tx.GetHash()] = &tx] over vtxPrev: a later transaction wins. *)
Definition map_prev (x : CWalletTx) : option (gmap Z nat) :=
  hashes ← mapM (fun m => Tx.GetHash (mt_tx m)) (vtxPrev x);
  Some (list_to_map (reverse (zip hashes (seq 0 (length hashes))))).

(** The outer [None]: out of fuel; the inner one an exception. *)
Fixpoint confirm_loop (fuel : nat) (queue : list (option nat)) (x : CWalletTx) : option (option (bool * CWalletTx)) :=
  match queue with
  | [] => Some (Some (true, x))
  | q :: queue =>
      match fuel with
      | O => None
      | S fuel =>
          match at_ptr x q with
          | None => Some None
          | Some m =>
              if negb (IsFinal (mt_tx m)) then Some (Some (false, x))
              else
                match GetDepthInMainChain I m with
                | None => Some None
                | Some (depth, m') =>
                    let x := put_ptr q m' x in
                    if 1 <=? depth then confirm_loop fuel queue x
                    else
                      match IsFromMe_tx (mt_tx m), map_prev x with
                      | Some fm, Some mapPrev =>
                          if negb fm then Some (Some (false, x))
                          else
                            match mapM (fun i => mapPrev !! prevhash (prevout i)) (vin (mt_tx m)) with
                            | None => Some (Some (false, x))
                            | Some ks => confirm_loop fuel (queue ++ (Some <$> ks)) x
                            end
                      | _, _ => Some None
                      end
                end
          end
      end
  end.

(** [fuel] bounds the rounds of the queue; see [IsConfirmed_ends]. *)
Context (fuel : nat).

Definition IsConfirmed (x : CWalletTx) : option (bool * CWalletTx) :=
  if negb (IsFinal (tx_of x)) then Some (false, x)
  else
    '(depth, m) ← GetDepthInMainChain I (wtx x);
    let x := with_wtx m x in
    if 1 <=? depth then Some (true, x)
    else
      '(fm, x) ← IsFromMe x;
      if negb fm then Some (false, x)
      else default None (confirm_loop fuel [None] x).

End amounts.

(** ** Balances *)

Section balances.
Context {B : Tx.Abi} {L : BNLib} {D : DigestLib} {E : ECLib} {G : ECGroup E} {V : EVPLib} (fTestNet : bool).
Context (I : index) (nCoinbaseMaturity nBestHeight nNow : Z) (fuel : nat).

(** [for (it = mapWallet.begin(); ...) nTotal += f(pcoin)]; what [f] caches is
    kept in the map. *)
Fixpoint sum_wallet (f : CWallet -> CWalletTx -> option (Z * CWalletTx)) (l : list Z) (nTotal : Z) (w : CWallet) : option (Z * CWallet) :=
  match l with
  | [] => Some (nTotal, w)
  | h :: l =>
      x ← mapWallet w !! h;
      '(v, x) ← f w x;
      sum_wallet f l (i64 (nTotal + v)) (set_mapWallet (<[h := x]> (mapWallet w)) w)
  end.

(** The hashes in the order of the map. *)
Definition wallet_keys (w : CWallet) : list Z := merge_sort Z.le (elements (dom (mapWallet w))).

Definition confirmed (w : CWallet) (x : CWalletTx) : option (bool * CWalletTx) :=
  if negb (IsFinal nBestHeight nNow (tx_of x)) then Some (false, x)
  else IsConfirmed fTestNet w I nBestHeight nNow fuel x.

Definition balance_of (w : CWallet) (x : CWalletTx) : option (Z * CWalletTx) :=
  '(c, x) ← confirmed w x;
  if negb c then Some (0, x) else GetAvailableCredit fTestNet w I nCoinbaseMaturity true x.

Definition GetBalance (w : CWallet) : option (Z * CWallet) := sum_wallet balance_of (wallet_keys w) 0 w.

Definition unconfirmed_of (w : CWallet) (x : CWalletTx) : option (Z * CWalletTx) :=
  '(c, x) ← confirmed w x;
  if c : bool then Some (0, x) else GetAvailableCredit fTestNet w I nCoinbaseMaturity true x.

Definition GetUnconfirmedBalance (w : CWallet) : option (Z * CWallet) := sum_wallet unconfirmed_of (wallet_keys w) 0 w.

(** Generated coins that are at least 2 deep and not mature. *)
Definition growing_of (kind : CTransaction -> bool) (w : CWallet) (x : CWalletTx) : option (Z * CWalletTx) :=
  if negb (kind (tx_of x)) then Some (0, x)
  else
    '(n, m) ← GetBlocksToMaturity nCoinbaseMaturity I (wtx x);
    let x := with_wtx m x in
    if negb (0 <? n) then Some (0, x)
    else
      '(depth, m) ← GetDepthInMainChain I (wtx x);
      let x := with_wtx m x in
      if negb (2 <=? depth) then Some (0, x)
      else v ← GetCredit_tx fTestNet w (tx_of x); Some (v, x).

Definition GetStake (w : CWallet) : option (Z * CWallet) := sum_wallet (growing_of Tx.IsCoinStake) (wallet_keys w) 0 w.
Definition GetNewMint (w : CWallet) : option (Z * CWallet) := sum_wallet (growing_of Tx.IsCoinBase) (wallet_keys w) 0 w.

End balances.
End Wallet.
