(* ===== verification/KeyPool.v ===== *)
(** * The key pool of the wallet (src/src/wallet.cpp, src/src/wallet.h)

    Keys are generated in advance: setKeyPool holds the indices of the keys that
    can be handed out, the wallet file the keys by index.  A key is reserved,
    and then kept (its record is erased) or returned.  The secrets that
    EC_KEY_generate_key draws are the sequence [draw]; the wallet counts the
    draws.  [None] is an exception or a failed assertion. *)

From stdpp Require Import gmap.
From S2P Require Import Prelude Containers Uint256 Bignum Crypto Script Serialize Tx Base58 Signature Key Solver KeyStore Work Block BlockIndex Kernel Coins Ledger MerkleTx Wallet.
Import KeyStores Key.

Record CReserveKey := mk_reserve { rk_nIndex : Z; rk_vchPubKey : list Z }.

Module KeyPool.

Definition FEATURE_BASE : Z := 10500.
Definition FEATURE_WALLETCRYPT : Z := 40000.
Definition FEATURE_COMPRPUBKEY : Z := 60000.
Definition FEATURE_LATEST : Z := 60000.

Definition with_store (s : keystore) (n : nat) (w : CWallet) : CWallet :=
  mk_wallet s (nWalletVersion w) (nWalletMaxVersion w) (fFileBacked w) (setKeyPool w) (mapWallet w) (vWalletUpdated w)
    (mapRequestCount w) (mapAddressBook w) (vchDefaultKey w) (file_tx w) (file_pool w) n.
Definition with_versions (v m : Z) (w : CWallet) : CWallet :=
  mk_wallet (store w) v m (fFileBacked w) (setKeyPool w) (mapWallet w) (vWalletUpdated w)
    (mapRequestCount w) (mapAddressBook w) (vchDefaultKey w) (file_tx w) (file_pool w) (nDraws w).
Definition with_pool (s : gset Z) (f : gmap Z CKeyPool) (w : CWallet) : CWallet :=
  mk_wallet (store w) (nWalletVersion w) (nWalletMaxVersion w) (fFileBacked w) s (mapWallet w) (vWalletUpdated w)
    (mapRequestCount w) (mapAddressBook w) (vchDefaultKey w) (file_tx w) f (nDraws w).

(** ** Versions of the wallet *)

Definition CanSupportFeature (w : CWallet) (wf : Z) : bool := wf <=? nWalletMaxVersion w.

Definition SetMinVersion (nVersion : Z) (fExplicit : bool) (w : CWallet) : CWallet :=
  if nVersion <=? nWalletVersion w then w
  else
    let nVersion := if fExplicit && (nWalletMaxVersion w <? nVersion) then FEATURE_LATEST else nVersion in
    with_versions nVersion (if nWalletMaxVersion w <? nVersion then nVersion else nWalletMaxVersion w) w.

Definition SetMaxVersion (nVersion : Z) (w : CWallet) : bool * CWallet :=
  if nVersion <? nWalletVersion w then (false, w) else (true, with_versions (nWalletVersion w) nVersion w).

Definition LoadMinVersion (nVersion : Z) (w : CWallet) : CWallet :=
  with_versions nVersion (Z.max (nWalletMaxVersion w) nVersion) w.

(** [*(set.begin())] and [*(--set.end())] *)
Definition lowest (s : gset Z) : option Z :=
  match elements s with [] => None | x :: l => Some (foldl Z.min x l) end.
Definition highest (s : gset Z) : option Z :=
  match elements s with [] => None | x :: l => Some (foldl Z.max x l) end.

Section pool.
Context {D : DigestLib} {E : ECLib} {G : ECGroup E} {V : EVPLib} (fTestNet : bool) (draw : nat -> Z).

(** ** Keys *)

Definition AddKey (key : CKey) (w : CWallet) : option (bool * CWallet) :=
  '(ok, s) ← KeyStores.AddKey fTestNet (store w) key;
  Some (ok, with_store s (nDraws w) w).

Definition GenerateNewKey (w : CWallet) : option (list Z * CWallet) :=
  let fCompressed := CanSupportFeature w FEATURE_COMPRPUBKEY in
  let key := MakeNewKey Reset fCompressed (draw (nDraws w)) in
  let w := with_store (store w) (S (nDraws w)) w in
  let w := if fCompressed then SetMinVersion FEATURE_COMPRPUBKEY false w else w in
  '(ok, w) ← AddKey key w;
  if negb ok then None
  else pub ← GetPubKey key; Some (pub, w).

(** ** The pool; [nKeysArg] is the argument -keypool, [now] is GetTime() *)

Context (nKeysArg now : Z).

Fixpoint new_keys (n : nat) (i : Z) (w : CWallet) : option CWallet :=
  match n with
  | O => Some w
  | S n =>
      '(pub, w) ← GenerateNewKey w;
      new_keys n (i + 1) (with_pool ({[ i + 1 ]} ∪ setKeyPool w) (<[ i + 1 := mk_keypool now pub ]> (file_pool w)) w)
  end.

Definition NewKeyPool (w : CWallet) : option (bool * CWallet) :=
  let w := with_pool ∅ (set_fold (fun i f => delete i f) (file_pool w) (setKeyPool w)) w in
  if IsLocked (store w) then Some (false, w)
  else w ← new_keys (Z.to_nat (Z.max nKeysArg 0)) 0 w; Some (true, w).

(** [while (setKeyPool.size() < (nTargetSize + 1))]: every round adds an index
    above the others, so there are as many rounds as indices missing. *)
Fixpoint top_up (n : nat) (w : CWallet) : option CWallet :=
  match n with
  | O => Some w
  | S n =>
      let nEnd := match highest (setKeyPool w) with Some m => i64 (m + 1) | None => 1 end in
      '(pub, w) ← GenerateNewKey w;
      top_up n (with_pool ({[ nEnd ]} ∪ setKeyPool w) (<[ nEnd := mk_keypool now pub ]> (file_pool w)) w)
  end.

Definition nTargetSize : Z := u32 (Z.max nKeysArg 0).

Definition TopUpKeyPool (w : CWallet) : option (bool * CWallet) :=
  if IsLocked (store w) then Some (false, w)
  else
    w ← top_up (Z.to_nat (u32 (nTargetSize + 1) - Z.of_nat (size (setKeyPool w)))) w;
    Some (true, w).

(** nIndex and keypool; the index is -1 when there is no key. *)
Definition ReserveKeyFromKeyPool (w : CWallet) : option (Z * CKeyPool * CWallet) :=
  w ← (if IsLocked (store w) then Some w else snd <$> TopUpKeyPool w);
  match lowest (setKeyPool w) with
  | None => Some (-1, mk_keypool now [], w)
  | Some nIndex =>
      let w := with_pool (setKeyPool w ∖ {[ nIndex ]}) (file_pool w) w in
      keypool ← file_pool w !! nIndex;
      if negb (HaveKey (store w) (address fTestNet (kp_vchPubKey keypool))) then None
      else if bool_decide (kp_vchPubKey keypool = []) then None
      else Some (nIndex, keypool, w)
  end.

Definition AddReserveKey (keypool : CKeyPool) (w : CWallet) : option (Z * CWallet) :=
  m ← highest (setKeyPool w);
  let nIndex := i64 (1 + m) in
  Some (nIndex, with_pool ({[ nIndex ]} ∪ setKeyPool w) (<[ nIndex := keypool ]> (file_pool w)) w).

Definition KeepKey (nIndex : Z) (w : CWallet) : CWallet :=
  if fFileBacked w then with_pool (setKeyPool w) (delete nIndex (file_pool w)) w else w.

Definition ReturnKey (nIndex : Z) (w : CWallet) : CWallet := with_pool ({[ nIndex ]} ∪ setKeyPool w) (file_pool w) w.

(** The returned bool and result. *)
Definition GetKeyFromPool (fAllowReuse : bool) (w : CWallet) : option (bool * list Z * CWallet) :=
  '(nIndex, keypool, w) ← ReserveKeyFromKeyPool w;
  if nIndex =? -1 then
    if fAllowReuse && negb (bool_decide (vchDefaultKey w = [])) then Some (true, vchDefaultKey w, w)
    else if IsLocked (store w) then Some (false, [], w)
    else '(pub, w) ← GenerateNewKey w; Some (true, pub, w)
  else Some (true, kp_vchPubKey keypool, KeepKey nIndex w).

Definition GetOldestKeyPoolTime (w : CWallet) : option (Z * CWallet) :=
  '(nIndex, keypool, w) ← ReserveKeyFromKeyPool w;
  if nIndex =? -1 then Some (now, w) else Some (kp_nTime keypool, ReturnKey nIndex w).

Definition GetAllReserveAddresses (w : CWallet) : option (gset Base58.CBase58Data) :=
  l ← mapM (fun id =>
        keypool ← file_pool w !! id;
        let a := address fTestNet (kp_vchPubKey keypool) in
        if bool_decide (kp_vchPubKey keypool = []) || negb (HaveKey (store w) a) then None else Some a)
      (elements (setKeyPool w));
  Some (list_to_set l).

(** ** CReserveKey *)

Definition no_reserve : CReserveKey := mk_reserve (-1) [].

Definition GetReservedKey (r : CReserveKey) (w : CWallet) : option (list Z * CReserveKey * CWallet) :=
  '(r, w) ← (if rk_nIndex r =? -1 then
               '(nIndex, keypool, w) ← ReserveKeyFromKeyPool w;
               Some (if negb (nIndex =? -1) then mk_reserve nIndex (kp_vchPubKey keypool)
                     else mk_reserve nIndex (vchDefaultKey w), w)
             else Some (r, w));
  if bool_decide (rk_vchPubKey r = []) then None else Some (rk_vchPubKey r, r, w).

Definition reserve_KeepKey (r : CReserveKey) (w : CWallet) : CReserveKey * CWallet :=
  (no_reserve, if negb (rk_nIndex r =? -1) then KeepKey (rk_nIndex r) w else w).

Definition reserve_ReturnKey (r : CReserveKey) (w : CWallet) : CReserveKey * CWallet :=
  (no_reserve, if negb (rk_nIndex r =? -1) then ReturnKey (rk_nIndex r) w else w).

End pool.

(** ** Properties *)

Lemma foldl_min_spec l : forall x, foldl Z.min x l ∈ x :: l /\ (forall y, y ∈ x :: l -> foldl Z.min x l <= y).
Proof.
  induction l as [|a l IH]; intros x; cbn [foldl].
  - split; [left|]. intros y Hy. apply list_elem_of_singleton in Hy. lia.
  - destruct (IH (Z.min x a)) as [Hin Hle]. split.
    + apply elem_of_cons in Hin as [->|Hin]; [|by do 2 right].
      destruct (Z.min_spec x a) as [[_ ->]|[_ ->]]; [left|right; left].
    + intros y Hy. apply elem_of_cons in Hy as [->|Hy].
      * specialize (Hle (Z.min x a) ltac:(left)). lia.
      * apply elem_of_cons in Hy as [->|Hy]; [specialize (Hle (Z.min x a) ltac:(left)); lia|]. apply Hle. by right.
Qed.

Lemma foldl_max_spec l : forall x, foldl Z.max x l ∈ x :: l /\ (forall y, y ∈ x :: l -> y <= foldl Z.max x l).
Proof.
  induction l as [|a l IH]; intros x; cbn [foldl].
  - split; [left|]. intros y Hy. apply list_elem_of_singleton in Hy. lia.
  - destruct (IH (Z.max x a)) as [Hin Hle]. split.
    + apply elem_of_cons in Hin as [->|Hin]; [|by do 2 right].
      destruct (Z.max_spec x a) as [[_ ->]|[_ ->]]; [right; left|left].
    + intros y Hy. apply elem_of_cons in Hy as [->|Hy].
      * specialize (Hle (Z.max x a) ltac:(left)). lia.
      * apply elem_of_cons in Hy as [->|Hy]; [specialize (Hle (Z.max x a) ltac:(left)); lia|]. apply Hle. by right.
Qed.

Lemma lowest_spec s :
  match lowest s with Some m => m ∈ s /\ (forall y, y ∈ s -> m <= y) | None => s = ∅ end.
Proof.
  unfold lowest. destruct (elements s) as [|x l] eqn:He.
  - by apply elements_empty_iff, leibniz_equiv in He.
  - destruct (foldl_min_spec l x) as [Hin Hle]. rewrite <- He in Hin, Hle.
    split; [by apply elem_of_elements|]. intros y Hy. apply Hle. by apply elem_of_elements.
Qed.

Lemma highest_spec s :
  match highest s with Some m => m ∈ s /\ (forall y, y ∈ s -> y <= m) | None => s = ∅ end.
Proof.
  unfold highest. destruct (elements s) as [|x l] eqn:He.
  - by apply elements_empty_iff, leibniz_equiv in He.
  - destruct (foldl_max_spec l x) as [Hin Hle]. rewrite <- He in Hin, Hle.
    split; [by apply elem_of_elements|]. intros y Hy. apply Hle. by apply elem_of_elements.
Qed.

Section safety.
Context {D : DigestLib} {E : ECLib} {G : ECGroup E} {HG : ECGroupLaws G} {V : EVPLib} {HV : EVPLaws V}.
Context (fTestNet : bool) (draw : nat -> Z) (nKeysArg now : Z).

(** What is drawn is a secret, and the first [nMax] draws give different points. *)
Context (nMax : nat) (max_small : Z.of_nat nMax <= 2 ^ 61).
Context (draw_range : forall n, 0 <= draw n < 2 ^ 256).
Context (draw_fresh : forall n m, (n < nMax)%nat -> (m < nMax)%nat -> ec_gen (draw n) = ec_gen (draw m) -> n = m).
Context (some_keys : 1 <= nKeysArg < 2 ^ 31).

Definition pub_at (n : nat) (c : bool) : list Z := pub_of (draw n, c).

Definition drawn (k : nat) (pub : list Z) : Prop := exists n c, (n < k)%nat /\ pub = pub_at n c.

Lemma pub_at_inj n c m d : (n < nMax)%nat -> (m < nMax)%nat -> pub_at n c = pub_at m d -> n = m.
Proof.
  unfold pub_at, pub_of. cbn [fst snd]. intros Hn Hm H. apply draw_fresh; [done|done|].
  apply (f_equal o2i_ECPublicKey) in H. rewrite !o2i_i2o in H by apply form_of_ok. by injection H.
Qed.

Lemma drawn_fresh k pub c : (k < nMax)%nat -> drawn k pub -> pub <> pub_at k c.
Proof. intros Hk (n & d & Hn & ->) H. apply pub_at_inj in H; lia. Qed.

Lemma drawn_mono k k' pub : drawn k pub -> (k <= k')%nat -> drawn k' pub.
Proof. intros (n & d & Hn & ->) H. exists n, d. split; [lia|done]. Qed.

Lemma pub_at_cons n c : pub_at n c <> [].
Proof.
  intros H. pose proof (i2o_length (ec_gen (draw n)) (form_of c) (form_of_ok c)) as Hl.
  unfold pub_at, pub_of in H. cbn [fst snd] in H. rewrite H in Hl. by destruct (form_of c =? FORM_COMPRESSED).
Qed.

(** The state of the pool: [out] are the keys that are reserved, by index, [kept] the
    keys that were kept. *)
Record pool_inv (mk : list Z) (r : gmap Base58.CBase58Data (Z * bool)) (w : CWallet) (out : gmap Z (list Z)) (kept : list (list Z)) : Prop := {
  pi_holds : holds fTestNet (store w) mk r;
  pi_unlocked : IsLocked (store w) = false;
  pi_backed : fFileBacked w = true;
  pi_dom : dom (file_pool w) = setKeyPool w ∪ dom out;
  pi_disj : setKeyPool w ## dom out;
  pi_out : forall i pub, out !! i = Some pub -> kp_vchPubKey <$> file_pool w !! i = Some pub;
  pi_below : forall o, o ∈ dom out -> exists m, m ∈ setKeyPool w /\ o < m;
  pi_range : forall i, i ∈ dom (file_pool w) -> 1 <= i <= Z.of_nat (nDraws w);
  pi_drawn : forall i k, file_pool w !! i = Some k ->
    drawn (nDraws w) (kp_vchPubKey k) /\ is_Some (r !! address fTestNet (kp_vchPubKey k));
  pi_inj : forall i j k l, file_pool w !! i = Some k -> file_pool w !! j = Some l -> kp_vchPubKey k = kp_vchPubKey l -> i = j;
  pi_kept : forall pub, pub ∈ kept -> drawn (nDraws w) pub /\ forall i k, file_pool w !! i = Some k -> kp_vchPubKey k <> pub;
  pi_nodup : NoDup kept
}.

Definition grown (w w' : CWallet) : Prop :=
  nWalletVersion w <= nWalletVersion w' /\ mapWallet w' = mapWallet w /\ file_tx w' = file_tx w /\ vchDefaultKey w' = vchDefaultKey w.

Lemma SetMinVersion_other v e w :
  store (SetMinVersion v e w) = store w /\ fFileBacked (SetMinVersion v e w) = fFileBacked w /\
  setKeyPool (SetMinVersion v e w) = setKeyPool w /\ file_pool (SetMinVersion v e w) = file_pool w /\
  nDraws (SetMinVersion v e w) = nDraws w.
Proof. unfold SetMinVersion. by destruct (_ <=? _). Qed.

Lemma GenerateNewKey_spec mk r w :
  holds fTestNet (store w) mk r -> IsLocked (store w) = false ->
  exists c w', GenerateNewKey fTestNet draw w = Some (pub_at (nDraws w) c, w') /\
    holds fTestNet (store w') mk (<[address fTestNet (pub_at (nDraws w) c) := (draw (nDraws w), c)]> r) /\
    IsLocked (store w') = false /\ fFileBacked w' = fFileBacked w /\ setKeyPool w' = setKeyPool w /\
    file_pool w' = file_pool w /\ nDraws w' = S (nDraws w) /\ IsCrypted (store w') = IsCrypted (store w).
Proof.
  intros Hs Hl. unfold GenerateNewKey. set (c := CanSupportFeature w FEATURE_COMPRPUBKEY).
  rewrite MakeNewKey_full.
  set (w1 := if c then SetMinVersion FEATURE_COMPRPUBKEY false (with_store (store w) (S (nDraws w)) w)
             else with_store (store w) (S (nDraws w)) w).
  assert (store w1 = store w /\ fFileBacked w1 = fFileBacked w /\ setKeyPool w1 = setKeyPool w /\
          file_pool w1 = file_pool w /\ nDraws w1 = S (nDraws w)) as (E1 & E2 & E3 & E4 & E5).
  { subst w1. destruct c; [|done]. destruct (SetMinVersion_other FEATURE_COMPRPUBKEY false (with_store (store w) (S (nDraws w)) w))
      as (-> & -> & -> & -> & ->). done. }
  unfold AddKey. destruct (AddKey_spec fTestNet (store w) mk r (draw (nDraws w)) c Hs (draw_range _)) as (s' & Ha & Hs').
  rewrite E1, Ha, Hl in *. cbn [mbind option_bind negb]. rewrite GetPubKey_full. cbn [mbind option_bind].
  destruct (AddKey_keeps _ _ _ _ _ Ha) as (Hu & Hv & _).
  exists c. eexists. split; [done|]. cbn. split_and!; try done. unfold IsLocked, IsCrypted in *. by rewrite Hu, Hv.
Qed.

(** Adding a generated key under a new index above the others. *)
Lemma pool_inv_add mk r w out kept nEnd c w' :
  pool_inv mk r w out kept -> (nDraws w < nMax)%nat ->
  nEnd = match highest (setKeyPool w) with Some m => i64 (m + 1) | None => 1 end ->
  holds fTestNet (store w') mk (<[address fTestNet (pub_at (nDraws w) c) := (draw (nDraws w), c)]> r) ->
  IsLocked (store w') = false -> fFileBacked w' = fFileBacked w -> setKeyPool w' = setKeyPool w ->
  file_pool w' = file_pool w -> nDraws w' = S (nDraws w) ->
  (nEnd ∉ dom (file_pool w)) /\
  pool_inv mk (<[address fTestNet (pub_at (nDraws w) c) := (draw (nDraws w), c)]> r)
    (with_pool ({[ nEnd ]} ∪ setKeyPool w') (<[ nEnd := mk_keypool now (pub_at (nDraws w) c) ]> (file_pool w')) w') out kept.
Proof.
  intros Hi Hn HE Hs Hl Hb Hset Hf Hd. destruct Hi as [Ih Il Ib Idom Idisj Iout Ibel Irng Idr Iinj Ikept Ind].
  assert (forall i, i ∈ dom (file_pool w) -> i < nEnd) as Hlt.
  { intros i Hi. pose proof (highest_spec (setKeyPool w)) as Hh. destruct (highest (setKeyPool w)) as [m|].
    - destruct Hh as [Hm Hmax]. assert (m <= Z.of_nat (nDraws w)) as Hmd by (apply Irng; rewrite Idom; set_solver).
      assert (1 <= m) by (apply Irng; rewrite Idom; set_solver).
      subst nEnd. rewrite i64_small by lia. rewrite Idom in Hi. apply elem_of_union in Hi as [Hi|Hi]; [apply Hmax in Hi; lia|].
      destruct (Ibel i Hi) as (m' & Hm' & Hlt). apply Hmax in Hm'. lia.
    - rewrite Idom, Hh in Hi. apply elem_of_union in Hi as [Hi|Hi]; [set_solver|].
      destruct (Ibel i Hi) as (m' & Hm' & _). rewrite Hh in Hm'. set_solver. }
  assert (1 <= nEnd <= Z.of_nat (S (nDraws w))) as Hrng.
  { pose proof (highest_spec (setKeyPool w)) as Hh. destruct (highest (setKeyPool w)) as [m|]; [|lia].
    destruct Hh as [Hm _]. assert (1 <= m <= Z.of_nat (nDraws w)) by (apply Irng; rewrite Idom; set_solver).
    subst nEnd. rewrite i64_small by lia. lia. }
  assert (nEnd ∉ dom (file_pool w)) as Hnew by (intros Hin; apply Hlt in Hin; lia).
  assert (forall k i, file_pool w !! i = Some k -> kp_vchPubKey k <> pub_at (nDraws w) c) as Hfresh.
  { intros k i Hk. apply drawn_fresh; [done|]. by apply (Idr i). }
  split; [done|]. split; cbn [with_pool store fFileBacked setKeyPool file_pool nDraws]; rewrite ?Hset, ?Hf, ?Hd; try done.
  - by rewrite Hb.
  - rewrite dom_insert_L, Idom. set_solver.
  - rewrite Idom in Hnew. set_solver.
  - intros i pub Hi. pose proof (Iout i pub Hi) as Ho. rewrite lookup_insert_ne; [done|]. intros <-. apply Hnew.
    apply elem_of_dom. by destruct (file_pool w !! nEnd).
  - intros o Ho. destruct (Ibel o Ho) as (m & Hm & Hom). exists m. split; [set_solver|done].
  - intros i Hi. rewrite dom_insert_L in Hi. apply elem_of_union in Hi as [Hi|Hi]; [apply elem_of_singleton in Hi; lia|].
    apply Irng in Hi. lia.
  - intros i k Hk. apply lookup_insert_Some in Hk as [[<- <-]|[Hne Hk]]; cbn [kp_vchPubKey].
    + split; [exists (nDraws w), c; split; [lia|done]|]. rewrite lookup_insert_eq. eauto.
    + destruct (Idr _ _ Hk) as [Hdr Hr]. split; [apply (drawn_mono _ _ _ Hdr); lia|]. by apply lookup_insert_is_Some'; right.
  - intros i j k l Hk Hl' Hkl. apply lookup_insert_Some in Hk as [[<- <-]|[Hne Hk]]; apply lookup_insert_Some in Hl' as [[<- <-]|[Hne' Hl']].
    + done.
    + cbn [kp_vchPubKey] in Hkl. by destruct (Hfresh _ _ Hl').
    + cbn [kp_vchPubKey] in Hkl. by destruct (Hfresh _ _ Hk).
    + by apply (Iinj i j k l).
  - intros pub Hpub. destruct (Ikept _ Hpub) as [Hdr Hno]. split; [apply (drawn_mono _ _ _ Hdr); lia|].
    intros i k Hk. apply lookup_insert_Some in Hk as [[<- <-]|[Hne Hk]]; [|by apply (Hno i)].
    cbn [kp_vchPubKey]. intros Heq. by apply (drawn_fresh (nDraws w) pub c).
Qed.

Lemma top_up_spec mk out kept n : forall r w,
  pool_inv mk r w out kept -> (nDraws w + n <= nMax)%nat ->
  exists r' w', top_up fTestNet draw now n w = Some w' /\ pool_inv mk r' w' out kept /\
    size (setKeyPool w') = (size (setKeyPool w) + n)%nat /\ nDraws w' = (nDraws w + n)%nat.
Proof.
  induction n as [|n IH]; intros r w Hi Hn.
  { exists r, w. cbn. split_and!; try done; lia. }
  cbn [top_up]. destruct (GenerateNewKey_spec mk r w (pi_holds _ _ _ _ _ Hi) (pi_unlocked _ _ _ _ _ Hi))
    as (c & w1 & Hg & Hs & Hl & Hb & Hset & Hf & Hd & _).
  rewrite Hg. cbn [mbind option_bind].
  destruct (pool_inv_add mk r w out kept _ c w1 Hi ltac:(lia) eq_refl Hs Hl Hb Hset Hf Hd) as [Hnew Hi1].
  destruct (IH _ _ Hi1) as (r' & w' & Ht & Hi' & Hsz & Hd'); [cbn; rewrite Hd; lia|].
  exists r', w'. split; [done|]. split; [done|]. cbn [with_pool setKeyPool nDraws] in Hsz, Hd'. split.
  - rewrite Hsz, Hset, size_union, size_singleton; [lia|].
    rewrite (pi_dom _ _ _ _ _ Hi) in Hnew. set_solver.
  - rewrite Hd', Hd. lia.
Qed.

Lemma target_eq : u32 (nTargetSize nKeysArg + 1) = nKeysArg + 1.
Proof. unfold nTargetSize. rewrite Z.max_l, (u32_small nKeysArg), u32_small; lia. Qed.

Lemma TopUpKeyPool_spec mk r w out kept :
  pool_inv mk r w out kept -> Z.of_nat (nDraws w) + nKeysArg + 1 <= Z.of_nat nMax ->
  exists r' w', TopUpKeyPool fTestNet draw nKeysArg now w = Some (true, w') /\ pool_inv mk r' w' out kept /\
    nKeysArg + 1 <= Z.of_nat (size (setKeyPool w')).
Proof.
  intros Hi Hn. unfold TopUpKeyPool. rewrite (pi_unlocked _ _ _ _ _ Hi), target_eq.
  destruct (top_up_spec mk out kept (Z.to_nat (nKeysArg + 1 - Z.of_nat (size (setKeyPool w)))) r w Hi ltac:(lia))
    as (r' & w' & -> & Hi' & Hsz & Hd).
  exists r', w'. split; [done|]. split; [done|]. lia.
Qed.

(** A pool of at least two indices keeps its highest one when the lowest is taken. *)
Lemma lowest_below s m : lowest s = Some m -> (2 <= size s)%nat -> exists h, h ∈ s /\ m < h.
Proof.
  intros Hm Hs. pose proof (lowest_spec s) as H. rewrite Hm in H. destruct H as [Hin Hle].
  destruct (decide (s ∖ {[ m ]} = ∅)) as [He|He].
  - assert (size (s ∖ {[ m ]}) = 0%nat) as Hz by (by rewrite He, size_empty).
    rewrite size_difference in Hz by set_solver. rewrite size_singleton in Hz. lia.
  - apply set_choose_L in He as [h Hh]. exists h. split; [set_solver|].
    assert (m <= h) by (apply Hle; set_solver). assert (m <> h) by set_solver. lia.
Qed.

Lemma Reserve_spec mk r w out kept :
  pool_inv mk r w out kept -> Z.of_nat (nDraws w) + nKeysArg + 1 <= Z.of_nat nMax ->
  exists i k r' w', ReserveKeyFromKeyPool fTestNet draw nKeysArg now w = Some (i, k, w') /\
    pool_inv mk r' w' (<[ i := kp_vchPubKey k ]> out) kept /\ i <> -1 /\
    nKeysArg <= Z.of_nat (size (setKeyPool w')) /\
    HaveKey (store w') (address fTestNet (kp_vchPubKey k)) = true /\
    (forall j pub, out !! j = Some pub -> pub <> kp_vchPubKey k) /\ (kp_vchPubKey k ∉ kept).
Proof.
  intros Hi Hn. unfold ReserveKeyFromKeyPool. rewrite (pi_unlocked _ _ _ _ _ Hi).
  destruct (TopUpKeyPool_spec mk r w out kept Hi Hn) as (r' & w1 & -> & Hi1 & Hsz).
  cbn [fmap option_fmap option_map snd mbind option_bind].
  destruct Hi1 as [Ih Il Ib Idom Idisj Iout Ibel Irng Idr Iinj Ikept Ind].
  pose proof (lowest_spec (setKeyPool w1)) as Hlow. destruct (lowest (setKeyPool w1)) as [i|] eqn:Elow.
  2:{ rewrite Hlow, size_empty in Hsz. lia. }
  destruct Hlow as [Hin Hle].
  destruct (lowest_below _ _ Elow ltac:(lia)) as (h & Hh & Hih).
  assert (is_Some (file_pool w1 !! i)) as [k Hk] by (apply elem_of_dom; rewrite Idom; set_solver).
  destruct (Idr _ _ Hk) as [(n & c & Hnn & Hpub) Hr].
  cbn [with_pool file_pool store]. rewrite Hk. cbn [mbind option_bind].
  rewrite (HaveKey_spec fTestNet (store w1) mk r' _ Ih), bool_decide_eq_true_2 by done. cbn [negb].
  rewrite bool_decide_eq_false_2 by (rewrite Hpub; apply pub_at_cons).
  exists i, k, r'. eexists. split; [done|]. split_and!.
  - split; cbn [with_pool store fFileBacked setKeyPool file_pool nDraws]; try done.
    + rewrite dom_insert_L, Idom. apply set_eq. intros x. destruct (decide (x = i)); set_solver.
    + rewrite dom_insert_L. set_solver.
    + intros j pub Hj. apply lookup_insert_Some in Hj as [[<- <-]|[_ Hj]]; [by rewrite Hk|by apply Iout].
    + intros o Ho. rewrite dom_insert_L in Ho. apply elem_of_union in Ho as [Ho|Ho].
      * apply elem_of_singleton in Ho as ->. exists h. split; [|done].
        apply elem_of_difference. split; [done|]. intros Hx. apply elem_of_singleton in Hx. lia.
      * destruct (Ibel o Ho) as (m & Hm & Hom). destruct (decide (m = i)) as [->|Hne].
        { exists h. split; [|lia]. apply elem_of_difference. split; [done|]. intros Hx. apply elem_of_singleton in Hx. lia. }
        exists m. split; [set_solver|done].
  - assert (1 <= i) by (apply Irng; rewrite Idom; set_solver). lia.
  - cbn [with_pool setKeyPool]. rewrite size_difference by set_solver. rewrite size_singleton. lia.
  - cbn [with_pool store]. by rewrite (HaveKey_spec fTestNet (store w1) mk r' _ Ih), bool_decide_eq_true_2.
  - intros j pub Hj Heq. pose proof (Iout _ _ Hj) as Ho. destruct (file_pool w1 !! j) as [kj|] eqn:Hkj; [|done].
    injection Ho as Ho. assert (j = i) as -> by (apply (Iinj j i kj k); congruence).
    assert (i ∈ dom out) by (by apply elem_of_dom; eexists). set_solver.
  - intros Hkept. destruct (Ikept _ Hkept) as [_ Hno]. by apply (Hno i k).
Qed.

(** ** Runs *)

Inductive pool_step : CWallet * gmap Z (list Z) * list (list Z) -> CWallet * gmap Z (list Z) * list (list Z) -> Prop :=
| step_top_up w out kept w' :
    Z.of_nat (nDraws w) + nKeysArg + 1 <= Z.of_nat nMax -> TopUpKeyPool fTestNet draw nKeysArg now w = Some (true, w') ->
    pool_step (w, out, kept) (w', out, kept)
| step_reserve w out kept i k w' :
    Z.of_nat (nDraws w) + nKeysArg + 1 <= Z.of_nat nMax -> ReserveKeyFromKeyPool fTestNet draw nKeysArg now w = Some (i, k, w') ->
    pool_step (w, out, kept) (w', <[ i := kp_vchPubKey k ]> out, kept)
| step_keep w out kept i pub :
    out !! i = Some pub -> pool_step (w, out, kept) (KeepKey i w, delete i out, pub :: kept)
| step_return w out kept i pub :
    out !! i = Some pub -> pool_step (w, out, kept) (ReturnKey i w, delete i out, kept).

Lemma keep_inv mk r w out kept i pub :
  pool_inv mk r w out kept -> out !! i = Some pub -> pool_inv mk r (KeepKey i w) (delete i out) (pub :: kept).
Proof.
  intros [Ih Il Ib Idom Idisj Iout Ibel Irng Idr Iinj Ikept Ind] Hi.
  pose proof (Iout _ _ Hi) as Ho. destruct (file_pool w !! i) as [k|] eqn:Hk; [|done]. injection Ho as <-.
  assert (i ∈ dom out) as Hio by (by apply elem_of_dom; eexists).
  unfold KeepKey. rewrite Ib. split; cbn [with_pool store fFileBacked setKeyPool file_pool nDraws]; try done.
  - rewrite !dom_delete_L, Idom. apply set_eq. intros x. destruct (decide (x = i)); set_solver.
  - rewrite dom_delete_L. set_solver.
  - intros j pub Hj. apply lookup_delete_Some in Hj as [Hne Hj]. rewrite lookup_delete_ne by done. by apply Iout.
  - intros o Ho. rewrite dom_delete_L in Ho. apply Ibel. set_solver.
  - intros j Hj. apply Irng. rewrite dom_delete_L in Hj. set_solver.
  - intros j kj Hj. apply lookup_delete_Some in Hj as [_ Hj]. by apply (Idr j).
  - intros j l kj kl Hj Hl. apply lookup_delete_Some in Hj as [_ Hj]. apply lookup_delete_Some in Hl as [_ Hl]. by apply Iinj.
  - intros pub Hpub. apply elem_of_cons in Hpub as [->|Hpub].
    + split; [by apply (Idr i)|]. intros j kj Hj. apply lookup_delete_Some in Hj as [Hne Hj]. intros Heq.
      apply Hne. by apply (Iinj i j k kj).
    + destruct (Ikept _ Hpub) as [Hd Hno]. split; [done|]. intros j kj Hj. apply lookup_delete_Some in Hj as [_ Hj]. by apply (Hno j).
  - constructor; [|done]. intros Hin. destruct (Ikept _ Hin) as [_ Hno]. by apply (Hno i k).
Qed.

Lemma return_inv mk r w out kept i pub :
  pool_inv mk r w out kept -> out !! i = Some pub -> pool_inv mk r (ReturnKey i w) (delete i out) kept.
Proof.
  intros [Ih Il Ib Idom Idisj Iout Ibel Irng Idr Iinj Ikept Ind] Hi.
  assert (i ∈ dom out) as Hio by (by apply elem_of_dom; eexists).
  split; cbn [ReturnKey with_pool store fFileBacked setKeyPool file_pool nDraws]; try done.
  - rewrite dom_delete_L, Idom. apply set_eq. intros x. destruct (decide (x = i)); set_solver.
  - rewrite dom_delete_L. set_solver.
  - intros j pub' Hj. apply lookup_delete_Some in Hj as [Hne Hj]. by apply Iout.
  - intros o Ho. rewrite dom_delete_L in Ho. destruct (Ibel o) as (m & Hm & Hom); [set_solver|]. exists m. split; [set_solver|done].
Qed.

Lemma pool_step_inv mk s s' :
  pool_step s s' -> (exists r, pool_inv mk r s.1.1 s.1.2 s.2) -> exists r, pool_inv mk r s'.1.1 s'.1.2 s'.2.
Proof.
  intros Hst [r Hi]. destruct Hst as [w out kept w' Hn Ht|w out kept i k w' Hn Hr|w out kept i pub Ho|w out kept i pub Ho]; cbn [fst snd] in *.
  - destruct (TopUpKeyPool_spec mk r w out kept Hi Hn) as (r' & w1 & Ht' & Hi' & _). rewrite Ht' in Ht. injection Ht as <-. eauto.
  - destruct (Reserve_spec mk r w out kept Hi Hn) as (i' & k' & r' & w1 & Hr' & Hi' & _).
    rewrite Hr' in Hr. injection Hr as <- <- <-. eauto.
  - exists r. by apply keep_inv.
  - exists r. by apply return_inv with pub.
Qed.


End safety.

(** ** A concrete pool *)

#[local] Existing Instance toy_ec.
#[local] Existing Instance toy_group.
#[local] Existing Instance toy_evp.
#[local] Existing Instance toy_digests.

Definition demo_wallet : CWallet :=
  mk_wallet empty_store FEATURE_BASE FEATURE_LATEST true ∅ ∅ [] ∅ ∅ [] ∅ ∅ 0.

Definition demo_draw (n : nat) : Z := Z.of_nat n mod 100.

Definition demo_reserve (nKeysArg : Z) (w : CWallet) : Z * CKeyPool * CWallet :=
  default (-1, mk_keypool 0 [], w) (ReserveKeyFromKeyPool false demo_draw nKeysArg 7 w).

(** The wallet after a key was reserved and kept. *)
Definition demo_kept : CWallet := KeepKey 1 (demo_reserve 2 demo_wallet).2.

Definition demo_key : list Z := pub_at demo_draw 0 true.
Definition demo_out : gmap Z (list Z) := delete 1 (<[ 1 := demo_key ]> ∅).

Lemma demo_draw_range n : 0 <= demo_draw n < 2 ^ 256.
Proof. unfold demo_draw. pose proof (Z.mod_pos_bound (Z.of_nat n) 100). lia. Qed.

Lemma demo_draw_fresh n m :
  (n < 100)%nat -> (m < 100)%nat -> ec_gen (demo_draw n) = ec_gen (demo_draw m) -> n = m.
Proof.
  intros Hn Hm. unfold demo_draw. cbn [ec_gen toy_group]. unfold toy_order.
  rewrite (Z.mod_small (Z.of_nat n) 100), (Z.mod_small (Z.of_nat m) 100), !Z.mod_small by lia. lia.
Qed.

Lemma demo_run : rtc (pool_step false demo_draw 2 7 100) (demo_wallet, ∅, []) (demo_kept, demo_out, [demo_key]).
Proof.
  apply (rtc_l _ _ ((demo_reserve 2 demo_wallet).2, <[ 1 := demo_key ]> ∅, [])).
  - refine (step_reserve false demo_draw 2 7 100 demo_wallet ∅ [] 1 (mk_keypool 7 demo_key) _ _ _); [cbn; lia|].
    vm_compute. reflexivity.
  - eapply rtc_l; [|apply rtc_refl].
    exact (step_keep false demo_draw 2 7 100 (demo_reserve 2 demo_wallet).2 (<[ 1 := demo_key ]> ∅) [] 1 demo_key
             (lookup_insert_eq _ _ _)).
Qed.


(** With -keypool=0 the pool is emptied by a reservation, and the next key that
    is generated gets the same index 1: keeping the first key then erases the
    record of the second, and reserving that one throws. *)
Theorem keypool_index_reused :
  let '(i, k, w1) := demo_reserve 0 demo_wallet in
  i = 1 /\
  match TopUpKeyPool false demo_draw 0 7 w1 with
  | Some (true, w2) =>
      setKeyPool w2 = {[ 1 ]} /\ kp_vchPubKey <$> file_pool w2 !! 1 = Some (pub_at demo_draw 1 true) /\
      ReserveKeyFromKeyPool false demo_draw 0 7 (KeepKey i w2) = None
  | _ => False
  end.
Proof. vm_compute. split_and!; reflexivity. Qed.

End KeyPool.
