(* ===== verification/Passphrase.v ===== *)
(** * The passphrase of the wallet (src/src/wallet.cpp, src/src/crypter.h)

    The master key that encrypts the keys of the wallet is itself encrypted
    under a key derived from the passphrase.  The random master key and salt are
    arguments, and so is the number of iterations that the clock suggests.
    [None] is an exception, or exit(1). *)

From stdpp Require Import gmap.
From S2P Require Import Prelude Containers Uint256 Bignum Crypto Script Serialize Tx Base58 Signature Key Solver KeyStore Work Block BlockIndex Kernel Coins Ledger MerkleTx Wallet KeyPool.
Import KeyStores Key.

Record CMasterKey := mk_masterkey {
  vchCryptedKey : list Z;
  vchSalt : list Z;
  nDerivationMethod : Z;
  nDeriveIterations : Z;
  vchOtherDerivationParameters : list Z
}.

(** The wallet with its master keys, in memory and in the file. *)
Record vault := mk_vault {
  vault_wallet : CWallet;
  mapMasterKeys : gmap Z CMasterKey;
  nMasterKeyMaxID : Z;
  file_masterkeys : gmap Z CMasterKey
}.

Module Passphrase.

Section vaults.
Context {D : DigestLib} {E : ECLib} {G : ECGroup E} {V : EVPLib} (fTestNet : bool) (draw : nat -> Z) (nKeysArg now : Z).

Definition vault_store (v : vault) : keystore := store (vault_wallet v).

Definition set_store (s : keystore) (v : vault) : vault :=
  mk_vault (KeyPool.with_store s (nDraws (vault_wallet v)) (vault_wallet v)) (mapMasterKeys v) (nMasterKeyMaxID v) (file_masterkeys v).

(** [crypter.SetKeyFromPassphrase] with the parameters of a master key. *)
Definition derive (c : CCrypter) (strPassphrase : list Z) (m : CMasterKey) : bool * CCrypter :=
  SetKeyFromPassphrase c strPassphrase (vchSalt m) (nDeriveIterations m) (nDerivationMethod m).

(** The loop over the master keys: a master key that cannot be decrypted ends it. *)
Fixpoint unlock_loop (strPassphrase : list Z) (l : list (Z * CMasterKey)) (c : CCrypter) (s : keystore) : option (bool * keystore) :=
  match l with
  | [] => Some (false, s)
  | (_, m) :: l =>
      let '(ok, c) := derive c strPassphrase m in
      if negb ok then Some (false, s)
      else
        match Decrypt c (vchCryptedKey m) with
        | None => Some (false, s)
        | Some vMasterKey =>
            '(ok, s) ← KeyStores.Unlock s vMasterKey;
            if ok : bool then Some (true, s) else unlock_loop strPassphrase l c s
        end
  end.

Definition Unlock (strPassphrase : list Z) (v : vault) : option (bool * vault) :=
  if negb (IsLocked (vault_store v)) then Some (false, v)
  else
    '(ok, s) ← unlock_loop strPassphrase (in_order Z.leb (mapMasterKeys v)) crypter (vault_store v);
    Some (ok, set_store s v).

(** At least 25000 iterations. *)
Definition enough_iterations (n : Z) : Z := if n <? 25000 then 25000 else n.

(** [calibrate n]: the iterations that take a tenth of a second, measured with [n]. *)
Fixpoint change_loop (strOld strNew : list Z) (calibrate : Z -> Z) (fWasLocked : bool) (l : list (Z * CMasterKey)) (c : CCrypter) (v : vault)
    : option (bool * vault) :=
  match l with
  | [] => Some (false, v)
  | (id, m) :: l =>
      let '(ok, c) := derive c strOld m in
      if negb ok then Some (false, v)
      else
        match Decrypt c (vchCryptedKey m) with
        | None => Some (false, v)
        | Some vMasterKey =>
            '(ok, s) ← KeyStores.Unlock (vault_store v) vMasterKey;
            let v := set_store s v in
            if negb ok then change_loop strOld strNew calibrate fWasLocked l c v
            else
              let m' := mk_masterkey (vchCryptedKey m) (vchSalt m) (nDerivationMethod m) (enough_iterations (calibrate (nDeriveIterations m)))
                          (vchOtherDerivationParameters m) in
              let with_master x f := mk_vault (vault_wallet v) (<[id := x]> (mapMasterKeys v)) (nMasterKeyMaxID v) f in
              let '(ok, c) := derive c strNew m' in
              if negb ok then Some (false, with_master m' (file_masterkeys v))
              else
                match Encrypt c vMasterKey with
                | None => Some (false, with_master m' (file_masterkeys v))
                | Some crypted =>
                    let m'' := mk_masterkey crypted (vchSalt m) (nDerivationMethod m) (nDeriveIterations m') (vchOtherDerivationParameters m) in
                    let v := with_master m'' (<[id := m'']> (file_masterkeys v)) in
                    Some (true, if fWasLocked then set_store (Lock (vault_store v)).2 v else v)
                end
        end
  end.

Definition ChangeWalletPassphrase (strOld strNew : list Z) (calibrate : Z -> Z) (v : vault) : option (bool * vault) :=
  let fWasLocked := IsLocked (vault_store v) in
  let v := set_store (Lock (vault_store v)).2 v in
  change_loop strOld strNew calibrate fWasLocked (in_order Z.leb (mapMasterKeys v)) crypter v.

(** [vMasterKey] and [salt] are drawn at random, [nIterations] is measured. *)
Definition EncryptWallet (strPassphrase vMasterKey salt : list Z) (nIterations : Z) (v : vault) : option (bool * vault) :=
  if IsCrypted (vault_store v) then Some (false, v)
  else
    let kMasterKey := mk_masterkey [] salt 0 (enough_iterations nIterations) [] in
    let '(ok, c) := derive crypter strPassphrase kMasterKey in
    if negb ok then Some (false, v)
    else
      match Encrypt c vMasterKey with
      | None => Some (false, v)
      | Some crypted =>
          let kMasterKey := mk_masterkey crypted salt 0 (enough_iterations nIterations) [] in
          let id := u32 (nMasterKeyMaxID v + 1) in
          '(ok, s) ← EncryptKeys fTestNet (vault_store v) vMasterKey;
          if negb ok then None
          else
            let w := KeyPool.SetMinVersion KeyPool.FEATURE_WALLETCRYPT true (vault_wallet v) in
            let f := if fFileBacked (vault_wallet v) then <[id := kMasterKey]> (file_masterkeys v) else file_masterkeys v in
            let v := set_store s (mk_vault w (<[id := kMasterKey]> (mapMasterKeys v)) id f) in
            let v := set_store (Lock (vault_store v)).2 v in
            '(_, v) ← Unlock strPassphrase v;
            '(_, w) ← KeyPool.NewKeyPool fTestNet draw nKeysArg now (vault_wallet v);
            let v := mk_vault w (mapMasterKeys v) (nMasterKeyMaxID v) (file_masterkeys v) in
            Some (true, set_store (Lock (vault_store v)).2 v)
      end.

End vaults.
(** ** The passphrase opens the wallet *)

Section opens.
Context {D : DigestLib} {E : ECLib} {G : ECGroup E} {HG : ECGroupLaws G} {V : EVPLib} {HV : EVPLaws V}.
Context (fTestNet : bool) (draw : nat -> Z) (nKeysArg now : Z).
Context (draw_range : forall n, 0 <= draw n < 2 ^ 256).

(** [m] is the master key [mk] under the passphrase. *)
Definition sealed (strPassphrase mk : list Z) (m : CMasterKey) : Prop :=
  length (vchSalt m) = 8%nat /\ nDerivationMethod m = 0 /\ 1 <= nDeriveIterations m /\
  let '(key, iv) := EVP_BytesToKey (vchSalt m) strPassphrase (nDeriveIterations m) in AES_encrypt key iv mk = Some (vchCryptedKey m).

(** What deriving a key gives: the cipher of the derived key. *)
Lemma derive_spec c strPassphrase m : length (vchSalt m) = 8%nat -> nDerivationMethod m = 0 -> 1 <= nDeriveIterations m ->
  let '(key, iv) := EVP_BytesToKey (vchSalt m) strPassphrase (nDeriveIterations m) in
  exists c', derive c strPassphrase m = (true, c') /\ length key = 32%nat /\
    (forall x, Encrypt c' x = AES_encrypt key iv x) /\ (forall x, Decrypt c' x = AES_decrypt key iv x).
Proof.
  intros Hs Hm Hi. unfold derive, SetKeyFromPassphrase. rewrite Hs, Hm. destruct (Z.ltb_spec (nDeriveIterations m) 1); [lia|].
  cbn [Z.of_nat Pos.of_succ_nat Pos.succ WALLET_CRYPTO_SALT_SIZE Z.eqb Pos.eqb negb orb].
  pose proof (EVP_BytesToKey_length (vchSalt m) strPassphrase (nDeriveIterations m)) as Hk.
  pose proof (EVP_BytesToKey_iv (vchSalt m) strPassphrase (nDeriveIterations m)) as Hv.
  destruct (EVP_BytesToKey _ _ _) as [key iv]. cbn [fst snd] in *. rewrite Hk. cbn [negb]. eexists. split; [reflexivity|]. split; [done|].
  unfold Encrypt, Decrypt. cbn [fKeySet chKey chIV negb]. rewrite <- Hv, take_app_length. done.
Qed.

Lemma seal_spec c strPassphrase mk m : length (vchSalt m) = 8%nat -> nDerivationMethod m = 0 -> 1 <= nDeriveIterations m ->
  exists c' crypted, derive c strPassphrase m = (true, c') /\ Encrypt c' mk = Some crypted /\
    sealed strPassphrase mk (mk_masterkey crypted (vchSalt m) (nDerivationMethod m) (nDeriveIterations m) (vchOtherDerivationParameters m)).
Proof.
  intros Hs Hm Hi. pose proof (derive_spec c strPassphrase m Hs Hm Hi) as Hd. destruct (EVP_BytesToKey _ _ _) as [key iv] eqn:Hk.
  destruct Hd as (c' & Hd & Hl & He & _). destruct (AES_encrypt_some key iv mk Hl) as [crypted Hc]. exists c', crypted.
  split; [done|]. split; [by rewrite He|]. split; [done|]. split; [done|]. split; [done|]. cbn. by rewrite Hk.
Qed.

Lemma unseal_spec c strPassphrase mk m : sealed strPassphrase mk m ->
  exists c', derive c strPassphrase m = (true, c') /\ Decrypt c' (vchCryptedKey m) = Some mk.
Proof.
  intros (Hs & Hm & Hi & Hc). pose proof (derive_spec c strPassphrase m Hs Hm Hi) as Hd. destruct (EVP_BytesToKey _ _ _) as [key iv].
  destruct Hd as (c' & Hd & _ & _ & Hdec). exists c'. split; [done|]. rewrite Hdec. by apply AES_decrypt_encrypt.
Qed.

(** The vault whose only master key is [mk] under the passphrase, with the keys of [r]. *)
Record guards (strPassphrase mk : list Z) (r : gmap Base58.CBase58Data (Z * bool)) (v : vault) : Prop := {
  gu_master : exists id m, mapMasterKeys v = {[ id := m ]} /\ sealed strPassphrase mk m;
  gu_crypted : IsCrypted (vault_store v) = true;
  gu_holds : holds fTestNet (vault_store v) mk r
}.

Lemma in_order_singleton (id : Z) (m : CMasterKey) : in_order Z.leb {[ id := m ]} = [(id, m)].
Proof. apply Permutation_singleton_r. by rewrite in_order_perm, map_to_list_singleton. Qed.

Lemma guards_store strPassphrase mk r v s : guards strPassphrase mk r v -> IsCrypted s = true -> holds fTestNet s mk r ->
  guards strPassphrase mk r (set_store s v).
Proof. intros [Hm _ _] Hc Hs. by split. Qed.

Lemma Unlock_opens strPassphrase mk r v : guards strPassphrase mk r v -> IsLocked (vault_store v) = true ->
  exists v', Unlock strPassphrase v = Some (true, v') /\ guards strPassphrase mk r v' /\ IsLocked (vault_store v') = false.
Proof.
  intros Hg Hl. pose proof Hg as [(id & m & Hm & Hs) Hc Hh]. unfold Unlock. rewrite Hl, Hm, in_order_singleton. cbn [negb unlock_loop].
  destruct (unseal_spec crypter strPassphrase mk m Hs) as (c' & -> & ->). cbn [negb].
  destruct (Unlock_spec fTestNet (vault_store v) mk r Hh Hc) as (-> & Hh' & Hl'). cbn [mbind option_bind].
  eexists. split; [done|]. split; [by apply guards_store|done].
Qed.

Lemma Lock_guards strPassphrase mk r v : guards strPassphrase mk r v ->
  guards strPassphrase mk r (set_store (Lock (vault_store v)).2 v) /\ IsLocked (vault_store (set_store (Lock (vault_store v)).2 v)) = true.
Proof.
  intros Hg. pose proof Hg as [_ Hc Hh]. destruct (Lock_spec fTestNet (vault_store v) mk r Hh Hc) as (-> & Hh' & Hl' & Hc').
  split; [by apply guards_store|done].
Qed.

Lemma enough_pos n : 1 <= enough_iterations n.
Proof. unfold enough_iterations. destruct (Z.ltb_spec n 25000); lia. Qed.

Lemma Change_opens strOld strNew calibrate mk r v : guards strOld mk r v ->
  exists v', ChangeWalletPassphrase strOld strNew calibrate v = Some (true, v') /\ guards strNew mk r v' /\
    IsLocked (vault_store v') = IsLocked (vault_store v).
Proof.
  intros Hg. unfold ChangeWalletPassphrase. destruct (Lock_guards _ _ _ _ Hg) as [Hg1 _].
  set (v1 := set_store (Lock (vault_store v)).2 v) in *. pose proof Hg1 as [(id & m & Hm & Hs) Hc Hh]. rewrite Hm, in_order_singleton. cbn [change_loop].
  destruct (unseal_spec crypter strOld mk m Hs) as (c1 & -> & ->). cbn [negb].
  destruct (Unlock_spec fTestNet (vault_store v1) mk r Hh Hc) as (-> & Hh2 & Hl2). cbn [mbind option_bind negb]. cbv zeta.
  set (v2 := set_store (set_vMasterKey (vault_store v1) mk) v1).
  set (m' := mk_masterkey (vchCryptedKey m) (vchSalt m) (nDerivationMethod m) (enough_iterations (calibrate (nDeriveIterations m))) (vchOtherDerivationParameters m)).
  destruct Hs as (Hs1 & Hs2 & Hs3 & _). destruct (seal_spec c1 strNew mk m' Hs1 Hs2 (enough_pos _)) as (c2 & crypted & -> & -> & Hs'). cbn [negb].
  set (v3 := mk_vault _ _ _ _).
  assert (guards strNew mk r v3) as Hg3.
  { split; [|exact (gu_crypted _ _ _ _ (guards_store _ _ _ _ (set_vMasterKey (vault_store v1) mk) Hg1 Hc Hh2))|exact Hh2].
    exists id. eexists. split; [|exact Hs']. cbn [v3 mapMasterKeys v2 set_store]. rewrite Hm. apply insert_singleton_eq. }
  eexists. split; [reflexivity|]. destruct (IsLocked (vault_store v)); [by apply Lock_guards|]. by split.
Qed.

(** *** Encryption *)

Lemma new_keys_spec mk n : forall i r w, holds fTestNet (store w) mk r -> IsLocked (store w) = false -> IsCrypted (store w) = true ->
  exists w' r', KeyPool.new_keys fTestNet draw now n i w = Some w' /\ holds fTestNet (store w') mk r' /\ dom r ⊆ dom r' /\ IsCrypted (store w') = true.
Proof.
  induction n as [|n IH]; intros i r w Hh Hl Hc; cbn [KeyPool.new_keys]; [by exists w, r|].
  destruct (KeyPool.GenerateNewKey_spec fTestNet draw draw_range mk r w Hh Hl) as (c & w1 & -> & Hh1 & Hl1 & _ & _ & _ & _ & Hc1). cbn [mbind option_bind].
  destruct (IH (i + 1) _ (KeyPool.with_pool ({[ i + 1 ]} ∪ setKeyPool w1) (<[ i + 1 := mk_keypool now (KeyPool.pub_at draw (nDraws w) c) ]> (file_pool w1)) w1) Hh1 Hl1)
    as (w' & r' & Hw & Hh' & Hd & Hc').
  { exact (eq_trans Hc1 Hc). }
  exists w', r'. split; [done|]. split; [done|]. split; [|done]. rewrite dom_insert_L in Hd. set_solver.
Qed.

Lemma NewKeyPool_spec mk r w : holds fTestNet (store w) mk r -> IsLocked (store w) = false -> IsCrypted (store w) = true ->
  exists w' r', KeyPool.NewKeyPool fTestNet draw nKeysArg now w = Some (true, w') /\ holds fTestNet (store w') mk r' /\ dom r ⊆ dom r' /\
    IsCrypted (store w') = true.
Proof.
  intros Hh Hl Hc. unfold KeyPool.NewKeyPool. set (w0 := KeyPool.with_pool _ _ w).
  change (IsLocked (store w0)) with (IsLocked (store w)). rewrite Hl.
  destruct (new_keys_spec mk (Z.to_nat (Z.max nKeysArg 0)) 0 r w0 Hh Hl Hc) as (w' & r' & -> & H). cbn [mbind option_bind]. by exists w', r'.
Qed.

(** Encrypting the wallet guards it with the passphrase, its keys and those of
    the new key pool in it. *)
Lemma EncryptWallet_guards strPassphrase mk salt nIterations r v :
  holds fTestNet (vault_store v) mk r -> IsCrypted (vault_store v) = false -> mapMasterKeys v = ∅ -> length salt = 8%nat ->
  exists v' r', EncryptWallet fTestNet draw nKeysArg now strPassphrase mk salt nIterations v = Some (true, v') /\
    guards strPassphrase mk r' v' /\ dom r ⊆ dom r' /\ IsLocked (vault_store v') = true.
Proof.
  intros Hh Hc Hm Hs. unfold EncryptWallet. rewrite Hc. cbv zeta.
  destruct (seal_spec crypter strPassphrase mk (mk_masterkey [] salt 0 (enough_iterations nIterations) []) Hs eq_refl (enough_pos _))
    as (c & crypted & -> & -> & Hseal). cbn [negb].
  destruct (EncryptKeys_spec fTestNet (vault_store v) mk r Hh Hc) as (s & -> & Hh1 & Hc1 & _). cbn [mbind option_bind negb].
  set (v1 := set_store s _).
  assert (guards strPassphrase mk r v1) as Hg1.
  { split; [|done|done]. eexists _, _. split; [|exact Hseal]. cbn [v1 mapMasterKeys set_store]. rewrite Hm. apply insert_empty. }
  destruct (Lock_guards _ _ _ _ Hg1) as [Hg2 Hl2]. destruct (Unlock_opens _ _ _ _ Hg2 Hl2) as (v3 & -> & [Hm3 Hc3 Hh3] & Hl3).
  cbn [mbind option_bind]. destruct (NewKeyPool_spec mk r (vault_wallet v3) Hh3 Hl3 Hc3) as (w & r' & -> & Hh4 & Hd & Hc4). cbn [mbind option_bind].
  set (v4 := mk_vault w _ _ _). assert (guards strPassphrase mk r' v4) as Hg4 by (by split).
  destruct (Lock_guards _ _ _ _ Hg4) as [Hg5 Hl5]. exists (set_store (Lock (vault_store v4)).2 v4), r'. by split_and!.
Qed.

(** The keys of a wallet that its store gives. *)
Definition has_keys (r : gmap Base58.CBase58Data (Z * bool)) (v : vault) : Prop :=
  IsLocked (vault_store v) = false /\
  forall a d c, r !! a = Some (d, c) -> GetKey (vault_store v) a Reset = Some (true, full_key d c).

Lemma guards_keys strPassphrase mk r v : guards strPassphrase mk r v -> IsLocked (vault_store v) = false -> has_keys r v.
Proof. intros [_ _ Hh] Hl. split; [done|]. intros a d c Ha. rewrite (GetKey_spec fTestNet _ mk r a Hh), Hl, Ha. done. Qed.


End opens.

(** ** A concrete vault *)

#[local] Existing Instance toy_ec.
#[local] Existing Instance toy_group.
#[local] Existing Instance toy_evp.
#[local] Existing Instance toy_digests.

Definition demo_vault : vault := mk_vault (KeyPool.with_store KeyStores.demo_store 0 KeyPool.demo_wallet) ∅ 0 ∅.


End Passphrase.
