(* ===== verification/WalletOps.v ===== *)
(** * Updating the wallet (src/src/wallet.cpp)

    Adding transactions, marking coins as spent, repairing the spent flags from
    the transaction database, the address book, and the amounts of a
    transaction.  This is the build without the graphical interface, in which
    AddToWallet replaces the default key.  [None] is an exception. *)

From stdpp Require Import gmap sorting.
From S2P Require Import Prelude Containers Uint256 Bignum Crypto Script Serialize Tx Base58 Signature Key Solver KeyStore Work Block BlockIndex Kernel Coins Ledger MerkleTx Wallet KeyPool.
Import BlockIndex Ledger MerkleTx KeyStores Wallet.

Module WalletOps.

Definition set_txs (m f : gmap Z CWalletTx) (u : list Z) (w : CWallet) : CWallet :=
  mk_wallet (store w) (nWalletVersion w) (nWalletMaxVersion w) (fFileBacked w) (setKeyPool w) m u
    (mapRequestCount w) (mapAddressBook w) (vchDefaultKey w) f (file_pool w) (nDraws w).
Definition set_requests (r : gmap Z Z) (w : CWallet) : CWallet :=
  mk_wallet (store w) (nWalletVersion w) (nWalletMaxVersion w) (fFileBacked w) (setKeyPool w) (mapWallet w) (vWalletUpdated w)
    r (mapAddressBook w) (vchDefaultKey w) (file_tx w) (file_pool w) (nDraws w).
Definition set_names (b : gmap Base58.CBase58Data (list Z)) (k : list Z) (w : CWallet) : CWallet :=
  mk_wallet (store w) (nWalletVersion w) (nWalletMaxVersion w) (fFileBacked w) (setKeyPool w) (mapWallet w) (vWalletUpdated w)
    (mapRequestCount w) b k (file_tx w) (file_pool w) (nDraws w).

(** The entry [x] of [h] is put into the map; with [fWrite] it is written to
    the file, and with [fNotify] the user interface is told. *)
Definition put (h : Z) (x : CWalletTx) (fWrite fNotify : bool) (w : CWallet) : CWallet :=
  set_txs (<[ h := x ]> (mapWallet w)) (if fWrite then <[ h := x ]> (file_tx w) else file_tx w)
    (if fNotify then vWalletUpdated w ++ [h] else vWalletUpdated w) w.

(** ** Address book and requests *)

Definition UpdatedTransaction (hashTx : Z) (w : CWallet) : CWallet :=
  set_txs (mapWallet w) (file_tx w) (vWalletUpdated w ++ [hashTx]) w.

Definition Inventory (hash : Z) (w : CWallet) : CWallet :=
  match mapRequestCount w !! hash with
  | Some n => set_requests (<[ hash := i32 (n + 1) ]> (mapRequestCount w)) w
  | None => w
  end.

Definition SetAddressBookName (a : Base58.CBase58Data) (strName : list Z) (w : CWallet) : CWallet :=
  set_names (<[ a := strName ]> (mapAddressBook w)) (vchDefaultKey w) w.

Definition DelAddressBookName (a : Base58.CBase58Data) (w : CWallet) : CWallet :=
  set_names (delete a (mapAddressBook w)) (vchDefaultKey w) w.

Definition SetDefaultKey (vchPubKey : list Z) (w : CWallet) : CWallet := set_names (mapAddressBook w) vchPubKey w.

Definition GetTransaction (hashTx : Z) (w : CWallet) : option CWalletTx := mapWallet w !! hashTx.

Definition MarkDirty (w : CWallet) : CWallet :=
  set_txs (Wallet.MarkDirty <$> mapWallet w) (file_tx w) (vWalletUpdated w) w.

Definition EraseFromWallet (hash : Z) (w : CWallet) : bool * CWallet :=
  if negb (fFileBacked w) then (false, w)
  else
    match mapWallet w !! hash with
    | Some _ => (true, set_txs (delete hash (mapWallet w)) (delete hash (file_tx w)) (vWalletUpdated w) w)
    | None => (true, w)
    end.

Section ops.
Context {B : Tx.Abi} {L : BNLib} {D : DigestLib} {E : ECLib} {G : ECGroup E} {V : EVPLib} (fTestNet : bool) (p : NetParams).
Context (I : index) (nCoinbaseMaturity nBestHeight nNow : Z) (fuel : nat).
Context (draw : nat -> Z) (nKeysArg nTime : Z).

(** ** Spent coins *)

(** One input of WalletUpdateSpent; the message of the log evaluates GetCredit. *)
Definition update_spent (acc : option CWallet) (i : CTxIn) : option CWallet :=
  w ← acc;
  let h := prevhash (prevout i) in
  let n := out_n (prevout i) in
  match mapWallet w !! h with
  | None => Some w
  | Some x =>
      sp ← IsSpent x n;
      o ← vout (tx_of x) !! Z.to_nat n;
      if negb sp && IsMine_out fTestNet w o then
        '(_, x) ← GetCredit fTestNet w I nCoinbaseMaturity true x;
        x ← MarkSpent n x;
        Some (put h x true true w)
      else Some w
  end.

Definition WalletUpdateSpent (t : CTransaction) (w : CWallet) : option CWallet := foldl update_spent (Some w) (vin t).

(** ** AddToWallet *)

(** The merge of a transaction that is already in the wallet; fUpdated. *)
Definition merge_tx (xIn x : CWalletTx) : bool * CWalletTx :=
  let m := wtx x in
  let mIn := wtx xIn in
  let '(up1, m) :=
    if negb (hashBlock mIn =? 0) && negb (hashBlock mIn =? hashBlock m)
    then (true, mk_mtx (mt_tx m) (hashBlock mIn) (vMerkleBranch m) (nIndex m) (fMerkleVerified m)) else (false, m) in
  let '(up2, m) :=
    if negb (nIndex mIn =? -1) && (negb (bool_decide (vMerkleBranch mIn = vMerkleBranch m)) || negb (nIndex mIn =? nIndex m))
    then (true, mk_mtx (mt_tx m) (hashBlock m) (vMerkleBranch mIn) (nIndex mIn) (fMerkleVerified m)) else (false, m) in
  let x := with_wtx m x in
  let '(up3, x) := if fFromMe xIn && negb (Bool.eqb (fFromMe xIn) (fFromMe x)) then (true, with_fromMe (fFromMe xIn) x) else (false, x) in
  let '(up4, x) := UpdateSpent x (vfSpent xIn) in
  (up1 || up2 || up3 || up4, x).

(** [if (txout.scriptPubKey == scriptDefaultKey)]: a new default key. *)
Definition replace_default (script : list Z) (acc : option CWallet) (o : CTxOut) : option CWallet :=
  w ← acc;
  if negb (bool_decide (scriptPubKey o = script)) then Some w
  else
    '(ok, key, w) ← KeyPool.GetKeyFromPool fTestNet draw nKeysArg nTime false w;
    if negb ok then Some w
    else
      let w := SetDefaultKey key w in
      Some (SetAddressBookName (address fTestNet (vchDefaultKey w)) [] w).

Definition AddToWallet (xIn : CWalletTx) (w : CWallet) : option (bool * CWallet) :=
  hash ← Tx.GetHash (tx_of xIn);
  let '(fNew, fUpdated, x) :=
    match mapWallet w !! hash with
    | None => (true, false, with_received nNow (BindWallet xIn))
    | Some x => let '(up, x) := merge_tx xIn (BindWallet x) in (false, up, x)
    end in
  let w := put hash x (fNew || fUpdated) false w in
  let scriptDefaultKey := Script.SetBitcoinAddress false (Hash160 (vchDefaultKey w)) in
  w ← foldl (replace_default scriptDefaultKey) (Some w) (vout (tx_of x));
  let w := UpdatedTransaction hash w in
  w ← WalletUpdateSpent (tx_of x) w;
  Some (true, w).

Definition AddToWalletIfInvolvingMe (db : CTxDB) (d : disk) (t : CTransaction) (pblock : option CBlock) (fUpdate : bool) (w : CWallet)
    : option (bool * CWallet) :=
  hash ← Tx.GetHash t;
  let fExisted := bool_decide (is_Some (mapWallet w !! hash)) in
  if fExisted && negb fUpdate then Some (false, w)
  else
    involved ← (if fExisted || IsMine_tx fTestNet w t then Some true else IsFromMe_tx fTestNet w t);
    if involved : bool then
      m ← match pblock with Some b => snd <$> SetMerkleBranch p db d I (Some b) (of_tx t) | None => Some (of_tx t) end;
      AddToWallet (Init m) w
    else w ← WalletUpdateSpent t w; Some (false, w).

(** [while (pindex)]: every block from the given one along pnext; a block that
    can not be read has no transactions. *)
Fixpoint scan_txs (db : CTxDB) (d : disk) (b : CBlock) (fUpdate : bool) (l : list CTransaction) (ret : Z) (w : CWallet) : option (Z * CWallet) :=
  match l with
  | [] => Some (ret, w)
  | t :: l =>
      '(ok, w) ← AddToWalletIfInvolvingMe db d t (Some b) fUpdate w;
      scan_txs db d b fUpdate l (if ok : bool then i32 (ret + 1) else ret) w
  end.

Fixpoint scan_loop (db : CTxDB) (d : disk) (n : nat) (pindex : option Z) (fUpdate : bool) (ret : Z) (w : CWallet) : option (Z * CWallet) :=
  match n, deref I pindex with
  | S n, Some node =>
      let b := default Block.null_block (block_ReadFromDisk p d (nFile node) (nBlockPos node) true) in
      '(ret, w) ← scan_txs db d b fUpdate (vtx b) ret w;
      scan_loop db d n (pnext node) fUpdate ret w
  | _, _ => Some (ret, w)
  end.

Definition ScanForWalletTransactions (db : CTxDB) (d : disk) (pindexStart : option Z) (fUpdate : bool) (w : CWallet) : option (Z * CWallet) :=
  scan_loop db d (size (mapBlockIndex I)) pindexStart fUpdate 0 w.

(** ** Repairs *)

(** What the transaction database says of output [n]. *)
Definition db_spent (txindex : CTxIndex) (n : nat) : bool :=
  match vSpent txindex !! n with Some pos => negb (pos_IsNull pos) | None => false end.

(** One output of FixSpentCoins: the counters and the entry. *)
Fixpoint fix_outputs (w : CWallet) (txindex : CTxIndex) (fCheckOnly : bool) (h : Z) (n : nat) (outs : list CTxOut)
    (acc : Z * Z * CWalletTx * bool) : option (Z * Z * CWalletTx * bool) :=
  match outs with
  | [] => Some acc
  | o :: outs =>
      let '(nMismatch, nBalance, x, fWrite) := acc in
      sp ← IsSpent x (Z.of_nat n);
      if IsMine_out fTestNet w o && Bool.eqb sp (negb (db_spent txindex n)) then
        x ← (if fCheckOnly then Some x
             else if sp : bool then MarkUnspent (Z.of_nat n) x else MarkSpent (Z.of_nat n) x);
        fix_outputs w txindex fCheckOnly h (S n) outs (i32 (nMismatch + 1), i64 (nBalance + nValue o), x, fWrite || negb fCheckOnly)
      else fix_outputs w txindex fCheckOnly h (S n) outs acc
  end.

Fixpoint fix_loop (db : CTxDB) (fCheckOnly : bool) (l : list Z) (nMismatch nBalance : Z) (w : CWallet) : option (Z * Z * CWallet) :=
  match l with
  | [] => Some (nMismatch, nBalance, w)
  | h :: l =>
      x ← mapWallet w !! h;
      hash ← Tx.GetHash (tx_of x);
      match ReadTxIndex db hash with
      | None => fix_loop db fCheckOnly l nMismatch nBalance w
      | Some txindex =>
          '(nMismatch, nBalance, x, fWrite) ← fix_outputs w txindex fCheckOnly h 0 (vout (tx_of x)) (nMismatch, nBalance, x, false);
          fix_loop db fCheckOnly l nMismatch nBalance (put h x fWrite false w)
      end
  end.

(** nMismatchFound, nBalanceInQuestion and the wallet. *)
Definition FixSpentCoins (db : CTxDB) (fCheckOnly : bool) (w : CWallet) : option (Z * Z * CWallet) :=
  fix_loop db fCheckOnly (wallet_keys w) 0 0 w.

Definition disable_in (acc : option CWallet) (i : CTxIn) : option CWallet :=
  w ← acc;
  let h := prevhash (prevout i) in
  match mapWallet w !! h with
  | None => Some w
  | Some prev =>
      match vout (tx_of prev) !! Z.to_nat (out_n (prevout i)) with
      | Some o =>
          if IsMine_out fTestNet w o then prev ← MarkUnspent (out_n (prevout i)) prev; Some (put h prev true false w) else Some w
      | None => Some w
      end
  end.

Definition DisableTransaction (t : CTransaction) (w : CWallet) : option CWallet :=
  if negb (Tx.IsCoinStake t) then Some w
  else
    mine ← IsFromMe_tx fTestNet w t;
    if negb mine then Some w else foldl disable_in (Some w) (vin t).

End ops.

(** ** Spent flags as a function *)

Definition flag (x : CWalletTx) (n : nat) : bool := default false (vfSpent x !! n).

Lemma resize_flags_lookup k vf n : (n < k)%nat -> default false (resize_flags k vf !! n) = default false (vf !! n).
Proof.
  intros Hn. unfold resize_flags. rewrite lookup_take_lt by done.
  destruct (vf !! n) as [b|] eqn:Hb.
  - by rewrite (lookup_app_l_Some _ _ _ _ Hb).
  - apply lookup_ge_None in Hb. rewrite lookup_app_r by done.
    destruct (replicate k false !! (n - length vf)%nat) as [c|] eqn:Hc; [|done]. by apply lookup_replicate in Hc as [-> _].
Qed.

Lemma length_resize_flags k vf : length (resize_flags k vf) = k.
Proof. unfold resize_flags. rewrite length_take, length_app, length_replicate. lia. Qed.

Lemma IsSpent_flag x n : (n < length (vout (tx_of x)))%nat -> IsSpent x (Z.of_nat n) = Some (flag x n).
Proof.
  intros Hn. unfold IsSpent, out_count, flag. rewrite (proj2 (Z.leb_gt _ _)) by lia. rewrite Nat2Z.id.
  destruct (Z.leb_spec (Z.of_nat (length (vfSpent x))) (Z.of_nat n)); [|done].
  by rewrite lookup_ge_None_2 by lia.
Qed.

Lemma flag_insert x vf av n b m :
  (m < length vf)%nat -> flag (with_spent (<[ n := b ]> vf) av x) m = if decide (n = m) then b else default false (vf !! m).
Proof.
  intros Hm. unfold flag. cbn [with_spent vfSpent]. destruct (decide (n = m)) as [->|Hne].
  - by rewrite list_lookup_insert_eq.
  - by rewrite list_lookup_insert_ne.
Qed.

Lemma MarkSpent_spec x n :
  (n < length (vout (tx_of x)))%nat ->
  exists x', MarkSpent (Z.of_nat n) x = Some x' /\ wtx x' = wtx x /\
    forall m, (m < length (vout (tx_of x)))%nat -> flag x' m = if decide (n = m) then true else flag x m.
Proof.
  intros Hn. unfold MarkSpent, out_count. rewrite (proj2 (Z.leb_gt _ _)) by lia. rewrite Nat2Z.id.
  set (vf := resize_flags _ _). assert (length vf = length (vout (tx_of x))) as Hl by apply length_resize_flags.
  destruct (default false (vf !! n)) eqn:Hf.
  - eexists. split; [done|]. split; [done|]. intros m Hm. unfold flag at 1. cbn [with_spent vfSpent].
    destruct (decide (n = m)) as [<-|]; [done|]. by apply resize_flags_lookup.
  - eexists. split; [done|]. split; [done|]. intros m Hm. rewrite flag_insert by lia.
    destruct (decide (n = m)); [done|]. by apply resize_flags_lookup.
Qed.

Lemma MarkUnspent_spec x n :
  (n < length (vout (tx_of x)))%nat ->
  exists x', MarkUnspent (Z.of_nat n) x = Some x' /\ wtx x' = wtx x /\
    forall m, (m < length (vout (tx_of x)))%nat -> flag x' m = if decide (n = m) then false else flag x m.
Proof.
  intros Hn. unfold MarkUnspent, out_count. rewrite (proj2 (Z.leb_gt _ _)) by lia. rewrite Nat2Z.id.
  set (vf := resize_flags _ _). assert (length vf = length (vout (tx_of x))) as Hl by apply length_resize_flags.
  destruct (default false (vf !! n)) eqn:Hf.
  - eexists. split; [done|]. split; [done|]. intros m Hm. rewrite flag_insert by lia.
    destruct (decide (n = m)); [done|]. by apply resize_flags_lookup.
  - eexists. split; [done|]. split; [done|]. intros m Hm. unfold flag at 1. cbn [with_spent vfSpent].
    destruct (decide (n = m)) as [<-|]; [done|]. by apply resize_flags_lookup.
Qed.

Lemma merge_spent_flags vfNew : forall vf n,
  default false ((merge_spent vfNew vf).1 !! n) = default false (vf !! n) || (default false (vfNew !! n) && bool_decide (n < length vf)%nat).
Proof.
  induction vfNew as [|a vfNew IH]; intros [|b vf] n; cbn [merge_spent fst].
  - by rewrite orb_false_r.
  - by rewrite orb_false_r.
  - rewrite andb_false_r. by rewrite orb_false_r.
  - specialize (IH vf). destruct (merge_spent vfNew vf) as [r up]. cbn [fst] in *.
    destruct n as [|n]; [simpl; by rewrite andb_true_r|]. cbn [lookup list_lookup]. rewrite IH.
    do 2 f_equal. apply bool_decide_ext. cbn [length]. lia.
Qed.

Section fix_spent.
Context {B : Tx.Abi} {L : BNLib} {D : DigestLib} {E : ECLib} {G : ECGroup E} {V : EVPLib} (fTestNet : bool).

(** Every transaction of the wallet is filed under its hash. *)
Definition filed (w : CWallet) : Prop := forall h x, mapWallet w !! h = Some x -> Tx.GetHash (tx_of x) = Some h.

Lemma tx_of_wtx x y : wtx x = wtx y -> tx_of x = tx_of y.
Proof. unfold tx_of. by intros ->. Qed.

Lemma IsMine_put w h x fw fn o : IsMine_out fTestNet (put h x fw fn w) o = IsMine_out fTestNet w o.
Proof. done. Qed.

(** What an entry must be after the repair. *)
Definition fixed_flag (w : CWallet) (txindex : CTxIndex) (x : CWalletTx) (n : nat) (o : CTxOut) : bool :=
  if IsMine_out fTestNet w o then db_spent txindex n else flag x n.

Lemma fix_outputs_spec w txindex h outs : forall n x0 x nm nb fw,
  wtx x = wtx x0 -> drop n (vout (tx_of x0)) = outs ->
  (forall m, (n <= m < length (vout (tx_of x0)))%nat -> flag x m = flag x0 m) ->
  exists nm' nb' x' fw', fix_outputs fTestNet w txindex false h n outs (nm, nb, x, fw) = Some (nm', nb', x', fw') /\
    wtx x' = wtx x0 /\
    (forall m, (m < n)%nat -> (m < length (vout (tx_of x0)))%nat -> flag x' m = flag x m) /\
    (forall m o, (n <= m)%nat -> vout (tx_of x0) !! m = Some o -> flag x' m = fixed_flag w txindex x0 m o).
Proof.
  induction outs as [|o outs IH]; intros n x0 x nm nb fw Hx Hd Hfl.
  - exists nm, nb, x, fw. split; [done|]. split; [done|]. split; [done|]. intros m o Hm Ho.
    apply lookup_lt_Some in Ho. assert (length (drop n (vout (tx_of x0))) = 0%nat) as Hl by (by rewrite Hd). rewrite length_drop in Hl. lia.
  - assert (vout (tx_of x0) !! n = Some o) as Ho.
    { rewrite <- (Nat.add_0_r n), <- lookup_drop, Hd. done. }
    assert (n < length (vout (tx_of x0)))%nat as Hn by (by apply lookup_lt_Some in Ho).
    assert (drop (S n) (vout (tx_of x0)) = outs) as Hd'.
    { rewrite (drop_S _ _ _ Ho) in Hd. by injection Hd. }
    pose proof (tx_of_wtx _ _ Hx) as Ht.
    cbn [fix_outputs]. rewrite IsSpent_flag by (by rewrite Ht). cbn [mbind option_bind].
    assert (forall xa, wtx xa = wtx x0 ->
      (forall m, (m < length (vout (tx_of x0)))%nat -> flag xa m = if decide (n = m) then fixed_flag w txindex x0 n o else flag x m) ->
      forall nm nb fw, exists nm' nb' x' fw', fix_outputs fTestNet w txindex false h (S n) outs (nm, nb, xa, fw) = Some (nm', nb', x', fw') /\
        wtx x' = wtx x0 /\ (forall m, (m < n)%nat -> (m < length (vout (tx_of x0)))%nat -> flag x' m = flag x m) /\
        (forall m o, (n <= m)%nat -> vout (tx_of x0) !! m = Some o -> flag x' m = fixed_flag w txindex x0 m o)) as Hgo.
    { intros xa Hxa Hfa nm1 nb1 fw1. destruct (IH (S n) x0 xa nm1 nb1 fw1 Hxa Hd') as (nm' & nb' & x' & fw' & He & Hw & Hlo & Hhi).
      - intros m Hm. rewrite Hfa by lia. destruct (decide (n = m)); [lia|]. apply Hfl. lia.
      - exists nm', nb', x', fw'. split; [done|]. split; [done|]. split.
        + intros m Hm Hm'. rewrite Hlo, Hfa by lia. destruct (decide (n = m)); [lia|done].
        + intros m o' Hm Ho'. destruct (decide (n = m)) as [<-|Hne].
          * rewrite Hlo, Hfa by lia. rewrite decide_True by done. rewrite Ho in Ho'. by injection Ho' as ->.
          * apply Hhi; [lia|done]. }
    assert (flag x n = flag x0 n) as Hfn by (apply Hfl; lia).
    destruct (IsMine_out fTestNet w o) eqn:Hmine; cbn [andb].
    + destruct (Bool.eqb (flag x n) (negb (db_spent txindex n))) eqn:Heq.
      * apply eqb_prop in Heq. destruct (flag x n) eqn:Hsp.
        -- destruct (MarkUnspent_spec x n) as (xa & Hm & Hxa & Hfa); [by rewrite Ht|]. rewrite Hm. cbn [mbind option_bind].
           apply Hgo; [congruence|]. intros m Hm'. rewrite Hfa by (by rewrite Ht).
           destruct (decide (n = m)); [|done]. unfold fixed_flag. rewrite Hmine. by destruct (db_spent txindex n).
        -- destruct (MarkSpent_spec x n) as (xa & Hm & Hxa & Hfa); [by rewrite Ht|]. rewrite Hm. cbn [mbind option_bind].
           apply Hgo; [congruence|]. intros m Hm'. rewrite Hfa by (by rewrite Ht).
           destruct (decide (n = m)); [|done]. unfold fixed_flag. rewrite Hmine. by destruct (db_spent txindex n).
      * apply Hgo; [done|]. intros m Hm'. destruct (decide (n = m)) as [<-|]; [|done]. unfold fixed_flag. rewrite Hmine.
        by destruct (flag x n), (db_spent txindex n).
    + apply Hgo; [done|]. intros m Hm'. destruct (decide (n = m)) as [<-|]; [|done]. unfold fixed_flag. by rewrite Hmine.
Qed.

(** A check of an entry whose flags agree finds nothing. *)
Lemma fix_outputs_clean w txindex h outs : forall n x nm nb fw,
  drop n (vout (tx_of x)) = outs ->
  (forall m o, vout (tx_of x) !! m = Some o -> IsMine_out fTestNet w o = true -> flag x m = db_spent txindex m) ->
  fix_outputs fTestNet w txindex true h n outs (nm, nb, x, fw) = Some (nm, nb, x, fw).
Proof.
  induction outs as [|o outs IH]; intros n x nm nb fw Hd Hf; [done|].
  assert (vout (tx_of x) !! n = Some o) as Ho.
  { rewrite <- (Nat.add_0_r n), <- lookup_drop, Hd. done. }
  cbn [fix_outputs]. rewrite IsSpent_flag by (by apply lookup_lt_Some in Ho). cbn [mbind option_bind].
  assert (IsMine_out fTestNet w o && Bool.eqb (flag x n) (negb (db_spent txindex n)) = false) as ->.
  { destruct (IsMine_out fTestNet w o) eqn:Hm; [|done]. rewrite (Hf n o Ho Hm). by destruct (db_spent txindex n). }
  apply IH; [|done]. rewrite (drop_S _ _ _ Ho) in Hd. by injection Hd.
Qed.

(** The entry [x'] is the entry [x] repaired from the record of its hash. *)
Definition repaired (db : CTxDB) (w : CWallet) (h : Z) (x x' : CWalletTx) : Prop :=
  wtx x' = wtx x /\
  forall txindex n o, ReadTxIndex db h = Some txindex -> vout (tx_of x) !! n = Some o ->
    flag x' n = fixed_flag w txindex x n o.

Lemma fix_loop_spec db l : forall w nm nb,
  filed w -> NoDup l -> (forall h, h ∈ l -> is_Some (mapWallet w !! h)) ->
  exists nm' nb' w', fix_loop fTestNet db false l nm nb w = Some (nm', nb', w') /\ store w' = store w /\
    (forall h, h ∉ l -> mapWallet w' !! h = mapWallet w !! h) /\
    (forall h x, h ∈ l -> mapWallet w !! h = Some x -> exists x', mapWallet w' !! h = Some x' /\ repaired db w h x x').
Proof.
  induction l as [|h l IH]; intros w nm nb Hw Hnd Hl.
  { exists nm, nb, w. split; [done|]. split; [done|]. split; [done|]. intros h x Hh. by apply not_elem_of_nil in Hh. }
  apply NoDup_cons in Hnd as [Hh Hnd].
  destruct (Hl h) as [x Hx]; [left|]. pose proof (Hw _ _ Hx) as Hhash.
  cbn [fix_loop]. rewrite Hx. cbn [mbind option_bind]. rewrite Hhash. cbn [mbind option_bind].
  destruct (ReadTxIndex db h) as [txindex|] eqn:Hidx.
  - destruct (fix_outputs_spec w txindex h (vout (tx_of x)) 0 x x nm nb false eq_refl (drop_0 _) ltac:(done))
      as (nm1 & nb1 & x1 & fw1 & He & Hw1 & _ & Hf1).
    rewrite He. cbn [mbind option_bind].
    destruct (IH (put h x1 fw1 false w) nm1 nb1) as (nm' & nb' & w' & Hloop & Hst & Hout & Hin); [|done| |].
    { intros h' x' Hx'. cbn [put set_txs mapWallet] in Hx'. apply lookup_insert_Some in Hx' as [[<- <-]|[_ Hx']]; [|by apply Hw].
      by rewrite (tx_of_wtx _ _ Hw1). }
    { intros h' Hh'. cbn [put set_txs mapWallet]. apply lookup_insert_is_Some'. right. apply Hl. by right. }
    exists nm', nb', w'. split; [done|]. split; [done|]. split.
    + intros h' Hh'. apply not_elem_of_cons in Hh' as [Hne Hh']. rewrite Hout by done.
      cbn [put set_txs mapWallet]. by rewrite lookup_insert_ne.
    + intros h' y Hh' Hy. apply elem_of_cons in Hh' as [->|Hh'].
      * rewrite Hx in Hy. injection Hy as <-. exists x1. rewrite Hout by done. cbn [put set_txs mapWallet].
        rewrite lookup_insert_eq. split; [done|]. split; [done|]. intros ti n o Hti Ho. rewrite Hidx in Hti. injection Hti as <-.
        apply Hf1; [lia|done].
      * assert (h <> h') as Hne by (by intros ->). apply (Hin h' y Hh').
        cbn [put set_txs mapWallet]. by rewrite lookup_insert_ne.
  - destruct (IH w nm nb Hw Hnd) as (nm' & nb' & w' & Hloop & Hst & Hout & Hin); [intros h' Hh'; apply Hl; by right|].
    exists nm', nb', w'. split; [done|]. split; [done|]. split.
    + intros h' Hh'. apply not_elem_of_cons in Hh' as [Hne Hh']. by apply Hout.
    + intros h' y Hh' Hy. apply elem_of_cons in Hh' as [->|Hh']; [|by apply Hin].
      rewrite Hx in Hy. injection Hy as <-. exists x. rewrite Hout by done. split; [done|]. split; [done|].
      intros ti n o Hti. by rewrite Hidx in Hti.
Qed.

Lemma wallet_keys_spec w : NoDup (wallet_keys w) /\ forall h, h ∈ wallet_keys w <-> is_Some (mapWallet w !! h).
Proof.
  unfold wallet_keys. split.
  - rewrite merge_sort_Permutation. apply NoDup_elements.
  - intros h. by rewrite merge_sort_Permutation, elem_of_elements, elem_of_dom.
Qed.

Lemma fix_loop_clean db l : forall w nm nb,
  filed w -> NoDup l -> (forall h, h ∈ l -> is_Some (mapWallet w !! h)) ->
  (forall h x txindex n o, h ∈ l -> mapWallet w !! h = Some x -> ReadTxIndex db h = Some txindex ->
     vout (tx_of x) !! n = Some o -> IsMine_out fTestNet w o = true -> flag x n = db_spent txindex n) ->
  exists w', fix_loop fTestNet db true l nm nb w = Some (nm, nb, w').
Proof.
  induction l as [|h l IH]; intros w nm nb Hw Hnd Hl Hok; [by exists w|].
  apply NoDup_cons in Hnd as [Hh Hnd].
  destruct (Hl h) as [x Hx]; [left|]. cbn [fix_loop]. rewrite Hx. cbn [mbind option_bind].
  rewrite (Hw _ _ Hx). cbn [mbind option_bind].
  destruct (ReadTxIndex db h) as [txindex|] eqn:Hidx.
  - rewrite (fix_outputs_clean w txindex h (vout (tx_of x)) 0 x nm nb false (drop_0 _)).
    2:{ intros m o Ho Hm. apply (Hok h x txindex m o); [left|done|done|done|done]. }
    cbn [mbind option_bind]. assert (mapWallet (put h x false false w) = mapWallet w) as Hsame.
    { cbn [put set_txs mapWallet]. by apply insert_id. }
    apply IH; [| done| |].
    + intros h' x' Hx'. rewrite Hsame in Hx'. by apply Hw.
    + intros h' Hh'. rewrite Hsame. apply Hl. by right.
    + intros h' y ti n o Hh' Hy. rewrite Hsame in Hy. apply (Hok h'); [by right|done].
  - apply IH; [done|done|intros h' Hh'; apply Hl; by right|].
    intros h' y ti n o Hh'. apply Hok. by right.
Qed.

(** C24: Repairing the wallet from the transaction database always ends with a
    result; it keeps every transaction and changes only the flags of own outputs
    whose transaction is in the database: these are spent exactly when the
    database says so.  A check that follows finds no mismatch. *)
Theorem FixSpentCoins_repairs db w :
  filed w ->
  exists nm nb w' w'', FixSpentCoins fTestNet db false w = Some (nm, nb, w') /\
    (forall h, is_Some (mapWallet w' !! h) <-> is_Some (mapWallet w !! h)) /\
    (forall h x, mapWallet w !! h = Some x -> exists x', mapWallet w' !! h = Some x' /\ repaired db w h x x') /\
    FixSpentCoins fTestNet db true w' = Some (0, 0, w'').
Proof.
  intros Hw. destruct (wallet_keys_spec w) as [Hnd Hkeys].
  destruct (fix_loop_spec db (wallet_keys w) w 0 0 Hw Hnd) as (nm & nb & w' & Hloop & Hst & Hout & Hin).
  { intros h. by apply Hkeys. }
  assert (forall h x, mapWallet w !! h = Some x -> exists x', mapWallet w' !! h = Some x' /\ repaired db w h x x') as Hrep.
  { intros h x Hx. apply Hin; [|done]. apply Hkeys. eauto. }
  assert (forall h, is_Some (mapWallet w' !! h) <-> is_Some (mapWallet w !! h)) as Hdom.
  { intros h. destruct (decide (h ∈ wallet_keys w)) as [Hh|Hh].
    - apply Hkeys in Hh as [x Hx]. destruct (Hrep _ _ Hx) as (x' & Hx' & _). rewrite Hx, Hx'. by split; eauto.
    - by rewrite Hout. }
  destruct (wallet_keys_spec w') as [Hnd' Hkeys'].
  destruct (fix_loop_clean db (wallet_keys w') w' 0 0) as [w'' Hclean]; [|done|intros h; by apply Hkeys'| |].
  - intros h x' Hx'. destruct (proj1 (Hdom h)) as [x Hx]; [eauto|]. destruct (Hrep _ _ Hx) as (y & Hy & Hwt & _).
    rewrite Hx' in Hy. injection Hy as <-. rewrite (tx_of_wtx _ _ Hwt). by apply Hw.
  - intros h x' ti n o _ Hx' Hti Ho Hm. destruct (proj1 (Hdom h)) as [x Hx]; [eauto|].
    destruct (Hrep _ _ Hx) as (y & Hy & Hwt & Hfl). rewrite Hx' in Hy. injection Hy as <-.
    rewrite (tx_of_wtx _ _ Hwt) in Ho. rewrite (Hfl ti n o Hti Ho). unfold fixed_flag.
    assert (IsMine_out fTestNet w o = IsMine_out fTestNet w' o) as -> by (unfold IsMine_out, IsMine_script; by rewrite Hst).
    by rewrite Hm.
  - exists nm, nb, w', w''. done.
Qed.

End fix_spent.

(** ** Adding transactions *)

(** What is written to the file: everything but the caches and the flags of the
    merkle branches. *)
Definition persist_mtx (m : CMerkleTx) : CMerkleTx := mk_mtx (mt_tx m) (hashBlock m) (vMerkleBranch m) (nIndex m) false.

Definition persist (x : CWalletTx) : CWalletTx :=
  with_caches None None None None (with_prevs (persist_mtx <$> vtxPrev x) (with_wtx (persist_mtx (wtx x)) x)).

(** The file holds the record of every transaction of the wallet. *)
Definition mirrored (w : CWallet) : Prop :=
  forall h x, mapWallet w !! h = Some x -> exists y, file_tx w !! h = Some y /\ persist y = persist x.

(** [w'] has the transactions of [w], and no flag of a spent coin was taken back. *)
Definition extends (w w' : CWallet) : Prop :=
  forall h x, mapWallet w !! h = Some x -> exists x', mapWallet w' !! h = Some x' /\ tx_of x' = tx_of x /\
    forall n, (n < length (vout (tx_of x)))%nat -> flag x n = true -> flag x' n = true.

#[global] Instance extends_preorder : PreOrder extends.
Proof.
  split.
  - intros w h x Hx. eauto.
  - intros w1 w2 w3 H12 H23 h x Hx. destruct (H12 _ _ Hx) as (y & Hy & Ety & Hfy).
    destruct (H23 _ _ Hy) as (z & Hz & Etz & Hfz). exists z. split; [done|]. split; [congruence|].
    intros n Hn Hf. apply Hfz; [by rewrite Ety|]. by apply Hfy.
Qed.

Lemma extends_same w w' : mapWallet w' = mapWallet w -> extends w w'.
Proof. intros Hm h x Hx. exists x. rewrite Hm. done. Qed.

Lemma persist_tx x y : persist x = persist y -> tx_of x = tx_of y.
Proof. intros H. apply (f_equal (fun z => mt_tx (wtx z))) in H. done. Qed.

Lemma persist_spent x vf av : persist (with_spent vf av x) = with_spent vf None (persist x).
Proof. done. Qed.

Lemma depth_persist {B : Tx.Abi} {D : DigestLib} I m d m' : GetDepthInMainChain I m = Some (d, m') -> persist_mtx m' = persist_mtx m.
Proof.
  unfold GetDepthInMainChain. destruct (_ || _); [by intros [= <- <-]|].
  destruct (mapBlockIndex I !! hashBlock m) as [n|]; [|by intros [= <- <-]].
  destruct (negb (IsInMainChain I (hashBlock m) n)); [by intros [= <- <-]|].
  destruct (if fMerkleVerified m then _ else _) as [ok|]; [|done]. cbn [mbind option_bind].
  destruct (negb ok); [by intros [= <- <-]|]. destruct (deref I (pindexBest I)); [|done]. by intros [= <- <-].
Qed.

Lemma persist_with_wtx m x : persist_mtx m = persist_mtx (wtx x) -> persist (with_wtx m x) = persist x.
Proof. intros H. unfold persist. cbn. by rewrite H. Qed.

Section adding.
Context {B : Tx.Abi} {L : BNLib} {D : DigestLib} {E : ECLib} {G : ECGroup E} {V : EVPLib} (fTestNet : bool) (p : NetParams).
Context (I : index) (nCoinbaseMaturity nNow : Z) (draw : nat -> Z) (nKeysArg nTime : Z).

Lemma immature_persist x b x' : immature I nCoinbaseMaturity x = Some (b, x') -> persist x' = persist x.
Proof.
  unfold immature, GetBlocksToMaturity. destruct (generated (tx_of x)); [|by intros [= <- <-]].
  destruct (negb _); cbn [mbind option_bind]; [intros [= <- <-]; by apply persist_with_wtx|].
  destruct (GetDepthInMainChain I (wtx x)) as [[d m]|] eqn:Hd; [|done]. cbn [mbind option_bind]. intros [= <- <-].
  apply persist_with_wtx. by apply (depth_persist _ _ _ _ Hd).
Qed.

Lemma GetCredit_persist w c x v x' : GetCredit fTestNet w I nCoinbaseMaturity c x = Some (v, x') -> persist x' = persist x.
Proof.
  unfold GetCredit. destruct (immature I nCoinbaseMaturity x) as [[im y]|] eqn:Him; [|done]. cbn [mbind option_bind].
  apply immature_persist in Him. destruct im; [by intros [= <- <-]|].
  destruct (creditCached y) as [u|]; [destruct c; [by intros [= <- <-]|]|];
    (destruct (GetCredit_tx fTestNet w (tx_of y)); [|done]); cbn [mbind option_bind]; by intros [= <- <-].
Qed.

Lemma persist_flag x y n : persist x = persist y -> flag x n = flag y n.
Proof. intros H. apply (f_equal vfSpent) in H. unfold flag. cbn in H. by rewrite H. Qed.

Lemma mirrored_put h x fw fn w :
  mirrored w -> (fw = true \/ exists y, mapWallet w !! h = Some y /\ persist x = persist y) -> mirrored (put h x fw fn w).
Proof.
  intros Hm Hw h' z Hz. cbn [put set_txs mapWallet file_tx] in *. apply lookup_insert_Some in Hz as [[<- <-]|[Hne Hz]].
  - destruct fw; [exists x; by rewrite lookup_insert_eq|]. destruct Hw as [|(y & Hy & Hp)]; [done|].
    destruct (Hm _ _ Hy) as (y' & Hy' & Hp'). exists y'. split; [done|congruence].
  - destruct (Hm _ _ Hz) as (y & Hy & Hp). exists y. split; [|done]. destruct fw; [by rewrite lookup_insert_ne|done].
Qed.

Lemma extends_put h x fw fn w :
  (forall y, mapWallet w !! h = Some y -> tx_of x = tx_of y /\ forall n, (n < length (vout (tx_of y)))%nat -> flag y n = true -> flag x n = true) ->
  extends w (put h x fw fn w).
Proof.
  intros Hx h' y Hy. cbn [put set_txs mapWallet]. destruct (decide (h = h')) as [<-|Hne].
  - exists x. rewrite lookup_insert_eq. split; [done|]. by apply Hx.
  - exists y. by rewrite lookup_insert_ne.
Qed.

Lemma filed_put h x fw fn w : filed w -> Tx.GetHash (tx_of x) = Some h -> filed (put h x fw fn w).
Proof. intros Hw Hx h' y Hy. cbn [put set_txs mapWallet] in Hy. apply lookup_insert_Some in Hy as [[<- <-]|[_ Hy]]; [done|by apply Hw]. Qed.

(** What holds of a wallet between operations. *)
Record wallet_ok (w : CWallet) : Prop := { ok_filed : filed w; ok_mirrored : mirrored w }.

(** An input whose output belongs to the wallet is marked. *)
Definition coin_spent (w : CWallet) (i : CTxIn) : Prop :=
  forall o x, mapWallet w !! prevhash (prevout i) = Some x -> vout (tx_of x) !! Z.to_nat (out_n (prevout i)) = Some o ->
    IsMine_out fTestNet w o = true -> flag x (Z.to_nat (out_n (prevout i))) = true.

Lemma coin_spent_mono w w' i : extends w w' -> store w' = store w ->
  (forall h, is_Some (mapWallet w' !! h) -> is_Some (mapWallet w !! h)) -> coin_spent w i -> coin_spent w' i.
Proof.
  intros He Hs Hd Hc o x' Hx' Ho Hm. destruct (Hd (prevhash (prevout i))) as [x Hx]; [eauto|].
  destruct (He _ _ Hx) as (y & Hy & Et & Hf). rewrite Hx' in Hy. injection Hy as <-. rewrite Et in Ho.
  apply Hf; [by apply lookup_lt_Some in Ho|]. apply (Hc o x Hx Ho). unfold IsMine_out, IsMine_script in *. by rewrite <- Hs.
Qed.

Lemma update_spent_spec w i w' :
  wallet_ok w -> 0 <= out_n (prevout i) -> update_spent fTestNet I nCoinbaseMaturity (Some w) i = Some w' ->
  wallet_ok w' /\ extends w w' /\ store w' = store w /\
  (forall h, is_Some (mapWallet w' !! h) -> is_Some (mapWallet w !! h)) /\ coin_spent w' i.
Proof.
  intros [Hf Hm] Hn. unfold update_spent. cbn [mbind option_bind].
  destruct (mapWallet w !! prevhash (prevout i)) as [x|] eqn:Hx.
  2:{ intros [= <-]. split; [done|]. split; [reflexivity|]. split; [done|]. split; [done|]. intros o x. by rewrite Hx. }
  destruct (IsSpent x (out_n (prevout i))) as [sp|] eqn:Hsp; [|done]. cbn [mbind option_bind].
  destruct (vout (tx_of x) !! Z.to_nat (out_n (prevout i))) as [o|] eqn:Ho; [|done]. cbn [mbind option_bind].
  pose proof (lookup_lt_Some _ _ _ Ho) as Hlt.
  rewrite <- (Z2Nat.id (out_n (prevout i))) in Hsp by done. rewrite IsSpent_flag in Hsp by done. injection Hsp as <-.
  destruct (negb (flag x _) && IsMine_out fTestNet w o) eqn:Hc.
  - destruct (GetCredit _ _ _ _ _ _) as [[v y]|] eqn:Hg; [|done]. cbn [mbind option_bind].
    apply GetCredit_persist in Hg. pose proof (persist_tx _ _ Hg) as Ety.
    destruct (MarkSpent_spec y (Z.to_nat (out_n (prevout i)))) as (z & Hz & Hwz & Hfz); [by rewrite Ety|].
    rewrite Z2Nat.id in Hz by done. rewrite Hz. cbn [mbind option_bind]. intros [= <-].
    pose proof (tx_of_wtx _ _ Hwz) as Etz. rewrite Ety in Etz.
    split; [|split; [|split; [done|split]]].
    + split; [apply filed_put; [done|]; rewrite Etz; by apply Hf|]. apply mirrored_put; [done|by left].
    + apply extends_put. intros x' Hx'. rewrite Hx in Hx'. injection Hx' as <-. split; [done|].
      intros n Hn' Hfl. rewrite Hfz by (by rewrite Ety). destruct (decide (_ = n)); [done|]. by rewrite (persist_flag _ _ _ Hg).
    + intros h Hh. cbn [put set_txs mapWallet] in Hh. apply lookup_insert_is_Some in Hh as [<-|[_ Hh]]; eauto.
    + intros o' x' Hx' Ho' Hm'. cbn [put set_txs mapWallet] in Hx'. rewrite lookup_insert_eq in Hx'. injection Hx' as <-.
      rewrite Hfz by (by rewrite Ety). by rewrite decide_True.
  - intros [= <-]. split; [done|]. split; [reflexivity|]. split; [done|]. split; [done|].
    intros o' x' Hx' Ho' Hm'. rewrite Hx in Hx'. injection Hx' as <-. rewrite Ho in Ho'. injection Ho' as <-.
    rewrite Hm', andb_true_r in Hc. by apply negb_false_iff.
Qed.

Lemma update_spent_none l : foldl (update_spent fTestNet I nCoinbaseMaturity) None l = None.
Proof. by induction l. Qed.

Lemma update_all_spec l : forall w w',
  wallet_ok w -> Forall (fun i => 0 <= out_n (prevout i)) l ->
  foldl (update_spent fTestNet I nCoinbaseMaturity) (Some w) l = Some w' ->
  wallet_ok w' /\ extends w w' /\ store w' = store w /\
  (forall h, is_Some (mapWallet w' !! h) -> is_Some (mapWallet w !! h)) /\ Forall (coin_spent w') l.
Proof.
  induction l as [|i l IH]; intros w w' Hw Hl H.
  { injection H as <-. split; [done|]. split; [reflexivity|]. done. }
  apply Forall_cons in Hl as [Hi Hl]. cbn [foldl] in H.
  destruct (update_spent fTestNet I nCoinbaseMaturity (Some w) i) as [w1|] eqn:H1; [|by rewrite update_spent_none in H].
  destruct (update_spent_spec w i w1 Hw Hi H1) as (Hok1 & He1 & Hs1 & Hd1 & Hc1).
  destruct (IH w1 w' Hok1 Hl H) as (Hok & He & Hs & Hd & Hc).
  split; [done|]. split; [by etrans|]. split; [congruence|]. split; [intros h Hh; by apply Hd1, Hd|].
  constructor; [|done]. by apply (coin_spent_mono w1).
Qed.

(** *** The key pool does not touch the transactions *)

Definition same_txs (w w' : CWallet) : Prop := mapWallet w' = mapWallet w /\ file_tx w' = file_tx w.

#[local] Instance same_txs_preorder : PreOrder same_txs.
Proof. split; [done|]. intros w1 w2 w3 [H1 H2] [H3 H4]. split; congruence. Qed.

Lemma GenerateNewKey_txs w pub w' : KeyPool.GenerateNewKey fTestNet draw w = Some (pub, w') -> same_txs w w'.
Proof.
  unfold KeyPool.GenerateNewKey, KeyPool.AddKey. set (c := KeyPool.CanSupportFeature _ _).
  destruct (KeyStores.AddKey _ _ _) as [[ok s]|]; [|done]. cbn [mbind option_bind]. destruct (negb ok); [done|].
  destruct (Key.GetPubKey _); [|done]. cbn [mbind option_bind]. intros [= <- <-].
  destruct c; [|done]. unfold KeyPool.SetMinVersion. by destruct (_ <=? _).
Qed.

Lemma top_up_txs n : forall w w', KeyPool.top_up fTestNet draw nTime n w = Some w' -> same_txs w w'.
Proof.
  induction n as [|n IH]; intros w w' H; [by injection H as <-|]. cbn [KeyPool.top_up] in H.
  destruct (KeyPool.GenerateNewKey fTestNet draw w) as [[pub w1]|] eqn:Hg; [|done]. cbn [mbind option_bind] in H.
  apply GenerateNewKey_txs in Hg. apply IH in H. etrans; [exact Hg|]. destruct H as [H1 H2]. by split.
Qed.

Lemma Reserve_txs w i k w' : KeyPool.ReserveKeyFromKeyPool fTestNet draw nKeysArg nTime w = Some (i, k, w') -> same_txs w w'.
Proof.
  unfold KeyPool.ReserveKeyFromKeyPool, KeyPool.TopUpKeyPool. intros H.
  assert (exists w1, same_txs w w1 /\ same_txs w1 w') as (w1 & H1 & H2); [|by etrans].
  destruct (IsLocked (store w)).
  - exists w. split; [done|]. cbn [mbind option_bind] in H. destruct (KeyPool.lowest _); [|by injection H as <- <- <-].
    destruct (file_pool _ !! _); [|done]. cbn [mbind option_bind] in H. destruct (negb _); [done|].
    destruct (bool_decide _); [done|]. by injection H as <- <- <-.
  - destruct (KeyPool.top_up _ _ _ _ _) as [w1|] eqn:Ht; [|done]. apply top_up_txs in Ht. exists w1. split; [done|].
    cbn [mbind option_bind fmap option_fmap option_map snd] in H. destruct (KeyPool.lowest _); [|by injection H as <- <- <-].
    destruct (file_pool _ !! _); [|done]. cbn [mbind option_bind] in H. destruct (negb _); [done|].
    destruct (bool_decide _); [done|]. by injection H as <- <- <-.
Qed.

Lemma GetKeyFromPool_txs w b r : forall k w', KeyPool.GetKeyFromPool fTestNet draw nKeysArg nTime b w = Some (r, k, w') -> same_txs w w'.
Proof.
  intros k w'. unfold KeyPool.GetKeyFromPool. destruct (KeyPool.ReserveKeyFromKeyPool _ _ _ _ _) as [[[i kp] w1]|] eqn:Hr; [|done].
  cbn [mbind option_bind]. apply Reserve_txs in Hr. destruct (i =? -1).
  - destruct (_ && _); [by intros [= <- <- <-]|]. destruct (IsLocked (store w1)); [by intros [= <- <- <-]|].
    destruct (KeyPool.GenerateNewKey fTestNet draw w1) as [[pub w2]|] eqn:Hg; [|done]. cbn [mbind option_bind]. intros [= <- <- <-].
    etrans; [exact Hr|]. by apply (GenerateNewKey_txs _ _ _ Hg).
  - intros [= <- <- <-]. etrans; [exact Hr|]. unfold KeyPool.KeepKey. by destruct (fFileBacked w1).
Qed.

Lemma replace_default_none script l : foldl (replace_default fTestNet draw nKeysArg nTime script) None l = None.
Proof. by induction l. Qed.

Lemma replace_all_txs script l : forall w w',
  foldl (replace_default fTestNet draw nKeysArg nTime script) (Some w) l = Some w' -> same_txs w w'.
Proof.
  induction l as [|o l IH]; intros w w' H; [by injection H as <-|]. cbn [foldl] in H.
  destruct (replace_default _ _ _ _ script (Some w) o) as [w1|] eqn:H1; [|by rewrite replace_default_none in H].
  apply IH in H. etrans; [|exact H]. clear H. unfold replace_default in H1. cbn [mbind option_bind] in H1.
  destruct (negb _); [by injection H1 as <-|].
  destruct (KeyPool.GetKeyFromPool _ _ _ _ _ _) as [[[ok key] w2]|] eqn:Hg; [|done]. cbn [mbind option_bind] in H1.
  apply GetKeyFromPool_txs in Hg. destruct (negb ok); [by injection H1 as <-|]. injection H1 as <-. etrans; [exact Hg|]. done.
Qed.

Lemma merge_spent_same vfNew : forall vf, (merge_spent vfNew vf).2 = false -> (merge_spent vfNew vf).1 = vf.
Proof.
  induction vfNew as [|a vfNew IH]; intros [|b vf] H; try done. cbn [merge_spent] in *. specialize (IH vf).
  destruct (merge_spent vfNew vf) as [r up]. cbn [fst snd] in *. apply orb_false_iff in H as [H1 H2]. rewrite IH by done.
  by destruct a, b.
Qed.

Lemma merge_tx_spec xIn x :
  let '(up, x') := merge_tx xIn x in
  tx_of x' = tx_of x /\ (forall n, flag x n = true -> flag x' n = true) /\ (up = false -> persist x' = persist x) /\
  (hashBlock (wtx xIn) <> 0 -> hashBlock (wtx x') = hashBlock (wtx xIn)).
Proof.
  unfold merge_tx.
  set (c1 := negb (hashBlock (wtx xIn) =? 0) && negb (hashBlock (wtx xIn) =? hashBlock (wtx x))).
  set (m1 := if c1 then mk_mtx (mt_tx (wtx x)) (hashBlock (wtx xIn)) (vMerkleBranch (wtx x)) (nIndex (wtx x)) (fMerkleVerified (wtx x)) else wtx x).
  replace (if c1 then (true, _) else (false, wtx x)) with (c1, m1) by (subst m1; by destruct c1).
  assert (mt_tx m1 = mt_tx (wtx x) /\ (c1 = false -> m1 = wtx x) /\ (hashBlock (wtx xIn) <> 0 -> hashBlock m1 = hashBlock (wtx xIn)))
    as (E1 & F1 & K1).
  { subst m1 c1. destruct (Z.eqb_spec (hashBlock (wtx xIn)) 0), (Z.eqb_spec (hashBlock (wtx xIn)) (hashBlock (wtx x))); cbn; done. }
  set (c2 := negb (nIndex (wtx xIn) =? -1) && _).
  set (m2 := if c2 then mk_mtx (mt_tx m1) (hashBlock m1) (vMerkleBranch (wtx xIn)) (nIndex (wtx xIn)) (fMerkleVerified m1) else m1).
  replace (if c2 then (true, _) else (false, m1)) with (c2, m2) by (subst m2; by destruct c2).
  assert (mt_tx m2 = mt_tx m1 /\ (c2 = false -> m2 = m1) /\ hashBlock m2 = hashBlock m1) as (E2 & F2 & K2)
    by (subst m2; destruct c2; done).
  set (c3 := fFromMe xIn && _).
  replace (if c3 then (true, _) else (false, with_wtx m2 x)) with (c3, if c3 then with_fromMe (fFromMe xIn) (with_wtx m2 x) else with_wtx m2 x)
    by (by destruct c3).
  set (x3 := if c3 then _ else _).
  assert (wtx x3 = m2 /\ vfSpent x3 = vfSpent x /\ (c3 = false -> x3 = with_wtx m2 x)) as (E3 & G3 & F3) by (subst x3; destruct c3; done).
  unfold UpdateSpent. destruct (merge_spent (vfSpent xIn) (vfSpent x3)) as [vf up] eqn:Hms.
  pose proof (merge_spent_flags (vfSpent xIn) (vfSpent x3)) as Hfl. rewrite Hms in Hfl. cbn [fst] in Hfl.
  pose proof (merge_spent_same (vfSpent xIn) (vfSpent x3)) as Hsame. rewrite Hms in Hsame. cbn [fst snd] in Hsame.
  split; [unfold tx_of; cbn; congruence|]. split; [|split].
  - intros n Hn. unfold flag in *. cbn [with_spent vfSpent]. rewrite Hfl, G3, Hn. done.
  - intros Hup. apply orb_false_iff in Hup as [Hup H4]. apply orb_false_iff in Hup as [Hup H3]. apply orb_false_iff in Hup as [H1 H2].
    rewrite Hsame, H4, G3 by done. rewrite F3 by done. rewrite F2, F1 by done. done.
  - intros H0. cbn. rewrite E3, K2. by apply K1.
Qed.

Definition inputs_ok (t : CTransaction) : Prop := Forall (fun i => 0 <= out_n (prevout i)) (vin t).

Lemma AddToWallet_spec xIn w b w' hash :
  wallet_ok w -> (forall h x, mapWallet w !! h = Some x -> inputs_ok (tx_of x)) -> inputs_ok (tx_of xIn) ->
  Tx.GetHash (tx_of xIn) = Some hash ->
  AddToWallet fTestNet I nCoinbaseMaturity nNow draw nKeysArg nTime xIn w = Some (b, w') ->
  b = true /\ wallet_ok w' /\ extends w w' /\
  (forall h, is_Some (mapWallet w' !! h) <-> h = hash \/ is_Some (mapWallet w !! h)) /\
  exists x, mapWallet w' !! hash = Some x /\
    (mapWallet w !! hash = None -> tx_of x = tx_of xIn) /\ Forall (coin_spent w') (vin (tx_of x)).
Proof.
  intros [Hf Hm] Hins HinsIn Hhash. unfold AddToWallet. rewrite Hhash. cbn [mbind option_bind].
  set (r := match mapWallet w !! hash with None => _ | Some x => _ end).
  assert (exists fNew up x, r = (fNew, up, x) /\ Tx.GetHash (tx_of x) = Some hash /\ inputs_ok (tx_of x) /\
    (mapWallet w !! hash = None -> tx_of x = tx_of xIn) /\
    wallet_ok (put hash x (fNew || up) false w) /\ extends w (put hash x (fNew || up) false w)) as
    (fNew & up & x & -> & Hhx & Hix & Htx & Hok & Hext).
  { subst r. destruct (mapWallet w !! hash) as [x0|] eqn:Hx0.
    - pose proof (merge_tx_spec xIn (BindWallet x0)) as Hms. destruct (merge_tx xIn (BindWallet x0)) as [up x].
      destruct Hms as (Et & Hfl & Hper & _). change (tx_of (BindWallet x0)) with (tx_of x0) in Et.
      exists false, up, x. split; [done|]. rewrite Et. split; [by apply Hf|]. split; [by apply (Hins hash)|]. split; [done|]. split.
      + split; [apply filed_put; [done|]; rewrite Et; by apply Hf|]. apply mirrored_put; [done|].
        destruct up; [by left|]. right. exists x0. split; [done|]. by rewrite Hper.
      + apply extends_put. intros y Hy. rewrite Hx0 in Hy. injection Hy as <-. split; [done|]. intros n _. apply Hfl.
    - exists true, false, (with_received nNow (BindWallet xIn)). split; [done|]. split; [done|]. split; [done|]. split; [done|]. split.
      + split; [by apply filed_put|]. apply mirrored_put; [done|by left].
      + apply extends_put. intros y Hy. by rewrite Hx0 in Hy. }
  destruct (foldl (replace_default _ _ _ _ _) _ _) as [w2|] eqn:Hrep; [|done]. cbn [mbind option_bind].
  apply replace_all_txs in Hrep as [Hm2 Hf2].
  destruct (WalletUpdateSpent _ _ _ _ _) as [w3|] eqn:Hup; [|done]. cbn [mbind option_bind]. intros [= <- <-].
  assert (wallet_ok (UpdatedTransaction hash w2)) as Hok2.
  { destruct Hok as [Ha Hb]. split; intros h y; cbn [UpdatedTransaction set_txs mapWallet file_tx]; rewrite Hm2, ?Hf2; [apply Ha|apply Hb]. }
  destruct (update_all_spec (vin (tx_of x)) _ _ Hok2 Hix Hup) as (Hok3 & Hext3 & Hst3 & Hdom3 & Hsp).
  assert (extends w w3) as He.
  { etrans; [exact Hext|]. etrans; [|exact Hext3]. by apply extends_same. }
  assert (mapWallet (UpdatedTransaction hash w2) = <[ hash := x ]> (mapWallet w)) as Hmap by done.
  destruct (Hext3 hash x) as (x3 & Hx3 & Et3 & _); [by rewrite Hmap, lookup_insert_eq|].
  split; [done|]. split; [done|]. split; [done|]. split.
  - intros h. split.
    + intros Hh. apply Hdom3 in Hh. rewrite Hmap in Hh. apply lookup_insert_is_Some in Hh as [->|[_ Hh]]; auto.
    + intros [->|[y Hy]]; [eauto|]. destruct (He _ _ Hy) as (y' & Hy' & _). eauto.
  - exists x3. split; [done|]. rewrite Et3. done.
Qed.

(** C23: Adding a transaction to the wallet: the wallet keeps every transaction under
    its hash with its record in the file, no coin that was known to be spent
    becomes unspent, the transaction is there, with the block it was found in,
    no other transaction is added, and every coin of the wallet that it spends is
    marked as spent. *)
Theorem AddToWallet_keeps xIn w b w' hash :
  wallet_ok w -> (forall h x, mapWallet w !! h = Some x -> inputs_ok (tx_of x)) -> inputs_ok (tx_of xIn) ->
  Tx.GetHash (tx_of xIn) = Some hash ->
  AddToWallet fTestNet I nCoinbaseMaturity nNow draw nKeysArg nTime xIn w = Some (b, w') ->
  b = true /\ wallet_ok w' /\ extends w w' /\
  (forall h, is_Some (mapWallet w' !! h) <-> h = hash \/ is_Some (mapWallet w !! h)) /\
  exists x, mapWallet w' !! hash = Some x /\
    (mapWallet w !! hash = None -> tx_of x = tx_of xIn) /\ Forall (coin_spent w') (vin (tx_of x)).
Proof. apply AddToWallet_spec. Qed.

End adding.

(** ** A concrete wallet *)

Section witnesses.
#[local] Existing Instance bn_reference.
#[local] Existing Instance toy_digests.
#[local] Existing Instance Tx.demo_abi.
#[local] Existing Instance toy_ec.
#[local] Existing Instance toy_group.
#[local] Existing Instance toy_evp.

Definition demo_script : list Z := Script.SetBitcoinAddress false (Hash160 (pub_of (5, true))).

(** A payment to the key of [demo_store], and a transaction that spends it. *)
Definition demo_pay : CTransaction := Tx.demo_tx [mk_txout [] (5 * COIN) demo_script].
Definition demo_pay_hash : Z := Eval vm_compute in default 0 (Tx.GetHash demo_pay).
Definition demo_spend : CTransaction :=
  mk_tx TT_NORMAL 100 [mk_txin (mk_outpoint demo_pay_hash 0) [] Tx.UINT_MAX []] [mk_txout [] (4 * COIN) [81]] 0 Tx.no_mint.
Definition demo_spend_hash : Z := Eval vm_compute in default 0 (Tx.GetHash demo_spend).

Definition demo_entry : CWalletTx := Init (of_tx demo_pay).

Definition demo_w : CWallet :=
  mk_wallet demo_store KeyPool.FEATURE_BASE KeyPool.FEATURE_BASE true ∅ {[ demo_pay_hash := demo_entry ]} [] ∅ ∅ [] {[ demo_pay_hash := demo_entry ]} ∅ 0.

Lemma demo_w_ok : wallet_ok demo_w.
Proof.
  split; intros h x Hx; cbn [demo_w mapWallet file_tx] in *; apply lookup_singleton_Some in Hx as [<- <-].
  - vm_compute. reflexivity.
  - exists demo_entry. split; [apply lookup_singleton_eq|reflexivity].
Qed.

Lemma demo_w_inputs h x : mapWallet demo_w !! h = Some x -> inputs_ok (tx_of x).
Proof.
  intros Hx. cbn [demo_w mapWallet] in Hx. apply lookup_singleton_Some in Hx as [<- <-].
  repeat constructor; vm_compute; discriminate.
Qed.

Definition demo_added : CWallet :=
  match AddToWallet false Ledger.demo_chain 100 50 KeyPool.demo_draw 2 7 (Init (of_tx demo_spend)) demo_w with
  | Some (_, w) => w
  | None => demo_w
  end.

Lemma AddToWallet_keeps_witness :
  AddToWallet false Ledger.demo_chain 100 50 KeyPool.demo_draw 2 7 (Init (of_tx demo_spend)) demo_w = Some (true, demo_added) /\
  wallet_ok demo_added /\
  (exists x, mapWallet demo_added !! demo_spend_hash = Some x /\ Forall (coin_spent false demo_added) (vin (tx_of x))) /\
  flag (default demo_entry (mapWallet demo_added !! demo_pay_hash)) 0 = true.
Proof.
  assert (AddToWallet false Ledger.demo_chain 100 50 KeyPool.demo_draw 2 7 (Init (of_tx demo_spend)) demo_w = Some (true, demo_added))
    as Hadd by (vm_compute; reflexivity).
  split; [exact Hadd|].
  destruct (AddToWallet_keeps false Ledger.demo_chain 100 50 KeyPool.demo_draw 2 7 (Init (of_tx demo_spend)) demo_w true demo_added demo_spend_hash
              demo_w_ok demo_w_inputs ltac:(repeat constructor; vm_compute; discriminate) ltac:(vm_compute; reflexivity) Hadd)
    as (_ & Hok & _ & _ & x & Hx & _ & Hsp).
  split; [exact Hok|]. split; [exists x; split; [exact Hx|exact Hsp]|]. vm_compute. reflexivity.
Defined.

(** The same coin in a database that knows it as spent. *)
Definition demo_spent_db : CTxDB := mk_txdb {[ demo_pay_hash := mk_txindex (mk_pos 1 0 100) [mk_pos 1 300 400] ]} ∅ None.

Lemma FixSpentCoins_repairs_witness :
  exists nm nb w' w'', FixSpentCoins false demo_spent_db false demo_w = Some (nm, nb, w') /\
    (forall h, is_Some (mapWallet w' !! h) <-> is_Some (mapWallet demo_w !! h)) /\
    (forall h x, mapWallet demo_w !! h = Some x -> exists x', mapWallet w' !! h = Some x' /\ repaired false demo_spent_db demo_w h x x') /\
    FixSpentCoins false demo_spent_db true w' = Some (0, 0, w'').
Proof. apply (FixSpentCoins_repairs false demo_spent_db demo_w). exact (ok_filed _ demo_w_ok). Defined.

Example demo_fix_counts :
  match FixSpentCoins false demo_spent_db false demo_w with Some (nm, nb, _) => (nm, nb) = (1, 5 * COIN) | None => False end.
Proof. vm_compute. reflexivity. Qed.

(** The cached debit is not refreshed when the transaction that is spent enters
    the wallet later: a transaction first seen without it keeps a debit of 0. *)
Definition demo_late : CWallet :=
  let w := mk_wallet demo_store KeyPool.FEATURE_BASE KeyPool.FEATURE_BASE true ∅ {[ demo_spend_hash := Init (of_tx demo_spend) ]} [] ∅ ∅ [] ∅ ∅ 0 in
  match GetDebit false w (Init (of_tx demo_spend)) with
  | Some (_, x) =>
      match AddToWallet false Ledger.demo_chain 100 50 KeyPool.demo_draw 2 7 demo_entry (put demo_spend_hash x false false w) with
      | Some (_, w) => w
      | None => demo_w
      end
  | None => demo_w
  end.

Theorem debit_cache_stale :
  match mapWallet demo_late !! demo_spend_hash with
  | Some x => fst <$> GetDebit false demo_late x = Some 0 /\ GetDebit_tx false demo_late (tx_of x) = Some (5 * COIN)
  | None => False
  end.
Proof. vm_compute. split; reflexivity. Qed.

End witnesses.
End WalletOps.
