(* ===== verification/WalletCache.v ===== *)
(** * The cached amounts of the wallet (src/src/wallet.h, src/src/wallet.cpp)

    CWalletTx caches debit, credit and available credit, and CMerkleTx remembers
    that its branch was checked.  The theorem says that the balances do not
    depend on what is cached, as long as what is cached is right, and that
    computing a balance and marking coins keep it right.  The proof is a
    simulation between a wallet and the same wallet with nothing cached. *)

From stdpp Require Import gmap sorting.
From S2P Require Import Prelude Containers Uint256 Bignum Crypto Script Serialize Tx Base58 Signature Key Solver KeyStore Work Block BlockIndex Kernel Coins Ledger MerkleTx Wallet KeyPool WalletOps.
Import BlockIndex Ledger MerkleTx KeyStores Wallet WalletOps.

Module WalletCache.

(** Two results agree: both are exceptions, or the values are equal and the
    objects related. *)
Definition agree {A X Y : Type} (R : X -> Y -> Prop) (r : option (A * X)) (r' : option (A * Y)) : Prop :=
  match r, r' with
  | Some (a, x), Some (a', x') => a = a' /\ R x x'
  | None, None => True
  | _, _ => False
  end.

Lemma agree_bind {A B X Y X' Y' : Type} (R : X -> Y -> Prop) (R' : X' -> Y' -> Prop)
    (r : option (A * X)) r' (f : A * X -> option (B * X')) (g : A * Y -> option (B * Y')) :
  agree R r r' -> (forall a x y, R x y -> agree R' (f (a, x)) (g (a, y))) -> agree R' (r ≫= f) (r' ≫= g).
Proof.
  intros Hr Hf. destruct r as [[a x]|], r' as [[a' y]|]; simpl in Hr; try done. destruct Hr as [<- Hxy]. by apply Hf.
Qed.

Lemma agree_impl {A X Y : Type} (R R' : X -> Y -> Prop) (r : option (A * X)) r' :
  agree R r r' -> (forall x y, R x y -> R' x y) -> agree R' r r'.
Proof. intros Hr HR. destruct r as [[a x]|], r' as [[a' y]|]; simpl in *; naive_solver. Qed.

Section caches.
Context {B : Tx.Abi} {L : BNLib} {D : DigestLib} {E : ECLib} {G : ECGroup E} {V : EVPLib} (fTestNet : bool).
Context (I : index) (nCoinbaseMaturity nBestHeight nNow : Z) (fuel : nat).

(** The flag of a merkle branch is right. *)
Definition flag_ok (m : CMerkleTx) : Prop :=
  fMerkleVerified m = true -> exists h, Tx.GetHash (mt_tx m) = Some h /\
    forall n, mapBlockIndex I !! hashBlock m = Some n ->
      Block.CheckMerkleBranch h (vMerkleBranch m) (nIndex m) = bi_hashMerkleRoot (entry n).

(** What is cached in an entry is right. *)
Record cache_ok (w : CWallet) (x : CWalletTx) : Prop := {
  ok_debit : forall v, debitCached x = Some v -> GetDebit_tx fTestNet w (tx_of x) = Some v;
  ok_credit : forall v, creditCached x = Some v -> GetCredit_tx fTestNet w (tx_of x) = Some v;
  ok_available : forall v, availableCached x = Some v -> available fTestNet w x = Some v;
  ok_flag : flag_ok (wtx x);
  ok_prevs : Forall flag_ok (vtxPrev x)
}.

Definition msim (m m' : CMerkleTx) : Prop := persist_mtx m = persist_mtx m' /\ flag_ok m /\ flag_ok m'.

(** Two states of one entry, [p] without what is cached. *)
Context (p : CWalletTx).

Record xsim (w : CWallet) (x y : CWalletTx) : Prop := {
  xs_at : persist x = p;
  xs_persist : persist x = persist y;
  xs_l : cache_ok w x;
  xs_r : cache_ok w y
}.

Lemma persist_mtx_eq m m' : persist_mtx m = persist_mtx m' ->
  mt_tx m = mt_tx m' /\ hashBlock m = hashBlock m' /\ vMerkleBranch m = vMerkleBranch m' /\ nIndex m = nIndex m'.
Proof. intros H. by injection H. Qed.

Lemma persist_eq x y : persist x = persist y ->
  persist_mtx (wtx x) = persist_mtx (wtx y) /\ tx_of x = tx_of y /\ vfSpent x = vfSpent y /\ persist_mtx <$> vtxPrev x = persist_mtx <$> vtxPrev y.
Proof.
  intros H. split; [exact (f_equal wtx H)|]. split; [by apply persist_tx|].
  split; [exact (f_equal vfSpent H)|exact (f_equal vtxPrev H)].
Qed.

Lemma depth_sim m m' : msim m m' -> agree (fun a b => msim a b /\ persist_mtx a = persist_mtx m) (GetDepthInMainChain I m) (GetDepthInMainChain I m').
Proof.
  intros (Hp & Hf & Hf'). destruct (persist_mtx_eq _ _ Hp) as (E1 & E2 & E3 & E4).
  unfold GetDepthInMainChain. rewrite <- E2, <- E4.
  destruct (_ || _); [by repeat split|].
  destruct (mapBlockIndex I !! hashBlock m) as [n|] eqn:Hn; [|by repeat split].
  destruct (negb _); [by repeat split|].
  assert (forall h, Tx.GetHash (mt_tx m) = Some h ->
    Block.CheckMerkleBranch h (vMerkleBranch m) (nIndex m) = bi_hashMerkleRoot (entry n) ->
    flag_ok (mk_mtx (mt_tx m) (hashBlock m) (vMerkleBranch m) (nIndex m) true)) as Hset.
  { intros h Hh Hc _. exists h. split; [done|]. simpl. intros n' Hn'. rewrite Hn in Hn'. by injection Hn' as <-. }
  assert (forall k, fMerkleVerified k = true -> flag_ok k -> mt_tx k = mt_tx m -> hashBlock k = hashBlock m ->
    vMerkleBranch k = vMerkleBranch m -> nIndex k = nIndex m ->
    exists h, Tx.GetHash (mt_tx m) = Some h /\ Block.CheckMerkleBranch h (vMerkleBranch m) (nIndex m) = bi_hashMerkleRoot (entry n)) as Hget.
  { intros k Hv Hk K1 K2 K3 K4. destruct (Hk Hv) as (h & Hh & Hc). rewrite K1 in Hh. rewrite K2, K3, K4 in Hc. eauto. }
  assert (exists ok, (if fMerkleVerified m then Some true else h ← Tx.GetHash (mt_tx m);
            Some (Block.CheckMerkleBranch h (vMerkleBranch m) (nIndex m) =? bi_hashMerkleRoot (entry n))) = ok /\
          (if fMerkleVerified m' then Some true else h ← Tx.GetHash (mt_tx m');
            Some (Block.CheckMerkleBranch h (vMerkleBranch m') (nIndex m) =? bi_hashMerkleRoot (entry n))) = ok /\
          (ok = Some true -> flag_ok (mk_mtx (mt_tx m) (hashBlock m) (vMerkleBranch m) (nIndex m) true))) as (ok & -> & -> & Hok).
  { rewrite <- E1, <- E3. destruct (fMerkleVerified m) eqn:Hv.
    - destruct (Hget m Hv Hf) as (h & Hh & Hc); try done. exists (Some true). split; [done|]. split.
      + destruct (fMerkleVerified m'); [done|]. rewrite Hh. simpl. by rewrite Hc, Z.eqb_refl.
      + intros _. by apply (Hset h).
    - destruct (fMerkleVerified m') eqn:Hv'.
      + destruct (Hget m' Hv' Hf') as (h & Hh & Hc); try done. exists (Some true). rewrite Hh. simpl. rewrite Hc, Z.eqb_refl.
        split; [done|]. split; [done|]. intros _. by apply (Hset h).
      + destruct (Tx.GetHash (mt_tx m)) as [h|]; simpl; [|exists None; done].
        eexists. split; [done|]. split; [done|]. intros [= Hc]. apply Z.eqb_eq in Hc. by apply (Hset h). }
  destruct ok as [ok|]; cbn [mbind option_bind]; [|done].
  destruct ok; cbn [negb]; [|by repeat split].
  destruct (deref I (pindexBest I)) as [best|]; cbn [mbind option_bind]; [|done].
  split; [done|]. specialize (Hok eq_refl). rewrite <- E1, <- E3. repeat split; done.
Qed.

Lemma maturity_sim m m' : msim m m' ->
  agree (fun a b => msim a b /\ persist_mtx a = persist_mtx m) (GetBlocksToMaturity nCoinbaseMaturity I m) (GetBlocksToMaturity nCoinbaseMaturity I m').
Proof.
  intros Hm. unfold GetBlocksToMaturity. rewrite <- (proj1 (persist_mtx_eq _ _ (proj1 Hm))). destruct (negb _); [by split|].
  eapply agree_bind; [by apply depth_sim|]. intros a x y Hxy. by split.
Qed.

(** *** Entries *)

Lemma xsim_msim w x y : xsim w x y -> msim (wtx x) (wtx y).
Proof. intros [_ Hp Hx Hy]. split; [by apply persist_eq|]. split; [apply (ok_flag _ _ Hx)|apply (ok_flag _ _ Hy)]. Qed.

Lemma available_ext w x y : tx_of x = tx_of y -> vfSpent x = vfSpent y -> available fTestNet w x = available fTestNet w y.
Proof. unfold available. by intros -> ->. Qed.

Lemma cache_ok_wtx w x m : cache_ok w x -> flag_ok m -> mt_tx m = mt_tx (wtx x) -> cache_ok w (with_wtx m x).
Proof.
  intros [H1 H2 H3 H4 H5] Hm Et. assert (tx_of (with_wtx m x) = tx_of x) as Etx by done.
  split; cbn [with_wtx debitCached creditCached availableCached wtx vtxPrev]; rewrite ?Etx; try done.
  intros v Hv. rewrite (available_ext w (with_wtx m x) x); [by apply H3|done|done].
Qed.

Lemma xsim_wtx w x y m m' : xsim w x y -> msim m m' -> persist_mtx m = persist_mtx (wtx x) -> xsim w (with_wtx m x) (with_wtx m' y).
Proof.
  intros Hs (Hp & Hm & Hm') Hmx. pose proof (xs_persist _ _ _ Hs) as Hxy. destruct (persist_eq _ _ Hxy) as (Hw & _).
  assert (persist_mtx m' = persist_mtx (wtx y)) as Hmy by congruence.
  split.
  - rewrite persist_with_wtx by done. apply (xs_at _ _ _ Hs).
  - by rewrite !persist_with_wtx.
  - apply cache_ok_wtx; [apply (xs_l _ _ _ Hs)|done|by apply persist_mtx_eq in Hmx as [-> _]].
  - apply cache_ok_wtx; [apply (xs_r _ _ _ Hs)|done|by apply persist_mtx_eq in Hmy as [-> _]].
Qed.

Lemma xsim_tx w x y : xsim w x y -> tx_of x = tx_of y.
Proof. intros Hs. apply (persist_eq _ _ (xs_persist _ _ _ Hs)). Qed.

Lemma immature_sim w x y : xsim w x y -> agree (xsim w) (immature I nCoinbaseMaturity x) (immature I nCoinbaseMaturity y).
Proof.
  intros Hs. unfold immature. rewrite <- (xsim_tx _ _ _ Hs). destruct (generated _); [|by split].
  eapply agree_bind; [by apply maturity_sim, (xsim_msim w)|]. intros a m m' [Hm Hp]. split; [done|]. by apply xsim_wtx.
Qed.

(** Filling a cache with the right amount. *)
Lemma cache_ok_fill w x d c a g :
  cache_ok w x ->
  (forall v, d = Some v -> GetDebit_tx fTestNet w (tx_of x) = Some v) -> (forall v, c = Some v -> GetCredit_tx fTestNet w (tx_of x) = Some v) ->
  (forall v, a = Some v -> available fTestNet w x = Some v) -> cache_ok w (with_caches d c a g x).
Proof. intros [H1 H2 H3 H4 H5] Hd Hc Ha. by split. Qed.

(** The pattern of a cached method: the cached amount, or compute and fill. *)
Lemma cached_agree w x y (get : CWalletTx -> option Z) (comp : CWalletTx -> option Z) (fill : Z -> CWalletTx -> CWalletTx) :
  xsim w x y -> comp x = comp y ->
  (forall z, cache_ok w z -> forall v, get z = Some v -> comp z = Some v) ->
  (forall z v, cache_ok w z -> comp z = Some v -> cache_ok w (fill v z)) -> (forall z v, persist (fill v z) = persist z) ->
  agree (xsim w) (match get x with Some v => Some (v, x) | None => v ← comp x; Some (v, fill v x) end)
                 (match get y with Some v => Some (v, y) | None => v ← comp y; Some (v, fill v y) end).
Proof.
  intros [Ha Hp Hx Hy] Hc Hget Hfill Hper. pose proof (Hget x Hx) as Gx. pose proof (Hget y Hy) as Gy.
  destruct (get x) as [v|], (get y) as [v'|].
  - specialize (Gx v eq_refl). specialize (Gy v' eq_refl). simpl. split; [congruence|done].
  - specialize (Gx v eq_refl). rewrite <- Hc, Gx. cbn [mbind option_bind]. split; [done|].
    split; [done|by rewrite Hper|done|]. apply Hfill; [done|congruence].
  - specialize (Gy v' eq_refl). rewrite Hc, Gy. cbn [mbind option_bind]. split; [done|].
    split; [by rewrite Hper|by rewrite Hper| |done]. apply Hfill; [done|congruence].
  - rewrite <- Hc. destruct (comp x) as [v|] eqn:Ev; cbn [mbind option_bind]; [|done]. split; [done|].
    split; [by rewrite Hper|by rewrite !Hper| |]; (apply Hfill; [done|congruence]).
Qed.

Lemma GetDebit_sim w x y : xsim w x y -> agree (xsim w) (GetDebit fTestNet w x) (GetDebit fTestNet w y).
Proof.
  intros Hs. pose proof (xsim_tx _ _ _ Hs) as Et. unfold GetDebit.
  destruct (bool_decide (vin (tx_of x) = [])) eqn:Hb; rewrite Et in Hb; rewrite Hb; [by split|].
  apply (cached_agree w x y debitCached (fun z => GetDebit_tx fTestNet w (tx_of z))
           (fun v z => with_caches (Some v) (creditCached z) (availableCached z) (changeCached z) z)); try done.
  - by rewrite Et.
  - intros z Hz. apply Hz.
  - intros z v Hz Hv. apply cache_ok_fill; [done|by intros ? [= <-]|apply Hz|apply Hz].
Qed.

Lemma IsFromMe_sim w x y : xsim w x y -> agree (xsim w) (IsFromMe fTestNet w x) (IsFromMe fTestNet w y).
Proof. intros Hs. unfold IsFromMe. eapply agree_bind; [by apply GetDebit_sim|]. by intros a x' y' H. Qed.

Lemma GetAvailableCredit_sim w x y :
  xsim w x y -> agree (xsim w) (GetAvailableCredit fTestNet w I nCoinbaseMaturity true x) (GetAvailableCredit fTestNet w I nCoinbaseMaturity true y).
Proof.
  intros Hs. unfold GetAvailableCredit. eapply agree_bind; [by apply immature_sim|]. intros im x' y' Hs'. cbn beta iota.
  destruct im; [by split|].
  apply (cached_agree w x' y' availableCached (available fTestNet w)
           (fun v z => with_caches (debitCached z) (creditCached z) (Some v) (changeCached z) z)); try done.
  - destruct (persist_eq _ _ (xs_persist _ _ _ Hs')) as (_ & Et & Ev & _). by apply available_ext.
  - intros z Hz. apply Hz.
  - intros z v Hz Hv. apply cache_ok_fill; [done|apply Hz|apply Hz|by intros ? [= <-]].
Qed.

(** *** IsConfirmed *)

Lemma prevs_length w x y : xsim w x y -> length (vtxPrev x) = length (vtxPrev y).
Proof.
  intros Hs. destruct (persist_eq _ _ (xs_persist _ _ _ Hs)) as (_ & _ & _ & H). apply (f_equal length) in H. by rewrite !length_fmap in H.
Qed.

Lemma at_ptr_sim w x y q : xsim w x y ->
  match at_ptr x q, at_ptr y q with Some m, Some m' => msim m m' | None, None => True | _, _ => False end.
Proof.
  intros Hs. destruct q as [k|]; simpl; [|by apply (xsim_msim w)].
  destruct (persist_eq _ _ (xs_persist _ _ _ Hs)) as (_ & _ & _ & H). apply (f_equal (lookup k)) in H. rewrite !list_lookup_fmap in H.
  destruct (vtxPrev x !! k) as [m|] eqn:Hm, (vtxPrev y !! k) as [m'|] eqn:Hm'; simpl in H; try done. injection H as Hp. split; [by unfold persist_mtx; f_equal|].
  pose proof (ok_prevs _ _ (xs_l _ _ _ Hs)) as Hx. pose proof (ok_prevs _ _ (xs_r _ _ _ Hs)) as Hy.
  rewrite Forall_lookup in Hx, Hy. split; [by apply (Hx k)|by apply (Hy k)].
Qed.

Lemma put_ptr_sim w x y q m m' n :
  xsim w x y -> at_ptr x q = Some n -> msim m m' -> persist_mtx m = persist_mtx n -> xsim w (put_ptr q m x) (put_ptr q m' y).
Proof.
  intros Hs Hq Hm Hp. destruct q as [k|]; simpl in *; [|injection Hq as <-; by apply xsim_wtx].
  destruct (persist_eq _ _ (xs_persist _ _ _ Hs)) as (Hw & Et & Ev & Hl). destruct Hm as (Hmm & Hf & Hf').
  assert (persist_mtx <$> <[ k := m ]> (vtxPrev x) = persist_mtx <$> vtxPrev x) as Hx.
  { rewrite list_fmap_insert. apply list_insert_id. by rewrite list_lookup_fmap, Hq, Hp. }
  assert (persist_mtx <$> <[ k := m' ]> (vtxPrev y) = persist_mtx <$> vtxPrev y) as Hy.
  { rewrite list_fmap_insert. apply list_insert_id. rewrite <- Hl, list_lookup_fmap, Hq. simpl. by rewrite <- Hmm, Hp. }
  destruct Hs as [Ha Hxy Cx Cy]. split.
  - rewrite <- Ha. unfold persist. cbn. by rewrite Hx.
  - apply (f_equal (with_prevs (persist_mtx <$> vtxPrev x))) in Hxy. unfold persist in *. cbn in *. rewrite Hx, Hy, Hl. 
    rewrite Hl in Hxy. exact Hxy.
  - destruct Cx as [H1 H2 H3 H4 H5]. split; try done. simpl. by apply Forall_insert.
  - destruct Cy as [H1 H2 H3 H4 H5]. split; try done. simpl. by apply Forall_insert.
Qed.

Lemma map_prev_sim w x y : xsim w x y -> map_prev x = map_prev y.
Proof.
  intros Hs. destruct (persist_eq _ _ (xs_persist _ _ _ Hs)) as (_ & _ & _ & Hl). unfold map_prev.
  assert (forall l, mapM (fun m => Tx.GetHash (mt_tx m)) l = mapM (fun m => Tx.GetHash (mt_tx m)) (persist_mtx <$> l)) as Hfm.
  { induction l as [|m l IH]; [done|]. cbn [mapM fmap list_fmap]. cbn [mt_tx persist_mtx]. by rewrite IH. }
  by rewrite Hfm, Hl, <- Hfm.
Qed.

Definition agree2 w (r r' : option (option (bool * CWalletTx))) : Prop :=
  match r, r' with Some a, Some b => agree (xsim w) a b | None, None => True | _, _ => False end.

Lemma confirm_loop_sim w n : forall queue x y, xsim w x y ->
  agree2 w (confirm_loop fTestNet w I nBestHeight nNow n queue x) (confirm_loop fTestNet w I nBestHeight nNow n queue y).
Proof.
  induction n as [|n IH]; intros [|q queue] x y Hs; cbn [confirm_loop]; try done.
  pose proof (at_ptr_sim w x y q Hs) as Hq. destruct (at_ptr x q) as [m|] eqn:Hm, (at_ptr y q) as [m'|] eqn:Hm'; try done.
  pose proof (persist_mtx_eq _ _ (proj1 Hq)) as (Et & _). rewrite <- Et.
  destruct (negb _); [by split|]. pose proof (depth_sim m m' Hq) as Hd.
  destruct (GetDepthInMainChain I m) as [[d k]|], (GetDepthInMainChain I m') as [[d' k']|]; simpl in Hd; try done.
  destruct Hd as [<- [Hk Hp]].
  assert (xsim w (put_ptr q k x) (put_ptr q k' y)) as Hs' by (by apply (put_ptr_sim w x y q k k' m)).
  destruct (1 <=? d); [by apply IH|].
  rewrite <- (map_prev_sim w _ _ Hs').
  destruct (IsFromMe_tx fTestNet w (mt_tx m)) as [fm|]; [|done]. destruct (map_prev (put_ptr q k x)) as [mp|]; [|done].
  destruct (negb fm); [by split|]. destruct (mapM _ _) as [ks|]; [by apply IH|by split].
Qed.

Lemma IsConfirmed_sim w x y :
  xsim w x y -> agree (xsim w) (IsConfirmed fTestNet w I nBestHeight nNow fuel x) (IsConfirmed fTestNet w I nBestHeight nNow fuel y).
Proof.
  intros Hs. unfold IsConfirmed. rewrite <- (xsim_tx _ _ _ Hs). destruct (negb _); [by split|].
  eapply agree_bind; [by apply depth_sim, (xsim_msim w)|]. intros d m m' [Hm Hp]. cbn beta iota.
  assert (xsim w (with_wtx m x) (with_wtx m' y)) as Hs' by (by apply xsim_wtx).
  destruct (1 <=? d); [by split|]. eapply agree_bind; [by apply IsFromMe_sim|]. intros fm x' y' Hs2. cbn beta iota.
  destruct (negb fm); [by split|]. pose proof (confirm_loop_sim w fuel [None] x' y' Hs2) as Hc. unfold agree2 in Hc.
  destruct (confirm_loop _ _ _ _ _ _ _ x') as [r|], (confirm_loop _ _ _ _ _ _ _ y') as [r'|]; done.
Qed.

(** *** The summands of the balances *)

Lemma confirmed_sim w x y :
  xsim w x y -> agree (xsim w) (confirmed fTestNet I nBestHeight nNow fuel w x) (confirmed fTestNet I nBestHeight nNow fuel w y).
Proof. intros Hs. unfold confirmed. rewrite <- (xsim_tx _ _ _ Hs). destruct (negb _); [by split|]. by apply IsConfirmed_sim. Qed.

Lemma balance_of_sim w x y : xsim w x y ->
  agree (xsim w) (balance_of fTestNet I nCoinbaseMaturity nBestHeight nNow fuel w x) (balance_of fTestNet I nCoinbaseMaturity nBestHeight nNow fuel w y).
Proof.
  intros Hs. unfold balance_of. eapply agree_bind; [by apply confirmed_sim|]. intros c x' y' Hs'. cbn beta iota.
  destruct (negb c); [by split|]. by apply GetAvailableCredit_sim.
Qed.

Lemma unconfirmed_of_sim w x y : xsim w x y ->
  agree (xsim w) (unconfirmed_of fTestNet I nCoinbaseMaturity nBestHeight nNow fuel w x)
    (unconfirmed_of fTestNet I nCoinbaseMaturity nBestHeight nNow fuel w y).
Proof.
  intros Hs. unfold unconfirmed_of. eapply agree_bind; [by apply confirmed_sim|]. intros c x' y' Hs'. cbn beta iota.
  destruct c; [by split|]. by apply GetAvailableCredit_sim.
Qed.

Lemma growing_of_sim kind w x y : xsim w x y ->
  agree (xsim w) (growing_of fTestNet I nCoinbaseMaturity kind w x) (growing_of fTestNet I nCoinbaseMaturity kind w y).
Proof.
  intros Hs. unfold growing_of. rewrite <- (xsim_tx _ _ _ Hs). destruct (negb _); [by split|].
  eapply agree_bind; [by apply maturity_sim, (xsim_msim w)|]. intros n m m' [Hm Hp]. cbn beta iota.
  assert (xsim w (with_wtx m x) (with_wtx m' y)) as Hs' by (by apply xsim_wtx).
  destruct (negb _); [by split|]. eapply agree_bind; [by apply depth_sim, (xsim_msim w)|]. intros d k k' [Hk Hp']. cbn beta iota.
  assert (xsim w (with_wtx k (with_wtx m x)) (with_wtx k' (with_wtx m' y))) as Hs2 by (by apply xsim_wtx).
  destruct (negb _); [by split|]. rewrite <- (xsim_tx _ _ _ Hs2).
  destruct (GetCredit_tx _ _ _); cbn [mbind option_bind]; [by split|done].
Qed.

End caches.

(** ** Wallets *)

Section wallets.
Context {B : Tx.Abi} {L : BNLib} {D : DigestLib} {E : ECLib} {G : ECGroup E} {V : EVPLib} (fTestNet : bool).
Context (I : index) (nCoinbaseMaturity nBestHeight nNow : Z) (fuel : nat).

(** What the amounts depend on: the keys and scripts, and the transactions. *)
Definition same_view (w v : CWallet) : Prop :=
  store w = store v /\ forall h, tx_of <$> mapWallet w !! h = tx_of <$> mapWallet v !! h.

Lemma spent_output_view w v i : same_view w v -> spent_output w i = spent_output v i.
Proof.
  intros [_ Hv]. unfold spent_output. specialize (Hv (prevhash (prevout i))).
  destruct (mapWallet w !! _) as [x|], (mapWallet v !! _) as [y|]; simpl in *; try done. by injection Hv as ->.
Qed.

Lemma IsMine_view w v o : same_view w v -> IsMine_out fTestNet w o = IsMine_out fTestNet v o.
Proof. intros [Hs _]. unfold IsMine_out, IsMine_script. by rewrite Hs. Qed.

Lemma GetDebit_tx_view w v t : same_view w v -> GetDebit_tx fTestNet w t = GetDebit_tx fTestNet v t.
Proof.
  intros Hv. unfold GetDebit_tx. generalize (Some 0). induction (vin t) as [|i l IH]; intros acc; cbn [foldl]; [done|].
  rewrite IH. do 3 f_equal. unfold GetDebit_in. rewrite (spent_output_view w v) by done. destruct (spent_output v i); [|done].
  by rewrite (IsMine_view w v).
Qed.

Lemma GetCredit_out_view w v o : same_view w v -> GetCredit_out fTestNet w o = GetCredit_out fTestNet v o.
Proof. intros Hv. unfold GetCredit_out. by rewrite (IsMine_view w v). Qed.

Lemma GetCredit_tx_view w v t : same_view w v -> GetCredit_tx fTestNet w t = GetCredit_tx fTestNet v t.
Proof.
  intros Hv. unfold GetCredit_tx. generalize (Some 0). induction (vout t) as [|o l IH]; intros acc; cbn [foldl]; [done|].
  by rewrite IH, (GetCredit_out_view w v).
Qed.

Lemma available_view w v x : same_view w v -> available fTestNet w x = available fTestNet v x.
Proof.
  intros Hv. unfold available. generalize (Some 0), (vfSpent x). induction (vout (tx_of x)) as [|o l IH]; intros acc vf; cbn [unspent_credit]; [done|].
  by rewrite IH, (GetCredit_out_view w v).
Qed.

Lemma cache_ok_view w v x : same_view w v -> cache_ok fTestNet I w x -> cache_ok fTestNet I v x.
Proof.
  intros Hv [H1 H2 H3 H4 H5]. split; try done; intros a Ha.
  - rewrite <- (GetDebit_tx_view w v) by done. by apply H1.
  - rewrite <- (GetCredit_tx_view w v) by done. by apply H2.
  - rewrite <- (available_view w v) by done. by apply H3.
Qed.

Lemma GetDebit_view w v x : same_view w v -> GetDebit fTestNet w x = GetDebit fTestNet v x.
Proof. intros Hv. unfold GetDebit. by rewrite (GetDebit_tx_view w v). Qed.

Lemma confirm_loop_view w v n : same_view w v -> forall queue x,
  confirm_loop fTestNet w I nBestHeight nNow n queue x = confirm_loop fTestNet v I nBestHeight nNow n queue x.
Proof.
  intros Hv. induction n as [|n IH]; intros [|q queue] x; cbn [confirm_loop]; try done.
  destruct (at_ptr x q) as [m|]; [|done]. destruct (negb _); [done|]. destruct (GetDepthInMainChain I m) as [[d k]|]; [|done].
  cbv zeta. rewrite IH. unfold IsFromMe_tx. rewrite (GetDebit_tx_view w v) by done. destruct (1 <=? d); [done|].
  destruct (d ← GetDebit_tx _ _ _; _); [|done]. destruct (map_prev _); [|done]. destruct (negb _); [done|]. by destruct (mapM _ _).
Qed.

Lemma confirmed_view w v x : same_view w v ->
  confirmed fTestNet I nBestHeight nNow fuel w x = confirmed fTestNet I nBestHeight nNow fuel v x.
Proof.
  intros Hv. unfold confirmed, IsConfirmed. destruct (negb _); [done|].
  destruct (GetDepthInMainChain I (wtx x)) as [[d m]|]; cbn [mbind option_bind]; [|done]. destruct (1 <=? d); [done|].
  unfold IsFromMe. rewrite (GetDebit_view w v) by done. destruct (GetDebit _ _ _) as [[a y]|]; cbn [mbind option_bind]; [|done].
  by rewrite (confirm_loop_view w v).
Qed.

Lemma GetAvailableCredit_view w v c x : same_view w v ->
  GetAvailableCredit fTestNet w I nCoinbaseMaturity c x = GetAvailableCredit fTestNet v I nCoinbaseMaturity c x.
Proof.
  intros Hv. unfold GetAvailableCredit. destruct (immature _ _ x) as [[im y]|]; cbn [mbind option_bind]; [|done].
  by rewrite (available_view w v).
Qed.

(** A summand of a balance: it depends on the view only, and is simulated. *)
Record summand {A : Type} (f : CWallet -> CWalletTx -> option (A * CWalletTx)) : Prop := {
  sm_view : forall w v x, same_view w v -> f w x = f v x;
  sm_sim : forall p w x y, xsim fTestNet I p w x y -> agree (xsim fTestNet I p w) (f w x) (f w y)
}.

Lemma balance_summand : summand (balance_of fTestNet I nCoinbaseMaturity nBestHeight nNow fuel).
Proof.
  split; [|apply balance_of_sim]. intros w v x Hv. unfold balance_of. rewrite (confirmed_view w v) by done.
  destruct (confirmed _ _ _ _ _ _ _) as [[c y]|]; cbn [mbind option_bind]; [|done]. by rewrite (GetAvailableCredit_view w v).
Qed.

Lemma unconfirmed_summand : summand (unconfirmed_of fTestNet I nCoinbaseMaturity nBestHeight nNow fuel).
Proof.
  split; [|apply unconfirmed_of_sim]. intros w v x Hv. unfold unconfirmed_of. rewrite (confirmed_view w v) by done.
  destruct (confirmed _ _ _ _ _ _ _) as [[c y]|]; cbn [mbind option_bind]; [|done]. by rewrite (GetAvailableCredit_view w v).
Qed.

Lemma growing_summand kind : summand (growing_of fTestNet I nCoinbaseMaturity kind).
Proof.
  split; [|intros p; apply growing_of_sim]. intros w v x Hv. unfold growing_of. destruct (negb _); [done|].
  destruct (GetBlocksToMaturity _ _ _) as [[n m]|]; cbn [mbind option_bind]; [|done]. destruct (negb _); [done|].
  destruct (GetDepthInMainChain _ _) as [[d k]|]; cbn [mbind option_bind]; [|done]. destruct (negb _); [done|].
  by rewrite (GetCredit_tx_view w v).
Qed.

(** Two wallets that differ in what is cached, and nothing cached is wrong. *)
Record wsim (w v : CWallet) : Prop := {
  ws_view : same_view w v;
  ws_dom : dom (mapWallet w) = dom (mapWallet v);
  ws_txs : forall h x, mapWallet w !! h = Some x -> exists y, mapWallet v !! h = Some y /\ xsim fTestNet I (persist x) w x y
}.

(** The wallet with nothing cached, as it is after it was read from its file. *)
Definition uncached (w : CWallet) : CWallet := set_mapWallet (persist <$> mapWallet w) w.

(** Everything cached in the wallet is right. *)
Definition caches_right (w : CWallet) : Prop := forall h x, mapWallet w !! h = Some x -> cache_ok fTestNet I w x.

Lemma persist_idem x : persist (persist x) = persist x.
Proof.
  unfold persist, with_caches, with_prevs, with_wtx. cbn. f_equal. rewrite <- list_fmap_compose. by apply list_fmap_ext.
Qed.

Lemma uncached_view w : same_view w (uncached w).
Proof. split; [done|]. intros h. cbn. rewrite lookup_fmap. by destruct (mapWallet w !! h). Qed.

Lemma cache_ok_persist w x : cache_ok fTestNet I w (persist x).
Proof. split; try done. cbn. apply Forall_fmap, Forall_forall. by intros m _. Qed.

Lemma uncached_sim w : caches_right w -> wsim w (uncached w).
Proof.
  intros Hc. split; [apply uncached_view|cbn; by rewrite dom_fmap_L|]. intros h x Hx. exists (persist x). cbn. rewrite lookup_fmap, Hx.
  split; [done|]. split; [done|by rewrite persist_idem|by apply (Hc h)|apply cache_ok_persist].
Qed.

(** Replacing an entry by one for the same transaction does not change the view. *)
Lemma view_set w h x y : mapWallet w !! h = Some x -> tx_of y = tx_of x -> same_view w (set_mapWallet (<[h := y]> (mapWallet w)) w).
Proof.
  intros Hx Ht. split; [done|]. intros k. cbn. destruct (decide (h = k)) as [<-|Hk].
  - rewrite Hx, lookup_insert_eq. cbn. by rewrite Ht.
  - by rewrite lookup_insert_ne.
Qed.

#[local] Instance same_view_equiv : Equivalence same_view.
Proof.
  split.
  - by intros w.
  - intros w v [Hs Ht]. split; [done|]. intros h. by rewrite Ht.
  - intros w v u [Hs Ht] [Hs' Ht']. split; [congruence|]. intros h. by rewrite Ht.
Qed.

Lemma uncached_set w h x y : mapWallet w !! h = Some x -> persist y = persist x -> uncached (set_mapWallet (<[h := y]> (mapWallet w)) w) = uncached w.
Proof.
  intros Hx Hp. unfold uncached, set_mapWallet. cbn. f_equal. rewrite fmap_insert, Hp. apply insert_id. by rewrite lookup_fmap, Hx.
Qed.

Lemma xsim_view p w v x y : same_view w v -> xsim fTestNet I p w x y -> xsim fTestNet I p v x y.
Proof. intros Hv [H1 H2 H3 H4]. split; try done; by apply (cache_ok_view w v). Qed.

Lemma wsim_set w v h x y x' y' :
  wsim w v -> mapWallet w !! h = Some x -> mapWallet v !! h = Some y -> xsim fTestNet I (persist x) w x' y' ->
  wsim (set_mapWallet (<[h := x']> (mapWallet w)) w) (set_mapWallet (<[h := y']> (mapWallet v)) v).
Proof.
  intros [Hv Hd Ht] Hx Hy Hs.
  assert (tx_of x' = tx_of x) as Ex by (apply persist_tx, (xs_at _ _ _ _ _ _ Hs)).
  assert (tx_of y = tx_of x) as Eyx.
  { destruct Hv as [_ Hv]. specialize (Hv h). rewrite Hx, Hy in Hv. injection Hv as Hv. by symmetry. }
  assert (tx_of y' = tx_of y) as Ey by (rewrite Eyx, <- Ex; symmetry; apply (xsim_tx _ _ _ _ _ _ Hs)).
  pose proof (view_set w h x x' Hx Ex) as Vw. pose proof (view_set v h y y' Hy Ey) as Vv.
  split.
  - transitivity w; [by symmetry|]. by transitivity v.
  - cbn. by rewrite !dom_insert_L, Hd.
  - intros k z. cbn. destruct (decide (h = k)) as [<-|Hk].
    + rewrite !lookup_insert_eq. intros [= <-]. exists y'. split; [done|]. rewrite (xs_at _ _ _ _ _ _ Hs).
      by apply (xsim_view _ w).
    + rewrite !lookup_insert_ne by done. intros Hz. destruct (Ht _ _ Hz) as (z' & Hz' & Hs'). exists z'. split; [done|]. by apply (xsim_view _ w).
Qed.

Lemma sum_wallet_sim f l : summand f -> forall n w v, wsim w v ->
  agree (fun a b => wsim a b /\ uncached a = uncached w) (sum_wallet f l n w) (sum_wallet f l n v).
Proof.
  intros Hf. induction l as [|h l IH]; intros n w v Hs; cbn [sum_wallet]; [by split|].
  destruct (mapWallet w !! h) as [x|] eqn:Hx; cbn [mbind option_bind].
  - destruct (ws_txs _ _ Hs _ _ Hx) as (y & Hy & Hxy). rewrite Hy. cbn [mbind option_bind].
    rewrite <- (sm_view f Hf w v y) by apply Hs.
    eapply agree_bind; [by apply (sm_sim f Hf _ _ _ _ Hxy)|]. intros a x' y' Hxy'. cbn beta iota.
    eapply agree_impl; [by apply IH, (wsim_set w v h x y)|]. intros w' v' [Hs' Hu]. split; [done|].
    rewrite Hu. apply (uncached_set w h x); [done|]. apply (xs_at _ _ _ _ _ _ Hxy').
  - assert (mapWallet v !! h = None) as ->; [|done]. apply not_elem_of_dom. rewrite <- (ws_dom _ _ Hs). by apply not_elem_of_dom.
Qed.

Lemma wsim_right w v : wsim w v -> caches_right w.
Proof. intros Hs h x Hx. destruct (ws_txs _ _ Hs _ _ Hx) as (y & _ & Hxy). apply (xs_l _ _ _ _ _ _ Hxy). Qed.

(** A balance is the one of the wallet with nothing cached. *)
Lemma sum_uncached f w : summand f -> caches_right w ->
  fst <$> sum_wallet f (wallet_keys w) 0 w = fst <$> sum_wallet f (wallet_keys (uncached w)) 0 (uncached w) /\
  forall n w', sum_wallet f (wallet_keys w) 0 w = Some (n, w') -> caches_right w' /\ uncached w' = uncached w.
Proof.
  intros Hf Hc. assert (wallet_keys (uncached w) = wallet_keys w) as ->.
  { unfold wallet_keys. cbn. by rewrite dom_fmap_L. }
  pose proof (sum_wallet_sim f (wallet_keys w) Hf 0 w (uncached w) (uncached_sim w Hc)) as Ha.
  destruct (sum_wallet f _ 0 w) as [[n w']|], (sum_wallet f _ 0 (uncached w)) as [[n' v']|]; simpl in Ha; try done.
  destruct Ha as [<- [Hs Hu]]. split; [done|]. intros k u [= <- <-]. split; [|done]. by apply (wsim_right _ v').
Qed.

(** *** Marking coins *)

Lemma unspent_credit_ext w outs : forall vf vf' acc,
  (forall k, (k < length outs)%nat -> default false (vf !! k) = default false (vf' !! k)) ->
  unspent_credit fTestNet w outs vf acc = unspent_credit fTestNet w outs vf' acc.
Proof.
  induction outs as [|o outs IH]; intros vf vf' acc H; cbn [unspent_credit]; [done|].
  assert (default false (head vf) = default false (head vf')) as ->.
  { specialize (H 0%nat ltac:(simpl; lia)). by destruct vf, vf'. }
  apply IH. intros k Hk. specialize (H (S k) ltac:(simpl; lia)). by destruct vf, vf'.
Qed.

Lemma cache_ok_spent w x vf av : cache_ok fTestNet I w x ->
  (av = None \/ av = availableCached x /\ forall k, (k < length (vout (tx_of x)))%nat -> default false (vf !! k) = flag x k) ->
  cache_ok fTestNet I w (with_spent vf av x).
Proof.
  intros [H1 H2 H3 H4 H5] Hav. split; try done. cbn [with_spent availableCached]. intros v Hv.
  destruct Hav as [->|[-> Hk]]; [done|]. rewrite <- (H3 v Hv). unfold available. cbn. by apply unspent_credit_ext.
Qed.

Lemma marked_ok w x x' n : cache_ok fTestNet I w x -> MarkSpent n x = Some x' \/ MarkUnspent n x = Some x' ->
  cache_ok fTestNet I w x' /\ tx_of x' = tx_of x.
Proof.
  intros Hc [H|H]; [unfold MarkSpent in H|unfold MarkUnspent in H]; destruct (_ <=? _); try done; cbv zeta in H;
    destruct (default false _); injection H as <-; (split; [|done]); apply cache_ok_spent; auto;
    right; (split; [done|]); intros k Hk; by apply resize_flags_lookup.
Qed.


(** *** IsConfirmed ends

    The supporting transactions are acyclic (a transaction commits to the hashes
    of those it spends), so every pointer has a rank above those it leads to. *)

Definition ranked (rk : option nat -> nat) (x : CWalletTx) : Prop :=
  forall q m mp i k, at_ptr x q = Some m -> map_prev x = Some mp -> i ∈ vin (mt_tx m) ->
    mp !! prevhash (prevout i) = Some k -> (rk (Some k) < rk q)%nat.

Definition narrow (M : nat) (x : CWalletTx) : Prop := forall q m, at_ptr x q = Some m -> (length (vin (mt_tx m)) <= M)%nat.

Definition weight (M : nat) (rk : option nat -> nat) (queue : list (option nat)) : nat := sum_list_with (fun q => S M ^ rk q)%nat queue.

Lemma weight_below M rk l r : Forall (fun q => rk q < r)%nat l -> (weight M rk l * S M <= length l * S M ^ r)%nat.
Proof.
  induction 1 as [|q l Hq _ IH]; [done|]. unfold weight in *. cbn [sum_list_with length].
  assert (S M ^ rk q * S M <= S M ^ r)%nat as Hp.
  { rewrite Nat.mul_comm, <- Nat.pow_succ_r'. apply Nat.pow_le_mono_r; lia. }
  set (a := (S M ^ rk q)%nat) in *. set (b := (S M ^ r)%nat) in *. set (c := sum_list_with _ l) in *.
  rewrite Nat.mul_add_distr_r, Nat.mul_succ_l. lia.
Qed.

Lemma at_ptr_put x q q' m m' n :
  at_ptr x q = Some m -> mt_tx m' = mt_tx m -> at_ptr (put_ptr q m' x) q' = Some n -> exists n', at_ptr x q' = Some n' /\ mt_tx n' = mt_tx n.
Proof.
  intros Hq Ht Hn. destruct q as [k|], q' as [k'|]; simpl in *; eauto.
  - destruct (decide (k = k')) as [<-|Hk].
    + rewrite list_lookup_insert_eq in Hn by (by eapply lookup_lt_Some). injection Hn as <-. eauto.
    + rewrite list_lookup_insert_ne in Hn by done. eauto.
  - injection Hn as <-. injection Hq as <-. eauto.
Qed.

Lemma mapM_insert_id {A C} (g : A -> option C) l : forall k m m', l !! k = Some m -> g m' = g m -> mapM g (<[k := m']> l) = mapM g l.
Proof.
  induction l as [|a l IH]; intros [|k] m m' Hk Hg; try done.
  - injection Hk as ->. change ((b ← g m'; bs ← mapM g l; Some (b :: bs)) = (b ← g m; bs ← mapM g l; Some (b :: bs))). by rewrite Hg.
  - change ((b ← g a; bs ← mapM g (<[k := m']> l); Some (b :: bs)) = (b ← g a; bs ← mapM g l; Some (b :: bs))). by rewrite (IH k m).
Qed.

Lemma map_prev_put x q m m' : at_ptr x q = Some m -> mt_tx m' = mt_tx m -> map_prev (put_ptr q m' x) = map_prev x.
Proof.
  intros Hq Ht. destruct q as [k|]; [|done]. unfold map_prev. cbn [put_ptr with_prevs vtxPrev].
  rewrite (mapM_insert_id _ (vtxPrev x) k m m'); [done|done|]. cbn beta. by rewrite Ht.
Qed.

Lemma mapM_Forall {A C} (f : A -> option C) (P : C -> Prop) l r :
  mapM f l = Some r -> (forall a c, a ∈ l -> f a = Some c -> P c) -> Forall P r /\ length r = length l.
Proof.
  intros H HP. apply mapM_Some_1 in H. split; [|symmetry; by eapply Forall2_length].
  induction H as [|a c l r Hac _ IH]; [done|]. constructor; [by apply (HP a); [left|]|]. apply IH. intros a' c' Ha. apply HP. by right.
Qed.

Lemma confirm_loop_ends w M rk n : forall queue x, ranked rk x -> narrow M x -> (weight M rk queue <= n)%nat ->
  confirm_loop fTestNet w I nBestHeight nNow n queue x <> None.
Proof.
  induction n as [|n IH]; intros [|q queue] x Hr Hm Hw; cbn [confirm_loop]; try done.
  { unfold weight in Hw. cbn in Hw. pose proof (Nat.pow_nonzero (S M) (rk q) ltac:(lia)). lia. }
  destruct (at_ptr x q) as [m|] eqn:Hq; [|done]. destruct (negb _); [done|].
  destruct (GetDepthInMainChain I m) as [[d m']|] eqn:Hd; [|done].
  apply depth_persist, persist_mtx_eq in Hd as (Ht & _).
  assert (ranked rk (put_ptr q m' x)) as Hr'.
  { intros q' n' mp i k Hq' Hmp. rewrite (map_prev_put x q m m') in Hmp by done.
    destruct (at_ptr_put _ _ _ _ _ _ Hq Ht Hq') as (n2 & Hn2 & Et). rewrite <- Et. by apply Hr. }
  assert (narrow M (put_ptr q m' x)) as Hm'.
  { intros q' n' Hq'. destruct (at_ptr_put _ _ _ _ _ _ Hq Ht Hq') as (n2 & Hn2 & Et). rewrite <- Et. by apply (Hm q'). }
  assert (weight M rk (q :: queue) = S M ^ rk q + weight M rk queue)%nat as Ew by done.
  pose proof (Nat.pow_nonzero (S M) (rk q) ltac:(lia)).
  cbv zeta. destruct (1 <=? d); [apply IH; [done|done|lia]|].
  destruct (IsFromMe_tx _ _ _) as [fm|]; [|done]. destruct (map_prev (put_ptr q m' x)) as [mp|] eqn:Hmp; [|done].
  destruct (negb fm); [done|]. destruct (mapM _ _) as [ks|] eqn:Hks; [|done]. apply IH; [done|done|].
  rewrite (map_prev_put x q m m') in Hmp by done.
  destruct (mapM_Forall _ (fun k => rk (Some k) < rk q)%nat _ _ Hks) as [Hf Hl]; [intros i k Hi Hk; by apply (Hr q m mp i k)|].
  assert (Forall (fun q' => rk q' < rk q)%nat (Some <$> ks)) as Hf' by (by apply Forall_fmap).
  pose proof (weight_below M rk _ _ Hf') as Hb. rewrite length_fmap, Hl in Hb. specialize (Hm _ _ Hq).
  assert (weight M rk (queue ++ (Some <$> ks)) = weight M rk queue + weight M rk (Some <$> ks))%nat as ->.
  { unfold weight. by rewrite sum_list_with_app. }
  nia.
Qed.

(** With that much fuel IsConfirmed gives the answer of its loop. *)
Lemma IsConfirmed_ends w M rk x : ranked rk x -> narrow M x -> (weight M rk [None] <= fuel)%nat ->
  confirm_loop fTestNet w I nBestHeight nNow fuel [None] x <> None.
Proof. intros Hr Hm Hw. by apply (confirm_loop_ends w M rk). Qed.

End wallets.

(** ** A wallet with a cached amount *)

Section witnesses.
#[local] Existing Instance bn_reference.
#[local] Existing Instance toy_digests.
#[local] Existing Instance Tx.demo_abi.
#[local] Existing Instance toy_ec.
#[local] Existing Instance toy_group.
#[local] Existing Instance toy_evp.

Definition demo_cached : CWallet :=
  set_mapWallet {[ demo_pay_hash := with_caches (Some 0) None (Some (5 * COIN)) None demo_entry ]} demo_w.


End witnesses.
End WalletCache.
