(* ===== verification/CoinSelect.v ===== *)
(** * Choosing the coins to spend (src/src/wallet.cpp: SelectCoinsMinConf, SelectCoins)

    A coin is the hash of a transaction of the wallet with the number of one of
    its outputs.  In the source it is a pointer to the entry with the number;
    [node] gives the address of the entry of a hash, since sets of coins are
    ordered by it.  The random numbers are arguments: [rnd k n] is the k-th call
    GetRandInt(n) of the shuffle, [toss r i] the call of rand() for coin i in
    repetition r.  The methods of the entries fill caches, so the wallet is
    returned too; [None] is an exception. *)

From stdpp Require Import gmap sorting.
From S2P Require Import Prelude Containers Uint256 Bignum Crypto Script Serialize Tx Base58 Signature Key Solver KeyStore Work Block BlockIndex Kernel Coins Ledger MerkleTx Wallet KeyPool WalletOps WalletCache.
Import BlockIndex Ledger MerkleTx KeyStores Wallet WalletOps WalletCache.

Module CoinSelect.

Definition coin : Type := Z * nat.

(** ** std::random_shuffle *)

Definition swap {A : Type} (l : list A) (i j : nat) : list A :=
  match l !! i, l !! j with Some a, Some b => <[i := b]> (<[j := a]> l) | _, _ => l end.

Definition random_shuffle {A : Type} (rnd : nat -> Z -> Z) (l : list A) : list A :=
  foldl (fun l i => swap l i (Z.to_nat (rnd i (Z.of_nat (S i))))) l (seq 1 (length l - 1)).

(** The entries of a list whose flag is set. *)
Fixpoint chosen {A : Type} (l : list A) (vf : list bool) : list A :=
  match l, vf with
  | a :: l, b :: vf => if b then a :: chosen l vf else chosen l vf
  | _, _ => []
  end.

(** ** The subset sum by stochastic approximation *)

Record approx := mk_approx { ap_total : Z; ap_inc : list bool; ap_reached : bool; ap_best : Z; ap_vfBest : list bool }.

Section approximation.
Context (nTargetValue : Z) (vals : list Z).

(** The body of the loop over the coins; [take] is the condition of the [if]. *)
Definition approx_step (take : approx -> nat -> bool) (s : approx) (i : nat) : approx :=
  if negb (take s i) then s
  else
    let nTotal := i64 (ap_total s + rd vals i) in
    let inc := <[i := true]> (ap_inc s) in
    if nTotal <? nTargetValue then mk_approx nTotal inc (ap_reached s) (ap_best s) (ap_vfBest s)
    else
      let '(best, vf) := if nTotal <? ap_best s then (nTotal, inc) else (ap_best s, ap_vfBest s) in
      mk_approx (i64 (nTotal - rd vals i)) (<[i := false]> inc) true best vf.

Definition approx_pass (take : approx -> nat -> bool) (s : approx) : approx := foldl (approx_step take) s (seq 0 (length vals)).

(** One repetition: the second pass only runs when the first did not reach the target. *)
Definition approx_rep (toss : nat -> bool) (best : Z * list bool) : Z * list bool :=
  let s := approx_pass (fun _ i => toss i) (mk_approx 0 (replicate (length vals) false) false best.1 best.2) in
  let s := if ap_reached s then s else approx_pass (fun s i => negb (default false (ap_inc s !! i))) s in
  (ap_best s, ap_vfBest s).

(** [for (nRep = 0; nRep < 1000 && nBest != nTargetValue; nRep++)] *)
Definition approximate (toss : nat -> nat -> bool) (nTotalLower : Z) : Z * list bool :=
  foldl (fun best nRep => if best.1 =? nTargetValue then best else approx_rep (toss nRep) best)
    (nTotalLower, replicate (length vals) true) (seq 0 1000).

End approximation.

(** ** SelectCoinsMinConf *)

(** What the scan of the wallet has gathered: [vValue], [nTotalLower] and
    [coinLowestLarger]. *)
Record gathered := mk_gathered { vValue : list (Z * coin); nTotalLower : Z; coinLowestLarger : Z * option coin }.

Definition INT64_MAX : Z := 2 ^ 63 - 1.

(** Sums of amounts up to here stay clear of the range of int64. *)
Definition MAX_TOTAL : Z := 2 ^ 61.

Section selection.
Context {B : Tx.Abi} {L : BNLib} {D : DigestLib} {E : ECLib} {G : ECGroup E} {V : EVPLib} (fTestNet : bool).
Context (I : index) (nCoinbaseMaturity nBestHeight nNow : Z) (fuel : nat) (node : Z -> Z).

(** The conditions on the transaction. *)
Definition usable_tx (nConfMine nConfTheirs : Z) (w : CWallet) (x : CWalletTx) : option (bool * CWalletTx) :=
  '(c, x) ← confirmed fTestNet I nBestHeight nNow fuel w x;
  if negb c then Some (false, x)
  else
    '(im, x) ← immature I nCoinbaseMaturity x;
    if im : bool then Some (false, x)
    else
      '(nDepth, m) ← GetDepthInMainChain I (wtx x);
      let x := with_wtx m x in
      '(fm, x) ← IsFromMe fTestNet w x;
      Some (negb (nDepth <? (if fm : bool then nConfMine else nConfTheirs)), x).

(** The conditions on output [i] of a transaction with flag [spent]. *)
Definition usable_out (nSpendTime : Z) (w : CWallet) (t : CTransaction) (spent : bool) (o : CTxOut) : bool :=
  negb (spent || negb (IsMine_out fTestNet w o)) && negb (nSpendTime <? nTime t) && negb (nValue o <=? 0).

(** [inl]: a coin of exactly the target was found. *)
Fixpoint gather_outs (nTargetValue nSpendTime : Z) (w : CWallet) (h : Z) (x : CWalletTx) (i : nat) (outs : list CTxOut) (g : gathered)
  : option (coin * Z + gathered) :=
  match outs with
  | [] => Some (inr g)
  | o :: outs =>
      spent ← IsSpent x (Z.of_nat i);
      if negb (usable_out nSpendTime w (tx_of x) spent o) then gather_outs nTargetValue nSpendTime w h x (S i) outs g
      else
        let n := nValue o in
        if n =? nTargetValue then Some (inl ((h, i), n))
        else if n <? i64 (nTargetValue + CENT) then
          gather_outs nTargetValue nSpendTime w h x (S i) outs (mk_gathered (vValue g ++ [(n, (h, i))]) (i64 (nTotalLower g + n)) (coinLowestLarger g))
        else if n <? (coinLowestLarger g).1 then
          gather_outs nTargetValue nSpendTime w h x (S i) outs (mk_gathered (vValue g) (nTotalLower g) (n, Some (h, i)))
        else gather_outs nTargetValue nSpendTime w h x (S i) outs g
  end.

Fixpoint gather (nTargetValue nSpendTime nConfMine nConfTheirs : Z) (l : list Z) (g : gathered) (w : CWallet)
  : option ((coin * Z + gathered) * CWallet) :=
  match l with
  | [] => Some (inr g, w)
  | h :: l =>
      x ← mapWallet w !! h;
      '(ok, x) ← usable_tx nConfMine nConfTheirs w x;
      let w := set_mapWallet (<[h := x]> (mapWallet w)) w in
      if negb ok then gather nTargetValue nSpendTime nConfMine nConfTheirs l g w
      else
        r ← gather_outs nTargetValue nSpendTime w h x 0 (vout (tx_of x)) g;
        match r with
        | inl c => Some (inl c, w)
        | inr g => gather nTargetValue nSpendTime nConfMine nConfTheirs l g w
        end
  end.

(** A set of coins, in the order of the set. *)
Definition coin_le (a b : coin) : Prop := node a.1 < node b.1 \/ node a.1 = node b.1 /\ (a.2 <= b.2)%nat.
#[global] Instance coin_le_dec a b : Decision (coin_le a b) := ltac:(unfold coin_le; apply _).
Definition set_of (l : list coin) : list coin := merge_sort coin_le (remove_dups l).

(** [sort(vValue.rbegin(), vValue.rend())]: descending by value, then by coin. *)
Definition value_ge (a b : Z * coin) : Prop := b.1 < a.1 \/ a.1 = b.1 /\ coin_le b.2 a.2.
#[global] Instance value_ge_dec a b : Decision (value_ge a b) := ltac:(unfold value_ge; apply _).

Definition total_of (l : list (Z * coin)) : Z := foldl (fun t c => i64 (t + c.1)) 0 l.

(** The choice among the gathered coins: success, setCoinsRet and nValueRet. *)
Definition choose_coins (nTargetValue : Z) (toss : nat -> nat -> bool) (g : gathered) : bool * list coin * Z :=
  let '(nLarger, larger) := coinLowestLarger g in
  if (nTotalLower g =? nTargetValue) || (nTotalLower g =? i64 (nTargetValue + CENT)) then
    (true, set_of (vValue g).*2, total_of (vValue g))
  else if nTotalLower g <? i64 (nTargetValue + match larger with Some _ => CENT | None => 0 end) then
    match larger with
    | None => (false, [], 0)
    | Some c => (true, set_of [c], i64 (0 + nLarger))
    end
  else
    let nTargetValue := if i64 (nTargetValue + CENT) <=? nTotalLower g then i64 (nTargetValue + CENT) else nTargetValue in
    let sorted := merge_sort value_ge (vValue g) in
    let '(nBest, vfBest) := approximate nTargetValue sorted.*1 toss (nTotalLower g) in
    let best := chosen sorted vfBest in
    match larger with
    | Some c => if i64 (nLarger - nTargetValue) <=? i64 (nBest - nTargetValue) then (true, set_of [c], i64 (0 + nLarger))
                else (true, set_of best.*2, total_of best)
    | None => (true, set_of best.*2, total_of best)
    end.

Definition SelectCoinsMinConf (nTargetValue nSpendTime nConfMine nConfTheirs : Z) (rnd : nat -> Z -> Z) (toss : nat -> nat -> bool) (w : CWallet)
  : option (bool * list coin * Z * CWallet) :=
  '(r, w) ← gather nTargetValue nSpendTime nConfMine nConfTheirs (random_shuffle rnd (wallet_keys w)) (mk_gathered [] 0 (INT64_MAX, None)) w;
  match r with
  | inl (c, n) => Some (true, set_of [c], i64 (0 + n), w)
  | inr g => let '(ok, coins, v) := choose_coins nTargetValue toss g in Some (ok, coins, v, w)
  end.

(** The three attempts; [rs k] are the random numbers of attempt [k]. *)
Definition SelectCoins (nTargetValue nSpendTime : Z) (rs : nat -> (nat -> Z -> Z) * (nat -> nat -> bool)) (w : CWallet)
  : option (bool * list coin * Z * CWallet) :=
  '(ok, coins, v, w) ← SelectCoinsMinConf nTargetValue nSpendTime 1 6 (rs 0%nat).1 (rs 0%nat).2 w;
  if ok : bool then Some (true, coins, v, w)
  else
    '(ok, coins, v, w) ← SelectCoinsMinConf nTargetValue nSpendTime 1 1 (rs 1%nat).1 (rs 1%nat).2 w;
    if ok : bool then Some (true, coins, v, w)
    else SelectCoinsMinConf nTargetValue nSpendTime 0 1 (rs 2%nat).1 (rs 2%nat).2 w.

End selection.

(** ** Lists *)

Definition sumZ (l : list Z) : Z := foldr Z.add 0 l.

Lemma sumZ_app l k : sumZ (l ++ k) = sumZ l + sumZ k.
Proof. induction l as [|a l IH]; simpl; [done|]. rewrite IH. lia. Qed.

#[global] Instance sumZ_perm : Proper ((≡ₚ) ==> (=)) sumZ.
Proof. intros l k H. induction H; simpl; lia. Qed.

Lemma sumZ_nonneg l : Forall (fun v => 0 <= v) l -> 0 <= sumZ l.
Proof. induction 1; simpl; lia. Qed.

Lemma swap_perm {A : Type} (l : list A) i j : swap l i j ≡ₚ l.
Proof.
  unfold swap. destruct (l !! i) as [a|] eqn:Hi; [|done]. destruct (l !! j) as [b|] eqn:Hj; [|done].
  by apply swap_entries_perm.
Qed.

Lemma random_shuffle_perm {A : Type} rnd (l : list A) : random_shuffle rnd l ≡ₚ l.
Proof.
  unfold random_shuffle. generalize (seq 1 (length l - 1)). intros ks. revert l. induction ks as [|i ks IH]; intros l; simpl; [done|].
  by rewrite IH, swap_perm.
Qed.

Lemma chosen_sublist {A : Type} (l : list A) : forall vf, chosen l vf `sublist_of` l.
Proof.
  induction l as [|a l IH]; intros [|b vf]; simpl; try apply sublist_nil_l. destruct b; [by apply sublist_skip|by apply sublist_cons].
Qed.

Lemma chosen_fmap {A C : Type} (f : A -> C) l : forall vf, chosen (f <$> l) vf = f <$> chosen l vf.
Proof. induction l as [|a l IH]; intros [|b vf]; simpl; try done. destruct b; simpl; by rewrite IH. Qed.

Lemma chosen_all {A : Type} (l : list A) : chosen l (replicate (length l) true) = l.
Proof. induction l as [|a l IH]; simpl; [done|]. by rewrite IH. Qed.

Lemma chosen_none {A : Type} (l : list A) : chosen l (replicate (length l) false) = [].
Proof. induction l as [|a l IH]; simpl; [done|]. by rewrite IH. Qed.

Lemma sum_chosen_set vals : forall inc i b, inc !! i = Some (negb b) -> length inc = length vals ->
  sumZ (chosen vals (<[i := b]> inc)) = sumZ (chosen vals inc) + (if b then rd vals i else - rd vals i).
Proof.
  induction vals as [|v vals IH]; intros [|c inc] i b Hi Hl; simpl in *; try done; try lia.
  destruct i as [|i]; simpl in *.
  - injection Hi as ->. destruct b; simpl; unfold rd; simpl; lia.
  - injection Hl as Hl. specialize (IH inc i b Hi Hl). destruct c; simpl; rewrite IH; unfold rd; simpl; lia.
Qed.

Lemma sum_chosen_le vals inc : Forall (fun v => 0 <= v) vals -> 0 <= sumZ (chosen vals inc) <= sumZ vals.
Proof.
  intros H. revert inc. induction H as [|v vals Hv _ IH]; intros [|b inc]; simpl; try lia.
  - specialize (IH []). destruct vals; simpl in *; lia.
  - specialize (IH inc). destruct b; simpl; lia.
Qed.

(** ** The approximation keeps a subset that reaches the target *)

Section approximation_ok.
Context (T : Z) (vals : list Z).
Hypothesis vals_pos : Forall (fun v => 0 <= v) vals.
Hypothesis vals_sum : sumZ vals <= MAX_TOTAL.

Record ap_ok (s : approx) : Prop := {
  ao_inc : length (ap_inc s) = length vals;
  ao_vf : length (ap_vfBest s) = length vals;
  ao_total : ap_total s = sumZ (chosen vals (ap_inc s));
  ao_best : ap_best s = sumZ (chosen vals (ap_vfBest s));
  ao_target : T <= ap_best s
}.

Lemma approx_step_ok take s i : ap_ok s -> (take s i = true -> ap_inc s !! i = Some false) ->
  ap_ok (approx_step T vals take s i) /\ forall k, k <> i -> ap_inc (approx_step T vals take s i) !! k = ap_inc s !! k.
Proof.
  intros [H1 H2 H3 H4 H5] Hi. unfold approx_step. destruct (take s i); simpl; [|by split]. specialize (Hi eq_refl).
  pose proof (sum_chosen_set vals (ap_inc s) i true Hi H1) as Hs. cbn in Hs.
  pose proof (sum_chosen_le vals (<[i:=true]> (ap_inc s)) vals_pos) as Hle.
  pose proof (sum_chosen_le vals (ap_inc s) vals_pos) as Hle0.
  rewrite (i64_small (ap_total s + rd vals i)) by (unfold MAX_TOTAL in *; lia).
  assert (forall k b, k <> i -> <[i := b]> (<[i := true]> (ap_inc s)) !! k = ap_inc s !! k) as Hk
    by (intros; by rewrite !list_lookup_insert_ne).
  destruct (Z.ltb_spec (ap_total s + rd vals i) T).
  - split; [split; simpl; [by rewrite length_insert|done|lia|done|done]|]. intros k Hki. simpl. by rewrite list_lookup_insert_ne.
  - assert (<[i := false]> (<[i := true]> (ap_inc s)) = ap_inc s) as Hback.
    { rewrite list_insert_insert_eq. by apply list_insert_id. }
    replace (ap_total s + rd vals i - rd vals i) with (ap_total s) by lia. rewrite i64_small by (unfold MAX_TOTAL in *; lia).
    destruct (Z.ltb_spec (ap_total s + rd vals i) (ap_best s)); (split; [split; simpl; rewrite ?Hback, ?length_insert; done || lia|]);
      intros k Hki; simpl; by rewrite Hback.
Qed.

(** First pass: nothing is included at or after the index. *)
Lemma first_pass_ok toss s : ap_ok s -> (forall k, (k < length vals)%nat -> ap_inc s !! k = Some false) ->
  ap_ok (approx_pass T vals (fun _ i => toss i) s).
Proof.
  unfold approx_pass. intros Hs Hf.
  assert (forall m j s, (j + m = length vals)%nat -> ap_ok s -> (forall k, (j <= k < length vals)%nat -> ap_inc s !! k = Some false) ->
    ap_ok (foldl (approx_step T vals (fun _ i => toss i)) s (seq j m))) as Hgen; [|apply Hgen; [done|done|intros; apply Hf; lia]].
  clear s Hs Hf. induction m as [|m IH]; intros j s Hj Hs Hf; simpl; [done|].
  destruct (approx_step_ok (fun _ i => toss i) s j Hs) as [Hs' Hk]; [intros _; apply Hf; lia|].
  apply IH; [lia|done|]. intros k Hkj. rewrite Hk by lia. apply Hf. lia.
Qed.

(** Second pass: only what is not included is added. *)
Lemma second_pass_ok s : ap_ok s -> ap_ok (approx_pass T vals (fun s i => negb (default false (ap_inc s !! i))) s).
Proof.
  unfold approx_pass. intros Hs. assert (Forall (fun i => i < length vals)%nat (seq 0 (length vals))) as Hl.
  { apply Forall_forall. intros i Hi. apply elem_of_seq in Hi. lia. }
  revert s Hs. induction Hl as [|i l Hi _ IH]; intros s Hs; simpl; [done|].
  apply IH. apply approx_step_ok; [done|]. intros Hn. rewrite <- (ao_inc _ Hs) in Hi. apply lookup_lt_is_Some_2 in Hi as [b Hb].
  rewrite Hb in *. by destruct b.
Qed.

Definition best_ok (best : Z * list bool) : Prop := length best.2 = length vals /\ best.1 = sumZ (chosen vals best.2) /\ T <= best.1.

Lemma approx_rep_ok toss best : best_ok best -> best_ok (approx_rep T vals toss best).
Proof.
  intros (Hl & Hs & Ht). unfold approx_rep.
  assert (ap_ok (approx_pass T vals (fun _ i => toss i) (mk_approx 0 (replicate (length vals) false) false best.1 best.2))) as H1.
  { apply first_pass_ok; [split; simpl; [by rewrite length_replicate|done|by rewrite chosen_none|done|done]|].
    intros k Hk. simpl. by apply lookup_replicate_2. }
  destruct (ap_reached _); [by destruct H1|]. apply second_pass_ok in H1. by destruct H1.
Qed.

Lemma approximate_ok toss total : total = sumZ vals -> T <= total -> best_ok (approximate T vals toss total).
Proof.
  intros -> Ht. unfold approximate. assert (best_ok (sumZ vals, replicate (length vals) true)) as H0.
  { split; [simpl; by rewrite length_replicate|]. simpl. by rewrite chosen_all. }
  revert H0. generalize (sumZ vals, replicate (length vals) true). induction (seq 0 1000) as [|r l IH]; intros best Hb; [done|].
  cbn [foldl]. apply IH. destruct (_ =? _); [done|]. by apply approx_rep_ok.
Qed.

End approximation_ok.

(** ** The coins of the wallet that can be spent *)

Section usable_coins.
Context {B : Tx.Abi} {L : BNLib} {D : DigestLib} {E : ECLib} {G : ECGroup E} {V : EVPLib} (fTestNet : bool).
Context (I : index) (nCoinbaseMaturity nBestHeight nNow : Z) (fuel : nat).
Context (nSpendTime nConfMine nConfTheirs : Z).
#[local] Abbreviation usable_tx := (usable_tx fTestNet I nCoinbaseMaturity nBestHeight nNow fuel nConfMine nConfTheirs).

(** Output [i] onwards of a usable transaction. *)
Fixpoint coins_from (w : CWallet) (h : Z) (x : CWalletTx) (i : nat) (outs : list CTxOut) : list (Z * coin) :=
  match outs with
  | [] => []
  | o :: outs =>
      if usable_out fTestNet nSpendTime w (tx_of x) (flag x i) o then (nValue o, (h, i)) :: coins_from w h x (S i) outs
      else coins_from w h x (S i) outs
  end.

Definition usable_b (w : CWallet) (x : CWalletTx) : bool := default false (fst <$> usable_tx w x).

Definition coins_of (w : CWallet) (h : Z) : list (Z * coin) :=
  match mapWallet w !! h with
  | Some x => if usable_b w x then coins_from w h x 0 (vout (tx_of x)) else []
  | None => []
  end.

(** What SelectCoinsMinConf chooses from. *)
Definition usable_coins (w : CWallet) : list (Z * coin) := wallet_keys w ≫= coins_of w.

(** A coin of that list, spelled out. *)
Definition spendable (w : CWallet) (c : coin) : Prop :=
  exists x o, mapWallet w !! c.1 = Some x /\ usable_b w x = true /\ vout (tx_of x) !! c.2 = Some o /\
    flag x c.2 = false /\ IsMine_out fTestNet w o = true /\ nTime (tx_of x) <= nSpendTime /\ 0 < nValue o.

Definition coin_value (w : CWallet) (c : coin) : Z :=
  match x ← mapWallet w !! c.1; vout (tx_of x) !! c.2 with Some o => nValue o | None => 0 end.

Lemma usable_summand : summand fTestNet I usable_tx.
Proof.
  split.
  - intros w v x Hv. unfold CoinSelect.usable_tx. rewrite (confirmed_view _ _ _ _ _ w v) by done.
    destruct (confirmed _ _ _ _ _ _ _) as [[c y]|]; cbn [mbind option_bind]; [|done]. destruct (negb c); [done|].
    destruct (immature _ _ y) as [[im z]|]; cbn [mbind option_bind]; [|done]. destruct im; [done|].
    destruct (GetDepthInMainChain _ _) as [[d m]|]; cbn [mbind option_bind]; [|done]. unfold IsFromMe. by rewrite (GetDebit_view _ w v).
  - intros p w x y Hs. unfold CoinSelect.usable_tx. eapply agree_bind; [by apply confirmed_sim|]. intros c x1 y1 H1. cbn beta iota.
    destruct (negb c); [by split|]. eapply agree_bind; [by apply immature_sim|]. intros im x2 y2 H2. cbn beta iota.
    destruct im; [by split|]. eapply agree_bind; [by eapply depth_sim, (xsim_msim _ _ p w)|]. intros d m m' [Hm Hp]. cbn beta iota.
    eapply agree_bind; [by apply IsFromMe_sim, xsim_wtx|]. intros fm x3 y3 H3. by split.
Qed.

(** On a wallet with right caches, a usable transaction keeps what it is. *)
Lemma usable_keeps w h x r x' : caches_right fTestNet I w -> mapWallet w !! h = Some x -> usable_tx w x = Some (r, x') ->
  persist x' = persist x /\ cache_ok fTestNet I w x'.
Proof.
  intros Hc Hx Hu. assert (xsim fTestNet I (persist x) w x x) as Hs by (split; [done|done|by apply (Hc h)|by apply (Hc h)]).
  pose proof (sm_sim _ _ _ usable_summand _ _ _ _ Hs) as Ha. rewrite Hu in Ha. destruct Ha as [_ Hs']. by destruct Hs'.
Qed.

Lemma coins_from_elem w h x outs : forall i v c, (v, c) ∈ coins_from w h x i outs ->
  c.1 = h /\ exists k o, c.2 = (i + k)%nat /\ outs !! k = Some o /\ v = nValue o /\
    usable_out fTestNet nSpendTime w (tx_of x) (flag x c.2) o = true.
Proof.
  induction outs as [|o outs IH]; intros i v c Hc; simpl in Hc; [by apply elem_of_nil in Hc|].
  assert ((v, c) ∈ coins_from w h x (S i) outs -> c.1 = h /\ exists k o', c.2 = (i + k)%nat /\ (o :: outs) !! k = Some o' /\ v = nValue o' /\
    usable_out fTestNet nSpendTime w (tx_of x) (flag x c.2) o' = true) as Hrec.
  { intros H. destruct (IH _ _ _ H) as (Hh & k & o' & Hk & Ho & Hv & Hu). split; [done|]. exists (S k), o'. split; [lia|done]. }
  destruct (usable_out _ _ _ _ _ o) eqn:Hu; [|by apply Hrec]. apply elem_of_cons in Hc as [[= -> ->]|Hc]; [|by apply Hrec].
  split; [done|]. exists 0%nat, o. simpl. rewrite Nat.add_0_r. done.
Qed.

Lemma coins_from_NoDup w h x outs : forall i, NoDup (coins_from w h x i outs).*2.
Proof.
  induction outs as [|o outs IH]; intros i; simpl; [constructor|]. destruct (usable_out _ _ _ _ _ o); [|apply IH]. simpl.
  constructor; [|apply IH]. intros Hin. apply list_elem_of_fmap in Hin as ([v c] & Hc & Hin). simpl in Hc. subst c.
  apply coins_from_elem in Hin as (_ & k & o' & Hk & _). simpl in Hk. lia.
Qed.

Lemma usable_coins_elem w v c : (v, c) ∈ usable_coins w -> spendable w c /\ v = coin_value w c /\ 0 < v.
Proof.
  unfold usable_coins, coins_of. intros H. apply list_elem_of_bind in H as (h & H & Hh).
  destruct (mapWallet w !! h) as [x|] eqn:Hx; [|by apply elem_of_nil in H]. destruct (usable_b w x) eqn:Hb; [|by apply elem_of_nil in H].
  apply coins_from_elem in H as (<- & k & o & Hk & Ho & -> & Hu). simpl in Hk. rewrite <- Hk in Ho.
  unfold usable_out in Hu. bool_to_prop. unfold spendable, coin_value. rewrite Hx. cbn [mbind option_bind]. rewrite Ho.
  split; [|split; [done|lia]]. exists x, o. repeat split; try done; try lia.
Qed.

Lemma bind_NoDup {A C : Type} (f : A -> list C) l :
  NoDup l -> (forall a, NoDup (f a)) -> (forall a b c, c ∈ f a -> c ∈ f b -> a = b) -> NoDup (l ≫= f).
Proof.
  intros Hl Hf Hd. induction Hl as [|a l Ha _ IH]; simpl; [constructor|]. apply NoDup_app. split; [apply Hf|]. split; [|done].
  intros c Hc Hin. apply list_elem_of_bind in Hin as (b & Hb & Hbl). by rewrite (Hd a b c Hc Hb) in Ha.
Qed.

Lemma usable_coins_NoDup w : NoDup (usable_coins w).*2.
Proof.
  assert ((usable_coins w).*2 = wallet_keys w ≫= fun h => (coins_of w h).*2) as ->.
  { unfold usable_coins. induction (wallet_keys w) as [|h l IH]; [done|].
    rewrite !bind_cons, fmap_app, IH. done. }
  assert (forall h c, c ∈ (coins_of w h).*2 -> c.1 = h) as Hh.
  { intros h c Hc. apply list_elem_of_fmap in Hc as ([v c'] & -> & Hc). unfold coins_of in Hc. simpl.
    destruct (mapWallet w !! h) as [x|]; [|by apply elem_of_nil in Hc]. destruct (usable_b w x); [|by apply elem_of_nil in Hc].
    by apply coins_from_elem in Hc as [? _]. }
  apply bind_NoDup.
  - apply wallet_keys_spec.
  - intros h. unfold coins_of. destruct (mapWallet w !! h) as [x|]; [|constructor]. destruct (usable_b w x); [|constructor]. apply coins_from_NoDup.
  - intros a b c Ha Hb. by rewrite <- (Hh a c Ha), <- (Hh b c Hb).
Qed.

(** *** The scan is a fold over these coins *)

Lemma usable_uncached w h x : caches_right fTestNet I w -> mapWallet w !! h = Some x ->
  match usable_tx w x, usable_tx (uncached w) (persist x) with Some (b, _), Some (b', _) => b = b' | None, None => True | _, _ => False end.
Proof.
  intros Hc Hx. rewrite <- (sm_view _ _ _ usable_summand w (uncached w)) by apply uncached_view.
  assert (xsim fTestNet I (persist x) w x (persist x)) as Hs by (split; [done|by rewrite persist_idem|by apply (Hc h)|apply cache_ok_persist]).
  pose proof (sm_sim _ _ _ usable_summand _ _ _ _ Hs) as Ha. unfold agree in Ha.
  destruct (usable_tx w x) as [[b y]|], (usable_tx w (persist x)) as [[b' y']|]; try done. by destruct Ha.
Qed.

Lemma coins_from_ext w v h x y outs : store w = store v -> tx_of x = tx_of y -> vfSpent x = vfSpent y ->
  forall i, coins_from w h x i outs = coins_from v h y i outs.
Proof.
  intros Hs Ht Hf. induction outs as [|o outs IH]; intros i; cbn [coins_from]; [done|].
  unfold usable_out, flag, IsMine_out, IsMine_script. rewrite Hs, Ht, Hf, !IH. done.
Qed.

Lemma coins_of_uncached w h : caches_right fTestNet I w -> coins_of w h = coins_of (uncached w) h.
Proof.
  intros Hc. unfold coins_of. cbn [uncached set_mapWallet mapWallet]. rewrite lookup_fmap.
  destruct (mapWallet w !! h) as [x|] eqn:Hx; [|done]. cbn [fmap option_fmap option_map].
  assert (usable_b w x = usable_b (uncached w) (persist x)) as ->.
  { unfold usable_b. pose proof (usable_uncached w h x Hc Hx) as Hu.
    destruct (usable_tx w x) as [[b y]|], (usable_tx (uncached w) (persist x)) as [[b' y']|]; done. }
  destruct (usable_b _ _); [|done]. by apply coins_from_ext.
Qed.

(** No method of an entry throws. *)
Definition no_throw (w : CWallet) : Prop := forall h x, mapWallet w !! h = Some x -> usable_tx w x <> None.

Lemma no_throw_uncached w : caches_right fTestNet I w -> no_throw w <-> no_throw (uncached w).
Proof.
  intros Hc. split; intros H h x Hx.
  - cbn [uncached set_mapWallet mapWallet] in Hx. rewrite lookup_fmap in Hx. destruct (mapWallet w !! h) as [y|] eqn:Hy; [|done].
    injection Hx as <-. specialize (H h y Hy). pose proof (usable_uncached w h y Hc Hy) as Hu.
    by destruct (usable_tx w y) as [[??]|], (usable_tx (uncached w) (persist y)) as [[??]|].
  - assert (mapWallet (uncached w) !! h = Some (persist x)) as Hx' by (cbn; by rewrite lookup_fmap, Hx).
    specialize (H h _ Hx'). pose proof (usable_uncached w h x Hc Hx) as Hu.
    by destruct (usable_tx w x) as [[??]|], (usable_tx (uncached w) (persist x)) as [[??]|].
Qed.

Context (T : Z).

Fixpoint gather_list (l : list (Z * coin)) (g : gathered) : coin * Z + gathered :=
  match l with
  | [] => inr g
  | (n, c) :: l =>
      if n =? T then inl (c, n)
      else if n <? i64 (T + CENT) then gather_list l (mk_gathered (vValue g ++ [(n, c)]) (i64 (nTotalLower g + n)) (coinLowestLarger g))
      else if n <? (coinLowestLarger g).1 then gather_list l (mk_gathered (vValue g) (nTotalLower g) (n, Some c))
      else gather_list l g
  end.

Lemma gather_list_app l k : forall g, gather_list (l ++ k) g = match gather_list l g with inl c => inl c | inr g => gather_list k g end.
Proof.
  induction l as [|[n c] l IH]; intros g; simpl; [done|]. destruct (_ =? _); [done|]. destruct (_ <? _); [apply IH|]. destruct (_ <? _); apply IH.
Qed.

Lemma gather_outs_list w h x outs : forall i g, (i + length outs = length (vout (tx_of x)))%nat ->
  gather_outs fTestNet T nSpendTime w h x i outs g = Some (gather_list (coins_from w h x i outs) g).
Proof.
  induction outs as [|o outs IH]; intros i g Hi; cbn [gather_outs coins_from]; [done|]. simpl in Hi.
  rewrite IsSpent_flag by lia. cbn [mbind option_bind]. destruct (usable_out _ _ _ _ _ _); cbn [negb]; [|apply IH; lia]. cbn [gather_list].
  destruct (_ =? _); [done|]. rewrite !IH by lia. destruct (_ <? _); [done|]. by destruct (_ <? _).
Qed.

#[local] Abbreviation gather := (gather fTestNet I nCoinbaseMaturity nBestHeight nNow fuel T nSpendTime nConfMine nConfTheirs).

Lemma gather_spec l : forall g w, caches_right fTestNet I w -> no_throw w -> (forall h, h ∈ l -> is_Some (mapWallet w !! h)) ->
  exists w', gather l g w = Some (gather_list (l ≫= coins_of w) g, w') /\ caches_right fTestNet I w' /\ uncached w' = uncached w.
Proof.
  induction l as [|h l IH]; intros g w Hc Hn Hl; [by exists w|].
  destruct (Hl h ltac:(left)) as [x Hx]. cbn [CoinSelect.gather]. rewrite Hx. cbn [mbind option_bind].
  destruct (usable_tx w x) as [[ok x']|] eqn:Hu; [|by destruct (Hn h x Hx)]. cbn [mbind option_bind].
  destruct (usable_keeps w h x ok x' Hc Hx Hu) as [Hp Hok].
  set (w1 := set_mapWallet (<[h := x']> (mapWallet w)) w).
  pose proof (uncached_set w h x x' Hx Hp) as Hun. fold w1 in Hun.
  assert (caches_right fTestNet I w1) as Hc1.
  { pose proof (view_set w h x x' Hx (persist_tx _ _ Hp)) as Hv. intros k z Hz. apply (cache_ok_view _ _ w); [done|].
    cbn in Hz. destruct (decide (h = k)) as [<-|Hk]; [by rewrite lookup_insert_eq in Hz; injection Hz as <-|].
    rewrite lookup_insert_ne in Hz by done. by apply (Hc k). }
  assert (no_throw w1) as Hn1.
  { apply (no_throw_uncached w1 Hc1). rewrite Hun. by apply (no_throw_uncached w Hc). }
  assert (forall k, coins_of w1 k = coins_of w k) as Hco by (intros k; rewrite (coins_of_uncached w1 k Hc1), Hun; symmetry; by apply coins_of_uncached).
  assert (l ≫= coins_of w1 = l ≫= coins_of w) as Hlo.
  { clear -Hco. induction l as [|k l IH]; [done|]. rewrite !bind_cons, IH, Hco. done. }
  assert (forall k, k ∈ l -> is_Some (mapWallet w1 !! k)) as Hl1.
  { intros k Hk. cbn. destruct (decide (h = k)) as [<-|]; [rewrite lookup_insert_eq; eauto|]. rewrite lookup_insert_ne by done. apply Hl. by right. }
  assert (coins_of w h = if ok then coins_from w h x 0 (vout (tx_of x)) else []) as Hch.
  { unfold coins_of, usable_b. by rewrite Hx, Hu. }
  rewrite bind_cons, gather_list_app, Hch. destruct ok; cbn [negb].
  - destruct (persist_eq _ _ Hp) as (_ & Et & Ev & _). rewrite gather_outs_list by done. cbn [mbind option_bind].
    rewrite Et, (coins_from_ext w1 w h x' x) by done.
    destruct (gather_list (coins_from w h x 0 (vout (tx_of x))) g) as [c|g']; [by exists w1|].
    destruct (IH g' w1 Hc1 Hn1 Hl1) as (w' & Hg & Hcw & Huw). exists w'. rewrite Hg, Hlo. split; [done|]. split; [done|congruence].
  - simpl. destruct (IH g w1 Hc1 Hn1 Hl1) as (w' & Hg & Hcw & Huw). exists w'. rewrite Hg, Hlo. split; [done|]. split; [done|congruence].
Qed.

(** *** Whatever is cached, only caches change *)

Lemma GetDebit_persist w x v x' : GetDebit fTestNet w x = Some (v, x') -> persist x' = persist x.
Proof.
  unfold GetDebit. destruct (bool_decide _); [by intros [= <- <-]|]. destruct (debitCached x); [by intros [= <- <-]|].
  destruct (GetDebit_tx _ _ _); [|done]. cbn [mbind option_bind]. by intros [= <- <-].
Qed.

Lemma IsFromMe_persist w x v x' : IsFromMe fTestNet w x = Some (v, x') -> persist x' = persist x.
Proof.
  unfold IsFromMe. destruct (GetDebit _ _ x) as [[d y]|] eqn:Hd; [|done]. cbn [mbind option_bind]. intros [= <- <-]. by apply GetDebit_persist in Hd.
Qed.

Lemma put_ptr_persist x q m m' : at_ptr x q = Some m -> persist_mtx m' = persist_mtx m -> persist (put_ptr q m' x) = persist x.
Proof.
  intros Hq Hm. destruct q as [k|]; simpl in *; [|injection Hq as <-; by apply persist_with_wtx].
  assert (persist_mtx <$> <[k := m']> (vtxPrev x) = persist_mtx <$> vtxPrev x) as He.
  { rewrite list_fmap_insert. apply list_insert_id. rewrite list_lookup_fmap, Hq, Hm. done. }
  unfold persist. cbn. by rewrite He.
Qed.

Lemma confirm_loop_persist w n : forall queue x b x',
  confirm_loop fTestNet w I nBestHeight nNow n queue x = Some (Some (b, x')) -> persist x' = persist x.
Proof.
  induction n as [|n IH]; intros [|q queue] x b x'; cbn [confirm_loop]; try done; try (by intros [= <- <-]).
  destruct (at_ptr x q) as [m|] eqn:Hq; [|done]. destruct (negb _); [by intros [= <- <-]|].
  destruct (GetDepthInMainChain I m) as [[d m']|] eqn:Hd; [|done]. apply depth_persist in Hd.
  rewrite <- (put_ptr_persist x q m m' Hq Hd). cbv zeta. destruct (1 <=? d); [apply IH|].
  destruct (IsFromMe_tx _ _ _) as [fm|]; [|done]. destruct (map_prev _); [|done]. destruct (negb fm); [by intros [= <- <-]|].
  destruct (mapM _ _); [apply IH|by intros [= <- <-]].
Qed.

Lemma confirmed_persist w x b x' : confirmed fTestNet I nBestHeight nNow fuel w x = Some (b, x') -> persist x' = persist x.
Proof.
  unfold confirmed, IsConfirmed. destruct (negb _); [by intros [= <- <-]|].
  destruct (GetDepthInMainChain I (wtx x)) as [[d m]|] eqn:Hd; [|done]. cbn [mbind option_bind]. apply depth_persist, persist_with_wtx in Hd.
  rewrite <- Hd. destruct (1 <=? d); [by intros [= <- <-]|]. destruct (IsFromMe _ _ _) as [[fm y]|] eqn:Hf; [|done]. cbn [mbind option_bind].
  apply IsFromMe_persist in Hf. rewrite <- Hf. destruct (negb fm); [by intros [= <- <-]|].
  destruct (confirm_loop _ _ _ _ _ _ _ _) as [r|] eqn:Hc; [|done]. simpl. intros ->. by apply confirm_loop_persist in Hc.
Qed.

Lemma usable_persist w x b x' : usable_tx w x = Some (b, x') -> persist x' = persist x.
Proof.
  unfold CoinSelect.usable_tx. destruct (confirmed _ _ _ _ _ _ _) as [[c y]|] eqn:Hc; [|done]. cbn [mbind option_bind].
  apply confirmed_persist in Hc. rewrite <- Hc. destruct (negb c); [by intros [= <- <-]|].
  destruct (immature _ _ y) as [[im z]|] eqn:Him; [|done]. cbn [mbind option_bind]. apply immature_persist in Him. rewrite <- Him.
  destruct im; [by intros [= <- <-]|]. destruct (GetDepthInMainChain I (wtx z)) as [[d m]|] eqn:Hd; [|done]. cbn [mbind option_bind].
  apply depth_persist, persist_with_wtx in Hd. rewrite <- Hd. destruct (IsFromMe _ _ _) as [[fm u]|] eqn:Hf; [|done]. cbn [mbind option_bind].
  intros [= _ <-]. by apply IsFromMe_persist in Hf.
Qed.

Lemma gather_sound l : forall g w r w', NoDup l -> gather l g w = Some (r, w') ->
  r = gather_list (l ≫= coins_of w) g /\ uncached w' = uncached w.
Proof.
  induction l as [|h l IH]; intros g w r w' Hnd; cbn [CoinSelect.gather]; [by intros [= <- <-]|].
  apply NoDup_cons in Hnd as [Hh Hnd]. destruct (mapWallet w !! h) as [x|] eqn:Hx; [|done]. cbn [mbind option_bind].
  destruct (usable_tx w x) as [[ok x']|] eqn:Hu; [|done]. cbn [mbind option_bind]. pose proof (usable_persist w x ok x' Hu) as Hp.
  set (w1 := set_mapWallet (<[h := x']> (mapWallet w)) w). pose proof (uncached_set w h x x' Hx Hp) as Hun. fold w1 in Hun.
  pose proof (view_set w h x x' Hx (persist_tx _ _ Hp)) as Hv. fold w1 in Hv.
  assert (forall k, k <> h -> coins_of w1 k = coins_of w k) as Hco.
  { intros k Hk. unfold coins_of. cbn [w1 set_mapWallet mapWallet]. rewrite lookup_insert_ne by done. destruct (mapWallet w !! k) as [y|]; [|done].
    unfold usable_b. rewrite <- (sm_view _ _ _ usable_summand w w1 y Hv). destruct (default _ _); [|done]. by apply coins_from_ext. }
  assert (l ≫= coins_of w1 = l ≫= coins_of w) as Hlo.
  { clear -Hco Hh. induction l as [|k l IH]; [done|]. rewrite !bind_cons, IH, Hco; [done|intros ->; apply Hh; left|].
    intros Hin. apply Hh. by right. }
  assert (coins_of w h = if ok then coins_from w h x 0 (vout (tx_of x)) else []) as Hch.
  { unfold coins_of, usable_b. by rewrite Hx, Hu. }
  rewrite bind_cons, gather_list_app, Hch, <- Hlo, <- Hun. destruct ok; cbn [negb]; [|by apply IH].
  destruct (persist_eq _ _ Hp) as (_ & Et & Ev & _). rewrite gather_outs_list by done. cbn [mbind option_bind].
  rewrite Et, (coins_from_ext w1 w h x' x) by done.
  destruct (gather_list (coins_from w h x 0 (vout (tx_of x))) g) as [c|g']; [by intros [= <- <-]|]. by apply IH.
Qed.

(** *** What the scan gathers *)

Definition larger_ok (l : list (Z * coin)) (p : Z * option coin) : Prop :=
  match p.2 with
  | Some c => (p.1, c) ∈ l /\ T + CENT <= p.1
  | None => p.1 = INT64_MAX /\ forall q, q ∈ l -> q.1 < T + CENT
  end.

Record good (l : list (Z * coin)) (g : gathered) : Prop := {
  gd_lower : vValue g = filter (fun p => p.1 < T + CENT) l;
  gd_total : nTotalLower g = sumZ (vValue g).*1;
  gd_larger : larger_ok l (coinLowestLarger g);
  gd_exact : forall p, p ∈ l -> p.1 <> T
}.

Definition amounts_ok (l : list (Z * coin)) : Prop := Forall (fun v => 0 < v) l.*1 /\ sumZ l.*1 <= MAX_TOTAL.

Lemma filter_sum (P : Z * coin -> Prop) `{!forall p, Decision (P p)} l :
  Forall (fun v => 0 < v) l.*1 -> 0 <= sumZ (filter P l).*1 <= sumZ l.*1.
Proof.
  induction l as [|p l IH]; [done|]. intros Hfa. rewrite fmap_cons in Hfa. apply Forall_cons in Hfa as [Hp Hl]. specialize (IH Hl).
  rewrite filter_cons. case_decide; cbn [fmap list_fmap sumZ foldr]; fold (sumZ (filter P l).*1); fold (sumZ l.*1); lia.
Qed.

Hypothesis T_range : 0 <= T <= MAX_TOTAL.

Lemma target_cent : i64 (T + CENT) = T + CENT.
Proof. apply i64_small. unfold MAX_TOTAL, CENT in *. lia. Qed.

Lemma good_nil : good [] (mk_gathered [] 0 (INT64_MAX, None)).
Proof. split; try done; [split; [done|]; intros q Hq; by apply elem_of_nil in Hq|intros q Hq; by apply elem_of_nil in Hq]. Qed.

Lemma good_snoc l g n c : good l g -> amounts_ok (l ++ [(n, c)]) -> n <> T ->
  good (l ++ [(n, c)])
    (if n <? i64 (T + CENT) then mk_gathered (vValue g ++ [(n, c)]) (i64 (nTotalLower g + n)) (coinLowestLarger g)
     else if n <? (coinLowestLarger g).1 then mk_gathered (vValue g) (nTotalLower g) (n, Some c) else g).
Proof.
  intros [H1 H2 H3 H4] [Hpos Hsum] Hn. rewrite target_cent. rewrite fmap_app in Hpos, Hsum. rewrite sumZ_app in Hsum. cbn in Hsum.
  apply Forall_app in Hpos as [Hpos Hpn]. apply Forall_cons in Hpn as [Hpn _]. cbn in Hpn.
  pose proof (filter_sum (fun p => p.1 < T + CENT) l Hpos) as Hf. rewrite <- H1, <- H2 in Hf.
  assert (forall p, p ∈ l ++ [(n, c)] -> p.1 <> T) as Hex.
  { intros p Hp. apply elem_of_app in Hp as [Hp|Hp]; [by apply H4|]. by apply list_elem_of_singleton in Hp as ->. }
  destruct (Z.ltb_spec n (T + CENT)) as [Hlt|Hge].
  - split; cbn [vValue nTotalLower coinLowestLarger]; [rewrite filter_app, H1; f_equal; rewrite filter_cons; cbn; by rewrite decide_True| | |done].
    + rewrite fmap_app, sumZ_app, H2. cbn. rewrite i64_small; [lia|]. rewrite <- H2. unfold MAX_TOTAL in *. lia.
    + revert H3. unfold larger_ok. destruct (coinLowestLarger g).2; intros [Ha Hb]; (split; [try done|try done]); [apply elem_of_app; by left|].
      intros q Hq. apply elem_of_app in Hq as [Hq|Hq]; [by apply Hb|]. by apply list_elem_of_singleton in Hq as ->.
  - assert (vValue g = filter (fun p => p.1 < T + CENT) (l ++ [(n, c)])) as Hl.
    { rewrite filter_app, H1, filter_cons. cbn. rewrite decide_False by lia. cbn. by rewrite app_nil_r. }
    destruct (Z.ltb_spec n (coinLowestLarger g).1) as [Hlow|Hlow]; split; cbn [vValue nTotalLower coinLowestLarger]; try done.
    + split; [apply elem_of_app; right; left|done].
    + revert H3 Hlow. unfold larger_ok. destruct (coinLowestLarger g).2; intros [Ha Hb] Hlow.
      * split; [apply elem_of_app; by left|done].
      * exfalso. rewrite Ha in Hlow. pose proof (sumZ_nonneg l.*1 ltac:(eapply Forall_impl; [exact Hpos|simpl; lia])).
        unfold INT64_MAX, MAX_TOTAL in *. lia.
Qed.

Lemma amounts_app l k : amounts_ok (l ++ k) -> amounts_ok l.
Proof.
  intros [Hp Hs]. rewrite fmap_app in Hp, Hs. apply Forall_app in Hp as [Hl Hk]. rewrite sumZ_app in Hs. split; [done|].
  pose proof (sumZ_nonneg k.*1 ltac:(eapply Forall_impl; [exact Hk|simpl; lia])). lia.
Qed.

Lemma gather_list_spec l : forall pre g, good pre g -> amounts_ok (pre ++ l) ->
  match gather_list l g with inl (c, n) => n = T /\ (T, c) ∈ pre ++ l | inr g' => good (pre ++ l) g' end.
Proof.
  induction l as [|[n c] l IH]; intros pre g Hg Ha; [by rewrite app_nil_r|]. cbn [gather_list].
  destruct (Z.eqb_spec n T) as [->|Hn]; [split; [done|apply elem_of_app; right; left]|].
  rewrite cons_middle, app_assoc in Ha. pose proof (good_snoc pre g n c Hg (amounts_app _ _ Ha) Hn) as Hs.
  rewrite (cons_middle (n, c) pre l), (app_assoc pre [(n, c)] l). specialize (IH _ _ Hs Ha).
  revert IH. destruct (n <? i64 (T + CENT)); [done|]. by destruct (n <? (coinLowestLarger g).1).
Qed.

Lemma total_of_sum l : amounts_ok l -> total_of l = sumZ l.*1.
Proof.
  unfold total_of. intros [Hp Hs]. assert (forall acc, 0 <= acc -> acc + sumZ l.*1 <= MAX_TOTAL ->
    foldl (fun t c => i64 (t + c.1)) acc l = acc + sumZ l.*1) as Hgen; [|rewrite Hgen; lia].
  clear Hs. induction l as [|p l IH]; intros acc Ha Hs; cbn in *; [lia|]. apply Forall_cons in Hp as [Hv Hp].
  fold (sumZ l.*1) in *. pose proof (sumZ_nonneg l.*1 ltac:(eapply Forall_impl; [exact Hp|simpl; lia])).
  rewrite i64_small by (unfold MAX_TOTAL in *; lia). rewrite IH; [lia|done|lia|lia].
Qed.

Context (node : Z -> Z).

Lemma set_of_perm l : NoDup l -> set_of node l ≡ₚ l.
Proof.
  intros Hl. unfold set_of. rewrite merge_sort_Permutation. apply NoDup_Permutation; [apply NoDup_remove_dups|done|].
  intros x. by rewrite elem_of_remove_dups.
Qed.

(** A choice among the usable coins. *)
Record choice (w : CWallet) (coins : list coin) (v : Z) : Prop := {
  ch_NoDup : NoDup coins;
  ch_spendable : Forall (spendable w) coins;
  ch_value : v = sumZ (coin_value w <$> coins)
}.

Lemma choice_of w (l : list (Z * coin)) : NoDup l.*2 -> (forall p, p ∈ l -> p ∈ usable_coins w) -> choice w (set_of node l.*2) (sumZ l.*1).
Proof.
  intros Hn Hl. pose proof (set_of_perm l.*2 Hn) as Hp. split.
  - by rewrite Hp.
  - rewrite Hp. apply Forall_fmap, Forall_forall. intros [v c] Hc. apply Hl in Hc. by apply usable_coins_elem in Hc as [? _].
  - rewrite Hp. clear Hn Hp. induction l as [|[v c] l IH]; [done|]. cbn. fold (sumZ l.*1). rewrite IH by (intros p Hpl; apply Hl; by right).
    assert ((v, c) ∈ usable_coins w) as Hv by (apply Hl; left). apply usable_coins_elem in Hv as (_ & -> & _). done.
Qed.

Lemma NoDup_fmap_sub {A C : Type} (f : A -> C) l k : l `sublist_of` k -> NoDup (f <$> k) -> NoDup (f <$> l).
Proof. intros Hs Hk. eapply sublist_NoDup; [done|by apply fmap_sublist]. Qed.

Lemma positive_sum k : Forall (fun v => 0 < v) k -> 0 <= sumZ k.
Proof. intros Hk. apply sumZ_nonneg. eapply Forall_impl; [exact Hk|simpl; lia]. Qed.

Lemma single_choice w l : l ≡ₚ usable_coins w -> amounts_ok l -> forall n c, (n, c) ∈ l -> choice w (set_of node [c]) n /\ n <= sumZ l.*1.
Proof.
  intros Hl [Hp _] n c Hin. split.
  - replace n with (sumZ [(n, c)].*1) by (cbn; lia). apply (choice_of w [(n, c)]); [cbn; apply NoDup_singleton|].
    intros p Hpn. apply list_elem_of_singleton in Hpn as ->. by rewrite <- Hl.
  - clear Hl. apply list_elem_of_split in Hin as (l1 & l2 & ->). rewrite fmap_app, fmap_cons in *.
    rewrite sumZ_app. cbn. fold (sumZ l2.*1). apply Forall_app in Hp as [Hp1 Hp2]. apply Forall_cons in Hp2 as [_ Hp2].
    pose proof (positive_sum _ Hp1). pose proof (positive_sum _ Hp2). lia.
Qed.

(** *** After the scan of coins [l] *)

Section after_scan.
Context (w : CWallet) (l : list (Z * coin)) (g : gathered).
Hypothesis l_all : l ≡ₚ usable_coins w.
Hypothesis l_amounts : amounts_ok l.
Hypothesis l_good : good l g.

Lemma l_usable p : p ∈ l -> p ∈ usable_coins w.
Proof. by rewrite <- l_all. Qed.

Lemma lower_in p : p ∈ vValue g -> p ∈ l.
Proof. rewrite (gd_lower _ _ l_good). by intros [_ Hp]%list_elem_of_filter. Qed.

Lemma lower_NoDup : NoDup (vValue g).*2.
Proof.
  apply (NoDup_fmap_sub _ _ l); [rewrite (gd_lower _ _ l_good); apply sublist_filter|]. rewrite l_all. apply usable_coins_NoDup.
Qed.

Lemma lower_sum : nTotalLower g <= sumZ l.*1.
Proof. rewrite (gd_total _ _ l_good), (gd_lower _ _ l_good). apply filter_sum, l_amounts. Qed.

(** Any part of the gathered coins has valid amounts. *)
Lemma part_amounts k : (forall p, p ∈ k -> p ∈ vValue g) -> sumZ k.*1 <= nTotalLower g -> amounts_ok k.
Proof.
  intros Hk Hs. split; [|pose proof lower_sum; destruct l_amounts; lia].
  apply Forall_forall. intros v Hv. apply list_elem_of_fmap in Hv as (p & -> & Hp). destruct l_amounts as [Hpos _].
  rewrite Forall_forall in Hpos. apply Hpos, list_elem_of_fmap_2. by apply lower_in, Hk.
Qed.

Lemma part_choice k : NoDup k.*2 -> (forall p, p ∈ k -> p ∈ vValue g) -> sumZ k.*1 <= nTotalLower g ->
  choice w (set_of node k.*2) (total_of k) /\ total_of k = sumZ k.*1.
Proof.
  intros Hn Hk Hs. pose proof (part_amounts k Hk Hs) as Ha. rewrite total_of_sum by done. split; [|done].
  apply choice_of; [done|]. intros p Hp. by apply l_usable, lower_in, Hk.
Qed.

Lemma lower_choice : choice w (set_of node (vValue g).*2) (total_of (vValue g)) /\ total_of (vValue g) = nTotalLower g.
Proof. rewrite (gd_total _ _ l_good). apply part_choice; [apply lower_NoDup|done|]. by rewrite (gd_total _ _ l_good). Qed.

Lemma larger_choice c : (coinLowestLarger g).2 = Some c ->
  choice w (set_of node [c]) (coinLowestLarger g).1 /\ T + CENT <= (coinLowestLarger g).1 <= sumZ l.*1.
Proof.
  intros Hc. pose proof (gd_larger _ _ l_good) as H3. unfold larger_ok in H3. rewrite Hc in H3. destruct H3 as [Hin Hge].
  destruct (single_choice w l l_all l_amounts _ _ Hin) as [Hch Hle]. done.
Qed.

Lemma no_larger : (coinLowestLarger g).2 = None -> nTotalLower g = sumZ l.*1.
Proof.
  intros Hc. pose proof (gd_larger _ _ l_good) as H3. unfold larger_ok in H3. rewrite Hc in H3. destruct H3 as [_ Hall].
  rewrite (gd_total _ _ l_good), (gd_lower _ _ l_good). do 2 f_equal. clear -Hall. induction l as [|p k IH]; [done|].
  rewrite filter_cons, decide_True by (apply Hall; left). f_equal. apply IH. intros q Hq. apply Hall. by right.
Qed.

Lemma best_choice T' toss : T' <= nTotalLower g ->
  let sorted := merge_sort (value_ge node) (vValue g) in
  let '(nBest, vfBest) := approximate T' sorted.*1 toss (nTotalLower g) in
  choice w (set_of node (chosen sorted vfBest).*2) (total_of (chosen sorted vfBest)) /\ total_of (chosen sorted vfBest) = nBest /\
  T' <= nBest <= nTotalLower g.
Proof.
  intros HT. cbv zeta. set (sorted := merge_sort (value_ge node) (vValue g)). assert (sorted ≡ₚ vValue g) as Hso by apply merge_sort_Permutation.
  assert (sumZ sorted.*1 = nTotalLower g) as Hss by (by rewrite Hso, (gd_total _ _ l_good)).
  assert (Forall (fun v => 0 <= v) sorted.*1) as Hsp.
  { rewrite Hso. destruct (part_amounts (vValue g)) as [Hp _]; [done|by rewrite (gd_total _ _ l_good)|].
    eapply Forall_impl; [exact Hp|simpl; lia]. }
  destruct (approximate_ok T' sorted.*1 Hsp) with (toss := toss) (total := nTotalLower g) as (_ & Hbest & Hb); [|done|done|].
  { rewrite Hss. pose proof lower_sum. destruct l_amounts. lia. }
  destruct (approximate T' sorted.*1 toss (nTotalLower g)) as [nBest vf]. cbn [fst snd] in *.
  pose proof (sum_chosen_le sorted.*1 vf Hsp) as Hle. rewrite chosen_fmap in Hbest, Hle.
  destruct (part_choice (chosen sorted vf)) as [Hch Ht].
  - apply (NoDup_fmap_sub _ _ sorted); [apply chosen_sublist|]. rewrite Hso. apply lower_NoDup.
  - intros p Hp. rewrite <- Hso. by apply (sublist_subseteq _ _ (chosen_sublist sorted vf)).
  - lia.
  - split; [done|]. lia.
Qed.

Definition chosen_well (r : bool * list coin * Z) : Prop :=
  let '(ok, coins, v) := r in
  (ok = true <-> T <= sumZ l.*1) /\
  (ok = true -> choice w coins v /\ (v = T \/ T + CENT <= v \/ T <= v /\ sumZ l.*1 < T + CENT)) /\
  (ok = true -> v <= sumZ l.*1).

Lemma chosen_well_yes coins v : choice w coins v -> T <= v <= sumZ l.*1 -> v = T \/ T + CENT <= v \/ sumZ l.*1 < T + CENT ->
  chosen_well (true, coins, v).
Proof. intros Hch Hv Hd. split; [split; [lia|done]|]. split; [|lia]. intros _. split; [done|]. lia. Qed.

Lemma choose_coins_spec toss : chosen_well (choose_coins node T toss g).
Proof.
  pose proof lower_sum as Hls. destruct lower_choice as [Hlc Hlt]. pose proof larger_choice as Hlg. pose proof no_larger as Hnl.
  destruct l_amounts as [_ Hmax]. unfold choose_coins. rewrite target_cent.
  destruct (coinLowestLarger g) as [nLarger larger]. cbn [fst snd] in *. assert (0 < CENT) as Hcent by done.
  destruct ((nTotalLower g =? T) || (nTotalLower g =? T + CENT)) eqn:He.
  { apply chosen_well_yes; [done| |]; rewrite Hlt; apply orb_true_iff in He; lia. }
  apply orb_false_iff in He as [He1 He2].
  assert (forall c, larger = Some c -> chosen_well (true, set_of node [c], i64 (0 + nLarger))) as Hone.
  { intros c Hc. destruct (Hlg c Hc) as [Hch Hle]. rewrite Z.add_0_l, i64_small by (unfold MAX_TOTAL, CENT in *; lia).
    apply chosen_well_yes; [done|lia|lia]. }
  rewrite (i64_small (T + _)) by (unfold MAX_TOTAL, CENT in *; destruct larger; lia).
  destruct (Z.ltb_spec (nTotalLower g) (T + match larger with Some _ => CENT | None => 0 end)) as [Hlt'|Hge].
  { destruct larger as [c|]; [by apply Hone|]. rewrite Hnl in Hlt' by done. split; [split; [done|lia]|done]. }
  cbv zeta. set (T' := if T + CENT <=? nTotalLower g then T + CENT else T).
  assert (T' = T + CENT /\ T + CENT <= nTotalLower g \/ T' = T /\ nTotalLower g < T + CENT /\ larger = None) as HT'.
  { unfold T'. destruct (Z.leb_spec (T + CENT) (nTotalLower g)); [by left|]. right. destruct larger; [lia|done]. }
  clearbody T'. assert (T' <= nTotalLower g) as Hle' by (destruct larger; lia).
  pose proof (best_choice T' toss Hle') as Hb. cbv zeta in Hb.
  destruct (approximate T' _ toss (nTotalLower g)) as [nBest vfBest]. destruct Hb as (Hch & Ht & Hr).
  set (best := chosen _ vfBest) in *. assert (chosen_well (true, set_of node best.*2, total_of best)) as Hbest.
  { apply chosen_well_yes; [done|rewrite Ht; lia|]. rewrite Ht. destruct HT' as [[-> ?]|(-> & ? & Hn)]; [lia|]. rewrite <- (Hnl Hn). lia. }
  destruct larger as [c|]; [|exact Hbest]. destruct (_ <=? _); [by apply Hone|exact Hbest].
Qed.

End after_scan.

(** SelectCoinsMinConf on a wallet with right caches: it succeeds exactly when the
    spendable coins reach the target; then the chosen coins are distinct and
    spendable (in the wallet, ours, not spent, mature, deep enough, not newer than
    the spending transaction, positive), their value is the value returned, and
    it is the target, or leaves at least a cent of change, or there is no way to
    leave a cent.  Nothing but caches changes. *)
Lemma SelectCoinsMinConf_spec rnd toss w :
  caches_right fTestNet I w -> no_throw w -> sumZ (usable_coins w).*1 <= MAX_TOTAL ->
  exists ok coins v w',
    SelectCoinsMinConf fTestNet I nCoinbaseMaturity nBestHeight nNow fuel node T nSpendTime nConfMine nConfTheirs rnd toss w = Some (ok, coins, v, w') /\
    caches_right fTestNet I w' /\ uncached w' = uncached w /\
    (ok = true <-> T <= sumZ (usable_coins w).*1) /\
    (ok = true -> choice w coins v /\ (v = T \/ T + CENT <= v \/ T <= v /\ sumZ (usable_coins w).*1 < T + CENT)).
Proof.
  intros Hc Hn Hsum. set (order := random_shuffle rnd (wallet_keys w)).
  assert (order ≡ₚ wallet_keys w) as Hord by apply random_shuffle_perm.
  destruct (gather_spec order (mk_gathered [] 0 (INT64_MAX, None)) w Hc Hn) as (w' & Hg & Hc' & Hu').
  { intros h Hh. apply wallet_keys_spec. by rewrite <- Hord. }
  set (l := order ≫= coins_of w) in *. assert (l ≡ₚ usable_coins w) as Hl by (unfold l, usable_coins; by rewrite Hord).
  assert (amounts_ok l) as Ha.
  { split; [|by rewrite Hl]. rewrite Hl. apply Forall_fmap, Forall_forall. intros [v c] Hv. by apply usable_coins_elem in Hv as (_ & _ & ?). }
  assert (sumZ (usable_coins w).*1 = sumZ l.*1) as Hsl by (by rewrite Hl). rewrite Hsl in *. unfold SelectCoinsMinConf. fold order. rewrite Hg. cbn [mbind option_bind].
  pose proof (gather_list_spec l [] _ good_nil Ha) as Hs. rewrite app_nil_l in Hs.
  destruct (gather_list l _) as [[c n]|g].
  - destruct Hs as [-> Hin]. destruct (single_choice w l Hl Ha _ _ Hin) as [Hch Hle]. rewrite Z.add_0_l, i64_small by (unfold MAX_TOTAL in *; lia).
    do 4 eexists. split; [done|]. split; [done|]. split; [done|]. split; [done|]. intros _. auto.
  - pose proof (choose_coins_spec w l g Hl Ha Hs toss) as Hw. destruct (choose_coins node T toss g) as [[ok coins] v].
    destruct Hw as (Hok & Hch & _). exists ok, coins, v, w'. auto.
Qed.

(** Whatever is cached: a choice that is returned is one, and reaches the target. *)
Lemma SelectCoinsMinConf_sound rnd toss w coins v w' :
  sumZ (usable_coins w).*1 <= MAX_TOTAL ->
  SelectCoinsMinConf fTestNet I nCoinbaseMaturity nBestHeight nNow fuel node T nSpendTime nConfMine nConfTheirs rnd toss w = Some (true, coins, v, w') ->
  choice w coins v /\ T <= v <= MAX_TOTAL /\ uncached w' = uncached w.
Proof.
  intros Hsum. unfold SelectCoinsMinConf. set (order := random_shuffle rnd (wallet_keys w)).
  assert (order ≡ₚ wallet_keys w) as Hord by apply random_shuffle_perm.
  destruct (gather order _ w) as [[r w1]|] eqn:Hg; [|done]. cbn [mbind option_bind].
  apply gather_sound in Hg as [-> Hu]; [|rewrite Hord; apply wallet_keys_spec].
  set (l := order ≫= coins_of w) in *. assert (l ≡ₚ usable_coins w) as Hl by (unfold l, usable_coins; by rewrite Hord).
  assert (amounts_ok l) as Ha.
  { split; [|by rewrite Hl]. rewrite Hl. apply Forall_fmap, Forall_forall. intros [u c] Hv. by apply usable_coins_elem in Hv as (_ & _ & ?). }
  pose proof (gather_list_spec l [] _ good_nil Ha) as Hs. rewrite app_nil_l in Hs. destruct Ha as [Hap Has].
  destruct (gather_list l _) as [[c n]|g].
  - destruct Hs as [-> Hin]. destruct (single_choice w l Hl (conj Hap Has) _ _ Hin) as [Hch Hle].
    rewrite Z.add_0_l, i64_small by (unfold MAX_TOTAL in *; lia). intros [= <- <- <-]. split; [done|]. split; [lia|done].
  - pose proof (choose_coins_spec w l g Hl (conj Hap Has) Hs toss) as Hw. destruct (choose_coins node T toss g) as [[ok cs] u].
    intros [= -> <- <- <-]. destruct Hw as (_ & Hch & Hub). destruct (Hch eq_refl) as [Hc Hd]. specialize (Hub eq_refl).
    split; [done|]. split; [|done]. unfold CENT in *. lia.
Qed.

End usable_coins.
(** ** SelectCoins *)

Section select_coins.
Context {B : Tx.Abi} {L : BNLib} {D : DigestLib} {E : ECLib} {G : ECGroup E} {V : EVPLib} (fTestNet : bool).
Context (I : index) (nCoinbaseMaturity nBestHeight nNow : Z) (fuel : nat) (nSpendTime : Z) (node : Z -> Z).

#[local] Abbreviation usable conf := (usable_coins fTestNet I nCoinbaseMaturity nBestHeight nNow fuel nSpendTime conf.1 conf.2).
#[local] Abbreviation picks conf := (choice fTestNet I nCoinbaseMaturity nBestHeight nNow fuel nSpendTime conf.1 conf.2).
#[local] Abbreviation quiet conf := (no_throw fTestNet I nCoinbaseMaturity nBestHeight nNow fuel conf.1 conf.2).
#[local] Abbreviation usable_at conf := (usable_tx fTestNet I nCoinbaseMaturity nBestHeight nNow fuel conf.1 conf.2).

(** Fewer confirmations are asked. *)
Definition conf_le (a b : Z * Z) : Prop := a.1 <= b.1 /\ a.2 <= b.2.

Lemma usable_tx_mono a b w x : conf_le a b ->
  match usable_at b w x, usable_at a w x with
  | Some (ok, y), Some (ok', y') => y = y' /\ (ok = true -> ok' = true)
  | None, None => True
  | _, _ => False
  end.
Proof.
  intros [H1 H2]. unfold usable_tx. destruct (confirmed _ _ _ _ _ _ _) as [[c y]|]; cbn [mbind option_bind]; [|done].
  destruct (negb c); [done|]. destruct (immature _ _ y) as [[im z]|]; cbn [mbind option_bind]; [|done]. destruct im; [done|].
  destruct (GetDepthInMainChain _ _) as [[d m]|]; cbn [mbind option_bind]; [|done].
  destruct (IsFromMe _ _ _) as [[fm u]|]; cbn [mbind option_bind]; [|done]. split; [done|]. destruct fm; lia.
Qed.

Lemma no_throw_mono a b w : conf_le a b -> quiet a w -> quiet b w.
Proof.
  intros Hab Ha h x Hx. specialize (Ha h x Hx). pose proof (usable_tx_mono a b w x Hab).
  by destruct (usable_at b w x) as [[??]|], (usable_at a w x) as [[??]|].
Qed.

Lemma usable_sum_mono a b w : conf_le a b -> sumZ (usable b w).*1 <= sumZ (usable a w).*1.
Proof.
  intros Hab. unfold usable_coins. induction (wallet_keys w) as [|h l IH]; [done|]. rewrite !bind_cons, !fmap_app, !sumZ_app.
  enough (sumZ (coins_of fTestNet I nCoinbaseMaturity nBestHeight nNow fuel nSpendTime b.1 b.2 w h).*1 <=
          sumZ (coins_of fTestNet I nCoinbaseMaturity nBestHeight nNow fuel nSpendTime a.1 a.2 w h).*1) by lia.
  unfold coins_of. destruct (mapWallet w !! h) as [x|]; [|done]. unfold usable_b. pose proof (usable_tx_mono a b w x Hab) as Hm.
  assert (0 <= sumZ (coins_from fTestNet nSpendTime w h x 0 (vout (tx_of x))).*1) as Hpos.
  { apply sumZ_nonneg, Forall_fmap, Forall_forall. intros [v c] Hc. apply coins_from_elem in Hc as (_ & k & o & _ & _ & -> & Hu).
    unfold usable_out in Hu. simpl. bool_to_prop. lia. }
  destruct (usable_at b w x) as [[ok y]|], (usable_at a w x) as [[ok' y']|]; simpl; try done.
  destruct Hm as [_ Hm]. destruct ok; [by rewrite Hm|]. by destruct ok'.
Qed.

Lemma choice_uncached conf w coins v : caches_right fTestNet I w -> picks conf (uncached w) coins v <-> picks conf w coins v.
Proof.
  intros Hc.
  assert (forall c, coin_value (uncached w) c = coin_value w c) as Hv.
  { intros c. unfold coin_value. cbn [uncached set_mapWallet mapWallet]. rewrite lookup_fmap. by destruct (mapWallet w !! c.1). }
  assert (forall h x, mapWallet w !! h = Some x -> usable_b fTestNet I nCoinbaseMaturity nBestHeight nNow fuel conf.1 conf.2 w x =
    usable_b fTestNet I nCoinbaseMaturity nBestHeight nNow fuel conf.1 conf.2 (uncached w) (persist x)) as Hu.
  { intros h x Hx. unfold usable_b.
    pose proof (usable_uncached fTestNet I nCoinbaseMaturity nBestHeight nNow fuel conf.1 conf.2 w h x Hc Hx) as Hu.
    by destruct (usable_at conf w x) as [[??]|], (usable_at conf (uncached w) (persist x)) as [[??]|]; simplify_eq/=. }
  assert (forall c, spendable fTestNet I nCoinbaseMaturity nBestHeight nNow fuel nSpendTime conf.1 conf.2 (uncached w) c <->
                    spendable fTestNet I nCoinbaseMaturity nBestHeight nNow fuel nSpendTime conf.1 conf.2 w c) as Hs.
  { intros c. unfold spendable. cbn [uncached set_mapWallet mapWallet]. rewrite lookup_fmap. split.
    - intros (x & o & Hx & Hb & Hr). destruct (mapWallet w !! c.1) as [y|] eqn:Hy; [|done]. injection Hx as <-. exists y, o.
      rewrite (Hu _ _ Hy). done.
    - intros (x & o & Hx & Hb & Hr). rewrite Hx. exists (persist x), o. rewrite (Hu _ _ Hx) in Hb. done. }
  split; intros [H1 H2 H3]; (split; [done|eapply Forall_impl; [exact H2|intros c; by apply Hs]|]).
  - rewrite H3. f_equal. by apply list_fmap_ext.
  - rewrite H3. f_equal. apply list_fmap_ext. intros; by rewrite Hv.
Qed.

(** The attempts, in order. *)
Definition attempts : list (Z * Z) := [(1, 6); (1, 1); (0, 1)].

(** One attempt from a wallet that differs from [w] in its caches only. *)
Lemma attempt T conf rnd toss w u :
  0 <= T <= MAX_TOTAL -> caches_right fTestNet I w -> caches_right fTestNet I u -> uncached u = uncached w ->
  quiet conf w -> sumZ (usable conf w).*1 <= MAX_TOTAL ->
  exists ok coins v u',
    SelectCoinsMinConf fTestNet I nCoinbaseMaturity nBestHeight nNow fuel node T nSpendTime conf.1 conf.2 rnd toss u = Some (ok, coins, v, u') /\
    caches_right fTestNet I u' /\ uncached u' = uncached w /\ (ok = true <-> T <= sumZ (usable conf w).*1) /\
    (ok = true -> picks conf w coins v /\ (v = T \/ T + CENT <= v \/ T <= v /\ sumZ (usable conf w).*1 < T + CENT)).
Proof.
  intros HT Hw Hu He Hq Hsum.
  assert (usable conf u = usable conf w) as Hus.
  { assert (wallet_keys u = wallet_keys w) as Hk.
    { apply (f_equal mapWallet), (f_equal dom) in He. cbn in He. rewrite !dom_fmap_L in He. unfold wallet_keys. by rewrite He. }
    unfold usable_coins. rewrite Hk. apply list_bind_ext; [|done]. intros h.
    rewrite coins_of_uncached, He by done. symmetry. by apply coins_of_uncached. }
  assert (quiet conf u) as Hqu.
  { apply (no_throw_uncached _ _ _ _ _ _ _ _ u Hu). rewrite He. by apply (no_throw_uncached _ _ _ _ _ _ _ _ w Hw). }
  destruct (SelectCoinsMinConf_spec fTestNet I nCoinbaseMaturity nBestHeight nNow fuel nSpendTime conf.1 conf.2 T HT node rnd toss u Hu Hqu)
    as (ok & coins & v & u' & Hs & Hc' & Hu' & Hok & Hch); [by rewrite Hus|].
  exists ok, coins, v, u'. rewrite Hus in *. split; [done|]. split; [done|]. split; [congruence|]. split; [done|].
  intros Ht. destruct (Hch Ht) as [Hp Hd]. split; [|done]. apply choice_uncached; [done|]. rewrite <- He. by apply choice_uncached.
Qed.

(** C16: SelectCoins finds coins exactly when the coins that can be spent with no
    confirmations of our own transactions and one of others reach the target.
    They are taken from the first of the three classes (6 confirmations of
    others' transactions; 1; and our own unconfirmed change) that reaches it;
    they are distinct and spendable, their value is the value returned, which is
    the target, or leaves at least a cent of change, or cannot leave one.  Only
    caches of the wallet change. *)
Theorem SelectCoins_correct T rs w :
  0 <= T <= MAX_TOTAL -> caches_right fTestNet I w -> quiet (0, 1) w -> sumZ (usable (0, 1) w).*1 <= MAX_TOTAL ->
  exists ok coins v w',
    SelectCoins fTestNet I nCoinbaseMaturity nBestHeight nNow fuel node T nSpendTime rs w = Some (ok, coins, v, w') /\
    caches_right fTestNet I w' /\ uncached w' = uncached w /\
    (ok = true <-> T <= sumZ (usable (0, 1) w).*1) /\
    (ok = true -> exists k conf, attempts !! k = Some conf /\
       (forall j c, (j < k)%nat -> attempts !! j = Some c -> sumZ (usable c w).*1 < T) /\
       picks conf w coins v /\ (v = T \/ T + CENT <= v \/ T <= v /\ sumZ (usable conf w).*1 < T + CENT)).
Proof.
  intros HT Hc Hq Hsum.
  assert (conf_le (0, 1) (1, 6) /\ conf_le (0, 1) (1, 1)) as [L6 L1] by (unfold conf_le; simpl; lia).
  pose proof (usable_sum_mono _ _ w L6) as S6. pose proof (usable_sum_mono _ _ w L1) as S1.
  pose proof (no_throw_mono _ _ w L6 Hq) as Q6. pose proof (no_throw_mono _ _ w L1 Hq) as Q1.
  unfold SelectCoins.
  destruct (attempt T (1, 6) (rs 0%nat).1 (rs 0%nat).2 w w) as (ok & coins & v & w1 & E1 & C1 & U1 & O1 & R1); [done..|lia|].
  cbn [fst snd] in *. rewrite E1. cbn [mbind option_bind]. destruct ok.
  { exists true, coins, v, w1. destruct O1 as [O1 _]. specialize (O1 eq_refl). do 3 (split; [done|]). split; [split; [lia|done]|]. intros _.
    exists 0%nat, (1, 6). split; [done|]. split; [lia|by apply R1]. }
  destruct (attempt T (1, 1) (rs 1%nat).1 (rs 1%nat).2 w w1) as (ok & coins2 & v2 & w2 & E2 & C2 & U2 & O2 & R2); [done..|cbn [fst snd]; lia|].
  cbn [fst snd] in *. rewrite E2. cbn [mbind option_bind]. assert (sumZ (usable (1, 6) w).*1 < T) as L6T by (destruct O1; destruct (Z.lt_ge_cases (sumZ (usable (1, 6) w).*1) T); [done|intuition done]).
  destruct ok.
  { exists true, coins2, v2, w2. destruct O2 as [O2 _]. specialize (O2 eq_refl). do 3 (split; [done|]). split; [split; [lia|done]|]. intros _.
    exists 1%nat, (1, 1). split; [done|]. split; [|by apply R2]. intros [|j] c Hj Hcj; [by injection Hcj as <-|lia]. }
  assert (sumZ (usable (1, 1) w).*1 < T) as L1T by (destruct O2; destruct (Z.lt_ge_cases (sumZ (usable (1, 1) w).*1) T); [done|intuition done]).
  destruct (attempt T (0, 1) (rs 2%nat).1 (rs 2%nat).2 w w2) as (ok & coins3 & v3 & w3 & E3 & C3 & U3 & O3 & R3); [done..|].
  cbn [fst snd] in *. exists ok, coins3, v3, w3. do 4 (split; [done|]). intros Hok.
  exists 2%nat, (0, 1). split; [done|]. split; [|by apply R3].
  intros [|[|j]] c Hj Hcj; [by injection Hcj as <-|by injection Hcj as <-|lia].
Qed.

(** *** Whatever is cached *)

(** The positive outputs of the transactions of the wallet. *)
Definition tx_amounts (w : CWallet) (h : Z) : list Z :=
  match mapWallet w !! h with Some x => (fun o => Z.max 0 (nValue o)) <$> vout (tx_of x) | None => [] end.
Definition wallet_total (w : CWallet) : Z := sumZ (wallet_keys w ≫= tx_amounts w).

(** The same transactions, up to what is cached. *)
Definition same_entries (u w : CWallet) : Prop := persist <$> mapWallet u = persist <$> mapWallet w.

#[local] Instance same_entries_equiv : Equivalence same_entries.
Proof. unfold same_entries. split; [by intros w|by intros u w ->|by intros u v w -> ->]. Qed.

Lemma uncached_entries w u : uncached u = uncached w -> same_entries u w.
Proof. intros He. by apply (f_equal mapWallet) in He. Qed.

Lemma same_keys w u : same_entries u w -> wallet_keys u = wallet_keys w.
Proof. intros He. apply (f_equal dom) in He. rewrite !dom_fmap_L in He. unfold wallet_keys. by rewrite He. Qed.

Lemma same_lookup w u h : same_entries u w -> persist <$> mapWallet u !! h = persist <$> mapWallet w !! h.
Proof. intros He. apply (f_equal (lookup h)) in He. by rewrite !lookup_fmap in He. Qed.

Lemma same_entry w u h x : same_entries u w -> mapWallet u !! h = Some x -> exists y, mapWallet w !! h = Some y /\ persist x = persist y.
Proof.
  intros He Hx. pose proof (same_lookup w u h He) as Hl. rewrite Hx in Hl. destruct (mapWallet w !! h) as [y|]; [|done].
  exists y. split; [done|]. by apply (inj Some) in Hl.
Qed.

Lemma wallet_total_same w u : same_entries u w -> wallet_total u = wallet_total w.
Proof.
  intros He. unfold wallet_total. rewrite (same_keys w u He). f_equal. apply list_bind_ext; [|done]. intros h. unfold tx_amounts.
  pose proof (same_lookup w u h He) as Hl. destruct (mapWallet u !! h) as [x|], (mapWallet w !! h) as [y|]; simpl in Hl; try done.
  apply (inj Some) in Hl. by rewrite (persist_tx x y).
Qed.

Lemma usable_total conf w : sumZ (usable conf w).*1 <= wallet_total w.
Proof.
  unfold usable_coins, wallet_total. induction (wallet_keys w) as [|h l IH]; [done|]. rewrite !bind_cons, fmap_app, !sumZ_app.
  enough (sumZ (coins_of fTestNet I nCoinbaseMaturity nBestHeight nNow fuel nSpendTime conf.1 conf.2 w h).*1 <= sumZ (tx_amounts w h)) by lia.
  unfold coins_of, tx_amounts. destruct (mapWallet w !! h) as [x|]; [|done].
  assert (0 <= sumZ ((fun o => Z.max 0 (nValue o)) <$> vout (tx_of x))) as Hpos.
  { apply sumZ_nonneg, Forall_fmap, Forall_forall. intros o _. simpl. lia. }
  destruct (usable_b _ _ _ _ _ _ _ _ w x); [|done]. clear Hpos. generalize 0%nat. induction (vout (tx_of x)) as [|o outs IHo]; intros i; [done|].
  cbn [coins_from]. specialize (IHo (S i)). destruct (usable_out _ _ _ _ _ _); cbn; fold (sumZ ((fun o => Z.max 0 (nValue o)) <$> outs)); [|lia].
  fold (sumZ (coins_from fTestNet nSpendTime w h x (S i) outs).*1). lia.
Qed.

(** A coin of the wallet that is not marked as spent. *)
Definition free_coin (w : CWallet) (c : coin) : Prop :=
  exists x o, mapWallet w !! c.1 = Some x /\ vout (tx_of x) !! c.2 = Some o /\ flag x c.2 = false /\ nTime (tx_of x) <= nSpendTime /\ 0 < nValue o.

Lemma coin_value_same w u c : same_entries u w -> coin_value u c = coin_value w c.
Proof.
  intros He. unfold coin_value. pose proof (same_lookup w u c.1 He) as Hl.
  destruct (mapWallet u !! c.1) as [x|], (mapWallet w !! c.1) as [y|]; simpl in Hl; try done.
  apply (inj Some) in Hl. cbn [mbind option_bind]. by rewrite (persist_tx x y).
Qed.

Record free_choice (w : CWallet) (coins : list coin) (v : Z) : Prop := {
  fc_NoDup : NoDup coins;
  fc_free : Forall (free_coin w) coins;
  fc_value : v = sumZ (coin_value w <$> coins)
}.

Lemma choice_free conf w u coins v : same_entries u w -> picks conf u coins v -> free_choice w coins v.
Proof.
  intros He [H1 H2 H3]. split; [done| |].
  - eapply Forall_impl; [exact H2|]. intros c (x & o & Hx & _ & Ho & Hf & _ & Ht & Hv).
    destruct (same_entry w u _ _ He Hx) as (y & Hy & Hp). exists y, o. pose proof (persist_tx _ _ Hp) as Et. rewrite <- Et.
    split; [done|]. split; [done|]. split; [|done]. by rewrite <- (persist_flag x y).
  - rewrite H3. f_equal. apply list_fmap_ext. intros _ c _. by apply coin_value_same.
Qed.

Lemma SelectCoinsMinConf_uncached T conf rnd toss u ok cs a u' :
  SelectCoinsMinConf fTestNet I nCoinbaseMaturity nBestHeight nNow fuel node T nSpendTime conf.1 conf.2 rnd toss u = Some (ok, cs, a, u') ->
  uncached u' = uncached u.
Proof.
  unfold SelectCoinsMinConf. destruct (gather _ _ _ _ _ _ _ _ _ _ _ _ u) as [[r u1]|] eqn:Hg; [|done].
  cbn [mbind option_bind]. apply gather_sound in Hg as [_ Hu]; [|rewrite random_shuffle_perm; apply wallet_keys_spec].
  destruct r as [[c n]|g]; [by intros [= <- <- <- <-]|]. destruct (choose_coins _ _ _ _) as [[ok1 cs'] a']. by intros [= _ _ _ <-].
Qed.

Lemma SelectCoins_uncached T rs w ok coins v w' :
  SelectCoins fTestNet I nCoinbaseMaturity nBestHeight nNow fuel node T nSpendTime rs w = Some (ok, coins, v, w') -> uncached w' = uncached w.
Proof.
  unfold SelectCoins.
  destruct (SelectCoinsMinConf _ _ _ _ _ _ _ _ _ 1 6 _ _ w) as [[[[ok0 c1] v1] w1]|] eqn:E1; [|done]. cbn [mbind option_bind].
  apply (SelectCoinsMinConf_uncached T (1, 6)) in E1. destruct ok0; [by intros [= _ _ _ <-]|].
  destruct (SelectCoinsMinConf _ _ _ _ _ _ _ _ _ 1 1 _ _ w1) as [[[[ok0 c2] v2] w2]|] eqn:E2; [|done]. cbn [mbind option_bind].
  apply (SelectCoinsMinConf_uncached T (1, 1)) in E2. destruct ok0; [intros [= _ _ _ <-]; congruence|].
  intros E3. apply (SelectCoinsMinConf_uncached T (0, 1)) in E3. congruence.
Qed.

Lemma SelectCoins_sound T rs w ok coins v w' :
  0 <= T <= MAX_TOTAL -> wallet_total w <= MAX_TOTAL ->
  SelectCoins fTestNet I nCoinbaseMaturity nBestHeight nNow fuel node T nSpendTime rs w = Some (ok, coins, v, w') ->
  uncached w' = uncached w /\ (ok = true -> free_choice w coins v /\ T <= v <= MAX_TOTAL).
Proof.
  intros HT Hw. unfold SelectCoins.
  assert (forall conf k u coins v u', uncached u = uncached w ->
    SelectCoinsMinConf fTestNet I nCoinbaseMaturity nBestHeight nNow fuel node T nSpendTime conf.1 conf.2 (rs k).1 (rs k).2 u = Some (true, coins, v, u') ->
    uncached u' = uncached w /\ (true = true -> free_choice w coins v /\ T <= v <= MAX_TOTAL)) as Hone.
  { intros conf k u cs a u' He Hs. apply SelectCoinsMinConf_sound in Hs as (Hc & Ht & Hu); [|done|].
    - split; [congruence|]. intros _. split; [by apply (choice_free conf w u), Hc; apply uncached_entries|done].
    - pose proof (usable_total conf u). rewrite (wallet_total_same w u) in * by (by apply uncached_entries). lia. }
  assert (forall conf k u cs a u', uncached u = uncached w ->
    SelectCoinsMinConf fTestNet I nCoinbaseMaturity nBestHeight nNow fuel node T nSpendTime conf.1 conf.2 (rs k).1 (rs k).2 u = Some (false, cs, a, u') ->
    uncached u' = uncached w) as Hno by (intros conf k u cs a u' He Hs; apply SelectCoinsMinConf_uncached in Hs; congruence).
  destruct (SelectCoinsMinConf _ _ _ _ _ _ _ _ _ 1 6 _ _ w) as [[[[ok0 c1] v1] w1]|] eqn:E1; [|done]. cbn [mbind option_bind].
  destruct ok0; [intros [= <- <- <- <-]; by apply (Hone (1, 6) 0%nat w)|]. apply (Hno (1, 6) 0%nat) in E1; [|done].
  destruct (SelectCoinsMinConf _ _ _ _ _ _ _ _ _ 1 1 _ _ w1) as [[[[ok0 c2] v2] w2]|] eqn:E2; [|done]. cbn [mbind option_bind].
  destruct ok0; [intros [= <- <- <- <-]; by apply (Hone (1, 1) 1%nat w1)|]. apply (Hno (1, 1) 1%nat) in E2; [|done].
  destruct ok; [by apply (Hone (0, 1) 2%nat w2)|]. intros E3. split; [by apply (Hno (0, 1) 2%nat) in E3|done].
Qed.

End select_coins.
(** ** A wallet with three coins in one confirmed transaction *)

Section witnesses.
#[local] Existing Instance bn_reference.
#[local] Existing Instance toy_digests.
#[local] Existing Instance Tx.demo_abi.
#[local] Existing Instance toy_ec.
#[local] Existing Instance toy_group.
#[local] Existing Instance toy_evp.

Definition demo_coins : CTransaction := Tx.demo_tx (fmap (fun v => mk_txout [] (v * COIN) demo_script) [5; 3; 2]).
Definition demo_coins_hash : Z := Eval vm_compute in default 0 (Tx.GetHash demo_coins).

Definition demo_header (root height : Z) : CBlockIndex :=
  mk_index 0 0 height 0 0 0 0 0 0 0 0 (mk_outpoint 0 0) 0 0 1 root 0 0 0.
Definition demo_blocks : index :=
  mk_blockindex {[ 1 := mk_node (demo_header demo_coins_hash 3) None (Some 2) 0 0; 2 := mk_node (demo_header 0 9) (Some 1) None 0 0 ]} (Some 2) (Some 1) 1.

Definition demo_rich : CWallet :=
  set_mapWallet {[ demo_coins_hash := Init (mk_mtx demo_coins 1 [] 0 false) ]} demo_w.
Definition demo_rs : nat -> (nat -> Z -> Z) * (nat -> nat -> bool) := fun _ => (fun _ _ => 0, fun r i => Nat.odd (r + i)).

Lemma SelectCoins_correct_witness :
  exists ok coins v w',
    SelectCoins false demo_blocks 100 9 1000 5 id (6 * COIN) 1000 demo_rs demo_rich = Some (ok, coins, v, w') /\
    ok = true /\ NoDup coins /\ 6 * COIN <= v /\
    fst <$> SelectCoins false demo_blocks 100 9 1000 5 id (6 * COIN) 1000 demo_rs demo_rich =
      Some (true, [(demo_coins_hash, 0%nat); (demo_coins_hash, 2%nat)], 7 * COIN).
Proof.
  destruct (SelectCoins_correct false demo_blocks 100 9 1000 5 1000 id (6 * COIN) demo_rs demo_rich) as (ok & coins & v & w' & Hs & _ & _ & Hok & Hch).
  - vm_compute. split; discriminate.
  - intros h x Hx. cbn [demo_rich set_mapWallet mapWallet] in Hx. apply lookup_singleton_Some in Hx as [<- <-].
    split; [intros v [=]|intros v [=]|intros v [=]|intros [=]|constructor].
  - intros h x Hx. cbn [demo_rich set_mapWallet mapWallet] in Hx. apply lookup_singleton_Some in Hx as [<- <-].
    vm_compute. discriminate.
  - vm_compute. discriminate.
  - exists ok, coins, v, w'. split; [exact Hs|].
    assert (ok = true) as Ht by (apply Hok; vm_compute; discriminate). split; [exact Ht|].
    destruct (Hch Ht) as (k & conf & _ & _ & Hp & Hd). split; [apply Hp|]. split; [|vm_compute; reflexivity].
    unfold COIN, CENT in *. lia.
Defined.

End witnesses.
End CoinSelect.
