(* ===== verification/ConnectBlock.v ===== *)
(** * Connecting and disconnecting blocks (src/src/main.cpp)

    [ConnectBlock] checks the transactions of a block against the database,
    spends their inputs in a map of queued changes, processes their
    information entries, bounds what the block creates by the reward, and
    writes the changes; [DisconnectBlock] takes them back in reverse order.
    What is written to the wallets is left out. *)

From stdpp Require Import gmap.
From S2P Require Import Prelude Uint256 Bignum Crypto Script Interpreter Serialize Tx TxInfo Coins Base58 Signature Solver Work Block BlockIndex Kernel Ledger.
Import BlockIndex Ledger.

Module Connect.

(** The counters of the loop over the transactions. *)
Record progress := mk_progress {
  nSigOps : Z;
  nTxPos : Z;
  queued : gmap Z CTxIndex;
  nFees : Z;
  nValueIn : Z;
  nValueOut : Z;
  nTx : Z;
  infostore : CTxInfoStore
}.

Section connect.
Context {B : Tx.Abi} {L : BNLib} {D : DigestLib} {E : ECLib} (fTestNet : bool) (p : NetParams).

(** ** Information entries *)

(** The records of input [i]; [None]: the transaction that is spent is not in
    the database, or its output has no address. *)
Definition input_records (db : CTxDB) (d : disk) (blockHash nTxInBlock : Z) (i : nat) (txin : CTxIn) : option (list TxInfoRecord) :=
  '(prevTx, _) ← ReadDiskTx db d (prevhash (prevout txin));
  o ← vout prevTx !! Z.to_nat (out_n (prevout txin));
  addr ← Solve.ExtractAddress fTestNet (scriptPubKey o);
  text ← Base58.ToString addr;
  Some (imap (fun j info => mk_record text info blockHash (i32 nTxInBlock) (Z.of_nat i) (Z.of_nat j)) (infos txin)).

(** [Process] or [Undo] of the records until one fails; [None] is an exception. *)
Fixpoint run_records (undoing : bool) (l : list TxInfoRecord) (s : CTxInfoStore) : option (bool * CTxInfoStore) :=
  match l with
  | [] => Some (true, s)
  | r :: l =>
      '(ok, s) ← (if undoing then TxInfo.Undo s r else TxInfo.Process s r);
      if (ok : bool) then run_records undoing l s else Some (false, s)
  end.

Fixpoint run_inputs (db : CTxDB) (d : disk) (undoing : bool) (blockHash nTxInBlock : Z) (l : list (nat * CTxIn)) (s : CTxInfoStore)
    : option (bool * CTxInfoStore) :=
  match l with
  | [] => Some (true, s)
  | (i, txin) :: l =>
      if bool_decide (infos txin = []) then run_inputs db d undoing blockHash nTxInBlock l s
      else
        match input_records db d blockHash nTxInBlock i txin with
        | None => Some (false, s)
        | Some rs =>
            '(ok, s) ← run_records undoing (if undoing then reverse rs else rs) s;
            if (ok : bool) then run_inputs db d undoing blockHash nTxInBlock l s else Some (false, s)
        end
  end.

Definition procUndoTxInfos (db : CTxDB) (d : disk) (undoing : bool) (blockHash nTxInBlock : Z) (t : CTransaction) (s : CTxInfoStore)
    : option (bool * CTxInfoStore) :=
  if negb (TxInfo.InTransaction s) then None
  else
    let l := imap pair (vin t) in
    run_inputs db d undoing blockHash nTxInBlock (if undoing then reverse l else l) s.

Definition ProcessTxInfos (db : CTxDB) (d : disk) (blockHash nTxInBlock : Z) (t : CTransaction) (s : CTxInfoStore) :=
  procUndoTxInfos db d false blockHash nTxInBlock t s.
Definition UndoTxInfos (db : CTxDB) (d : disk) (blockHash nTxInBlock : Z) (t : CTransaction) (s : CTxInfoStore) :=
  procUndoTxInfos db d true blockHash nTxInBlock t s.

(** ** ConnectBlock *)

Section block.
Context (d : disk) (I : index) (fBelowCheckpoint : bool) (mempool : gmap Z CTransaction).

(** One transaction, up to its information entries. *)
Definition connect_tx_inputs (db : CTxDB) (n : node) (t : CTransaction) (s : progress) : outcome progress :=
  let k := u32 (nSigOps s + Tx.GetLegacySigOpCount t) in
  if MAX_BLOCK_SIGOPS <? k then Failed 100
  else
    let posThisTx := mk_pos (nFile n) (nBlockPos n) (nTxPos s) in
    match GetSerializeSize Tx.tx_codec t, Tx.GetHash t with
    | Some size, Some h =>
        let next q fees vin vout sigops :=
          mk_progress sigops (u32 (nTxPos s + size)) (<[h := new_txindex posThisTx (length (Tx.vout t))]> q) fees vin vout (nTx s + 1) (infostore s) in
        if Tx.IsCoinBase t then
          match Tx.GetValueOut t with
          | None => Thrown
          | Some out => Done (next (queued s) (nFees s) (nValueIn s) (i64 (nValueOut s + out)) k)
          end
        else
          match FetchInputs db d mempool (queued s) true false t ∅ with
          | FetchFailed fInvalid => Failed (if fInvalid then 100 else 0)
          | Fetched mapInputs =>
              match GetP2SHSigOpCount t mapInputs with
              | None => Thrown
              | Some p2sh =>
                  let k := u32 (k + p2sh) in
                  if MAX_BLOCK_SIGOPS <? k then Failed 100
                  else
                    match GetValueIn t mapInputs, Tx.GetValueOut t with
                    | Some nTxValueIn, Some nTxValueOut =>
                        let fees := if Tx.IsCoinStake t then nFees s else i64 (nFees s + i64 (nTxValueIn - nTxValueOut)) in
                        match ConnectInputs p db d I fBelowCheckpoint t mapInputs (queued s) posThisTx (Some (GetBlockIDHash n)) true false with
                        | Thrown => Thrown
                        | Failed dos => Failed dos
                        | Done q => Done (next q fees (i64 (nValueIn s + nTxValueIn)) (i64 (nValueOut s + nTxValueOut)) k)
                        end
                    | _, _ => Thrown
                    end
              end
          end
    | _, _ => Thrown
    end.

Definition with_infos (s : progress) (infos : CTxInfoStore) : progress :=
  mk_progress (nSigOps s) (nTxPos s) (queued s) (nFees s) (nValueIn s) (nValueOut s) (nTx s) infos.

(** One transaction.  Its information entries are processed in any case but
    that of a coinbase. *)
Definition connect_tx (db : CTxDB) (hash : Z) (n : node) (t : CTransaction) (s : progress) : outcome progress :=
  match connect_tx_inputs db n t s with
  | Done s' =>
      if Tx.IsCoinBase t then Done s'
      else
        match ProcessTxInfos db d hash (nTx s) t (infostore s) with
        | None => Thrown
        | Some (false, _) => Failed 0
        | Some (true, infos) => Done (with_infos s' infos)
        end
  | r => r
  end.

Fixpoint connect_txs (db : CTxDB) (hash : Z) (n : node) (l : list CTransaction) (s : progress) : outcome progress :=
  match l with
  | [] => Done s
  | t :: l =>
      match connect_tx db hash n t s with
      | Done s => connect_txs db hash n l s
      | Failed dos => Failed dos
      | Thrown => Thrown
      end
  end.

(** BIP30: a transaction of the block is in the database with an output that
    is not spent. *)
Definition overwrites (db : CTxDB) (t : CTransaction) : bool :=
  match Tx.GetHash t ≫= ReadTxIndex db with
  | Some txindex => existsb pos_IsNull (vSpent txindex)
  | None => false
  end.

(** The position of the first transaction of a block. *)
Definition first_tx_pos (n : node) (b : CBlock) : option Z :=
  size ← GetSerializeSize Block.block_codec Block.null_block;
  Some (u32 (nBlockPos n + size - 2 * GetSizeOfCompactSize 0 + GetSizeOfCompactSize (Z.of_nat (length (vtx b))))).

(** The money counters of the entry. *)
Definition set_money (i : CBlockIndex) (mint supply postotal posdebt : Z) : CBlockIndex :=
  mk_index (bi_hash i) (bi_bnChainTrust i) (bi_nHeight i) (bi_nPoWHeight i) mint supply postotal posdebt (bi_nFlags i)
    (bi_nStakeModifier i) (bi_nStakeModifierChecksum i) (bi_prevoutStake i) (bi_nStakeTime i) (bi_hashProofOfStake i)
    (bi_nVersion i) (bi_hashMerkleRoot i) (bi_nTime i) (bi_nBits i) (bi_nNonce i).

Definition WriteBlockIndex (db : CTxDB) (r : CDiskBlockIndex) : CTxDB :=
  mk_txdb (db_tx db) (<[disk_GetBlockIDHash r := r]> (db_blockindex db)) (db_hashBestChain db).

(** [UpdateTxIndex] of every queued record. *)
Definition write_queued (db : CTxDB) (q : gmap Z CTxIndex) : CTxDB := mk_txdb (q ∪ db_tx db) (db_blockindex db) (db_hashBestChain db).

(** The record of the previous block with a new [hashNext]. *)
Definition write_prev (db : CTxDB) (n : node) (next : Z) : CTxDB :=
  match deref I (pprev n) with
  | Some prev => WriteBlockIndex db (mk_disk prev (hashPrev (disk_of I prev)) next)
  | None => db
  end.

(** The counters the block leaves in its index entry. *)
Definition money_entry (b : CBlock) (n : node) (s : progress) (coinbase_out : Z) : CBlockIndex :=
  let prev := entry <$> deref I (pprev n) in
  let stake := Block.IsProofOfStake b in
  let created := i64 (nValueOut s - nValueIn s) in
  set_money (entry n)
    (i64 (created + nFees s))
    (i64 (i64 (from_option bi_nMoneySupply 0 prev + nValueOut s) - nValueIn s))
    (i64 (from_option bi_nPoSTotalMint 0 prev + (if stake then created else 0)))
    (if stake then i64 (from_option bi_nPoSDebt 0 prev + created)
     else i64 (from_option bi_nPoSDebt 0 prev - i64 (Work.GetNextProofOfWorkReward prev false - i64 (coinbase_out - nFees s)))).

Definition ConnectBlock (now : Z) (GetPoWHash : CBlock -> option (list Z)) (db : CTxDB) (infos : CTxInfoStore) (b : CBlock) (n : node)
    : outcome (CTxDB * node * CTxInfoStore) :=
  match Block.CheckBlock fTestNet (hashGenesisBlock I) now GetPoWHash false b with
  | Tx.CheckThrown => Thrown
  | Tx.CheckFailed dos => Failed dos
  | Tx.CheckOk =>
      if Block.IsProofOfStake b && (bi_nHeight (entry n) <? nPoSMinHeight p) then Failed 10
      else if existsb (overwrites db) (vtx b) then Failed 0
      else
        match first_tx_pos n b with
        | None => Thrown
        | Some pos =>
            match connect_txs db (Block.GetIDHash b) n (vtx b) (mk_progress 0 pos ∅ 0 0 0 0 infos) with
            | Thrown => Thrown
            | Failed dos => Failed dos
            | Done s =>
                match head (vtx b) ≫= Tx.GetValueOut with
                | None => Thrown
                | Some out =>
                    let reward :=
                      if Block.IsProofOfWork b then Work.GetNextProofOfWorkReward (entry <$> deref I (pprev n)) true else 0 in
                    if i64 (nFees s + reward) <? out then Failed 50
                    else
                      let n' := mk_node (money_entry b n s out) (pprev n) (pnext n) (nFile n) (nBlockPos n) in
                      let db := WriteBlockIndex db (disk_of I n') in
                      let db := write_queued db (queued s) in
                      Done (write_prev db n (GetBlockIDHash n), n', infostore s)
                end
            end
        end
  end.

(** ** DisconnectBlock *)

(** [UndoTxInfos(txdb)] with the default arguments: no block hash, and -1. *)
Fixpoint disconnect_txs (l : list CTransaction) (db : CTxDB) (infos : CTxInfoStore) : outcome (CTxDB * CTxInfoStore) :=
  match l with
  | [] => Done (db, infos)
  | t :: l =>
      match DisconnectInputs t db with
      | None => Failed 0
      | Some db =>
          match UndoTxInfos db d 0 (-1) t infos with
          | None => Thrown
          | Some (false, _) => Failed 0
          | Some (true, infos) => disconnect_txs l db infos
          end
      end
  end.

Definition DisconnectBlock (db : CTxDB) (infos : CTxInfoStore) (b : CBlock) (n : node) : outcome (CTxDB * CTxInfoStore) :=
  match disconnect_txs (reverse (vtx b)) db infos with
  | Done (db, infos) => Done (write_prev db n 0, infos)
  | r => r
  end.

End block.
End connect.

(** ** Refinement of the abstract ledger *)

Lemma flags_new pos n : flags (new_txindex pos n) = replicate n true.
Proof. unfold flags, new_txindex. cbn. rewrite fmap_replicate. done. Qed.

Lemma coins_of_insert m h t : coins_of (<[h := t]> m) = <[h := flags t]> (coins_of m).
Proof. apply fmap_insert. Qed.

(** The inputs and outputs of a transaction, in money. *)
Record account := mk_account { acc_in : Z; acc_out : Z }.

Definition ordinary (t : CTransaction) : bool := negb (Tx.IsCoinBase t) && negb (Tx.IsCoinStake t).

Section refinement.
Context {B : Tx.Abi} {L : BNLib} {D : DigestLib} {E : ECLib} (fTestNet : bool) (p : NetParams).
Context (d : disk) (I : index) (fBelowCheckpoint : bool) (mempool : gmap Z CTransaction).

Record account_ok (db : CTxDB) (t : CTransaction) (a : account) : Prop := {
  ac_out : Tx.GetValueOut t = Some (acc_out a);
  ac_out_range : 0 <= acc_out a <= MAX_MONEY;
  ac_in_range : 0 <= acc_in a <= MAX_MONEY;
  ac_coinbase : Tx.IsCoinBase t = true -> acc_in a = 0;
  ac_ordinary : ordinary t = true -> acc_out a <= acc_in a;
  ac_stake : Tx.IsCoinBase t = false -> Tx.IsCoinStake t = true ->
    exists lim, stake_limit p db d t = Some lim /\ i64 (acc_out a - acc_in a) <= lim
}.

Lemma value_out_range l : forall acc v, 0 <= acc <= MAX_MONEY -> Tx.value_out l acc = Some v -> 0 <= v <= MAX_MONEY.
Proof.
  induction l as [|o l IH]; intros acc v Ha E0; cbn in E0; [by injection E0 as <-|].
  destruct (MoneyRange (nValue o)); [|done]. destruct (MoneyRange (i64 (acc + nValue o))) eqn:Em; [|done].
  apply Tx.MoneyRange_spec in Em. by apply (IH _ _ Em).
Qed.

Lemma GetValueOut_range t v : Tx.GetValueOut t = Some v -> 0 <= v <= MAX_MONEY.
Proof. apply value_out_range. unfold MAX_MONEY, COIN. lia. Qed.

Definition fee_of (t : CTransaction) (a : account) : Z := if ordinary t then acc_in a - acc_out a else 0.

(** The counters stay in the range of int64. *)
Definition normal (s : progress) : Prop :=
  i64 (nFees s) = nFees s /\ i64 (nValueIn s) = nValueIn s /\ i64 (nValueOut s) = nValueOut s.

(** One transaction: it acts on the coins, and on the counters. *)
Lemma connect_tx_spec db hash n t s s' :
  nFile n <> Tx.UINT_MAX -> Forall (fun i => Coins.nonneg (prevout i)) (vin t) -> normal s ->
  connect_tx fTestNet p d I fBelowCheckpoint mempool db hash n t s = Done s' ->
  normal s' /\ exists h a, Tx.GetHash t = Some h /\ account_ok db t a /\
    Coins.apply_tx (action_of t h) (coins_of (view (queued s) db)) = Some (coins_of (view (queued s') db)) /\
    nValueIn s' = i64 (nValueIn s + acc_in a) /\ nValueOut s' = i64 (nValueOut s + acc_out a) /\
    nFees s' = i64 (nFees s + fee_of t a).
Proof.
  intros Hfile Hn (Nf & Ni & No) Hc. unfold connect_tx, connect_tx_inputs in Hc. destruct (_ <? _); [done|].
  destruct (GetSerializeSize Tx.tx_codec t) as [size|]; [|done]. destruct (Tx.GetHash t) as [h|] eqn:Eh; [|done].
  set (pos := mk_pos (nFile n) (nBlockPos n) (nTxPos s)) in *.
  assert (pos_IsNull pos = false) as Hpos by (by apply Z.eqb_neq).
  assert (forall q x, coins_of (view (<[h := new_txindex pos x]> q) db) = <[h := replicate x true]> (coins_of (view q db))) as Hins.
  { intros q x. unfold view. rewrite <- insert_union_l, coins_of_insert, flags_new. done. }
  destruct (Tx.IsCoinBase t) eqn:Ecb.
  - destruct (Tx.GetValueOut t) as [out|] eqn:Eo; [|done]. injection Hc as <-. split; [split; [done|]; split; [done|]; apply i64_i64|].
    exists h, (mk_account 0 out). split; [done|]. split.
    { split; cbn; [done|by apply GetValueOut_range in Eo|unfold MAX_MONEY, COIN; lia|done|unfold ordinary; rewrite Ecb; done|rewrite Ecb; done]. }
    unfold Coins.apply_tx, action_of. cbn [Coins.act_spends Coins.act_hash Coins.act_outputs]. rewrite Ecb. cbn [with_infos queued nFees nValueIn nValueOut nSigOps nTxPos nTx infostore mbind option_bind Coins.spend_all acc_in acc_out andb negb].
    split; [by rewrite Hins|]. unfold fee_of, ordinary. rewrite Ecb. cbn. rewrite !Z.add_0_r. done.
  - destruct (FetchInputs db d mempool (queued s) true false t ∅) as [inputs|] eqn:Ef; [|done].
    destruct (GetP2SHSigOpCount t inputs); [|done]. destruct (_ <? _); [done|].
    destruct (GetValueIn t inputs) as [vi|] eqn:Evi; [|done]. destruct (Tx.GetValueOut t) as [vo|] eqn:Evo; [|done].
    destruct (ConnectInputs p db d I fBelowCheckpoint t inputs (queued s) pos _ true false) as [q| |] eqn:Ec; [|done..].
    destruct (ProcessTxInfos fTestNet db d hash (nTx s) t (infostore s)) as [[[] infos]|]; [|done..]. injection Hc as <-.
    destruct (ConnectInputs_sound_helper p db d mempool I fBelowCheckpoint t (queued s) pos _ inputs q Ef Ec Ecb Hpos Hn) as (Hs & out & H1 & H2 & H3 & H4 & H5).
    rewrite Evi in H1. injection H1 as ->. rewrite Evo in H3. injection H3 as ->.
    split; [split; [destruct (Tx.IsCoinStake t); [done|apply i64_i64]|split; apply i64_i64]|].
    exists h, (mk_account (total_in inputs (vin t)) out). split; [done|]. split.
    { split; cbn; [done|by apply GetValueOut_range in Evo|done|rewrite Ecb; done| |done]. unfold ordinary. rewrite Ecb. cbn. intros Ho. apply H4. by apply negb_true_iff. }
    unfold Coins.apply_tx, action_of. cbn [Coins.act_spends Coins.act_hash Coins.act_outputs]. rewrite Ecb, Hs. cbn [with_infos queued nFees nValueIn nValueOut nSigOps nTxPos nTx infostore mbind option_bind Coins.spend_all acc_in acc_out andb negb].
    split; [by rewrite Hins|]. split; [done|]. split; [done|]. unfold fee_of, ordinary. rewrite Ecb. cbn.
    destruct (Tx.IsCoinStake t); cbn; [by rewrite Z.add_0_r|]. apply i64_add_r.
Qed.

Lemma connect_txs_spec db hash n l : forall s s', nFile n <> Tx.UINT_MAX ->
  Forall (fun t => Forall (fun i => Coins.nonneg (prevout i)) (vin t)) l -> normal s ->
  connect_txs fTestNet p d I fBelowCheckpoint mempool db hash n l s = Done s' ->
  normal s' /\ exists hs accs, mapM Tx.GetHash l = Some hs /\ Forall2 (account_ok db) l accs /\
    Coins.apply_all (zip_with action_of l hs) (coins_of (view (queued s) db)) = Some (coins_of (view (queued s') db)) /\
    nValueIn s' = i64 (nValueIn s + foldr (fun a x => acc_in a + x) 0 accs) /\
    nValueOut s' = i64 (nValueOut s + foldr (fun a x => acc_out a + x) 0 accs) /\
    nFees s' = i64 (nFees s + foldr Z.add 0 (zip_with fee_of l accs)).
Proof.
  induction l as [|t l IH]; intros s s' Hfile Hn Hnorm Hc; cbn in Hc.
  { injection Hc as <-. split; [done|]. exists [], []. cbn. rewrite !Z.add_0_r. destruct Hnorm as (? & ? & ?). repeat (split; [done|]). done. }
  inversion Hn as [|? ? Hnt Hnl]; subst. destruct (connect_tx fTestNet p d I fBelowCheckpoint mempool db hash n t s) as [s1| |] eqn:E1; [|done..].
  destruct (connect_tx_spec db hash n t s s1 Hfile Hnt Hnorm E1) as (N1 & h & a & Hh & Ha & Hact & Hi & Ho & Hfe).
  destruct (IH s1 s' Hfile Hnl N1 Hc) as (N2 & hs & accs & H1 & H2 & H3 & H4 & H5 & H6). split; [done|]. exists (h :: hs), (a :: accs).
  cbn [mapM]. rewrite Hh, H1. split; [done|]. split; [by constructor|]. cbn [zip_with Coins.apply_all]. rewrite Hact. cbn [mbind option_bind].
  split; [done|]. cbn [foldr]. rewrite H4, H5, H6, Hi, Ho, Hfe, !i64_add_l. split; [f_equal; lia|]. split; f_equal; lia.
Qed.

(** ** The block *)

Lemma overwrites_dead db t h : Tx.GetHash t = Some h -> overwrites db t = false -> Coins.dead (coins_of (db_tx db)) h.
Proof.
  intros Hh Ho l Hl. unfold overwrites, ReadTxIndex in Ho. rewrite Hh in Ho. cbn in Ho. rewrite coins_of_lookup in Hl.
  destruct (db_tx db !! h) as [ti|]; [|done]. injection Hl as <-. unfold flags. apply Forall_fmap, Forall_forall. intros x Hx. cbn.
  destruct (pos_IsNull x) eqn:Ex; [|done]. rewrite <- Ho. symmetry. apply existsb_exists. exists x. by rewrite <- list_elem_of_In.
Qed.

Lemma write_prev_tx db n next : db_tx (write_prev I db n next) = db_tx db.
Proof. unfold write_prev. by destruct (deref I (pprev n)). Qed.

Lemma mapM_elem {A C} (f : A -> option C) l k : mapM f l = Some k -> forall y, y ∈ k -> exists x, x ∈ l /\ f x = Some y.
Proof.
  intros H%mapM_Some_1 y Hy. apply list_elem_of_lookup in Hy as [i Hi]. destruct (Forall2_lookup_r _ _ _ _ _ H Hi) as (x & Hx & E0).
  exists x. split; [by eapply list_elem_of_lookup_2|done].
Qed.

(** What a block that is connected consists of. *)
Record connected (db : CTxDB) (b : CBlock) (n : node) (db' : CTxDB) (n' : node) (hs : list Z) (accs : list account) (s : progress) : Prop := {
  cn_checked : exists now GetPoWHash, Block.CheckBlock fTestNet (hashGenesisBlock I) now GetPoWHash false b = Tx.CheckOk;
  cn_hashes : mapM Tx.GetHash (vtx b) = Some hs;
  cn_dead : Forall (Coins.dead (coins_of (db_tx db))) hs;
  cn_ledger : Coins.apply_all (zip_with action_of (vtx b) hs) (coins_of (db_tx db)) = Some (coins_of (db_tx db'));
  cn_accounts : Forall2 (account_ok db) (vtx b) accs;
  cn_in : nValueIn s = i64 (foldr (fun a x => acc_in a + x) 0 accs);
  cn_out : nValueOut s = i64 (foldr (fun a x => acc_out a + x) 0 accs);
  cn_fees : nFees s = i64 (foldr Z.add 0 (zip_with fee_of (vtx b) accs));
  cn_reward : exists t a rest, vtx b = t :: rest /\ accs !! 0%nat = Some a /\ entry n' = money_entry I b n s (acc_out a) /\
    acc_out a <= i64 (nFees s + (if Block.IsProofOfWork b then Work.GetNextProofOfWorkReward (entry <$> deref I (pprev n)) true else 0))
}.

Lemma ConnectBlock_connected now GetPoWHash db infos b n db' n' infos' :
  nFile n <> Tx.UINT_MAX -> Forall (fun t => Forall (fun i => Coins.nonneg (prevout i)) (vin t)) (vtx b) ->
  ConnectBlock fTestNet p d I fBelowCheckpoint mempool now GetPoWHash db infos b n = Done (db', n', infos') ->
  exists hs accs s, connected db b n db' n' hs accs s /\ infostore s = infos'.
Proof.
  intros Hfile Hn Hc. unfold ConnectBlock in Hc. destruct (Block.CheckBlock _ _ _ _ _ _) eqn:Ecb; [|done..].
  destruct (_ && _); [done|]. destruct (existsb (overwrites db) (vtx b)) eqn:Eov; [done|].
  destruct (first_tx_pos n b) as [pos|]; [|done].
  destruct (connect_txs _ _ _ _ _ _ _ _ _ _ _) as [s| |] eqn:Es; [|done..].
  destruct (head (vtx b) ≫= Tx.GetValueOut) as [out|] eqn:Eout; [|done].
  destruct (Z.ltb_spec (i64 (nFees s + (if Block.IsProofOfWork b then Work.GetNextProofOfWorkReward (entry <$> deref I (pprev n)) true else 0))) out) as [|Hle]; [done|].
  assert (normal (mk_progress 0 pos ∅ 0 0 0 0 infos)) as N0 by done.
  destruct (connect_txs_spec db _ n (vtx b) _ s Hfile Hn N0 Es) as (_ & hs & accs & H1 & H2 & H3 & H4 & H5 & H6).
  cbn [queued nFees nValueIn nValueOut Z.add] in H3, H4, H5, H6. unfold view in H3. rewrite (left_id_L ∅ (∪)) in H3.
  injection Hc as <- <- <-. exists hs, accs, s. split; [|done]. split; [by eauto|done| |by rewrite write_prev_tx|done|done|done|done|].
  - apply Forall_forall. intros h Hh. destruct (mapM_elem _ _ _ H1 h Hh) as (t & Ht & Eh). apply (overwrites_dead db t h Eh).
    destruct (overwrites db t) eqn:Eo; [|done]. rewrite <- Eov. symmetry. apply existsb_exists. exists t. by rewrite <- list_elem_of_In.
  - destruct (vtx b) as [|t rest] eqn:Ev; [done|]. inversion H2 as [|? a ? accs' Ha H2']; subst. cbn in Eout.
    rewrite (ac_out _ _ _ Ha) in Eout. injection Eout as <-. exists t, a, rest. split; [done|]. split; [done|]. split; [|done]. done.
Qed.

(** ** Money *)

Definition sum_in (accs : list account) : Z := foldr (fun a x => acc_in a + x) 0 accs.
Definition sum_out (accs : list account) : Z := foldr (fun a x => acc_out a + x) 0 accs.
Definition sum_fees (l : list CTransaction) (accs : list account) : Z := foldr Z.add 0 (zip_with fee_of l accs).

Lemma sums_nonneg db l accs : Forall2 (account_ok db) l accs -> 0 <= sum_in accs /\ 0 <= sum_out accs.
Proof.
  induction 1 as [|t a l accs Ha _ IH]; [done|]. cbn. fold (sum_in accs) (sum_out accs).
  pose proof (ac_in_range _ _ _ Ha). pose proof (ac_out_range _ _ _ Ha). lia.
Qed.

(** Ordinary transactions create nothing: what they do not hand on is the fee. *)
Lemma ordinary_fees db l accs : Forall (fun t => ordinary t = true) l -> Forall2 (account_ok db) l accs ->
  sum_out accs - sum_in accs = - sum_fees l accs /\ 0 <= sum_fees l accs <= sum_in accs.
Proof.
  intros Ho H. revert Ho. induction H as [|t a l accs Ha H IH]; intros Ho; [done|]. inversion Ho as [|? ? Hot Hol]; subst.
  destruct (IH Hol) as [H1 H2]. unfold sum_fees in *. cbn. fold (sum_in accs) (sum_out accs). 
  assert (fee_of t a = acc_in a - acc_out a) as -> by (unfold fee_of; by rewrite Hot).
  pose proof (ac_ordinary _ _ _ Ha Hot). pose proof (ac_out_range _ _ _ Ha). lia.
Qed.

Lemma coinbase_not_stake t : Tx.IsCoinBase t = true -> Tx.IsCoinStake t = false.
Proof.
  unfold Tx.IsCoinBase, Tx.IsCoinStake. destruct (vin t) as [|i [|]]; [done| |done]. intros H. apply andb_true_iff in H as [H _]. rewrite H.
  by destruct (vout t) as [|o [|]].
Qed.

(** The shape of a checked block: the coinbase, a coinstake in a proof-of-stake
    block, and ordinary transactions. *)
Lemma block_shape {HL : BNLaws L} b now GetPoWHash :
  Block.CheckBlock fTestNet (hashGenesisBlock I) now GetPoWHash false b = Tx.CheckOk ->
  exists cb rest, vtx b = cb :: rest /\ Tx.IsCoinBase cb = true /\
    (if Block.IsProofOfStake b
     then exists cs r, rest = cs :: r /\ Tx.IsCoinBase cs = false /\ Tx.IsCoinStake cs = true /\ Forall (fun t => ordinary t = true) r
     else Forall (fun t => ordinary t = true) rest).
Proof.
  intros H%Block.CheckBlock_checked. destruct (Block.bck_coinbase _ _ _ _ _ _ H) as (cb & rest & Ev & Hc & Hr & Hs & _).
  exists cb, rest. split; [done|]. split; [done|]. unfold Block.IsProofOfStake. rewrite Ev.
  assert (forall l, Forall (fun t => Tx.IsCoinBase t = false) l -> Forall (fun t => Tx.IsCoinStake t = false) l -> Forall (fun t => ordinary t = true) l) as Hord.
  { intros l H1 H2. rewrite Forall_forall in *. intros t Ht. unfold ordinary. by rewrite (H1 t Ht), (H2 t Ht). }
  destruct rest as [|cs r]; [constructor|]. cbn [drop] in Hs. inversion Hr; subst. destruct (Tx.IsCoinStake cs) eqn:Ecs.
  - exists cs, r. split; [done|]. split; [done|]. split; [done|]. by apply Hord.
  - constructor; [unfold ordinary; rewrite Ecs; by destruct (Tx.IsCoinBase cs)|by apply Hord].
Qed.


(** ** Disconnecting *)

Definition has_infos (t : CTransaction) : Prop := Exists (fun i => infos i <> []) (vin t).

Lemma run_inputs_none db undoing h k l : forall s, Forall (fun x : nat * CTxIn => infos x.2 = []) l ->
  run_inputs fTestNet db d undoing h k l s = Some (true, s).
Proof.
  induction l as [|[i x] l IH]; intros s Hl; [done|]. inversion Hl as [|? ? Hx Hl']; subst. cbn in Hx |- *.
  rewrite bool_decide_true by done. by apply IH.
Qed.

Lemma imap_pair_elem {A} (l : list A) x : x ∈ imap pair l -> x.2 ∈ l.
Proof. intros (i & y & -> & Hy)%elem_of_lookup_imap_1. cbn. by eapply list_elem_of_lookup_2. Qed.

(** A transaction without entries leaves the store alone. *)
Lemma UndoTxInfos_none db h k t s : ~ has_infos t -> TxInfo.InTransaction s = true -> UndoTxInfos fTestNet db d h k t s = Some (true, s).
Proof.
  intros Hn Hs. unfold UndoTxInfos, procUndoTxInfos. rewrite Hs. cbn [negb]. apply run_inputs_none. apply Forall_forall. intros x Hx.
  rewrite elem_of_reverse in Hx. apply imap_pair_elem in Hx. destruct (decide (infos x.2 = [])); [done|]. exfalso. apply Hn.
  apply Exists_exists. eauto.
Qed.

Lemma disconnect_txs_refines l : forall hs db c s, Forall (fun t => Forall (fun i => Coins.nonneg (prevout i)) (vin t)) l ->
  Forall2 (fun t h => Tx.GetHash t = Some h) l hs -> Forall (fun t => ~ has_infos t) l -> TxInfo.InTransaction s = true ->
  Coins.undo_all (zip_with action_of l hs) (coins_of (db_tx db)) = Some c ->
  exists db', disconnect_txs fTestNet d l db s = Done (db', s) /\ coins_of (db_tx db') = c.
Proof.
  induction l as [|t l IH]; intros hs db c s Hn Hh Hi Hs E0; inversion Hh as [|? h ? hs' Et Hh']; subst; cbn [zip_with Coins.undo_all] in E0.
  { injection E0 as <-. exists db. done. }
  inversion Hn; subst. inversion Hi; subst. destruct (Coins.undo_tx (action_of t h) (coins_of (db_tx db))) as [c1|] eqn:E1; [|done]. cbn in E0.
  destruct (DisconnectInputs_refines t h db c1 ltac:(done) Et E1) as (db1 & Ed & Ec & _ & _). cbn [disconnect_txs]. rewrite Ed.
  rewrite UndoTxInfos_none by done. subst c1. by apply (IH hs').
Qed.

Lemma zip_with_reverse {X Y W} (g : X -> Y -> W) l k : length l = length k -> zip_with g (reverse l) (reverse k) = reverse (zip_with g l k).
Proof.
  revert k. induction l as [|x l IH]; intros [|y k] H; try done. cbn [zip_with]. rewrite !reverse_cons, zip_with_app by (rewrite !length_reverse; cbn in H; lia).
  cbn in H. by rewrite IH by lia.
Qed.

(** The actions of a block, and that undoing them in reverse order succeeds. *)
Lemma undo_block {HL : BNLaws L} db b n db' n' hs accs s : connected db b n db' n' hs accs s ->
  Forall (fun t => Forall (fun i => Coins.nonneg (prevout i)) (vin t)) (vtx b) ->
  Coins.undo_all (zip_with action_of (reverse (vtx b)) (reverse hs)) (coins_of (db_tx db')) =
    Some (Coins.delete_all hs (coins_of (db_tx db))).
Proof.
  intros Hcn Hn. pose proof (cn_hashes _ _ _ _ _ _ _ _ Hcn) as Eh. destruct (cn_checked _ _ _ _ _ _ _ _ Hcn) as (now & pow & Hchk).
  assert (length (vtx b) = length hs) as Hl by (by eapply Forall2_length, mapM_Some_1).
  assert (Coins.act_hash <$> zip_with action_of (vtx b) hs = hs) as Ehs.
  { clear -Hl. revert hs Hl. induction (vtx b) as [|t l IH]; intros [|h hs] Hl; try done. cbn. f_equal. apply IH. cbn in Hl. lia. }
  assert (NoDup hs) as Hnd.
  { apply Block.CheckBlock_checked in Hchk. destruct (Block.bck_merkle _ _ _ _ _ _ Hchk) as (hashes & E1 & H1 & _). rewrite Eh in E1. by injection E1 as <-. }
  rewrite zip_with_reverse by done. rewrite <- Ehs at 2. apply Coins.undo_apply_all.
  - rewrite Forall_forall in Hn. apply Forall_forall. intros a Ha. apply elem_of_zip_with in Ha as (t & h & -> & Ht & _).
    unfold action_of. cbn. destruct (Tx.IsCoinBase t); [constructor|]. apply Forall_fmap. by apply Hn.
  - by rewrite Ehs.
  - pose proof (cn_dead _ _ _ _ _ _ _ _ Hcn) as Hd. rewrite Forall_forall in Hd. apply Forall_forall. intros a Ha.
    apply Hd. rewrite <- Ehs. by apply list_elem_of_fmap_2.
  - apply (cn_ledger _ _ _ _ _ _ _ _ Hcn).
Qed.

(** C5: A block that was connected can be disconnected: if none of its
    transactions carries information entries, DisconnectBlock succeeds on the
    database that ConnectBlock left, and afterwards exactly the outputs that
    were unspent before are unspent again. *)
Theorem connect_disconnect {HL : BNLaws L} now GetPoWHash db infos b n db' n' infos' s :
  nFile n <> Tx.UINT_MAX -> Forall (fun t => Forall (fun i => Coins.nonneg (prevout i)) (vin t)) (vtx b) ->
  ConnectBlock fTestNet p d I fBelowCheckpoint mempool now GetPoWHash db infos b n = Done (db', n', infos') ->
  Forall (fun t => ~ has_infos t) (vtx b) -> TxInfo.InTransaction s = true ->
  exists db'', DisconnectBlock fTestNet d I db' s b n' = Done (db'', s) /\
    forall o, Coins.unspent (coins_of (db_tx db'')) o = Coins.unspent (coins_of (db_tx db)) o.
Proof.
  intros Hfile Hn Hc Hi Hs. destruct (ConnectBlock_connected _ _ _ _ _ _ _ _ _ Hfile Hn Hc) as (hs & accs & st & Hcn & _).
  pose proof (undo_block _ _ _ _ _ _ _ _ Hcn Hn) as Hu.
  assert (Forall2 (fun t h => Tx.GetHash t = Some h) (reverse (vtx b)) (reverse hs)) as Hh.
  { apply Forall2_reverse, mapM_Some_1. apply (cn_hashes _ _ _ _ _ _ _ _ Hcn). }
  destruct (disconnect_txs_refines (reverse (vtx b)) (reverse hs) db' _ s (proj2 (Forall_reverse _ _) Hn) Hh (proj2 (Forall_reverse _ _) Hi) Hs Hu)
    as (db1 & E1 & E2).
  unfold DisconnectBlock. rewrite E1. eexists. split; [done|]. intros o. rewrite write_prev_tx, E2. apply Coins.unspent_delete_all.
  apply (cn_dead _ _ _ _ _ _ _ _ Hcn).
Qed.

(** ** Information entries are not undone *)

Lemma run_records_undo_fails r l s : TxInfo.InTransaction s = true ->
  (forall x, x ∈ rows s -> rec_blockHash (row_rec x) <> rec_blockHash r) ->
  run_records true (r :: l) s = Some (false, s).
Proof.
  intros Hs Hr. cbn [run_records]. unfold TxInfo.Undo, TxInfo.in_view. rewrite Hs. rewrite TxInfo.undo_nothing; [done|].
  intros x Hx E0. apply (Hr x Hx). by rewrite E0.
Qed.

Lemma run_inputs_undo_fails db k l : forall s, TxInfo.InTransaction s = true ->
  (forall x, x ∈ rows s -> rec_blockHash (row_rec x) <> 0) -> Exists (fun x : nat * CTxIn => infos x.2 <> []) l ->
  run_inputs fTestNet db d true 0 k l s = Some (false, s).
Proof.
  induction l as [|[i x] l IH]; intros s Hs Hr He; [by apply Exists_nil in He|]. cbn [run_inputs].
  case_bool_decide as Hx.
  - apply IH; [done|done|]. apply Exists_cons in He as [He|He]; [done|done].
  - destruct (input_records fTestNet db d 0 k i x) as [rs|] eqn:Ers; [|done].
    assert (rs <> [] /\ Forall (fun r => rec_blockHash r = 0) rs) as [Hne Hz].
    { unfold input_records in Ers. destruct (ReadDiskTx db d _) as [[pt ti]|]; [|done]. cbn in Ers. destruct (vout pt !! _) as [o|]; [|done]. cbn in Ers.
      destruct (Solve.ExtractAddress fTestNet (scriptPubKey o)) as [ad|]; [|done]. cbn in Ers. destruct (Base58.ToString ad) as [tx|]; [|done]. cbn in Ers.
      injection Ers as <-. split; [by destruct (infos x)|]. apply Forall_forall. intros r (j & y & -> & _)%elem_of_lookup_imap_1. done. }
    destruct (reverse rs) as [|r l'] eqn:Er.
    { apply (f_equal reverse) in Er. rewrite reverse_involutive in Er. done. }
    assert (r ∈ rs) as Hin by (rewrite <- elem_of_reverse, Er; by left). rewrite Forall_forall in Hz.
    rewrite run_records_undo_fails; [done|done|]. intros y Hy. rewrite (Hz r Hin). by apply Hr.
Qed.

(** C34: A block with information entries cannot be disconnected.  ConnectBlock
    records the entries under the hash of the block, DisconnectBlock looks
    for them under the default hash 0, finds nothing and fails: no chain that
    contains such a block can be left. *)
Theorem disconnect_with_infos_fails db s b n :
  TxInfo.InTransaction s = true -> (forall x, x ∈ rows s -> rec_blockHash (row_rec x) <> 0) ->
  Exists has_infos (vtx b) -> DisconnectBlock fTestNet d I db s b n = Failed 0.
Proof.
  intros Hs Hr He. unfold DisconnectBlock.
  assert (forall l db, Exists has_infos l -> disconnect_txs fTestNet d l db s = Failed 0) as H.
  { induction l as [|t l IH]; intros db0 Hl; [by apply Exists_nil in Hl|]. cbn [disconnect_txs].
    destruct (DisconnectInputs t db0) as [db1|]; [|done].
    destruct (decide (has_infos t)) as [Ht|Ht].
    - unfold UndoTxInfos, procUndoTxInfos. rewrite Hs. cbn [negb]. rewrite run_inputs_undo_fails; [done|done|done|].
      unfold has_infos in Ht. apply Exists_exists in Ht as (i & Hi & Hne). apply list_elem_of_lookup in Hi as [j Hj].
      apply Exists_exists. exists (j, i). split; [|done]. rewrite elem_of_reverse. apply list_elem_of_lookup. exists j.
      by rewrite list_lookup_imap, Hj.
    - rewrite UndoTxInfos_none by done. apply IH. by apply Exists_cons in Hl as [?|?]. }
  rewrite H; [done|]. apply Exists_exists in He as (t & Ht & Hi). apply Exists_exists. exists t. by rewrite elem_of_reverse.
Qed.

End refinement.

(** ** Witnesses *)

Section witnesses.
#[local] Existing Instance bn_reference.
#[local] Existing Instance toy_digests.
#[local] Existing Instance Tx.demo_abi.
#[local] Existing Instance Sig.demo_ec.

(** A block of a coinbase and a transaction that spends an output on disk. *)
Definition demo_txs : list CTransaction := [Block.demo_coinbase; demo_spender 0 (3 * COIN)].
Definition demo_block2 : CBlock :=
  mk_block 1 0 (Block.BuildMerkleTree (default [] (mapM Tx.GetHash demo_txs))) 100 0x1d00ffff 7 demo_txs [].
Definition demo_genesis : index := mk_blockindex ∅ None None (Block.GetIDHash demo_block2).
Definition demo_node : node := mk_node null_entry None None 1 0.
Definition demo_infos : CTxInfoStore := mk_store [] 0 (Some ([], 0)) 0.

Definition demo_connect : outcome (CTxDB * node * CTxInfoStore) :=
  ConnectBlock false demo_net demo_disk demo_genesis false ∅ 50 (fun _ => None) demo_db demo_infos demo_block2 demo_node.

Lemma demo_nonneg : Forall (fun t => Forall (fun i => Coins.nonneg (prevout i)) (vin t)) (vtx demo_block2).
Proof. repeat constructor; vm_compute; discriminate. Qed.


Lemma connect_disconnect_witness :
  exists db' n' infos' db'', demo_connect = Done (db', n', infos') /\
    DisconnectBlock false demo_disk demo_genesis db' demo_infos demo_block2 n' = Done (db'', demo_infos).
Proof.
  unfold demo_connect. destruct (ConnectBlock _ _ _ _ _ _ _ _ _ _ _ _) as [[[db' n'] infos']|dos|] eqn:Ec.
  2:{ vm_compute in Ec. discriminate. }
  2:{ vm_compute in Ec. discriminate. }
  assert (nFile demo_node <> Tx.UINT_MAX) as Hf by (vm_compute; discriminate).
  assert (Forall (fun t => ~ has_infos t) (vtx demo_block2)) as Hi.
  { apply (bool_decide_eq_true_1 _). vm_compute. reflexivity. }
  destruct (connect_disconnect (HL := bn_reference_laws) false demo_net demo_disk demo_genesis false ∅ 50 (fun _ => None) demo_db demo_infos demo_block2 demo_node
    db' n' infos' demo_infos Hf demo_nonneg Ec Hi eq_refl) as (db'' & H & _).
  exists db', n', infos', db''. split; [reflexivity|exact H].
Defined.

(** A block with an information entry, connected in an earlier transaction. *)
Definition demo_info_block : CBlock :=
  mk_block 1 0 0 100 0x1d00ffff 7
    [Block.demo_coinbase;
     mk_tx 1 100 [mk_txin (mk_outpoint (default 0 (Tx.GetHash demo_source)) 0) [] Tx.UINT_MAX [mk_info (mk_infokey 0 [97]) [98]]] [] 0 Tx.no_mint] [].

Lemma disconnect_with_infos_fails_witness :
  DisconnectBlock false demo_disk demo_genesis demo_db demo_infos demo_info_block demo_node = Failed 0.
Proof.
  apply (disconnect_with_infos_fails false demo_disk demo_genesis demo_db demo_infos demo_info_block demo_node eq_refl).
  - intros x Hx. apply elem_of_nil in Hx. destruct Hx.
  - apply Exists_cons. right. apply Exists_cons. left. apply Exists_cons. left. discriminate.
Defined.

End witnesses.

End Connect.
