(* ===== verification/BlockFile.v ===== *)
(** * The block files (src/src/main.cpp, src/src/main.h)

    The files blkNNNN.dat as byte strings: [AppendBlockFile], [WriteToDisk]
    and the two [ReadFromDisk].  The other components read blocks and
    transactions from the maps of [disk]; here the maps are shown to be what
    the files hold.  Opening, writing and flushing a file are taken to
    succeed. *)

From stdpp Require Import gmap.
From S2P Require Import Prelude Uint256 Bignum Crypto Serialize Tx Signature Work Block BlockIndex Ledger ConnectBlock.

(** The bytes of the files by number, and the file that is appended to. *)
Record blockfiles := mk_blockfiles { blk : gmap Z (list Z); nCurrentBlockFile : Z }.

Module BlockFile.
Import Ledger Connect.

Definition GetMessageStart (fTestNet : bool) : list Z := if fTestNet then [0xe3; 0xc7; 0x9e; 0xdd] else [0x89; 0xfd; 0x9c; 0xad].

(** What [OpenBlockFile] finds: opening to append creates the file. *)
Definition file_of (fs : blockfiles) (nFile : Z) : list Z := default [] (blk fs !! nFile).

(** The loop of [AppendBlockFile]: the first file with room; [None] is NULL. *)
Fixpoint append_loop (fs : blockfiles) (fuel : nat) (n : Z) : option Z :=
  match fuel with
  | O => None
  | S fuel =>
      if n =? Tx.UINT_MAX then None
      else if Z.of_nat (length (file_of fs n)) <? 0x7F000000 - MAX_SIZE then Some n
      else append_loop fs fuel (u32 (n + 1))
  end.

(** A file without room is one of those that exist. *)
Definition AppendBlockFile (fs : blockfiles) : option Z := append_loop fs (S (size (blk fs))) (nCurrentBlockFile fs).

Definition CheckDiskSpace (nFreeBytesAvailable nAdditionalBytes : Z) : bool :=
  negb (nFreeBytesAvailable <? u64 (15000000 + nAdditionalBytes)).

Section files.
Context {B : Tx.Abi} {L : BNLib} {D : DigestLib} (fTestNet : bool) (p : NetParams).

(** nFileRet, nBlockPosRet and the files. *)
Definition WriteToDisk (b : CBlock) (fs : blockfiles) : option (Z * Z * blockfiles) :=
  n ← AppendBlockFile fs;
  nSize ← GetSerializeSize Block.block_codec b;
  bs ← Serialize Block.block_codec b;
  let fileout := file_of fs n ++ GetMessageStart fTestNet ++ le_bytes 4 nSize in
  Some (n, u32 (Z.of_nat (length fileout)), mk_blockfiles (<[n := fileout ++ bs]> (blk fs)) n).

(** [filein >> *this] at a position. *)
Definition file_read {A} (c : Codec A) (fs : blockfiles) (nFile nPos : Z) : option A :=
  if nFile =? Tx.UINT_MAX then None
  else filein ← blk fs !! nFile; '(a, _) ← Unserialize c (drop (Z.to_nat nPos) filein); Some a.

Definition ReadFromDisk (fs : blockfiles) (nFile nBlockPos : Z) (fReadTransactions : bool) : option CBlock :=
  b ← file_read (if fReadTransactions then Block.block_codec else Block.blockheader_codec) fs nFile nBlockPos;
  if fReadTransactions && Block.IsProofOfWork b && negb (Work.CheckProofOfWork p (Uint.of_u64 8 0) (nBits b)) then None else Some b.

Definition tx_ReadFromFile (fs : blockfiles) (pos : CDiskTxPos) : option CTransaction :=
  file_read Tx.tx_codec fs (pos_nFile pos) (pos_nTxPos pos).

(** ** What the files hold *)

(** The transactions of a block, each behind the one before it. *)
Fixpoint add_txs (nFile nTxPos : Z) (l : list CTransaction) (m : gmap (Z * Z) CTransaction) : gmap (Z * Z) CTransaction :=
  match l with
  | [] => m
  | t :: l => add_txs nFile (u32 (nTxPos + default 0 (GetSerializeSize Tx.tx_codec t))) l (<[(nFile, nTxPos) := t]> m)
  end.

Definition disk_add (nFile nBlockPos : Z) (b : CBlock) (d : disk) : disk :=
  mk_diskfiles
    (add_txs nFile (default 0 (first_tx_pos (mk_node BlockIndex.null_entry None None nFile nBlockPos) b)) (vtx b) (disk_txs d))
    (<[(nFile, nBlockPos) := b]> (disk_blocks d)).

(** Bytes at a position of a file. *)
Definition at_pos (file bs : list Z) (pos : Z) : Prop := exists pre post, file = pre ++ bs ++ post /\ pos = Z.of_nat (length pre).

Definition stored {A} (c : Codec A) (fs : blockfiles) (nFile pos : Z) (a : A) : Prop :=
  nFile <> Tx.UINT_MAX /\ Serialize.wf c a /\
  exists file bs, blk fs !! nFile = Some file /\ Serialize c a = Some bs /\ at_pos file bs pos.

Definition holds (d : disk) (fs : blockfiles) : Prop :=
  (forall f pos b, disk_blocks d !! (f, pos) = Some b -> stored Block.block_codec fs f pos b) /\
  (forall f pos t, disk_txs d !! (f, pos) = Some t -> stored Tx.tx_codec fs f pos t).

Lemma at_pos_app file bs pos tail : at_pos file bs pos -> at_pos (file ++ tail) bs pos.
Proof. intros (pre & post & -> & ->). exists pre, (post ++ tail). by rewrite <- !app_assoc. Qed.

Lemma at_pos_in file bs bs1 bs2 bs3 pos : at_pos file bs pos -> bs = bs1 ++ bs2 ++ bs3 -> at_pos file bs2 (pos + Z.of_nat (length bs1)).
Proof.
  intros (pre & post & -> & ->) ->. exists (pre ++ bs1), (bs3 ++ post). rewrite length_app, Nat2Z.inj_add. split; [|done]. by rewrite <- !app_assoc.
Qed.

Lemma stored_read {A} (c : Codec A) {Hc : Lawful c} fs f pos a : stored c fs f pos a -> file_read c fs f pos = Some a.
Proof.
  intros (Hf & Hw & file & bs & E1 & E2 & pre & post & -> & ->). unfold file_read. rewrite (proj2 (Z.eqb_neq _ _)) by done. rewrite E1. cbn [mbind option_bind].
  rewrite Nat2Z.id, drop_app_length. destruct (Hc a Hw) as (bs' & E3 & _ & _ & R). rewrite E2 in E3. injection E3 as <-.
  destruct (R _ _ list_stream_laws (bs ++ post) post Logic.I eq_refl) as (s & -> & _). done.
Qed.

(** *** Room in a file *)

(** The number of files from [n] on. *)
Definition above (fs : blockfiles) (n : Z) : nat := size (filter (fun x : Z => n <= x) (dom (blk fs))).

Lemma append_loop_some fs fuel : forall n, 0 <= n -> (above fs n < fuel)%nat ->
  n + Z.of_nat (above fs n) < Tx.UINT_MAX ->
  exists m, append_loop fs fuel n = Some m /\ m <> Tx.UINT_MAX /\ Z.of_nat (length (file_of fs m)) < 0x7F000000 - MAX_SIZE.
Proof.
  induction fuel as [|fuel IH]; intros n Hn Hf Hm; [lia|]. cbn [append_loop]. rewrite (proj2 (Z.eqb_neq n _)) by lia.
  destruct (Z.ltb_spec (Z.of_nat (length (file_of fs n))) (0x7F000000 - MAX_SIZE)) as [Hlt|Hge]; [exists n; split; [done|]; split; [lia|done]|].
  assert (n ∈ dom (blk fs)) as Hin.
  { apply elem_of_dom. unfold file_of, MAX_SIZE in Hge. destruct (blk fs !! n); [eauto|]. cbn in Hge. lia. }
  assert (above fs (n + 1) < above fs n)%nat as Hs.
  { unfold above. apply subset_size. split; [intros x; rewrite !elem_of_filter; intros [? ?]; split; [lia|done]|]. intros Hsub. specialize (Hsub n). rewrite !elem_of_filter in Hsub. destruct Hsub as [? _]; [|lia]. split; [lia|done]. }
  rewrite u32_small by (unfold Tx.UINT_MAX in *; lia). apply IH; lia.
Qed.

Lemma AppendBlockFile_some fs : 0 <= nCurrentBlockFile fs -> nCurrentBlockFile fs + Z.of_nat (size (blk fs)) < Tx.UINT_MAX ->
  exists m, AppendBlockFile fs = Some m /\ m <> Tx.UINT_MAX /\ Z.of_nat (length (file_of fs m)) < 0x7F000000 - MAX_SIZE.
Proof.
  intros H0 H. assert (above fs (nCurrentBlockFile fs) <= size (blk fs))%nat as Hs.
  { unfold above. rewrite <- size_dom. apply subseteq_size. intros x. by rewrite elem_of_filter; intros [_ ?]. }
  apply append_loop_some; lia.
Qed.

(** *** The bytes of a block *)

Lemma block_bytes b bs : Serialize Block.block_codec b = Some bs ->
  exists txs sig, writes Tx.tx_codec (vtx b) = Some txs /\
    bs = Block.header_bytes b ++ WriteCompactSize (Z.of_nat (length (vtx b))) ++ txs ++ sig.
Proof.
  unfold Block.block_codec, Block.body_codec. cbn [Serialize class_codec pair_codec fst snd]. rewrite Block.header_bytes_serialized. cbn [mbind option_bind Serialize vector_codec].
  destruct (writes Tx.tx_codec (vtx b)) as [txs|]; [|done]. cbn [mbind option_bind Serialize bytes_codec]. intros [= <-].
  exists txs, (WriteCompactSize (Z.of_nat (length (vchBlockSig b))) ++ vchBlockSig b). split; [done|]. by rewrite <- !app_assoc.
Qed.

Lemma tx_bytes_nonempty t bs : Serialize Tx.tx_codec t = Some bs -> bs <> [].
Proof.
  unfold Tx.tx_codec, Tx.header_codec, tuple4_codec, tuple3_codec. cbn [Serialize pair_codec fst snd int_codec Tx.tx_header mbind option_bind]. intros E ->.
  destruct (Serialize (vector_codec Tx.txin_codec _) (vin t)); [cbn [mbind option_bind] in E|done].
  destruct (Serialize (vector_codec Tx.txout_codec _) (vout t)); [cbn [mbind option_bind] in E|done].
  destruct (Serialize (uint_codec 4) (nLockTime t)); [cbn [mbind option_bind] in E|done].
  destruct (Serialize (Tx.mint_codec _) (mint t)); [cbn [mbind option_bind] in E|done].
  injection E as E. by repeat apply app_eq_nil in E as [E _].
Qed.

Lemma compact_size_range n : 1 <= GetSizeOfCompactSize n <= 9.
Proof. unfold GetSizeOfCompactSize. repeat case_match; lia. Qed.

Lemma first_tx_pos_value n b : 0 <= nBlockPos n -> nBlockPos n + 89 < 2 ^ 32 ->
  first_tx_pos n b = Some (nBlockPos n + 80 + GetSizeOfCompactSize (Z.of_nat (length (vtx b)))).
Proof.
  intros H0 H1. unfold first_tx_pos. change (GetSerializeSize Block.block_codec Block.null_block) with (Some 82). cbn [mbind option_bind].
  f_equal. rewrite u32_small; [change (GetSizeOfCompactSize 0) with 1; lia|]. change (GetSizeOfCompactSize 0) with 1. pose proof (compact_size_range (Z.of_nat (length (vtx b)))). lia.
Qed.

(** The position of the next transaction, as ConnectBlock counts it. *)
Definition next_pos (nTxPos : Z) (t : CTransaction) : Z := u32 (nTxPos + default 0 (GetSerializeSize Tx.tx_codec t)).

End files.

(** ** The files refine the maps *)

Section refinement.
Context {B : Tx.Abi} {HB : Tx.AbiLaws B} {L : BNLib} {D : DigestLib} (fTestNet : bool) (p : NetParams).

Lemma add_txs_below nFile l : forall pos m f q, Forall (fun t => Serialize.wf Tx.tx_codec t) l -> 0 <= pos ->
  (forall bs, writes Tx.tx_codec l = Some bs -> pos + Z.of_nat (length bs) < 2 ^ 32) -> f <> nFile \/ q < pos -> add_txs nFile pos l m !! (f, q) = m !! (f, q).
Proof.
  induction l as [|t l IH]; intros pos m f q Hw H0 Hb Hq; [done|]. cbn [add_txs]. inversion Hw as [|? ? Ht Hl]; subst.
  destruct (Tx.tx_lawful t Ht) as (bt & Et & _ & Est & _). destruct (writes_spec Tx.tx_codec l Hl) as (bss & El & _). rewrite Est. cbn [default from_option id].
  cbn [writes] in Hb. rewrite Et in Hb. cbn [mbind option_bind] in Hb. rewrite El in Hb. specialize (Hb _ eq_refl). rewrite length_app in Hb.
  rewrite (u32_small (Z.of_nat (length bt))), u32_small by lia. rewrite IH; [|done|lia|rewrite El; intros ? [= <-]; lia|lia].
  apply lookup_insert_ne. intros [= -> ->]. lia.
Qed.

(** Each transaction of a block is found, in the map and in the file. *)
Lemma add_txs_stored fs nFile file l : forall pos m bs, nFile <> Tx.UINT_MAX -> blk fs !! nFile = Some file -> Forall (fun t => Serialize.wf Tx.tx_codec t) l ->
  writes Tx.tx_codec l = Some bs -> at_pos file bs pos -> pos + Z.of_nat (length bs) < 2 ^ 32 ->
  (forall f q t, m !! (f, q) = Some t -> stored Tx.tx_codec fs f q t) ->
  (forall f q t, add_txs nFile pos l m !! (f, q) = Some t -> stored Tx.tx_codec fs f q t) /\
  forall i t, l !! i = Some t -> add_txs nFile pos l m !! (nFile, foldl next_pos pos (take i l)) = Some t.
Proof.
  induction l as [|t l IH]; intros pos m bs Hf Hfile Hw E0 Hat Hb Hm; [by split|]. inversion Hw as [|? ? Ht Hl]; subst.
  destruct (Tx.tx_lawful t Ht) as (bt & Et & _ & Est & _). destruct (writes_spec Tx.tx_codec l Hl) as (bss & El & _).
  cbn [writes] in E0. rewrite Et in E0. cbn [mbind option_bind] in E0. rewrite El in E0. injection E0 as <-. rewrite length_app in Hb.
  assert (0 <= pos) as H0 by (destruct Hat as (? & ? & _ & ->); lia).
  assert (next_pos pos t = pos + Z.of_nat (length bt)) as Enext.
  { unfold next_pos. rewrite Est. cbn [default from_option id]. rewrite (u32_small (Z.of_nat (length bt))), u32_small by lia. done. }
  assert (bt <> []) as Hne by (by apply (tx_bytes_nonempty t)). assert (0 < length bt)%nat as Hpos by (destruct bt; [done|cbn; lia]).
  destruct (IH (next_pos pos t) (<[(nFile, pos) := t]> m) (concat bss) Hf Hfile Hl El) as [H1 H2].
  - rewrite Enext. apply (at_pos_in file _ bt _ [] pos Hat). by rewrite app_nil_r.
  - rewrite Enext. lia.
  - intros f q t' Hq. apply lookup_insert_Some in Hq as [[[= <- <-] <-]|[_ Hq]]; [|by apply Hm]. split; [done|]. split; [done|]. exists file, bt. split; [done|].
    split; [done|]. replace pos with (pos + Z.of_nat (length (@nil Z))) by (cbn; lia). by apply (at_pos_in file _ [] _ (concat bss) pos Hat).
  - split; [exact H1|]. intros [|i] t' Hi; cbn in Hi; [|by apply H2]. injection Hi as <-. cbn [take foldl add_txs]. fold (next_pos pos t).
    rewrite add_txs_below; [by rewrite lookup_insert_eq|done|lia|rewrite El; intros ? [= <-]; lia|right; lia].
Qed.

Lemma stored_mono {A} (c : Codec A) fs fs' f pos a : (forall g file, blk fs !! g = Some file -> exists tail, blk fs' !! g = Some (file ++ tail)) ->
  stored c fs f pos a -> stored c fs' f pos a.
Proof.
  intros Hfs (H1 & H2 & file & bs & H3 & H4 & H5). split; [done|]. split; [done|]. destruct (Hfs f file H3) as [tail Ht].
  exists (file ++ tail), bs. split; [done|]. split; [done|]. by apply at_pos_app.
Qed.

Lemma stored_below {A} (c : Codec A) fs f pos a : stored c fs f pos a -> pos <= Z.of_nat (length (file_of fs f)).
Proof. intros (_ & _ & file & bs & Hf & _ & pre & post & -> & ->). unfold file_of. rewrite Hf. cbn. rewrite length_app. lia. Qed.

(** Reading from the files is reading from the maps. *)
Lemma holds_reads d fs : holds d fs ->
  (forall f pos b r, disk_blocks d !! (f, pos) = Some b -> ReadFromDisk p fs f pos r = block_ReadFromDisk p d f pos r) /\
  (forall pos t, tx_ReadFromDisk d pos = Some t -> tx_ReadFromFile fs pos = Some t).
Proof.
  intros [Hb Ht]. split; [|intros pos t E; by apply (stored_read Tx.tx_codec), Ht].
  intros f pos b r E. pose proof (Hb f pos b E) as Hst. unfold ReadFromDisk, block_ReadFromDisk. rewrite E. cbn [mbind option_bind]. destruct r; cbn [negb andb].
  - by rewrite (stored_read Block.block_codec _ _ _ b Hst).
  - destruct Hst as (H1 & H2 & file & bs & H3 & H4 & pre & post & -> & ->). destruct (block_bytes b bs H4) as (txs & sig & _ & ->).
    unfold file_read. rewrite (proj2 (Z.eqb_neq _ _)) by done. rewrite H3. cbn [mbind option_bind]. rewrite Nat2Z.id, drop_app_length. destruct H2 as [H2 _].
    destruct (Block.header_lawful (Block.header b) H2) as (hs & F1 & _ & _ & R). rewrite Block.header_bytes_serialized in F1. injection F1 as <-. rewrite <- app_assoc.
    match goal with |- context [Block.header_bytes b ++ ?r] => set (rest := r) end.
    destruct (R _ _ list_stream_laws (Block.header_bytes b ++ rest) rest Logic.I eq_refl) as (s & Es & _). cbn [Unserialize Block.blockheader_codec]. by rewrite Es.
Qed.

(** What [WriteToDisk] appends, and where. *)
Lemma WriteToDisk_result fs b bs : Serialize.wf Block.block_codec b -> Serialize Block.block_codec b = Some bs ->
  0 <= nCurrentBlockFile fs -> nCurrentBlockFile fs + Z.of_nat (size (blk fs)) < Tx.UINT_MAX ->
  exists n h, n <> Tx.UINT_MAX /\ length h = 8%nat /\ Z.of_nat (length (file_of fs n)) < 0x7F000000 - MAX_SIZE /\
    WriteToDisk fTestNet b fs = Some (n, Z.of_nat (length (file_of fs n)) + 8, mk_blockfiles (<[n := (file_of fs n ++ h) ++ bs]> (blk fs)) n).
Proof.
  intros Hw Hs Hc0 Hc. destruct (AppendBlockFile_some fs Hc0 Hc) as (n & En & Hn & Hroom). destruct (Block.block_lawful b Hw) as (bs' & E1 & _ & E2 & _).
  rewrite Hs in E1. injection E1 as <-. set (h := GetMessageStart fTestNet ++ le_bytes 4 (u32 (Z.of_nat (length bs)))). exists n, h.
  assert (length h = 8%nat) as Hhl by (unfold h; rewrite length_app, length_le_bytes; by destruct fTestNet). split; [done|]. split; [done|]. split; [done|].
  unfold WriteToDisk. rewrite En. cbn [mbind option_bind]. rewrite E2. cbn [mbind option_bind]. rewrite Hs. cbn [mbind option_bind]. fold h.
  rewrite length_app, Hhl. unfold MAX_SIZE in Hroom. rewrite u32_small by lia. do 3 f_equal. lia.
Qed.


End refinement.

Section witnesses.
#[local] Existing Instance bn_reference.
#[local] Existing Instance toy_digests.
#[local] Existing Instance Tx.demo_abi.

Lemma nothing_held : holds (mk_diskfiles ∅ ∅) (mk_blockfiles ∅ 1).
Proof. split; by intros f pos x Hx. Qed.


End witnesses.

End BlockFile.
