(* ===== verification/Mempool.v ===== *)
(** * The memory pool and the orphan transactions (src/src/main.cpp, main.h)

    CTxMemPool holds the transactions that wait for a block ([mapTx]) and, by
    the outputs they spend, who spends them ([mapNextTx]).  [accept] checks a
    transaction and adds it.  A [CInPoint] points at a transaction of
    [mapTx]; the pointer is modelled by the key of the transaction, so that a
    dangling pointer is a key that is not in the map.  The second part is the
    store of orphan transactions, which wait for the transactions they spend. *)

From Stdlib Require Import SpecFloat.
From stdpp Require Import gmap.
From S2P Require Import Prelude Crypto Bignum Script Interpreter Serialize Tx TxInfo Coins Base58 Signature Solver Work Block BlockIndex Ledger ConnectBlock.
Import BlockIndex Ledger.

#[export] Instance COutPoint_countable : Countable COutPoint.
Proof.
  refine (inj_countable' (fun o => (prevhash o, out_n o)) (fun p => mk_outpoint p.1 p.2) _). by intros [].
Defined.

(** [CInPoint]: a transaction of the pool and one of its inputs. *)
Record CInPoint := mk_inpoint { in_ptx : Z; in_n : nat }.

(** The pool, with the global counter of its changes. *)
Record CTxMemPool := mk_mempool {
  mapTx : gmap Z CTransaction;
  mapNextTx : gmap COutPoint CInPoint;
  nTransactionsUpdated : Z
}.

(** The orphan transactions: the messages by hash, and by the hashes of the
    transactions they wait for. *)
Record orphans := mk_orphans {
  mapOrphanTransactions : gmap Z (list Z);
  mapOrphanTransactionsByPrev : gmap Z (gmap Z (list Z))
}.

(** The static variables of the rate limiter in [checkAccept]. *)
Record limiter := mk_limiter { dFreeCount : spec_float; nLastTime : Z }.

Module Mempool.

Definition INT_MAX : Z := 2 ^ 31 - 1.

(** ** The maps *)

Definition pool_size (m : CTxMemPool) : Z := Z.of_nat (size (mapTx m)).
Definition exists_ (m : CTxMemPool) (hash : Z) : bool := bool_decide (is_Some (mapTx m !! hash)).
Definition queryHashes (m : CTxMemPool) : gset Z := dom (mapTx m).

(** The loop over the inputs of [addUnchecked]: a later input overwrites an
    earlier one. *)
Fixpoint set_next (hash : Z) (i : nat) (l : list CTxIn) (next : gmap COutPoint CInPoint) : gmap COutPoint CInPoint :=
  match l with
  | [] => next
  | txin :: l => set_next hash (S i) l (<[prevout txin := mk_inpoint hash i]> next)
  end.

Section pool.
Context {B : Tx.Abi} {L : BNLib} {D : DigestLib} {E : ECLib}.

Definition addUnchecked (t : CTransaction) (m : CTxMemPool) : option CTxMemPool :=
  hash ← Tx.GetHash t;
  Some (mk_mempool (<[hash := t]> (mapTx m)) (set_next hash 0 (vin t) (mapNextTx m)) (u32 (nTransactionsUpdated m + 1))).

Definition clear_next (l : list CTxIn) (next : gmap COutPoint CInPoint) : gmap COutPoint CInPoint :=
  foldl (fun next txin => delete (prevout txin) next) next l.

Definition remove (t : CTransaction) (m : CTxMemPool) : option CTxMemPool :=
  hash ← Tx.GetHash t;
  if bool_decide (is_Some (mapTx m !! hash)) then
    Some (mk_mempool (delete hash (mapTx m)) (clear_next (vin t) (mapNextTx m)) (u32 (nTransactionsUpdated m + 1)))
  else Some m.

(** ** AreInputsStandard *)

(** Input [i]; [None] is the exception of [GetOutputFor]. *)
Definition input_standard (t : CTransaction) (mapInputs : MapPrevTx) (i : nat) (txin : CTxIn) : option bool :=
  prev ← GetOutputFor txin mapInputs;
  let r := Solve.Solver (scriptPubKey prev) in
  if negb (Solve.sol_ok r) then Some false
  else
    let nArgsExpected := Solve.ScriptSigArgsExpected (Solve.sol_type r) (Solve.sol_sols r) in
    if nArgsExpected <? 0 then Some false
    else
      match Interp.EvalScript (Solve.check_for t i 0) [] (scriptSig txin) with
      | None => Some false
      | Some stack =>
          if bool_decide (Solve.sol_type r = Solve.TX_SCRIPTHASH) then
            match last stack with
            | None => Some false
            | Some subscript =>
                let r2 := Solve.Solver subscript in
                if negb (Solve.sol_ok r2) then Some false
                else if bool_decide (Solve.sol_type r2 = Solve.TX_SCRIPTHASH) then Some false
                else
                  let tmpExpected := Solve.ScriptSigArgsExpected (Solve.sol_type r2) (Solve.sol_sols r2) in
                  if tmpExpected <? 0 then Some false
                  else Some (Z.of_nat (length stack) =? nArgsExpected + tmpExpected)
            end
          else Some (Z.of_nat (length stack) =? nArgsExpected)
      end.

Fixpoint inputs_standard (t : CTransaction) (mapInputs : MapPrevTx) (i : nat) (l : list CTxIn) : option bool :=
  match l with
  | [] => Some true
  | txin :: l =>
      ok ← input_standard t mapInputs i txin;
      if (ok : bool) then inputs_standard t mapInputs (S i) l else Some false
  end.

Definition AreInputsStandard (t : CTransaction) (mapInputs : MapPrevTx) : option bool :=
  if Tx.IsCoinBase t then Some true else inputs_standard t mapInputs 0 (vin t).

(** ** checkAccept *)

(** [Accepted ptxOld]: the transaction that is replaced.  [Rejected]: the
    penalty, and [*pfMissingInputs].  [Threw]: an exception. *)
Inductive verdict := Accepted (ptxOld : option Z) | Rejected (dos : Z) (missing : bool) | Threw.

(** What the code reads besides the pool: the clock, the limit of
    -limitfreerelay, whether the wallets own the transaction, and [pow]. *)
Context (fTestNet : bool) (p : NetParams) (nNow nLimitFreeRelay : Z) (IsFromMe : CTransaction -> bool) (pow : spec_float -> spec_float -> spec_float).

(** The rate limiter: whether the transaction passes. *)
Definition rate_limit (t : CTransaction) (nSize : Z) (lim : limiter) : bool * limiter :=
  let decayed := Work.dmul (dFreeCount lim)
    (pow (Work.dadd (Work.dbl 1) (SFopp (Work.ddiv (Work.dbl 1) (Work.dbl 600)))) (Work.dbl (nNow - nLastTime lim))) in
  if SFltb (Work.dbl (nLimitFreeRelay * 10 * 1000)) decayed && negb (IsFromMe t) then (false, mk_limiter decayed nNow)
  else (true, mk_limiter (Work.dadd decayed (Work.dbl nSize)) nNow).

(** The information entries are processed in a view that is rolled back. *)
Definition try_infos (db : CTxDB) (d : disk) (t : CTransaction) (infos : CTxInfoStore) : option (bool * CTxInfoStore) :=
  view ← TxInfo.BeginTransaction infos;
  '(ok, view) ← Connect.ProcessTxInfos fTestNet db d 0 (-1) t view;
  back ← TxInfo.Rollback view;
  Some (ok, back).

(** The last checks: the inputs as if they were connected after the best
    block, and the information entries. *)
Definition connect_pool_inputs (db : CTxDB) (d : disk) (I : index) (t : CTransaction) (mapInputs : MapPrevTx) (lim : limiter) (infos : CTxInfoStore)
    : verdict * limiter * CTxInfoStore :=
  match ConnectInputs p db d I false t mapInputs ∅ pos_mempool (pindexBest I) false false with
  | Thrown => (Threw, lim, infos)
  | Failed dos => (Rejected dos false, lim, infos)
  | Done _ =>
      match try_infos db d t infos with
      | None => (Threw, lim, infos)
      | Some (false, infos) => (Rejected 0 false, lim, infos)
      | Some (true, infos) => (Accepted None, lim, infos)
      end
  end.

(** The checks of the inputs (fCheckInputs). *)
Definition check_pool_inputs (db : CTxDB) (d : disk) (I : index) (t : CTransaction) (m : CTxMemPool) (lim : limiter) (infos : CTxInfoStore)
    : verdict * limiter * CTxInfoStore :=
  match FetchInputs db d (mapTx m) ∅ false false t ∅ with
  | FetchFailed fInvalid => (if fInvalid then Rejected 100 false else Rejected 0 true, lim, infos)
  | Fetched mapInputs =>
      match AreInputsStandard t mapInputs with
      | None => (Threw, lim, infos)
      | Some standard =>
          if negb standard && negb fTestNet then (Rejected 0 false, lim, infos)
          else
            match GetValueIn t mapInputs, Tx.GetValueOut t, GetSerializeSize Tx.tx_codec t, Tx.GetMinFee t 1000 Tx.GMF_RELAY with
            | Some nValueIn, Some nValueOut, Some nSize, Some nMinFee =>
                let nFees := i64 (nValueIn - nValueOut) in
                if nFees <? nMinFee then (Rejected 0 false, lim, infos)
                else
                  let '(ok, lim) := if nFees <? MIN_RELAY_TX_FEE then rate_limit t nSize lim else (true, lim) in
                  if negb ok then (Rejected 0 false, lim, infos) else connect_pool_inputs db d I t mapInputs lim infos
            | _, _, _, _ => (Threw, lim, infos)
            end
      end
  end.

(** A transaction that spends what a transaction of the pool spends is turned
    down: what follows the [return false] in the loop is not reached, and
    [ptxOld] stays NULL. *)
Definition checkAccept (db : CTxDB) (d : disk) (I : index) (fCheckInputs : bool) (t : CTransaction) (m : CTxMemPool) (lim : limiter) (infos : CTxInfoStore)
    : verdict * limiter * CTxInfoStore :=
  match Tx.CheckTransaction t with
  | Tx.CheckThrown => (Threw, lim, infos)
  | Tx.CheckFailed dos => (Rejected dos false, lim, infos)
  | Tx.CheckOk =>
      if Tx.IsCoinBase t then (Rejected 100 false, lim, infos)
      else if Tx.IsCoinStake t then (Rejected 100 false, lim, infos)
      else if INT_MAX <? nLockTime t then (Rejected 0 false, lim, infos)
      else if negb fTestNet && negb (Solve.tx_IsStandard t) then (Rejected 0 false, lim, infos)
      else
        match Tx.GetHash t with
        | None => (Threw, lim, infos)
        | Some hash =>
            if bool_decide (is_Some (mapTx m !! hash)) then (Rejected 0 false, lim, infos)
            else if fCheckInputs && ContainsTx db hash then (Rejected 0 false, lim, infos)
            else if existsb (fun txin => bool_decide (is_Some (mapNextTx m !! prevout txin))) (vin t) then (Rejected 0 false, lim, infos)
            else if fCheckInputs then check_pool_inputs db d I t m lim infos
            else (Accepted None, lim, infos)
        end
  end.

Definition accept (db : CTxDB) (d : disk) (I : index) (fCheckInputs : bool) (t : CTransaction) (m : CTxMemPool) (lim : limiter) (infos : CTxInfoStore)
    : option (verdict * CTxMemPool * limiter * CTxInfoStore) :=
  let '(v, lim, infos) := checkAccept db d I fCheckInputs t m lim infos in
  match v with
  | Accepted ptxOld =>
      m ← match ptxOld ≫= fun h => mapTx m !! h with Some old => remove old m | None => Some m end;
      m ← addUnchecked t m;
      Some (v, m, lim, infos)
  | _ => Some (v, m, lim, infos)
  end.

End pool.

(** ** Orphan transactions *)

Section orphans.
Context {B : Tx.Abi} {D : DigestLib}.

(** [CDataStream(vMsg) >> tx]; what follows the transaction is left. *)
Definition parse_tx (vMsg : list Z) : option CTransaction := fst <$> Unserialize Tx.tx_codec vMsg.

Definition MAX_ORPHAN_SIZE : Z := 5000.

Definition add_prev (hash : Z) (vMsg : list Z) (m : gmap Z (gmap Z (list Z))) (txin : CTxIn) : gmap Z (gmap Z (list Z)) :=
  let prev := prevhash (prevout txin) in
  let inner := default ∅ (m !! prev) in
  <[prev := match inner !! hash with Some _ => inner | None => <[hash := vMsg]> inner end]> m.

Definition AddOrphanTx (vMsg : list Z) (o : orphans) : option (bool * orphans) :=
  tx ← parse_tx vMsg;
  hash ← Tx.GetHash tx;
  if bool_decide (is_Some (mapOrphanTransactions o !! hash)) then Some (false, o)
  else if MAX_ORPHAN_SIZE <? Z.of_nat (length vMsg) then Some (false, o)
  else Some (true, mk_orphans (<[hash := vMsg]> (mapOrphanTransactions o)) (foldl (add_prev hash vMsg) (mapOrphanTransactionsByPrev o) (vin tx))).

Definition erase_prev (hash : Z) (m : gmap Z (gmap Z (list Z))) (txin : CTxIn) : gmap Z (gmap Z (list Z)) :=
  let prev := prevhash (prevout txin) in
  let inner := delete hash (default ∅ (m !! prev)) in
  if bool_decide (inner = ∅) then delete prev m else <[prev := inner]> m.

Definition EraseOrphanTx (hash : Z) (o : orphans) : option orphans :=
  match mapOrphanTransactions o !! hash with
  | None => Some o
  | Some vMsg =>
      tx ← parse_tx vMsg;
      Some (mk_orphans (delete hash (mapOrphanTransactions o)) (foldl (erase_prev hash) (mapOrphanTransactionsByPrev o) (vin tx)))
  end.

(** [lower_bound(h)], or [begin()] at the end of the map. *)
Definition least (l : list Z) : option Z := match l with [] => None | x :: l => Some (foldl Z.min x l) end.
Definition pick (h : Z) (m : gmap Z (list Z)) : option Z :=
  let keys := (map_to_list m).*1 in
  match least (List.filter (fun k => h <=? k) keys) with Some k => Some k | None => least keys end.

(** [rnd] gives the random hashes.  Every round evicts one orphan, so that as
    many rounds as there are orphans are enough. *)
Fixpoint limit_loop (fuel : nat) (nMaxOrphans : Z) (rnd : nat -> Z) (nEvicted : nat) (o : orphans) : option (nat * orphans) :=
  if Z.of_nat (size (mapOrphanTransactions o)) <=? nMaxOrphans then Some (nEvicted, o)
  else
    match fuel with
    | O => None
    | S fuel =>
        h ← pick (rnd nEvicted) (mapOrphanTransactions o);
        o ← EraseOrphanTx h o;
        limit_loop fuel nMaxOrphans rnd (S nEvicted) o
    end.

Definition LimitOrphanTxSize (nMaxOrphans : Z) (rnd : nat -> Z) (o : orphans) : option (nat * orphans) :=
  limit_loop (size (mapOrphanTransactions o)) nMaxOrphans rnd 0 o.

End orphans.

(** ** The invariant of the pool *)

Section invariant.
Context {B : Tx.Abi} {L : BNLib} {D : DigestLib} {E : ECLib}.

(** Every transaction is filed under its hash, and [mapNextTx] holds exactly
    the inputs of the transactions of the pool: no pointer dangles, and no
    output is spent twice. *)
Record pool_ok (m : CTxMemPool) : Prop := {
  po_hash : forall h t, mapTx m !! h = Some t -> Tx.GetHash t = Some h;
  po_next : forall o q, mapNextTx m !! o = Some q <->
    exists t i, mapTx m !! in_ptx q = Some t /\ vin t !! in_n q = Some i /\ prevout i = o
}.

(** The inputs of a list, numbered from [k]. *)
Lemma lookup_set_next hash l : forall k next o, NoDup (prevout <$> l) ->
  set_next hash k l next !! o =
    match list_find (fun i => prevout i = o) l with
    | Some (j, _) => Some (mk_inpoint hash (k + j))
    | None => next !! o
    end.
Proof.
  induction l as [|i l IH]; intros k next o Hn; [done|]. inversion Hn as [|? ? Hi Hl]; subst. cbn [set_next list_find].
  rewrite IH by done. case_decide as Eo.
  - subst o. destruct (list_find _ l) as [[j y]|] eqn:Ef.
    + apply list_find_Some in Ef as (Hj & Ey & _). destruct Hi. rewrite <- Ey. apply list_elem_of_fmap_2. by eapply list_elem_of_lookup_2.
    + rewrite lookup_insert_eq, Nat.add_0_r. done.
  - destruct (list_find _ l) as [[j y]|]; cbn; [by rewrite Nat.add_succ_r|]. by rewrite lookup_insert_ne.
Qed.

Lemma lookup_set_next_Some hash l next o q : NoDup (prevout <$> l) -> Forall (fun i => next !! prevout i = None) l ->
  set_next hash 0 l next !! o = Some q <->
  next !! o = Some q \/ (exists i, l !! in_n q = Some i /\ prevout i = o /\ in_ptx q = hash).
Proof.
  intros Hn Hf. rewrite lookup_set_next by done. rewrite Forall_forall in Hf. split.
  - destruct (list_find _ l) as [[j y]|] eqn:Ef; [|by left]. intros [= <-]. apply list_find_Some in Ef as (Hj & Ey & _). right. by exists y.
  - intros H. assert (forall i k, l !! k = Some i -> prevout i = o -> list_find (fun i => prevout i = o) l = Some (k, i)) as Hfind.
    { intros i k Hk <-. apply list_find_Some. split; [done|]. split; [done|]. intros k' y Hk' Hlt Ey.
      assert (k' = k); [|lia]. apply (NoDup_lookup (prevout <$> l) k' k (prevout i) Hn); rewrite list_lookup_fmap; [by rewrite Hk', <- Ey|by rewrite Hk]. }
    destruct H as [H|(i & Hi & Eo & Eh)].
    + destruct (list_find _ l) as [[j y]|] eqn:Ef; [|done]. apply list_find_Some in Ef as (Hj & Ey & _).
      rewrite <- Ey, (Hf y) in H by (by eapply list_elem_of_lookup_2). done.
    + rewrite (Hfind i (in_n q) Hi Eo). destruct q as [x n]. cbn in *. by subst.
Qed.

Lemma lookup_clear_next l : forall next o, clear_next l next !! o = if decide (o ∈ prevout <$> l) then None else next !! o.
Proof.
  unfold clear_next. induction l as [|i l IH]; intros next o; [done|]. cbn [foldl fmap list_fmap]. rewrite IH. repeat case_decide; try done.
  - destruct H0. by right.
  - apply elem_of_cons in H0 as [->|?]; [|done]. by rewrite lookup_delete_eq.
  - rewrite lookup_delete_ne; [done|]. intros <-. destruct H0. by left.
Qed.

Lemma empty_pool_ok n : pool_ok (mk_mempool ∅ ∅ n).
Proof. split; cbn. - intros h t. by rewrite lookup_empty. - intros o q. rewrite lookup_empty. split; [done|]. intros (t & i & H & _). by rewrite lookup_empty in H. Qed.

(** A transaction that spends nothing the pool spends can be added. *)
Lemma addUnchecked_ok t h m : pool_ok m -> Tx.GetHash t = Some h -> mapTx m !! h = None -> NoDup (prevout <$> vin t) ->
  Forall (fun i => mapNextTx m !! prevout i = None) (vin t) ->
  exists m', addUnchecked t m = Some m' /\ pool_ok m' /\ mapTx m' = <[h := t]> (mapTx m) /\
    (forall o, mapNextTx m' !! o = match list_find (fun i => prevout i = o) (vin t) with Some (j, _) => Some (mk_inpoint h j) | None => mapNextTx m !! o end).
Proof.
  intros [P1 P2] Hh Hm Hn Hf. unfold addUnchecked. rewrite Hh. cbn. eexists. split; [done|]. split; [|split; [done|]].
  2:{ intros o. cbn. by rewrite lookup_set_next. }
  split; cbn.
  - intros h' t' H. apply lookup_insert_Some in H as [[<- <-]|[_ H]]; [done|]. by apply P1.
  - intros o q. rewrite lookup_set_next_Some by done. rewrite P2. split.
    + intros [(t' & i & H1 & H2 & H3)|(i & H1 & H2 & ->)].
      * exists t', i. split; [|done]. rewrite lookup_insert_ne; [done|]. intros Eh. rewrite <- Eh in H1. by rewrite H1 in Hm.
      * exists t, i. by rewrite lookup_insert_eq.
    + intros (t' & i & H1 & H2 & H3). apply lookup_insert_Some in H1 as [[Eh <-]|[_ H1]]; [right; by exists i|left; by exists t', i].
Qed.

(** Removing a transaction of the pool. *)
Lemma remove_ok t h m : pool_ok m -> Tx.GetHash t = Some h -> (forall t', mapTx m !! h = Some t' -> vin t' = vin t) ->
  exists m', remove t m = Some m' /\ pool_ok m' /\ mapTx m' = delete h (mapTx m).
Proof.
  intros [P1 P2] Hh Hv. unfold remove. rewrite Hh. cbn [mbind option_bind]. case_bool_decide as Hm.
  - destruct Hm as [t' Ht']. pose proof (Hv t' Ht') as Ev. eexists. split; [done|]. split; [|done]. split; cbn.
    + intros h' x H. apply lookup_delete_Some in H as [_ H]. by apply P1.
    + intros o q. rewrite lookup_clear_next. case_decide as Ho.
      * split; [done|]. intros (x & i & H1 & H2 & H3). apply lookup_delete_Some in H1 as [Hne H1]. apply list_elem_of_fmap in Ho as (j & -> & Hj).
        apply list_elem_of_lookup in Hj as [k Hk]. rewrite <- Ev in Hk.
        assert (mapNextTx m !! prevout j = Some (mk_inpoint h k)) as H4 by (apply P2; by exists t', j).
        assert (mapNextTx m !! prevout j = Some q) as H5 by (apply P2; by exists x, i).
        rewrite H4 in H5. injection H5 as <-. done.
      * rewrite P2. split; intros (x & i & H1 & H2 & H3); exists x, i; (split; [|done]).
        -- rewrite lookup_delete_ne; [done|]. intros Eh. destruct Ho. rewrite <- H3. apply list_elem_of_fmap_2.
           rewrite <- Eh, Ht' in H1. injection H1 as <-. rewrite Ev in H2. by eapply list_elem_of_lookup_2.
        -- by apply lookup_delete_Some in H1 as [_ H1].
  - exists m. split; [done|]. split; [done|]. symmetry. apply delete_id. by apply eq_None_not_Some.
Qed.

(** ** What [accept] lets in *)

Lemma GetMinFee_relay t b f : Tx.GetMinFee t b Tx.GMF_RELAY = Some f -> MIN_RELAY_TX_FEE <= f.
Proof.
  unfold Tx.GetMinFee. destruct (GetSerializeSize Tx.tx_codec t) as [k|]; [|done]. cbn [mbind option_bind Tx.is_relay].
  assert (MIN_RELAY_TX_FEE <= MAX_MONEY) as Hle by (vm_compute; discriminate).
  assert (forall x, MIN_RELAY_TX_FEE <= (if negb (MoneyRange (Z.max x MIN_RELAY_TX_FEE)) then MAX_MONEY else Z.max x MIN_RELAY_TX_FEE)) as Hcap
    by (intros x; destruct (negb _); lia).
  destruct (_ && _); [destruct (_ <=? _)|]; intros [= <-]; [done|apply Hcap..].
Qed.

(** The records that are fetched for the pool: those of the database, or
    fresh ones for transactions of the pool. *)
Definition fetched_ok (db : CTxDB) (m : CTxMemPool) (inputs : MapPrevTx) : Prop := forall h r, inputs !! h = Some r ->
  match db_tx db !! h with Some ti => r.1 = ti | None => mapTx m !! h = Some r.2 end.

Lemma fetch_loop_ok db d m l : forall inputs inputs', fetched_ok db m inputs ->
  fetch_loop db d (mapTx m) ∅ false l inputs = Some inputs' -> fetched_ok db m inputs'.
Proof.
  induction l as [|i l IH]; intros inputs inputs' Hi E0; cbn in E0; [by injection E0 as <-|].
  destruct (inputs !! prevhash (prevout i)) eqn:Ei; [by apply (IH inputs)|].
  destruct (fetch_one db d (mapTx m) ∅ false (prevhash (prevout i))) as [r|] eqn:Er; [|done]. cbn in E0. apply IH in E0; [done|].
  intros h x [[<- <-]|[_ Hx]]%lookup_insert_Some; [|by apply Hi]. unfold fetch_one, fetch_index, ReadTxIndex in Er.
  destruct (db_tx db !! prevhash (prevout i)) as [ti|].
  - destruct (pos_eq _ _); [destruct (mapTx m !! _)|destruct (tx_ReadFromDisk d _)]; cbn in Er; try done; by injection Er as <-.
  - destruct (mapTx m !! _) as [pt|]; cbn in Er; [|done]. by injection Er as <-.
Qed.

Lemma FetchInputs_ok db d m t inputs : FetchInputs db d (mapTx m) ∅ false false t ∅ = Fetched inputs -> fetched_ok db m inputs.
Proof.
  unfold FetchInputs. assert (fetched_ok db m ∅) as H0 by (intros h r; by rewrite lookup_empty).
  destruct (Tx.IsCoinBase t); [by intros [= <-]|]. cbn [orb]. destruct (fetch_loop _ _ _ _ _ _ _) as [x|] eqn:Ef; [|done].
  destruct (existsb _ _); [done|]. intros [= <-]. by apply (fetch_loop_ok db d m (vin t) ∅).
Qed.

Lemma spend_inputs_unspent t pos fVerify fWrite l : pos_IsNull pos = false -> forall nIn inputs pool pool',
  spend_inputs t pos fVerify fWrite l nIn inputs pool = Done pool' ->
  Forall (fun i => exists r sp, inputs !! prevhash (prevout i) = Some r /\ vSpent r.1 !! Z.to_nat (out_n (prevout i)) = Some sp /\ pos_IsNull sp = true) l.
Proof.
  intros Hp. induction l as [|i l IH]; intros nIn inputs pool pool' E0; [constructor|]. cbn in E0.
  destruct (inputs !! prevhash (prevout i)) as [r|] eqn:Ei; [|done]. destruct (vSpent r.1 !! _) as [sp|] eqn:Es; [|done].
  destruct (pos_IsNull sp) eqn:En; cbn [negb] in E0; [|done]. destruct (if fVerify then _ else _) as [[]|]; [|done..].
  constructor; [by exists r, sp|]. apply IH in E0. eapply Forall_impl; [exact E0|]. intros j (r' & sp' & H1 & H2 & H3). cbn beta in *.
  apply lookup_insert_Some in H1 as [[Eh <-]|[_ H1]]; [|by exists r', sp']. rewrite <- Eh. exists r. cbn in H2.
  apply list_lookup_insert_Some in H2 as [(En' & <- & _)|[_ H2]]; [by rewrite Hp in H3|]. by exists sp'.
Qed.

Context (fTestNet : bool) (p : NetParams) (nNow nLimitFreeRelay : Z) (IsFromMe : CTransaction -> bool) (pow : spec_float -> spec_float -> spec_float).

(** A transaction whose inputs were checked: it spends outputs of the database
    that are not spent, or outputs of transactions of the pool, pays for its
    outputs and the minimum fee, and its signatures were verified. *)
Record funded (db : CTxDB) (d : disk) (m : CTxMemPool) (t : CTransaction) : Prop := {
  fd_inputs : exists inputs fee out, FetchInputs db d (mapTx m) ∅ false false t ∅ = Fetched inputs /\
    Tx.GetMinFee t 1000 Tx.GMF_RELAY = Some fee /\ Tx.GetValueOut t = Some out /\
    out + fee <= total_in inputs (vin t) <= MAX_MONEY /\
    (forall k i r, vin t !! k = Some i -> inputs !! prevhash (prevout i) = Some r -> Solve.VerifySignature r.2 t k 0 = Some true);
  fd_unspent : Forall (fun i => match db_tx db !! prevhash (prevout i) with
    | Some _ => Coins.unspent (coins_of (db_tx db)) (prevout i) = true
    | None => exists pt, mapTx m !! prevhash (prevout i) = Some pt /\ Z.to_nat (out_n (prevout i)) < length (vout pt)
    end%nat) (vin t);
  fd_new : forall h, Tx.GetHash t = Some h -> db_tx db !! h = None
}.

(** A view that processes information entries and is rolled back. *)
Lemma run_inputs_snapshot db d u bh k l : forall s ok s', TxInfo.InTransaction s = true ->
  Connect.run_inputs fTestNet db d u bh k l s = Some (ok, s') -> snapshot s' = snapshot s.
Proof.
  assert (forall u rs s ok s', TxInfo.InTransaction s = true -> Connect.run_records u rs s = Some (ok, s') -> snapshot s' = snapshot s) as Hr.
  { intros u'. induction rs as [|r rs IH]; intros s ok s' Hs E0; cbn in E0; [by injection E0 as <- <-|].
    unfold TxInfo.Undo, TxInfo.Process, TxInfo.in_view in E0. rewrite Hs in E0.
    assert (forall o s1, (if u' then Some (TxInfo.Undo_ s r) else TxInfo.Process_ s r) = Some (o, s1) -> snapshot s1 = snapshot s) as H1.
    { intros o s1. destruct u'; [|apply TxInfo.Process_snapshot]. unfold TxInfo.Undo_. case_bool_decide; intros [= <- <-]; done. }
    destruct (if u' then _ else _) as [[o s1]|] eqn:E1; [|done]. cbn in E0. specialize (H1 o s1 eq_refl).
    destruct o; [|by injection E0 as <- <-]. rewrite <- H1. apply (IH s1 ok s'); [|done]. unfold TxInfo.InTransaction in *. by rewrite H1. }
  induction l as [|[i x] l IH]; intros s ok s' Hs E0; cbn in E0; [by injection E0 as <- <-|].
  case_bool_decide; [by apply (IH s ok)|]. destruct (Connect.input_records _ _ _ _ _ _ _) as [rs|]; [|by injection E0 as <- <-].
  destruct (Connect.run_records u _ s) as [[o s1]|] eqn:E1; [|done]. cbn in E0. pose proof (Hr _ _ _ _ _ Hs E1) as H1.
  destruct o; [|by injection E0 as <- <-]. rewrite <- H1. apply (IH s1 ok s'); [|done]. unfold TxInfo.InTransaction in *. by rewrite H1.
Qed.

Lemma try_infos_restores db d t infos ok infos' : try_infos fTestNet db d t infos = Some (ok, infos') ->
  rows infos' = rows infos /\ seq infos' = seq infos.
Proof.
  unfold try_infos. destruct (TxInfo.BeginTransaction infos) as [v|] eqn:Eb; [|done]. cbn.
  unfold Connect.ProcessTxInfos, Connect.procUndoTxInfos. destruct (TxInfo.InTransaction v) eqn:Ev; [|done]. cbn [negb].
  destruct (Connect.run_inputs _ _ _ _ _ _ _ v) as [[o v']|] eqn:Er; [|done]. cbn.
  destruct (TxInfo.rollback_restores infos v v' Eb (run_inputs_snapshot _ _ _ _ _ _ _ _ _ Ev Er)) as (s2 & -> & H1 & H2 & _).
  cbn. by intros [= <- <-].
Qed.

Abbreviation check_inputs := (check_pool_inputs fTestNet p nNow nLimitFreeRelay IsFromMe pow).

(** Nothing but the verdict: the limiter and the store of information entries
    are as before. *)
Definition quiet (lim lim' : limiter) (infos infos' : CTxInfoStore) : Prop :=
  lim' = lim /\ rows infos' = rows infos /\ seq infos' = seq infos.

Lemma connect_pool_inputs_spec db d I t m mapInputs lim infos v lim' infos' :
  Tx.IsCoinBase t = false -> Tx.IsCoinStake t = false -> Forall (fun i => Coins.nonneg (prevout i)) (vin t) -> fetched_ok db m mapInputs ->
  connect_pool_inputs fTestNet p db d I t mapInputs lim infos = (v, lim', infos') ->
  quiet lim lim' infos infos' /\
  (forall old, v = Accepted old -> old = None /\ exists out, Tx.GetValueOut t = Some out /\
     GetValueIn t mapInputs = Some (total_in mapInputs (vin t)) /\ 0 <= total_in mapInputs (vin t) <= MAX_MONEY /\ out <= total_in mapInputs (vin t) /\
     (forall k i r, vin t !! k = Some i -> mapInputs !! prevhash (prevout i) = Some r -> Solve.VerifySignature r.2 t k 0 = Some true) /\
     Forall (fun i => match db_tx db !! prevhash (prevout i) with
       | Some _ => Coins.unspent (coins_of (db_tx db)) (prevout i) = true
       | None => exists pt, mapTx m !! prevhash (prevout i) = Some pt /\ Z.to_nat (out_n (prevout i)) < length (vout pt)
       end%nat) (vin t)).
Proof.
  intros Hcb Hcs Hn Hfo. unfold connect_pool_inputs, ConnectInputs. rewrite Hcb.
  destruct (check_values p I _ _ t mapInputs (vin t) 0) as [val| |] eqn:Ev; [|intros [= <- <- <-]; done..].
  destruct (spend_inputs t pos_mempool _ _ (vin t) 0 mapInputs ∅) as [pl| |] eqn:Es; [|intros [= <- <- <-]; done..].
  destruct (check_amounts p db d t val) as [[]| |] eqn:Ea; [|intros [= <- <- <-]; done..].
  destruct (try_infos fTestNet db d t infos) as [[[] infos1]|] eqn:Et; intros [= <- <- <-].
  2: by apply try_infos_restores in Et. 2: done.
  split; [by apply try_infos_restores in Et|]. intros old [= <-]. split; [done|].
  assert (0 <= 0 <= MAX_MONEY) as H0 by (vm_compute; split; discriminate).
  destruct (check_values_spec p I _ _ t mapInputs (vin t) 0 val Hn H0 Ev) as (-> & Hr & Hall). rewrite Z.add_0_l in *.
  destruct (check_amounts_spec p db d t _ Hr Ea) as (out & Ho & Hle & _). exists out. split; [done|]. split.
  { apply GetValueIn_sum; [done| |lia]. eapply Forall_impl; [exact Hall|]. intros i (r & o & _ & Hg & _ & Hv). by exists o. }
  split; [done|]. split; [by apply Hle|]. split; [by apply (spend_inputs_verified t pos_mempool false (vin t) 0 mapInputs ∅ pl)|].
  pose proof (spend_inputs_unspent t pos_mempool _ _ (vin t) eq_refl 0 mapInputs ∅ pl Es) as Hu.
  rewrite Forall_forall in Hall, Hu. apply Forall_forall. intros i Hi. destruct (Hall i Hi) as (r & o & Hir & Hg & _). destruct (Hu i Hi) as (r' & sp & H1 & H2 & H3).
  rewrite Hir in H1. injection H1 as <-. specialize (Hfo _ _ Hir). destruct (db_tx db !! prevhash (prevout i)) as [ti|] eqn:Edb.
  - rewrite (unspent_coins_of _ _ ti sp); [done|done|by rewrite <- Hfo].
  - exists r.2. split; [done|]. unfold GetOutputFor in Hg. rewrite Hir in Hg. cbn in Hg.
    by apply lookup_lt_Some in Hg.
Qed.

Lemma check_pool_inputs_spec db d I t m lim infos v lim' infos' :
  Tx.IsCoinBase t = false -> Tx.IsCoinStake t = false -> Forall (fun i => Coins.nonneg (prevout i)) (vin t) ->
  ContainsTx db (default 0 (Tx.GetHash t)) = false -> is_Some (Tx.GetHash t) ->
  check_inputs db d I t m lim infos = (v, lim', infos') ->
  quiet lim lim' infos infos' /\ (forall old, v = Accepted old -> old = None /\ funded db d m t).
Proof.
  intros Hcb Hcs Hn Hnew Hh. unfold check_pool_inputs.
  destruct (FetchInputs db d (mapTx m) ∅ false false t ∅) as [mi|fi] eqn:Ef; [|intros [= <- <- <-]; by destruct fi].
  destruct (AreInputsStandard t mi) as [std|]; [|intros [= <- <- <-]; done]. destruct (_ && _); [intros [= <- <- <-]; done|].
  destruct (GetValueIn t mi) as [vi|] eqn:Evi; [|intros [= <- <- <-]; done]. destruct (Tx.GetValueOut t) as [vo|] eqn:Evo; [|intros [= <- <- <-]; done].
  destruct (GetSerializeSize Tx.tx_codec t) as [sz|]; [|intros [= <- <- <-]; done].
  destruct (Tx.GetMinFee t 1000 Tx.GMF_RELAY) as [fee|] eqn:Efee; [|intros [= <- <- <-]; done].
  destruct (Z.ltb_spec (i64 (vi - vo)) fee) as [|Hfee]; [intros [= <- <- <-]; done|]. pose proof (GetMinFee_relay _ _ _ Efee) as Hmin.
  rewrite (proj2 (Z.ltb_ge _ MIN_RELAY_TX_FEE)) by lia. cbn [negb].
  intros Hc. destruct (connect_pool_inputs_spec db d I t m mi lim infos v lim' infos' Hcb Hcs Hn (FetchInputs_ok _ _ _ _ _ Ef) Hc) as (Hq & Hacc).
  split; [done|]. intros old Hv. destruct (Hacc old Hv) as (-> & out & Ho & Hvi & Hr & Hle & Hsig & Hun). split; [done|].
  rewrite Evo in Ho. injection Ho as ->. rewrite Evi in Hvi. injection Hvi as ->.
  split; [|done|].
  - exists mi, fee, out. split; [done|]. split; [done|]. split; [done|]. split; [|done]. pose proof (Connect.GetValueOut_range _ _ Evo).
    rewrite i64_small in Hfee; [lia|]. revert Hr H. change MAX_MONEY with 2000000000000000. lia.
  - destruct Hh as [h Hh]. rewrite Hh in Hnew. cbn in Hnew. intros h' [= <-]%(eq_trans (eq_sym Hh)). apply bool_decide_eq_false in Hnew. by apply eq_None_not_Some.
Qed.

(** The pool after [t] was let in: [t] is new, passes CheckTransaction, is
    neither coinbase nor coinstake, and spends nothing the pool spends. *)
Record entered (t : CTransaction) (m m' : CTxMemPool) : Prop := {
  en_checked : Tx.checked t;
  en_loose : Tx.IsCoinBase t = false /\ Tx.IsCoinStake t = false;
  en_conflict : Forall (fun i => mapNextTx m !! prevout i = None) (vin t);
  en_pool : exists h, Tx.GetHash t = Some h /\ mapTx m !! h = None /\ mapTx m' = <[h := t]> (mapTx m)
}.

Lemma accept_spec db d I fCheckInputs t m lim infos v m' lim' infos' :
  pool_ok m -> Forall (fun i => Coins.nonneg (prevout i)) (vin t) ->
  accept fTestNet p nNow nLimitFreeRelay IsFromMe pow db d I fCheckInputs t m lim infos = Some (v, m', lim', infos') ->
  pool_ok m' /\ quiet lim lim' infos infos' /\
  match v with
  | Accepted old => old = None /\ entered t m m' /\ (fCheckInputs = true -> funded db d m t)
  | _ => m' = m
  end.
Proof.
  intros Hm Hn. unfold accept, checkAccept.
  destruct (Tx.CheckTransaction t) eqn:Ec; [|intros [= <- <- <- <-]; done..]. pose proof (Tx.CheckTransaction_checked t Ec) as Hchk.
  destruct (Tx.IsCoinBase t) eqn:Ecb; [intros [= <- <- <- <-]; done|]. destruct (Tx.IsCoinStake t) eqn:Ecs; [intros [= <- <- <- <-]; done|].
  destruct (INT_MAX <? nLockTime t); [intros [= <- <- <- <-]; done|]. destruct (_ && _); [intros [= <- <- <- <-]; done|].
  destruct (Tx.GetHash t) as [h|] eqn:Eh; [|intros [= <- <- <- <-]; done]. case_bool_decide as Hk; [intros [= <- <- <- <-]; done|].
  apply eq_None_not_Some in Hk. destruct (fCheckInputs && ContainsTx db h) eqn:Edb; [intros [= <- <- <- <-]; done|].
  destruct (existsb _ (vin t)) eqn:Ex; [intros [= <- <- <- <-]; done|].
  assert (Forall (fun i => mapNextTx m !! prevout i = None) (vin t)) as Hf.
  { apply Forall_forall. intros i Hi. apply eq_None_not_Some. intros Hs. rewrite <- not_true_iff_false in Ex. destruct Ex.
    apply existsb_exists. exists i. split; [by apply list_elem_of_In|]. by apply bool_decide_eq_true. }
  destruct (if fCheckInputs then _ else _) as [[v1 lim1] infos1] eqn:Ev.
  assert (quiet lim lim1 infos infos1 /\ (forall old, v1 = Accepted old -> old = None /\ (fCheckInputs = true -> funded db d m t))) as [Hq Ha].
  { destruct fCheckInputs; [|injection Ev as <- <- <-; split; [done|]; intros old [= <-]; done].
    destruct (check_pool_inputs_spec db d I t m lim infos v1 lim1 infos1 Ecb Ecs Hn) as [Hq Ha]; [by rewrite Eh|by rewrite Eh|done|].
    split; [done|]. intros old Hv. by destruct (Ha old Hv). }
  destruct v1 as [old|dos miss|]; [|intros [= <- <- <- <-]; done..]. destruct (Ha old eq_refl) as [-> Hfund].
  destruct (addUnchecked_ok t h m Hm Eh Hk (Tx.chk_inputs t Hchk) Hf) as (m1 & E1 & Hok & Htx & _).
  cbn [mbind option_bind]. rewrite E1. cbn. intros [= <- <- <- <-]. split; [done|]. split; [done|]. split; [done|]. split; [|done].
  split; [done|done|done|]. by exists h.
Qed.

(** C6: Accepting a transaction keeps the pool consistent: [mapNextTx] holds the
    inputs of the transactions of [mapTx] and nothing else, so that no two of
    them spend the same output.  A transaction enters only if it is valid on
    its own, not yet known and in conflict with nothing in the pool; with the
    checks of the inputs it also spends unspent outputs of the database or
    outputs of the pool, pays for its outputs and the minimum fee, and its
    signatures are verified.  No transaction is ever replaced, the rate limiter
    of free transactions is never consulted, and the store of information
    entries is left as it was. *)
Theorem accept_keeps_pool db d I fCheckInputs t m lim infos v m' lim' infos' :
  pool_ok m -> Forall (fun i => Coins.nonneg (prevout i)) (vin t) ->
  accept fTestNet p nNow nLimitFreeRelay IsFromMe pow db d I fCheckInputs t m lim infos = Some (v, m', lim', infos') ->
  pool_ok m' /\ quiet lim lim' infos infos' /\
  match v with
  | Accepted old => old = None /\ entered t m m' /\ (fCheckInputs = true -> funded db d m t)
  | _ => m' = m
  end.
Proof. apply accept_spec. Qed.

End invariant.

(** ** The invariant of the orphans *)

Section orphan_invariant.
Context {B : Tx.Abi} {D : DigestLib}.

Definition at_prev (m : gmap Z (gmap Z (list Z))) (prev h : Z) : option (list Z) := inner ← m !! prev; inner !! h.

(** The message of an orphan, which waits for [prev]. *)
Definition waits_for (vMsg : list Z) (prev : Z) : Prop :=
  exists tx, parse_tx vMsg = Some tx /\ prev ∈ (fun i => prevhash (prevout i)) <$> vin tx.

Record orphans_ok (o : orphans) : Prop := {
  oo_msg : forall h v, mapOrphanTransactions o !! h = Some v ->
    Z.of_nat (length v) <= MAX_ORPHAN_SIZE /\ exists tx, parse_tx v = Some tx /\ Tx.GetHash tx = Some h;
  oo_prev : forall prev h v, at_prev (mapOrphanTransactionsByPrev o) prev h = Some v <->
    mapOrphanTransactions o !! h = Some v /\ waits_for v prev;
  oo_nonempty : forall prev inner, mapOrphanTransactionsByPrev o !! prev = Some inner -> inner <> ∅
}.

Abbreviation prevs l := ((fun i => prevhash (prevout i)) <$> l).

Lemma at_prev_default m prev h : at_prev m prev h = default ∅ (m !! prev) !! h.
Proof. unfold at_prev. destruct (m !! prev); cbn; [done|]. by rewrite lookup_empty. Qed.

Lemma at_prev_add hash v l : forall m prev h, (forall prev, at_prev m prev hash = None \/ at_prev m prev hash = Some v) ->
  at_prev (foldl (add_prev hash v) m l) prev h = if bool_decide (h = hash /\ prev ∈ prevs l) then Some v else at_prev m prev h.
Proof.
  induction l as [|i l IH]; intros m prev h Hm; [rewrite bool_decide_false; [done|]; intros [_ H]; by apply elem_of_nil in H|].
  assert (forall q x, at_prev (add_prev hash v m i) q x = if bool_decide (x = hash /\ q = prevhash (prevout i)) then Some v else at_prev m q x) as Ha.
  { intros q x. unfold add_prev. rewrite !at_prev_default. destruct (decide (q = prevhash (prevout i))) as [->|Hq].
    - rewrite lookup_insert_eq. cbn [default from_option id]. pose proof (Hm (prevhash (prevout i))) as H1. rewrite at_prev_default in H1.
      destruct (decide (x = hash)) as [->|Hx]; [rewrite bool_decide_true by done|rewrite bool_decide_false by naive_solver].
      + destruct (default ∅ _ !! hash) as [w|] eqn:Ew; [destruct H1; congruence|by rewrite lookup_insert_eq].
      + destruct (default ∅ _ !! hash); [done|]. by rewrite lookup_insert_ne.
    - rewrite lookup_insert_ne, bool_decide_false by naive_solver. done. }
  cbn [foldl]. rewrite IH.
  - rewrite Ha. repeat case_bool_decide; try done; set_solver.
  - intros q. rewrite Ha. case_bool_decide; [by right|apply Hm].
Qed.

Lemma at_prev_erase hash l : forall m prev h, at_prev (foldl (erase_prev hash) m l) prev h =
  if bool_decide (h = hash /\ prev ∈ prevs l) then None else at_prev m prev h.
Proof.
  induction l as [|i l IH]; intros m prev h; [rewrite bool_decide_false; [done|]; intros [_ H]; by apply elem_of_nil in H|].
  cbn [foldl]. rewrite IH. assert (at_prev (erase_prev hash m i) prev h = if bool_decide (h = hash /\ prev = prevhash (prevout i)) then None else at_prev m prev h) as ->.
  { unfold erase_prev. rewrite !at_prev_default. destruct (decide (prev = prevhash (prevout i))) as [->|Hq].
    - case_bool_decide as He; [rewrite lookup_delete_eq; cbn|rewrite lookup_insert_eq; cbn];
        (destruct (decide (h = hash)) as [->|Hx]; [rewrite bool_decide_true by done|rewrite bool_decide_false by naive_solver]).
      + by rewrite lookup_empty.
      + rewrite lookup_empty. symmetry. assert (delete hash (default ∅ (m !! prevhash (prevout i))) !! h = None) as H1 by (by rewrite He, lookup_empty).
        by rewrite lookup_delete_ne in H1.
      + by rewrite lookup_delete_eq.
      + by rewrite lookup_delete_ne.
    - rewrite (bool_decide_false (h = hash /\ _)) by naive_solver. case_bool_decide; [by rewrite lookup_delete_ne|by rewrite lookup_insert_ne]. }
  repeat case_bool_decide; try done; set_solver.
Qed.

Lemma add_prev_nonempty hash v l : forall m, (forall q x, m !! q = Some x -> x <> ∅) ->
  forall q x, foldl (add_prev hash v) m l !! q = Some x -> x <> ∅.
Proof.
  induction l as [|i l IH]; intros m Hm; [done|]. cbn [foldl]. apply IH. unfold add_prev at 1. intros q x [[<- <-]|[_ Hx]]%lookup_insert_Some; [|by apply (Hm q)].
  destruct (default ∅ _ !! hash) eqn:Ew; [|apply insert_non_empty]. intros He. by rewrite He, lookup_empty in Ew.
Qed.

Lemma erase_prev_nonempty hash l : forall m, (forall q x, m !! q = Some x -> x <> ∅) ->
  forall q x, foldl (erase_prev hash) m l !! q = Some x -> x <> ∅.
Proof.
  induction l as [|i l IH]; intros m Hm; [done|]. cbn [foldl]. apply IH. intros q x. unfold erase_prev. case_bool_decide as He.
  - intros [_ Hx]%lookup_delete_Some. by apply (Hm q).
  - intros [[<- <-]|[_ Hx]]%lookup_insert_Some; [done|by apply (Hm q)].
Qed.

Lemma AddOrphanTx_ok v o b o' : orphans_ok o -> AddOrphanTx v o = Some (b, o') -> orphans_ok o'.
Proof.
  intros Ho. unfold AddOrphanTx. destruct (parse_tx v) as [tx|] eqn:Ep; [|done]. cbn [mbind option_bind]. destruct (Tx.GetHash tx) as [hash|] eqn:Eh; [|done]. cbn [mbind option_bind].
  case_bool_decide as Hk; [by intros [= <- <-]|]. destruct (Z.ltb_spec MAX_ORPHAN_SIZE (Z.of_nat (length v))) as [|Hv]; [by intros [= <- <-]|].
  intros [= <- <-]. apply eq_None_not_Some in Hk. destruct Ho as [O1 O2 O3].
  assert (forall q, at_prev (mapOrphanTransactionsByPrev o) q hash = None) as Hno.
  { intros q. destruct (at_prev _ q hash) as [w|] eqn:Ew; [|done]. apply O2 in Ew as [Ew _]. by rewrite Hk in Ew. }
  split; cbn.
  - intros h w [[<- <-]|[_ Hw]]%lookup_insert_Some; [split; [done|]; by exists tx|by apply O1].
  - intros prev h w. rewrite at_prev_add by (intros; left; apply Hno). case_bool_decide as Hh.
    + destruct Hh as [-> Hp]. rewrite lookup_insert_eq. split; [intros [= <-]; split; [done|]; by exists tx|by intros [? _]].
    + rewrite O2. split; intros [H1 H2]; (split; [|done]).
      * rewrite lookup_insert_ne; [done|]. intros <-. by rewrite Hk in H1.
      * apply lookup_insert_Some in H1 as [[<- <-]|[_ H1]]; [|done]. destruct Hh. destruct H2 as (tx' & Ep' & Hp). rewrite Ep in Ep'. by injection Ep' as <-.
  - by apply add_prev_nonempty.
Qed.

Lemma EraseOrphanTx_ok hash o : orphans_ok o -> exists o', EraseOrphanTx hash o = Some o' /\ orphans_ok o' /\
  mapOrphanTransactions o' = delete hash (mapOrphanTransactions o).
Proof.
  intros [O1 O2 O3]. unfold EraseOrphanTx. destruct (mapOrphanTransactions o !! hash) as [v|] eqn:Ev.
  2:{ exists o. split; [done|]. split; [done|]. by rewrite delete_id. }
  destruct (O1 hash v Ev) as (_ & tx & Ep & _). rewrite Ep. cbn. eexists. split; [done|]. split; [|done]. split; cbn.
  - intros h w [_ Hw]%lookup_delete_Some. by apply O1.
  - intros prev h w. rewrite at_prev_erase. case_bool_decide as Hh.
    + destruct Hh as [-> Hp]. rewrite lookup_delete_eq. by split; [|intros [? _]].
    + rewrite O2. split; intros [H1 H2]; (split; [|done]).
      * rewrite lookup_delete_ne; [done|]. intros <-. destruct Hh. split; [done|]. rewrite Ev in H1. injection H1 as <-.
        destruct H2 as (tx' & Ep' & Hp). rewrite Ep in Ep'. by injection Ep' as <-.
      * by apply lookup_delete_Some in H1 as [_ H1].
  - by apply erase_prev_nonempty.
Qed.

Lemma least_elem l k : least l = Some k -> k ∈ l.
Proof.
  destruct l as [|x l]; [done|]. intros [= <-]. revert x. induction l as [|y l IH]; intros x; [by left|]. cbn [foldl].
  specialize (IH (Z.min x y)). apply elem_of_cons in IH as [->|H]; [|by apply elem_of_cons; right; apply elem_of_cons; right]. destruct (Z.min_spec x y) as [[_ ->]|[_ ->]]; [by left|right; by left].
Qed.

Lemma pick_elem h m : m <> ∅ -> exists k v, pick h m = Some k /\ m !! k = Some v.
Proof.
  intros Hm. assert (forall k, k ∈ (map_to_list m).*1 -> exists v, m !! k = Some v) as Hin.
  { intros k ([k' v] & -> & H)%list_elem_of_fmap. exists v. by apply elem_of_map_to_list in H. }
  unfold pick. destruct (least (List.filter _ _)) as [k|] eqn:Ef.
  - apply least_elem in Ef. rewrite list_elem_of_In in Ef. apply filter_In in Ef as [Ef _]. rewrite <- list_elem_of_In in Ef.
    destruct (Hin k Ef) as [v Hv]. by exists k, v.
  - destruct (least ((map_to_list m).*1)) as [k|] eqn:Ek; [destruct (Hin k (least_elem _ _ Ek)) as [v Hv]; by exists k, v|].
    destruct (map_to_list m) as [|[k v] l] eqn:El; [|done]. destruct Hm. by apply map_to_list_empty_iff.
Qed.

Lemma limit_loop_spec n rnd : 0 <= n -> forall fuel k o, orphans_ok o -> (size (mapOrphanTransactions o) <= fuel)%nat ->
  exists e o', limit_loop fuel n rnd k o = Some ((k + e)%nat, o') /\ orphans_ok o' /\ mapOrphanTransactions o' ⊆ mapOrphanTransactions o /\
    (size (mapOrphanTransactions o') + e = size (mapOrphanTransactions o))%nat /\
    Z.of_nat (size (mapOrphanTransactions o')) = Z.min n (Z.of_nat (size (mapOrphanTransactions o))).
Proof.
  intros Hn. induction fuel as [|fuel IH]; intros k o Ho Hf; cbn [limit_loop];
    (destruct (Z.leb_spec (Z.of_nat (size (mapOrphanTransactions o))) n) as [Hle|Hgt];
      [exists 0%nat, o; rewrite Nat.add_0_r; split; [done|]; split; [done|]; split; [done|]; split; lia|]).
  { lia. }
  destruct (pick_elem (rnd k) (mapOrphanTransactions o)) as (h & v & -> & Hv).
  { intros He. rewrite He, map_size_empty in Hgt. lia. }
  cbn. destruct (EraseOrphanTx_ok h o Ho) as (o1 & -> & Ho1 & E1). cbn.
  assert (size (mapOrphanTransactions o1) = pred (size (mapOrphanTransactions o))) as Hsz by (rewrite E1; by apply map_size_delete_Some).
  assert (size (mapOrphanTransactions o) <> 0)%nat as Hnz by lia.
  destruct (IH (S k) o1 Ho1) as (e & o' & -> & H1 & H2 & H3 & H4); [lia|]. exists (S e), o'. rewrite Nat.add_succ_r.
  split; [done|]. split; [done|]. split; [rewrite H2, E1; apply delete_subseteq|]. split; lia.
Qed.

(** The orphan transactions: an orphan is found under the hash of every
    transaction it waits for and under no other, no entry is left behind, and
    none is larger than 5000 bytes; adding and erasing keep this.  Limiting
    the number of orphans always ends, evicts no more than needed, and leaves
    the smaller of the limit and their number. *)
Theorem orphans_bounded o v hash nMaxOrphans rnd :
  orphans_ok o -> 0 <= nMaxOrphans ->
  (forall b o', AddOrphanTx v o = Some (b, o') -> orphans_ok o') /\
  (exists o', EraseOrphanTx hash o = Some o' /\ orphans_ok o' /\ mapOrphanTransactions o' = delete hash (mapOrphanTransactions o)) /\
  exists e o', LimitOrphanTxSize nMaxOrphans rnd o = Some (e, o') /\ orphans_ok o' /\ mapOrphanTransactions o' ⊆ mapOrphanTransactions o /\
    (size (mapOrphanTransactions o') + e = size (mapOrphanTransactions o))%nat /\
    Z.of_nat (size (mapOrphanTransactions o')) = Z.min nMaxOrphans (Z.of_nat (size (mapOrphanTransactions o))).
Proof.
  intros Ho Hn. split; [intros b o'; by apply AddOrphanTx_ok|]. split; [by apply EraseOrphanTx_ok|]. by apply limit_loop_spec.
Qed.

End orphan_invariant.

(** ** Witnesses *)

Section witnesses.
#[local] Existing Instance bn_reference.
#[local] Existing Instance toy_digests.
#[local] Existing Instance Tx.demo_abi.
#[local] Existing Instance Sig.demo_ec.

Definition demo_pool : CTxMemPool := mk_mempool ∅ ∅ 0.
Definition demo_limiter : limiter := mk_limiter (Work.dbl 0) 0.
Definition demo_accept := accept true demo_net 1000 15 (fun _ => false) (fun x _ => x) demo_db demo_disk demo_chain true (demo_spender 0 (3 * COIN))
  demo_pool demo_limiter (mk_store [] 0 None 0).

Lemma accept_keeps_pool_witness :
  exists m' lim' infos', demo_accept = Some (Accepted None, m', lim', infos') /\ pool_ok m' /\ size (mapTx m') = 1%nat.
Proof.
  unfold demo_accept. destruct (accept _ _ _ _ _ _ _ _ _ _ _ _ _ _) as [[[[v m'] lim'] infos']|] eqn:Ea.
  2:{ vm_compute in Ea. discriminate. }
  assert (v = Accepted None /\ size (mapTx m') = 1%nat) as [-> Hs].
  { revert Ea. vm_compute. intros [= <- <- _ _]. split; reflexivity. }
  exists m', lim', infos'. split; [reflexivity|].
  assert (Forall (fun i => Coins.nonneg (prevout i)) (vin (demo_spender 0 (3 * COIN)))) as Hn by (repeat constructor; vm_compute; discriminate).
  split; [|exact Hs].
  apply (accept_keeps_pool true demo_net 1000 15 (fun _ => false) (fun x _ => x) demo_db demo_disk demo_chain true (demo_spender 0 (3 * COIN))
    demo_pool demo_limiter (mk_store [] 0 None 0) (Accepted None) m' lim' infos' (empty_pool_ok 0) Hn Ea).
Defined.

Definition no_orphans : orphans := mk_orphans ∅ ∅.

Lemma no_orphans_ok : orphans_ok no_orphans.
Proof.
  split; cbn.
  - intros h v H. by rewrite lookup_empty in H.
  - intros q h v. unfold at_prev. rewrite !lookup_empty. cbn. by split; [|intros [? _]].
  - intros q x H. by rewrite lookup_empty in H.
Qed.

Definition demo_msg : list Z := default [] (Serialize Tx.tx_codec (demo_spender 0 (3 * COIN))).

Lemma orphans_bounded_witness :
  exists o1 o2, AddOrphanTx demo_msg no_orphans = Some (true, o1) /\ orphans_ok o1 /\
    LimitOrphanTxSize 0 (fun _ => 5) o1 = Some (1%nat, o2) /\ mapOrphanTransactions o2 = ∅.
Proof.
  destruct (AddOrphanTx demo_msg no_orphans) as [[b o1]|] eqn:Ea.
  2:{ vm_compute in Ea. discriminate. }
  assert (b = true /\ size (mapOrphanTransactions o1) = 1%nat) as [-> Hs] by (revert Ea; vm_compute; intros [= <- <-]; split; reflexivity).
  assert (0 <= 0) as H0 by lia.
  pose proof (proj1 (orphans_bounded no_orphans demo_msg 3 0 (fun _ => 5) no_orphans_ok H0) true o1 Ea) as Hok.
  destruct (orphans_bounded o1 [] 3 0 (fun _ => 5) Hok H0) as (_ & _ & e & o2 & H1 & _ & _ & H2 & H3).
  rewrite Hs in H2, H3. assert (size (mapOrphanTransactions o2) = 0%nat) as Hz by lia. exists o1, o2.
  split; [reflexivity|]. split; [exact Hok|]. replace 1%nat with e by lia. split; [exact H1|]. apply map_size_empty_iff. exact Hz.
Defined.

End witnesses.

End Mempool.
