(* ===== verification/Spend.v ===== *)
(** * Creating transactions (src/src/wallet.cpp)

    CWallet::CreateTransaction with its rounds (the fee is raised until it is
    enough), and CWalletTx::AddSupportingTransactions.
    A result carries everything the call changes: the transaction, the reserved
    key, the fee and the wallet.  [rs k] are the random numbers of the coin
    selection in round [k] and [place k n] the position drawn by GetRandInt(n)
    for the change.  [None] is an exception or a failed assertion. *)

From stdpp Require Import gmap sorting.
From S2P Require Import Prelude Containers Uint256 Bignum Crypto Script Interpreter Serialize Tx TxInfo Base58 Signature Key Solver KeyStore Work Block BlockIndex Kernel Coins Ledger MerkleTx Wallet KeyPool WalletOps WalletCache CoinSelect ConnectBlock Mempool.
Import BlockIndex Ledger MerkleTx KeyStores Wallet WalletOps WalletCache CoinSelect.

(** What CreateTransaction works on. *)
Record spending := mk_spending { sp_tx : CTransaction; sp_reserve : CReserveKey; sp_fee : Z; sp_wallet : CWallet }.

(** The inputs that carry information entries: the transaction, the
    transactions they spend, what is left of the fee, and the wallet. *)
Record info_state := mk_infos { is_tx : CTransaction; is_from : list CTransaction; is_feeLeft : Z; is_wallet : CWallet }.

Module Spend.

(** [CTxIn(hash, n)] and [CTxOut(nValue, script)] *)
Definition new_in (h : Z) (n : Z) : CTxIn := mk_txin (mk_outpoint h n) [] Tx.UINT_MAX [].
Definition new_out (v : Z) (script : list Z) : CTxOut := mk_txout [] v script.

Definition push_in (i : CTxIn) (t : CTransaction) : CTransaction := Sig.set_vin t (vin t ++ [i]).
Definition push_out (o : CTxOut) (t : CTransaction) : CTransaction := Sig.set_vout t (vout t ++ [o]).

(** [scriptPubKey.SetBitcoinAddress(addr)] *)
Definition address_script (fTestNet : bool) (a : Base58.CBase58Data) : option (list Z) :=
  h ← Base58.GetHash160 a; Some (Script.SetBitcoinAddress (Base58.IsScript fTestNet a) h).

Section spend.
Context {B : Tx.Abi} {L : BNLib} {D : DigestLib} {E : ECLib} {G : ECGroup E} {V : EVPLib} (fTestNet : bool) (p : NetParams).
Context (I : index) (nCoinbaseMaturity nBestHeight nNow : Z) (fuel : nat) (node : Z -> Z).
Context (draw : nat -> Z) (nKeysArg nTransactionFee : Z).
Context (db : CTxDB) (d : disk).

(** ** Inputs with information entries *)

Definition info_usable (x : CWalletTx) : option (bool * CWalletTx) :=
  if negb (IsFinal nBestHeight nNow (tx_of x)) then Some (false, x)
  else
    '(nDepth, m) ← GetDepthInMainChain I (wtx x);
    let x := with_wtx m x in
    if nDepth <? 1 then Some (false, x)
    else
      '(n, m) ← GetBlocksToMaturity nCoinbaseMaturity I (wtx x);
      Some (negb (0 <? n), with_wtx m x).

(** The first output of [x] that pays to [a] and can be spent at [nTimeNew]. *)
Fixpoint find_info_out (w : CWallet) (nTimeNew : Z) (a : Base58.CBase58Data) (x : CWalletTx) (i : nat) (outs : list CTxOut)
    : option (option (nat * CTxOut)) :=
  match outs with
  | [] => Some None
  | o :: outs =>
      spent ← IsSpent x (Z.of_nat i);
      if spent || negb (IsMine_out fTestNet w o) then find_info_out w nTimeNew a x (S i) outs
      else if nTimeNew <? nTime (tx_of x) then find_info_out w nTimeNew a x (S i) outs
      else
        match Solve.ExtractAddress fTestNet (scriptPubKey o) with
        | None => find_info_out w nTimeNew a x (S i) outs
        | Some addr => if bool_decide (addr = a) then Some (Some (i, o)) else find_info_out w nTimeNew a x (S i) outs
        end
  end.

Fixpoint find_info (nTimeNew : Z) (a : Base58.CBase58Data) (l : list Z) (w : CWallet) : option (option (Z * nat * CTxOut) * CWallet) :=
  match l with
  | [] => Some (None, w)
  | h :: l =>
      x ← mapWallet w !! h;
      '(ok, x) ← info_usable x;
      let w := set_mapWallet (<[h := x]> (mapWallet w)) w in
      if negb ok then find_info nTimeNew a l w
      else
        r ← find_info_out w nTimeNew a x 0 (vout (tx_of x));
        match r with
        | Some (i, o) => Some (Some (h, i, o), w)
        | None => find_info nTimeNew a l w
        end
  end.

(** What goes back to the address, and what is left of the fee. *)
Definition send_back (v nFeeLeft : Z) : Z * Z :=
  if nFeeLeft <=? v then (i64 (v - nFeeLeft), 0) else if 0 <? v then (0, i64 (nFeeLeft - v)) else (v, nFeeLeft).

(** The loop over vecTxInfos; [false] is the early return. *)
Fixpoint add_infos (l : list (Base58.CBase58Data * list CTxInfo)) (s : info_state) : option (bool * info_state) :=
  match l with
  | [] => Some (true, s)
  | (a, infos) :: l =>
      if negb (HaveKey (store (is_wallet s)) a) then Some (false, s)
      else
        '(r, w) ← find_info (nTime (is_tx s)) a (wallet_keys (is_wallet s)) (is_wallet s);
        match r with
        | None => Some (false, mk_infos (is_tx s) (is_from s) (is_feeLeft s) w)
        | Some (h, i, o) =>
            x ← mapWallet w !! h;
            let t := push_in (mk_txin (mk_outpoint h (Z.of_nat i)) [] Tx.UINT_MAX infos) (is_tx s) in
            let '(sendBack, nFeeLeft) := send_back (nValue o) (is_feeLeft s) in
            t ← (if 0 <? sendBack then script ← address_script fTestNet a; Some (push_out (new_out sendBack script) t) else Some t);
            add_infos l (mk_infos t (is_from s ++ [tx_of x]) nFeeLeft w)
        end
  end.

(** [BOOST_FOREACH(ptx, ...) if (!SignSignature(.., ptx, wtxNew, nIn++)) return false;] *)
Fixpoint sign_all (s : keystore) (froms : list CTransaction) (nIn : nat) (t : CTransaction) : option (bool * CTransaction) :=
  match froms with
  | [] => Some (true, t)
  | from :: froms =>
      '(ok, t) ← Solve.SignSignature fTestNet s from t nIn Sig.SIGHASH_ALL;
      if negb ok then Some (false, t) else sign_all s froms (S nIn) t
  end.

(** ** One round *)

Context (vecSend : list (list Z * Z)) (vecTxInfos : list (Base58.CBase58Data * list CTxInfo)).
Context (rs : nat -> nat -> (nat -> Z -> Z) * (nat -> nat -> bool)) (place : nat -> Z -> Z).

(** Sub-cent change is moved to a fee below the minimum. *)
Definition move_to_fee (nFeeRet nChange : Z) : Z :=
  if (nFeeRet <? MIN_TX_FEE) && (0 <? nChange) && (nChange <? CENT) then Z.min nChange (i64 (MIN_TX_FEE - nFeeRet)) else 0.

(** The change, in an output at a random position with a key of the pool. *)
Definition add_change (k : nat) (nChange : Z) (s : spending) : option spending :=
  if 0 <? nChange then
    '(vchPubKey, r, w) ← KeyPool.GetReservedKey fTestNet draw nKeysArg nNow (sp_reserve s) (sp_wallet s);
    let script := Script.SetBitcoinAddress false (Hash160 vchPubKey) in
    let pos := Z.to_nat (place k (Z.of_nat (length (vout (sp_tx s))))) in
    let outs := take pos (vout (sp_tx s)) ++ new_out nChange script :: drop pos (vout (sp_tx s)) in
    Some (mk_spending (Sig.set_vout (sp_tx s) outs) r (sp_fee s) w)
  else
    let '(r, w) := KeyPool.reserve_ReturnKey (sp_reserve s) (sp_wallet s) in
    Some (mk_spending (sp_tx s) r (sp_fee s) w).

(** The coins as inputs, with the transactions they come from. *)
Fixpoint coin_inputs (w : CWallet) (coins : list coin) : option (list CTxIn * list CTransaction) :=
  match coins with
  | [] => Some ([], [])
  | (h, n) :: coins =>
      x ← mapWallet w !! h;
      hash ← Tx.GetHash (tx_of x);
      '(ins, froms) ← coin_inputs w coins;
      Some (new_in hash (Z.of_nat n) :: ins, tx_of x :: froms)
  end.

(** The end of a round: signatures, size and fee.  [Some b]: CreateTransaction
    returns [b]; [None]: another round with a higher fee. *)
Definition finish_round (coins : list coin) (nIn : nat) (s : spending) : option (option bool * spending) :=
  '(ins, froms) ← coin_inputs (sp_wallet s) coins;
  let t := Sig.set_vin (sp_tx s) (vin (sp_tx s) ++ ins) in
  '(ok, t) ← sign_all (store (sp_wallet s)) froms nIn t;
  let s := mk_spending t (sp_reserve s) (sp_fee s) (sp_wallet s) in
  if negb ok then Some (Some false, s)
  else
    nBytes ← GetSerializeSize Tx.tx_codec t;
    if MAX_BLOCK_SIZE_GEN / 5 <=? nBytes then Some (Some false, s)
    else
      let nPayFee := i64 (nTransactionFee * (1 + nBytes / 1000)) in
      nMinFee ← Tx.GetMinFee t 1 Tx.GMF_SEND;
      if sp_fee s <? Z.max nPayFee nMinFee then Some (None, mk_spending t (sp_reserve s) (Z.max nPayFee nMinFee) (sp_wallet s))
      else Some (Some true, s).

Definition create_round (k : nat) (nValue : Z) (s : spending) : option (option bool * spending) :=
  let t := Sig.set_vout (Sig.set_vin (sp_tx s) []) [] in
  '(ok, f) ← add_infos vecTxInfos (mk_infos t [] (sp_fee s) (sp_wallet s));
  if negb ok then Some (Some false, mk_spending (is_tx f) (sp_reserve s) (sp_fee s) (is_wallet f))
  else
    '(ok, t) ← sign_all (store (is_wallet f)) (is_from f) 0 (is_tx f);
    let s := mk_spending t (sp_reserve s) (sp_fee s) (is_wallet f) in
    if negb ok then Some (Some false, s)
    else
      let t := foldl (fun t send => push_out (new_out send.2 send.1) t) t vecSend in
      let nFeeLeft := is_feeLeft f in
      let nTotalValue := i64 (nValue + nFeeLeft) in
      '(ok, coins, nValueIn, w) ←
        (if 0 <? nTotalValue then SelectCoins fTestNet I nCoinbaseMaturity nBestHeight nNow fuel node nTotalValue (nTime t) (rs k) (sp_wallet s)
         else Some (true, [], 0, sp_wallet s));
      let s := mk_spending t (sp_reserve s) (sp_fee s) w in
      if negb ok then Some (Some false, s)
      else
        let nChange := i64 (i64 (nValueIn - nValue) - nFeeLeft) in
        let nMoveToFee := move_to_fee (sp_fee s) nChange in
        s ← add_change k (i64 (nChange - nMoveToFee)) (mk_spending t (sp_reserve s) (i64 (sp_fee s + nMoveToFee)) w);
        finish_round coins (length (is_from f)) s.

(** The loop; the outer [None]: out of fuel. *)
Fixpoint create_loop (n : nat) (k : nat) (nValue : Z) (s : spending) : option (option (bool * spending)) :=
  match n with
  | O => None
  | S n =>
      match create_round k nValue s with
      | None => Some None
      | Some (Some b, s) => Some (Some (b, s))
      | Some (None, s) => create_loop n (S k) nValue s
      end
  end.

(** nValue, or the early return. *)
Fixpoint sum_sends (l : list (list Z * Z)) (nValue : Z) : option Z :=
  match l with
  | [] => if MoneyRange nValue then Some nValue else None
  | s :: l => if MoneyRange s.2 then sum_sends l (i64 (nValue + s.2)) else None
  end.

(** ** AddSupportingTransactions *)

Definition COPY_DEPTH : Z := 3.

(** [mapWalletPrev[txWalletPrev.GetHash()] = &txWalletPrev] over the vtxPrev of an entry. *)
Definition note_prevs (x : CWalletTx) (prevs : gmap Z CMerkleTx) : option (gmap Z CMerkleTx) :=
  foldl (fun acc m => prevs ← acc; h ← Tx.GetHash (mt_tx m); Some (<[h := m]> prevs)) (Some prevs) (vtxPrev x).

(** Where the transaction with the hash is found: the wallet, the supporting
    transactions seen, or the disk. *)
Definition find_support (w : CWallet) (prevs : gmap Z CMerkleTx) (hash : Z) : option (option CMerkleTx * gmap Z CMerkleTx) :=
  match mapWallet w !! hash with
  | Some x => prevs ← note_prevs x prevs; Some (Some (wtx x), prevs)
  | None =>
      match prevs !! hash with
      | Some m => Some (Some m, prevs)
      | None => Some ((fun r => of_tx r.1) <$> ReadDiskTx db d hash, prevs)
      end
  end.

(** The work queue; the outer [None]: out of fuel. *)
Fixpoint support_loop (n : nat) (w : CWallet) (queue : list Z) (done : gset Z) (prevs : gmap Z CMerkleTx) (acc : list CMerkleTx)
    : option (option (list CMerkleTx)) :=
  match queue with
  | [] => Some (Some acc)
  | hash :: queue =>
      match n with
      | O => None
      | S n =>
          if bool_decide (hash ∈ done) then support_loop n w queue done prevs acc
          else
            match find_support w prevs hash with
            | None => Some None
            | Some (None, prevs) => support_loop n w queue ({[ hash ]} ∪ done) prevs acc
            | Some (Some m, prevs) =>
                match SetMerkleBranch p db d I None m with
                | None => Some None
                | Some (nDepth, m) =>
                    support_loop n w (if nDepth <? COPY_DEPTH then queue ++ ((fun i => prevhash (prevout i)) <$> vin (mt_tx m)) else queue)
                      ({[ hash ]} ∪ done) prevs (acc ++ [m])
                end
            end
      end
  end.

Definition AddSupportingTransactions (n : nat) (w : CWallet) (x : CWalletTx) : option CWalletTx :=
  '(depth, m) ← SetMerkleBranch p db d I None (wtx x);
  let x := with_wtx m x in
  if depth <? COPY_DEPTH then
    l ← default None (support_loop n w ((fun i => prevhash (prevout i)) <$> vin (tx_of x)) ∅ ∅ []);
    Some (with_prevs (reverse l) x)
  else Some (with_prevs [] x).

(** ** CreateTransaction *)

Definition with_tx (t : CTransaction) (x : CWalletTx) : CWalletTx :=
  with_wtx (mk_mtx t (hashBlock (wtx x)) (vMerkleBranch (wtx x)) (nIndex (wtx x)) (fMerkleVerified (wtx x))) x.

Definition with_txtime (f : bool) (x : CWalletTx) : CWalletTx :=
  mk_wtx (wtx x) (vtxPrev x) (mapValue x) (vOrderForm x) f (nTimeReceived x) (fFromMe x) (strFromAccount x)
    (vfSpent x) (debitCached x) (creditCached x) (availableCached x) (changeCached x).

(** Success, wtxNew, the reserved key, nFeeRet and the wallet.  [rounds] bounds
    the rounds and [n] the work queue of AddSupportingTransactions. *)
Definition CreateTransaction (rounds n : nat) (wtxNew : CWalletTx) (reservekey : CReserveKey) (nFeeRet : Z) (w : CWallet)
    : option (bool * CWalletTx * CReserveKey * Z * CWallet) :=
  match sum_sends vecSend 0 with
  | None => Some (false, wtxNew, reservekey, nFeeRet, w)
  | Some nValue =>
      if bool_decide (vecSend = []) && bool_decide (vecTxInfos = []) then Some (false, wtxNew, reservekey, nFeeRet, w)
      else
        let x := with_fromMe true (BindWallet wtxNew) in
        '(ok, s) ← default None (create_loop rounds 0 nValue (mk_spending (tx_of x) reservekey nTransactionFee w));
        let x := with_tx (sp_tx s) x in
        if negb ok then Some (false, x, sp_reserve s, sp_fee s, sp_wallet s)
        else
          x ← AddSupportingTransactions n (sp_wallet s) x;
          Some (true, with_txtime true x, sp_reserve s, sp_fee s, sp_wallet s)
  end.

End spend.
(** ** Signatures survive the signing of other inputs *)

Section eval_ext.
Context {L : BNLib} {D : DigestLib} (CS CS' : list Z -> list Z -> list Z -> bool).
Hypothesis same_check : forall a b c, CS a b c = CS' a b c.

Lemma multisig_loop_ext sc : forall keys sigs, Interp.multisig_loop CS sc sigs keys = Interp.multisig_loop CS' sc sigs keys.
Proof.
  induction keys as [|k keys IH]; intros [|s sigs]; cbn [Interp.multisig_loop]; try done. rewrite same_check. destruct (CS' s k sc); by rewrite IH.
Qed.

Lemma switch_ext op f s : Interp.switch CS op f s = Interp.switch CS' op f s.
Proof.
  assert (forall o pb st, Interp.op_checksig CS o pb st = Interp.op_checksig CS' o pb st) as H1.
  { intros o pb [|a [|b st]]; try done. cbn [Interp.op_checksig]. by rewrite same_check. }
  assert (forall o s, Interp.op_checkmultisig CS o s = Interp.op_checkmultisig CS' o s) as H2.
  { intros o s'. unfold Interp.op_checkmultisig. destruct (Interp.stacktop _ _) as [top|]; [|done]. cbn [mbind option_bind].
    destruct (Interp.CastToBigNum top) as [bn|]; [|done]. cbn [mbind option_bind]. destruct (_ || _); [done|]. cbv zeta. destruct (_ <? _); [done|].
    destruct (bool_decide _); [done|]. destruct (Interp.stacktop _ _) as [vm|]; [|done]. cbn [mbind option_bind].
    destruct (Interp.CastToBigNum vm) as [bm|]; [|done]. cbn [mbind option_bind]. by rewrite multisig_loop_ext. }
  unfold Interp.switch. rewrite H2. unfold Interp.lift_stack. by rewrite H1.
Qed.

Lemma EvalScript_ext st sc : Interp.EvalScript CS st sc = Interp.EvalScript CS' st sc.
Proof.
  assert (forall n s, Interp.run CS n s = Interp.run CS' n s) as Hr.
  { induction n as [|n IH]; intros s; cbn [Interp.run]; [done|]. destruct (Interp.pc s); [done|].
    assert (Interp.step CS s = Interp.step CS' s) as -> by (unfold Interp.step; by rewrite switch_ext).
    destruct (Interp.step CS' s); [apply IH|done]. }
  unfold Interp.EvalScript, Interp.EvalScript_fuel. by rewrite Hr.
Qed.

Lemma VerifyScript_ext ss sp : Solve.VerifyScript CS ss sp = Solve.VerifyScript CS' ss sp.
Proof.
  unfold Solve.VerifyScript. rewrite EvalScript_ext. destruct (Interp.EvalScript CS' [] ss) as [st|]; [|done].
  rewrite EvalScript_ext. destruct (Interp.EvalScript CS' st sp) as [[|top r]|]; [done| |done]. destruct (negb _); [done|].
  destruct (Script.IsPayToScriptHash sp); [|done]. destruct (negb _); [done|]. destruct st as [|k st']; [done|]. by rewrite EvalScript_ext.
Qed.

End eval_ext.

(** A transaction without the scripts of its inputs. *)
Definition unsigned_in (i : CTxIn) : CTxIn := Sig.set_scriptSig i [].
Definition unsigned (t : CTransaction) : CTransaction := Sig.set_vin t (unsigned_in <$> vin t).

Section signing.
Context {B : Tx.Abi} {L : BNLib} {D : DigestLib} {E : ECLib} {G : ECGroup E} {V : EVPLib} (fTestNet : bool).

Lemma committed_unsigned ht n l : Sig.committed_inputs ht n (unsigned_in <$> l) = Sig.committed_inputs ht n l.
Proof.
  unfold Sig.committed_inputs. assert (imap (Sig.committed_input ht n) (unsigned_in <$> l) = imap (Sig.committed_input ht n) l) as ->; [|done].
  rewrite imap_fmap. by apply imap_ext.
Qed.

Lemma SignatureHash_unsigned sc t n ht : Sig.SignatureHash sc (unsigned t) n ht = Sig.SignatureHash sc t n ht.
Proof.
  unfold Sig.SignatureHash. destruct (decide (n < length (vin t))%nat) as [Hn|Hn].
  - rewrite !Sig.sighash_tx_commitment by (try done; cbn; by rewrite length_fmap). cbn [unsigned Sig.set_vin vin vout nVersion nTime nLockTime mint].
    by rewrite committed_unsigned.
  - unfold Sig.sighash_tx. rewrite !bool_decide_true; [done|lia|cbn; rewrite length_fmap; lia].
Qed.

Lemma check_for_same t t' n ht a b c : unsigned t = unsigned t' -> Solve.check_for t n ht a b c = Solve.check_for t' n ht a b c.
Proof.
  intros He. unfold Solve.check_for, Sig.CheckSig_uncached. destruct (rev a) as [|back front]; [done|].
  rewrite <- (SignatureHash_unsigned c t), He, SignatureHash_unsigned. done.
Qed.

Lemma VerifySignature_same from t t' n : unsigned t = unsigned t' -> vin t !! n = vin t' !! n ->
  Solve.VerifySignature from t n 0 = Solve.VerifySignature from t' n 0.
Proof.
  intros He Hi. unfold Solve.VerifySignature. rewrite Hi. destruct (vin t' !! n) as [i|]; cbn [mbind option_bind]; [|reflexivity].
  destruct (vout from !! _) as [o|]; [|reflexivity]. destruct (Tx.GetHash from) as [h|]; cbn [mbind option_bind]; [|reflexivity].
  destruct (negb _); [reflexivity|]. apply VerifyScript_ext. intros a b c. by apply check_for_same.
Qed.

Lemma set_sig_same t n i s : vin t !! n = Some i ->
  unsigned (Sig.set_vin t (<[n := Sig.set_scriptSig i s]> (vin t))) = unsigned t.
Proof.
  intros Hi. unfold unsigned, Sig.set_vin. cbn. f_equal. rewrite list_fmap_insert. apply list_insert_id. by rewrite list_lookup_fmap, Hi.
Qed.

Lemma SignSignature_ok s from t n ht t' : Solve.SignSignature fTestNet s from t n ht = Some (true, t') ->
  unsigned t' = unsigned t /\ (forall j, j <> n -> vin t' !! j = vin t !! j) /\ Solve.VerifySignature from t' n 0 = Some true.
Proof.
  unfold Solve.SignSignature. destruct (vin t !! n) as [i|] eqn:Hi; cbn [mbind option_bind]; [|discriminate].
  destruct (vout from !! _) as [o|] eqn:Ho; cbn [mbind option_bind]; [|discriminate].
  destruct (Tx.GetHash from) as [h|] eqn:Hh; cbn [mbind option_bind]; [|discriminate].
  destruct (negb (_ =? h)) eqn:Hph; [discriminate|]. destruct (Sig.SignatureHash _ t n ht) as [hash|]; cbn [mbind option_bind]; [|discriminate].
  destruct (Solve.Solver_sign _ _ _ hash ht) as [[ok ss] ty]. destruct ok; cbn [negb]; [|discriminate].
  match goal with |- ((if ?b then ?x else ?y) ≫= _) = _ -> _ => destruct (if b then x else y) as [[ok3 ss3]|] end; cbn [mbind option_bind]; [|discriminate].
  destruct ok3; cbn [negb]; [|discriminate].
  set (t2 := Sig.set_vin t (<[n := Sig.set_scriptSig i ss3]> (vin t))).
  destruct (Solve.VerifyScript _ ss3 _) as [b|] eqn:Hv; cbn [mbind option_bind]; [|discriminate]. intros [= -> <-].
  split; [by apply set_sig_same|]. split; [intros j Hj; cbn; by rewrite list_lookup_insert_ne|].
  unfold Solve.VerifySignature. assert (vin t2 !! n = Some (Sig.set_scriptSig i ss3)) as ->.
  { cbn. apply list_lookup_insert_eq. by eapply lookup_lt_Some. }
  cbn [mbind option_bind Sig.set_scriptSig prevout scriptSig]. rewrite Ho, Hh. cbn [mbind option_bind]. by rewrite Hph.
Qed.

Lemma sign_all_ok s froms : forall n t t', sign_all fTestNet s froms n t = Some (true, t') ->
  unsigned t' = unsigned t /\ (forall j, (j < n)%nat -> vin t' !! j = vin t !! j) /\
  (forall k from, froms !! k = Some from -> Solve.VerifySignature from t' (n + k) 0 = Some true).
Proof.
  induction froms as [|from froms IH]; intros n t t'; cbn [sign_all]; [by intros [= <-]|].
  destruct (Solve.SignSignature _ _ from t n _) as [[ok t1]|] eqn:Hs; [|done]. cbn [mbind option_bind]. destruct ok; cbn [negb]; [|done].
  apply SignSignature_ok in Hs as (Hu & Hj & Hv). intros Ha. destruct (IH _ _ _ Ha) as (Hu' & Hj' & Hv').
  split; [congruence|]. split; [intros j Hjn; rewrite Hj', Hj by lia; done|].
  intros [|k] from' Hk; [injection Hk as <-; rewrite Nat.add_0_r|].
  - rewrite (VerifySignature_same from t' t1); [done|done|]. apply Hj'. lia.
  - replace (n + S k)%nat with (S n + k)%nat by lia. by apply Hv'.
Qed.

End signing.

(** ** What goes in and what comes out *)

Definition in_value (w : CWallet) (i : CTxIn) : Z := coin_value w (prevhash (prevout i), Z.to_nat (out_n (prevout i))).
Definition total_in (w : CWallet) (t : CTransaction) : Z := sumZ (in_value w <$> vin t).
Definition total_out (t : CTransaction) : Z := sumZ (nValue <$> vout t).

(** The amounts in the wallet are valid. *)
Definition amounts_valid (w : CWallet) : Prop :=
  (forall h x o, mapWallet w !! h = Some x -> o ∈ vout (tx_of x) -> 0 <= nValue o) /\ wallet_total w <= MAX_TOTAL.

Lemma total_in_same w u t : same_entries u w -> total_in u t = total_in w t.
Proof. intros He. unfold total_in. f_equal. apply list_fmap_ext. intros _ i _. by apply coin_value_same. Qed.

Lemma total_in_unsigned w t t' : unsigned t = unsigned t' -> total_in w t = total_in w t'.
Proof.
  assert (forall t, total_in w t = total_in w (unsigned t)) as Hu; [|intros He; by rewrite Hu, He, <- Hu].
  intros u. unfold total_in. cbn. by rewrite <- list_fmap_compose.
Qed.

Lemma unsigned_vout t t' : unsigned t = unsigned t' -> vout t = vout t'.
Proof. intros He. exact (f_equal vout He). Qed.

Lemma total_in_push w i t : total_in w (push_in i t) = total_in w t + in_value w i.
Proof. unfold total_in, push_in. cbn. rewrite fmap_app, sumZ_app. cbn. lia. Qed.

Lemma total_out_push o t : total_out (push_out o t) = total_out t + nValue o.
Proof. unfold total_out, push_out. cbn. rewrite fmap_app, sumZ_app. cbn. lia. Qed.

Lemma sumZ_elem l v : Forall (fun x => 0 <= x) l -> v ∈ l -> v <= sumZ l.
Proof.
  induction 1 as [|a l Ha Hl IH]; intros Hv; [by apply elem_of_nil in Hv|]. pose proof (sumZ_nonneg l Hl). cbn. fold (sumZ l).
  apply elem_of_cons in Hv as [->|Hv]; [lia|]. specialize (IH Hv). lia.
Qed.

Lemma out_le_total w h x o : mapWallet w !! h = Some x -> o ∈ vout (tx_of x) -> nValue o <= wallet_total w.
Proof.
  intros Hx Ho. transitivity (Z.max 0 (nValue o)); [lia|]. unfold wallet_total. apply sumZ_elem.
  - apply Forall_forall. intros v Hv. apply list_elem_of_bind in Hv as (k & Hv & _). unfold tx_amounts in Hv.
    destruct (mapWallet w !! k) as [y|]; [|by apply elem_of_nil in Hv]. apply list_elem_of_fmap in Hv as (o' & -> & _). lia.
  - apply list_elem_of_bind. exists h. split; [|apply wallet_keys_spec; eauto]. unfold tx_amounts. rewrite Hx. apply list_elem_of_fmap. by exists o.
Qed.

Lemma amounts_valid_same w u : same_entries u w -> amounts_valid w -> amounts_valid u.
Proof.
  intros He [Hn Ht]. split; [|by rewrite (wallet_total_same w u He)]. intros h x o Hx Ho. destruct (same_entry w u h x He Hx) as (y & Hy & Hp).
  apply (Hn h y); [done|]. by rewrite <- (persist_tx x y).
Qed.

Section infos.
Context {B : Tx.Abi} {L : BNLib} {D : DigestLib} {E : ECLib} {G : ECGroup E} {V : EVPLib} (fTestNet : bool).
Context (I : index) (nCoinbaseMaturity nBestHeight nNow : Z).

Lemma info_usable_persist x b x' : info_usable I nCoinbaseMaturity nBestHeight nNow x = Some (b, x') -> persist x' = persist x.
Proof.
  unfold info_usable, GetBlocksToMaturity. destruct (negb _); [by intros [= <- <-]|].
  destruct (GetDepthInMainChain I (wtx x)) as [[n m]|] eqn:Hd; [|done]. cbn [mbind option_bind].
  apply depth_persist, persist_with_wtx in Hd. rewrite <- Hd. destruct (n <? 1); [by intros [= <- <-]|].
  destruct (negb _); cbn [mbind option_bind]; [intros [= _ <-]; by apply persist_with_wtx|].
  destruct (GetDepthInMainChain I (wtx (with_wtx m x))) as [[n' m']|] eqn:Hd'; [|done]. cbn [mbind option_bind]. intros [= _ <-].
  apply persist_with_wtx. by apply depth_persist in Hd'.
Qed.

Lemma find_info_out_spec w nTimeNew a x outs : forall i j o,
  find_info_out fTestNet w nTimeNew a x i outs = Some (Some (j, o)) -> exists k, j = (i + k)%nat /\ outs !! k = Some o.
Proof.
  induction outs as [|o' outs IH]; intros i j o; cbn [find_info_out]; [done|].
  destruct (IsSpent x (Z.of_nat i)) as [sp|]; [|done]. cbn [mbind option_bind].
  assert (find_info_out fTestNet w nTimeNew a x (S i) outs = Some (Some (j, o)) -> exists k, j = (i + k)%nat /\ (o' :: outs) !! k = Some o) as Hrec.
  { intros H. destruct (IH _ _ _ H) as (k & -> & Hk). exists (S k). split; [lia|done]. }
  destruct (_ || _); [done|]. destruct (_ <? _); [done|]. destruct (Solve.ExtractAddress _ _) as [addr|]; [|done].
  destruct (bool_decide _); [|done]. intros [= <- <-]. exists 0%nat. split; [lia|done].
Qed.

Lemma find_info_spec nTimeNew a l : forall w r w',
  find_info fTestNet I nCoinbaseMaturity nBestHeight nNow nTimeNew a l w = Some (r, w') ->
  uncached w' = uncached w /\ (forall h i o, r = Some (h, i, o) -> exists x, mapWallet w' !! h = Some x /\ vout (tx_of x) !! i = Some o).
Proof.
  induction l as [|h l IH]; intros w r w'; cbn [find_info]; [by intros [= <- <-]|].
  destruct (mapWallet w !! h) as [x|] eqn:Hx; [|done]. cbn [mbind option_bind].
  destruct (info_usable _ _ _ _ x) as [[ok x']|] eqn:Hu; [|done]. cbn [mbind option_bind]. apply info_usable_persist in Hu.
  rewrite <- (uncached_set w h x x' Hx Hu). destruct ok; cbn [negb]; [|apply IH].
  destruct (find_info_out _ _ _ _ _ _ _) as [[[i o]|]|] eqn:Hf; [| |done]; cbn [mbind option_bind]; [|apply IH].
  intros [= <- <-]. split; [done|]. intros h' i' o' [= <- <- <-]. exists x'. split; [apply lookup_insert_eq|].
  apply find_info_out_spec in Hf as (k & -> & Hk). done.
Qed.

(** The state of the loop over the entries, with respect to the wallet [w]. *)
Record infos_ok (w : CWallet) (t0 : CTransaction) (nFee : Z) (s : info_state) : Prop := {
  io_wallet : uncached (is_wallet s) = uncached w;
  io_left : 0 <= is_feeLeft s <= nFee;
  io_balance : total_in w (is_tx s) = total_out (is_tx s) + (nFee - is_feeLeft s);
  io_head : nTime (is_tx s) = nTime t0;
  io_in : length (is_from s) = length (vin (is_tx s))
}.

Lemma send_back_spec v left : 0 <= v <= MAX_TOTAL -> 0 <= left <= MAX_TOTAL ->
  let '(sb, left') := send_back v left in 0 <= sb /\ 0 <= left' <= left /\ sb + (left - left') = v.
Proof.
  intros Hv Hl. unfold send_back. destruct (Z.leb_spec left v); [rewrite i64_small by (unfold MAX_TOTAL in *; lia); lia|].
  destruct (Z.ltb_spec 0 v); [|lia]. rewrite i64_small by (unfold MAX_TOTAL in *; lia). lia.
Qed.

Lemma add_infos_spec w t0 nFee l : amounts_valid w -> nFee <= MAX_TOTAL -> forall s s' ok,
  infos_ok w t0 nFee s -> add_infos fTestNet I nCoinbaseMaturity nBestHeight nNow l s = Some (ok, s') ->
  uncached (is_wallet s') = uncached w /\ (ok = true -> infos_ok w t0 nFee s').
Proof.
  intros [Hn Ht] Hfee. induction l as [|[a infos] l IH]; intros s s' ok Hs; cbn [add_infos]; [intros [= <- <-]; by destruct Hs|].
  destruct (negb _); [intros [= <- <-]; by destruct Hs|].
  destruct (find_info _ _ _ _ _ _ _ _ _) as [[r w1]|] eqn:Hf; [|done]. cbn [mbind option_bind].
  apply find_info_spec in Hf as [Hu1 Hr]. destruct Hs as [S1 S2 S3 S4 S5].
  destruct r as [[[h i] o]|]; [|intros [= <- <-]; split; [cbn; congruence|done]].
  destruct (Hr h i o eq_refl) as (x & Hx & Ho). rewrite Hx. cbn [mbind option_bind].
  assert (same_entries w1 w) as Hse by (apply uncached_entries; congruence).
  destruct (same_entry w w1 h x Hse Hx) as (y & Hy & Hp). pose proof (persist_tx _ _ Hp) as Et.
  assert (o ∈ vout (tx_of y)) as Hoy by (rewrite <- Et; by eapply list_elem_of_lookup_2).
  pose proof (Hn h y o Hy Hoy) as Hv0. pose proof (out_le_total w h y o Hy Hoy) as Hv1.
  pose proof (send_back_spec (nValue o) (is_feeLeft s) ltac:(lia) ltac:(lia)) as Hsb.
  destruct (send_back (nValue o) (is_feeLeft s)) as [sb left]. destruct Hsb as (Hsb0 & Hl & Hsum).
  set (inp := mk_txin (mk_outpoint h (Z.of_nat i)) [] Tx.UINT_MAX infos).
  assert (in_value w inp = nValue o) as Hin.
  { unfold in_value, coin_value. cbn. rewrite Nat2Z.id, Hy. cbn. by rewrite <- Et, Ho. }
  assert (forall t2, (if 0 <? sb then script ← address_script fTestNet a; Some (push_out (new_out sb script) (push_in inp (is_tx s))) else Some (push_in inp (is_tx s))) = Some t2 ->
    infos_ok w t0 nFee (mk_infos t2 (is_from s ++ [tx_of x]) left w1)) as Hok.
  { intros t2 Ht2. assert (total_in w t2 = total_in w (push_in inp (is_tx s)) /\ total_out t2 = total_out (is_tx s) + sb /\ nTime t2 = nTime (is_tx s) /\ length (vin t2) = S (length (vin (is_tx s)))) as (T1 & T2 & T3 & T4).
    { destruct (Z.ltb_spec 0 sb) as [Hlt|Hge].
      - destruct (address_script fTestNet a) as [script|]; [|done]. injection Ht2 as <-. split; [done|]. split; [by rewrite total_out_push|].
        split; [done|]. cbn. rewrite length_app. cbn. lia.
      - injection Ht2 as <-. split; [done|]. split; [replace sb with 0 by lia; by rewrite Z.add_0_r|]. split; [done|]. cbn. rewrite length_app. cbn. lia. }
    split; cbn; [congruence|lia| |congruence|rewrite length_app; cbn; lia]. rewrite T1, T2, total_in_push, Hin. lia. }
  destruct (if 0 <? sb then _ else _) as [t2|]; [|done]. cbn [mbind option_bind]. apply IH. by apply Hok.
Qed.

Lemma add_infos_length l : forall s s', add_infos fTestNet I nCoinbaseMaturity nBestHeight nNow l s = Some (true, s') ->
  length (is_from s') = (length (is_from s) + length l)%nat.
Proof.
  induction l as [|[a infos] l IH]; intros s s'; cbn [add_infos]; [intros [= <-]; cbn; lia|]. destruct (negb _); [done|].
  destruct (find_info _ _ _ _ _ _ _ _ _) as [[r w1]|]; [|done]. cbn [mbind option_bind]. destruct r as [[[h i] o]|]; [|done].
  destruct (mapWallet w1 !! h) as [x|]; [|done]. cbn [mbind option_bind]. destruct (send_back _ _) as [sb left].
  destruct (if 0 <? sb then _ else _) as [t2|]; [|done]. cbn [mbind option_bind]. intros H. rewrite (IH _ _ H). cbn. rewrite length_app. cbn. lia.
Qed.

End infos.

(** ** CreateTransaction *)

Section created.
Context {B : Tx.Abi} {L : BNLib} {D : DigestLib} {E : ECLib} {G : ECGroup E} {V : EVPLib} (fTestNet : bool) (p : NetParams).
Context (I : index) (nCoinbaseMaturity nBestHeight nNow : Z) (fuel : nat) (node : Z -> Z).
Context (draw : nat -> Z) (nKeysArg nTransactionFee : Z).
Context (vecSend : list (list Z * Z)) (vecTxInfos : list (Base58.CBase58Data * list CTxInfo)).
Context (rs : nat -> nat -> (nat -> Z -> Z) * (nat -> nat -> bool)) (place : nat -> Z -> Z).

Lemma spend_filed_same w u : same_entries u w -> filed w -> filed u.
Proof. intros He Hf h x Hx. destruct (same_entry w u h x He Hx) as (y & Hy & Hp). rewrite (persist_tx x y) by done. by apply Hf. Qed.

Lemma GetReservedKey_entries r w pub r' w' :
  KeyPool.GetReservedKey fTestNet draw nKeysArg nNow r w = Some (pub, r', w') -> same_entries w' w.
Proof.
  unfold KeyPool.GetReservedKey. destruct (rk_nIndex r =? -1).
  - destruct (KeyPool.ReserveKeyFromKeyPool _ _ _ _ w) as [[[i k] w1]|] eqn:Hr; [|done]. cbn [mbind option_bind].
    apply Reserve_txs in Hr as [Hm _]. destruct (bool_decide _); [done|]. intros [= _ _ <-]. unfold same_entries. by rewrite Hm.
  - cbn [mbind option_bind]. destruct (bool_decide _); [done|]. by intros [= _ _ <-].
Qed.

Lemma add_change_spec k c s s' : 0 <= c -> add_change fTestNet nNow draw nKeysArg place k c s = Some s' ->
  same_entries (sp_wallet s') (sp_wallet s) /\ vin (sp_tx s') = vin (sp_tx s) /\ total_out (sp_tx s') = total_out (sp_tx s) + c /\
  vout (sp_tx s) `sublist_of` vout (sp_tx s') /\ sp_fee s' = sp_fee s /\ nTime (sp_tx s') = nTime (sp_tx s).
Proof.
  intros Hc. unfold add_change. destruct (Z.ltb_spec 0 c) as [Hlt|Hge].
  - destruct (KeyPool.GetReservedKey _ _ _ _ _ _) as [[[pub r] w]|] eqn:Hr; [|done]. cbn [mbind option_bind]. apply GetReservedKey_entries in Hr.
    intros [= <-]. cbn [sp_wallet sp_tx sp_fee]. set (n := Z.to_nat _). set (o := new_out c _).
    split; [done|]. split; [done|]. assert (take n (vout (sp_tx s)) ++ drop n (vout (sp_tx s)) = vout (sp_tx s)) as Htd by apply take_drop.
    split.
    + unfold total_out. cbn [Sig.set_vout vout]. rewrite <- Htd at 3. rewrite !fmap_app, fmap_cons, !sumZ_app. cbn. fold (sumZ (nValue <$> drop n (vout (sp_tx s)))). lia.
    + split; [|done]. cbn [Sig.set_vout vout]. rewrite <- Htd at 1. apply sublist_app; [done|]. by apply sublist_cons.
  - destruct (KeyPool.reserve_ReturnKey _ _) as [r w] eqn:Hr. intros [= <-]. cbn. replace c with 0 by lia. rewrite Z.add_0_r.
    split; [|done]. unfold KeyPool.reserve_ReturnKey in Hr. injection Hr as _ <-. by destruct (negb _).
Qed.

Lemma push_sends t : let t' := foldl (fun t send => push_out (new_out send.2 send.1) t) t vecSend in
  vin t' = vin t /\ vout t' = vout t ++ ((fun s => new_out s.2 s.1) <$> vecSend) /\ nTime t' = nTime t.
Proof.
  cbv zeta. revert t. induction vecSend as [|[sc v] l IH]; intros t; cbn [foldl]; [by rewrite app_nil_r|].
  destruct (IH (push_out (new_out v sc) t)) as (E1 & E2 & E3). cbn [fst snd] in *. rewrite E1, E2, E3. split; [done|]. split; [|done].
  cbn. by rewrite <- app_assoc.
Qed.

(** Few enough payees for the sum to stay in the range of int64. *)
Lemma sum_sends_spec l : forall acc v, 0 <= acc -> acc + MAX_MONEY * Z.of_nat (length l) < 2 ^ 63 -> sum_sends l acc = Some v ->
  v = acc + sumZ l.*2 /\ MoneyRange v = true.
Proof.
  induction l as [|[sc a] l IH]; intros acc v Ha Hm; cbn [sum_sends].
  - destruct (MoneyRange acc) eqn:Hr; [|done]. intros [= <-]. cbn. split; [lia|done].
  - cbn [snd]. destruct (MoneyRange a) eqn:Hr; [|done]. apply Tx.MoneyRange_spec in Hr. cbn [length] in Hm.
    unfold MAX_MONEY, COIN in *. rewrite i64_small by lia. intros Hs. destruct (IH (acc + a) v) as [-> Hv]; [lia|lia|done|]. split; [|done]. cbn. fold (sumZ l.*2). lia.
Qed.

Lemma coin_inputs_spec w coins : filed w -> forall ins froms, coin_inputs w coins = Some (ins, froms) ->
  ins = (fun c => new_in c.1 (Z.of_nat c.2)) <$> coins /\
  (forall k i, ins !! k = Some i -> exists x, mapWallet w !! prevhash (prevout i) = Some x /\ froms !! k = Some (tx_of x)).
Proof.
  intros Hf. induction coins as [|[h n] coins IH]; intros ins froms; cbn [coin_inputs]; [by intros [= <- <-]|].
  destruct (mapWallet w !! h) as [x|] eqn:Hx; [|done]. cbn [mbind option_bind]. rewrite (Hf h x Hx). cbn [mbind option_bind].
  destruct (coin_inputs w coins) as [[ins' froms']|]; [|done]. cbn [mbind option_bind]. intros [= <- <-].
  destruct (IH ins' froms' eq_refl) as [-> Hk]. split; [done|]. intros [|k] i Hi; [|by apply Hk].
  injection Hi as <-. exists x. done.
Qed.

Lemma GetMinFee_range t size mode f : Tx.GetMinFee t size mode = Some f -> MIN_TX_FEE <= f <= MAX_MONEY.
Proof.
  unfold Tx.GetMinFee. destruct (GetSerializeSize Tx.tx_codec t) as [n|]; [|done]. cbn [mbind option_bind].
  assert (forall x, MIN_TX_FEE <= (let f := Z.max x (if Tx.is_relay mode then MIN_RELAY_TX_FEE else MIN_TX_FEE) in
    if negb (MoneyRange f) then MAX_MONEY else f) <= MAX_MONEY) as Hcap.
  { intros x. cbv zeta. assert (MIN_TX_FEE <= (if Tx.is_relay mode then MIN_RELAY_TX_FEE else MIN_TX_FEE)) by (by destruct (Tx.is_relay mode)).
    destruct (MoneyRange _) eqn:Hm; cbn [negb]; [apply Tx.MoneyRange_spec in Hm; lia|vm_compute; split; discriminate]. }
  cbv zeta in Hcap |- *. destruct (_ && _); [destruct (_ <=? _)|]; intros [= <-]; [vm_compute; split; discriminate|apply Hcap|apply Hcap].
Qed.

Lemma tx_size_nonneg t n : GetSerializeSize Tx.tx_codec t = Some n -> 0 <= n.
Proof.
  cbn [Tx.tx_codec GetSerializeSize]. destruct (GetSerializeSize Tx.header_codec _) as [a|]; [|done]. cbn [mbind option_bind].
  destruct (GetSerializeSize (Tx.mint_codec _) _) as [b|]; [|done]. cbn [mbind option_bind]. intros [= <-]. apply u32_range.
Qed.

(** A transaction that pays [vecSend] from coins of [w]. *)
Record paid (w : CWallet) (t : CTransaction) (fee : Z) : Prop := {
  pd_balance : total_in w t = total_out t + fee;
  pd_payees : ((fun s => new_out s.2 s.1) <$> vecSend) `sublist_of` vout t;
  pd_fee : exists nBytes nMinFee, GetSerializeSize Tx.tx_codec t = Some nBytes /\ nBytes < MAX_BLOCK_SIZE_GEN / 5 /\
    Tx.GetMinFee t 1 Tx.GMF_SEND = Some nMinFee /\ nTransactionFee * (1 + nBytes / 1000) <= fee /\ nMinFee <= fee;
  pd_coins : exists coins v, free_choice (nTime t) w coins v /\
    prevout <$> drop (length vecTxInfos) (vin t) = (fun c => mk_outpoint c.1 (Z.of_nat c.2)) <$> coins;
  pd_signed : forall k i, (length vecTxInfos <= k)%nat -> vin t !! k = Some i ->
    exists x, mapWallet w !! prevhash (prevout i) = Some x /\ Solve.VerifySignature (tx_of x) t k 0 = Some true
}.

Definition MAX_FEE : Z := 2 ^ 58.

Hypothesis fee_range : MoneyRange nTransactionFee = true.

Lemma pay_fee_range n : 0 <= n < MAX_BLOCK_SIZE_GEN / 5 ->
  i64 (nTransactionFee * (1 + n / 1000)) = nTransactionFee * (1 + n / 1000) /\ 0 <= nTransactionFee * (1 + n / 1000) <= MAX_FEE.
Proof.
  intros Hn. apply Tx.MoneyRange_spec in fee_range. assert (0 <= n / 1000 <= 99) as Hk.
  { change (MAX_BLOCK_SIZE_GEN / 5) with 100000 in Hn. split; [apply Z.div_pos; lia|]. apply Z.lt_succ_r, Z.div_lt_upper_bound; lia. }
  assert (0 <= nTransactionFee * (1 + n / 1000) <= MAX_FEE) as Hr by (unfold MAX_MONEY, COIN, MAX_FEE in *; nia).
  split; [|done]. apply i64_small. unfold MAX_FEE in Hr. lia.
Qed.

(** What a round does with respect to the wallet [w] it started from. *)
Definition round_ok (w : CWallet) (nFee : Z) (r : option bool) (s : spending) : Prop :=
  same_entries (sp_wallet s) w /\
  match r with Some true => paid w (sp_tx s) (sp_fee s) | Some false => True | None => nFee < sp_fee s <= MAX_FEE end.

Lemma drop_unsigned t t' n : unsigned t = unsigned t' -> prevout <$> drop n (vin t) = prevout <$> drop n (vin t').
Proof.
  assert (forall l, prevout <$> drop n l = drop n (prevout <$> (unsigned_in <$> l))) as Hd.
  { intros l. rewrite <- list_fmap_compose, fmap_drop. by f_equal. }
  intros He. apply (f_equal vin) in He. cbn [unsigned Sig.set_vin vin] in He. by rewrite (Hd (vin t)), (Hd (vin t')), He.
Qed.

(** The end of a round, from inputs [vin (sp_tx s)] that are those with entries. *)
Lemma finish_round_spec w coins v s r s' :
  filed w -> same_entries (sp_wallet s) w -> length (vin (sp_tx s)) = length vecTxInfos ->
  total_in w (sp_tx s) + v = total_out (sp_tx s) + sp_fee s ->
  ((fun s => new_out s.2 s.1) <$> vecSend) `sublist_of` vout (sp_tx s) -> free_choice (nTime (sp_tx s)) w coins v ->
  finish_round fTestNet nTransactionFee coins (length vecTxInfos) s = Some (r, s') -> round_ok w (sp_fee s) r s'.
Proof.
  intros Hf Hse Hlen Hbal Hpay Hfree. unfold finish_round.
  destruct (coin_inputs (sp_wallet s) coins) as [[ins froms]|] eqn:Hci; [|done]. cbn [mbind option_bind].
  apply coin_inputs_spec in Hci as [Hins Hfr]; [|by apply (spend_filed_same w)].
  set (t1 := Sig.set_vin (sp_tx s) (vin (sp_tx s) ++ ins)).
  destruct (sign_all _ _ froms _ t1) as [[ok t]|] eqn:Hs; [|done]. cbn [mbind option_bind].
  destruct ok; cbn [negb]; [|by intros [= <- <-]]. apply sign_all_ok in Hs as (Hu & _ & Hv).
  destruct (GetSerializeSize Tx.tx_codec t) as [nBytes|] eqn:Hb; [|done]. cbn [mbind option_bind].
  destruct (Z.leb_spec (MAX_BLOCK_SIZE_GEN / 5) nBytes) as [|Hsz]; [by intros [= <- <-]|].
  destruct (Tx.GetMinFee t 1 Tx.GMF_SEND) as [nMin|] eqn:Hm; [|done]. cbn [mbind option_bind].
  pose proof (GetMinFee_range _ _ _ _ Hm) as Hmr. pose proof (tx_size_nonneg _ _ Hb) as Hb0.
  destruct (pay_fee_range nBytes ltac:(lia)) as [-> Hpf]. cbn [sp_fee sp_reserve sp_wallet].
  destruct (Z.ltb_spec (sp_fee s) (Z.max (nTransactionFee * (1 + nBytes / 1000)) nMin)) as [Hlow|Hge]; intros [= <- <-]; (split; [done|]).
  { cbn. unfold MAX_FEE, MAX_MONEY, COIN in *. lia. }
  assert (vout t = vout (sp_tx s)) as Hvo by (by apply (unsigned_vout t t1)).
  assert (nTime t = nTime (sp_tx s)) as Hti by exact (f_equal nTime Hu).
  assert (prevout <$> drop (length vecTxInfos) (vin t) = prevout <$> ins) as Hdr.
  { rewrite (drop_unsigned t t1) by done. cbn. by rewrite <- Hlen, drop_app_length. }
  split; cbn [sp_tx sp_fee].
  - rewrite (total_in_unsigned w t t1) by done. unfold total_out. rewrite Hvo. fold (total_out (sp_tx s)).
    rewrite <- Hbal. unfold total_in, t1. cbn. rewrite fmap_app, sumZ_app. f_equal.
    rewrite Hins, <- list_fmap_compose, (fc_value _ _ _ _ Hfree). f_equal. apply list_fmap_ext. intros _ [h n] _. unfold in_value. cbn. by rewrite Nat2Z.id.
  - by rewrite Hvo.
  - exists nBytes, nMin. split; [done|]. split; [done|]. split; [done|]. lia.
  - exists coins, v. rewrite Hti. split; [done|]. rewrite Hdr, Hins, <- list_fmap_compose. by apply list_fmap_ext.
  - intros k i Hk Hi.
    assert ((prevout <$> ins) !! (k - length vecTxInfos)%nat = Some (prevout i)) as Hki.
    { rewrite <- Hdr, list_lookup_fmap, lookup_drop. replace (length vecTxInfos + (k - length vecTxInfos))%nat with k by lia. by rewrite Hi. }
    rewrite list_lookup_fmap in Hki. destruct (ins !! _) as [j|] eqn:Hj; [|done]. injection Hki as Hpj.
    destruct (Hfr _ _ Hj) as (x & Hx & Hfx). rewrite Hpj in Hx. destruct (same_entry w _ _ _ Hse Hx) as (y & Hy & Hp).
    exists y. split; [done|]. rewrite <- (persist_tx x y) by done. replace k with (length vecTxInfos + (k - length vecTxInfos))%nat by lia. by apply Hv.
Qed.

#[local] Abbreviation round := (create_round fTestNet I nCoinbaseMaturity nBestHeight nNow fuel node draw nKeysArg nTransactionFee vecSend vecTxInfos rs place).
#[local] Abbreviation loop := (create_loop fTestNet I nCoinbaseMaturity nBestHeight nNow fuel node draw nKeysArg nTransactionFee vecSend vecTxInfos rs place).

Lemma free_choice_same w u t coins v : same_entries u w -> free_choice t u coins v -> free_choice t w coins v.
Proof.
  intros He [H1 H2 H3]. split; [done| |].
  - eapply Forall_impl; [exact H2|]. intros c (x & o & Hx & Ho & Hfl & Hr). destruct (same_entry w u _ _ He Hx) as (y & Hy & Hp). exists y, o.
    rewrite <- (persist_tx _ _ Hp), <- (persist_flag _ _ _ Hp). done.
  - rewrite H3. f_equal. apply list_fmap_ext. intros _ c _. by apply coin_value_same.
Qed.

Lemma free_choice_nil t w : free_choice t w [] 0.
Proof. split; [constructor|constructor|done]. Qed.

(** The change is what the coins exceed the payment by; moving a part of it to
    the fee leaves the balance. *)
Lemma change_spec fee nValue left v : 0 <= fee <= MAX_FEE -> 0 <= nValue <= MAX_MONEY -> 0 <= left <= fee -> nValue + left <= v <= MAX_TOTAL ->
  let nChange := i64 (i64 (v - nValue) - left) in let m := move_to_fee fee nChange in
  nChange = v - nValue - left /\ 0 <= m <= nChange /\ i64 (nChange - m) = nChange - m /\ i64 (fee + m) = fee + m.
Proof.
  intros Hf Hn Hl Hv. unfold MAX_FEE, MAX_MONEY, MAX_TOTAL, COIN in *. cbv zeta. rewrite (i64_small (v - nValue)) by lia. rewrite (i64_small (v - nValue - left)) by lia.
  set (c := v - nValue - left). assert (0 <= move_to_fee fee c <= c /\ move_to_fee fee c <= MIN_TX_FEE) as Hm.
  { unfold move_to_fee. destruct (Z.ltb_spec fee MIN_TX_FEE); cbn [andb]; [|unfold MIN_TX_FEE, CENT; lia].
    destruct (Z.ltb_spec 0 c); cbn [andb]; [|unfold MIN_TX_FEE, CENT; lia]. destruct (c <? CENT); [|unfold MIN_TX_FEE, CENT; lia].
    rewrite i64_small by (unfold MIN_TX_FEE, CENT in *; lia). lia. }
  unfold MIN_TX_FEE, CENT in *. split; [done|]. split; [lia|]. rewrite !i64_small by lia. done.
Qed.

Lemma create_round_spec w k nValue s r s' :
  amounts_valid w -> filed w -> same_entries (sp_wallet s) w -> 0 <= sp_fee s <= MAX_FEE -> MoneyRange nValue = true -> nValue = sumZ vecSend.*2 ->
  round k nValue s = Some (r, s') -> round_ok w (sp_fee s) r s'.
Proof.
  intros Ha Hf Hse Hfee Hnv Hsum. apply Tx.MoneyRange_spec in Hnv. unfold create_round. set (t0 := Sig.set_vout _ _).
  assert (infos_ok (sp_wallet s) t0 (sp_fee s) (mk_infos t0 [] (sp_fee s) (sp_wallet s))) as Hi0.
  { split; cbn; [done|lia|lia|done|done]. }
  destruct (add_infos _ _ _ _ _ _ _) as [[ok f]|] eqn:Hai; [|done]. cbn [mbind option_bind].
  assert (ok = true -> length (is_from f) = length vecTxInfos) as Hcount by (intros ->; by apply add_infos_length in Hai).
  apply (add_infos_spec fTestNet I nCoinbaseMaturity nBestHeight nNow (sp_wallet s) t0 (sp_fee s)) in Hai as [Hu Hi];
    [|by apply (amounts_valid_same w)|unfold MAX_FEE, MAX_TOTAL in *; lia|done].
  assert (same_entries (is_wallet f) w) as Hsf by (unfold same_entries; rewrite <- Hse; by apply uncached_entries).
  destruct ok; cbn [negb]; [|intros [= <- <-]; by split]. specialize (Hi eq_refl). specialize (Hcount eq_refl).
  destruct Hi as [_ Hleft Hbal Hhead Hcin]. rewrite (total_in_same w) in Hbal by done.
  destruct (sign_all _ _ (is_from f) 0 (is_tx f)) as [[ok t]|] eqn:Hs; [|done]. cbn [mbind option_bind].
  destruct ok; cbn [negb]; [|intros [= <- <-]; by split]. apply sign_all_ok in Hs as (Hun & _).
  destruct (push_sends t) as (Hpi & Hpo & Hpt). set (t2 := foldl _ t vecSend) in *.
  assert (i64 (nValue + is_feeLeft f) = nValue + is_feeLeft f) as Hi64.
  { apply i64_small. unfold MAX_FEE, MAX_MONEY, COIN in *. lia. }
  rewrite Hi64. cbn [sp_wallet sp_fee sp_reserve].
  assert (forall ok coins v w2, (if 0 <? nValue + is_feeLeft f
      then SelectCoins fTestNet I nCoinbaseMaturity nBestHeight nNow fuel node (nValue + is_feeLeft f) (nTime t2) (rs k) (is_wallet f)
      else Some (true, [], 0, is_wallet f)) = Some (ok, coins, v, w2) ->
    same_entries w2 w /\ (ok = true -> free_choice (nTime t2) w coins v /\ nValue + is_feeLeft f <= v <= MAX_TOTAL)) as Hsel.
  { intros ok coins v w2. destruct (Z.ltb_spec 0 (nValue + is_feeLeft f)) as [Hpos|Hz].
    - intros Hsc. apply SelectCoins_sound in Hsc as [Hu2 Hfc]; [|unfold MAX_TOTAL, MAX_FEE, MAX_MONEY, COIN in *; lia|].
      + split; [unfold same_entries; rewrite <- Hsf; by apply uncached_entries|]. intros Hok. destruct (Hfc Hok) as [Hc1 Hc2]. split; [|done].
        by apply (free_choice_same w (is_wallet f)).
      + rewrite (wallet_total_same w) by done. apply Ha.
    - intros [= <- <- <- <-]. split; [done|]. intros _. split; [apply free_choice_nil|]. unfold MAX_TOTAL. lia. }
  destruct (if 0 <? _ then _ else _) as [[[[ok coins] v] w2]|]; [|done]. cbn [mbind option_bind].
  destruct (Hsel ok coins v w2 eq_refl) as [Hsw Hfc]. destruct ok; cbn [negb]; [|intros [= <- <-]; by split]. destruct (Hfc eq_refl) as [Hfree Hv].
  destruct (change_spec (sp_fee s) nValue (is_feeLeft f) v Hfee Hnv Hleft Hv) as (Ec & Hm & Ecm & Efm). cbv zeta in Hm, Ecm, Efm.
  rewrite Ecm, Efm. set (m := move_to_fee _ _) in *. rewrite Ec in *.
  destruct (add_change _ _ _ _ _ _ _ _) as [s3|] eqn:Hch; [|done]. cbn [mbind option_bind].
  apply add_change_spec in Hch as (C1 & C2 & C3 & C4 & C5 & C6); [|lia]. cbn [sp_wallet sp_tx sp_fee] in *.
  rewrite Hcount. intros Hfin. apply (finish_round_spec w coins v) in Hfin; try done.
  - destruct Hfin as [Hr1 Hr2]. split; [done|]. rewrite C5 in Hr2. destruct r as [[]|]; [done|done|lia].
  - unfold same_entries. by rewrite C1.
  - rewrite C2, Hpi, <- Hcount, Hcin. apply (f_equal vin), (f_equal length) in Hun. cbn in Hun. by rewrite !length_fmap in Hun.
  - assert (total_in w (sp_tx s3) = total_in w (is_tx f)) as ->.
    { rewrite <- (total_in_unsigned w t (is_tx f)) by done. unfold total_in. by rewrite C2, Hpi. }
    rewrite Hbal, C3, C5. assert (total_out t2 = total_out (is_tx f) + nValue) as ->; [|lia].
    unfold total_out. rewrite Hpo, fmap_app, sumZ_app, (unsigned_vout t (is_tx f)) by done. f_equal. rewrite Hsum, <- list_fmap_compose. done.
  - etransitivity; [|exact C4]. rewrite Hpo. by apply sublist_inserts_l.
  - by rewrite C6.
Qed.

Lemma create_loop_spec w nValue n : amounts_valid w -> filed w -> MoneyRange nValue = true -> nValue = sumZ vecSend.*2 ->
  forall k s, same_entries (sp_wallet s) w -> 0 <= sp_fee s <= MAX_FEE ->
  ((Z.to_nat (MAX_FEE - sp_fee s) < n)%nat -> loop n k nValue s <> None) /\
  (forall b s', loop n k nValue s = Some (Some (b, s')) -> same_entries (sp_wallet s') w /\ (b = true -> paid w (sp_tx s') (sp_fee s'))).
Proof.
  intros Ha Hf Hnv Hsum. induction n as [|n IH]; intros k s Hse Hfee; cbn [create_loop]; [split; [lia|done]|].
  destruct (round k nValue s) as [[r s1]|] eqn:Hr; [|split; [discriminate|intros b s' [=]]].
  apply (create_round_spec w) in Hr as [Hse1 Hr1]; [|done..]. destruct r as [b|].
  - split; [discriminate|]. intros b' s' [= -> <-]. split; [done|]. by intros ->.
  - assert (0 <= sp_fee s1 <= MAX_FEE) as Hfee1 by lia. destruct (IH (S k) s1 Hse1 Hfee1) as [Ht Hp]. split; [|done]. intros Hn. apply Ht. lia.
Qed.

Lemma SetMerkleBranch_tx db d pb m n m' : SetMerkleBranch p db d I pb m = Some (n, m') -> mt_tx m' = mt_tx m.
Proof.
  unfold SetMerkleBranch. destruct (block_for p db d m pb) as [ob|]; [|done]. cbn [mbind option_bind]. destruct ob as [b|]; [|by intros [= <- <-]].
  cbv zeta. destruct (find_tx _ _ _) as [i|]; [|by intros [= <- <-]]. destruct (mapM _ _) as [hs|]; [|done]. cbn [mbind option_bind].
  destruct (block_depth _ _) as [dp|]; [|done]. cbn [mbind option_bind]. by intros [= <- <-].
Qed.

Lemma AddSupporting_tx db d n w x x' : AddSupportingTransactions p I db d n w x = Some x' -> tx_of x' = tx_of x.
Proof.
  unfold AddSupportingTransactions. destruct (SetMerkleBranch _ _ _ _ _ _) as [[dp m]|] eqn:Hm; [|done]. cbn [mbind option_bind].
  apply SetMerkleBranch_tx in Hm. destruct (dp <? COPY_DEPTH); [|by intros [= <-]].
  destruct (default None _) as [l|]; [|done]. cbn [mbind option_bind]. by intros [= <-].
Qed.

Lemma sums_ok v : Z.of_nat (length vecSend) <= 4000 -> sum_sends vecSend 0 = Some v -> v = sumZ vecSend.*2 /\ MoneyRange v = true.
Proof. intros Hlen. apply sum_sends_spec; [lia|]. unfold MAX_MONEY, COIN. lia. Qed.

Lemma CreateTransaction_spec db d rounds n wtxNew r nFeeRet w ok x r' fee w' :
  Z.of_nat (length vecSend) <= 4000 -> amounts_valid w -> filed w ->
  CreateTransaction fTestNet p I nCoinbaseMaturity nBestHeight nNow fuel node draw nKeysArg nTransactionFee db d vecSend vecTxInfos rs place
    rounds n wtxNew r nFeeRet w = Some (ok, x, r', fee, w') ->
  same_entries w' w /\ (ok = true -> paid w (tx_of x) fee).
Proof.
  intros Hlen Ha Hf. unfold CreateTransaction. destruct (sum_sends vecSend 0) as [nValue|] eqn:Hs; [|by intros [= <- <- <- <- <-]].
  destruct (sums_ok _ Hlen Hs) as [Hv Hm]. destruct (_ && _); [by intros [= <- <- <- <- <-]|].
  set (x0 := with_fromMe true (BindWallet wtxNew)). pose proof fee_range as Hfr. apply Tx.MoneyRange_spec in Hfr.
  destruct (create_loop_spec w nValue rounds Ha Hf Hm Hv 0 (mk_spending (tx_of x0) r nTransactionFee w)) as [_ Hl]; [done|cbn; unfold MAX_FEE, MAX_MONEY, COIN in *; lia|].
  destruct (loop rounds 0%nat nValue _) as [[[b s]|]|]; [|done|done]. cbn [default id mbind option_bind]. destruct (Hl b s eq_refl) as [Hse Hp].
  destruct b; cbn [negb]; [|by intros [= <- <- <- <- <-]].
  destruct (AddSupportingTransactions p I db d n (sp_wallet s) (with_tx (sp_tx s) x0)) as [x1|] eqn:Hx1; [|done]. cbn [mbind option_bind]. apply AddSupporting_tx in Hx1.
  intros [= <- <- <- <- <-]. split; [done|]. intros _. change (tx_of (with_txtime true x1)) with (tx_of x1). rewrite Hx1. by apply Hp.
Qed.

(** *** The file is not written *)

Lemma add_infos_files l : forall s ok s', add_infos fTestNet I nCoinbaseMaturity nBestHeight nNow l s = Some (ok, s') ->
  file_tx (is_wallet s') = file_tx (is_wallet s).
Proof.
  induction l as [|[a infos] l IH]; intros s ok s'; cbn [add_infos]; [by intros [= <- <-]|]. destruct (negb _); [by intros [= <- <-]|].
  destruct (find_info _ _ _ _ _ _ _ _ _) as [[r w1]|] eqn:Hf; [|done]. cbn [mbind option_bind].
  apply find_info_spec in Hf as [Hu _]. apply (f_equal file_tx) in Hu. cbn in Hu.
  destruct r as [[[h i] o]|]; [|by intros [= <- <-]].
  destruct (mapWallet w1 !! h) as [x|]; [|done]. cbn [mbind option_bind]. destruct (send_back _ _) as [v left].
  destruct (if 0 <? v then _ else _) as [t|]; [|done]. cbn [mbind option_bind]. intros Hgo. apply IH in Hgo. rewrite Hgo. exact Hu.
Qed.

Lemma add_change_files k c s s' : add_change fTestNet nNow draw nKeysArg place k c s = Some s' -> file_tx (sp_wallet s') = file_tx (sp_wallet s).
Proof.
  unfold add_change. destruct (0 <? c).
  - unfold KeyPool.GetReservedKey. destruct (rk_nIndex (sp_reserve s) =? -1).
    + destruct (KeyPool.ReserveKeyFromKeyPool _ _ _ _ _) as [[[i kp] w1]|] eqn:Hr; [|done]. cbn [mbind option_bind].
      apply Reserve_txs in Hr as [_ Hm]. destruct (bool_decide _); [done|]. cbn [mbind option_bind]. by intros [= <-].
    + cbn [mbind option_bind]. destruct (bool_decide _); [done|]. cbn [mbind option_bind]. by intros [= <-].
  - destruct (KeyPool.reserve_ReturnKey _ _) as [r w] eqn:Hr. intros [= <-]. unfold KeyPool.reserve_ReturnKey in Hr. injection Hr as _ <-. by destruct (negb _).
Qed.

Lemma finish_round_wallet coins nIn s r s' :
  finish_round fTestNet nTransactionFee coins nIn s = Some (r, s') -> sp_wallet s' = sp_wallet s.
Proof.
  unfold finish_round. destruct (coin_inputs _ _) as [[ins froms]|]; [|done]. cbn [mbind option_bind].
  destruct (sign_all _ _ _ _ _) as [[ok t]|]; [|done]. cbn [mbind option_bind]. destruct (negb ok); [by intros [= <- <-]|].
  destruct (GetSerializeSize _ _) as [nBytes|]; [|done]. cbn [mbind option_bind]. destruct (_ <=? _); [by intros [= <- <-]|].
  destruct (Tx.GetMinFee _ _ _) as [nMin|]; [|done]. cbn [mbind option_bind]. destruct (_ <? _); by intros [= <- <-].
Qed.

Lemma create_round_files k nValue s r s' : round k nValue s = Some (r, s') -> file_tx (sp_wallet s') = file_tx (sp_wallet s).
Proof.
  unfold create_round. set (t0 := Sig.set_vout _ _). destruct (add_infos _ _ _ _ _ _ _) as [[ok f]|] eqn:Hai; [|done]. cbn [mbind option_bind].
  apply add_infos_files in Hai. cbn [is_wallet] in Hai. destruct ok; cbn [negb]; [|by intros [= <- <-]].
  destruct (sign_all _ _ (is_from f) 0 (is_tx f)) as [[ok t]|]; [|done]. cbn [mbind option_bind]. destruct ok; cbn [negb]; [|by intros [= <- <-]].
  cbv zeta. set (t2 := foldl _ t vecSend). cbn [sp_wallet sp_fee sp_reserve].
  assert (forall ok coins v w2, (if 0 <? i64 (nValue + is_feeLeft f)
      then SelectCoins fTestNet I nCoinbaseMaturity nBestHeight nNow fuel node (i64 (nValue + is_feeLeft f)) (nTime t2) (rs k) (is_wallet f)
      else Some (true, [], 0, is_wallet f)) = Some (ok, coins, v, w2) -> file_tx w2 = file_tx (is_wallet f)) as Hsel.
  { intros ok coins v w2. destruct (0 <? _); [|by intros [= _ _ _ <-]]. intros Hs. apply SelectCoins_uncached, (f_equal file_tx) in Hs. exact Hs. }
  destruct (if 0 <? _ then _ else _) as [[[[ok coins] v] w2]|]; [|done]. cbn [mbind option_bind]. specialize (Hsel ok coins v w2 eq_refl).
  destruct ok; cbn [negb]; [|intros [= <- <-]; cbn; congruence].
  destruct (add_change _ _ _ _ _ _ _ _) as [s3|] eqn:Hch; [|done]. cbn [mbind option_bind]. apply add_change_files in Hch. cbn [sp_wallet] in Hch.
  intros Hfin. apply finish_round_wallet in Hfin. rewrite Hfin. congruence.
Qed.

Lemma create_loop_files nValue n : forall k s b s', loop n k nValue s = Some (Some (b, s')) -> file_tx (sp_wallet s') = file_tx (sp_wallet s).
Proof.
  induction n as [|n IH]; intros k s b s'; cbn [create_loop]; [done|]. destruct (round k nValue s) as [[r s1]|] eqn:Hr; [|done].
  apply create_round_files in Hr. destruct r; [by intros [= _ <-]|]. intros H. apply IH in H. congruence.
Qed.

Lemma CreateTransaction_files db d rounds n wtxNew r nFeeRet w ok x r' fee w' :
  CreateTransaction fTestNet p I nCoinbaseMaturity nBestHeight nNow fuel node draw nKeysArg nTransactionFee db d vecSend vecTxInfos rs place
    rounds n wtxNew r nFeeRet w = Some (ok, x, r', fee, w') -> file_tx w' = file_tx w.
Proof.
  unfold CreateTransaction. destruct (sum_sends vecSend 0) as [nValue|]; [|by intros [= <- <- <- <- <-]]. destruct (_ && _); [by intros [= <- <- <- <- <-]|].
  destruct (loop rounds 0%nat nValue _) as [[[b s]|]|] eqn:Hl; [|done|done]. cbn [default id mbind option_bind]. apply create_loop_files in Hl.
  destruct (negb b); [by intros [= <- <- <- <- <-]|]. destruct (AddSupportingTransactions _ _ _ _ _ _ _); [|done]. cbn [mbind option_bind]. by intros [= <- <- <- <- <-].
Qed.


End created.
(** ** A payment *)

Section witnesses.
#[local] Existing Instance bn_reference.
#[local] Existing Instance toy_digests.
#[local] Existing Instance Tx.demo_abi.
#[local] Existing Instance toy_ec.
#[local] Existing Instance toy_group.
#[local] Existing Instance toy_evp.

Definition demo_create (sends : list (list Z * Z)) (infos : list (Base58.CBase58Data * list CTxInfo)) :=
  CreateTransaction false Ledger.demo_net demo_blocks 100 9 1000 5 id KeyPool.demo_draw 2 0 (mk_txdb ∅ ∅ None) (mk_diskfiles ∅ ∅) sends infos
    (fun _ => demo_rs) (fun _ _ => 0) 5 10 (Init (of_tx (mk_tx TT_NORMAL 1000 [] [] 0 Tx.no_mint))) KeyPool.no_reserve 0 demo_rich.

Definition show_created (r : option (bool * CWalletTx * CReserveKey * Z * CWallet)) : option (bool * list COutPoint * list (Z * list Z) * Z) :=
  '(ok, x, _, fee, _) ← r; Some (ok, prevout <$> vin (tx_of x), (fun o => (nValue o, scriptPubKey o)) <$> vout (tx_of x), fee).

Lemma demo_rich_ok : amounts_valid demo_rich /\ filed demo_rich.
Proof.
  split; [split|].
  - intros h x o Hx Ho. cbn [demo_rich set_mapWallet mapWallet] in Hx. apply lookup_singleton_Some in Hx as [<- <-].
    assert (Forall (fun o => 0 <= nValue o) (vout demo_coins)) as Hall by (repeat constructor; vm_compute; discriminate).
    rewrite Forall_forall in Hall. by apply Hall.
  - vm_compute. discriminate.
  - intros h x Hx. cbn [demo_rich set_mapWallet mapWallet] in Hx. apply lookup_singleton_Some in Hx as [<- <-]. vm_compute. reflexivity.
Qed.

Lemma demo_create_fee : (fun r => (r.1.1.1.1, r.1.2)) <$> demo_create [([81], 4 * COIN)] [] = Some (true, CENT).
Proof. vm_compute. reflexivity. Qed.


(** The inputs with information entries are signed before the payees, the change
    and the other inputs are added, which these signatures cover; and the coins
    chosen for the payment may be the ones that carry the entries.  A payment of
    4 coins together with an entry for the address of a coin of 5: the same coin
    is spent twice and its first signature does not verify. *)
Definition demo_address : Base58.CBase58Data := Base58.SetPubKey false (pub_of (5, true)).
Definition demo_entry_info : CTxInfo := mk_info (mk_infokey Tx.INFO_NORMAL [97]) [98].

Theorem info_inputs_broken :
  match demo_create [([81], 4 * COIN)] [(demo_address, [demo_entry_info])] with
  | Some (ok, x, _, _, _) =>
      ok = true /\ prevout <$> vin (tx_of x) = [mk_outpoint demo_coins_hash 0; mk_outpoint demo_coins_hash 0] /\
      Solve.VerifySignature demo_coins (tx_of x) 0 0 = Some false /\ Solve.VerifySignature demo_coins (tx_of x) 1 0 = Some true
  | None => False
  end.
Proof. vm_compute. repeat split. Qed.

End witnesses.
End Spend.
