(* ===== verification/Stake.v ===== *)
(** * Creating coin stakes (src/src/wallet.cpp: CWallet::CreateCoinStake)

    The search for a kernel among the coins of the wallet, the inputs added to
    it, the reward, and the rounds that set the amounts, sign and check the fee.
    The keys are those of the wallet ([keystore] is the wallet itself in the
    only call).  [None] is an exception. *)

From stdpp Require Import gmap sorting.
From S2P Require Import Prelude Containers Uint256 Bignum Crypto Script Interpreter Serialize Tx Util TxInfo Base58 Signature Key Solver KeyStore Work Block BlockIndex Kernel Coins Ledger MerkleTx Wallet KeyPool WalletOps WalletCache CoinSelect ConnectBlock Mempool Spend.
Import BlockIndex Ledger MerkleTx KeyStores Wallet WalletOps WalletCache CoinSelect Spend.

(** What the search finds: the coin with its transaction and output, the seconds
    to go back, the script of the outputs, and the time of the block. *)
Record found := mk_found {
  fd_tx : CTransaction;
  fd_hash : Z;
  fd_n : nat;
  fd_out : CTxOut;
  fd_back : Z;
  fd_script : list Z;
  fd_blockTime : Z
}.

(** The coin stake while inputs are added: txNew, nCredit and vwtxPrev. *)
Record staking := mk_staking { st_tx : CTransaction; st_credit : Z; st_prev : list CTransaction }.

Module Stake.

Definition nStakeSplitAge : Z := 60 * 60 * 24 * 90.
Definition nMaxStakeSearchInterval : Z := 60.

Definition set_time (t : CTransaction) (n : Z) : CTransaction := mk_tx (nVersion t) n (vin t) (vout t) (nLockTime t) (mint t).
Definition set_value (o : CTxOut) (v : Z) : CTxOut := mk_txout (subCurrency o) v (scriptPubKey o).

Section stake.
Context {B : Tx.Abi} {L : BNLib} {D : DigestLib} {E : ECLib} {G : ECGroup E} {V : EVPLib} (fTestNet : bool) (p : NetParams).
Context (I : index) (nBestHeight nNow : Z) (fuel : nat) (node : Z -> Z).
Context (db : CTxDB) (d : disk) (nBits nSearchInterval : Z) (fShutdown : bool).

(** ** The kernel *)

(** The script of the outputs for a kernel script: [None]: break. *)
Definition kernel_script (s : keystore) (script : list Z) : option (list Z) :=
  let r := Solve.Solver script in
  if negb (Solve.sol_ok r) then None
  else
    match Solve.sol_type r with
    | Solve.TX_PUBKEY => Some script
    | Solve.TX_PUBKEYHASH =>
        h ← head (Solve.sol_sols r);
        match GetKey s (Base58.SetHash160 fTestNet h) Key.Reset with
        | Some (true, key) =>
            pub ← Key.GetPubKey key;
            Script.push_opcode (Script.push_data [] pub) Script.OP_CHECKSIG
        | _ => None
        end
    | _ => None
    end.

(** [for (n = 0; n < min(nSearchInterval, nMaxStakeSearchInterval) && ...; n++)]: a
    kernel with a script that is not supported ends the search of the coin. *)
Fixpoint search_back (cnt : nat) (n : Z) (s : keystore) (nTimeNew : Z) (block : CBlock) (nOffset : Z) (from : CTransaction) (hash : Z) (i : nat) (o : CTxOut)
    : option found :=
  match cnt with
  | O => None
  | S cnt =>
      match Kernel.CheckStakeKernelHash fTestNet p I nBits block nOffset from (mk_outpoint hash (Z.of_nat i)) (u32 (nTimeNew - n)) with
      | None => search_back cnt (n + 1) s nTimeNew block nOffset from hash i o
      | Some _ =>
          script ← kernel_script s (scriptPubKey o);
          Some (mk_found from hash i o n script (Block.GetBlockTime block))
      end
  end.

Definition search_count : nat := Z.to_nat (Z.min nSearchInterval nMaxStakeSearchInterval).

(** The loop over the coins; the outer [None] is an exception. *)
Fixpoint find_kernel (w : CWallet) (nTimeNew : Z) (coins : list coin) : option (option found) :=
  match coins with
  | [] => Some None
  | (h, i) :: coins =>
      x ← mapWallet w !! h;
      hash ← Tx.GetHash (tx_of x);
      let found :=
        txindex ← ReadTxIndex db hash;
        let pos := txi_pos txindex in
        block ← block_ReadFromDisk p d (pos_nFile pos) (pos_nBlockPos pos) false;
        if u32 (nTimeNew - nMaxStakeSearchInterval) <? i64 (Block.GetBlockTime block + nStakeMinAge p) then None
        else
          o ← vout (tx_of x) !! i;
          if fShutdown then None
          else search_back search_count 0 (store w) nTimeNew block (u32 (pos_nTxPos pos - pos_nBlockPos pos)) (tx_of x) hash i o in
      match found with
      | Some k => Some (Some k)
      | None => if fShutdown then Some None else find_kernel w nTimeNew coins
      end
  end.

(** The coin stake with its kernel. *)
Definition with_kernel (k : found) (t : CTransaction) : staking :=
  let t := set_time t (u32 (nTime t - fd_back k)) in
  let t := push_out (new_out 0 (fd_script k)) (push_in (new_in (fd_hash k) (Z.of_nat (fd_n k))) t) in
  let t := if nTime t <? i64 (fd_blockTime k + nStakeSplitAge) then push_out (new_out 0 (fd_script k)) t else t in
  mk_staking t (i64 (0 + nValue (fd_out k))) [fd_tx k].

(** ** More inputs *)

(** One coin: [inl]: break, [inr]: go on. *)
Definition combine_step (w : CWallet) (scriptKernel : list Z) (nCombineThreshold nLimit : Z) (c : coin) (s : staking) : option (staking + staking) :=
  x ← mapWallet w !! c.1;
  o ← vout (tx_of x) !! c.2;
  hash ← Tx.GetHash (tx_of x);
  let t := st_tx s in
  let first_hash := default 0 (prevhash ∘ prevout <$> vin t !! 0%nat) in
  let second_script := default [] (scriptPubKey <$> vout t !! 1%nat) in
  if bool_decide (length (vout t) = 2%nat) && (bool_decide (scriptPubKey o = scriptKernel) || bool_decide (scriptPubKey o = second_script))
     && negb (hash =? first_hash) then
    if 100 <=? Z.of_nat (length (vin t)) then Some (inl s)
    else if nCombineThreshold <? st_credit s then Some (inl s)
    else if nLimit <? i64 (st_credit s + nValue o) then Some (inl s)
    else if nCombineThreshold <? nValue o then Some (inr s)
    else if nTime t <? u32 (nTime (tx_of x) + Work.STAKE_MAX_AGE) then Some (inr s)
    else Some (inr (mk_staking (push_in (new_in hash (Z.of_nat c.2)) t) (i64 (st_credit s + nValue o)) (st_prev s ++ [tx_of x])))
  else Some (inr s).

Fixpoint combine (w : CWallet) (scriptKernel : list Z) (nCombineThreshold nLimit : Z) (coins : list coin) (s : staking) : option staking :=
  match coins with
  | [] => Some s
  | c :: coins =>
      r ← combine_step w scriptKernel nCombineThreshold nLimit c s;
      match r with
      | inl s => Some s
      | inr s => combine w scriptKernel nCombineThreshold nLimit coins s
      end
  end.

(** ** Amounts, signatures and fee *)

Definition set_amounts (nCredit nMinFee : Z) (t : CTransaction) : CTransaction :=
  let v := i64 (nCredit - nMinFee) in
  match vout t with
  | [o0; o1; o2] =>
      let half := Z.quot v 2 in
      Sig.set_vout t [o0; set_value o1 half; set_value o2 (i64 (v - half))]
  | o0 :: o1 :: rest => Sig.set_vout t (o0 :: set_value o1 v :: rest)
  | _ => t
  end.

(** The rounds; the outer [None]: out of fuel.  The result: success, the
    transaction and the fee. *)
Fixpoint fee_loop (n : nat) (s : keystore) (nCredit nMinFee : Z) (prevs : list CTransaction) (t : CTransaction) : option (option (bool * CTransaction * Z)) :=
  match n with
  | O => None
  | S n =>
      match sign_all fTestNet s prevs 0 (set_amounts nCredit nMinFee t) with
      | None => Some None
      | Some (ok, t) =>
          if negb ok then Some (Some (false, t, nMinFee))
          else
            match GetSerializeSize Tx.tx_codec t, Tx.GetMinFee t 1 Tx.GMF_BLOCK with
            | Some nBytes, Some fee =>
                if MAX_BLOCK_SIZE_GEN / 5 <=? nBytes then Some (Some (false, t, nMinFee))
                else if nMinFee <? i64 (fee - MIN_TX_FEE) then fee_loop n s nCredit (i64 (fee - MIN_TX_FEE)) prevs t
                else Some (Some (true, t, nMinFee))
            | _, _ => Some None
            end
      end
  end.

(** ** CreateCoinStake *)

(** The argument -reservebalance, when it is given; [None]: it is not an amount. *)
Definition reserve_balance (arg : option (list Z)) : option Z :=
  match arg with None => Some 0 | Some text => Util.ParseMoney text end.

(** Success, txNew and the wallet. *)
Definition CreateCoinStake (rounds : nat) (rs : nat -> (nat -> Z -> Z) * (nat -> nat -> bool)) (reserveArg : option (list Z)) (txNew : CTransaction) (w : CWallet)
    : option (bool * CTransaction * CWallet) :=
  let nCombineThreshold := Z.quot (Work.GetNextProofOfWorkReward (entry <$> deref I (pindexBest I)) true) 3 in
  let t := Sig.set_vout (Sig.set_vin txNew []) [new_out 0 []] in
  '(nBalance, w) ← GetBalance fTestNet I (nCoinbaseMaturity p) nBestHeight nNow fuel w;
  match reserve_balance reserveArg with
  | None => Some (false, t, w)
  | Some nReserveBalance =>
      if nBalance <=? nReserveBalance then Some (false, t, w)
      else
        let nLimit := i64 (nBalance - nReserveBalance) in
        '(ok, coins, _, w) ← SelectCoins fTestNet I (nCoinbaseMaturity p) nBestHeight nNow fuel node nLimit (nTime t) rs w;
        if negb ok then Some (false, t, w)
        else if bool_decide (coins = []) then Some (false, t, w)
        else
          k ← find_kernel w (nTime t) coins;
          match k with
          | None => Some (false, t, w)
          | Some k =>
              let s := with_kernel k t in
              if (st_credit s =? 0) || (nLimit <? st_credit s) then Some (false, st_tx s, w)
              else
                s ← combine w (scriptPubKey (fd_out k)) nCombineThreshold nLimit coins s;
                match GetCoinAge p db d (st_tx s) with
                | None => Some (false, st_tx s, w)
                | Some nCoinAgeSeconds =>
                    let nReward := Work.GetProofOfStakeReward nCoinAgeSeconds in
                    if nReward =? 0 then Some (false, st_tx s, w)
                    else
                      '(ok, t, nMinFee) ← default None (fee_loop rounds (store w) (i64 (st_credit s + nReward)) 0 (st_prev s) (st_tx s));
                      if negb ok then Some (false, t, w)
                      else Some (negb (nReward <=? nMinFee), t, w)
                end
          end
  end.

End stake.
(** ** What a coin stake is *)

Section staked.
Context {B : Tx.Abi} {L : BNLib} {D : DigestLib} {E : ECLib} {G : ECGroup E} {V : EVPLib} (fTestNet : bool) (p : NetParams).
Context (I : index) (nBestHeight nNow : Z) (fuel : nat) (node : Z -> Z).
Context (db : CTxDB) (d : disk) (nBits nSearchInterval : Z) (fShutdown : bool).

(** *** The wallet is read only *)

Lemma GetAvailableCredit_persist w n c x v x' : GetAvailableCredit fTestNet w I n c x = Some (v, x') -> persist x' = persist x.
Proof.
  unfold GetAvailableCredit. destruct (immature I n x) as [[im y]|] eqn:Him; [|done]. cbn [mbind option_bind].
  apply immature_persist in Him. rewrite <- Him. destruct im; [by intros [= <- <-]|].
  destruct (availableCached y) as [u|]; [destruct c; [by intros [= <- <-]|]|];
    (destruct (available fTestNet w y); [|done]); cbn [mbind option_bind]; by intros [= <- <-].
Qed.

Lemma GetBalance_entries n w v w' : GetBalance fTestNet I n nBestHeight nNow fuel w = Some (v, w') -> uncached w' = uncached w.
Proof.
  unfold GetBalance. generalize (wallet_keys w), 0. intros l. revert w. induction l as [|h l IH]; intros w acc; cbn [sum_wallet]; [by intros [= <- <-]|].
  destruct (mapWallet w !! h) as [x|] eqn:Hx; [|done]. cbn [mbind option_bind].
  destruct (balance_of _ _ _ _ _ _ w x) as [[a x']|] eqn:Hb; [|done]. cbn [mbind option_bind]. intros Hs. rewrite (IH _ _ Hs).
  apply (uncached_set w h x); [done|]. unfold balance_of in Hb. destruct (confirmed _ _ _ _ _ w x) as [[c y]|] eqn:Hc; [|done].
  cbn [mbind option_bind] in Hb. apply confirmed_persist in Hc. rewrite <- Hc. destruct (negb c); [by injection Hb as _ <-|].
  by apply GetAvailableCredit_persist in Hb.
Qed.

(** *** The kernel *)

Definition kernel_coin (k : found) : coin := (fd_hash k, fd_n k).

(** Coin [c] is a kernel at time [nTimeTx]. *)
Definition is_kernel (w : CWallet) (c : coin) (nTimeTx : Z) : Prop :=
  exists x txindex block, mapWallet w !! c.1 = Some x /\ ReadTxIndex db c.1 = Some txindex /\
    block_ReadFromDisk p d (pos_nFile (txi_pos txindex)) (pos_nBlockPos (txi_pos txindex)) false = Some block /\
    is_Some (Kernel.CheckStakeKernelHash fTestNet p I nBits block (u32 (pos_nTxPos (txi_pos txindex) - pos_nBlockPos (txi_pos txindex)))
      (tx_of x) (mk_outpoint c.1 (Z.of_nat c.2)) nTimeTx).

Lemma search_back_spec s nTimeNew block off from hash i o cnt : forall n k,
  search_back fTestNet p I nBits cnt n s nTimeNew block off from hash i o = Some k ->
  fd_tx k = from /\ fd_hash k = hash /\ fd_n k = i /\ fd_out k = o /\
  is_Some (Kernel.CheckStakeKernelHash fTestNet p I nBits block off from (mk_outpoint hash (Z.of_nat i)) (u32 (nTimeNew - fd_back k))).
Proof.
  induction cnt as [|cnt IH]; intros n k; cbn [search_back]; [done|].
  destruct (Kernel.CheckStakeKernelHash _ _ _ _ _ _ _ _ _) as [hp|] eqn:Hk; [|apply IH].
  destruct (kernel_script _ _ _) as [sc|]; cbn [mbind option_bind]; [|done]. intros [= <-]. cbn. rewrite Hk. eauto.
Qed.

Lemma find_kernel_spec w nTimeNew coins : filed w -> forall k,
  find_kernel fTestNet p I db d nBits nSearchInterval fShutdown w nTimeNew coins = Some (Some k) ->
  kernel_coin k ∈ coins /\ is_kernel w (kernel_coin k) (u32 (nTimeNew - fd_back k)) /\
  exists x, mapWallet w !! fd_hash k = Some x /\ fd_tx k = tx_of x /\ vout (tx_of x) !! fd_n k = Some (fd_out k).
Proof.
  intros Hf. induction coins as [|[h i] coins IH]; intros k; cbn [find_kernel]; [done|].
  destruct (mapWallet w !! h) as [x|] eqn:Hx; [|done]. cbn [mbind option_bind]. rewrite (Hf h x Hx). cbn [mbind option_bind].
  match goal with |- context [match ?e with Some k => Some (Some k) | None => _ end] => destruct e as [k'|] eqn:He end.
  - intros [= <-]. destruct (ReadTxIndex db h) as [ti|] eqn:Hti; [|done]. cbn [mbind option_bind] in He.
    destruct (block_ReadFromDisk _ _ _ _ _) as [block|] eqn:Hb; [|done]. cbn [mbind option_bind] in He. destruct (_ <? _); [done|].
    destruct (vout (tx_of x) !! i) as [o|] eqn:Ho; [|done]. cbn [mbind option_bind] in He. destruct fShutdown; [done|].
    apply search_back_spec in He as (E1 & E2 & E3 & E4 & Hk). unfold kernel_coin. rewrite E1, E2, E3, E4. split; [left|].
    split; [exists x, ti, block; done|]. eauto.
  - destruct fShutdown; [done|]. intros Hk. destruct (IH k Hk) as (Hin & Hr). split; [by right|done].
Qed.

(** *** The inputs *)

Definition coin_in (c : coin) : CTxIn := new_in c.1 (Z.of_nat c.2).

(** The coin stake with the kernel [k] and other coins. *)
Record inputs_of (w : CWallet) (k : found) (coins : list coin) (base : CTransaction) (s : staking) (added : list coin) : Prop := {
  ip_sub : added `sublist_of` coins;
  ip_other : Forall (fun c => c.1 <> fd_hash k) added;
  ip_vin : vin (st_tx s) = coin_in <$> kernel_coin k :: added;
  ip_base : vout (st_tx s) = vout base /\ nTime (st_tx s) = nTime base;
  ip_credit : st_credit s = sumZ (coin_value w <$> kernel_coin k :: added);
  ip_range : 0 <= st_credit s <= MAX_TOTAL;
  ip_prev : Forall2 (fun c t => exists x, mapWallet w !! c.1 = Some x /\ t = tx_of x) (kernel_coin k :: added) (st_prev s)
}.

Lemma combine_step_spec w k done todo base thr lim c s r added :
  filed w -> amounts_valid w -> lim <= MAX_TOTAL -> inputs_of w k done base s added ->
  combine_step w (scriptPubKey (fd_out k)) thr lim c s = Some r ->
  exists s' added', (r = inl s' \/ r = inr s') /\ inputs_of w k (done ++ c :: todo) base s' added' /\
    (forall s2, r = inr s2 -> inputs_of w k (done ++ [c]) base s2 added').
Proof.
  intros Hf [Hn Ht] Hlim Hi. assert (forall more, inputs_of w k (done ++ more) base s added) as Hsame.
  { intros more. destruct Hi as [H1 H2 H3 H4 H5 H6 H7]. split; try done. by apply sublist_inserts_r. }
  unfold combine_step. destruct (mapWallet w !! c.1) as [x|] eqn:Hx; [|done]. cbn [mbind option_bind].
  destruct (vout (tx_of x) !! c.2) as [o|] eqn:Ho; [|done]. cbn [mbind option_bind]. rewrite (Hf _ _ Hx). cbn [mbind option_bind].
  assert (forall r, Some (inl s) = Some r \/ Some (inr s) = Some r -> exists s' added', (r = inl s' \/ r = inr s') /\
    inputs_of w k (done ++ c :: todo) base s' added' /\ (forall s2, r = inr s2 -> inputs_of w k (done ++ [c]) base s2 added')) as Hstay.
  { intros r' Hr. exists s, added. split; [naive_solver|]. split; [done|]. intros s2 ->. destruct Hr as [Hr|Hr]; [done|]. by injection Hr as <-. }
  destruct Hi as [H1 H2 H3 [H4 H4'] H5 H6 H7]. rewrite H3. cbn [fmap list_fmap lookup list_lookup option_fmap option_map default compose kernel_coin].
  destruct (_ && _ && negb _) eqn:Hc; [|intros Hr; apply Hstay; by right]. apply andb_true_iff in Hc as [_ Hne].
  cbn in Hne. apply negb_true_iff, Z.eqb_neq in Hne.
  destruct (100 <=? _); [intros Hr; apply Hstay; by left|]. destruct (thr <? _); [intros Hr; apply Hstay; by left|].
  assert (o ∈ vout (tx_of x)) as Hox by (by eapply list_elem_of_lookup_2).
  pose proof (Hn _ _ _ Hx Hox) as Hv0. pose proof (out_le_total w _ _ _ Hx Hox) as Hv1.
  assert (i64 (st_credit s + nValue o) = st_credit s + nValue o) as -> by (apply i64_small; unfold MAX_TOTAL in *; lia).
  destruct (Z.ltb_spec lim (st_credit s + nValue o)) as [|Hle]; [intros Hr; apply Hstay; by left|].
  destruct (thr <? nValue o); [intros Hr; apply Hstay; by right|]. destruct (_ <? u32 _); [intros Hr; apply Hstay; by right|].
  intros [= <-]. set (s' := mk_staking _ _ _). exists s', (added ++ [c]).
  assert (inputs_of w k (done ++ [c]) base s' (added ++ [c])) as Hnew.
  { split; cbn [s' st_tx st_credit st_prev push_in Sig.set_vin vin vout nTime].
    - by apply sublist_app.
    - apply Forall_app. split; [done|]. by apply Forall_singleton.
    - rewrite H3. cbn. rewrite fmap_app. done.
    - done.
    - rewrite app_comm_cons, fmap_app, sumZ_app, <- H5. cbn. unfold coin_value. rewrite Hx. cbn. rewrite Ho. lia.
    - lia.
    - rewrite app_comm_cons. apply Forall2_app; [done|]. constructor; [eauto|constructor]. }
  split; [by right|]. split; [|intros s2 [= <-]; done]. destruct Hnew as [N1 N2 N3 N4 N5 N6 N7]. split; try done.
  rewrite (cons_middle c done todo), app_assoc. by apply sublist_inserts_r.
Qed.

Lemma combine_spec w k base thr lim coins : filed w -> amounts_valid w -> lim <= MAX_TOTAL -> forall done s s' added,
  inputs_of w k done base s added -> combine w (scriptPubKey (fd_out k)) thr lim coins s = Some s' ->
  exists added', inputs_of w k (done ++ coins) base s' added'.
Proof.
  intros Hf Ha Hlim. induction coins as [|c coins IH]; intros done s s' added Hi; cbn [combine].
  { intros [= <-]. exists added. by rewrite app_nil_r. }
  destruct (combine_step w _ thr lim c s) as [r|] eqn:Hr; [|discriminate]. cbn [mbind option_bind].
  destruct (combine_step_spec w k done coins base thr lim c s r added Hf Ha Hlim Hi Hr) as (s2 & added2 & Hr2 & Hi2 & Hnext).
  destruct r as [s3|s3].
  - intros [= <-]. destruct Hr2 as [[= <-]|[=]]. by exists added2.
  - intros Hc. destruct (IH (done ++ [c]) s3 s' added2 (Hnext s3 eq_refl) Hc) as (added3 & Hi3). exists added3. by rewrite (cons_middle c done coins), app_assoc.
Qed.

(** *** Amounts *)

(** An empty output, and one or two for the stake. *)
Definition stake_outs (l : list CTxOut) : Prop :=
  exists o0 o1, Tx.txout_IsEmpty o0 = true /\ (l = [o0; o1] \/ exists o2, l = [o0; o1; o2]).

Lemma set_amounts_out c f t : stake_outs (vout t) -> - 2 ^ 62 <= c - f <= 2 ^ 62 ->
  total_out (set_amounts c f t) = c - f /\ stake_outs (vout (set_amounts c f t)).
Proof.
  intros (o0 & o1 & He & Ho) Hr. unfold Tx.txout_IsEmpty in He. pose proof He as He'. apply andb_true_iff in He' as [H0 _]. apply Z.eqb_eq in H0.
  unfold set_amounts, total_out. rewrite (i64_small (c - f)) by lia. destruct Ho as [->|[o2 ->]]; cbn [Sig.set_vout vout].
  - cbn. split; [lia|]. exists o0, (set_value o1 (c - f)). auto.
  - assert (- 2 ^ 61 - 1 <= Z.quot (c - f) 2 <= 2 ^ 61 + 1) as Hq by (pose proof (Z.quot_rem' (c - f) 2); pose proof (Z.rem_bound_abs (c - f) 2 ltac:(lia)); lia).
    rewrite (i64_small (c - f - Z.quot (c - f) 2)) by lia. cbn. split; [lia|]. exists o0, (set_value o1 (Z.quot (c - f) 2)). eauto.
Qed.

Lemma set_amounts_idem c f f' t : stake_outs (vout t) -> set_amounts c f (set_amounts c f' t) = set_amounts c f t.
Proof. intros (o0 & o1 & _ & [Ho|[o2 Ho]]); unfold set_amounts; rewrite Ho; done. Qed.

Lemma set_amounts_unsigned c f t : unsigned (set_amounts c f t) = set_amounts c f (unsigned t).
Proof. unfold set_amounts. cbn [unsigned Sig.set_vin vout]. destruct (vout t) as [|o0 [|o1 [|o2 [|o3 r]]]]; done. Qed.

Lemma set_amounts_rest c f t : vin (set_amounts c f t) = vin t /\ nTime (set_amounts c f t) = nTime t.
Proof. unfold set_amounts. destruct (vout t) as [|o0 [|o1 [|o2 [|o3 r]]]]; done. Qed.

Lemma fee_loop_spec s c prevs n : - 2 ^ 61 <= c <= 2 ^ 61 + 2 ^ 60 -> forall f t, stake_outs (vout t) -> 0 <= f <= MAX_MONEY ->
  ((Z.to_nat (MAX_MONEY - f) < n)%nat -> fee_loop fTestNet n s c f prevs t <> None) /\
  (forall t' f', fee_loop fTestNet n s c f prevs t = Some (Some (true, t', f')) ->
    unsigned t' = set_amounts c f' (unsigned t) /\ 0 <= f' <= MAX_MONEY /\
    (exists fee, Tx.GetMinFee t' 1 Tx.GMF_BLOCK = Some fee /\ fee - MIN_TX_FEE <= f') /\
    (forall k from, prevs !! k = Some from -> Solve.VerifySignature from t' k 0 = Some true)).
Proof.
  intros Hc. induction n as [|n IH]; intros f t Hs Hf; cbn [fee_loop]; [split; [lia|intros ?? [=]]|].
  destruct (sign_all _ s prevs 0 _) as [[ok t1]|] eqn:Hsa; [|split; [discriminate|intros ?? [=]]].
  destruct ok; cbn [negb]; [|split; [discriminate|intros ?? [=]]]. apply sign_all_ok in Hsa as (Hu & _ & Hv).
  destruct (GetSerializeSize Tx.tx_codec t1) as [nb|]; [|split; [discriminate|intros ?? [=]]].
  destruct (Tx.GetMinFee t1 1 Tx.GMF_BLOCK) as [fee|] eqn:Hm; [|split; [discriminate|intros ?? [=]]].
  destruct (_ <=? nb); [split; [discriminate|intros ?? [=]]|]. pose proof (GetMinFee_range _ _ _ _ Hm) as Hr.
  rewrite i64_small by (unfold MIN_TX_FEE, MAX_MONEY, CENT, COIN in *; lia).
  rewrite set_amounts_unsigned in Hu.
  destruct (Z.ltb_spec f (fee - MIN_TX_FEE)) as [Hlt|Hge].
  - assert (vout t1 = vout (set_amounts c f t)) as Hvo by (apply unsigned_vout; by rewrite Hu, set_amounts_unsigned).
    assert (0 <= fee - MIN_TX_FEE <= MAX_MONEY) as Hf1 by (unfold MIN_TX_FEE, CENT in *; lia).
    destruct (IH (fee - MIN_TX_FEE) t1) as [Ht Hp]; [|done|].
    { rewrite Hvo. apply set_amounts_out; [done|]. unfold MAX_MONEY, COIN in *. lia. }
    split; [intros Hn; apply Ht; lia|]. intros t' f' Hfl. destruct (Hp t' f' Hfl) as (Hu' & Hf' & Hfee & Hver).
    split; [|done]. rewrite Hu', Hu. by apply set_amounts_idem.
  - split; [discriminate|]. intros t' f' [= <- <-]. split; [done|]. split; [done|]. split; [eauto|]. intros k from Hk. by apply (Hv k).
Qed.

Lemma GetCoinAge_same t t' : prevout <$> vin t = prevout <$> vin t' -> nTime t = nTime t' -> Tx.IsCoinBase t = Tx.IsCoinBase t' ->
  GetCoinAge p db d t = GetCoinAge p db d t'.
Proof.
  intros Hv Ht Hc. unfold GetCoinAge. rewrite Hc. destruct (Tx.IsCoinBase t'); [done|].
  assert (forall acc, foldl (coin_age_step p db d t) acc (vin t) = foldl (coin_age_step p db d t') acc (vin t')) as He; [|by rewrite He].
  revert Hv. generalize (vin t), (vin t'). clear Hc. intros l. induction l as [|i l IH]; intros [|i' l'] Hv acc; cbn in Hv; try done.
  injection Hv as Hi Hv. cbn [foldl]. assert (coin_age_step p db d t acc i = coin_age_step p db d t' acc i') as ->; [|by apply IH].
  unfold coin_age_step. by rewrite Hi, Ht.
Qed.

Lemma reward_range a : - 2 ^ 40 <= Work.GetProofOfStakeReward a <= 2 ^ 40.
Proof.
  unfold Work.GetProofOfStakeReward. cbv zeta. pose proof (i64_range (i64 (CENT * a) * 33)) as Hr. set (x := i64 _) in *. clearbody x.
  rewrite !Z.quot_quot by lia. change (60 * (60 * (24 * (365 * 33 + 8)))) with 1041379200.
  pose proof (Z.quot_rem' x 1041379200). pose proof (Z.rem_bound_abs x 1041379200 ltac:(lia)). lia.
Qed.

(** *** CreateCoinStake *)

(** A coin stake made from the coins of [w] for the time [nTimeNew]. *)
Record staked (w : CWallet) (nTimeNew : Z) (t : CTransaction) : Prop := {
  sk_stake : Tx.IsCoinStake t = true;
  sk_reward : exists age fee minfee, GetCoinAge p db d t = Some age /\ Tx.GetMinFee t 1 Tx.GMF_BLOCK = Some minfee /\
    minfee - MIN_TX_FEE <= fee < Work.GetProofOfStakeReward age /\ 0 <= fee /\
    total_out t = total_in w t + Work.GetProofOfStakeReward age - fee;
  sk_kernel : exists i, vin t !! 0%nat = Some i /\ is_kernel w (prevhash (prevout i), Z.to_nat (out_n (prevout i))) (nTime t);
  sk_coins : exists coins, prevout <$> vin t = prevout ∘ coin_in <$> coins /\ NoDup coins /\ Forall (free_coin nTimeNew w) coins;
  sk_signed : forall k i, vin t !! k = Some i ->
    exists x, mapWallet w !! prevhash (prevout i) = Some x /\ Solve.VerifySignature (tx_of x) t k 0 = Some true
}.

Lemma is_kernel_same w u c n : same_entries u w -> is_kernel u c n -> is_kernel w c n.
Proof.
  intros He (x & ti & block & Hx & Hr). destruct (same_entry w u _ _ He Hx) as (y & Hy & Hp). exists y, ti, block.
  rewrite <- (persist_tx x y Hp). done.
Qed.

Lemma kernel_inputs w k t coins : filed w -> amounts_valid w -> vin t = [] -> vout t = [new_out 0 []] ->
  (exists x, mapWallet w !! fd_hash k = Some x /\ fd_tx k = tx_of x /\ vout (tx_of x) !! fd_n k = Some (fd_out k)) ->
  inputs_of w k coins (st_tx (with_kernel k t)) (with_kernel k t) [] /\ stake_outs (vout (st_tx (with_kernel k t))) /\
  nTime (st_tx (with_kernel k t)) = u32 (nTime t - fd_back k).
Proof.
  intros Hf [Hn Ht] Hvi Hvo (x & Hx & Htx & Ho). unfold with_kernel. set (t1 := push_out _ (push_in _ (set_time t _))).
  assert (vin t1 = [coin_in (kernel_coin k)]) as Hv1 by (cbn; by rewrite Hvi).
  assert (vout t1 = [new_out 0 []; new_out 0 (fd_script k)]) as Ho1 by (cbn; by rewrite Hvo).
  assert (fd_out k ∈ vout (tx_of x)) as Hox by (by eapply list_elem_of_lookup_2).
  pose proof (Hn _ _ _ Hx Hox) as Hv0. pose proof (out_le_total w _ _ _ Hx Hox) as Hvt.
  rewrite Z.add_0_l, (i64_small (nValue (fd_out k))) by (unfold MAX_TOTAL in *; lia). cbn [st_tx].
  assert (vin (if nTime t1 <? i64 (fd_blockTime k + nStakeSplitAge) then push_out (new_out 0 (fd_script k)) t1 else t1) = [coin_in (kernel_coin k)]) as Hv2
    by (destruct (_ <? _); done).
  split; [|split].
  - split; cbn [st_tx st_credit st_prev]; [apply sublist_nil_l|constructor|done|done| |lia|].
    + cbn. unfold coin_value. cbn. rewrite Hx. cbn. rewrite Ho. lia.
    + constructor; [|constructor]. exists x. done.
  - destruct (_ <? _); [exists (new_out 0 []), (new_out 0 (fd_script k)); split; [done|right; exists (new_out 0 (fd_script k)); cbn; by rewrite Hvo]|].
    exists (new_out 0 []), (new_out 0 (fd_script k)). split; [done|]. by left.
  - by destruct (_ <? _).
Qed.

(** From the inputs and the amounts to the coin stake. *)
Lemma staked_of w u k base coins s added c f t age nTimeNew :
  same_entries u w -> filed u -> amounts_valid u -> mapWallet w !! 0 = None ->
  free_choice nTimeNew w coins c -> kernel_coin k ∈ coins -> is_kernel u (kernel_coin k) (nTime base) ->
  stake_outs (vout base) -> inputs_of u k coins base s added ->
  GetCoinAge p db d (st_tx s) = Some age -> 0 <= f < Work.GetProofOfStakeReward age -> f <= MAX_MONEY ->
  unsigned t = set_amounts (st_credit s + Work.GetProofOfStakeReward age) f (unsigned (st_tx s)) ->
  (exists fee, Tx.GetMinFee t 1 Tx.GMF_BLOCK = Some fee /\ fee - MIN_TX_FEE <= f) ->
  (forall k from, st_prev s !! k = Some from -> Solve.VerifySignature from t k 0 = Some true) ->
  staked w nTimeNew t.
Proof.
  intros Hse Hf Ha H0 Hfree Hkc Hker Hso [I1 I2 I3 [I4 I4'] I5 I6 I7] Hage Hfr Hfm Hu (minfee & Hmf & Hmf') Hver.
  set (c2 := st_credit s + Work.GetProofOfStakeReward age) in *. pose proof (reward_range age) as Hrr.
  destruct (set_amounts_rest c2 f (unsigned (st_tx s))) as [Hr1 Hr2].
  assert (unsigned_in <$> vin t = unsigned_in <$> vin (st_tx s)) as Hvi by (apply (f_equal vin) in Hu; by rewrite Hr1 in Hu).
  assert (prevout <$> vin t = prevout <$> vin (st_tx s)) as Hpv.
  { apply (f_equal (fmap prevout)) in Hvi. rewrite <- !list_fmap_compose in Hvi. exact Hvi. }
  assert (nTime t = nTime base) as Hti by (apply (f_equal nTime) in Hu; rewrite Hr2 in Hu; cbn in Hu; congruence).
  destruct (set_amounts_out c2 f (unsigned (st_tx s))) as [Hto Hst];
    [cbn; by rewrite I4|unfold c2, MAX_TOTAL, MAX_MONEY, COIN in *; lia|].
  assert (vout t = vout (set_amounts c2 f (unsigned (st_tx s)))) as Hvo by (apply (f_equal vout) in Hu; exact Hu).
  assert (prevout <$> vin t = prevout ∘ coin_in <$> kernel_coin k :: added) as Hpc by (rewrite Hpv, I3, <- list_fmap_compose; done).
  assert (total_in w t = st_credit s) as Hin.
  { rewrite I5. unfold total_in. assert (in_value w <$> vin t = coin_value u <$> kernel_coin k :: added) as ->; [|done].
    transitivity ((fun o => coin_value w (prevhash o, Z.to_nat (out_n o))) <$> (prevout <$> vin t)); [by rewrite <- list_fmap_compose|].
    rewrite Hpc, <- list_fmap_compose. apply list_fmap_ext. intros _ [h n] _. cbn. rewrite Nat2Z.id. symmetry. by apply coin_value_same. }
  destruct (vin t) as [|i0 vrest] eqn:Evt; [done|].
  assert (prevout i0 = mk_outpoint (fd_hash k) (Z.of_nat (fd_n k))) as Hi0 by (by injection Hpc).
  assert (fd_hash k <> 0) as Hk0.
  { intros Hk0. apply Forall2_cons_inv_l in I7 as (t1 & prevs & (x & Hx & _) & _). cbn in Hx. rewrite Hk0 in Hx.
    destruct (same_entry w u _ _ Hse Hx) as (y & Hy & _). by rewrite H0 in Hy. }
  destruct Hst as (o0 & o1 & He0 & Hol). rewrite <- Hvo in Hol.
  assert (Tx.IsCoinStake t = true) as Hcs.
  { unfold Tx.IsCoinStake. rewrite Evt. unfold Tx.outpoint_IsNull. rewrite Hi0. cbn. rewrite (proj2 (Z.eqb_neq _ 0)) by done.
    by destruct Hol as [->|[o2 ->]]. }
  split; rewrite ?Evt.
  - done.
  - exists age, f, minfee. split; [|split; [done|split; [lia|split; [lia|]]]].
    + rewrite <- Hage. apply GetCoinAge_same; [by rewrite Evt|congruence|]. unfold Tx.IsCoinBase. rewrite Evt, I3.
      destruct Hso as (b0 & b1 & _ & Hb). rewrite I4. rewrite I3 in Hpv. destruct vrest as [|j r], added as [|a r']; cbn in Hpv; try done.
      injection Hpv as ->. destruct Hol as [->|[? ->]], Hb as [->|[? ->]]; done.
    + rewrite Hin. unfold total_out. rewrite Hvo. fold (total_out (set_amounts c2 f (unsigned (st_tx s)))). rewrite Hto. unfold c2. lia.
  - exists i0. split; [done|]. rewrite Hi0, Hti. cbn. rewrite Nat2Z.id. by apply (is_kernel_same w u).
  - exists (kernel_coin k :: added). split; [by rewrite Hpc|]. destruct Hfree as [F1 F2 _]. rewrite Forall_forall in F2.
    assert (forall a, a ∈ added -> a ∈ coins) as Hsub by (intros a Ha'; by apply (sublist_subseteq _ _ I1)).
    split; [constructor; [|by eapply sublist_NoDup]|constructor; [by apply F2|apply Forall_forall; auto]].
    intros Hka. rewrite Forall_forall in I2. by apply (I2 _ Hka).
  - intros j i Hj. assert ((prevout ∘ coin_in <$> kernel_coin k :: added) !! j = Some (prevout i)) as Hpj.
    { rewrite <- Hpc, list_lookup_fmap, Hj. done. }
    rewrite list_lookup_fmap in Hpj. destruct ((kernel_coin k :: added) !! j) as [cj|] eqn:Hcj; [|done]. injection Hpj as Hpi.
    destruct (Forall2_lookup_l _ _ _ _ _ I7 Hcj) as (from & Hfrom & x & Hx & ->). destruct (same_entry w u _ _ Hse Hx) as (y & Hy & Hp).
    exists y. rewrite <- Hpi. split; [done|]. rewrite <- (persist_tx x y Hp). by apply Hver.
Qed.

(** C17: CreateCoinStake, when it succeeds, leaves a coin stake: its first input is a
    kernel of the current difficulty at its time, its inputs are distinct unspent
    coins of the wallet whose signatures verify, and it pays out what it spends
    plus the reward for its coin age, less a fee below the reward that covers the
    minimum.  The transactions of the wallet do not change.  The rounds that
    raise the fee end. *)
Theorem CreateCoinStake_stakes rounds rs reserveArg txNew w :
  amounts_valid w -> filed w -> mapWallet w !! 0 = None ->
  (forall n w1 r, GetBalance fTestNet I (nCoinbaseMaturity p) nBestHeight nNow fuel w = Some (n, w1) -> reserve_balance reserveArg = Some r -> n - r <= MAX_TOTAL) ->
  (forall t w', CreateCoinStake fTestNet p I nBestHeight nNow fuel node db d nBits nSearchInterval fShutdown rounds rs reserveArg txNew w = Some (true, t, w') ->
     staked w (nTime txNew) t /\ same_entries w' w) /\
  (forall s c prevs t, - 2 ^ 61 <= c <= 2 ^ 61 + 2 ^ 60 -> stake_outs (vout t) -> (Z.to_nat MAX_MONEY < rounds)%nat ->
     fee_loop fTestNet rounds s c 0 prevs t <> None).
Proof.
  intros Ha Hf H0 Hbal. split; [|intros s c prevs t Hc Ht Hn; apply (fee_loop_spec s c prevs rounds Hc 0 t Ht); [unfold MAX_MONEY, COIN; lia|by rewrite Z.sub_0_r]].
  intros t w'. unfold CreateCoinStake. set (t0 := Sig.set_vout _ _).
  destruct (GetBalance _ _ _ _ _ _ w) as [[nBalance w1]|] eqn:Hb; [|done]. cbn [mbind option_bind]. specialize (Hbal nBalance w1).
  apply GetBalance_entries in Hb. destruct (reserve_balance reserveArg) as [nRes|]; [|done]. specialize (Hbal nRes eq_refl eq_refl).
  destruct (Z.leb_spec nBalance nRes) as [|Hlt]; [done|]. rewrite (i64_small (nBalance - nRes)) by (unfold MAX_TOTAL in *; lia).
  set (lim := nBalance - nRes) in *. assert (same_entries w1 w) as Hs1 by (by apply uncached_entries).
  destruct (SelectCoins _ _ _ _ _ _ _ _ _ _ w1) as [[[[ok coins] v] w2]|] eqn:Hsel; [|done]. cbn [mbind option_bind].
  apply SelectCoins_sound in Hsel as [Hu2 Hfc]; [|unfold lim, MAX_TOTAL in *; lia|rewrite (wallet_total_same w w1 Hs1); apply Ha].
  destruct ok; cbn [negb]; [|done]. destruct (Hfc eq_refl) as [Hfree _]. destruct (bool_decide _); [done|].
  assert (same_entries w2 w) as Hs2 by (unfold same_entries; rewrite <- Hs1; by apply uncached_entries).
  pose proof (spend_filed_same w w2 Hs2 Hf) as Hf2. pose proof (amounts_valid_same w w2 Hs2 Ha) as Ha2.
  destruct (find_kernel _ _ _ _ _ _ _ _ w2 _ coins) as [[k|]|] eqn:Hk; cbn [mbind option_bind]; [|done|done].
  apply find_kernel_spec in Hk as (Hkc & Hker & Hkx); [|done].
  destruct (kernel_inputs w2 k t0 [] Hf2 Ha2 eq_refl eq_refl Hkx) as (Hin & Hso & Hti).
  destruct (_ || _); [done|]. set (base := st_tx (with_kernel k t0)) in *.
  destruct (combine _ _ _ _ coins _) as [s|] eqn:Hco; [|done]. cbn [mbind option_bind].
  apply (combine_spec w2 k base) with (done := []) (added := []) in Hco as (added & Hi); [|done|done|unfold lim; lia|done].
  destruct (GetCoinAge p db d (st_tx s)) as [age|] eqn:Hage; [|done]. cbv zeta. destruct (_ =? 0); [done|].
  pose proof (reward_range age) as Hrr. pose proof (ip_range _ _ _ _ _ _ Hi) as Hcr. pose proof (proj1 (ip_base _ _ _ _ _ _ Hi)) as Hvb.
  rewrite i64_small by (unfold MAX_TOTAL in *; lia).
  destruct (fee_loop_spec (store w2) (st_credit s + Work.GetProofOfStakeReward age) (st_prev s) rounds) with (f := 0) (t := st_tx s) as [_ Hfl];
    [unfold MAX_TOTAL in *; lia|by rewrite Hvb|unfold MAX_MONEY, COIN; lia|].
  destruct (fee_loop _ rounds _ _ _ _ _) as [[[[ok t'] f']|]|]; [|done|done]. cbn [default id mbind option_bind].
  destruct ok; cbn [negb]; [|done]. intros [= Hrf <- <-]. apply negb_true_iff, Z.leb_gt in Hrf.
  destruct (Hfl t' f' eq_refl) as (Hu & Hf' & Hmin & Hver). split; [|done].
  eapply (staked_of w w2 k base coins s added v f' t' age); try done; [by apply (free_choice_same w w1)|by rewrite Hti|lia|lia].
Qed.

End staked.
(** ** A coin stake *)

Section witnesses.
#[local] Existing Instance bn_reference.
#[local] Existing Instance toy_digests.
#[local] Existing Instance Tx.demo_abi.
#[local] Existing Instance toy_ec.
#[local] Existing Instance toy_group.
#[local] Existing Instance toy_evp.

Definition demo_stake_db : CTxDB := mk_txdb {[ demo_coins_hash := mk_txindex (mk_pos 1 0 100) [pos_null; pos_null; pos_null] ]} ∅ None.
Definition demo_stake_disk : disk := mk_diskfiles {[ (1, 100) := demo_coins ]} {[ (1, 0) := mk_block 1 0 0 200 0 0 [] [] ]}.
Definition demo_stake_new : CTransaction := mk_tx TT_NORMAL 10000000 [] [] 0 Tx.no_mint.

Definition demo_stake : option (bool * CTransaction * CWallet) :=
  CreateCoinStake false Ledger.demo_net demo_blocks 9 20000000 5 id demo_stake_db demo_stake_disk 0x207fffff 10 false 5 demo_rs None demo_stake_new demo_rich.

Lemma demo_stake_made : (fun r => (r.1.1, total_out r.1.2)) <$> demo_stake = Some (true, 5 * COIN + 15844).
Proof. vm_compute. reflexivity. Qed.

Lemma demo_balance : fst <$> GetBalance false demo_blocks (nCoinbaseMaturity Ledger.demo_net) 9 20000000 5 demo_rich = Some (10 * COIN).
Proof. vm_compute. reflexivity. Qed.

Lemma CreateCoinStake_stakes_witness :
  exists t w', demo_stake = Some (true, t, w') /\ Tx.IsCoinStake t = true /\ total_out t = 5 * COIN + 15844.
Proof.
  pose proof demo_stake_made as Hm. destruct demo_stake as [[[ok t] w']|] eqn:Hs; [|discriminate Hm].
  cbn [fmap option_fmap option_map fst snd] in Hm. injection Hm as Hok Ho. subst ok. exists t, w'. split; [reflexivity|].
  destruct (CreateCoinStake_stakes false Ledger.demo_net demo_blocks 9 20000000 5 id demo_stake_db demo_stake_disk 0x207fffff 10 false 5 demo_rs None demo_stake_new demo_rich
    (proj1 demo_rich_ok) (proj2 demo_rich_ok)) as [Hst _].
  - vm_compute. reflexivity.
  - intros n w1 r Hb Hr. pose proof demo_balance as Hd. rewrite Hb in Hd. cbn in Hd. injection Hd as Hd. cbn in Hr. injection Hr as <-.
    rewrite Hd. vm_compute. discriminate.
  - destruct (Hst t w' Hs) as [Hk _]. split; [exact (sk_stake _ _ _ _ _ _ _ _ _ Hk)|exact Ho].
Defined.

End witnesses.
End Stake.
