(* ===== verification/Commit.v ===== *)
(** * Committing transactions (src/src/wallet.cpp, src/src/main.cpp)

    CWallet::CommitTransaction records a created transaction in the wallet and
    puts it into the memory pool; SendMoney creates and commits one.  Also the
    amounts of a transaction (GetAmounts, GetAccountAmounts), and the
    operations that bring transactions of the wallet back into the pool.  The
    relay to the peers is left out.  [None] is an exception. *)

From Stdlib Require Import SpecFloat.
From stdpp Require Import gmap sorting.
From S2P Require Import Prelude Containers Uint256 Bignum Crypto Script Interpreter Serialize Tx TxInfo Base58 Signature Key Solver KeyStore Work Block BlockIndex Kernel Coins Ledger MerkleTx Wallet KeyPool WalletOps WalletCache CoinSelect ConnectBlock Mempool Spend Stake.
Import BlockIndex Ledger MerkleTx KeyStores Wallet WalletOps WalletCache CoinSelect Mempool.

(** What the memory pool keeps: the pool, the rate limiter and the store of
    information entries. *)
Record relay := mk_relay { rl_pool : CTxMemPool; rl_limiter : limiter; rl_infos : CTxInfoStore }.

(** What SendMoney returns: the empty string, or one of its messages. *)
Inductive sent := Sent | WalletLocked | MintingOnly | FeeTooHigh | CreationFailed | Aborted | TxRejected | InvalidAmount | InsufficientFunds.

Module Commit.

Section amounts.
Context {B : Tx.Abi} {L : BNLib} {D : DigestLib} {E : ECLib} {G : ECGroup E} {V : EVPLib} (fTestNet : bool).
Context (w : CWallet) (I : index) (nCoinbaseMaturity : Z).

Definition GetTxTime (x : CWalletTx) : Z := nTimeReceived x.

(** -1 if it was not tracked. *)
Definition GetRequestCount (x : CWalletTx) : option Z :=
  let count h := mapRequestCount w !! h in
  let hb := hashBlock (wtx x) in
  if generated (tx_of x) then Some (if negb (hb =? 0) then default (-1) (count hb) else -1)
  else
    hash ← Tx.GetHash (tx_of x);
    Some (match count hash with
          | None => -1
          | Some n => if (n =? 0) && negb (hb =? 0) then default 1 (count hb) else n
          end).

(** The result of GetAmounts. *)
Record amounts := mk_amounts {
  am_immature : Z;
  am_mature : Z;
  am_received : list (Base58.CBase58Data * Z);
  am_sent : list (Base58.CBase58Data * Z);
  am_fee : Z;
  am_account : list Z
}.

(** [address = " unknown "], the text that is not an address. *)
Definition unknown_address : Base58.CBase58Data := (Base58.SetString [32; 117; 110; 107; 110; 111; 119; 110; 32]).2.

(** One output: nothing is listed for change of our own. *)
Definition list_out (nDebit : Z) (acc : list (Base58.CBase58Data * Z) * list (Base58.CBase58Data * Z)) (o : CTxOut) :=
  let a := default unknown_address (Solve.ExtractAddress fTestNet (scriptPubKey o)) in
  let '(received, sent) := acc in
  if (0 <? nDebit) && IsChange fTestNet w o then (received, sent)
  else
    let sent := if 0 <? nDebit then sent ++ [(a, nValue o)] else sent in
    (if IsMine_out fTestNet w o then received ++ [(a, nValue o)] else received, sent).

Definition GetAmounts (x : CWalletTx) : option (amounts * CWalletTx) :=
  if generated (tx_of x) then
    '(n, m) ← GetBlocksToMaturity nCoinbaseMaturity I (wtx x);
    let x := with_wtx m x in
    if 0 <? n then c ← GetCredit_tx fTestNet w (tx_of x); Some (mk_amounts c 0 [] [] 0 (strFromAccount x), x)
    else '(c, x) ← GetCredit fTestNet w I nCoinbaseMaturity true x; Some (mk_amounts 0 c [] [] 0 (strFromAccount x), x)
  else
    '(nDebit, x) ← GetDebit fTestNet w x;
    nFee ← (if 0 <? nDebit then out ← Tx.GetValueOut (tx_of x); Some (i64 (nDebit - out)) else Some 0);
    let '(received, sent) := foldl (list_out nDebit) ([], []) (vout (tx_of x)) in
    Some (mk_amounts 0 0 received sent nFee (strFromAccount x), x).

Definition sum_amounts (l : list (Base58.CBase58Data * Z)) : Z := foldl (fun n r => i64 (n + r.2)) 0 l.

(** What an account received: by the address book, the rest for the account with
    the empty name. *)
Definition is_received (strAccount : list Z) (r : Base58.CBase58Data * Z) : bool :=
  match mapAddressBook w !! r.1 with
  | Some name => bool_decide (name = strAccount)
  | None => bool_decide (strAccount = [])
  end.

(** nGenerated, nReceived, nSent, nFee *)
Definition GetAccountAmounts (strAccount : list Z) (x : CWalletTx) : option (Z * Z * Z * Z * CWalletTx) :=
  '(a, x) ← GetAmounts x;
  let nGenerated := if bool_decide (strAccount = []) then am_mature a else 0 in
  let '(nSent, nFee) := if bool_decide (strAccount = am_account a) then (sum_amounts (am_sent a), am_fee a) else (0, 0) in
  Some (nGenerated, sum_amounts (List.filter (is_received strAccount) (am_received a)), nSent, nFee, x).

End amounts.

Section commit.
Context {B : Tx.Abi} {L : BNLib} {D : DigestLib} {E : ECLib} {G : ECGroup E} {V : EVPLib} (fTestNet : bool) (p : NetParams).
Context (I : index) (nCoinbaseMaturity nBestHeight nNow nAdjusted : Z) (fuel : nat) (node : Z -> Z).
Context (draw : nat -> Z) (nKeysArg nTransactionFee nLimitFreeRelay : Z) (pow : spec_float -> spec_float -> spec_float).
Context (db : CTxDB) (d : disk).

(** [::IsFromMe(tx)] with the wallet as the only one that is registered.  Only
    the rate limiter asks, which is not reached. *)
Definition from_me (w : CWallet) (t : CTransaction) : bool := default false (IsFromMe_tx fTestNet w t).

#[local] Abbreviation check_accept w := (checkAccept fTestNet p nNow nLimitFreeRelay (from_me w) pow db d I).

(** [CMerkleTx::AcceptToMemoryPool(txdb, fCheckInputs)]; this is not a
    lightweight client (fClient). *)
Definition AcceptToMemoryPool (fCheckInputs : bool) (w : CWallet) (t : CTransaction) (s : relay) : option (bool * relay) :=
  '(v, m, lim, infos) ← accept fTestNet p nNow nLimitFreeRelay (from_me w) pow db d I fCheckInputs t (rl_pool s) (rl_limiter s) (rl_infos s);
  match v with
  | Threw => None
  | Accepted _ => Some (true, mk_relay m lim infos)
  | Rejected _ _ => Some (false, mk_relay m lim infos)
  end.

(** A coin that the transaction spends: [mapWallet[hash]] makes an entry where
    there is none, whose outputs are then out of range. *)
Definition null_wtx : CWalletTx := Init (of_tx (mk_tx TT_NORMAL nAdjusted [] [] 0 Tx.no_mint)).

Definition spend_coin (acc : option CWallet) (i : CTxIn) : option CWallet :=
  w ← acc;
  let h := prevhash (prevout i) in
  x ← MarkSpent (out_n (prevout i)) (BindWallet (default null_wtx (mapWallet w !! h)));
  hash ← Tx.GetHash (tx_of x);
  Some (set_txs (<[ h := x ]> (mapWallet w)) (<[ hash := x ]> (file_tx w)) (vWalletUpdated w ++ [hash]) w).

(** Success, the reserved key, the wallet and the pool. *)
Definition CommitTransaction (wtxNew : CWalletTx) (reservekey : CReserveKey) (w : CWallet) (s : relay)
    : option (bool * CReserveKey * CWallet * relay) :=
  let '(v, lim, infos) := check_accept w true (tx_of wtxNew) (rl_pool s) (rl_limiter s) (rl_infos s) in
  let s := mk_relay (rl_pool s) lim infos in
  match v with
  | Threw => None
  | Rejected _ _ => Some (false, reservekey, w, s)
  | Accepted _ =>
      let '(reservekey, w) := KeyPool.reserve_KeepKey reservekey w in
      '(_, w) ← AddToWallet fTestNet I nCoinbaseMaturity nAdjusted draw nKeysArg nNow wtxNew w;
      w ← foldl spend_coin (Some w) (vin (tx_of wtxNew));
      hash ← Tx.GetHash (tx_of wtxNew);
      let w := set_requests (<[ hash := 0 ]> (mapRequestCount w)) w in
      '(ok, s) ← AcceptToMemoryPool true w (tx_of wtxNew) s;
      Some (ok, reservekey, w, s)
  end.

Context (rs : nat -> nat -> (nat -> Z -> Z) * (nat -> nat -> bool)) (place : nat -> Z -> Z) (rounds n : nat).
Context (fWalletUnlockMintOnly : bool) (ask : Z -> bool).

(** [nFeeRequired] is what its memory holds until CreateTransaction sets it.
    The destructor of the reserved key returns it. *)
Definition SendMoney (script : list Z) (nValue : Z) (wtxNew : CWalletTx) (fAskFee : bool) (nFeeRequired : Z) (w : CWallet) (s : relay)
    : option (sent * CWalletTx * CWallet * relay) :=
  let reservekey := KeyPool.no_reserve in
  if IsLocked (store w) then Some (WalletLocked, wtxNew, w, s)
  else if fWalletUnlockMintOnly then Some (MintingOnly, wtxNew, w, s)
  else
    '(ok, x, r, fee, w) ← Spend.CreateTransaction fTestNet p I nCoinbaseMaturity nBestHeight nNow fuel node draw nKeysArg nTransactionFee db d
                            [(script, nValue)] [] rs place rounds n wtxNew reservekey nFeeRequired w;
    if negb ok then
      '(bal, w) ← GetBalance fTestNet I nCoinbaseMaturity nBestHeight nNow fuel w;
      Some (if bal <? i64 (nValue + fee) then FeeTooHigh else CreationFailed, x, (KeyPool.reserve_ReturnKey r w).2, s)
    else if fAskFee && negb (ask fee) then Some (Aborted, x, (KeyPool.reserve_ReturnKey r w).2, s)
    else
      '(ok, r, w, s) ← CommitTransaction x r w s;
      Some (if ok : bool then Sent else TxRejected, x, (KeyPool.reserve_ReturnKey r w).2, s).

Definition SendMoneyToBitcoinAddress (a : Base58.CBase58Data) (nValue : Z) (wtxNew : CWalletTx) (fAskFee : bool) (nFeeRequired : Z) (w : CWallet) (s : relay)
    : option (sent * CWalletTx * CWallet * relay) :=
  if nValue <=? 0 then Some (InvalidAmount, wtxNew, w, s)
  else
    '(bal, w) ← GetBalance fTestNet I nCoinbaseMaturity nBestHeight nNow fuel w;
    if bal <? i64 (nValue + nTransactionFee) then Some (InsufficientFunds, wtxNew, w, s)
    else script ← Spend.address_script fTestNet a; SendMoney script nValue wtxNew fAskFee nFeeRequired w s.

(** ** Transactions of the wallet that are in no block *)

(** One previous transaction: what becomes of it is not looked at. *)
Definition accept_prev (fCheckInputs : bool) (w : CWallet) (acc : option relay) (m : CMerkleTx) : option relay :=
  s ← acc;
  if generated (mt_tx m) then Some s
  else
    hash ← Tx.GetHash (mt_tx m);
    if bool_decide (is_Some (mapTx (rl_pool s) !! hash)) || ContainsTx db hash then Some s
    else '(_, s) ← AcceptToMemoryPool fCheckInputs w (mt_tx m) s; Some s.

Definition AcceptWalletTransaction (fCheckInputs : bool) (w : CWallet) (x : CWalletTx) (s : relay) : option (bool * relay) :=
  s ← foldl (accept_prev fCheckInputs w) (Some s) (vtxPrev x);
  AcceptToMemoryPool fCheckInputs w (tx_of x) s.

Definition ScanForWalletTransaction (hashTx : Z) (w : CWallet) : option (Z * CWallet) :=
  let t := default (tx_of null_wtx) (fst <$> prev_ReadFromDisk db d (mk_outpoint hashTx 0)) in
  '(ok, w) ← AddToWalletIfInvolvingMe fTestNet p I nCoinbaseMaturity nAdjusted draw nKeysArg nNow db d t None true w;
  Some (if ok : bool then 1 else 0, w).

(** The outputs that the database knows to be spent: the entry, and what spends them. *)
Fixpoint mark_missing (w : CWallet) (i : nat) (spent : list CDiskTxPos) (x : CWalletTx) : option (CWalletTx * list CDiskTxPos) :=
  match spent with
  | [] => Some (x, [])
  | pos :: spent =>
      sp ← IsSpent x (Z.of_nat i);
      if sp : bool then mark_missing w (S i) spent x
      else
        o ← vout (tx_of x) !! i;
        if negb (pos_IsNull pos) && IsMine_out fTestNet w o then
          x ← MarkSpent (Z.of_nat i) x;
          '(x, l) ← mark_missing w (S i) spent x;
          Some (x, pos :: l)
        else mark_missing w (S i) spent x
  end.

(** Its coin is spent: nothing to do. *)
Definition settled (x : CWalletTx) : option bool :=
  a ← (if Tx.IsCoinBase (tx_of x) then IsSpent x 0 else Some false);
  if a : bool then Some true else if Tx.IsCoinStake (tx_of x) then IsSpent x 1 else Some false.

Definition reaccept_tx (h : Z) (x : CWalletTx) (w : CWallet) (s : relay) (missing : list CDiskTxPos) : option (CWallet * relay * list CDiskTxPos) :=
  done ← settled x;
  if done : bool then Some (w, s, missing)
  else
    hash ← Tx.GetHash (tx_of x);
    match ReadTxIndex db hash with
    | Some txindex =>
        if negb (Z.of_nat (length (vSpent txindex)) =? out_count x) then Some (w, s, missing)
        else
          '(x, l) ← mark_missing w 0 (vSpent txindex) x;
          if bool_decide (l = []) then Some (w, s, missing)
          else
            '(_, x) ← GetCredit fTestNet w I nCoinbaseMaturity true x;
            let x := Wallet.MarkDirty x in
            Some (set_txs (<[ h := x ]> (mapWallet w)) (<[ hash := x ]> (file_tx w)) (vWalletUpdated w) w, s, missing ++ l)
    | None =>
        if generated (tx_of x) then Some (w, s, missing)
        else '(_, s) ← AcceptWalletTransaction false w x s; Some (w, s, missing)
    end.

Fixpoint reaccept_txs (l : list Z) (w : CWallet) (s : relay) (missing : list CDiskTxPos) : option (CWallet * relay * list CDiskTxPos) :=
  match l with
  | [] => Some (w, s, missing)
  | h :: l =>
      '(w, s, missing) ← match mapWallet w !! h with Some x => reaccept_tx h x w s missing | None => Some (w, s, missing) end;
      reaccept_txs l w s missing
  end.

(** [while (fRepeat)] with at most [k] rounds: [None] when they are not enough,
    [Some None] an exception. *)
Fixpoint ReacceptWalletTransactions (k : nat) (w : CWallet) (s : relay) : option (option (CWallet * relay)) :=
  match k with
  | O => None
  | S k =>
      match reaccept_txs (wallet_keys w) w s [] with
      | None => Some None
      | Some (w, s, []) => Some (Some (w, s))
      | Some (w, s, _) =>
          match ScanForWalletTransactions fTestNet p I nCoinbaseMaturity nAdjusted draw nKeysArg nNow db d (pindexGenesisBlock I) false w with
          | None => Some None
          | Some (ret, w) => if ret =? 0 then Some (Some (w, s)) else ReacceptWalletTransactions k w s
          end
      end
  end.

End commit.

(** ** A check that succeeded succeeds again *)

Section again.
Context {B : Tx.Abi} {L : BNLib} {D : DigestLib} {E : ECLib} (fTestNet : bool) (p : NetParams).
Context (nNow nLimitFreeRelay : Z) (IsFromMe IsFromMe' : CTransaction -> bool) (pow : spec_float -> spec_float -> spec_float).

Lemma try_infos_again db d t infos ok infos' : try_infos fTestNet db d t infos = Some (ok, infos') -> try_infos fTestNet db d t infos' = Some (ok, infos').
Proof.
  intros Ht. pose proof (try_infos_restores fTestNet db d t infos ok infos' Ht) as [Hr Hs]. revert Ht. unfold try_infos, TxInfo.BeginTransaction.
  destruct (TxInfo.InTransaction infos); [done|]. cbn [mbind option_bind]. destruct (Connect.ProcessTxInfos _ _ _ _ _ _ _) as [[o v]|] eqn:Hp; [|done].
  cbn [mbind option_bind]. destruct (TxInfo.Rollback v) as [back|] eqn:Hb; [|done]. cbn [mbind option_bind]. intros [= -> <-].
  assert (TxInfo.InTransaction back = false) as ->.
  { unfold TxInfo.Rollback in Hb. destruct (snapshot v) as [[l n]|]; [|done]. cbn in Hb. by injection Hb as <-. }
  cbn [mbind option_bind]. rewrite Hr, Hs, Hp. cbn [mbind option_bind]. by rewrite Hb.
Qed.

Lemma check_inputs_again db d I t m lim infos old lim' infos' :
  check_pool_inputs fTestNet p nNow nLimitFreeRelay IsFromMe pow db d I t m lim infos = (Accepted old, lim', infos') ->
  lim' = lim /\ check_pool_inputs fTestNet p nNow nLimitFreeRelay IsFromMe' pow db d I t m lim' infos' = (Accepted old, lim', infos').
Proof.
  unfold check_pool_inputs. destruct (FetchInputs _ _ _ _ _ _ _ _) as [mi|fi]; [|by destruct fi].
  destruct (AreInputsStandard t mi) as [std|]; [|done]. destruct (_ && _); [done|].
  destruct (GetValueIn t mi) as [vi|]; [|done]. destruct (Tx.GetValueOut t) as [vo|]; [|done].
  destruct (GetSerializeSize Tx.tx_codec t) as [sz|]; [|done]. destruct (Tx.GetMinFee t 1000 Tx.GMF_RELAY) as [fee|] eqn:Ef; [|done].
  destruct (Z.ltb_spec (i64 (vi - vo)) fee) as [|Hfee]; [done|]. pose proof (GetMinFee_relay _ _ _ Ef) as Hmin.
  rewrite (proj2 (Z.ltb_ge _ MIN_RELAY_TX_FEE)) by lia. cbn [negb]. unfold connect_pool_inputs.
  destruct (ConnectInputs _ _ _ _ _ _ _ _ _ _ _ _) as [r| |]; [|done..].
  destruct (try_infos fTestNet db d t infos) as [[[] infos1]|] eqn:Et; [|done..]. intros [= <- <- <-]. split; [done|].
  by rewrite (try_infos_again _ _ _ _ _ _ Et).
Qed.

Lemma checkAccept_again db d I t m lim infos old lim' infos' :
  checkAccept fTestNet p nNow nLimitFreeRelay IsFromMe pow db d I true t m lim infos = (Accepted old, lim', infos') ->
  lim' = lim /\ checkAccept fTestNet p nNow nLimitFreeRelay IsFromMe' pow db d I true t m lim' infos' = (Accepted old, lim', infos').
Proof.
  unfold checkAccept. destruct (Tx.CheckTransaction t); [|done..]. destruct (Tx.IsCoinBase t); [done|]. destruct (Tx.IsCoinStake t); [done|].
  destruct (INT_MAX <? _); [done|]. destruct (_ && _); [done|]. destruct (Tx.GetHash t) as [h|]; [|done]. destruct (bool_decide _); [done|].
  cbn [andb]. destruct (ContainsTx db h); [done|]. destruct (existsb _ _); [done|]. apply check_inputs_again.
Qed.

End again.

(** ** What is committed *)

Section committed.
Context {B : Tx.Abi} {L : BNLib} {D : DigestLib} {E : ECLib} {G : ECGroup E} {V : EVPLib} (fTestNet : bool) (p : NetParams).
Context (I : index) (nCoinbaseMaturity nBestHeight nNow nAdjusted : Z) (fuel : nat) (node : Z -> Z).
Context (draw : nat -> Z) (nKeysArg nTransactionFee nLimitFreeRelay : Z) (pow : spec_float -> spec_float -> spec_float).
Context (db : CTxDB) (d : disk).

(** The coin is in the wallet and marked as spent. *)
Definition taken (w : CWallet) (i : CTxIn) : Prop :=
  exists x, mapWallet w !! prevhash (prevout i) = Some x /\ (Z.to_nat (out_n (prevout i)) < length (vout (tx_of x)))%nat /\
    flag x (Z.to_nat (out_n (prevout i))) = true.

Lemma taken_extends w w' i : extends w w' -> taken w i -> taken w' i.
Proof. intros He (x & Hx & Hn & Hf). destruct (He _ _ Hx) as (x' & Hx' & Et & Hf'). exists x'. rewrite Et. auto. Qed.

(** A coin that is taken is never chosen for a payment. *)
Lemma taken_not_free w i nSpendTime : 0 <= out_n (prevout i) -> taken w i ->
  ~ free_coin nSpendTime w (prevhash (prevout i), Z.to_nat (out_n (prevout i))).
Proof. intros _ (x & Hx & _ & Hf) (y & o & Hy & _ & Hg & _). cbn [fst snd] in *. rewrite Hx in Hy. injection Hy as <-. congruence. Qed.

Lemma spend_coin_spec w i w' : wallet_ok w -> 0 <= out_n (prevout i) -> spend_coin nAdjusted (Some w) i = Some w' ->
  wallet_ok w' /\ extends w w' /\ taken w' i.
Proof.
  intros [Hf Hm] Hn. unfold spend_coin. cbn [mbind option_bind]. destruct (mapWallet w !! prevhash (prevout i)) as [x|] eqn:Hx; cbn [default id].
  2:{ unfold MarkSpent, out_count. cbn [BindWallet Wallet.MarkDirty with_caches tx_of wtx null_wtx Init of_tx mt_tx vout length].
      rewrite (proj2 (Z.leb_le _ _)) by (cbn; lia). done. }
  destruct (Nat.lt_ge_cases (Z.to_nat (out_n (prevout i))) (length (vout (tx_of x)))) as [Hlt|Hge].
  2:{ unfold MarkSpent, out_count. change (tx_of (BindWallet x)) with (tx_of x). rewrite (proj2 (Z.leb_le _ _)) by lia. done. }
  destruct (MarkSpent_spec (BindWallet x) (Z.to_nat (out_n (prevout i))) Hlt) as (y & Hy & Ew & Hfl). rewrite Z2Nat.id in Hy by done. rewrite Hy.
  cbn [mbind option_bind]. assert (tx_of y = tx_of x) as Et by (unfold tx_of; by rewrite Ew). rewrite Et, (Hf _ _ Hx). cbn [mbind option_bind].
  intros [= <-]. change (set_txs _ _ _ w) with (put (prevhash (prevout i)) y true true w). split; [|split].
  - split; [apply filed_put; [done|]; rewrite Et; by apply Hf|]. apply mirrored_put; [done|by left].
  - apply extends_put. intros z Hz. rewrite Hx in Hz. injection Hz as <-. split; [done|]. intros n Hn' Hfn. rewrite Hfl by done. by destruct (decide _).
  - exists y. cbn [put set_txs mapWallet]. rewrite lookup_insert_eq, Et. split; [done|]. split; [done|]. rewrite Hfl by done. by rewrite decide_True.
Qed.

Lemma spend_coins_spec l : forall w w', wallet_ok w -> Forall (fun i => 0 <= out_n (prevout i)) l -> foldl (spend_coin nAdjusted) (Some w) l = Some w' ->
  wallet_ok w' /\ extends w w' /\ Forall (taken w') l.
Proof.
  assert (forall l, foldl (spend_coin nAdjusted) None l = None) as Hnone by (intros l'; by induction l').
  induction l as [|i l IH]; intros w w' Hw Hl H; [injection H as <-; split; [done|]; split; [reflexivity|done]|].
  apply Forall_cons in Hl as [Hi Hl]. cbn [foldl] in H. destruct (spend_coin nAdjusted (Some w) i) as [w1|] eqn:H1; [|by rewrite Hnone in H].
  apply spend_coin_spec in H1 as (Hok & He & Ht); [|done|done]. destruct (IH w1 w' Hok Hl H) as (Hok' & He' & Hts).
  split; [done|]. split; [by etrans|]. constructor; [by apply (taken_extends w1)|done].
Qed.

(** The transaction [t] is recorded: it is in the wallet and in the pool, its
    inputs are taken, and it was valid for the pool. *)
Record committed (w : CWallet) (m : CTxMemPool) (t : CTransaction) (w' : CWallet) (m' : CTxMemPool) : Prop := {
  cm_wallet : wallet_ok w' /\ extends w w';
  cm_pool : pool_ok m' /\ entered t m m' /\ funded db d m t;
  cm_hash : exists hash, Tx.GetHash t = Some hash /\ is_Some (mapWallet w' !! hash) /\ mapRequestCount w' !! hash = Some 0;
  cm_taken : Forall (taken w') (vin t)
}.

(** What is asked of a wallet and a pool between operations. *)
Record ready (w : CWallet) (s : relay) : Prop := {
  rd_wallet : wallet_ok w;
  rd_inputs : forall h x, mapWallet w !! h = Some x -> inputs_ok (tx_of x);
  rd_pool : pool_ok (rl_pool s)
}.

#[local] Abbreviation commit := (CommitTransaction fTestNet p I nCoinbaseMaturity nNow nAdjusted draw nKeysArg nLimitFreeRelay pow db d).

Lemma CommitTransaction_spec x r w s ok r' w' s' : ready w s -> inputs_ok (tx_of x) -> commit x r w s = Some (ok, r', w', s') ->
  (ok = false -> r' = r /\ w' = w /\ rl_pool s' = rl_pool s) /\
  (ok = true -> r' = KeyPool.no_reserve /\ committed w (rl_pool s) (tx_of x) w' (rl_pool s')).
Proof.
  intros [Hw Hin Hm] Hix. unfold CommitTransaction.
  destruct (checkAccept _ _ _ _ _ _ _ _ _ _ _ _ _ _) as [[v lim] infos] eqn:Hv. cbv zeta.
  destruct v as [old|dos miss|]; [|by intros [= <- <- <- <-]|done]. cbn [KeyPool.reserve_KeepKey].
  set (w1 := if negb (rk_nIndex r =? -1) then _ else w).
  assert (mapWallet w1 = mapWallet w /\ file_tx w1 = file_tx w) as [Hm1 Hf1].
  { subst w1. destruct (negb _); [|done]. unfold KeyPool.KeepKey. by destruct (fFileBacked w). }
  assert (wallet_ok w1) as Hw1 by (destruct Hw as [Ha Hb]; split; intros h y; rewrite Hm1, ?Hf1; [apply Ha|apply Hb]).
  destruct (AddToWallet _ _ _ _ _ _ _ _ _) as [[b w2]|] eqn:Hadd; [|done]. cbn [mbind option_bind].
  destruct (Tx.GetHash (tx_of x)) as [hash|] eqn:Hh; [|unfold AddToWallet in Hadd; by rewrite Hh in Hadd].
  rewrite <- Hm1 in Hin.
  destruct (AddToWallet_spec fTestNet I nCoinbaseMaturity nAdjusted draw nKeysArg nNow x w1 b w2 hash Hw1 Hin Hix Hh Hadd) as (_ & Hw2 & He2 & Hd2 & _).
  destruct (foldl _ (Some w2) _) as [w3|] eqn:Hsp; [|done]. cbn [mbind option_bind].
  apply spend_coins_spec in Hsp as (Hw3 & He3 & Ht3); [|done|done]. set (w4 := set_requests _ w3).
  pose proof (checkAccept_again fTestNet p nNow nLimitFreeRelay (from_me fTestNet w) (from_me fTestNet w4) pow db d I _ _ _ _ _ _ _ Hv) as [Hlim Hagain].
  unfold AcceptToMemoryPool. cbn [rl_pool rl_limiter rl_infos]. destruct (accept _ _ _ _ _ _ _ _ _ _ _ _ _ _) as [[[[v' m'] lim'] infos']|] eqn:Hacc; [|done].
  cbn [mbind option_bind]. assert (v' = Accepted old) as ->.
  { unfold accept in Hacc. rewrite Hagain in Hacc. destruct (match old ≫= _ with Some _ => _ | None => _ end); [|done]. cbn [mbind option_bind] in Hacc.
    destruct (addUnchecked _ _); [|done]. cbn [mbind option_bind] in Hacc. by injection Hacc as <- _ _ _. }
  intros [= <- <- <- <-]. split; [done|]. intros _. split; [done|]. cbn [rl_pool].
  apply accept_spec in Hacc as (Hp & _ & _ & Hent & Hfund); [|done|exact Hix]. split.
  - split; [by destruct Hw3; split|]. etrans; [by apply (extends_same w w1)|]. etrans; [exact He2|]. exact He3.
  - split; [done|]. split; [done|]. by apply Hfund.
  - exists hash. split; [done|]. split; [|cbn; by rewrite lookup_insert_eq]. cbn [w4 set_requests mapWallet].
    destruct (proj2 (Hd2 hash) ltac:(by left)) as [y Hy]. destruct (He3 _ _ Hy) as (z & Hz & _). eauto.
  - exact Ht3.
Qed.

Lemma same_extends w u : same_entries u w -> extends w u.
Proof.
  intros He h x Hx. destruct (same_entry u w h x (eq_sym He) Hx) as (y & Hy & Hp). exists y. split; [done|].
  split; [symmetry; by apply persist_tx|]. intros n _ Hf. by rewrite <- (persist_flag _ _ _ Hp).
Qed.

Lemma same_ready w u s : same_entries u w -> file_tx u = file_tx w -> ready w s -> ready u s.
Proof.
  intros He Hf [[Ha Hb] Hi Hp]. split; [split|..|done].
  - by apply (Spend.spend_filed_same w).
  - intros h x Hx. destruct (same_entry w u h x He Hx) as (y & Hy & Hpx). destruct (Hb _ _ Hy) as (z & Hz & Hpz). exists z. rewrite Hf. split; [done|congruence].
  - intros h x Hx. destruct (same_entry w u h x He Hx) as (y & Hy & Hpx). rewrite (persist_tx _ _ Hpx). by apply (Hi h).
Qed.

Lemma ReturnKey_entries r w : same_entries (KeyPool.reserve_ReturnKey r w).2 w.
Proof. unfold KeyPool.reserve_ReturnKey. cbn [snd]. by destruct (negb _). Qed.

Lemma paid_inputs_ok vecSend w t fee : Spend.paid nTransactionFee vecSend [] w t fee -> inputs_ok t.
Proof.
  intros [_ _ _ (coins & v & _ & Hc) _]. cbn [length] in Hc. rewrite drop_0 in Hc. apply Forall_forall. intros i Hi.
  assert (prevout i ∈ prevout <$> vin t) as Ho by (by apply list_elem_of_fmap_2). rewrite Hc in Ho.
  apply list_elem_of_fmap in Ho as (c & -> & _). cbn. lia.
Qed.

Context (rs : nat -> nat -> (nat -> Z -> Z) * (nat -> nat -> bool)) (place : nat -> Z -> Z) (rounds n : nat).
Context (fWalletUnlockMintOnly : bool) (ask : Z -> bool).
Context (fee_range : MoneyRange nTransactionFee = true).

#[local] Abbreviation send := (SendMoney fTestNet p I nCoinbaseMaturity nBestHeight nNow nAdjusted fuel node draw nKeysArg nTransactionFee nLimitFreeRelay pow
  db d rs place rounds n fWalletUnlockMintOnly ask).

(** C14: SendMoney of an unlocked wallet either sends or changes nothing: when it
    returns the empty string, the new transaction pays the value to the script
    from distinct unspent coins of the wallet and leaves the accepted fee, it
    is recorded in the wallet and its file and has entered the memory pool, and
    the coins it spends are marked, so that they are not chosen again.  When it
    returns an error, no transaction of the wallet and nothing in the pool has
    changed: the second check of the transaction, after it was recorded, does
    not fail. *)
Theorem SendMoney_sends script nValue wtxNew fAskFee nFeeRequired w s res x w' s' :
  ready w s -> Spend.amounts_valid w -> send script nValue wtxNew fAskFee nFeeRequired w s = Some (res, x, w', s') ->
  match res with
  | Sent => IsLocked (store w) = false /\ fWalletUnlockMintOnly = false /\
      (exists fee, Spend.paid nTransactionFee [(script, nValue)] [] w (tx_of x) fee /\ (fAskFee = true -> ask fee = true)) /\
      committed w (rl_pool s) (tx_of x) w' (rl_pool s') /\
      (forall t i, i ∈ vin (tx_of x) -> ~ free_coin t w' (prevhash (prevout i), Z.to_nat (out_n (prevout i))))
  | _ => same_entries w' w /\ rl_pool s' = rl_pool s
  end.
Proof.
  intros Hr Ha. unfold SendMoney. destruct (IsLocked (store w)) eqn:Hlock; [by intros [= <- <- <- <-]|].
  destruct fWalletUnlockMintOnly; [by intros [= <- <- <- <-]|].
  destruct (Spend.CreateTransaction _ _ _ _ _ _ _ _ _ _ _ _ _ _ _ _ _ _ _ _ _ _ _) as [[[[[ok x1] r] fee] w1]|] eqn:Hc; [|done]. cbn [mbind option_bind].
  pose proof (Spend.CreateTransaction_files fTestNet p I nCoinbaseMaturity nBestHeight nNow fuel node draw nKeysArg nTransactionFee _ _ _ _ _ _ _ _ _ _ _ _ _ _ _ _ _ Hc) as Hfile.
  apply Spend.CreateTransaction_spec in Hc as [Hse Hpaid]; [|done|cbn; lia|done|apply Hr].
  destruct ok; cbn [negb].
  2:{ destruct (GetBalance _ _ _ _ _ _ w1) as [[bal w2]|] eqn:Hb; [|done]. cbn [mbind option_bind]. apply Stake.GetBalance_entries in Hb.
      assert (same_entries (KeyPool.reserve_ReturnKey r w2).2 w) as Hs.
      { etransitivity; [apply ReturnKey_entries|]. etransitivity; [by apply uncached_entries|]. exact Hse. }
      destruct (bal <? _); intros [= <- <- <- <-]; done. }
  specialize (Hpaid eq_refl). destruct (fAskFee && negb (ask fee)) eqn:Hask.
  { intros [= <- <- <- <-]. split; [|done]. etransitivity; [apply ReturnKey_entries|exact Hse]. }
  destruct (CommitTransaction _ _ _ _ _ _ _ _ _ _ _ _ x1 r w1 s) as [[[[ok r2] w2] s2]|] eqn:Hco; [|done]. cbn [mbind option_bind].
  apply CommitTransaction_spec in Hco as [Hno Hyes]; [|by apply (same_ready w)|by apply (paid_inputs_ok _ _ _ _ Hpaid)].
  destruct ok; intros [= <- <- <- <-].
  - destruct (Hyes eq_refl) as [-> [Cw Cp Ch Ct]]. cbn [KeyPool.reserve_ReturnKey KeyPool.no_reserve rk_nIndex Z.eqb Pos.eqb negb snd].
    split; [done|]. split; [done|]. split.
    { exists fee. split; [done|]. intros ->. by destruct (ask fee). }
    split; [split; try done; split; [apply Cw|]; etrans; [by apply same_extends|apply Cw]|].
    intros t i Hi. rewrite Forall_forall in Ct. apply taken_not_free; [|by apply Ct].
    pose proof (paid_inputs_ok _ _ _ _ Hpaid) as Hio. unfold inputs_ok in Hio. rewrite Forall_forall in Hio. by apply Hio.
  - destruct (Hno eq_refl) as (-> & -> & ->). split; [|done]. etransitivity; [apply ReturnKey_entries|exact Hse].
Qed.

(** *** Bringing transactions back ends *)

#[local] Abbreviation dom_of w := (dom (mapWallet w)).

Lemma update_spent_dom l : forall w w', foldl (update_spent fTestNet I nCoinbaseMaturity) (Some w) l = Some w' -> dom_of w' = dom_of w.
Proof.
  induction l as [|i l IH]; intros w w' H; [by injection H as <-|]. cbn [foldl] in H.
  destruct (update_spent _ _ _ (Some w) i) as [w1|] eqn:H1; [|by rewrite update_spent_none in H]. rewrite (IH _ _ H). clear H.
  unfold update_spent in H1. cbn [mbind option_bind] in H1. destruct (mapWallet w !! _) as [x|] eqn:Hx; [|by injection H1 as <-].
  destruct (IsSpent _ _); [|done]. cbn [mbind option_bind] in H1. destruct (vout _ !! _); [|done]. cbn [mbind option_bind] in H1.
  destruct (_ && _); [|by injection H1 as <-]. destruct (GetCredit _ _ _ _ _ _) as [[v y]|]; [|done]. cbn [mbind option_bind] in H1.
  destruct (MarkSpent _ _); [|done]. cbn [mbind option_bind] in H1. injection H1 as <-. cbn [put set_txs mapWallet]. rewrite dom_insert_L.
  apply elem_of_dom_2 in Hx. set_solver.
Qed.

Lemma AddToWallet_dom xIn w b w' : AddToWallet fTestNet I nCoinbaseMaturity nAdjusted draw nKeysArg nNow xIn w = Some (b, w') ->
  b = true /\ exists hash, Tx.GetHash (tx_of xIn) = Some hash /\ dom_of w' = {[ hash ]} ∪ dom_of w.
Proof.
  unfold AddToWallet. destruct (Tx.GetHash (tx_of xIn)) as [hash|]; [|done]. cbn [mbind option_bind]. destruct (match mapWallet w !! hash with Some _ => _ | None => _ end) as [[fNew up] x].
  destruct (foldl (replace_default _ _ _ _ _) _ _) as [w2|] eqn:Hrep; [|done]. cbn [mbind option_bind]. apply replace_all_txs in Hrep as [Hm2 _].
  unfold WalletUpdateSpent. destruct (foldl (update_spent _ _ _) _ _) as [w3|] eqn:Hup; [|done]. cbn [mbind option_bind]. intros [= <- <-].
  apply update_spent_dom in Hup. split; [done|]. exists hash. split; [done|]. rewrite Hup. cbn [UpdatedTransaction set_txs mapWallet]. rewrite Hm2. cbn [put set_txs mapWallet].
  by rewrite dom_insert_L.
Qed.

#[local] Abbreviation involve := (AddToWalletIfInvolvingMe fTestNet p I nCoinbaseMaturity nAdjusted draw nKeysArg nNow db d).

Lemma involving_dom t b w ok w' : involve t (Some b) false w = Some (ok, w') ->
  if ok then exists hash, Tx.GetHash t = Some hash /\ (hash ∉ dom_of w) /\ (dom_of w' = {[ hash ]} ∪ dom_of w) else dom_of w' = dom_of w.
Proof.
  unfold AddToWalletIfInvolvingMe. destruct (Tx.GetHash t) as [hash|] eqn:Hh; [|done]. cbn [mbind option_bind].
  destruct (bool_decide (is_Some (mapWallet w !! hash))) eqn:Hex; cbn [andb orb negb]; [by intros [= <- <-]|]. apply bool_decide_eq_false in Hex.
  destruct (if IsMine_tx _ _ _ then _ else _) as [inv|]; [|done]. cbn [mbind option_bind]. destruct inv.
  - destruct (SetMerkleBranch p db d I (Some b) (of_tx t)) as [[k m]|] eqn:Hm; [|done]. apply Spend.SetMerkleBranch_tx in Hm. cbn [fmap option_fmap option_map snd mbind option_bind].
    intros Ha. apply AddToWallet_dom in Ha as (-> & h & Hh' & Hd). change (tx_of (Init m)) with (mt_tx m) in Hh'. rewrite Hm in Hh'.
    change (mt_tx (of_tx t)) with t in Hh'. rewrite Hh in Hh'. injection Hh' as <-.
    exists hash. split; [done|]. split; [by rewrite elem_of_dom|done].
  - unfold WalletUpdateSpent. destruct (foldl (update_spent _ _ _) _ _) as [w3|] eqn:Hup; [|done]. cbn [mbind option_bind]. intros [= <- <-]. by apply update_spent_dom in Hup.
Qed.

(** The hashes of the transactions in the blocks of the index. *)
Definition block_of (nd : BlockIndex.node) : CBlock := default Block.null_block (block_ReadFromDisk p d (nFile nd) (nBlockPos nd) true).
Definition chain_hashes : gset Z :=
  list_to_set ((map_to_list (mapBlockIndex I)).*2 ≫= fun nd => omap Tx.GetHash (vtx (block_of nd))).

(** [w'] has the transactions of [w] and more of the chain, some when [more]. *)
Definition grows (w w' : CWallet) (more : Prop) : Prop :=
  (dom_of w ⊆ dom_of w' /\ dom_of w' ⊆ dom_of w ∪ chain_hashes) /\ (more -> dom_of w' <> dom_of w).

Lemma grows_trans w1 w2 w3 a b : grows w1 w2 a -> grows w2 w3 b -> grows w1 w3 (a \/ b).
Proof. intros [H1 H2] [H3 H4]. split; [set_solver|]. intros [Ha|Hb] He; [apply (H2 Ha)|apply (H4 Hb)]; set_solver. Qed.

#[local] Abbreviation scan := (ScanForWalletTransactions fTestNet p I nCoinbaseMaturity nAdjusted draw nKeysArg nNow db d).

Lemma scan_txs_grows b l : Forall (fun t => forall h, Tx.GetHash t = Some h -> h ∈ chain_hashes) l -> forall ret w ret' w',
  scan_txs fTestNet p I nCoinbaseMaturity nAdjusted draw nKeysArg nNow db d b false l ret w = Some (ret', w') -> grows w w' (ret' <> ret).
Proof.
  induction l as [|t l IH]; intros Hl ret w ret' w'; cbn [scan_txs]; [intros [= <- <-]; split; [set_solver|done]|].
  apply Forall_cons in Hl as [Ht Hl]. destruct (involve t (Some b) false w) as [[ok w1]|] eqn:Hi; [|done]. cbn [mbind option_bind].
  apply involving_dom in Hi. intros Hs. apply IH in Hs; [|done]. destruct ok.
  - destruct Hi as (h & Hh & Hn & Hd). specialize (Ht h Hh). destruct Hs as [Hs _]. split; [set_solver|]. intros _ He. apply Hn. set_solver.
  - destruct Hs as [Hs Hm]. rewrite Hi in *. done.
Qed.

Lemma scan_loop_grows k : forall q ret w ret' w',
  scan_loop fTestNet p I nCoinbaseMaturity nAdjusted draw nKeysArg nNow db d k q false ret w = Some (ret', w') -> grows w w' (ret' <> ret).
Proof.
  induction k as [|k IH]; intros q ret w ret' w'; cbn [scan_loop].
  { intros [= <- <-]. split; [set_solver|done]. }
  destruct (deref I q) as [nd|] eqn:Hq; [|intros [= <- <-]; split; [set_solver|done]]. fold (block_of nd).
  destruct (scan_txs _ _ _ _ _ _ _ _ _ _ _ _ _ _ _) as [[r1 w1]|] eqn:Hs; [|done]. cbn [mbind option_bind]. intros Hl.
  apply scan_txs_grows in Hs.
  - apply IH in Hl. destruct (grows_trans _ _ _ _ _ Hs Hl) as [H1 H2]. split; [done|]. intros Hne. apply H2. destruct (decide (r1 = ret)); [right; congruence|by left].
  - apply Forall_forall. intros t Ht h Hh. unfold chain_hashes. rewrite elem_of_list_to_set. apply list_elem_of_bind. exists nd. split.
    + apply list_elem_of_omap. eauto.
    + apply list_elem_of_fmap. unfold deref in Hq. destruct q as [q|]; [|done]. exists (q, nd). split; [done|]. by apply elem_of_map_to_list.
Qed.

Lemma mark_missing_tx spent : forall i w x x' l, mark_missing fTestNet w i spent x = Some (x', l) -> tx_of x' = tx_of x.
Proof.
  induction spent as [|pos spent IH]; intros i w x x' l; cbn [mark_missing]; [by intros [= <- <-]|].
  destruct (IsSpent x _) as [[]|]; [by apply IH| |done]. cbn [mbind option_bind]. destruct (vout _ !! _); [|done]. cbn [mbind option_bind].
  destruct (_ && _); [|by apply IH]. destruct (MarkSpent _ x) as [y|] eqn:Hm; [|done]. cbn [mbind option_bind].
  destruct (mark_missing _ _ _ _ y) as [[z l']|] eqn:Hz; [|done]. cbn [mbind option_bind]. intros [= <- <-]. apply IH in Hz. rewrite Hz.
  unfold MarkSpent in Hm. destruct (_ <=? _); [done|]. by destruct (default _ _); injection Hm as <-.
Qed.

Lemma reaccept_dom l : forall w s m w' s' m',
  reaccept_txs fTestNet p I nCoinbaseMaturity nNow nLimitFreeRelay pow db d l w s m = Some (w', s', m') -> dom_of w' = dom_of w.
Proof.
  induction l as [|h l IH]; intros w s m w' s' m'; cbn [reaccept_txs]; [by intros [= <- _ _]|].
  destruct (mapWallet w !! h) as [x|] eqn:Hx; [|cbn [mbind option_bind]; apply IH].
  destruct (reaccept_tx _ _ _ _ _ _ _ _ _ h x w s m) as [[[w1 s1] m1]|] eqn:Hr; [|done]. cbn [mbind option_bind]. intros Hl. rewrite (IH _ _ _ _ _ _ Hl). clear Hl.
  revert Hr. unfold reaccept_tx. destruct (settled x) as [[]|]; [by intros [= <- _ _]| |done]. cbn [mbind option_bind].
  destruct (Tx.GetHash _) as [hash|]; [|done]. cbn [mbind option_bind]. destruct (ReadTxIndex db hash) as [ti|].
  - destruct (negb _); [by intros [= <- _ _]|]. destruct (mark_missing _ _ _ _ _) as [[y lm]|]; [|done]. cbn [mbind option_bind].
    destruct (bool_decide _); [by intros [= <- _ _]|]. destruct (GetCredit _ _ _ _ _ _) as [[v z]|]; [|done]. cbn [mbind option_bind]. intros [= <- _ _].
    cbn [set_txs mapWallet]. rewrite dom_insert_L. apply elem_of_dom_2 in Hx. set_solver.
  - destruct (generated _); [by intros [= <- _ _]|]. destruct (AcceptWalletTransaction _ _ _ _ _ _ _ _ _ _ _ _) as [[o s2]|]; [|done]. cbn [mbind option_bind]. by intros [= <- _ _].
Qed.

Lemma set_shrinks (A A' C : gset Z) : A ⊆ A' -> A' ⊆ A ∪ C -> A' <> A -> C ∖ A' ⊂ C ∖ A.
Proof.
  intros H1 H2 H3. split; [set_solver|]. intros H4. apply H3. apply set_eq. intros x. split; [|apply H1].
  intros Hx. destruct (decide (x ∈ A)) as [|Hn]; [done|]. assert (x ∈ C ∖ A') by (apply H4; set_solver). set_solver.
Qed.

(** Every repetition found a transaction of the chain that the wallet did not
    have: the loop ends after at most as many rounds as there are such. *)
Lemma Reaccept_ends k : forall w s, (size (chain_hashes ∖ dom_of w) < k)%nat ->
  ReacceptWalletTransactions fTestNet p I nCoinbaseMaturity nNow nAdjusted draw nKeysArg nLimitFreeRelay pow db d k w s <> None.
Proof.
  induction k as [|k IH]; intros w s Hk; [lia|]. cbn [ReacceptWalletTransactions].
  destruct (reaccept_txs _ _ _ _ _ _ _ _ _ _ w s []) as [[[w1 s1] m1]|] eqn:Hr; [|done]. apply reaccept_dom in Hr. destruct m1; [done|].
  destruct (scan (pindexGenesisBlock I) false w1) as [[ret w2]|] eqn:Hs; [|done]. destruct (Z.eqb_spec ret 0) as [|Hne]; [done|].
  apply IH. apply scan_loop_grows in Hs as [[H1 H2] H3]. specialize (H3 Hne). rewrite Hr in *.
  apply Nat.lt_le_trans with (size (chain_hashes ∖ dom_of w)); [|lia]. apply subset_size. by apply set_shrinks.
Qed.

End committed.

(** ** A payment *)

Section witnesses.
#[local] Existing Instance bn_reference.
#[local] Existing Instance toy_digests.
#[local] Existing Instance Tx.demo_abi.
#[local] Existing Instance toy_ec.
#[local] Existing Instance toy_group.
#[local] Existing Instance toy_evp.

Definition demo_relay : relay := mk_relay demo_pool demo_limiter (mk_store [] 0 None 0).
Definition demo_filed : CWallet := set_txs (mapWallet demo_rich) (mapWallet demo_rich) [] demo_rich.

Definition demo_send :=
  SendMoney false Ledger.demo_net demo_blocks 100 9 1000 50 5 id KeyPool.demo_draw 2 0 15 (fun x _ => x) Stake.demo_stake_db Stake.demo_stake_disk
    (fun _ => demo_rs) (fun _ _ => 0) 5 10 false (fun _ => true) demo_script (4 * COIN)
    (Init (of_tx (mk_tx TT_NORMAL 1000 [] [] 0 Tx.no_mint))) false 0 demo_filed demo_relay.

Lemma demo_ready : ready demo_filed demo_relay.
Proof.
  assert (forall h x, mapWallet demo_filed !! h = Some x -> h = demo_coins_hash /\ x = Init (mk_mtx demo_coins 1 [] 0 false)) as Hd.
  { intros h x Hx. cbn [demo_filed set_txs demo_rich set_mapWallet mapWallet] in Hx. by apply lookup_singleton_Some in Hx as [<- <-]. }
  split; [split|..].
  - intros h x Hx. destruct (Hd _ _ Hx) as [-> ->]. vm_compute. reflexivity.
  - intros h x Hx. exists x. split; [exact Hx|reflexivity].
  - intros h x Hx. destruct (Hd _ _ Hx) as [-> ->]. repeat constructor; vm_compute; discriminate.
  - apply empty_pool_ok.
Qed.

Lemma demo_valid : Spend.amounts_valid demo_filed.
Proof. apply (Spend.amounts_valid_same demo_rich); [reflexivity|exact (proj1 Spend.demo_rich_ok)]. Qed.

Lemma demo_sent : (fun r => r.1.1.1) <$> demo_send = Some Sent.
Proof. vm_compute. reflexivity. Qed.

Lemma SendMoney_sends_witness :
  exists x w' s', demo_send = Some (Sent, x, w', s') /\ committed Stake.demo_stake_db Stake.demo_stake_disk demo_filed demo_pool (tx_of x) w' (rl_pool s').
Proof.
  pose proof demo_sent as Hd. destruct demo_send as [[[[res x] w'] s']|] eqn:Hs; [|discriminate Hd].
  cbn [fmap option_fmap option_map fst] in Hd. injection Hd as ->. exists x, w', s'. split; [reflexivity|]. unfold demo_send in Hs.
  apply (SendMoney_sends false Ledger.demo_net demo_blocks 100 9 1000 50 5 id KeyPool.demo_draw 2 0 15 (fun x _ => x) Stake.demo_stake_db Stake.demo_stake_disk
    (fun _ => demo_rs) (fun _ _ => 0) 5 10 false (fun _ => true) eq_refl demo_script (4 * COIN)
    (Init (of_tx (mk_tx TT_NORMAL 1000 [] [] 0 Tx.no_mint))) false 0 demo_filed demo_relay Sent x w' s' demo_ready demo_valid Hs).
Defined.

End witnesses.
End Commit.
