(* ===== verification/NetAddr.v ===== *)
(** * Network addresses, message headers and inventory (src/src/netbase.cpp,
    src/src/netbase.h, src/src/protocol.cpp, src/src/protocol.h)

    CNetAddr with its classification and groups, CService, CAddress,
    CMessageHeader and CInv, with their wire forms.  An address is its 16 bytes
    in network order.  Looking up names and opening sockets are left out. *)

From stdpp Require Import list.
From S2P Require Import Prelude Crypto Uint256 Serialize.

Definition CNetAddr : Type := list Z.

Record CService := mk_service { svc_ip : CNetAddr; svc_port : Z }.

(** nServices, nTime; nLastTry is in memory only. *)
Record CAddress := mk_address { ad_service : CService; ad_nServices : Z; ad_nTime : Z; ad_nLastTry : Z }.

Record CMessageHeader := mk_header { pchMessageStart : list Z; pchCommand : list Z; nMessageSize : Z; nChecksum : Z }.

Record CInv := mk_inv { inv_type : Z; inv_hash : Z }.

#[export] Instance CService_eq_dec : EqDecision CService.
Proof. solve_decision. Defined.

Module NetAddr.

(** ** CNetAddr *)

Definition net_Init : CNetAddr := replicate 16 0.

Definition pchIPv4 : list Z := replicate 10 0 ++ [0xff; 0xff].

(** [CNetAddr(const struct in_addr&)] *)
Definition from_ipv4 (ipv4 : list Z) : CNetAddr := pchIPv4 ++ ipv4.

Definition GetByte (ip : CNetAddr) (n : nat) : Z := rd ip (15 - n).

(** [memcmp(ip, pch, sizeof(pch)) == 0] *)
Definition starts (ip pch : list Z) : bool := bool_decide (take (length pch) ip = pch).

Definition IsIPv4 (ip : CNetAddr) : bool := starts ip pchIPv4.

Definition IsRFC1918 (ip : CNetAddr) : bool :=
  IsIPv4 ip && ((GetByte ip 3 =? 10) || ((GetByte ip 3 =? 192) && (GetByte ip 2 =? 168)) ||
                ((GetByte ip 3 =? 172) && ((16 <=? GetByte ip 2) && (GetByte ip 2 <=? 31)))).

Definition IsRFC3927 (ip : CNetAddr) : bool := IsIPv4 ip && ((GetByte ip 3 =? 169) && (GetByte ip 2 =? 254)).

Definition IsRFC3849 (ip : CNetAddr) : bool :=
  (GetByte ip 15 =? 0x20) && (GetByte ip 14 =? 0x01) && (GetByte ip 13 =? 0x0D) && (GetByte ip 12 =? 0xB8).

Definition IsRFC3964 (ip : CNetAddr) : bool := (GetByte ip 15 =? 0x20) && (GetByte ip 14 =? 0x02).

Definition IsRFC6052 (ip : CNetAddr) : bool := starts ip [0; 0x64; 0xFF; 0x9B; 0; 0; 0; 0; 0; 0; 0; 0].

Definition IsRFC4380 (ip : CNetAddr) : bool :=
  (GetByte ip 15 =? 0x20) && (GetByte ip 14 =? 0x01) && (GetByte ip 13 =? 0) && (GetByte ip 12 =? 0).

Definition IsRFC4862 (ip : CNetAddr) : bool := starts ip [0xFE; 0x80; 0; 0; 0; 0; 0; 0].

Definition IsRFC4193 (ip : CNetAddr) : bool := Z.land (GetByte ip 15) 0xFE =? 0xFC.

Definition IsRFC6145 (ip : CNetAddr) : bool := starts ip [0; 0; 0; 0; 0; 0; 0; 0; 0xFF; 0xFF; 0; 0].

Definition IsRFC4843 (ip : CNetAddr) : bool :=
  (GetByte ip 15 =? 0x20) && (GetByte ip 14 =? 0x01) && (GetByte ip 13 =? 0x00) && (Z.land (GetByte ip 12) 0xF0 =? 0x10).

Definition IsLocal (ip : CNetAddr) : bool :=
  (IsIPv4 ip && ((GetByte ip 3 =? 127) || (GetByte ip 3 =? 0))) || starts ip (replicate 15 0 ++ [1]).

Definition IsMulticast (ip : CNetAddr) : bool :=
  (IsIPv4 ip && (Z.land (GetByte ip 3) 0xF0 =? 0xE0)) || (GetByte ip 15 =? 0xFF).

Definition IsValid (ip : CNetAddr) : bool :=
  if starts ip (drop 3 pchIPv4) then false
  else if starts ip (replicate 16 0) then false
  else if IsRFC3849 ip then false
  else if IsIPv4 ip then
    if starts (drop 12 ip) (replicate 4 0xff) then false
    else if starts (drop 12 ip) (replicate 4 0) then false else true
  else true.

Definition IsRoutable (ip : CNetAddr) : bool :=
  IsValid ip && negb (IsRFC1918 ip || IsRFC3927 ip || IsRFC4862 ip || IsRFC4193 ip || IsRFC4843 ip || IsLocal ip).

Definition net_eq (a b : CNetAddr) : bool := bool_decide (take 16 a = take 16 b).

(** [memcmp(a.ip, b.ip, 16) < 0] *)
Fixpoint memcmp_lt (a b : list Z) : bool :=
  match a, b with
  | x :: a, y :: b => if x <? y then true else if y <? x then false else memcmp_lt a b
  | _, _ => false
  end.
Definition net_lt (a b : CNetAddr) : bool := memcmp_lt a b.

Definition GetInAddr (ip : CNetAddr) : option (list Z) := if IsIPv4 ip then Some (drop 12 ip) else None.

(** The bytes of the group: [while (nBits >= 8)], then the remaining bits. *)
Fixpoint group_bytes (ip : CNetAddr) (nBytes : nat) (nStartByte : nat) : list Z :=
  match nBytes with
  | O => []
  | S n => GetByte ip (15 - nStartByte) :: group_bytes ip n (S nStartByte)
  end.

Definition group_of (ip : CNetAddr) (nClass : Z) (nStartByte : nat) (nBits : Z) : list Z :=
  let n := Z.to_nat (nBits / 8) in
  let r := nBits mod 8 in
  nClass :: group_bytes ip n nStartByte ++
    (if 0 <? r then [u8 (Z.lor (GetByte ip (15 - (nStartByte + n))) (Z.shiftl 1 r - 1))] else []).

Definition GetGroup (ip : CNetAddr) : list Z :=
  let '(nClass, nBits) := if IsLocal ip then (254, 0) else (0, 16) in
  if negb (IsRoutable ip) then group_of ip 255 0 0
  else if IsIPv4 ip || IsRFC6145 ip || IsRFC6052 ip then group_of ip 1 12 nBits
  else if IsRFC3964 ip then group_of ip 1 2 nBits
  else if IsRFC4380 ip then [1; Z.lxor (GetByte ip 3) 0xFF; Z.lxor (GetByte ip 2) 0xFF]
  else if (GetByte ip 15 =? 0x20) && (GetByte ip 14 =? 0x11) && (GetByte ip 13 =? 0x04) && (GetByte ip 12 =? 0x70) then group_of ip nClass 0 36
  else group_of ip nClass 0 32.

Definition net_GetHash {D : DigestLib} (ip : CNetAddr) : Z := i64 (le_val (take 8 (Hash ip))).

(** ** CService and CAddress *)

Definition svc_Init : CService := mk_service net_Init 0.
Definition SetPort (s : CService) (portIn : Z) : CService := mk_service (svc_ip s) portIn.
Definition SetIP (s : CService) (ipIn : CNetAddr) : CService := mk_service ipIn (svc_port s).

Definition svc_eq (a b : CService) : bool := net_eq (svc_ip a) (svc_ip b) && (svc_port a =? svc_port b).
Definition svc_lt (a b : CService) : bool := net_lt (svc_ip a) (svc_ip b) || (net_eq (svc_ip a) (svc_ip b) && (svc_port a <? svc_port b)).

Definition GetKey (s : CService) : list Z := svc_ip s ++ [svc_port s / 0x100; Z.land (svc_port s) 0x0FF].

Definition NODE_NETWORK : Z := 1.

(** [CAddress(CService, nServices)]; [Init] sets the time to 100000000. *)
Definition address_of (s : CService) (nServices : Z) : CAddress := mk_address s nServices 100000000 0.
Definition address_Init : CAddress := address_of svc_Init NODE_NETWORK.

(** ** Wire forms *)

(** [FLATDATA(array)]: [n] raw bytes *)
Definition flat_codec (n : nat) : Codec (list Z) := mk_codec
  (fun a => length a = n /\ Forall is_byte a)
  (fun _ => Some (Z.of_nat n))
  (fun a => Some a)
  (fun (S : Type) (_ : Stream S) (s : S) => read s (Z.of_nat n)).

(** [htons], [ntohs] on a little-endian machine *)
Definition htons (p : Z) : Z := (p mod 256) * 256 + (p / 256) mod 256.

Definition port_codec : Codec Z := mk_codec
  (fun p => 0 <= p < 65536)
  (fun p => GetSerializeSize (uint_codec 2) (htons p))
  (fun p => Serialize (uint_codec 2) (htons p))
  (fun (S : Type) (_ : Stream S) (s : S) => '(n, s) ← Unserialize (uint_codec 2) s; Some (htons n, s)).

Definition service_codec : Codec CService :=
  class_codec (pair_codec (flat_codec 16) port_codec) (fun p => mk_service p.1 p.2) (fun s => (svc_ip s, svc_port s)).

(** As sent to a peer: nTime, nServices, address and port.  [Init] resets nLastTry. *)
Definition address_codec : Codec CAddress :=
  class_codec (tuple3_codec (uint_codec 4) (uint_codec 8) service_codec)
    (fun p => mk_address p.2 p.1.2 p.1.1 0) (fun a => (ad_nTime a, ad_nServices a, ad_service a)).

(** On disk the version comes first. *)
Definition disk_address_codec (nVersion : Z) : Codec CAddress :=
  class_codec (pair_codec (int_codec 4) address_codec) snd (fun a => (nVersion, a)).

Definition inv_codec : Codec CInv :=
  class_codec (pair_codec (int_codec 4) uint256_codec) (fun p => mk_inv p.1 p.2) (fun i => (inv_type i, inv_hash i)).

Definition header_codec : Codec CMessageHeader :=
  class_codec (tuple4_codec (flat_codec 4) (flat_codec 12) (uint_codec 4) (uint_codec 4))
    (fun p => mk_header p.1.1.1 p.1.1.2 p.1.2 p.2) (fun h => (pchMessageStart h, pchCommand h, nMessageSize h, nChecksum h)).

(** ** CMessageHeader *)

Definition COMMAND_SIZE : nat := 12.

Definition GetMessageStart (fTestNet : bool) : list Z :=
  if fTestNet then [0xe3; 0xc7; 0x9e; 0xdd] else [0x89; 0xfd; 0x9c; 0xad].

(** The characters up to the first zero. *)
Fixpoint c_string (l : list Z) : list Z :=
  match l with [] => [] | c :: l => if c =? 0 then [] else c :: c_string l end.

(** [strncpy(pchCommand, pszCommand, COMMAND_SIZE)] *)
Definition strncpy (n : nat) (s : list Z) : list Z := let s := take n (c_string s) in s ++ replicate (n - length s) 0.

Definition default_header (fTestNet : bool) : CMessageHeader :=
  mk_header (GetMessageStart fTestNet) (0 :: 1 :: replicate 10 0) 0xffffffff 0.

Definition new_header (fTestNet : bool) (pszCommand : list Z) (nMessageSizeIn : Z) : CMessageHeader :=
  mk_header (GetMessageStart fTestNet) (strncpy COMMAND_SIZE pszCommand) nMessageSizeIn 0.

Definition GetCommand (h : CMessageHeader) : list Z :=
  if rd (pchCommand h) 11 =? 0 then c_string (pchCommand h) else pchCommand h.

(** The loop over the command: printable characters, and only zeros from the
    first zero on.  Characters are signed. *)
Fixpoint command_ok (l : list Z) : bool :=
  match l with
  | [] => true
  | c :: l' =>
      if c =? 0 then forallb (Z.eqb 0) l
      else if (swrap 8 c <? 32) || (0x7E <? swrap 8 c) then false else command_ok l'
  end.

Definition header_IsValid (fTestNet : bool) (h : CMessageHeader) : bool :=
  if negb (bool_decide (pchMessageStart h = GetMessageStart fTestNet)) then false
  else if negb (command_ok (pchCommand h)) then false
  else negb (MAX_SIZE <? nMessageSize h).

(** ** CInv *)

(** "ERROR", "tx", "block", "sigpowhash" *)
Definition ppszTypeName : list (list Z) :=
  [[69; 82; 82; 79; 82]; [116; 120]; [98; 108; 111; 99; 107]; [115; 105; 103; 112; 111; 119; 104; 97; 115; 104]].

(** [CInv(const string&, const uint256&)]; [None]: the exception. *)
Definition inv_of_name (strType : list Z) (hashIn : Z) : option CInv :=
  '(i, _) ← list_find (fun n => n = strType) (drop 1 ppszTypeName); Some (mk_inv (Z.of_nat (S i)) hashIn).

Definition IsKnownType (i : CInv) : bool := (1 <=? inv_type i) && (inv_type i <? Z.of_nat (length ppszTypeName)).

Definition inv_GetCommand (i : CInv) : option (list Z) :=
  if IsKnownType i then ppszTypeName !! Z.to_nat (inv_type i) else None.

Definition inv_lt (a b : CInv) : bool :=
  (inv_type a <? inv_type b) || ((inv_type a =? inv_type b) && (inv_hash a <? inv_hash b)).

(** ** Properties *)

#[export] Instance flat_lawful n : FundamentalSize n -> Lawful (flat_codec n).
Proof.
  intros [H0 Hn] a [Ha Hb]. exists a. split; [done|]. split; [done|]. split; [cbn; rewrite Ha, u32_small by lia; done|].
  intros S HS HL s rest Hok E. cbn. rewrite <- Ha. apply read_prefix; [done|done|lia].
Qed.

Lemma htons_htons p : 0 <= p < 65536 -> 0 <= htons p < 65536 /\ htons (htons p) = p.
Proof.
  intros Hp. unfold htons. pose proof (Z.mod_pos_bound p 256). assert (0 <= p / 256 < 256) as Hd by (split; [apply Z.div_pos; lia|apply Z.div_lt_upper_bound; lia]).
  rewrite (Z.mod_small (p / 256)) by lia. split; [lia|].
  replace (p mod 256 * 256 + p / 256) with (p / 256 + p mod 256 * 256) by lia.
  rewrite Z_mod_plus_full, Z_div_plus_full, (Z.mod_small (p / 256)), (Z.div_small (p / 256)), Z.add_0_l, (Z.mod_small (p mod 256)) by lia.
  pose proof (Z.div_mod p 256). lia.
Qed.

#[export] Instance port_lawful : Lawful port_codec.
Proof.
  intros p Hp. cbn in Hp. destruct (htons_htons p Hp) as [Hr Hh]. destruct (uint_lawful 2 _ (htons p) Hr) as (bs & E1 & E2 & E3 & E4).
  exists bs. split; [done|]. split; [done|]. split; [done|]. intros S HS HL s rest Hok E. cbn. destruct (E4 S HS HL s rest Hok E) as (s' & Hs & ? & ?).
  cbn in Hs. rewrite Hs. cbn. rewrite Hh. eauto.
Qed.

#[export] Instance service_lawful : Lawful service_codec.
Proof. apply class_lawful; [by intros []|]. apply _. Qed.

(** What is sent is read back, without the time of the last attempt. *)
Lemma address_reads a bs : wf address_codec a -> Serialize address_codec a = Some bs ->
  reads address_codec (mk_address (ad_service a) (ad_nServices a) (ad_nTime a) 0) bs.
Proof.
  intros Wa Es. destruct (lawful (Lawful := _ : Lawful (tuple3_codec (uint_codec 4) (uint_codec 8) service_codec)) _ Wa) as (bs' & E1 & _ & _ & E4).
  cbn in Es, E1. rewrite Es in E1. injection E1 as <-. intros S HS HL s rest Hok E. cbn. destruct (E4 S HS HL s rest Hok E) as (s' & Hs & ? & ?). cbn in Hs. rewrite Hs. cbn. eauto.
Qed.

#[export] Instance inv_lawful : Lawful inv_codec.
Proof. apply class_lawful; [by intros []|]. apply _. Qed.

#[export] Instance header_lawful : Lawful header_codec.
Proof. apply class_lawful; [by intros []|]. apply _. Qed.

(** *** Groups *)

(** The forms in which an IPv6 address stands for the IPv4 address a.b.c.d:
    mapped, translated (RFC 6145, RFC 6052), 6to4 (RFC 3964) and Teredo. *)
Inductive stands_for (a b c d : Z) : CNetAddr -> Prop :=
  | sf_mapped : stands_for a b c d (from_ipv4 [a; b; c; d])
  | sf_translated : stands_for a b c d ([0; 0; 0; 0; 0; 0; 0; 0; 0xFF; 0xFF; 0; 0] ++ [a; b; c; d])
  | sf_prefix : stands_for a b c d ([0; 0x64; 0xFF; 0x9B; 0; 0; 0; 0; 0; 0; 0; 0] ++ [a; b; c; d])
  | sf_6to4 r : length r = 10%nat -> stands_for a b c d ([0x20; 0x02; a; b; c; d] ++ r)
  | sf_teredo r : length r = 8%nat ->
      stands_for a b c d ([0x20; 0x01; 0; 0] ++ r ++ [Z.lxor a 0xFF; Z.lxor b 0xFF; Z.lxor c 0xFF; Z.lxor d 0xFF]).

Lemma routable_not_local ip : IsRoutable ip = true -> IsLocal ip = false.
Proof. unfold IsRoutable. rewrite andb_true_iff, negb_true_iff, orb_false_iff. tauto. Qed.

Lemma starts_ne x ip y pch : x <> y -> starts (x :: ip) (y :: pch) = false.
Proof. intros Hne. apply bool_decide_eq_false. cbn. congruence. Qed.

Lemma group_ipv4 ip nStart : group_of ip 1 nStart 16 = [1; GetByte ip (15 - nStart); GetByte ip (15 - S nStart)].
Proof. done. Qed.

Lemma stands_for_group a b c d ip : stands_for a b c d ip -> IsRoutable ip = true -> GetGroup ip = [1; a; b].
Proof.
  intros Hs Hr. unfold GetGroup. rewrite (routable_not_local _ Hr), Hr. cbn [negb]. destruct Hs as [| | |r Hl|r Hl]; [done..|].
  unfold IsIPv4, IsRFC6145, IsRFC6052, pchIPv4. cbn [replicate app]. rewrite !(starts_ne 0x20 _ 0) by done. cbn [orb].
  do 9 (destruct r as [|? r]; try done). cbn. rewrite !Z.lxor_assoc, Z.lxor_nilpotent, !Z.lxor_0_r. done.
Qed.

(** An address that stands for no IPv4 address. *)
Definition native (ip : CNetAddr) : bool := negb (IsIPv4 ip || IsRFC6145 ip || IsRFC6052 ip || IsRFC3964 ip || IsRFC4380 ip).

Lemma native_group ip : native ip = true -> IsRoutable ip = true ->
  take 5 (GetGroup ip) = [0; GetByte ip 15; GetByte ip 14; GetByte ip 13; GetByte ip 12].
Proof.
  unfold native. rewrite negb_true_iff, !orb_false_iff. intros [[[[H1 H2] H3] H4] H5] Hr. unfold GetGroup.
  rewrite (routable_not_local _ Hr), Hr, H1, H2, H3, H4, H5. cbn [negb orb]. destruct (_ && _); done.
Qed.

(** Addresses that stand for IPv4 addresses are in one group exactly when the
    first two bytes of the IPv4 addresses agree, in whatever form they are
    given; other routable addresses are in groups of their own with at least
    the first four bytes in common; and all that is not routable, local
    addresses too, is one group. *)
Theorem groups_by_network ip ip' :
  (forall a b c d a' b' c' d', stands_for a b c d ip -> stands_for a' b' c' d' ip' -> IsRoutable ip = true -> IsRoutable ip' = true ->
     GetGroup ip = GetGroup ip' <-> a = a' /\ b = b') /\
  (forall a b c d, stands_for a b c d ip -> native ip' = true -> IsRoutable ip = true -> IsRoutable ip' = true -> GetGroup ip <> GetGroup ip') /\
  (native ip = true -> native ip' = true -> IsRoutable ip = true -> IsRoutable ip' = true -> GetGroup ip = GetGroup ip' ->
     forall n, (12 <= n <= 15)%nat -> GetByte ip n = GetByte ip' n) /\
  (IsRoutable ip = false -> GetGroup ip = [255]) /\ (IsLocal ip = true -> IsRoutable ip = false).
Proof.
  split; [|split; [|split; [|split]]].
  - intros a b c d a' b' c' d' Hs Hs' Hr Hr'. rewrite (stands_for_group _ _ _ _ _ Hs Hr), (stands_for_group _ _ _ _ _ Hs' Hr').
    split; [by intros [= <- <-]|by intros [-> ->]].
  - intros a b c d Hs Hn Hr Hr' E. apply (f_equal (take 5)) in E. rewrite (stands_for_group _ _ _ _ _ Hs Hr), native_group in E by done. done.
  - intros Hn Hn' Hr Hr' E n Hnn. apply (f_equal (take 5)) in E. rewrite !native_group in E by done. injection E as E1 E2 E3 E4.
    assert (n = 12 \/ n = 13 \/ n = 14 \/ n = 15)%nat as [->|[->|[->| ->]]] by lia; done.
  - intros Hr. unfold GetGroup. rewrite Hr. by destruct (IsLocal ip).
  - intros Hl. destruct (IsRoutable ip) eqn:Hr; [|done]. apply routable_not_local in Hr. congruence.
Qed.

(** *** Commands *)

Lemma c_string_all l : Forall (fun c => c <> 0) l -> c_string l = l.
Proof. induction 1 as [|c l Hc Hl IH]; [done|]. cbn. rewrite (proj2 (Z.eqb_neq c 0)) by done. by rewrite IH. Qed.

Lemma c_string_pad l n : Forall (fun c => c <> 0) l -> c_string (l ++ replicate n 0) = l.
Proof. intros H. induction H as [|c l Hc Hl IH]; [by destruct n|]. cbn. rewrite (proj2 (Z.eqb_neq c 0)) by done. by rewrite IH. Qed.

Lemma command_ok_pad l n : Forall (fun c => 32 <= c <= 0x7E) l -> command_ok (l ++ replicate n 0) = true.
Proof.
  induction 1 as [|c l Hc Hl IH].
  - destruct n as [|n]; [done|]. cbn [app replicate command_ok Z.eqb]. induction n; [done|]. cbn in *. done.
  - cbn [app command_ok]. rewrite (proj2 (Z.eqb_neq c 0)) by lia. assert (swrap 8 c = c) as -> by (apply swrap_small; lia).
    rewrite (proj2 (Z.ltb_ge c 32)), (proj2 (Z.ltb_ge 0x7E c)) by lia. done.
Qed.

Lemma strncpy_fits n l : Forall (fun c => c <> 0) l -> (length l <= n)%nat -> strncpy n l = l ++ replicate (n - length l) 0.
Proof. intros Hl Hn. unfold strncpy. by rewrite c_string_all, take_ge. Qed.

Lemma printable_nonzero l : Forall (fun c => 32 <= c <= 0x7E) l -> Forall (fun c => c <> 0) l.
Proof. intros H. eapply Forall_impl; [exact H|]. cbn. lia. Qed.

Lemma command_ok_printable l : Forall is_byte l -> command_ok l = true -> Forall (fun c => 32 <= c <= 0x7E) (c_string l).
Proof.
  induction 1 as [|c l Hc Hl IH]; [done|]. cbn [command_ok c_string]. destruct (Z.eqb_spec c 0) as [->|Hz]; [done|].
  destruct (_ || _) eqn:Eo; [done|]. apply orb_false_iff in Eo as [E1%Z.ltb_ge E2%Z.ltb_ge]. intros Hok. constructor; [|by apply IH].
  unfold is_byte in Hc. destruct (Z.lt_decidable c 128) as [Hs|Hs].
  - rewrite swrap_small in E1, E2 by lia. lia.
  - unfold swrap in E1. change (2 ^ 8) with 256 in E1. change (2 ^ (8 - 1)) with 128 in E1.
    replace ((c + 128) mod 256) with (c - 128) in E1; [lia|]. apply (Zmod_unique _ _ 1); lia.
Qed.

(** A header made for a printable command of at most twelve characters is
    valid exactly when the message is not too large, gives the command back and
    is read back from what is sent; and any header that is accepted has a
    printable command and an allowed size. *)
Theorem headers_carry_commands fTestNet pszCommand nSize h :
  Forall (fun c => 32 <= c <= 0x7E) pszCommand -> (length pszCommand <= COMMAND_SIZE)%nat -> 0 <= nSize < 2 ^ 32 ->
  let made := new_header fTestNet pszCommand nSize in
  header_IsValid fTestNet made = (nSize <=? MAX_SIZE) /\ GetCommand made = pszCommand /\
  (exists bs, Serialize header_codec made = Some bs /\ reads header_codec made bs) /\
  (Forall is_byte (pchCommand h) -> header_IsValid fTestNet h = true ->
     nMessageSize h <= MAX_SIZE /\ Forall (fun c => 32 <= c <= 0x7E) (c_string (pchCommand h))).
Proof.
  intros Hp Hl Hn made. pose proof (printable_nonzero _ Hp) as Hz.
  assert (pchCommand made = pszCommand ++ replicate (12 - length pszCommand) 0) as Ec by (apply strncpy_fits; done).
  unfold COMMAND_SIZE in Hl. split; [|split; [|split]].
  - unfold header_IsValid. rewrite Ec, command_ok_pad by done. rewrite bool_decide_true by done. cbn. by rewrite Z.leb_antisym.
  - unfold GetCommand. rewrite Ec. destruct (decide (length pszCommand = 12%nat)) as [E|E].
    + rewrite E, Nat.sub_diag, app_nil_r. rewrite c_string_all by done. by destruct (_ =? _).
    + rewrite c_string_pad by done. unfold rd. rewrite lookup_app_r by lia.
      rewrite lookup_replicate_2 by lia. done.
  - destruct (lawful (Lawful := header_lawful) made) as (bs & E1 & _ & _ & E4); [|eauto].
    unfold made in *. cbn [pchCommand new_header] in Ec.
    cbn [wf header_codec class_codec tuple4_codec tuple3_codec pair_codec flat_codec uint_codec fst snd new_header pchMessageStart pchCommand nMessageSize nChecksum].
    rewrite Ec. split; [split; [split|]|]; [destruct fTestNet; (split; [done|by repeat constructor])|split|done|done].
    + rewrite length_app, length_replicate. lia.
    + rewrite Forall_app. split; [eapply Forall_impl; [exact Hp|unfold is_byte; lia]|by apply Forall_replicate].
  - unfold header_IsValid. destruct (negb (bool_decide _)); [done|]. destruct (command_ok _) eqn:Eo; [|done].
    intros Hb Hm. cbn in Hm. apply negb_true_iff, Z.ltb_ge in Hm. split; [done|]. by apply command_ok_printable.
Qed.

(** "getblocks" *)
Definition demo_command : list Z := [103; 101; 116; 98; 108; 111; 99; 107; 115].

Lemma headers_carry_commands_witness :
  header_IsValid false (new_header false demo_command 1029) = true /\ GetCommand (new_header false demo_command 1029) = demo_command /\
  header_IsValid false (default_header false) = false.
Proof.
  destruct (headers_carry_commands false demo_command 1029 (default_header false)) as (Hv & Hc & _ & _);
    [by repeat constructor|vm_compute; lia|lia|]. split; [exact Hv|]. split; [exact Hc|reflexivity].
Defined.

(** Two hosts of one IPv4 network, the second reached through 6to4. *)
Lemma groups_by_network_witness :
  GetGroup (from_ipv4 [8; 9; 1; 2]) = GetGroup ([0x20; 0x02; 8; 9; 7; 7] ++ replicate 10 3) /\
  GetGroup (from_ipv4 [8; 9; 1; 2]) <> GetGroup ([0x2a; 1; 2; 3] ++ replicate 12 4) /\
  GetGroup (from_ipv4 [10; 9; 1; 2]) = [255].
Proof.
  split; [|split].
  - apply (proj1 (groups_by_network (from_ipv4 [8; 9; 1; 2]) ([0x20; 0x02; 8; 9; 7; 7] ++ replicate 10 3)) 8 9 1 2 8 9 7 7);
      [constructor|by constructor|reflexivity|reflexivity|done].
  - apply (proj1 (proj2 (groups_by_network (from_ipv4 [8; 9; 1; 2]) ([0x2a; 1; 2; 3] ++ replicate 12 4))) 8 9 1 2);
      [constructor|reflexivity|reflexivity|reflexivity].
  - apply (groups_by_network (from_ipv4 [10; 9; 1; 2]) net_Init). reflexivity.
Defined.

End NetAddr.
