(* ===== verification/Framing.v ===== *)
(** * Messages on the wire (src/src/net.h, src/src/main.cpp)

    A peer appends messages to its send buffer ([BeginMessage], [EndMessage],
    [PushMessage]); the receiver cuts the bytes that have arrived into messages
    again and processes each ([ProcessMessages]).  The buffers are the unread
    bytes of CDataStreams.  What a message does is a parameter of the loop; the
    options that drop messages for tests are left out. *)

From stdpp Require Import gmap.
From S2P Require Import Prelude Uint256 Crypto Serialize NetAddr.
Import NetAddr.

(** The send buffer of a peer, and where the message being written begins: the
    header as an int, the message as an unsigned int. *)
Record sender := mk_sender { vSend : list Z; nHeaderStart : Z; nMessageStart : Z }.

(** What the bytes at the front of the buffer are. *)
Inductive scanned := Waits (buf : list Z) | Skips (buf : list Z) | Delivers (strCommand vMsg buf : list Z).

Module Framing.

Section framing.
Context {D : DigestLib} (fTestNet : bool).

(** [memcpy] of the first four bytes of the hash. *)
Definition checksum (bs : list Z) : Z := le_val (take 4 (Hash bs)).

(** ** Sending *)

Definition idle (bs : list Z) : sender := mk_sender bs (-1) (u32 (-1)).

Definition AbortMessage (p : sender) : sender :=
  if nHeaderStart p <? 0 then p else idle (take (Z.to_nat (nHeaderStart p)) (vSend p)).

Definition BeginMessage (pszCommand : list Z) (p : sender) : option sender :=
  let p := if negb (nHeaderStart p =? -1) then AbortMessage p else p in
  hdr ← Serialize header_codec (new_header fTestNet pszCommand 0);
  Some (mk_sender (vSend p ++ hdr) (i32 (Z.of_nat (length (vSend p)))) (u32 (Z.of_nat (length (vSend p ++ hdr))))).

(** [vSend << ...] *)
Definition append_data (bs : list Z) (p : sender) : sender := mk_sender (vSend p ++ bs) (nHeaderStart p) (nMessageStart p).

(** [memcpy] into the buffer. *)
Definition overwrite (off : nat) (bs buf : list Z) : list Z := take off buf ++ bs ++ drop (off + length bs) buf.

(** The offsets of nMessageSize and nChecksum in CMessageHeader. *)
Definition size_offset : nat := 16.
Definition checksum_offset : nat := 20.

(** [None]: the assertion fails. *)
Definition EndMessage (p : sender) : option sender :=
  if nHeaderStart p <? 0 then Some p
  else
    let start := Z.to_nat (nHeaderStart p) in
    let nSize := u32 (Z.of_nat (length (vSend p)) - nMessageStart p) in
    let buf := overwrite (start + size_offset) (le_bytes 4 nSize) (vSend p) in
    let nChecksum := checksum (drop (Z.to_nat (nMessageStart p)) buf) in
    if negb (Z.of_nat checksum_offset + 4 <=? u32 (nMessageStart p - nHeaderStart p)) then None
    else Some (idle (overwrite (start + checksum_offset) (le_bytes 4 nChecksum) buf)).

Definition EndMessageAbortIfEmpty (p : sender) : option sender :=
  if nHeaderStart p <? 0 then Some p
  else if 0 <? i32 (Z.of_nat (length (vSend p)) - nMessageStart p) then EndMessage p else Some (AbortMessage p).

Definition PushMessage (pszCommand data : list Z) (p : sender) : option sender :=
  p ← BeginMessage pszCommand p; EndMessage (append_data data p).

(** ** Receiving *)

(** [std::search]: where [pat] begins, or the end. *)
Fixpoint search (pat l : list Z) : nat :=
  match l with
  | [] => 0
  | _ :: r => if bool_decide (take (length pat) l = pat) then 0 else S (search pat r)
  end.

Definition nHeaderSize : nat := 24.

(** One round of the loop up to the message itself; [None]: reading the header
    throws. *)
Definition next_message (buf : list Z) : option scanned :=
  let pstart := search (GetMessageStart fTestNet) buf in
  if bool_decide (length buf - pstart < nHeaderSize)%nat
  then Some (Waits (if bool_decide (nHeaderSize < length buf)%nat then drop (length buf - nHeaderSize) buf else buf))
  else
    let buf := drop pstart buf in
    let vHeaderSave := take nHeaderSize buf in
    '(hdr, vRecv) ← Unserialize header_codec buf;
    if negb (header_IsValid fTestNet hdr) then Some (Skips vRecv)
    else
      let n := nMessageSize hdr in
      if MAX_SIZE <? n then Some (Skips vRecv)
      else if Z.of_nat (length vRecv) <? n then Some (Waits (vHeaderSave ++ vRecv))
      else if negb (checksum (take (Z.to_nat n) vRecv) =? nChecksum hdr) then Some (Skips vRecv)
      else Some (Delivers (GetCommand hdr) (take (Z.to_nat n) vRecv) (drop (Z.to_nat n) vRecv)).

Section receive.
(** The state of the node, what a message does to it, also when an exception ends
    it, and whether the loop stops there: [fShutdown s] says that the message has
    returned and fShutdown is set (after an exception the loop does not look). *)
Context {S : Type} (process : list Z -> list Z -> S -> S) (fShutdown : S -> bool).

(** The loop; the outer [None]: out of fuel. *)
Fixpoint receive_loop (fuel : nat) (buf : list Z) (s : S) : option (option (list Z * S)) :=
  match fuel with
  | O => None
  | Datatypes.S fuel =>
      match next_message buf with
      | None => Some None
      | Some (Waits buf) => Some (Some (buf, s))
      | Some (Skips buf) => receive_loop fuel buf s
      | Some (Delivers strCommand vMsg buf) =>
          let s := process strCommand vMsg s in
          if fShutdown s then Some (Some (buf, s)) else receive_loop fuel buf s
      end
  end.

(** A round takes at least a header off the buffer. *)
Definition ProcessMessages (buf : list Z) (s : S) : option (list Z * S) :=
  if bool_decide (buf = []) then Some (buf, s) else default None (receive_loop (Datatypes.S (length buf)) buf s).

End receive.

(** ** The bytes of a message *)

Definition frame (m : list Z * list Z) : list Z :=
  GetMessageStart fTestNet ++ strncpy COMMAND_SIZE m.1 ++ le_bytes 4 (Z.of_nat (length m.2)) ++ le_bytes 4 (checksum m.2) ++ m.2.

Definition frames (l : list (list Z * list Z)) : list Z := concat (frame <$> l).

(** A printable command of at most twelve characters, and a body of bytes that is
    not too large. *)
Definition message_ok (m : list Z * list Z) : Prop :=
  Forall (fun c => 32 <= c <= 0x7E) m.1 /\ (length m.1 <= COMMAND_SIZE)%nat /\ Forall is_byte m.2 /\ Z.of_nat (length m.2) <= MAX_SIZE.

End framing.

(** ** Sending and receiving *)

Section delivery.
Context {D : DigestLib} {HD : DigestLaws D} (fTestNet : bool).

#[local] Abbreviation frame := (frame fTestNet).
#[local] Abbreviation frames := (frames fTestNet).

(** The header of a message. *)
Definition header_for (m : list Z * list Z) : CMessageHeader :=
  mk_header (GetMessageStart fTestNet) (strncpy COMMAND_SIZE m.1) (Z.of_nat (length m.2)) (checksum m.2).

Definition header_part (m : list Z * list Z) : list Z :=
  GetMessageStart fTestNet ++ strncpy COMMAND_SIZE m.1 ++ le_bytes 4 (Z.of_nat (length m.2)) ++ le_bytes 4 (checksum m.2).

Lemma frame_parts m : frame m = header_part m ++ m.2.
Proof. unfold Framing.frame, header_part. by rewrite <- !app_assoc. Qed.

Lemma strncpy_length n l : length (strncpy n l) = n.
Proof. unfold strncpy. rewrite length_app, length_replicate, length_take. lia. Qed.

Lemma header_part_length m : length (header_part m) = 24%nat.
Proof. unfold header_part. rewrite !length_app, strncpy_length, !length_le_bytes. by destruct fTestNet. Qed.

Lemma checksum_range bs : 0 <= checksum bs < 2 ^ 32.
Proof.
  unfold checksum. pose proof (Forall_take _ 4%nat _ (SHA256_bytes (SHA256 bs))) as Hb. pose proof (le_val_range _ Hb) as Hr.
  rewrite length_take, SHA256_length in Hr. exact Hr.
Qed.

Lemma strncpy_bytes n l : Forall (fun c => 32 <= c <= 0x7E) l -> Forall is_byte (strncpy n l).
Proof.
  intros Hl. unfold strncpy. rewrite c_string_all by (by apply printable_nonzero). apply Forall_app. split.
  - apply Forall_take. eapply Forall_impl; [exact Hl|]. unfold is_byte. cbn. lia.
  - apply Forall_replicate. unfold is_byte. lia.
Qed.

(** The header is read back, and it is valid. *)
Lemma read_header m rest : message_ok m -> Unserialize header_codec (header_part m ++ rest) = Some (header_for m, rest).
Proof.
  intros (Hp & Hl & Hb & Hn). pose proof (checksum_range m.2). unfold MAX_SIZE in Hn.
  destruct (lawful (Lawful := header_lawful) (header_for m)) as (bs & E1 & _ & _ & E4).
  { cbn. split; [split; [split|]|]; [destruct fTestNet; (split; [done|by repeat constructor])|split; [apply strncpy_length|by apply strncpy_bytes]|lia|done]. }
  cbn in E1. injection E1 as <-.
  destruct (E4 (list Z) list_stream list_stream_laws (header_part m ++ rest) rest) as (s' & Hs & Hc & _); [done| |].
  - cbn. unfold header_part, header_for. cbn. by rewrite <- !app_assoc.
  - change (s' = rest) in Hc. by subst s'.
Qed.

Lemma header_for_valid m : message_ok m -> header_IsValid fTestNet (header_for m) = true /\ GetCommand (header_for m) = m.1.
Proof.
  intros (Hp & Hl & Hb & Hn). pose proof (printable_nonzero _ Hp) as Hz. unfold COMMAND_SIZE in Hl.
  assert (pchCommand (header_for m) = m.1 ++ replicate (12 - length m.1) 0) as Ec by (cbn; by apply strncpy_fits). split.
  - unfold header_IsValid. rewrite Ec, command_ok_pad, bool_decide_true by done. cbn. by rewrite (proj2 (Z.ltb_ge _ _)).
  - unfold GetCommand. rewrite Ec. destruct (decide (length m.1 = 12%nat)) as [E|E].
    + rewrite E, Nat.sub_diag, app_nil_r, c_string_all by done. by destruct (_ =? _).
    + rewrite c_string_pad by done. unfold rd. rewrite lookup_app_r, lookup_replicate_2 by lia. done.
Qed.

Lemma search_here pat r : pat <> [] -> search pat (pat ++ r) = 0%nat.
Proof. intros Hp. destruct pat as [|x pat]; [done|]. cbn [app search]. rewrite bool_decide_true; [done|]. cbn. by rewrite take_app_length. Qed.

Lemma search_frame m r : search (GetMessageStart fTestNet) (header_part m ++ r) = 0%nat.
Proof. unfold header_part. rewrite <- !app_assoc. apply search_here. by destruct fTestNet. Qed.

(** A whole message at the front is delivered. *)
Lemma next_whole m rest : message_ok m -> next_message fTestNet (frame m ++ rest) = Some (Delivers m.1 m.2 rest).
Proof.
  intros Hm. rewrite frame_parts, <- app_assoc. unfold next_message. rewrite search_frame, drop_0, Nat.sub_0_r.
  rewrite bool_decide_false by (rewrite length_app, header_part_length; unfold nHeaderSize; lia). rewrite read_header by done. cbn [mbind option_bind].
  destruct (header_for_valid m Hm) as [-> ->]. cbn [negb nMessageSize header_for nChecksum]. destruct Hm as (_ & _ & _ & Hn).
  rewrite (proj2 (Z.ltb_ge _ _)) by done. rewrite (proj2 (Z.ltb_ge _ _)) by (rewrite length_app; lia).
  rewrite Nat2Z.id, take_app_length, drop_app_length, Z.eqb_refl. done.
Qed.

(** A message of which a part is missing waits as it is. *)
Lemma next_part m q r : message_ok m -> frame m = q ++ r -> r <> [] -> next_message fTestNet q = Some (Waits q).
Proof.
  intros Hm Hf Hr. rewrite frame_parts in Hf. unfold next_message. destruct (decide (length q < 24)%nat) as [Hs|Hs].
  { rewrite bool_decide_true by (unfold nHeaderSize; lia). rewrite bool_decide_false by (unfold nHeaderSize; lia). done. }
  assert (exists k, q = header_part m ++ k /\ m.2 = k ++ r) as (k & -> & Hk).
  { exists (drop 24 q). assert (take 24 q = header_part m) as Ht.
    { apply (f_equal (take 24)) in Hf. rewrite take_app_length' in Hf by (by rewrite header_part_length). rewrite take_app_le in Hf by lia. done. }
    split; [by rewrite <- Ht, take_drop|]. rewrite <- (take_drop 24 q), Ht, <- app_assoc in Hf. by apply app_inv_head in Hf. }
  rewrite search_frame, drop_0, Nat.sub_0_r. rewrite bool_decide_false by (unfold nHeaderSize; lia). rewrite read_header by done. cbn [mbind option_bind].
  rewrite (proj1 (header_for_valid m Hm)). cbn [negb nMessageSize header_for]. destruct Hm as (_ & _ & _ & Hn). rewrite (proj2 (Z.ltb_ge _ _)) by done.
  assert (length r <> 0%nat) by (by destruct r). rewrite (proj2 (Z.ltb_lt _ _)) by (rewrite Hk, length_app; lia).
  by rewrite take_app_length' by (by rewrite header_part_length).
Qed.

(** The buffer between two calls: the beginning of a message, or nothing. *)
Definition pending (q : list Z) (l : list (list Z * list Z)) : Prop :=
  match l with [] => q = [] | m :: _ => exists r, frame m = q ++ r /\ r <> [] end.

Lemma pending_waits q l : Forall message_ok l -> pending q l -> next_message fTestNet q = Some (Waits q).
Proof. intros Hl Hp. destruct l as [|m l]; [unfold pending in Hp; by subst q|]. apply Forall_cons in Hl as [Hm _]. destruct Hp as (r & Hf & Hr). by eapply next_part. Qed.

(** Bytes that have arrived are whole messages and a pending one. *)
Lemma split_frames l : forall b c, frames l = b ++ c -> exists l1 l2 q, l = l1 ++ l2 /\ b = frames l1 ++ q /\ pending q l2.
Proof.
  induction l as [|m l IH]; intros b c H; cbn in H.
  - symmetry in H. apply app_nil in H as [-> ->]. by exists [], [], [].
  - fold (frames l) in H. apply app_eq_inv in H as [(k & Hb & Hc)|(k & Hb & Hc)].
    + destruct k as [|x k].
      * rewrite app_nil_r in Hb. cbn in Hc. destruct (IH [] c ltac:(by rewrite Hc)) as (l1 & l2 & q & -> & Hq & Hp). exists (m :: l1), l2, q. split; [done|].
        split; [|done]. cbn. fold (frames l1). rewrite <- app_assoc, <- Hq, app_nil_r. done.
      * exists [], (m :: l), b. split; [done|]. split; [done|]. cbn. eauto.
    + destruct (IH k c Hc) as (l1 & l2 & q & -> & Hq & Hp). exists (m :: l1), l2, q. split; [done|]. split; [|done].
      cbn. fold (frames l1). by rewrite Hb, Hq, app_assoc.
Qed.

Section loop.
Context {S : Type} (process : list Z -> list Z -> S -> S) (fShutdown : S -> bool).
Context (running : forall s, fShutdown s = false).

#[local] Abbreviation run := (foldl (fun s m => process m.1 m.2 s)).

Lemma receive_frames l q rest : Forall message_ok l -> Forall message_ok rest -> pending q rest -> forall fuel s, (length l < fuel)%nat ->
  receive_loop fTestNet process fShutdown fuel (frames l ++ q) s = Some (Some (q, run s l)).
Proof.
  intros Hl Hrest Hp. induction Hl as [|m l Hm Hl IH]; intros [|fuel] s Hf; try (cbn in Hf; lia); cbn [receive_loop].
  - cbn [Framing.frames fmap list_fmap concat app]. by rewrite (pending_waits q rest).
  - cbn [Framing.frames fmap list_fmap concat]. fold (frames l). rewrite <- app_assoc, next_whole by done. rewrite running. cbn in Hf. apply IH. lia.
Qed.

Lemma frames_length l : (length l <= length (frames l))%nat.
Proof.
  induction l as [|m l IH]; [done|]. cbn. fold (frames l). rewrite length_app, frame_parts, length_app, header_part_length. lia.
Qed.

Lemma ProcessMessages_frames l q rest s : Forall message_ok l -> Forall message_ok rest -> pending q rest ->
  ProcessMessages fTestNet process fShutdown (frames l ++ q) s = Some (q, run s l).
Proof.
  intros Hl Hrest Hp. unfold ProcessMessages. case_bool_decide as He.
  - apply app_nil in He as [He ->]. pose proof (frames_length l) as Hlen. rewrite He in Hlen. destruct l as [|m l]; [done|cbn in Hlen; lia].
  - rewrite (receive_frames l q rest); try done. pose proof (frames_length l). rewrite length_app. lia.
Qed.

(** The bytes arrive in pieces, and after each the messages are processed. *)
Definition receive_all (pieces : list (list Z)) (st : list Z * S) : option (list Z * S) :=
  foldl (fun acc c => '(buf, s) ← acc; ProcessMessages fTestNet process fShutdown (buf ++ c) s) (Some st) pieces.

Lemma pending_end q l : pending q l -> frames l = q -> l = [].
Proof.
  destruct l as [|m l]; [done|]. cbn. fold (frames l). intros (r & Hf & Hr) H. rewrite Hf, <- app_assoc in H.
  apply (f_equal length) in H. rewrite !length_app in H. destruct r; [done|]. cbn in H. lia.
Qed.

Lemma receive_all_frames pieces : forall q rest s, Forall message_ok rest -> pending q rest -> q ++ concat pieces = frames rest ->
  receive_all pieces (q, s) = Some ([], run s rest).
Proof.
  induction pieces as [|c pieces IH]; intros q rest s Hrest Hp Hb.
  - cbn in Hb. rewrite app_nil_r in Hb. pose proof (pending_end q rest Hp (eq_sym Hb)) as ->. cbn in Hp. by subst q.
  - cbn in Hb. rewrite app_assoc in Hb. destruct (split_frames rest (q ++ c) (concat pieces) (eq_sym Hb)) as (l1 & l2 & q2 & -> & Hq & Hp2).
    apply Forall_app in Hrest as [H1 H2]. unfold receive_all. cbn [foldl mbind option_bind]. rewrite Hq, (ProcessMessages_frames l1 q2 l2) by done.
    fold (receive_all pieces (q2, run s l1)). rewrite (IH q2 l2), foldl_app; try done.
    rewrite Hq in Hb. unfold Framing.frames in Hb. rewrite fmap_app, concat_app, <- app_assoc in Hb. by apply app_inv_head in Hb.
Qed.

End loop.

(** *** Sending *)

Lemma overwrite_at a x y b off : off = length a -> length x = length y -> overwrite off x (a ++ y ++ b) = a ++ x ++ b.
Proof.
  intros -> Hl. unfold overwrite. rewrite take_app_length. f_equal. f_equal. rewrite app_assoc.
  apply drop_app_length'. rewrite length_app. lia.
Qed.

Lemma PushMessage_frame m bs : message_ok m -> Z.of_nat (length bs) + 24 < 2 ^ 31 -> PushMessage fTestNet m.1 m.2 (idle bs) = Some (idle (bs ++ frame m)).
Proof.
  intros (_ & _ & _ & Hn) Hbs. unfold PushMessage, BeginMessage. cbn [nHeaderStart idle Z.eqb Pos.eqb negb].
  set (a := GetMessageStart fTestNet ++ strncpy COMMAND_SIZE m.1). set (z := le_bytes 4 0).
  assert (length a = 16%nat) as Ha by (unfold a; rewrite length_app, strncpy_length; by destruct fTestNet).
  assert (Serialize header_codec (new_header fTestNet m.1 0) = Some (a ++ z ++ z)) as Hser.
  { cbn -[GetMessageStart strncpy]. unfold a, z. by rewrite <- !app_assoc. }
  rewrite Hser. cbn [mbind option_bind]. unfold append_data, EndMessage. cbn [vSend nHeaderStart nMessageStart idle].
  rewrite i32_small by lia.
  rewrite (proj2 (Z.ltb_ge _ _)) by lia. rewrite Nat2Z.id. rewrite !length_app, Ha. assert (length z = 4%nat) as Hz by apply length_le_bytes. rewrite !Hz.
  rewrite (u32_small (Z.of_nat (length bs + (16 + (4 + 4))))) by lia.
  replace (Z.of_nat (length bs + (16 + (4 + 4)) + length m.2) - Z.of_nat (length bs + (16 + (4 + 4)))) with (Z.of_nat (length m.2)) by lia.
  rewrite !u32_small by (unfold MAX_SIZE in Hn; lia).
  rewrite (proj2 (Z.leb_le _ _)) by (unfold checksum_offset; lia). cbn [negb].
  assert ((bs ++ a ++ z ++ z) ++ m.2 = (bs ++ a) ++ z ++ (z ++ m.2)) as -> by (by rewrite <- !app_assoc).
  rewrite overwrite_at by (by rewrite ?length_app, ?length_le_bytes, ?Ha). rewrite Nat2Z.id.
  set (n := le_bytes 4 (Z.of_nat (length m.2))).
  replace (drop (length bs + (16 + (4 + 4))) ((bs ++ a) ++ n ++ z ++ m.2)) with m.2.
  2:{ rewrite !app_assoc. symmetry. apply drop_app_length'. rewrite !length_app, Ha. unfold n, z. rewrite !length_le_bytes. lia. }
  rewrite (app_assoc (bs ++ a) n). rewrite overwrite_at;
    [|rewrite !length_app, Ha; unfold n, checksum_offset; rewrite length_le_bytes; lia|unfold z; by rewrite !length_le_bytes].
  do 2 f_equal. unfold Framing.frame, a, n. by rewrite <- !app_assoc.
Qed.

Lemma push_all l : forall bs, Forall message_ok l -> Z.of_nat (length (bs ++ frames l)) < 2 ^ 31 ->
  foldl (fun acc (m : list Z * list Z) => p ← acc; PushMessage fTestNet m.1 m.2 p) (Some (idle bs)) l = Some (idle (bs ++ frames l)).
Proof.
  induction l as [|m l IH]; intros bs Hl Hs; cbn [foldl]; [cbn; by rewrite app_nil_r|]. apply Forall_cons in Hl as [Hm Hl].
  unfold Framing.frames in *. cbn [fmap list_fmap concat] in *. rewrite app_assoc in Hs |- *. cbn [mbind option_bind]. rewrite PushMessage_frame; [by apply IH|done|].
  rewrite !length_app, frame_parts, length_app, header_part_length in Hs. lia.
Qed.

End delivery.

(** ** Any bytes *)

Section robust.
Context {D : DigestLib} (fTestNet : bool).

Lemma search_le pat l : (search pat l <= length l)%nat.
Proof. induction l as [|x l IH]; cbn; [done|]. case_bool_decide; lia. Qed.

Lemma read_header_shorter buf h rest : Unserialize header_codec buf = Some (h, rest) -> (length rest + 24 = length buf)%nat /\ buf = take 24 buf ++ rest.
Proof.
  cbn. repeat (case_bool_decide; cbn [mbind option_bind fst snd]; [|done]). intros [= _ <-]. rewrite !drop_drop in *. rewrite !Nat2Z.id in *.
  cbn [Nat.add] in *. rewrite !length_drop in *. split; [lia|by rewrite take_drop].
Qed.

Lemma read_header_total buf : (24 <= length buf)%nat -> exists h rest, Unserialize header_codec buf = Some (h, rest).
Proof.
  intros Hl. cbn. repeat (rewrite bool_decide_true by (rewrite ?length_drop, ?Nat2Z.id; lia); cbn [mbind option_bind fst snd]). eauto.
Qed.

(** What a round does with any bytes: it never throws, what it leaves is shorter
    unless it waits, and a message that is delivered has a valid header and the
    checksum of its body. *)
Lemma next_message_spec buf : exists x, next_message fTestNet buf = Some x /\
  match x with
  | Waits b => exists pre, buf = pre ++ b
  | Skips b => (length b + 24 <= length buf)%nat
  | Delivers c v b => exists pre h, buf = pre ++ v ++ b /\ (24 <= length pre)%nat /\ header_IsValid fTestNet h = true /\ c = GetCommand h /\
      Z.of_nat (length v) = Z.max 0 (nMessageSize h) /\ checksum v = nChecksum h
  end.
Proof.
  unfold next_message. set (k := search _ buf). pose proof (search_le (GetMessageStart fTestNet) buf) as Hk. fold k in Hk. case_bool_decide as Hs.
  { eexists. split; [done|]. case_bool_decide; [exists (take (length buf - nHeaderSize) buf); by rewrite take_drop|by exists []]. }
  unfold nHeaderSize in *. destruct (read_header_total (drop k buf)) as (h & rest & Hr); [rewrite length_drop; lia|]. rewrite Hr. cbn [mbind option_bind].
  apply read_header_shorter in Hr as [Hl Hd]. rewrite length_drop in Hl.
  destruct (header_IsValid fTestNet h) eqn:Hv; cbn [negb]; [|eexists; split; [done|]; cbn; lia].
  destruct (MAX_SIZE <? nMessageSize h); [eexists; split; [done|]; cbn; lia|].
  destruct (Z.ltb_spec (Z.of_nat (length rest)) (nMessageSize h)).
  { eexists. split; [done|]. exists (take k buf). by rewrite <- Hd, take_drop. }
  destruct (Z.eqb_spec (checksum (take (Z.to_nat (nMessageSize h)) rest)) (nChecksum h)) as [Hc|]; cbn [negb]; [|eexists; split; [done|]; cbn; lia].
  eexists. split; [done|]. exists (take k buf ++ take 24 (drop k buf)), h. rewrite take_drop, <- app_assoc, <- Hd, take_drop. split; [done|].
  split; [rewrite length_app, !length_take, length_drop; lia|]. split; [done|]. split; [done|]. split; [|done]. rewrite length_take. lia.
Qed.

(** The loop ends: every round that goes on takes a header off the buffer. *)
Lemma receive_loop_total {S : Type} process (fShutdown : S -> bool) fuel : forall buf s, (length buf < fuel)%nat ->
  exists r, receive_loop fTestNet process fShutdown fuel buf s = Some (Some r).
Proof.
  induction fuel as [|fuel IH]; intros buf s Hf; [lia|]. cbn [receive_loop]. destruct (next_message_spec buf) as (x & -> & Hx). destruct x as [b|b|c v b].
  - by eexists.
  - apply IH. lia.
  - destruct Hx as (pre & h & Hb & Hp & _). apply (f_equal length) in Hb. rewrite !length_app in Hb. destruct (fShutdown _); [by eexists|]. apply IH. lia.
Qed.

End robust.


(** Two messages in three pieces. *)
Section witness.
#[local] Existing Instance toy_digests.

Definition demo_messages : list (list Z * list Z) := [([112; 105; 110; 103], [1; 2; 3]); ([118; 101; 114; 97; 99; 107], [])].
Definition demo_bytes : list Z := Eval vm_compute in frames false demo_messages.
Definition demo_log (c v : list Z) (s : list (list Z * list Z)) : list (list Z * list Z) := s ++ [(c, v)].


(** Bytes before a message, and a message with a wrong checksum, are skipped. *)
Lemma garbage_skipped :
  receive_all false demo_log (fun _ => false) [[7; 7; 7] ++ frame false ([120], [5]) ++ <[20%nat := 0]> (frame false ([121], [6])) ++ demo_bytes] ([], []) =
    Some ([], ([120], [5]) :: demo_messages).
Proof. vm_compute. reflexivity. Qed.

End witness.
End Framing.
