(* ===== verification/AddrMan.v ===== *)
(** * The address manager (src/src/addrman.h, src/src/addrman.cpp)

    CAddrInfo and CAddrMan: the table of known peers, its "new" and "tried"
    buckets, its random order and its index by address.  An operation returns
    [None] where an assertion fails.  [rnd k n] is the [k]-th call
    [GetRandInt(n)] of an operation, the time is an argument.  References into
    mapInfo are updates of the entry. *)

From Stdlib Require Import SpecFloat.
From stdpp Require Import gmap list sorting.
From S2P Require Import Prelude Containers Crypto Serialize Work NetAddr.

Record CAddrInfo := mk_addrinfo {
  ai_address : CAddress; source : CNetAddr; nLastSuccess : Z; nAttempts : Z;
  nRefCount : Z; fInTried : bool; nRandomPos : Z }.

Record CAddrMan := mk_addrman {
  am_nKey : list Z; nIdCount : Z; mapInfo : gmap Z CAddrInfo; mapAddr : gmap CNetAddr Z; vRandom : list Z;
  nTried : Z; vvTried : list (list Z); nNew : Z; vvNew : list (gset Z) }.

Module AddrMan.
Import NetAddr Work.

Definition ADDRMAN_TRIED_BUCKET_COUNT : Z := 64.
Definition ADDRMAN_TRIED_BUCKET_SIZE : Z := 64.
Definition ADDRMAN_NEW_BUCKET_COUNT : Z := 256.
Definition ADDRMAN_NEW_BUCKET_SIZE : Z := 64.
Definition ADDRMAN_TRIED_BUCKETS_PER_GROUP : Z := 4.
Definition ADDRMAN_NEW_BUCKETS_PER_SOURCE_GROUP : Z := 32.
Definition ADDRMAN_NEW_BUCKETS_PER_ADDRESS : Z := 4.
Definition ADDRMAN_TRIED_ENTRIES_INSPECT_ON_EVICT : nat := 4.
Definition ADDRMAN_HORIZON_DAYS : Z := 30.
Definition ADDRMAN_RETRIES : Z := 3.
Definition ADDRMAN_MAX_FAILURES : Z := 10.
Definition ADDRMAN_MIN_FAIL_DAYS : Z := 7.
Definition ADDRMAN_GETADDR_MAX_PCT : Z := 23.
Definition ADDRMAN_GETADDR_MAX : Z := 2500.

(** ** CAddrInfo *)

Definition ai_ip (i : CAddrInfo) : CNetAddr := svc_ip (ad_service (ai_address i)).
Definition ai_nTime (i : CAddrInfo) : Z := ad_nTime (ai_address i).
Definition ai_nLastTry (i : CAddrInfo) : Z := ad_nLastTry (ai_address i).

Definition set_nTime (t : Z) (a : CAddress) : CAddress := mk_address (ad_service a) (ad_nServices a) (u32 t) (ad_nLastTry a).
Definition set_nLastTry (t : Z) (a : CAddress) : CAddress := mk_address (ad_service a) (ad_nServices a) (ad_nTime a) t.
Definition set_nServices (n : Z) (a : CAddress) : CAddress := mk_address (ad_service a) n (ad_nTime a) (ad_nLastTry a).

Definition set_address (f : CAddress -> CAddress) (i : CAddrInfo) : CAddrInfo :=
  mk_addrinfo (f (ai_address i)) (source i) (nLastSuccess i) (nAttempts i) (nRefCount i) (fInTried i) (nRandomPos i).
Definition set_success (t : Z) (i : CAddrInfo) : CAddrInfo :=
  mk_addrinfo (ai_address i) (source i) t (nAttempts i) (nRefCount i) (fInTried i) (nRandomPos i).
Definition set_nAttempts (n : Z) (i : CAddrInfo) : CAddrInfo :=
  mk_addrinfo (ai_address i) (source i) (nLastSuccess i) n (nRefCount i) (fInTried i) (nRandomPos i).
Definition set_nRefCount (n : Z) (i : CAddrInfo) : CAddrInfo :=
  mk_addrinfo (ai_address i) (source i) (nLastSuccess i) (nAttempts i) n (fInTried i) (nRandomPos i).
Definition set_fInTried (b : bool) (i : CAddrInfo) : CAddrInfo :=
  mk_addrinfo (ai_address i) (source i) (nLastSuccess i) (nAttempts i) (nRefCount i) b (nRandomPos i).
Definition set_nRandomPos (p : Z) (i : CAddrInfo) : CAddrInfo :=
  mk_addrinfo (ai_address i) (source i) (nLastSuccess i) (nAttempts i) (nRefCount i) (fInTried i) p.

(** [CAddrInfo(addrIn, addrSource)]; [Init] *)
Definition addrinfo_of (addrIn : CAddress) (addrSource : CNetAddr) : CAddrInfo :=
  mk_addrinfo (set_nLastTry 0 addrIn) addrSource 0 0 0 false (-1).
Definition addrinfo_Init : CAddrInfo := addrinfo_of address_Init net_Init.

(** [ss << vch] *)
Definition put_vector (v : list Z) : list Z := WriteCompactSize (Z.of_nat (length v)) ++ v.
(** [Hash(ss.begin(), ss.end()).Get64()] *)
Definition hash64 {D : DigestLib} (ss : list Z) : Z := le_val (take 8 (Hash ss)).

Definition GetTriedBucket {D : DigestLib} (nKey : list Z) (i : CAddrInfo) : Z :=
  let hash1 := hash64 (put_vector nKey ++ put_vector (GetKey (ad_service (ai_address i)))) in
  let hash2 := hash64 (put_vector nKey ++ put_vector (GetGroup (ai_ip i)) ++ le_bytes 8 (hash1 mod ADDRMAN_TRIED_BUCKETS_PER_GROUP)) in
  hash2 mod ADDRMAN_TRIED_BUCKET_COUNT.

Definition GetNewBucket {D : DigestLib} (nKey : list Z) (src : CNetAddr) (i : CAddrInfo) : Z :=
  let vchSourceGroupKey := GetGroup src in
  let hash1 := hash64 (put_vector nKey ++ put_vector (GetGroup (ai_ip i)) ++ put_vector vchSourceGroupKey) in
  let hash2 := hash64 (put_vector nKey ++ put_vector vchSourceGroupKey ++ le_bytes 8 (hash1 mod ADDRMAN_NEW_BUCKETS_PER_SOURCE_GROUP)) in
  hash2 mod ADDRMAN_NEW_BUCKET_COUNT.

Definition IsTerrible (nNow : Z) (i : CAddrInfo) : bool :=
  if negb (ai_nLastTry i =? 0) && (nNow - 60 <=? ai_nLastTry i) then false
  else if nNow + 10 * 60 <? ai_nTime i then true
  else if (ai_nTime i =? 0) || (ADDRMAN_HORIZON_DAYS * 86400 <? nNow - ai_nTime i) then true
  else if (nLastSuccess i =? 0) && (ADDRMAN_RETRIES <=? nAttempts i) then true
  else if (ADDRMAN_MIN_FAIL_DAYS * 86400 <? nNow - nLastSuccess i) && (ADDRMAN_MAX_FAILURES <=? nAttempts i) then true
  else false.

Definition GetChance (nNow : Z) (i : CAddrInfo) : spec_float :=
  let nSinceLastSeen := Z.max 0 (nNow - ai_nTime i) in
  let nSinceLastTry := Z.max 0 (nNow - ai_nLastTry i) in
  let fChance := dmul (dbl 1) (ddiv (dbl 600) (dadd (dbl 600) (dbl nSinceLastSeen))) in
  let fChance := if nSinceLastTry <? 60 * 10 then dmul fChance (ddiv (dbl 1) (dbl 100)) else fChance in
  Nat.iter (Z.to_nat (nAttempts i)) (fun f => ddiv f (ddiv (dbl 3) (dbl 2))) fChance.

(** ** CAddrMan *)

(** [CAddrMan()]; the key is drawn at random. *)
Definition new_addrman (nKey : list Z) : CAddrMan :=
  mk_addrman nKey 0 ∅ ∅ [] 0 (replicate (Z.to_nat ADDRMAN_TRIED_BUCKET_COUNT) []) 0 (replicate (Z.to_nat ADDRMAN_NEW_BUCKET_COUNT) ∅).

Definition size (m : CAddrMan) : Z := Z.of_nat (length (vRandom m)).

Definition set_info (mi : gmap Z CAddrInfo) (m : CAddrMan) : CAddrMan :=
  mk_addrman (am_nKey m) (nIdCount m) mi (mapAddr m) (vRandom m) (nTried m) (vvTried m) (nNew m) (vvNew m).
Definition set_random (v : list Z) (m : CAddrMan) : CAddrMan :=
  mk_addrman (am_nKey m) (nIdCount m) (mapInfo m) (mapAddr m) v (nTried m) (vvTried m) (nNew m) (vvNew m).
Definition set_tried (n : Z) (vv : list (list Z)) (m : CAddrMan) : CAddrMan :=
  mk_addrman (am_nKey m) (nIdCount m) (mapInfo m) (mapAddr m) (vRandom m) n vv (nNew m) (vvNew m).
Definition set_new (n : Z) (vv : list (gset Z)) (m : CAddrMan) : CAddrMan :=
  mk_addrman (am_nKey m) (nIdCount m) (mapInfo m) (mapAddr m) (vRandom m) (nTried m) (vvTried m) n vv.

(** A change through a reference into mapInfo. *)
Definition upd (id : Z) (f : CAddrInfo -> CAddrInfo) (m : CAddrMan) : CAddrMan := set_info (alter f id (mapInfo m)) m.

(** [mapInfo[id]] adds an entry if there is none. *)
Definition touch (id : Z) (m : CAddrMan) : CAddrMan :=
  if mapInfo m !! id is Some _ then m else set_info (<[id := addrinfo_Init]> (mapInfo m)) m.
Definition at_ (id : Z) (m : CAddrMan) : CAddrInfo := default addrinfo_Init (mapInfo m !! id).

(** [mapInfo.count(id) == 1] *)
Definition has (id : Z) (m : CAddrMan) : bool := bool_decide (is_Some (mapInfo m !! id)).

Definition bucket (m : CAddrMan) (b : Z) : gset Z := default ∅ (vvNew m !! Z.to_nat b).
Definition set_bucket (b : Z) (s : gset Z) (m : CAddrMan) : CAddrMan := set_new (nNew m) (<[Z.to_nat b := s]> (vvNew m)) m.
Definition tried_bucket (m : CAddrMan) (b : Z) : list Z := default [] (vvTried m !! Z.to_nat b).
Definition set_tried_bucket (b : Z) (l : list Z) (m : CAddrMan) : CAddrMan := set_tried (nTried m) (<[Z.to_nat b := l]> (vvTried m)) m.

(** The elements of a std::set in the order of an iteration. *)
Definition in_set_order (s : gset Z) : list Z := merge_sort Z.le (elements s).

Definition Find (addr : CNetAddr) (m : CAddrMan) : option (Z * CAddrInfo) :=
  nId ← mapAddr m !! addr; info ← mapInfo m !! nId; Some (nId, info).

Definition Create (addr : CAddress) (addrSource : CNetAddr) (m : CAddrMan) : Z * CAddrMan :=
  let nId := nIdCount m in
  (nId, mk_addrman (am_nKey m) (i32 (nId + 1))
          (<[nId := set_nRandomPos (size m) (addrinfo_of addr addrSource)]> (mapInfo m))
          (<[svc_ip (ad_service addr) := nId]> (mapAddr m)) (vRandom m ++ [nId]) (nTried m) (vvTried m) (nNew m) (vvNew m)).

Definition SwapRandom (nRndPos1 nRndPos2 : Z) (m : CAddrMan) : option CAddrMan :=
  if nRndPos1 =? nRndPos2 then Some m
  else if negb ((0 <=? nRndPos1) && (0 <=? nRndPos2)) then None
  else if negb ((nRndPos1 <? size m) && (nRndPos2 <? size m)) then None
  else
    let nId1 := rd (vRandom m) (Z.to_nat nRndPos1) in
    let nId2 := rd (vRandom m) (Z.to_nat nRndPos2) in
    if negb (has nId1 m && has nId2 m) then None
    else
      let m := upd nId2 (set_nRandomPos nRndPos1) (upd nId1 (set_nRandomPos nRndPos2) m) in
      Some (set_random (<[Z.to_nat nRndPos2 := nId1]> (<[Z.to_nat nRndPos1 := nId2]> (vRandom m))) m).

Section Operations.
Context {D : DigestLib} (rnd : nat -> Z -> Z) (nNow : Z).

(** The loop of SelectTried; draws are numbered from [k]. *)
Fixpoint inspect (cnt i k : nat) (nOldest nOldestPos nKBucket : Z) (m : CAddrMan) : option (Z * CAddrMan) :=
  match cnt with
  | O => Some (nOldestPos, m)
  | S cnt =>
      let vTried := tried_bucket m nKBucket in
      let sz := Z.of_nat (length vTried) in
      if negb (Z.of_nat i <? sz) then Some (nOldestPos, m)
      else
        let nPos := rnd k (sz - Z.of_nat i) + Z.of_nat i in
        let nTemp := rd vTried (Z.to_nat nPos) in
        let m := set_tried_bucket nKBucket (<[i := nTemp]> (<[Z.to_nat nPos := rd vTried i]> vTried)) m in
        if nOldest =? -1 then inspect cnt (S i) (S k) nTemp nPos nKBucket m
        else if negb (has nTemp m) then None
        else
          let m := touch nOldest m in
          if nLastSuccess (at_ nTemp m) <? nLastSuccess (at_ nOldest m)
          then inspect cnt (S i) (S k) nTemp nPos nKBucket m
          else inspect cnt (S i) (S k) nOldest nOldestPos nKBucket m
  end.

Definition SelectTried (k : nat) (nKBucket : Z) (m : CAddrMan) : option (Z * CAddrMan) :=
  inspect ADDRMAN_TRIED_ENTRIES_INSPECT_ON_EVICT 0 k (-1) (-1) nKBucket m.

(** [if (--info.nRefCount == 0) { SwapRandom; pop_back; erase; nNew--; }] *)
Definition drop_ref (id : Z) (m : CAddrMan) : option CAddrMan :=
  let m := upd id (fun i => set_nRefCount (nRefCount i - 1) i) m in
  if nRefCount (at_ id m) =? 0 then
    m ← SwapRandom (nRandomPos (at_ id m)) (size m - 1) m;
    Some (mk_addrman (am_nKey m) (nIdCount m) (delete id (mapInfo m)) (delete (ai_ip (at_ id m)) (mapAddr m))
            (removelast (vRandom m)) (nTried m) (vvTried m) (nNew m - 1) (vvNew m))
  else Some m.

(** The entry is dropped and erased from the bucket. *)
Definition evict (nUBucket id : Z) (m : CAddrMan) : option CAddrMan :=
  m ← drop_ref id m; Some (set_bucket nUBucket (bucket m nUBucket ∖ {[id]}) m).

(** The first loop of ShrinkNew: the first entry that is terrible. *)
Fixpoint first_terrible (l : list Z) (m : CAddrMan) : option (option Z) :=
  match l with
  | [] => Some None
  | id :: l => if negb (has id m) then None else if IsTerrible nNow (at_ id m) then Some (Some id) else first_terrible l m
  end.

(** The second loop: the oldest of the entries at the drawn positions.  The
    first loop has seen that mapInfo has them all. *)
Fixpoint oldest_drawn (l : list Z) (nI : Z) (n : list Z) (nOldest : Z) (m : CAddrMan) : option Z :=
  match l with
  | [] => Some nOldest
  | id :: l =>
      if bool_decide (nI ∈ n) then
        if negb ((nOldest =? -1) || has id m) then None
        else oldest_drawn l (nI + 1) n (if (nOldest =? -1) || (ai_nTime (at_ id m) <? ai_nTime (at_ nOldest m)) then id else nOldest) m
      else oldest_drawn l (nI + 1) n nOldest m
  end.

Definition ShrinkNew (k : nat) (nUBucket : Z) (m : CAddrMan) : option (Z * CAddrMan) :=
  if negb ((0 <=? nUBucket) && (nUBucket <? Z.of_nat (length (vvNew m)))) then None
  else
    let vNew := in_set_order (bucket m nUBucket) in
    let sz := Z.of_nat (length vNew) in
    t ← first_terrible vNew m;
    match t with
    | Some id => m ← evict nUBucket id m; Some (0, m)
    | None =>
        nOldest ← oldest_drawn vNew 0 [rnd k sz; rnd (k + 1) sz; rnd (k + 2) sz; rnd (k + 3) sz] (-1) m;
        if negb (has nOldest m) then None
        else m ← evict nUBucket nOldest m; Some (1, m)
    end.

(** The loop of MakeTried: the buckets without the entry, and how many had it. *)
Fixpoint erase_all (nId : Z) (vv : list (gset Z)) : list (gset Z) * Z :=
  match vv with
  | [] => ([], 0)
  | s :: vv => let '(vv, n) := erase_all nId vv in (s ∖ {[nId]} :: vv, if bool_decide (nId ∈ s) then n + 1 else n)
  end.

Definition MakeTried (k : nat) (nId nOrigin : Z) (m : CAddrMan) : option CAddrMan :=
  if negb (bool_decide (nId ∈ bucket m nOrigin)) then None
  else
    let '(vv, n) := erase_all nId (vvNew m) in
    let m := upd nId (fun i => set_nRefCount (nRefCount i - n) i) (set_new (nNew m - 1) vv m) in
    if negb (nRefCount (at_ nId m) =? 0) then None
    else
      let nKBucket := GetTriedBucket (am_nKey m) (at_ nId m) in
      let vTried := tried_bucket m nKBucket in
      if Z.of_nat (length vTried) <? ADDRMAN_TRIED_BUCKET_SIZE then
        let m := set_tried_bucket nKBucket (vTried ++ [nId]) m in
        Some (upd nId (set_fInTried true) (set_tried (nTried m + 1) (vvTried m) m))
      else
        '(nPos, m) ← SelectTried k nKBucket m;
        let nOld := rd (tried_bucket m nKBucket) (Z.to_nat nPos) in
        if negb (has nOld m) then None
        else
          let infoOld := at_ nOld m in
          let nUBucket := GetNewBucket (am_nKey m) (source infoOld) infoOld in
          let m := upd nOld (fun i => set_nRefCount 1 (set_fInTried false i)) m in
          let b := if Z.of_nat (base.size (bucket m nUBucket)) <? ADDRMAN_NEW_BUCKET_SIZE then nUBucket else nOrigin in
          let m := set_bucket b ({[nOld]} ∪ bucket m b) m in
          let m := set_new (nNew m + 1) (vvNew m) m in
          let m := set_tried_bucket nKBucket (<[Z.to_nat nPos := nId]> (tried_bucket m nKBucket)) m in
          Some (upd nId (set_fInTried true) m).

(** [info != addr] *)
Definition same_service (i : CAddrInfo) (addr : CService) : bool := svc_eq (ad_service (ai_address i)) addr.

(** The first bucket from a random one on that has the entry. *)
Fixpoint find_bucket (cnt : nat) (n nRnd nId : Z) (m : CAddrMan) : Z :=
  match cnt with
  | O => -1
  | S cnt =>
      let nB := (n + nRnd) mod Z.of_nat (length (vvNew m)) in
      if bool_decide (nId ∈ bucket m nB) then nB else find_bucket cnt (n + 1) nRnd nId m
  end.

Definition Good_ (addr : CService) (nTime : Z) (m : CAddrMan) : option CAddrMan :=
  match Find (svc_ip addr) m with
  | None => Some m
  | Some (nId, info) =>
      if negb (same_service info addr) then Some m
      else
        let m := upd nId (fun i => set_nAttempts 0 (set_address (set_nTime nTime) (set_address (set_nLastTry nTime) (set_success nTime i)))) m in
        if fInTried info then Some m
        else
          let nUBucket := find_bucket (length (vvNew m)) 0 (rnd 0 (Z.of_nat (length (vvNew m)))) nId m in
          if nUBucket =? -1 then Some m else MakeTried 1 nId nUBucket m
  end.

(** [for (n = 0; n < nRefCount; n++) nFactor *= 2] *)
Definition factor (nRefCount : Z) : Z := 2 ^ Z.max 0 nRefCount.

(** The end of Add_: the entry is put in the bucket of this source. *)
Definition put_new (nId : Z) (source : CNetAddr) (fNew : bool) (m : CAddrMan) : option (bool * CAddrMan) :=
  let nUBucket := GetNewBucket (am_nKey m) source (at_ nId m) in
  if bool_decide (nId ∈ bucket m nUBucket) then Some (fNew, m)
  else
    let m := upd nId (fun i => set_nRefCount (nRefCount i + 1) i) m in
    m ← (if Z.of_nat (base.size (bucket m nUBucket)) =? ADDRMAN_NEW_BUCKET_SIZE
         then '(_, m) ← ShrinkNew 1 nUBucket m; Some m else Some m);
    Some (fNew, set_bucket nUBucket ({[nId]} ∪ bucket m nUBucket) m).

(** What Add_ changes in an entry that is already there. *)
Definition refresh (addr : CAddress) (nTimePenalty : Z) (i : CAddrInfo) : CAddrInfo :=
  let nUpdateInterval := if nNow - ad_nTime addr <? 24 * 60 * 60 then 60 * 60 else 24 * 60 * 60 in
  let i := if negb (ad_nTime addr =? 0) && ((ai_nTime i =? 0) || (ai_nTime i <? ad_nTime addr - nUpdateInterval - nTimePenalty))
           then set_address (set_nTime (Z.max 0 (ad_nTime addr - nTimePenalty))) i else i in
  set_address (set_nServices (Z.lor (ad_nServices (ai_address i)) (ad_nServices addr))) i.

Definition Add_ (addr : CAddress) (source : CNetAddr) (nTimePenalty : Z) (m : CAddrMan) : option (bool * CAddrMan) :=
  if negb (IsRoutable (svc_ip (ad_service addr))) then Some (false, m)
  else
    match Find (svc_ip (ad_service addr)) m with
    | Some (nId, info) =>
        let m := upd nId (refresh addr nTimePenalty) m in
        let info := refresh addr nTimePenalty info in
        if (ad_nTime addr =? 0) || (negb (ai_nTime info =? 0) && (ad_nTime addr <=? ai_nTime info)) then Some (false, m)
        else if fInTried info then Some (false, m)
        else if nRefCount info =? ADDRMAN_NEW_BUCKETS_PER_ADDRESS then Some (false, m)
        else
          let nFactor := factor (nRefCount info) in
          if (1 <? nFactor) && negb (rnd 0 nFactor =? 0) then Some (false, m)
          else put_new nId source false m
    | None =>
        let '(nId, m) := Create addr source m in
        let m := upd nId (fun i => set_address (set_nTime (Z.max 0 (ai_nTime i - nTimePenalty))) i) m in
        put_new nId source true (set_new (nNew m + 1) (vvNew m) m)
    end.

Definition Attempt_ (addr : CService) (nTime : Z) (m : CAddrMan) : CAddrMan :=
  match Find (svc_ip addr) m with
  | Some (nId, info) =>
      if negb (same_service info addr) then m
      else upd nId (fun i => set_nAttempts (i32 (nAttempts i + 1)) (set_address (set_nLastTry nTime) i)) m
  | None => m
  end.

Definition Connected_ (addr : CService) (nTime : Z) (m : CAddrMan) : CAddrMan :=
  match Find (svc_ip addr) m with
  | Some (nId, info) =>
      if negb (same_service info addr) then m
      else if 20 * 60 <? nTime - ai_nTime info then upd nId (set_address (set_nTime nTime)) m else m
  | None => m
  end.

(** The shuffle of GetAddr_. *)
Fixpoint draw_addresses (cnt : nat) (n : Z) (m : CAddrMan) : option (list CAddress * CAddrMan) :=
  match cnt with
  | O => Some ([], m)
  | S cnt =>
      let nRndPos := rnd (Z.to_nat n) (size m - n) + n in
      m ← SwapRandom n nRndPos m;
      let nId := rd (vRandom m) (Z.to_nat n) in
      if negb (has nId m) then None
      else '(vAddr, m') ← draw_addresses cnt (n + 1) m; Some (ai_address (at_ nId m) :: vAddr, m')
  end.

Definition GetAddr_ (m : CAddrMan) : option (list CAddress * CAddrMan) :=
  let nNodes := Z.min ADDRMAN_GETADDR_MAX (ADDRMAN_GETADDR_MAX_PCT * size m / 100) in
  draw_addresses (Z.to_nat nNodes) 0 m.

(** The two loops of Select_, over the tried and the new buckets, given as the
    list of a bucket's entries.  [None]: a failed assertion; [Some None]: the
    fuel is spent. *)
Fixpoint pick (fuel : nat) (k : nat) (nBuckets : Z) (entries : Z -> list Z) (fChanceFactor : spec_float) (m : CAddrMan) : option (option CAddress) :=
  match fuel with
  | O => Some None
  | S fuel =>
      let v := entries (rnd k nBuckets) in
      match v with
      | [] => pick fuel (S k) nBuckets entries fChanceFactor m
      | _ :: _ =>
          let nId := rd v (Z.to_nat (rnd (k + 1) (Z.of_nat (length v)))) in
          if negb (has nId m) then None
          else if SFltb (dbl (rnd (k + 2) (2 ^ 30))) (dmul (dmul fChanceFactor (GetChance nNow (at_ nId m))) (dbl (2 ^ 30)))
          then Some (Some (ai_address (at_ nId m)))
          else pick fuel (k + 3) nBuckets entries (dmul fChanceFactor (ddiv (dbl 12) (dbl 10))) m
      end
  end.

Definition dsqrt : spec_float -> spec_float := SFsqrt 53 1024.

Definition use_tried (nUnkBias : Z) (m : CAddrMan) : bool :=
  let nCorTried := dmul (dsqrt (dbl (nTried m))) (SFsub 53 1024 (dbl 100) (dbl nUnkBias)) in
  let nCorNew := dmul (dsqrt (dbl (nNew m))) (dbl nUnkBias) in
  SFltb (ddiv (dmul (dadd nCorTried nCorNew) (dbl (rnd 0 (2 ^ 30)))) (dbl (2 ^ 30))) nCorTried.

Definition Select_ (fuel : nat) (nUnkBias : Z) (m : CAddrMan) : option (option CAddress) :=
  if size m =? 0 then Some (Some address_Init)
  else if use_tried nUnkBias m then pick fuel 1 (Z.of_nat (length (vvTried m))) (tried_bucket m) (dbl 1) m
  else pick fuel 1 (Z.of_nat (length (vvNew m))) (fun b => in_set_order (bucket m b)) (dbl 1) m.

(** ** Check_ *)

(** The loop over mapInfo: the tried entries and the reference counts of the
    others, or the code of the first fault. *)
Fixpoint check_infos (l : list (Z * CAddrInfo)) (setTried : gset Z) (mapNew : gmap Z Z) (m : CAddrMan) : Z + gset Z * gmap Z Z :=
  match l with
  | [] => inr (setTried, mapNew)
  | (n, info) :: l =>
      let fault :=
        if fInTried info then (if nLastSuccess info =? 0 then -1 else if negb (nRefCount info =? 0) then -2 else 0)
        else if (nRefCount info <? 0) || (ADDRMAN_NEW_BUCKETS_PER_ADDRESS <? nRefCount info) then -3
        else if nRefCount info =? 0 then -4 else 0 in
      if negb (fault =? 0) then inl fault
      else if negb (default 0 (mapAddr m !! ai_ip info) =? n) then inl (-5)
      else if (nRandomPos info <? 0) || (size m <=? nRandomPos info) || negb (rd (vRandom m) (Z.to_nat (nRandomPos info)) =? n) then inl (-14)
      else if ai_nLastTry info <? 0 then inl (-6)
      else if nLastSuccess info <? 0 then inl (-8)
      else if fInTried info then check_infos l ({[n]} ∪ setTried) mapNew m
      else check_infos l setTried (<[n := nRefCount info]> mapNew) m
  end.

Fixpoint check_tried (l : list Z) (setTried : gset Z) : Z + gset Z :=
  match l with
  | [] => inr setTried
  | n :: l => if bool_decide (n ∈ setTried) then check_tried l (setTried ∖ {[n]}) else inl (-11)
  end.

Fixpoint check_new (l : list Z) (mapNew : gmap Z Z) : Z + gmap Z Z :=
  match l with
  | [] => inr mapNew
  | n :: l =>
      match mapNew !! n with
      | None => inl (-12)
      | Some c => check_new l (if c - 1 =? 0 then delete n mapNew else <[n := c - 1]> mapNew)
      end
  end.

Definition Check_ (m : CAddrMan) : Z :=
  if negb (size m =? nTried m + nNew m) then -7
  else
    match check_infos (in_order Z.leb (mapInfo m)) ∅ ∅ m with
    | inl e => e
    | inr (setTried, mapNew) =>
        if negb (Z.of_nat (base.size setTried) =? nTried m) then -9
        else if negb (Z.of_nat (base.size mapNew) =? nNew m) then -10
        else
          match check_tried (concat (vvTried m)) setTried with
          | inl e => e
          | inr setTried =>
              match check_new (concat (map in_set_order (vvNew m))) mapNew with
              | inl e => e
              | inr mapNew =>
                  if negb (base.size setTried =? 0)%nat then -13
                  else if negb (base.size mapNew =? 0)%nat then -15 else 0
              end
          end
    end.

End Operations.

(** ** The invariant *)

(** How many new buckets have the entry. *)
Fixpoint refs (id : Z) (vv : list (gset Z)) : Z :=
  match vv with [] => 0 | s :: vv => (if bool_decide (id ∈ s) then 1 else 0) + refs id vv end.

(** mapAddr and vRandom index the entries: by their addresses, and by their
    positions. *)
Record indexed (nIds : Z) (ips : gmap Z CNetAddr) (pos : gmap Z Z) (addrs : gmap CNetAddr Z) (rand : list Z) : Prop := {
  ix_ids : map_Forall (fun id _ => 0 <= id < nIds) ips;
  ix_addr a id : addrs !! a = Some id <-> ips !! id = Some a;
  ix_random id p : pos !! id = Some p <-> 0 <= p /\ rand !! Z.to_nat p = Some id;
}.

(** The tried entries are in one tried bucket, each other entry is in as many
    new buckets as its reference count says, at most four.  [x] is an entry
    that is counted and not yet in its bucket. *)
Record buckets (x : option Z) (flags : gmap Z (bool * Z)) (vvT : list (list Z)) (vvN : list (gset Z)) : Prop := {
  bk_tried_count : length vvT = 64%nat;
  bk_new_count : length vvN = 256%nat;
  bk_tried_size : Forall (fun l => length l <= 64)%nat vvT;
  bk_new_size : Forall (fun s : gset Z => base.size s <= 64)%nat vvN;
  bk_nodup : NoDup (concat vvT);
  bk_tried id : id ∈ concat vvT <-> exists n, flags !! id = Some (true, n);
  bk_refs id (t : bool) (n : Z) : flags !! id = Some (t, n) ->
    n = refs id vvN + (if bool_decide (x = Some id) then 1 else 0) /\ (if t then n = 0 else 1 <= n <= 4);
  bk_known id : 0 < refs id vvN -> is_Some (flags !! id);
}.

Definition flag (i : CAddrInfo) : bool * Z := (fInTried i, nRefCount i).

Definition timed (i : CAddrInfo) : Prop :=
  0 <= ai_nLastTry i /\ 0 <= nLastSuccess i /\ (fInTried i = true -> nLastSuccess i <> 0).

Record inv (x : option Z) (m : CAddrMan) : Prop := {
  inv_index : indexed (nIdCount m) (ai_ip <$> mapInfo m) (nRandomPos <$> mapInfo m) (mapAddr m) (vRandom m);
  inv_buckets : buckets x (flag <$> mapInfo m) (vvTried m) (vvNew m);
  inv_tried : nTried m = Z.of_nat (length (concat (vvTried m)));
  inv_size : size m = nTried m + nNew m;
  inv_times : map_Forall (fun _ => timed) (mapInfo m);
}.

(** *** Lists, maps and counts *)

Lemma fmap_alter_insert {A B} (v : A -> B) f id x (m : gmap Z A) :
  m !! id = Some x -> v <$> alter f id m = <[id := v (f x)]> (v <$> m).
Proof.
  intros E. apply map_eq. intros j. rewrite lookup_fmap. destruct (decide (id = j)) as [<-|Hne].
  - by rewrite lookup_alter_eq, lookup_insert_eq, E.
  - by rewrite lookup_alter_ne, lookup_insert_ne, lookup_fmap.
Qed.

Lemma fmap_alter_same {A B} (v : A -> B) f id (m : gmap Z A) :
  (forall x, m !! id = Some x -> v (f x) = v x) -> v <$> alter f id m = v <$> m.
Proof.
  intros Hf. destruct (m !! id) as [x|] eqn:E.
  - rewrite (fmap_alter_insert _ _ _ x) by done. apply insert_id. rewrite lookup_fmap, E. cbn. by rewrite Hf.
  - f_equal. apply map_eq. intros j. destruct (decide (id = j)) as [<-|Hne]; [by rewrite lookup_alter_eq, E|by rewrite lookup_alter_ne].
Qed.

Lemma map_Forall_alter {A} (P : A -> Prop) f id (m : gmap Z A) :
  (forall x, m !! id = Some x -> P x -> P (f x)) -> map_Forall (fun _ => P) m -> map_Forall (fun _ => P) (alter f id m).
Proof.
  intros Hf Hm j y. destruct (decide (id = j)) as [<-|Hne]; [|rewrite lookup_alter_ne by done; apply Hm].
  rewrite lookup_alter_eq. destruct (m !! id) as [x|] eqn:E; [|done]. cbn. intros [= <-]. eauto.
Qed.

Lemma concat_split {A} (vv : list (list A)) b l : vv !! b = Some l -> concat vv ≡ₚ l ++ concat (delete b vv).
Proof.
  revert b. induction vv as [|l' vv IH]; intros [|b]; cbn; [done|done|by intros [= ->]|]. intros E.
  rewrite (IH b E), !app_assoc. by rewrite (Permutation_app_comm l' l).
Qed.

Lemma concat_insert {A} (vv : list (list A)) b l : (b < length vv)%nat -> concat (<[b := l]> vv) ≡ₚ l ++ concat (delete b vv).
Proof.
  revert b. induction vv as [|l' vv IH]; intros [|b] Hb; cbn in *; [lia|lia|done|].
  rewrite (IH b) by lia. rewrite !app_assoc. by rewrite (Permutation_app_comm l' l).
Qed.

Lemma refs_nonneg id vv : 0 <= refs id vv.
Proof. induction vv as [|s vv IH]; cbn; [lia|]. destruct (bool_decide _); lia. Qed.

Lemma refs_insert id vv b s s' : vv !! b = Some s ->
  refs id (<[b := s']> vv) = refs id vv - (if bool_decide (id ∈ s) then 1 else 0) + (if bool_decide (id ∈ s') then 1 else 0).
Proof. revert b. induction vv as [|t vv IH]; intros [|b]; simpl; [done|done|intros [= ->]; lia|intros E; rewrite (IH b E); lia]. Qed.

Lemma refs_pos id vv b s : vv !! b = Some s -> id ∈ s -> 0 < refs id vv.
Proof.
  intros E Hin. pose proof (refs_nonneg id (<[b := ∅]> vv)) as H. rewrite (refs_insert _ _ _ s), (bool_decide_true (id ∈ s)), bool_decide_false in H by done.
  lia.
Qed.

Lemma refs_found id vv : 0 < refs id vv -> exists b s, vv !! b = Some s /\ id ∈ s.
Proof.
  induction vv as [|s vv IH]; cbn; [lia|]. case_bool_decide as Hs; intros H.
  - by exists 0%nat, s.
  - destruct IH as (b & s' & ? & ?); [lia|]. by exists (S b), s'.
Qed.

Lemma erase_all_spec id vv : erase_all id vv = (map (fun s => s ∖ {[id]}) vv, refs id vv).
Proof. induction vv as [|s vv IH]; cbn; [done|]. rewrite IH. f_equal. case_bool_decide; lia. Qed.

Lemma refs_erased id j vv : refs j (map (fun s : gset Z => s ∖ {[id]}) vv) = if decide (j = id) then 0 else refs j vv.
Proof.
  induction vv as [|s vv IH]; cbn; [by case_decide|]. rewrite IH. case_decide as Hj.
  - rewrite bool_decide_false by set_solver. done.
  - f_equal. by rewrite (bool_decide_ext _ (j ∈ s)) by set_solver.
Qed.

Lemma in_set_order_perm s : in_set_order s ≡ₚ elements s.
Proof. apply merge_sort_Permutation. Qed.

Lemma elem_of_in_set_order id s : id ∈ in_set_order s <-> id ∈ s.
Proof. by rewrite in_set_order_perm, elem_of_elements. Qed.

Lemma length_in_set_order s : length (in_set_order s) = base.size s.
Proof. by rewrite in_set_order_perm. Qed.

(** *** The index *)

Section Index.
Context (n : Z) (ips : gmap Z CNetAddr) (pos : gmap Z Z) (addrs : gmap CNetAddr Z) (rand : list Z).
Hypothesis Hix : indexed n ips pos addrs rand.

Lemma random_pos id p : (rand !! p = Some id) <-> pos !! id = Some (Z.of_nat p).
Proof. rewrite (ix_random _ _ _ _ _ Hix). rewrite Nat2Z.id. split; [intros ?; split; [lia|done]|tauto]. Qed.

Lemma random_nodup : NoDup rand.
Proof. apply NoDup_alt. intros i j x Hi%random_pos Hj%random_pos. rewrite Hi in Hj. injection Hj as ?. lia. Qed.

Lemma index_swap p1 p2 id1 id2 : p1 <> p2 -> 0 <= p1 -> 0 <= p2 -> rand !! Z.to_nat p1 = Some id1 -> rand !! Z.to_nat p2 = Some id2 ->
  indexed n ips (<[id2 := p1]> (<[id1 := p2]> pos)) addrs (<[Z.to_nat p2 := id1]> (<[Z.to_nat p1 := id2]> rand)).
Proof.
  intros Hne H1 H2 E1 E2. assert (id1 <> id2) as Hid.
  { intros <-. apply random_pos in E1, E2. rewrite E1 in E2. injection E2 as ?. lia. }
  pose proof (lookup_lt_Some _ _ _ E1) as L1. pose proof (lookup_lt_Some _ _ _ E2) as L2.
  split; [apply Hix|apply Hix|]. intros id p.
  destruct (decide (p = p2)) as [->|Hp2]; [|destruct (decide (p = p1)) as [->|Hp1]].
  - rewrite list_lookup_insert_eq by (rewrite length_insert; lia). destruct (decide (id = id2)) as [->|Hi2]; [rewrite lookup_insert_eq|rewrite lookup_insert_ne by done].
    { split; [intros [= ?]; lia|intros [_ [= ?]]; done]. }
    destruct (decide (id = id1)) as [->|Hi1]; [rewrite lookup_insert_eq; done|rewrite lookup_insert_ne by done].
    rewrite (ix_random _ _ _ _ _ Hix), E2. naive_solver.
  - rewrite list_lookup_insert_ne, list_lookup_insert_eq by lia. destruct (decide (id = id2)) as [->|Hi2]; [rewrite lookup_insert_eq; done|rewrite lookup_insert_ne by done].
    destruct (decide (id = id1)) as [->|Hi1]; [rewrite lookup_insert_eq|rewrite lookup_insert_ne by done].
    { split; [intros [= ?]; lia|intros [_ [= ?]]; done]. }
    rewrite (ix_random _ _ _ _ _ Hix), E1. naive_solver.
  - assert ((<[Z.to_nat p2:=id1]> (<[Z.to_nat p1:=id2]> rand) !! Z.to_nat p = Some id /\ 0 <= p) <-> (rand !! Z.to_nat p = Some id /\ 0 <= p)) as Hr.
    { split; intros [Hr Hp]; (split; [|done]); rewrite !list_lookup_insert_ne in * by lia; done. }
    rewrite (and_comm (0 <= p)), Hr. destruct (decide (id = id2)) as [->|Hi2]; [rewrite lookup_insert_eq|rewrite lookup_insert_ne by done].
    { split; [intros [= ?]; lia|]. intros [E Hp]. apply random_pos in E, E2. rewrite E in E2. injection E2 as ?. lia. }
    destruct (decide (id = id1)) as [->|Hi1]; [rewrite lookup_insert_eq|rewrite lookup_insert_ne by done].
    { split; [intros [= ?]; lia|]. intros [E Hp]. apply random_pos in E, E1. rewrite E in E1. injection E1 as ?. lia. }
    rewrite (ix_random _ _ _ _ _ Hix). tauto.
Qed.

Lemma index_delete v id a : rand = v ++ [id] -> ips !! id = Some a -> indexed n (delete id ips) (delete id pos) (delete a addrs) v.
Proof.
  intros Er Ea. assert (pos !! id = Some (Z.of_nat (length v))) as Ep by (apply random_pos; rewrite Er; by apply list_lookup_middle).
  split.
  - intros j b Hj. apply lookup_delete_Some in Hj as [_ Hj]. by eapply Hix.
  - intros b j. rewrite !lookup_delete_Some, (ix_addr _ _ _ _ _ Hix). split; intros [Hne E]; (split; [|done]); intros <-; [congruence|].
    apply (ix_addr _ _ _ _ _ Hix) in E, Ea. congruence.
  - intros j p. rewrite lookup_delete_Some, (ix_random _ _ _ _ _ Hix), Er. split.
    + intros [Hne [Hp E]]. split; [done|]. apply lookup_app_Some in E as [E|[_ E]]; [done|]. apply list_lookup_singleton_Some in E as [_ ->]. done.
    + intros [Hp E]. split; [|split; [done|by apply lookup_app_l_Some]]. intros <-. pose proof (lookup_lt_Some _ _ _ E).
      assert (pos !! id = Some p) as E' by (apply (ix_random _ _ _ _ _ Hix); split; [done|]; rewrite Er; by apply lookup_app_l_Some).
      rewrite Ep in E'. injection E' as ?. lia.
Qed.

Lemma index_create a : pos !! n = None -> 0 <= n -> addrs !! a = None ->
  indexed (n + 1) (<[n := a]> ips) (<[n := Z.of_nat (length rand)]> pos) (<[a := n]> addrs) (rand ++ [n]).
Proof.
  intros Ep Hn Ha. assert (ips !! n = None) as Ei.
  { destruct (ips !! n) as [b|] eqn:E; [|done]. pose proof (ix_ids _ _ _ _ _ Hix _ _ E) as H. cbn in H. lia. }
  split.
  - intros j b. rewrite lookup_insert_Some. intros [[<- _]|[_ E]]; [lia|]. pose proof (ix_ids _ _ _ _ _ Hix _ _ E) as H. cbn in H. lia.
  - intros b j. rewrite !lookup_insert_Some, (ix_addr _ _ _ _ _ Hix). split.
    + intros [[-> ->]|[Hne E]]; [by left|]. right. split; [|done]. intros <-. congruence.
    + intros [[-> ->]|[Hne E]]; [by left|]. right. split; [|done]. intros <-. apply (ix_addr _ _ _ _ _ Hix) in E. congruence.
  - intros j p. rewrite lookup_insert_Some, (ix_random _ _ _ _ _ Hix). split.
    + intros [[<- <-]|[Hne [Hp E]]]; [split; [lia|]; rewrite Nat2Z.id; by apply list_lookup_middle|]. split; [done|]. by apply lookup_app_l_Some.
    + intros [Hp E]. apply lookup_app_Some in E as [E|[Hl E]].
      * right. split; [|done]. intros <-. apply random_pos in E. congruence.
      * apply list_lookup_singleton_Some in E as [E ->]. left. split; [done|]. lia.
Qed.
End Index.

(** *** The buckets *)

Section Buckets.
Context (x : option Z) (fl : gmap Z (bool * Z)) (vvT : list (list Z)) (vvN : list (gset Z)).
Hypothesis Hb : buckets x fl vvT vvN.

Lemma tried_flag id t n : fl !! id = Some (t, n) -> t = true <-> id ∈ concat vvT.
Proof. intros E. rewrite (bk_tried _ _ _ _ Hb). rewrite E. split; [intros ->; eauto|]. by intros [? [= -> _]]. Qed.

Lemma known_entry id b s : vvN !! b = Some s -> id ∈ s -> exists n, fl !! id = Some (false, n).
Proof.
  intros E Hin. pose proof (refs_pos _ _ _ _ E Hin) as Hp. destruct (bk_known _ _ _ _ Hb id Hp) as [[[] n] Ef]; [|eauto].
  destruct (bk_refs _ _ _ _ Hb _ _ _ Ef) as [E1 E2]. cbn in E2. destruct (bool_decide _); lia.
Qed.

Lemma buckets_permute b l l' : vvT !! b = Some l -> l' ≡ₚ l -> buckets x fl (<[b := l']> vvT) vvN.
Proof.
  intros El Hl. pose proof (lookup_lt_Some _ _ _ El) as Hlt.
  assert (concat (<[b := l']> vvT) ≡ₚ concat vvT) as Hc by (rewrite concat_insert, (concat_split _ _ _ El), Hl by done; done).
  split; try apply Hb.
  - by rewrite length_insert, (bk_tried_count _ _ _ _ Hb).
  - apply Forall_insert; [apply Hb|]. rewrite Hl. by apply (Forall_lookup_1 _ _ _ _ (bk_tried_size _ _ _ _ Hb) El).
  - rewrite Hc. apply Hb.
  - intros id. rewrite Hc. apply Hb.
Qed.

(** An entry that is in no tried bucket loses a bucket, and is dropped with its
    last one. *)
Lemma buckets_evict id n b s : vvN !! b = Some s -> id ∈ s -> x <> Some id -> fl !! id = Some (false, n) ->
  buckets x (if n - 1 =? 0 then delete id fl else <[id := (false, n - 1)]> fl) vvT (<[b := s ∖ {[id]}]> vvN).
Proof.
  intros Es Hin Hx Ef. destruct (bk_refs _ _ _ _ Hb _ _ _ Ef) as [En Hn]. cbn in Hn. rewrite bool_decide_false in En by done.
  assert (forall j, j <> id -> refs j (<[b := s ∖ {[id]}]> vvN) = refs j vvN) as Hoth.
  { intros j Hj. rewrite (refs_insert _ _ _ s), (bool_decide_ext (j ∈ s ∖ {[id]}) (j ∈ s)) by (done || set_solver). lia. }
  assert (refs id (<[b := s ∖ {[id]}]> vvN) = n - 1) as Hid.
  { rewrite (refs_insert _ _ _ s), bool_decide_true, bool_decide_false by (done || set_solver). lia. }
  assert (forall j, j <> id -> (if n - 1 =? 0 then delete id fl else <[id := (false, n - 1)]> fl) !! j = fl !! j) as Hfl.
  { intros j Hj. case_bool; [by rewrite lookup_delete_ne|by rewrite lookup_insert_ne]. }
  split; try apply Hb.
  - by rewrite length_insert, (bk_new_count _ _ _ _ Hb).
  - apply Forall_insert; [apply Hb|]. transitivity (base.size s); [apply subseteq_size; set_solver|]. apply (Forall_lookup_1 _ _ _ _ (bk_new_size _ _ _ _ Hb) Es).
  - intros j. destruct (decide (j = id)) as [->|Hj]; [|rewrite Hfl by done; apply Hb].
    rewrite <- (tried_flag _ _ _ Ef). split; [done|]. intros [k E]. revert E. case_bool; [by rewrite lookup_delete_eq|by rewrite lookup_insert_eq].
  - intros j t k. destruct (decide (j = id)) as [->|Hj]; [|rewrite Hfl, Hoth by done; apply Hb].
    rewrite Hid, bool_decide_false by done. destruct (Z.eqb_spec (n - 1) 0); [by rewrite lookup_delete_eq|]. rewrite lookup_insert_eq. intros [= <- <-]. lia.
  - intros j. destruct (decide (j = id)) as [->|Hj]; [|rewrite Hfl, Hoth by done; apply Hb].
    rewrite Hid. destruct (Z.eqb_spec (n - 1) 0); [lia|]. rewrite lookup_insert_eq. eauto.
Qed.

(** A counted entry is put in its bucket. *)
Lemma buckets_land id b s : x = Some id -> is_Some (fl !! id) -> vvN !! b = Some s -> (id ∉ s) -> (base.size s < 64)%nat ->
  buckets None fl vvT (<[b := {[id]} ∪ s]> vvN).
Proof.
  intros Hx [[t n] Ef] Es Hin Hs. assert (t = false) as ->.
  { destruct t; [|done]. destruct (bk_refs _ _ _ _ Hb _ _ _ Ef) as [E1 E2]. cbn in E2. rewrite bool_decide_true in E1 by done. pose proof (refs_nonneg id vvN). lia. }
  assert (forall j, refs j (<[b := {[id]} ∪ s]> vvN) = refs j vvN + (if bool_decide (x = Some j) then 1 else 0)) as Hr.
  { intros j. rewrite (refs_insert _ _ _ s) by done. rewrite Hx. destruct (decide (j = id)) as [->|Hj].
    - rewrite (bool_decide_false (id ∈ s)), bool_decide_true, bool_decide_true by (done || set_solver). lia.
    - rewrite (bool_decide_ext (j ∈ {[id]} ∪ s) (j ∈ s)), (bool_decide_false (Some id = Some j)) by (congruence || set_solver). lia. }
  split; try apply Hb.
  - by rewrite length_insert, (bk_new_count _ _ _ _ Hb).
  - apply Forall_insert; [apply Hb|]. rewrite size_union, size_singleton by set_solver. lia.
  - intros j t k E. rewrite Hr. destruct (bk_refs _ _ _ _ Hb _ _ _ E) as [E1 E2]. split; [|done]. rewrite (bool_decide_false (None = Some j)) by done. lia.
  - intros j. rewrite Hr. case_bool_decide as Hj; [|rewrite Z.add_0_r; apply Hb]. rewrite Hx in Hj. injection Hj as <-. eauto.
Qed.

End Buckets.

(** An entry that is new, or in fewer than four buckets, is counted once more. *)
Lemma buckets_count fl vvT vvN id : buckets None fl vvT vvN -> fl !! id = None \/ (exists n, fl !! id = Some (false, n) /\ n <> 4) ->
  buckets (Some id) (<[id := (false, refs id vvN + 1)]> fl) vvT vvN.
Proof.
  intros Hb Hid. assert (0 <= refs id vvN < 4) as Hr.
  { pose proof (refs_nonneg id vvN). destruct Hid as [E|(n & E & Hn)].
    - destruct (Z.eq_dec (refs id vvN) 0); [lia|]. destruct (bk_known _ _ _ _ Hb id) as [? ?]; [lia|congruence].
    - destruct (bk_refs _ _ _ _ Hb _ _ _ E) as [E1 E2]. cbn in E1, E2. rewrite bool_decide_false in E1 by done. lia. }
  split; try apply Hb.
  - intros j. rewrite (bk_tried _ _ _ _ Hb). destruct (decide (j = id)) as [->|Hj]; [|by rewrite lookup_insert_ne]. rewrite lookup_insert_eq.
    split; intros [k Ek]; [|done]. destruct Hid as [E|(n & E & _)]; congruence.
  - intros j t n. destruct (decide (j = id)) as [->|Hj].
    + rewrite lookup_insert_eq, bool_decide_true by done. intros [= <- <-]. lia.
    + rewrite lookup_insert_ne by done. intros E. rewrite bool_decide_false by congruence. apply (bk_refs _ _ _ _ Hb) in E.
      rewrite bool_decide_false in E by done. done.
  - intros j Hj. destruct (decide (j = id)) as [->|Hne]; [rewrite lookup_insert_eq; eauto|]. rewrite lookup_insert_ne by done. by apply (bk_known _ _ _ _ Hb).
Qed.

(** A tried entry becomes a counted one. *)
Lemma buckets_untry fl vvT vvN id n b l l' : buckets None fl vvT vvN -> fl !! id = Some (true, n) -> vvT !! b = Some l -> l ≡ₚ id :: l' ->
  buckets (Some id) (<[id := (false, 1)]> fl) (<[b := l']> vvT) vvN.
Proof.
  intros Hb Ef El Hl. pose proof (lookup_lt_Some _ _ _ El) as Hlt.
  assert (concat vvT ≡ₚ id :: concat (<[b := l']> vvT)) as Hc by (rewrite concat_insert, (concat_split _ _ _ El), Hl by done; done).
  assert (NoDup (id :: concat (<[b := l']> vvT))) as Hnd by (rewrite <- Hc; apply Hb). apply NoDup_cons in Hnd as [Hni Hnd].
  assert (refs id vvN = 0) as Hr.
  { destruct (bk_refs _ _ _ _ Hb _ _ _ Ef) as [E1 E2]. cbn in E2. rewrite bool_decide_false in E1 by done. lia. }
  split; [|apply Hb| |apply Hb|done|..].
  - by rewrite length_insert, (bk_tried_count _ _ _ _ Hb).
  - apply Forall_insert; [apply Hb|]. pose proof (Forall_lookup_1 _ _ _ _ (bk_tried_size _ _ _ _ Hb) El) as H. cbn in H. rewrite Hl in H. cbn in H. lia.
  - intros j. destruct (decide (j = id)) as [->|Hj]; [rewrite lookup_insert_eq|rewrite lookup_insert_ne by done].
    + split; [done|]. by intros [? ?].
    + rewrite <- (bk_tried _ _ _ _ Hb), Hc, elem_of_cons. tauto.
  - intros j t k. destruct (decide (j = id)) as [->|Hj].
    + rewrite lookup_insert_eq, bool_decide_true by done. intros [= <- <-]. lia.
    + rewrite lookup_insert_ne by done. intros E. rewrite bool_decide_false by congruence. apply (bk_refs _ _ _ _ Hb) in E. done.
  - intros j Hj. destruct (decide (j = id)) as [->|Hne]; [lia|]. rewrite lookup_insert_ne by done. by apply (bk_known _ _ _ _ Hb).
Qed.

(** An entry leaves all new buckets for a tried bucket with room. *)
Lemma buckets_try x fl vvT vvN id n b l l' : buckets x fl vvT vvN -> x <> Some id -> fl !! id = Some (false, n) ->
  vvT !! b = Some l -> l' ≡ₚ id :: l -> (length l < 64)%nat ->
  buckets x (<[id := (true, 0)]> fl) (<[b := l']> vvT) (map (fun s => s ∖ {[id]}) vvN).
Proof.
  intros Hb Hx Ef El Hl Hroom. pose proof (lookup_lt_Some _ _ _ El) as Hlt.
  assert (concat (<[b := l']> vvT) ≡ₚ id :: concat vvT) as Hc by (rewrite concat_insert, (concat_split _ _ _ El), Hl by done; done).
  assert (id ∉ concat vvT) as Hni by (rewrite <- (tried_flag _ _ _ _ Hb _ _ _ Ef); done).
  split.
  - by rewrite length_insert, (bk_tried_count _ _ _ _ Hb).
  - by rewrite length_map, (bk_new_count _ _ _ _ Hb).
  - apply Forall_insert; [apply Hb|]. rewrite Hl. cbn. lia.
  - apply Forall_map. eapply Forall_impl; [apply (bk_new_size _ _ _ _ Hb)|]. intros s Hs. cbn. transitivity (base.size s); [apply subseteq_size; set_solver|done].
  - rewrite Hc. apply NoDup_cons. split; [done|apply Hb].
  - intros j. rewrite Hc, elem_of_cons. destruct (decide (j = id)) as [->|Hj]; [rewrite lookup_insert_eq|rewrite lookup_insert_ne by done].
    + split; [eauto|by left].
    + rewrite <- (bk_tried _ _ _ _ Hb). tauto.
  - intros j t k. rewrite refs_erased. destruct (decide (j = id)) as [->|Hj].
    + rewrite lookup_insert_eq, bool_decide_false by done. intros [= <- <-]. done.
    + rewrite lookup_insert_ne by done. apply Hb.
  - intros j. rewrite refs_erased. destruct (decide (j = id)) as [->|Hj]; [lia|]. rewrite lookup_insert_ne by done. apply Hb.
Qed.

(** An entry leaves the new buckets for the place of a tried one, which is put
    in a new bucket with room. *)
Lemma buckets_exchange fl vvT vvN id n old b l l' p c s : buckets None fl vvT vvN -> fl !! id = Some (false, n) -> vvT !! b = Some l -> l' ≡ₚ l ->
  l' !! p = Some old -> map (fun s => s ∖ {[id]}) vvN !! c = Some s -> (base.size s < 64)%nat ->
  buckets None (<[id := (true, 0)]> (<[old := (false, 1)]> fl)) (<[b := <[p := id]> l']> vvT) (<[c := {[old]} ∪ s]> (map (fun s => s ∖ {[id]}) vvN)) /\
  old <> id /\ exists k, fl !! old = Some (true, k).
Proof.
  intros B Ef El Hl Ep Es Hs. pose proof (lookup_lt_Some _ _ _ El) as Hlt.
  pose proof (buckets_permute _ _ _ _ B b l l' El Hl) as B1. assert (<[b := l']> vvT !! b = Some l') as El1 by (by apply list_lookup_insert_eq).
  assert (exists k, fl !! old = Some (true, k)) as [k Eo].
  { apply (bk_tried _ _ _ _ B). rewrite (concat_split _ _ _ El). apply elem_of_app. left. rewrite <- Hl. by eapply list_elem_of_lookup_2. }
  assert (old <> id) as Hne by (intros ->; congruence).
  pose proof (delete_Permutation _ _ _ Ep) as Hd. pose proof (buckets_untry _ _ _ _ _ _ _ _ B1 Eo El1 Hd) as B2.
  assert (<[p := id]> l' ≡ₚ id :: delete p l') as Hd'.
  { rewrite insert_take_drop, delete_take_drop by (by eapply lookup_lt_Some). by rewrite Permutation_middle. }
  assert (length (delete p l') < 64)%nat as Hlen.
  { pose proof (Forall_lookup_1 _ _ _ _ (bk_tried_size _ _ _ _ B1) El1) as H. cbn in H. rewrite Hd in H. cbn in H. lia. }
  rewrite list_insert_insert_eq in B2. pose proof (buckets_try (Some old) _ _ _ id n b (delete p l') (<[p := id]> l') B2) as B3.
  rewrite list_insert_insert_eq, list_lookup_insert_eq, lookup_insert_ne in B3 by done.
  specialize (B3 ltac:(congruence) Ef eq_refl Hd' Hlen). split; [|eauto].
  eapply (buckets_land _ _ _ _ B3); [done|rewrite lookup_insert_ne, lookup_insert_eq by done; eauto|done| |done].
  intros Hin. pose proof (refs_pos _ _ _ _ Es Hin) as Hp. rewrite refs_erased, decide_False in Hp by done.
  destruct (bk_refs _ _ _ _ B _ _ _ Eo) as [E1 E2]. cbn in E2. rewrite bool_decide_false in E1 by done. lia.
Qed.

(** *** Entries *)

Lemma at_Some m id i : mapInfo m !! id = Some i -> has id m = true /\ at_ id m = i.
Proof. intros E. unfold has, at_. rewrite E. split; [by apply bool_decide_eq_true_2|done]. Qed.

Lemma bucket_Some m b : (0 <= b < Z.of_nat (length (vvNew m))) -> vvNew m !! Z.to_nat b = Some (bucket m b).
Proof. intros Hb. unfold bucket. destruct (vvNew m !! Z.to_nat b) eqn:E; [done|]. apply lookup_ge_None in E. lia. Qed.

Lemma tried_bucket_Some m b : (0 <= b < Z.of_nat (length (vvTried m))) -> vvTried m !! Z.to_nat b = Some (tried_bucket m b).
Proof. intros Hb. unfold tried_bucket. destruct (vvTried m !! Z.to_nat b) eqn:E; [done|]. apply lookup_ge_None in E. lia. Qed.

(** A change that keeps the address, the counts and the position of an entry. *)
Lemma upd_inv x m id f : inv x m ->
  (forall i, mapInfo m !! id = Some i -> ai_ip (f i) = ai_ip i /\ nRandomPos (f i) = nRandomPos i /\ flag (f i) = flag i /\ (timed i -> timed (f i))) ->
  inv x (upd id f m).
Proof.
  intros [I B T S M] Hf. split; cbn [mapInfo upd set_info nIdCount mapAddr vRandom vvTried vvNew nTried nNew]; [| |done|done|].
  - rewrite !fmap_alter_same; [done|..]; intros i Hi; by apply Hf in Hi as (? & ? & ? & ?).
  - rewrite fmap_alter_same; [done|]. intros i Hi; by apply Hf in Hi as (? & ? & ? & ?).
  - apply map_Forall_alter; [|done]. intros i Hi. by apply Hf in Hi as (? & ? & ? & ?).
Qed.

(** *** The random order *)

(** An entry without its position. *)
Definition strip (i : CAddrInfo) : CAddrInfo := set_nRandomPos 0 i.

Lemma strip_views (mi mi' : gmap Z CAddrInfo) : strip <$> mi = strip <$> mi' ->
  ai_ip <$> mi = ai_ip <$> mi' /\ flag <$> mi = flag <$> mi' /\ (map_Forall (fun _ => timed) mi' -> map_Forall (fun _ => timed) mi).
Proof.
  intros E. assert (forall B (v : CAddrInfo -> B), (forall i, v i = v (strip i)) -> v <$> mi = v <$> mi') as Hv.
  { intros B v Hs. rewrite (map_fmap_ext v (v ∘ strip) mi), (map_fmap_ext v (v ∘ strip) mi') by (intros; apply Hs). by rewrite !map_fmap_compose, E. }
  split; [by apply Hv|]. split; [by apply Hv|]. intros Ht j i Hi.
  assert (strip <$> mi' !! j = Some (strip i)) as E' by (by rewrite <- lookup_fmap, <- E, lookup_fmap, Hi).
  destruct (mi' !! j) as [i'|] eqn:Ei; [|done]. cbn in E'. pose proof (Ht _ _ Ei) as T. destruct i, i'. unfold strip in E'. cbn in E', T. injection E' as -> -> -> -> -> ->. done.
Qed.

Lemma view_Some {B} (v : CAddrInfo -> B) (mi : gmap Z CAddrInfo) id y : (v <$> mi) !! id = Some y <-> exists i, mi !! id = Some i /\ v i = y.
Proof. rewrite lookup_fmap, fmap_Some. split; intros (i & ? & ?); eauto. Qed.

Lemma SwapRandom_spec m p1 p2 :
  indexed (nIdCount m) (ai_ip <$> mapInfo m) (nRandomPos <$> mapInfo m) (mapAddr m) (vRandom m) -> 0 <= p1 < size m -> 0 <= p2 < size m ->
  exists mi v, SwapRandom p1 p2 m = Some (set_random v (set_info mi m)) /\
    indexed (nIdCount m) (ai_ip <$> mi) (nRandomPos <$> mi) (mapAddr m) v /\ strip <$> mi = strip <$> mapInfo m /\
    length v = length (vRandom m) /\ v !! Z.to_nat p2 = vRandom m !! Z.to_nat p1 /\ v !! Z.to_nat p1 = vRandom m !! Z.to_nat p2.
Proof.
  intros Hi H1 H2. unfold SwapRandom. destruct (Z.eqb_spec p1 p2) as [->|Hne].
  { exists (mapInfo m), (vRandom m). split; [by destruct m|]. done. }
  rewrite !(proj2 (Z.leb_le _ _)), !(proj2 (Z.ltb_lt _ _)) by lia. cbn [andb negb].
  unfold size in *. destruct (lookup_lt_is_Some_2 (vRandom m) (Z.to_nat p1)) as [id1 E1]; [lia|].
  destruct (lookup_lt_is_Some_2 (vRandom m) (Z.to_nat p2)) as [id2 E2]; [lia|]. unfold rd. rewrite E1, E2. change (default 0 (Some id1)) with id1. change (default 0 (Some id2)) with id2.
  pose proof (proj1 (random_pos _ _ _ _ _ Hi _ _) E1) as P1. pose proof (proj1 (random_pos _ _ _ _ _ Hi _ _) E2) as P2.
  apply view_Some in P1 as (i1 & M1 & P1), P2 as (i2 & M2 & P2). rewrite (proj1 (at_Some _ _ _ M1)), (proj1 (at_Some _ _ _ M2)). cbn [andb negb].
  assert (id1 <> id2) as Hid by (intros <-; rewrite M1 in M2; injection M2 as <-; lia).
  assert (alter (set_nRandomPos p2) id1 (mapInfo m) !! id2 = Some i2) as M2' by (by rewrite lookup_alter_ne).
  eexists _, _. split; [reflexivity|]. cbn [upd set_info set_random mapInfo vRandom]. split; [|split; [|split; [|split]]].
  - rewrite (fmap_alter_insert nRandomPos _ _ _ _ M2'), (fmap_alter_insert nRandomPos _ _ _ _ M1), !fmap_alter_same by done. cbn [nRandomPos set_nRandomPos].
    apply index_swap; (done || lia).
  - by rewrite !fmap_alter_same.
  - by rewrite !length_insert.
  - rewrite list_lookup_insert_eq by (rewrite length_insert; lia). done.
  - rewrite list_lookup_insert_ne, list_lookup_insert_eq by lia. done.
Qed.

Lemma random_last {A} (v : list A) (y : A) : v !! (length v - 1)%nat = Some y -> v = removelast v ++ [y].
Proof.
  destruct (decide (v = [])) as [->|Hv]; [done|]. destruct (exists_last Hv) as (v' & z & ->). rewrite removelast_last, length_app. cbn.
  intros E. rewrite lookup_app_r in E by lia. replace (length v' + 1 - 1 - length v')%nat with 0%nat in E by lia. by injection E as ->.
Qed.

Lemma inv_entry x m b id : inv x m -> 0 <= b < 256 -> id ∈ bucket m b -> exists i n, mapInfo m !! id = Some i /\ flag i = (false, n) /\ 0 <= id < nIdCount m.
Proof.
  intros Hi Hb Hin. pose proof (inv_buckets _ _ Hi) as B. destruct (known_entry _ _ _ _ B id (Z.to_nat b) (bucket m b)) as [n En].
  { apply bucket_Some. rewrite (bk_new_count _ _ _ _ B). lia. }
  { done. }
  apply view_Some in En as (i & Ei & En). exists i, n. split; [done|]. split; [done|].
  apply (ix_ids _ _ _ _ _ (inv_index _ _ Hi) id (ai_ip i)). apply view_Some. eauto.
Qed.

(** An entry is moved to the end of vRandom and taken off. *)
Lemma drop_entry m id i :
  indexed (nIdCount m) (ai_ip <$> mapInfo m) (nRandomPos <$> mapInfo m) (mapAddr m) (vRandom m) -> mapInfo m !! id = Some i ->
  exists mi v i', SwapRandom (nRandomPos i) (size m - 1) m = Some (set_random v (set_info mi m)) /\
    indexed (nIdCount m) (ai_ip <$> delete id mi) (nRandomPos <$> delete id mi) (delete (ai_ip i) (mapAddr m)) (removelast v) /\
    strip <$> mi = strip <$> mapInfo m /\ (length (vRandom m) = S (length (removelast v)))%nat /\ mi !! id = Some i' /\ ai_ip i' = ai_ip i.
Proof.
  intros I Ei. assert ((nRandomPos <$> mapInfo m) !! id = Some (nRandomPos i)) as Ep by (apply view_Some; eauto).
  apply (ix_random _ _ _ _ _ I) in Ep as [Hp Ev]. pose proof (lookup_lt_Some _ _ _ Ev) as Hlt.
  destruct (SwapRandom_spec m (nRandomPos i) (size m - 1) I) as (mi & v & Esw & I' & Hst & Hlen & Hl & _); [unfold size; lia|unfold size; lia|].
  assert (v = removelast v ++ [id]) as Hv.
  { apply random_last. rewrite Hlen, <- Ev, <- Hl. f_equal. unfold size. lia. }
  destruct (strip_views _ _ Hst) as (Hip & _ & _).
  assert ((ai_ip <$> mi) !! id = Some (ai_ip i)) as Ea by (rewrite Hip; apply view_Some; eauto).
  pose proof (proj1 (view_Some ai_ip _ _ _) Ea) as (i' & Ei' & Hi'). exists mi, v, i'. split; [done|]. split; [|split; [done|split; [|done]]].
  - rewrite !fmap_delete. by apply (index_delete _ _ _ _ _ I').
  - rewrite <- Hlen, Hv at 1. rewrite length_app. cbn. lia.
Qed.

Lemma evict_entry x m b id : inv x m -> 0 <= b < 256 -> id ∈ bucket m b -> x <> Some id ->
  exists m', evict b id m = Some m' /\ inv x m' /\ am_nKey m' = am_nKey m /\ nIdCount m' = nIdCount m /\
    vvNew m' = <[Z.to_nat b := bucket m b ∖ {[id]}]> (vvNew m) /\
    (forall j, j <> id -> strip <$> mapInfo m' !! j = strip <$> mapInfo m !! j).
Proof.
  intros Hi Hb Hin Hx. destruct (inv_entry _ _ _ _ Hi Hb Hin) as (i & n & Ei & En & _). destruct Hi as [I B T S M].
  assert (vvNew m !! Z.to_nat b = Some (bucket m b)) as Es by (apply bucket_Some; rewrite (bk_new_count _ _ _ _ B); lia).
  assert ((flag <$> mapInfo m) !! id = Some (false, n)) as Ef by (apply view_Some; eauto).
  pose proof (buckets_evict _ _ _ _ B _ _ _ _ Es Hin Hx Ef) as B'. injection En as Et En.
  set (f := fun i => set_nRefCount (nRefCount i - 1) i). set (i1 := f i).
  assert (mapInfo (upd id f m) !! id = Some i1) as E1 by (cbn; by rewrite lookup_alter_eq, Ei).
  assert (nRefCount i1 = n - 1) as En1 by (cbn; lia).
  unfold evict, drop_ref. fold f. cbv zeta. rewrite (proj2 (at_Some _ _ _ E1)), En1. destruct (Z.eqb_spec (n - 1) 0) as [Hz|Hnz].
  - assert (indexed (nIdCount m) (ai_ip <$> mapInfo (upd id f m)) (nRandomPos <$> mapInfo (upd id f m)) (mapAddr m) (vRandom m)) as I1
      by (cbn; by rewrite !fmap_alter_same).
    destruct (drop_entry (upd id f m) id i1 I1 E1) as (mi & v & i' & Esw & I' & Hst & Hlen & Ei' & Hip). rewrite Esw. cbn [mbind option_bind].
    destruct (strip_views _ _ Hst) as (_ & Hfl & Htm). eexists. split; [reflexivity|]. split; [|split; [done|split; [done|split; [done|]]]].
    + split; cbn [mapInfo upd set_info set_bucket set_random set_new nIdCount mapAddr vRandom vvTried vvNew nTried nNew].
      * unfold at_. cbn [mapInfo set_random set_info]. rewrite Ei'. change (default addrinfo_Init (Some i')) with i'. rewrite Hip. exact I'.
      * rewrite fmap_delete, Hfl. cbn [mapInfo upd set_info]. rewrite (fmap_alter_insert flag _ _ _ _ Ei), delete_insert_eq. exact B'.
      * done.
      * unfold size in *. cbn [vRandom set_bucket set_new set_random set_info upd] in *. lia.
      * apply map_Forall_delete, Htm. by apply map_Forall_alter.
    + intros j Hj. cbn [mapInfo set_bucket set_new set_random set_info upd] in *. rewrite lookup_delete_ne by done.
      by rewrite <- lookup_fmap, Hst, lookup_fmap, lookup_alter_ne.
  - eexists. split; [reflexivity|]. split; [|split; [done|split; [done|split; [done|]]]].
    + split; cbn [mapInfo upd set_info set_bucket set_new nIdCount mapAddr vRandom vvTried vvNew nTried nNew]; [| |done|done|].
      * by rewrite !fmap_alter_same.
      * rewrite (fmap_alter_insert flag _ _ _ _ Ei). unfold flag at 1. cbn [f fInTried nRefCount set_nRefCount]. rewrite Et, En. done.
      * by apply map_Forall_alter.
    + intros j Hj. cbn. by rewrite lookup_alter_ne.
Qed.

(** *** Making room in a new bucket *)

Lemma first_terrible_spec nNow l m : Forall (fun id => is_Some (mapInfo m !! id)) l ->
  exists r, first_terrible nNow l m = Some r /\ (forall id, r = Some id -> id ∈ l).
Proof.
  induction 1 as [|id l [i Hi] Hl IH]; cbn; [by exists None|]. destruct (at_Some _ _ _ Hi) as [-> ->]. cbn.
  destruct (IsTerrible nNow i); [exists (Some id); split; [done|]; intros ? [= ->]; left|].
  destruct IH as (r & -> & Hr). exists r. split; [done|]. intros j Hj. right. auto.
Qed.

Lemma oldest_drawn_spec n m l : Forall (fun id => is_Some (mapInfo m !! id) /\ id <> -1) l -> forall nI o,
  exists o', oldest_drawn l nI n o m = Some o' /\ (o' = o \/ o' ∈ l) /\
    (o = -1 -> (exists j, j ∈ n /\ nI <= j < nI + Z.of_nat (length l)) -> o' ∈ l).
Proof.
  induction 1 as [|id l [[i Hi] Hid] Hl IH]; intros nI o; cbn [oldest_drawn length].
  { exists o. split; [done|]. split; [by left|]. intros _ (j & _ & Hj). cbn in Hj. lia. }
  destruct (at_Some _ _ _ Hi) as [-> ->]. rewrite orb_true_r. cbn [negb]. case_bool_decide as Hn.
  - set (o1 := if _ || _ then id else o). destruct (IH (nI + 1) o1) as (o' & -> & Ho & _). exists o'. split; [done|].
    assert (o1 = id \/ (o1 = o /\ o <> -1)) as H1.
    { unfold o1. destruct (Z.eqb_spec o (-1)); [by left|]. cbn. destruct (_ <? _); auto. }
    rewrite elem_of_cons. split; [destruct Ho as [->|Ho]; [destruct H1 as [->|[-> _]]|]; auto|]. intros Hm _. destruct H1 as [->|[_ ?]]; [|done].
    destruct Ho; auto.
  - destruct (IH (nI + 1) o) as (o' & -> & Ho & Hd). exists o'. split; [done|]. rewrite elem_of_cons. split; [destruct Ho; auto|].
    intros Hm (j & Hj & Hr). right. apply Hd; [done|]. exists j. split; [done|]. destruct (Z.eq_dec j nI) as [->|]; [done|]. lia.
Qed.

Definition rnd_ok (rnd : nat -> Z -> Z) : Prop := forall k n, 0 < n -> 0 <= rnd k n < n.

Lemma ShrinkNew_spec rnd nNow k x m b : rnd_ok rnd -> inv x m -> 0 <= b < 256 -> bucket m b <> ∅ -> (forall id, x = Some id -> id ∉ bucket m b) ->
  exists r m' id, ShrinkNew rnd nNow k b m = Some (r, m') /\ inv x m' /\ am_nKey m' = am_nKey m /\ nIdCount m' = nIdCount m /\
    id ∈ bucket m b /\ vvNew m' = <[Z.to_nat b := bucket m b ∖ {[id]}]> (vvNew m) /\
    (forall j, j <> id -> strip <$> mapInfo m' !! j = strip <$> mapInfo m !! j).
Proof.
  intros Hrnd Hi Hb Hne Hx. unfold ShrinkNew. rewrite (bk_new_count _ _ _ _ (inv_buckets _ _ Hi)), (proj2 (Z.leb_le _ _)), (proj2 (Z.ltb_lt _ _)) by lia.
  cbn [andb negb]. assert (Forall (fun id => is_Some (mapInfo m !! id) /\ id <> -1) (in_set_order (bucket m b))) as Hall.
  { apply Forall_forall. intros id Hid%elem_of_in_set_order. destruct (inv_entry _ _ _ _ Hi Hb Hid) as (i & n & -> & _ & Hr). split; [eauto|lia]. }
  assert (forall id, id ∈ bucket m b -> exists m', evict b id m = Some m' /\ inv x m' /\ am_nKey m' = am_nKey m /\ nIdCount m' = nIdCount m /\
    vvNew m' = <[Z.to_nat b := bucket m b ∖ {[id]}]> (vvNew m) /\ (forall j, j <> id -> strip <$> mapInfo m' !! j = strip <$> mapInfo m !! j)) as Hev.
  { intros id Hid. apply evict_entry; [done|done|done|]. intros ->. by apply (Hx id). }
  destruct (first_terrible_spec nNow (in_set_order (bucket m b)) m) as (r & -> & Hr); [eapply Forall_impl; [exact Hall|tauto]|].
  cbn [mbind option_bind]. destruct r as [id|].
  - destruct (Hev id) as (m' & -> & Hm'); [apply elem_of_in_set_order; auto|]. cbn. exists 0, m', id. split; [done|].
    destruct Hm' as (? & ? & ? & ? & ?). repeat (split; [done|]). split; [apply elem_of_in_set_order; auto|done].
  - set (ds := [_; _; _; _]). destruct (oldest_drawn_spec ds m _ Hall 0 (-1)) as (id & -> & _ & Hd). cbn [mbind option_bind].
    assert (id ∈ in_set_order (bucket m b)) as Hid.
    { apply Hd; [done|]. exists (rnd k (Z.of_nat (length (in_set_order (bucket m b))))). split; [left|]. apply Hrnd. rewrite length_in_set_order.
      destruct (decide (base.size (bucket m b) = 0%nat)) as [E%size_empty_inv|]; [by apply leibniz_equiv in E|lia]. }
    apply elem_of_in_set_order in Hid. destruct (inv_entry _ _ _ _ Hi Hb Hid) as (i & n & Ei & _). rewrite (proj1 (at_Some _ _ _ Ei)). cbn [negb].
    destruct (Hev id Hid) as (m' & -> & ? & ? & ? & ? & ?). cbn. exists 1, m', id. done.
Qed.

(** *** Adding an address *)

Section Proofs.
Context {D : DigestLib} (rnd : nat -> Z -> Z) (nNow : Z).
Hypothesis Hrnd : rnd_ok rnd.

Lemma GetNewBucket_range nKey src i : 0 <= GetNewBucket nKey src i < 256.
Proof. apply Z.mod_pos_bound. lia. Qed.

Lemma GetTriedBucket_range nKey i : 0 <= GetTriedBucket nKey i < 64.
Proof. apply Z.mod_pos_bound. lia. Qed.

Definition one_more (i : CAddrInfo) : CAddrInfo := set_nRefCount (nRefCount i + 1) i.

Lemma bucket_inserted m b s : length (vvNew m) = 256%nat -> 0 <= b < 256 -> bucket (set_bucket b s m) b = s.
Proof. intros Hl Hb. unfold bucket. cbn. rewrite list_lookup_insert_eq by lia. done. Qed.

(** A counted entry is put in a bucket with room. *)
Lemma set_bucket_inv m id b i : inv (Some id) m -> 0 <= b < 256 -> mapInfo m !! id = Some i -> (id ∉ bucket m b) -> (base.size (bucket m b) < 64)%nat ->
  inv None (set_bucket b ({[id]} ∪ bucket m b) m).
Proof.
  intros [I B T S M] Hb Ei Hin Hs. split; cbn [mapInfo set_bucket set_new nIdCount mapAddr vRandom vvTried vvNew nTried nNew]; [done| |done|done|done].
  eapply (buckets_land _ _ _ _ B); [done| |apply bucket_Some; rewrite (bk_new_count _ _ _ _ B); lia|done|done].
  rewrite lookup_fmap, Ei. eauto.
Qed.

Lemma put_new_spec m id i src fNew : mapInfo m !! id = Some i -> inv (Some id) (upd id one_more m) ->
  (id ∈ bucket m (GetNewBucket (am_nKey m) src i) -> inv None m) ->
  exists m' i', put_new rnd nNow id src fNew m = Some (fNew, m') /\ inv None m' /\ am_nKey m' = am_nKey m /\ nIdCount m' = nIdCount m /\
    mapInfo m' !! id = Some i' /\ ai_address i' = ai_address i /\ id ∈ bucket m' (GetNewBucket (am_nKey m) src i).
Proof.
  intros Ei H1 H0. unfold put_new. rewrite (proj2 (at_Some _ _ _ Ei)). set (b := GetNewBucket (am_nKey m) src i) in *. cbv zeta.
  pose proof (GetNewBucket_range (am_nKey m) src i : 0 <= b < 256) as Hb. pose proof (bk_new_count _ _ _ _ (inv_buckets _ _ H1)) as Hlen. cbn in Hlen.
  case_bool_decide as Hin; [exists m, i; split; [done|]; split; [auto|done]|].
  fold one_more. change (bucket (upd id one_more m) b) with (bucket m b).
  assert (mapInfo (upd id one_more m) !! id = Some (one_more i)) as E1 by (cbn; by rewrite lookup_alter_eq, Ei).
  destruct (Z.eqb_spec (Z.of_nat (base.size (bucket m b))) ADDRMAN_NEW_BUCKET_SIZE) as [Hs|Hs]; unfold ADDRMAN_NEW_BUCKET_SIZE in Hs.
  - destruct (ShrinkNew_spec rnd nNow 1 _ _ b Hrnd H1 Hb) as (r & m' & j & -> & I' & Ek & Ec & Hj & Ev & Hoth).
    { intros E. change (bucket m b = ∅) in E. rewrite E, size_empty in Hs. done. }
    { intros ? [= <-]. done. }
    change (bucket (upd id one_more m) b) with (bucket m b) in *. change (vvNew (upd id one_more m)) with (vvNew m) in *. cbn [mbind option_bind].
    assert (id <> j) as Hne by (intros ->; done). specialize (Hoth id Hne). rewrite E1 in Hoth.
    destruct (mapInfo m' !! id) as [i'|] eqn:Ei'; [|done].
    assert (bucket m' b = bucket m b ∖ {[j]}) as Eb by (unfold bucket at 1; rewrite Ev, list_lookup_insert_eq by lia; done).
    eexists _, i'. split; [reflexivity|]. split; [|split; [done|split; [done|split; [done|split]]]].
    + apply (set_bucket_inv _ _ _ i'); [done|done|done|rewrite Eb; set_solver|].
      rewrite Eb, size_difference, size_singleton by set_solver. lia.
    + cbn in Hoth. destruct i', i. unfold strip, one_more in Hoth. cbn in *. by simplify_eq.
    + rewrite bucket_inserted; [set_solver|rewrite Ev, length_insert; done|done].
  - cbn [mbind option_bind]. eexists _, _. split; [reflexivity|]. split; [|split; [done|split; [done|split; [exact E1|split; [done|]]]]].
    + apply (set_bucket_inv _ _ _ _ H1 Hb E1 Hin). change (base.size (bucket m b) < 64)%nat.
      pose proof (Forall_lookup_1 _ _ _ _ (bk_new_size _ _ _ _ (inv_buckets _ _ H1)) (bucket_Some m b ltac:(lia))) as H. cbn in H. lia.
    + rewrite bucket_inserted by done. set_solver.
Qed.

Lemma Find_Some x m a id i : inv x m -> Find a m = Some (id, i) <-> mapInfo m !! id = Some i /\ ai_ip i = a.
Proof.
  intros Hi. pose proof (inv_index _ _ Hi) as I. unfold Find. split.
  - destruct (mapAddr m !! a) as [id'|] eqn:Ea; [|done]. cbn. destruct (mapInfo m !! id') as [i'|] eqn:Ei; [|done]. cbn. intros [= -> ->]. split; [done|].
    apply I, view_Some in Ea as (i' & Ei' & <-). congruence.
  - intros [Ei <-]. assert (mapAddr m !! ai_ip i = Some id) as -> by (apply I, view_Some; eauto). cbn. by rewrite Ei.
Qed.

Lemma Find_None x m a : inv x m -> Find a m = None -> mapAddr m !! a = None.
Proof.
  intros Hi Hf. destruct (mapAddr m !! a) as [id|] eqn:Ea; [|done]. apply (inv_index _ _ Hi), view_Some in Ea as (i & Ei & Ha).
  assert (Find a m = Some (id, i)) as E by (by apply (Find_Some _ _ _ _ _ Hi)). congruence.
Qed.

Lemma count_inv m id i : inv None m -> mapInfo m !! id = Some i -> fInTried i = false -> nRefCount i <> 4 -> inv (Some id) (upd id one_more m).
Proof.
  intros [I B T S M] Ei Ht Hn. assert ((flag <$> mapInfo m) !! id = Some (false, nRefCount i)) as Ef by (apply view_Some; exists i; unfold flag; by rewrite Ht).
  pose proof (bk_refs _ _ _ _ B _ _ _ Ef) as [Er _]. rewrite bool_decide_false, Z.add_0_r in Er by done.
  split; cbn [mapInfo upd set_info nIdCount mapAddr vRandom vvTried vvNew nTried nNew]; [| |done|done|].
  - by rewrite !fmap_alter_same.
  - rewrite (fmap_alter_insert flag _ _ _ _ Ei). unfold flag at 1. cbn. rewrite Ht, Er. apply buckets_count; [done|]. right. eauto.
  - by apply map_Forall_alter.
Qed.

(** The entry made for an unknown address, counted once. *)
Lemma create_inv m addr src nTimePenalty : inv None m -> 0 <= nIdCount m < 2 ^ 31 - 1 -> mapAddr m !! svc_ip (ad_service addr) = None ->
  let '(nId, m1) := Create addr src m in
  let m2 := upd nId (fun i => set_address (set_nTime (Z.max 0 (ai_nTime i - nTimePenalty))) i) m1 in
  let m3 := set_new (nNew m2 + 1) (vvNew m2) m2 in
  nId = nIdCount m /\ inv (Some nId) (upd nId one_more m3) /\ (forall b, nId ∉ bucket m3 b) /\ am_nKey m3 = am_nKey m /\ nIdCount m3 = nIdCount m + 1 /\
  exists i, mapInfo m3 !! nId = Some i /\ ai_ip i = svc_ip (ad_service addr).
Proof.
  intros [I B T S M] Hc Ha. cbn [Create]. set (id := nIdCount m).
  assert (mapInfo m !! id = None) as En.
  { destruct (mapInfo m !! id) as [i|] eqn:E; [|done]. pose proof (ix_ids _ _ _ _ _ I id (ai_ip i)) as H. cbn in H. rewrite lookup_fmap, E in H. specialize (H eq_refl). lia. }
  assert (refs id (vvNew m) = 0) as Hr.
  { pose proof (refs_nonneg id (vvNew m)). destruct (Z.eq_dec (refs id (vvNew m)) 0); [done|]. destruct (bk_known _ _ _ _ B id) as [? E]; [lia|].
    rewrite lookup_fmap, En in E. done. }
  cbn [upd set_info set_new mapInfo nNew vvNew am_nKey nIdCount]. rewrite i32_small by lia. split; [done|]. split; [|split; [|split; [done|split; [done|]]]].
  - split; cbn [mapInfo nIdCount mapAddr vRandom vvTried vvNew nTried nNew upd set_info set_new].
    + rewrite !fmap_alter_same, !fmap_insert by done. cbn. apply index_create; [done|by rewrite lookup_fmap, En|lia|done].
    + set (i0 := set_nRandomPos _ _). set (g := fun i : CAddrInfo => set_address _ i).
      assert (alter g id (<[id := i0]> (mapInfo m)) !! id = Some (g i0)) as E0 by (by rewrite lookup_alter_eq, lookup_insert_eq).
      rewrite (fmap_alter_insert flag _ _ _ _ E0), fmap_alter_same, fmap_insert, insert_insert_eq by done.
      change (flag (one_more (g i0))) with (false, 0 + 1). rewrite <- Hr. apply buckets_count; [done|]. left. by rewrite lookup_fmap, En.
    + done.
    + unfold size in *. cbn [vRandom upd set_info set_new]. rewrite length_app. cbn [length]. lia.
    + apply map_Forall_alter; [done|]. apply map_Forall_alter; [done|]. apply map_Forall_insert_2; [|done]. split; [done|]. split; done.
  - intros b Hb. destruct (vvNew m !! Z.to_nat b) as [s|] eqn:Es; unfold bucket in Hb; cbn in Hb; rewrite Es in Hb; cbn in Hb; [|set_solver].
    pose proof (refs_pos _ _ _ _ Es Hb). lia.
  - rewrite lookup_alter_eq, lookup_insert_eq. cbn. by eexists.
Qed.

Lemma refresh_neutral addr pen i :
  ai_ip (refresh nNow addr pen i) = ai_ip i /\ nRandomPos (refresh nNow addr pen i) = nRandomPos i /\ flag (refresh nNow addr pen i) = flag i /\
  (timed i -> timed (refresh nNow addr pen i)).
Proof. unfold refresh. destruct (_ && _); done. Qed.

Lemma Add_spec m addr src pen : inv None m -> 0 <= nIdCount m < 2 ^ 31 - 1 ->
  exists fNew m', Add_ rnd nNow addr src pen m = Some (fNew, m') /\ inv None m' /\ nIdCount m <= nIdCount m' <= nIdCount m + 1 /\ am_nKey m' = am_nKey m /\
    (fNew = true <-> IsRoutable (svc_ip (ad_service addr)) = true /\ Find (svc_ip (ad_service addr)) m = None) /\
    (IsRoutable (svc_ip (ad_service addr)) = true -> is_Some (Find (svc_ip (ad_service addr)) m')).
Proof.
  intros Hi Hc. unfold Add_. set (ip := svc_ip (ad_service addr)). destruct (IsRoutable ip) eqn:Hr; cbn [negb].
  2: { exists false, m. split; [done|]. split; [done|]. split; [lia|]. split; [done|]. split; [|done]. split; [done|]. by intros [? _]. }
  destruct (Find ip m) as [[id i]|] eqn:Ef.
  - apply (Find_Some _ _ _ _ _ Hi) in Ef as [Ei Ea]. set (m1 := upd id (refresh nNow addr pen) m). set (i1 := refresh nNow addr pen i).
    destruct (refresh_neutral addr pen i) as (R1 & R2 & R3 & R4).
    assert (inv None m1) as H1 by (apply upd_inv; [done|]; intros; apply refresh_neutral).
    assert (mapInfo m1 !! id = Some i1) as E1 by (cbn; by rewrite lookup_alter_eq, Ei).
    assert (is_Some (Find ip m1)) as F1 by (exists (id, i1); apply (Find_Some _ _ _ _ _ H1); split; [done|]; unfold i1; by rewrite R1).
    assert (forall b : bool, b = false -> (b = true <-> true = true /\ (Some (id, i) : option (Z * CAddrInfo)) = None)) as Hf
      by (intros b ->; split; [done|by intros [_ ?]]).
    assert (exists fNew m', Some (false, m1) = Some (fNew, m') /\ inv None m' /\ nIdCount m <= nIdCount m' <= nIdCount m + 1 /\ am_nKey m' = am_nKey m /\
      (fNew = true <-> true = true /\ (Some (id, i) : option (Z * CAddrInfo)) = None) /\ (true = true -> is_Some (Find ip m'))) as Hret.
    { exists false, m1. split; [done|]. split; [done|]. split; [cbn; lia|]. split; [done|]. split; [by apply Hf|done]. }
    case_bool; [exact Hret|]. destruct (fInTried i1) eqn:Et; [exact Hret|]. destruct (Z.eqb_spec (nRefCount i1) ADDRMAN_NEW_BUCKETS_PER_ADDRESS) as [_|Hn]; [exact Hret|].
    case_bool; [exact Hret|]. destruct (put_new_spec m1 id i1 src false E1) as (m' & i' & -> & I' & Hk & Hcnt & Ei' & Ea' & _).
    { by apply (count_inv _ _ i1). }
    { done. }
    exists false, m'. split; [done|]. split; [done|]. split; [rewrite Hcnt; cbn; lia|]. split; [done|]. split; [by apply Hf|]. intros _.
    exists (id, i'). apply (Find_Some _ _ _ _ _ I'). split; [done|]. unfold ai_ip. rewrite Ea'. unfold i1. by rewrite <- Ea, <- R1.
  - pose proof (create_inv m addr src pen Hi Hc (Find_None _ _ _ Hi Ef)) as Hcr. destruct (Create addr src m) as [id m1]. cbv zeta in Hcr.
    destruct Hcr as (-> & H1 & Hnb & Hk & Hcnt & i & Ei & Ea). set (m3 := set_new _ _ _) in *.
    destruct (put_new_spec m3 (nIdCount m) i src true Ei H1) as (m' & i' & -> & I' & Hk' & Hcnt' & Ei' & Ea' & _).
    { intros Hin. by apply Hnb in Hin. }
    exists true, m'. split; [done|]. split; [done|]. split; [lia|]. split; [congruence|]. split; [done|]. intros _. exists (nIdCount m, i').
    apply (Find_Some _ _ _ _ _ I'). split; [done|]. unfold ai_ip in *. by rewrite Ea'.
Qed.

(** *** Choosing a tried entry to evict *)

Lemma inspect_spec cnt : forall i k o p b m l, vvTried m !! Z.to_nat b = Some l ->
  Forall (fun id => is_Some (mapInfo m !! id) /\ id <> -1) l -> (o = -1 \/ is_Some (mapInfo m !! o)) ->
  exists p' l', inspect rnd cnt i k o p b m = Some (p', set_tried (nTried m) (<[Z.to_nat b := l']> (vvTried m)) m) /\ l' ≡ₚ l /\
    (p' = p \/ 0 <= p' < Z.of_nat (length l)) /\ (o = -1 -> (0 < cnt)%nat -> (i < length l)%nat -> 0 <= p' < Z.of_nat (length l)).
Proof.
  induction cnt as [|cnt IH]; intros i k o p b m l El Hall Ho; cbn [inspect].
  { exists p, l. rewrite list_insert_id by done. split; [by destruct m|]. split; [done|]. split; [by left|]. lia. }
  assert (tried_bucket m b = l) as -> by (unfold tried_bucket; by rewrite El).
  destruct (Z.ltb_spec (Z.of_nat i) (Z.of_nat (length l))) as [Hlt|Hge]; cbn [negb].
  2: { exists p, l. rewrite list_insert_id by done. split; [by destruct m|]. split; [done|]. split; [by left|]. lia. }
  set (q := rnd k (Z.of_nat (length l) - Z.of_nat i) + Z.of_nat i).
  assert (Z.of_nat i <= q < Z.of_nat (length l)) as Hq by (pose proof (Hrnd k (Z.of_nat (length l) - Z.of_nat i)); lia).
  destruct (lookup_lt_is_Some_2 l (Z.to_nat q)) as [t Et]; [lia|]. destruct (lookup_lt_is_Some_2 l i) as [u Eu]; [lia|].
  unfold rd. rewrite Et, Eu. change (default 0 (Some t)) with t. change (default 0 (Some u)) with u.
  set (l1 := <[i := t]> (<[Z.to_nat q := u]> l)). assert (l1 ≡ₚ l) as Hp by (by apply swap_entries_perm).
  set (m1 := set_tried_bucket b l1 m).
  assert (vvTried m1 !! Z.to_nat b = Some l1) as El1 by (cbn; by rewrite list_lookup_insert_eq by (by eapply lookup_lt_Some)).
  assert (Forall (fun id => is_Some (mapInfo m1 !! id) /\ id <> -1) l1) as Hall1 by (by rewrite Hp).
  destruct (Forall_lookup_1 _ _ _ _ Hall Et) as [[ti Hti] Htn]. change (mapInfo m !! t) with (mapInfo m1 !! t) in Hti.
  assert (forall o' p'', (o' = -1 \/ is_Some (mapInfo m1 !! o')) -> (p'' = p /\ o <> -1 \/ 0 <= p'' < Z.of_nat (length l)) ->
    exists p' l', inspect rnd cnt (S i) (S k) o' p'' b m1 = Some (p', set_tried (nTried m) (<[Z.to_nat b := l']> (vvTried m)) m) /\ l' ≡ₚ l /\
    (p' = p \/ 0 <= p' < Z.of_nat (length l)) /\ (o = -1 -> (0 < S cnt)%nat -> (i < length l)%nat -> 0 <= p' < Z.of_nat (length l))) as Hgo.
  { intros o' p'' Ho' Hp''. destruct (IH (S i) (S k) o' p'' b m1 l1 El1 Hall1 Ho') as (p' & l' & -> & Hl' & Hr & _). exists p', l'.
    split; [cbn; by rewrite list_insert_insert_eq|]. rewrite Hp in Hl', Hr. split; [done|]. destruct Hr as [->|Hr]; [|auto]. split; [tauto|]. tauto. }
  destruct (Z.eqb_spec o (-1)) as [->|Hne]; [apply Hgo; [right; eauto|right; lia]|]. rewrite (proj1 (at_Some _ _ _ Hti)). cbn [negb].
  destruct Ho as [?|[oi Hoi]]; [done|]. change (mapInfo m !! o) with (mapInfo m1 !! o) in Hoi. unfold touch. rewrite Hoi.
  case_bool; apply Hgo; [right; eauto|right; lia|right; eauto|left; done].
Qed.

(** *** Moving an entry to the tried table *)

Lemma alter_alter {A} (f g : A -> A) id (mi : gmap Z A) : alter f id (alter g id mi) = alter (fun i => f (g i)) id mi.
Proof. apply map_eq. intros j. destruct (decide (id = j)) as [<-|]; [rewrite !lookup_alter_eq; by destruct (mi !! id)|by rewrite !lookup_alter_ne]. Qed.

Lemma erased_bucket m id b n : 0 <= b < Z.of_nat (length (vvNew m)) ->
  bucket (set_new n (map (fun s => s ∖ {[id]}) (vvNew m)) m) b = bucket m b ∖ {[id]}.
Proof. intros Hb. unfold bucket at 1. cbn. rewrite list_lookup_fmap, bucket_Some by done. done. Qed.

(** "there is certainly place there" *)
Lemma room_left m id ub o : buckets None (flag <$> mapInfo m) (vvTried m) (vvNew m) -> 0 <= ub < 256 -> 0 <= o < 256 -> id ∈ bucket m o ->
  let b := if Z.of_nat (base.size (bucket m ub ∖ {[id]})) <? ADDRMAN_NEW_BUCKET_SIZE then ub else o in
  0 <= b < 256 /\ (base.size (bucket m b ∖ {[id]}) < 64)%nat.
Proof.
  intros B Hub Ho Hin b. unfold b, ADDRMAN_NEW_BUCKET_SIZE. destruct (Z.ltb_spec (Z.of_nat (base.size (bucket m ub ∖ {[id]}))) 64); [split; [done|lia]|].
  split; [done|]. pose proof (bk_new_count _ _ _ _ B) as Ln. rewrite size_difference, size_singleton by set_solver.
  pose proof (Forall_lookup_1 _ _ _ _ (bk_new_size _ _ _ _ B) (bucket_Some m o ltac:(lia))) as Hs. cbn in Hs. lia.
Qed.

(** An entry as MakeTried leaves it. *)
Definition unlisted (id : Z) (m : CAddrMan) (i : CAddrInfo) : CAddrInfo := set_nRefCount (nRefCount i - refs id (vvNew m)) i.

Lemma unlisted_flag m id i : inv None m -> mapInfo m !! id = Some i -> fInTried i = false ->
  (flag <$> mapInfo m) !! id = Some (false, nRefCount i) /\ nRefCount (unlisted id m i) = 0 /\ flag (set_fInTried true (unlisted id m i)) = (true, 0).
Proof.
  intros [I B T S M] Ei Ht. assert ((flag <$> mapInfo m) !! id = Some (false, nRefCount i)) as Ef by (apply view_Some; exists i; unfold flag; by rewrite Ht).
  pose proof (bk_refs _ _ _ _ B _ _ _ Ef) as [Er _]. rewrite bool_decide_false, Z.add_0_r in Er by done.
  assert (nRefCount (unlisted id m i) = 0) as Hz by (cbn; lia). split; [done|]. split; [done|]. unfold flag. cbn in *. by rewrite Hz.
Qed.

(** The tried bucket has room. *)
Lemma move_room m id i kb : inv None m -> mapInfo m !! id = Some i -> fInTried i = false -> nLastSuccess i <> 0 -> 0 <= kb < 64 ->
  (length (tried_bucket m kb) < 64)%nat ->
  inv None (mk_addrman (am_nKey m) (nIdCount m) (alter (set_fInTried true) id (alter (unlisted id m) id (mapInfo m))) (mapAddr m) (vRandom m)
              (nTried m + 1) (<[Z.to_nat kb := tried_bucket m kb ++ [id]]> (vvTried m)) (nNew m - 1) (map (fun s => s ∖ {[id]}) (vvNew m))).
Proof.
  intros Hi Ei Ht Hsucc Hk Hroom. destruct (unlisted_flag _ _ _ Hi Ei Ht) as (Ef & _ & Hf). destruct Hi as [I B T S M].
  pose proof (bk_tried_count _ _ _ _ B) as Lt. pose proof (tried_bucket_Some m kb ltac:(lia)) as El.
  split; cbn [mapInfo nIdCount mapAddr vRandom vvTried vvNew nTried nNew]; rewrite ?alter_alter.
  - by rewrite !fmap_alter_same.
  - rewrite (fmap_alter_insert flag _ _ _ _ Ei), Hf. eapply (buckets_try _ _ _ _ _ _ _ (tried_bucket m kb) _ B); [done|exact Ef|done| |lia].
    by rewrite Permutation_app_comm.
  - rewrite concat_insert, !length_app by lia. rewrite (concat_split _ _ _ El), length_app in T. cbn. lia.
  - unfold size in *. cbn. lia.
  - apply map_Forall_alter; [|done]. intros j Hj (? & ? & ?). rewrite Ei in Hj. injection Hj as <-. done.
Qed.

(** A tried entry makes place, and goes to the new bucket [b]. *)
Lemma move_exchange m id i kb l' p old io b : inv None m -> mapInfo m !! id = Some i -> fInTried i = false -> nLastSuccess i <> 0 -> 0 <= kb < 64 ->
  l' ≡ₚ tried_bucket m kb -> l' !! p = Some old -> alter (unlisted id m) id (mapInfo m) !! old = Some io ->
  0 <= b < 256 -> (base.size (bucket m b ∖ {[id]}) < 64)%nat ->
  old <> id /\
  inv None (mk_addrman (am_nKey m) (nIdCount m)
              (alter (set_fInTried true) id (alter (fun i => set_nRefCount 1 (set_fInTried false i)) old (alter (unlisted id m) id (mapInfo m)))) (mapAddr m) (vRandom m)
              (nTried m) (<[Z.to_nat kb := <[p := id]> l']> (<[Z.to_nat kb := l']> (vvTried m))) (nNew m - 1 + 1)
              (<[Z.to_nat b := {[old]} ∪ bucket m b ∖ {[id]}]> (map (fun s => s ∖ {[id]}) (vvNew m)))).
Proof.
  intros Hi Ei Ht Hsucc Hk Hl Eold Eio Hb Hbs. destruct (unlisted_flag _ _ _ Hi Ei Ht) as (Ef & _ & Hf). destruct Hi as [I B T S M].
  pose proof (bk_tried_count _ _ _ _ B) as Lt. pose proof (bk_new_count _ _ _ _ B) as Ln. pose proof (tried_bucket_Some m kb ltac:(lia)) as El.
  destruct (buckets_exchange _ _ _ id _ old _ _ l' p (Z.to_nat b) (bucket m b ∖ {[id]}) B Ef El Hl Eold) as (B' & Hne & _);
    [rewrite list_lookup_fmap, bucket_Some by lia; done|done|]. split; [done|].
  split; cbn [mapInfo nIdCount mapAddr vRandom vvTried vvNew nTried nNew]; rewrite ?list_insert_insert_eq.
  - by rewrite !fmap_alter_same.
  - set (f := fun i => set_nRefCount 1 _). assert (alter f old (alter (unlisted id m) id (mapInfo m)) !! id = Some (unlisted id m i)) as E3
      by (by rewrite lookup_alter_ne, lookup_alter_eq, Ei by done).
    rewrite (fmap_alter_insert flag _ _ _ _ E3), (fmap_alter_insert flag _ _ _ _ Eio), (fmap_alter_insert flag _ _ _ _ Ei), Hf.
    change (flag (f io)) with (false, 1). rewrite (insert_insert_ne _ old id), insert_insert_eq by done. exact B'.
  - rewrite concat_insert, length_app, length_insert by lia. rewrite (concat_split _ _ _ El), length_app in T. rewrite Hl. lia.
  - unfold size in *. cbn. lia.
  - apply map_Forall_alter; [|apply map_Forall_alter; [|by apply map_Forall_alter]].
    + rewrite lookup_alter_ne, lookup_alter_eq, Ei by done. intros j [= <-] (? & ? & ?). done.
    + intros j _ (? & ? & ?). done.
Qed.

Lemma tried_present m kb j : inv None m -> 0 <= kb < 64 -> j ∈ tried_bucket m kb -> is_Some (mapInfo m !! j) /\ j <> -1.
Proof.
  intros [I B T S M] Hk Hj. pose proof (bk_tried_count _ _ _ _ B) as Lt. pose proof (tried_bucket_Some m kb ltac:(lia)) as El.
  assert (exists n, (flag <$> mapInfo m) !! j = Some (true, n)) as [n Ej]
    by (apply (bk_tried _ _ _ _ B); rewrite (concat_split _ _ _ El); apply elem_of_app; by left).
  apply view_Some in Ej as (ij & Ej & _). split; [eauto|].
  pose proof (ix_ids _ _ _ _ _ I j (ai_ip ij)) as Hj'. cbn in Hj'. rewrite lookup_fmap, Ej in Hj'. specialize (Hj' eq_refl). lia.
Qed.

Lemma MakeTried_spec k m id i o : inv None m -> mapInfo m !! id = Some i -> fInTried i = false -> nLastSuccess i <> 0 -> 0 <= o < 256 -> id ∈ bucket m o ->
  exists m' i', MakeTried rnd k id o m = Some m' /\ inv None m' /\ nIdCount m' = nIdCount m /\ am_nKey m' = am_nKey m /\
    mapInfo m' !! id = Some i' /\ fInTried i' = true /\ ai_address i' = ai_address i.
Proof.
  intros Hi Ei Ht Hsucc Ho Hin. unfold MakeTried. rewrite bool_decide_true by done. cbn [negb]. rewrite erase_all_spec. fold (unlisted id m).
  destruct (unlisted_flag _ _ _ Hi Ei Ht) as (_ & Hg & _). set (m1 := upd id (unlisted id m) _).
  assert (mapInfo m1 !! id = Some (unlisted id m i)) as E1 by (cbn; by rewrite lookup_alter_eq, Ei).
  rewrite (proj2 (at_Some _ _ _ E1)), Hg. cbn [Z.eqb negb].
  pose proof (GetTriedBucket_range (am_nKey m1) (unlisted id m i)) as Hk. set (kb := GetTriedBucket _ _) in *.
  pose proof (bk_tried_count _ _ _ _ (inv_buckets _ _ Hi)) as Lt. pose proof (bk_new_count _ _ _ _ (inv_buckets _ _ Hi)) as Ln.
  pose proof (tried_bucket_Some m kb ltac:(lia)) as El. change (tried_bucket m1 kb) with (tried_bucket m kb).
  destruct (Z.ltb_spec (Z.of_nat (length (tried_bucket m kb))) ADDRMAN_TRIED_BUCKET_SIZE) as [Hroom|Hfull]; unfold ADDRMAN_TRIED_BUCKET_SIZE in *.
  - eexists _, _. split; [reflexivity|]. split; [apply (move_room m id i kb Hi Ei Ht Hsucc Hk); lia|]. split; [done|]. split; [done|].
    cbn. rewrite !lookup_alter_eq, Ei. cbn. done.
  - assert (Forall (fun j => is_Some (mapInfo m1 !! j) /\ j <> -1) (tried_bucket m kb)) as Hall.
    { apply Forall_forall. intros j Hj. destruct (tried_present m kb j Hi Hk Hj) as [? ?]. split; [cbn; by apply lookup_alter_is_Some|done]. }
    destruct (inspect_spec 4 0 k (-1) (-1) kb m1 (tried_bucket m kb) El Hall (or_introl eq_refl)) as (p & l' & Esel & Hl & _ & Hp).
    specialize (Hp eq_refl ltac:(lia) ltac:(lia)).
    unfold SelectTried, ADDRMAN_TRIED_ENTRIES_INSPECT_ON_EVICT. rewrite Esel. cbn [mbind option_bind]. set (m2 := set_tried (nTried m1) _ m1).
    assert (tried_bucket m2 kb = l') as El2 by (unfold tried_bucket; cbn; rewrite list_lookup_insert_eq by lia; done). rewrite El2.
    destruct (lookup_lt_is_Some_2 l' (Z.to_nat p)) as [old Eold]; [rewrite Hl; lia|].
    assert (rd l' (Z.to_nat p) = old) as -> by (unfold rd; by rewrite Eold).
    destruct (proj1 (Forall_forall _ _) Hall old) as [[io Eio] _]; [rewrite <- Hl; by eapply list_elem_of_lookup_2|].
    change (has old m2) with (has old m1). change (at_ old m2) with (at_ old m1). destruct (at_Some _ _ _ Eio) as [-> ->]. cbn [negb].
    pose proof (GetNewBucket_range (am_nKey m2) (source io) io) as Hub. set (ub := GetNewBucket _ _ _) in *. set (f := fun i => set_nRefCount 1 _).
    assert (forall b, 0 <= b < 256 -> bucket (upd old f m2) b = bucket m b ∖ {[id]}) as Hbk.
    { intros b Hb. change (bucket (upd old f m2) b) with (bucket (set_new (nNew m - 1) (map (fun s => s ∖ {[id]}) (vvNew m)) m) b). apply erased_bucket. lia. }
    rewrite (Hbk ub Hub). destruct (room_left m id ub o (inv_buckets _ _ Hi) Hub Ho Hin) as [Hb Hbs]. set (b := if Z.of_nat (base.size (bucket m ub ∖ {[id]})) <? ADDRMAN_NEW_BUCKET_SIZE then ub else o) in *.
    rewrite (Hbk b Hb). set (m4 := set_new _ _ (set_bucket b _ _)). assert (tried_bucket m4 kb = l') as -> by exact El2. unfold m4.
    destruct (move_exchange m id i kb l' (Z.to_nat p) old io b Hi Ei Ht Hsucc Hk Hl Eold Eio Hb Hbs) as [Hne I'].
    eexists _, _. split; [reflexivity|]. split; [exact I'|]. split; [done|]. split; [done|].
    cbn. rewrite lookup_alter_eq, lookup_alter_ne, lookup_alter_eq, Ei by done. cbn. done.
Qed.

Lemma find_bucket_spec m r id cnt : (0 < length (vvNew m))%nat -> forall n,
  (exists j, n <= j < n + Z.of_nat cnt /\ id ∈ bucket m ((j + r) mod Z.of_nat (length (vvNew m)))) ->
  let b := find_bucket cnt n r id m in 0 <= b < Z.of_nat (length (vvNew m)) /\ id ∈ bucket m b.
Proof.
  intros Hl. induction cnt as [|cnt IH]; intros n (j & Hj & Hin); cbn [find_bucket]; [lia|]. cbv zeta.
  case_bool_decide as Hb; [split; [apply Z.mod_pos_bound; lia|done]|]. apply IH. exists j. split; [|done].
  destruct (Z.eq_dec j n) as [->|]; [done|]. lia.
Qed.

(** A reported success: the entry of that very address and port is updated and
    is in the tried table. *)
Lemma Good_spec addr t m : inv None m -> 0 < t < 2 ^ 32 ->
  exists m', Good_ rnd addr t m = Some m' /\ inv None m' /\ nIdCount m' = nIdCount m /\ am_nKey m' = am_nKey m /\
    (forall id i, Find (svc_ip addr) m = Some (id, i) -> same_service i addr = true ->
       exists i', Find (svc_ip addr) m' = Some (id, i') /\ fInTried i' = true /\ ai_nTime i' = t /\ ai_nLastTry i' = t).
Proof.
  intros Hi Ht. unfold Good_. destruct (Find (svc_ip addr) m) as [[id i]|] eqn:Ef; [|exists m; done].
  destruct (same_service i addr) eqn:Es; cbn [negb]; [|exists m; repeat (split; [done|]); intros ? ? [= <- <-]; congruence].
  pose proof Ef as Ef'. apply (Find_Some _ _ _ _ _ Hi) in Ef as [Ei Ea]. set (f := fun i => set_nAttempts 0 _). set (m1 := upd id f m).
  assert (timed i) as Hti by (by apply (inv_times _ _ Hi id i)).
  assert (inv None m1) as H1.
  { apply upd_inv; [done|]. intros j Hj. split; [done|]. split; [done|]. split; [done|]. intros (? & ? & ?). split; [cbn; lia|]. split; [cbn; lia|]. intros _. cbn. lia. }
  assert (mapInfo m1 !! id = Some (f i)) as E1 by (cbn; by rewrite lookup_alter_eq, Ei).
  assert (ai_nTime (f i) = t /\ ai_nLastTry (f i) = t) as [Et1 Et2] by (cbn; rewrite u32_small by lia; done).
  destruct (fInTried i) eqn:Eti.
  { exists m1. repeat (split; [done|]). intros ? ? [= <- <-] _. exists (f i). split; [apply (Find_Some _ _ _ _ _ H1); done|done]. }
  pose proof (bk_new_count _ _ _ _ (inv_buckets _ _ H1)) as Ln.
  destruct (find_bucket_spec m1 (rnd 0 (Z.of_nat (length (vvNew m1)))) id (length (vvNew m1)) ltac:(lia) 0) as [Hb Hin].
  { assert ((flag <$> mapInfo m1) !! id = Some (false, nRefCount i)) as Efl by (apply view_Some; exists (f i); unfold flag; cbn; by rewrite Eti).
    destruct (bk_refs _ _ _ _ (inv_buckets _ _ H1) _ _ _ Efl) as [Er Hn]. rewrite bool_decide_false, Z.add_0_r in Er by done. cbn in Hn.
    destruct (refs_found id (vvNew m1)) as (b & s & Eb & Hs); [lia|]. pose proof (lookup_lt_Some _ _ _ Eb) as Hlt.
    set (L := Z.of_nat (length (vvNew m1))) in *. set (r := rnd 0 L). exists ((Z.of_nat b - r) mod L).
    split; [pose proof (Z.mod_pos_bound (Z.of_nat b - r) L); lia|]. rewrite Zplus_mod_idemp_l, Z.sub_add, Z.mod_small by lia.
    unfold bucket. by rewrite Nat2Z.id, Eb. }
  set (b := find_bucket _ _ _ _ _) in *. destruct (Z.eqb_spec b (-1)); [lia|].
  destruct (MakeTried_spec 1 m1 id (f i) b H1 E1 Eti) as (m' & i' & -> & I' & Hc & Hk & Ei' & Hf' & Ha'); [cbn; lia|lia|done|].
  exists m'. split; [done|]. split; [done|]. split; [done|]. split; [done|]. intros ? ? [= <- <-] _. exists i'. split.
  { apply (Find_Some _ _ _ _ _ I'). split; [done|]. unfold ai_ip. rewrite Ha'. exact Ea. }
  split; [done|]. unfold ai_nTime, ai_nLastTry in *. rewrite Ha'. done.
Qed.

Lemma Attempt_spec addr t m : inv None m -> 0 <= t -> inv None (Attempt_ addr t m) /\ nIdCount (Attempt_ addr t m) = nIdCount m.
Proof.
  intros Hi Ht. unfold Attempt_. destruct (Find (svc_ip addr) m) as [[id i]|]; [|done]. case_bool; [done|]. split; [|done].
  apply upd_inv; [done|]. intros j Hj. do 3 (split; [done|]). intros (? & ? & ?). split; [cbn; lia|done].
Qed.

Lemma Connected_spec addr t m : inv None m -> inv None (Connected_ addr t m) /\ nIdCount (Connected_ addr t m) = nIdCount m.
Proof.
  intros Hi. unfold Connected_. destruct (Find (svc_ip addr) m) as [[id i]|]; [|done]. case_bool; [done|]. case_bool; [|done]. split; [|done].
  apply upd_inv; done.
Qed.

(** *** Drawing addresses *)

Lemma swap_inv x m mi v : inv x m -> indexed (nIdCount m) (ai_ip <$> mi) (nRandomPos <$> mi) (mapAddr m) v -> strip <$> mi = strip <$> mapInfo m ->
  length v = length (vRandom m) -> inv x (set_random v (set_info mi m)).
Proof.
  intros [I B T S M] I' Hs Hl. destruct (strip_views _ _ Hs) as (_ & Hf & Ht). split; cbn; [done|by rewrite Hf|done| |by apply Ht].
  unfold size in *. cbn. lia.
Qed.

Lemma draw_spec cnt : forall n m, inv None m -> 0 <= n -> n + Z.of_nat cnt <= size m ->
  exists vAddr m', draw_addresses rnd cnt n m = Some (vAddr, m') /\ inv None m' /\ nIdCount m' = nIdCount m /\ length vAddr = cnt /\
    strip <$> mapInfo m' = strip <$> mapInfo m /\ Forall (fun a => exists id i, mapInfo m !! id = Some i /\ ai_address i = a) vAddr.
Proof.
  induction cnt as [|cnt IH]; intros n m Hi Hn Hc; cbn [draw_addresses]; [exists [], m; done|].
  set (q := rnd (Z.to_nat n) (size m - n) + n). assert (n <= q < size m) as Hq by (pose proof (Hrnd (Z.to_nat n) (size m - n)); lia).
  destruct (SwapRandom_spec m n q (inv_index _ _ Hi)) as (mi & v & -> & I' & Hs & Hl & _ & Hv); [lia|lia|]. cbn [mbind option_bind].
  set (m1 := set_random v (set_info mi m)). assert (inv None m1) as H1 by (by apply swap_inv).
  assert (size m1 = size m) as Esz by (unfold size; cbn; lia).
  destruct (lookup_lt_is_Some_2 (vRandom m1) (Z.to_nat n)) as [id Eid]; [unfold size in *; lia|].
  assert (rd (vRandom m1) (Z.to_nat n) = id) as -> by (unfold rd; by rewrite Eid).
  pose proof (proj1 (random_pos _ _ _ _ _ (inv_index _ _ H1) _ _) Eid) as Ep. apply view_Some in Ep as (i & Ei & _).
  destruct (at_Some _ _ _ Ei) as [-> ->]. cbn [negb]. destruct (IH (n + 1) m1 H1) as (vs & m' & -> & I2 & Hc2 & Hl2 & Hs2 & Hf2); [lia|lia|].
  assert (forall j ij, mapInfo m1 !! j = Some ij -> exists ij', mapInfo m !! j = Some ij' /\ ai_address ij' = ai_address ij) as Hback.
  { intros j ij Ej. assert (strip <$> mapInfo m !! j = Some (strip ij)) as E by (rewrite <- lookup_fmap, <- Hs, lookup_fmap; cbn in Ej; by rewrite Ej).
    destruct (mapInfo m !! j) as [ij'|] eqn:Ej'; [|done]. exists ij'. split; [done|]. cbn in E. by injection E. }
  cbn [mbind option_bind]. eexists _, m'. split; [reflexivity|]. split; [done|]. split; [done|]. split; [by rewrite <- Hl2|]. split; [by rewrite Hs2|].
  constructor; [destruct (Hback _ _ Ei) as (i' & ? & ?); eauto|]. eapply Forall_impl; [exact Hf2|].
  intros a (j & ij & Ej & Ha). destruct (Hback _ _ Ej) as (ij' & ? & ?). exists j, ij'. split; [done|congruence].
Qed.

Lemma GetAddr_spec m : inv None m ->
  exists vAddr m', GetAddr_ rnd m = Some (vAddr, m') /\ inv None m' /\ nIdCount m' = nIdCount m /\
    Z.of_nat (length vAddr) = Z.min 2500 (23 * size m / 100) /\ strip <$> mapInfo m' = strip <$> mapInfo m /\
    Forall (fun a => exists id i, mapInfo m !! id = Some i /\ ai_address i = a) vAddr.
Proof.
  intros Hi. unfold GetAddr_, ADDRMAN_GETADDR_MAX, ADDRMAN_GETADDR_MAX_PCT. assert (0 <= size m) as Hs by (unfold size; lia).
  assert (0 <= 23 * size m / 100 <= size m) as Hq by (split; [apply Z.div_pos; lia|apply Z.div_le_upper_bound; lia]).
  destruct (draw_spec (Z.to_nat (Z.min 2500 (23 * size m / 100))) 0 m Hi) as (v & m' & -> & I' & Hc & Hl & Hst & Hf); [lia|lia|].
  exists v, m'. repeat (split; [done|]). split; [lia|done].
Qed.

Lemma pick_spec nBuckets entries m : (forall b id, id ∈ entries b -> is_Some (mapInfo m !! id)) -> forall fuel k fChanceFactor,
  exists r, pick rnd nNow fuel k nBuckets entries fChanceFactor m = Some r /\
    (forall a, r = Some a -> exists b id i, id ∈ entries b /\ mapInfo m !! id = Some i /\ ai_address i = a).
Proof.
  intros He fuel. induction fuel as [|fuel IH]; intros k ch; cbn [pick]; [by exists None|]. destruct (entries (rnd k nBuckets)) as [|y v] eqn:Ev; [apply IH|].
  rewrite <- Ev. set (q := rnd (k + 1)%nat _).
  assert (0 <= q < Z.of_nat (length (entries (rnd k nBuckets)))) as Hq by (apply Hrnd; rewrite Ev; cbn; lia).
  destruct (lookup_lt_is_Some_2 (entries (rnd k nBuckets)) (Z.to_nat q)) as [id Eid]; [lia|].
  assert (rd (entries (rnd k nBuckets)) (Z.to_nat q) = id) as -> by (unfold rd; by rewrite Eid).
  apply list_elem_of_lookup_2 in Eid. destruct (He _ _ Eid) as [i Ei]. destruct (at_Some _ _ _ Ei) as [-> ->]. cbn [negb].
  case_bool; [|apply IH]. eexists. split; [reflexivity|]. intros a [= <-]. eauto 10.
Qed.

(** Enough fuel gives the same answer. *)
Lemma pick_fuel nBuckets entries m : forall fuel fuel' k ch a, (fuel <= fuel')%nat ->
  pick rnd nNow fuel k nBuckets entries ch m = Some (Some a) -> pick rnd nNow fuel' k nBuckets entries ch m = Some (Some a).
Proof.
  induction fuel as [|fuel IH]; intros [|fuel'] k ch a Hf; cbn [pick]; [done|done|lia|].
  destruct (entries (rnd k nBuckets)); [apply IH; lia|]. case_bool; [done|]. case_bool; [done|]. apply IH. lia.
Qed.

Lemma Select_spec fuel bias m : inv None m ->
  exists r, Select_ rnd nNow fuel bias m = Some r /\
    (forall a, r = Some a -> a = address_Init /\ size m = 0 \/ exists id i, mapInfo m !! id = Some i /\ ai_address i = a /\ fInTried i = use_tried rnd bias m).
Proof.
  intros Hi. unfold Select_. destruct (Z.eqb_spec (size m) 0) as [Hz|Hz]; [eexists; split; [done|]; intros a [= <-]; by left|].
  pose proof (inv_buckets _ _ Hi) as B. destruct (use_tried rnd bias m) eqn:Eu.
  - assert (forall b id, id ∈ tried_bucket m b -> exists i, mapInfo m !! id = Some i /\ fInTried i = true) as He.
    { intros b id Hid. assert (id ∈ concat (vvTried m)) as Hc.
      { unfold tried_bucket in Hid. destruct (vvTried m !! Z.to_nat b) as [l|] eqn:E; [|by apply not_elem_of_nil in Hid]. rewrite (concat_split _ _ _ E). apply elem_of_app. by left. }
      apply (bk_tried _ _ _ _ B) in Hc as [n Hn]. apply view_Some in Hn as (i & Ei & [= Hf _]). eauto. }
    destruct (pick_spec (Z.of_nat (length (vvTried m))) (tried_bucket m) m) with (fuel := fuel) (k := 1%nat) (fChanceFactor := dbl 1) as (r & -> & Hr).
    { intros b id Hid. destruct (He b id Hid) as (i & -> & _). eauto. }
    exists r. split; [done|]. intros a Ha. right. destruct (Hr a Ha) as (b & id & i & Hin & Ei & Ea). destruct (He b id Hin) as (i' & Ei' & Ht). exists id, i. split; [done|]. split; [done|congruence].
  - assert (forall b id, id ∈ in_set_order (bucket m b) -> exists i, mapInfo m !! id = Some i /\ fInTried i = false) as He.
    { intros b id Hid%elem_of_in_set_order. unfold bucket in Hid. destruct (vvNew m !! Z.to_nat b) as [l|] eqn:E; [|set_solver].
      destruct (known_entry _ _ _ _ B _ _ _ E Hid) as [n Hn]. apply view_Some in Hn as (i & Ei & [= Hf _]). eauto. }
    destruct (pick_spec (Z.of_nat (length (vvNew m))) (fun b => in_set_order (bucket m b)) m) with (fuel := fuel) (k := 1%nat) (fChanceFactor := dbl 1) as (r & -> & Hr).
    { intros b id Hid. destruct (He b id Hid) as (i & -> & _). eauto. }
    exists r. split; [done|]. intros a Ha. right. destruct (Hr a Ha) as (b & id & i & Hin & Ei & Ea). destruct (He b id Hin) as (i' & Ei' & Ht). exists id, i. split; [done|]. split; [done|congruence].
Qed.

End Proofs.

(** *** The consistency check *)

Fixpoint occ (id : Z) (l : list Z) : Z :=
  match l with [] => 0 | y :: l => (if bool_decide (y = id) then 1 else 0) + occ id l end.

Lemma occ_app id l l' : occ id (l ++ l') = occ id l + occ id l'.
Proof. induction l as [|y l IH]; cbn; lia. Qed.

Lemma occ_nonneg id l : 0 <= occ id l.
Proof. induction l as [|y l IH]; cbn; [lia|]. case_bool_decide; lia. Qed.

Lemma occ_nodup id l : NoDup l -> occ id l = if bool_decide (id ∈ l) then 1 else 0.
Proof.
  induction 1 as [|y l Hy Hl IH]; cbn; [by rewrite bool_decide_false by apply not_elem_of_nil|]. rewrite IH. destruct (decide (y = id)) as [->|Hne].
  - rewrite (bool_decide_true (id = id)), (bool_decide_false (id ∈ l)), (bool_decide_true (id ∈ id :: l)) by (done || left). done.
  - rewrite (bool_decide_false (y = id)), Z.add_0_l by done. rewrite (bool_decide_ext (id ∈ y :: l) (id ∈ l)); [done|]. rewrite elem_of_cons. naive_solver.
Qed.

Lemma occ_refs id vv : occ id (concat (map in_set_order vv)) = refs id vv.
Proof.
  induction vv as [|s vv IH]; cbn; [done|]. rewrite occ_app, IH, occ_nodup by (rewrite in_set_order_perm; apply NoDup_elements).
  by rewrite (bool_decide_ext _ (id ∈ s)) by apply elem_of_in_set_order.
Qed.

Lemma check_new_empties l : forall mN : gmap Z Z, (forall id, mN !! id = if bool_decide (occ id l = 0) then None else Some (occ id l)) -> check_new l mN = inr ∅.
Proof.
  induction l as [|y l IH]; intros mN Hm; cbn [check_new].
  { f_equal. apply map_eq. intros id. rewrite Hm. done. }
  pose proof (Hm y) as Hy. cbn in Hy. rewrite (bool_decide_true (y = y)) in Hy by done. pose proof (occ_nonneg y l). rewrite bool_decide_false in Hy by lia. rewrite Hy.
  apply IH. intros id. specialize (Hm id). cbn in Hm. destruct (decide (y = id)) as [->|Hne].
  - destruct (Z.eqb_spec (1 + occ id l - 1) 0) as [Hz|Hz]; [rewrite lookup_delete_eq, bool_decide_true by lia; done|].
    rewrite lookup_insert_eq, bool_decide_false by lia. f_equal. lia.
  - rewrite (bool_decide_false (y = id)), Z.add_0_l in Hm by done. destruct (_ =? 0); [by rewrite lookup_delete_ne|by rewrite lookup_insert_ne].
Qed.

Lemma check_tried_empties l : NoDup l -> forall sT : gset Z, (forall id, id ∈ sT <-> id ∈ l) -> check_tried l sT = inr ∅.
Proof.
  induction 1 as [|y l Hy Hl IH]; intros sT Hs; cbn [check_tried].
  { f_equal. apply set_eq. intros id. rewrite Hs. split; [by intros ?%not_elem_of_nil|set_solver]. }
  rewrite bool_decide_true by (apply Hs; left). apply IH. intros id. rewrite elem_of_difference, Hs, elem_of_cons, elem_of_singleton. naive_solver.
Qed.

Lemma check_infos_spec m l : inv None m -> NoDup l.*1 -> (forall id i, (id, i) ∈ l -> mapInfo m !! id = Some i) -> forall sT mN,
  (forall id i, (id, i) ∈ l -> mN !! id = None) ->
  exists sT' mN', check_infos l sT mN m = inr (sT', mN') /\
    (forall id, id ∈ sT' <-> id ∈ sT \/ exists i, (id, i) ∈ l /\ fInTried i = true) /\
    (forall id n, mN' !! id = Some n <-> mN !! id = Some n \/ exists i, (id, i) ∈ l /\ flag i = (false, n)).
Proof.
  intros Hi. induction l as [|[id i] l IH]; intros Hnd Hl sT mN Hd; cbn [check_infos].
  { exists sT, mN. split; [done|]. split; intros; (split; [by left|]); intros [?|(i & ?%not_elem_of_nil & _)]; done. }
  cbn in Hnd. apply NoDup_cons in Hnd as [Hni Hnd]. pose proof (Hl id i ltac:(left)) as Ei. pose proof (inv_buckets _ _ Hi) as B. pose proof (inv_index _ _ Hi) as I.
  destruct (inv_times _ _ Hi id i Ei) as (T1 & T2 & T3).
  destruct (bk_refs _ _ _ _ B id (fInTried i) (nRefCount i)) as [_ Hc]; [apply view_Some; eauto|].
  assert (mapAddr m !! ai_ip i = Some id) as Ea by (apply I, view_Some; eauto).
  destruct (proj1 (ix_random _ _ _ _ _ I id (nRandomPos i))) as [P1 P2]; [apply view_Some; eauto|]. pose proof (lookup_lt_Some _ _ _ P2) as P3.
  set (fault := if fInTried i then _ else _). assert (fault = 0) as ->.
  { unfold fault, ADDRMAN_NEW_BUCKETS_PER_ADDRESS. destruct (fInTried i).
    - rewrite Hc. destruct (Z.eqb_spec (nLastSuccess i) 0); [|done]. by destruct T3.
    - rewrite (proj2 (Z.ltb_ge _ _)), (proj2 (Z.ltb_ge _ _)), (proj2 (Z.eqb_neq _ _)) by lia. done. }
  cbn [Z.eqb negb]. rewrite Ea. change (default 0 (Some id)) with id. unfold rd. rewrite P2. change (default 0 (Some id)) with id.
  rewrite Z.eqb_refl, (proj2 (Z.ltb_ge _ _)), (proj2 (Z.leb_gt _ _)), (proj2 (Z.ltb_ge (ai_nLastTry i) 0)), (proj2 (Z.ltb_ge (nLastSuccess i) 0)) by (unfold size; lia).
  cbn [negb orb]. assert (forall j ij, (j, ij) ∈ l -> j <> id) as Hne by (intros j ij Hj ->; apply Hni; apply list_elem_of_fmap; by exists (id, ij)).
  destruct (fInTried i) eqn:Et.
  - destruct (IH Hnd (fun j ij H => Hl j ij (list_elem_of_further _ _ _ H)) ({[id]} ∪ sT) mN) as (sT' & mN' & -> & Hs & Hm); [intros j ij Hj; apply (Hd j ij); by right|].
    exists sT', mN'. split; [done|]. split; [intros j; rewrite Hs|intros j n; rewrite Hm]; setoid_rewrite elem_of_cons; [set_solver|].
    split; [naive_solver|]. intros [?|(ij & [[= -> ->]|?] & Hf)]; [by left| |naive_solver]. unfold flag in Hf. congruence.
  - destruct (IH Hnd (fun j ij H => Hl j ij (list_elem_of_further _ _ _ H)) sT (<[id := nRefCount i]> mN)) as (sT' & mN' & -> & Hs & Hm).
    { intros j ij Hj. rewrite lookup_insert_ne by (intros ->; by apply (Hne _ _ Hj)). apply (Hd j ij). by right. }
    exists sT', mN'. split; [done|]. split; [intros j; rewrite Hs|intros j n; rewrite Hm, lookup_insert_Some]; setoid_rewrite elem_of_cons.
    + split; [naive_solver|]. intros [?|(ij & [[= -> ->]|?] & Hf)]; [by left|congruence|naive_solver].
    + pose proof (Hd id i ltac:(left)) as Hdi. split.
      * intros [[[-> <-]|[_ ?]]|(ij & ? & ?)]; [right; exists i; split; [by left|unfold flag; by rewrite Et]|by left|right; eauto].
      * intros [E|(ij & [[= -> ->]|?] & Hf)]; [|unfold flag in Hf; injection Hf as _ <-; left; by left|right; eauto].
        left. right. split; [intros <-; congruence|done].
Qed.

Lemma inv_entries x m : inv x m -> (base.size (mapInfo m) = length (vRandom m))%nat.
Proof.
  intros Hi. pose proof (inv_index _ _ Hi) as I. rewrite <- size_dom, <- (size_list_to_set (C := gset Z) (vRandom m)) by (by eapply random_nodup).
  f_equal. apply set_eq. intros id. rewrite elem_of_dom, elem_of_list_to_set. split.
  - intros [i Ei]. destruct (proj1 (ix_random _ _ _ _ _ I id (nRandomPos i))) as [_ Hp]; [apply view_Some; eauto|]. by eapply list_elem_of_lookup_2.
  - intros [p Hp]%list_elem_of_lookup_1. apply (random_pos _ _ _ _ _ I), view_Some in Hp as (i & -> & _). eauto.
Qed.

Lemma Check_ok m : inv None m -> Check_ m = 0.
Proof.
  intros Hi. unfold Check_. rewrite (inv_size _ _ Hi), Z.eqb_refl. cbn [negb]. pose proof (inv_buckets _ _ Hi) as B.
  destruct (check_infos_spec m (in_order Z.leb (mapInfo m)) Hi) with (sT := ∅ : gset Z) (mN := ∅ : gmap Z Z) as (sT & mN & -> & Hs & Hm).
  { rewrite in_order_perm. apply NoDup_fst_map_to_list. }
  { intros id i. by rewrite elem_of_in_order. }
  { intros. apply lookup_empty. }
  setoid_rewrite elem_of_in_order in Hs. setoid_rewrite elem_of_in_order in Hm.
  assert (forall id, id ∈ sT <-> id ∈ concat (vvTried m)) as Hs'.
  { intros id. rewrite Hs, (bk_tried _ _ _ _ B). setoid_rewrite view_Some. unfold flag. split; [|naive_solver].
    intros [?|(i & Ei & Ht)]; [set_solver|]. exists (nRefCount i), i. split; [done|congruence]. }
  assert (forall id n, mN !! id = Some n <-> (flag <$> mapInfo m) !! id = Some (false, n)) as Hm'.
  { intros id n. rewrite Hm, view_Some. split; [intros [?|?]; [by rewrite lookup_empty in *|done]|by right]. }
  assert (base.size sT = length (concat (vvTried m))) as Ec.
  { rewrite <- (size_list_to_set (C := gset Z) (concat (vvTried m))) by apply B. f_equal. apply set_eq. intros id. by rewrite elem_of_list_to_set. }
  assert (base.size (mapInfo m) = base.size sT + base.size mN)%nat as Esz.
  { rewrite <- !size_dom, <- size_union.
    - f_equal. apply set_eq. intros id. rewrite elem_of_union, !elem_of_dom. split.
      + intros [i Ei]. destruct (fInTried i) eqn:Et; [left; apply Hs; eauto|]. right. exists (nRefCount i). apply Hm', view_Some. exists i. unfold flag. by rewrite Et.
      + intros [H|[n H]]; [apply Hs in H as [?|(i & -> & _)]; [set_solver|eauto]|]. apply Hm', view_Some in H as (i & -> & _). eauto.
    - intros id H1 [n H2]%elem_of_dom. apply Hm' in H2. apply Hs', (bk_tried _ _ _ _ B) in H1 as [k H1]. congruence. }
  pose proof (inv_entries _ _ Hi) as En. pose proof (inv_tried _ _ Hi) as Et. pose proof (inv_size _ _ Hi) as Es. unfold size in Es.
  rewrite Ec, (proj2 (Z.eqb_eq _ _)), (proj2 (Z.eqb_eq (Z.of_nat (base.size mN)) _)) by lia. cbn [negb].
  rewrite check_tried_empties by (done || apply B). rewrite check_new_empties; [done|].
  intros id. rewrite occ_refs. case_bool_decide as Hr.
  - destruct (mN !! id) as [n|] eqn:E; [|done]. apply Hm' in E. destruct (bk_refs _ _ _ _ B _ _ _ E) as [E1 E2]. rewrite bool_decide_false in E1 by done. cbn in E2. lia.
  - apply Hm'. pose proof (refs_nonneg id (vvNew m)). destruct (bk_known _ _ _ _ B id) as [[t n] E]; [lia|].
    destruct (bk_refs _ _ _ _ B _ _ _ E) as [E1 E2]. rewrite bool_decide_false, Z.add_0_r in E1 by done. destruct t; [lia|]. by rewrite E, E1.
Qed.

Lemma new_addrman_inv nKey : inv None (new_addrman nKey).
Proof.
  split; cbn [new_addrman mapInfo nIdCount mapAddr vRandom vvTried vvNew nTried nNew].
  - rewrite !fmap_empty. split; [done|by intros a id; rewrite !lookup_empty|]. intros id p. rewrite lookup_empty. split; [done|]. by intros [_ ?].
  - assert (concat (replicate (Z.to_nat ADDRMAN_TRIED_BUCKET_COUNT) ([] : list Z)) = []) as Ec by done.
    assert (forall id, refs id (replicate (Z.to_nat ADDRMAN_NEW_BUCKET_COUNT) ∅) = 0) as Er.
    { intros id. generalize (Z.to_nat ADDRMAN_NEW_BUCKET_COUNT). intros k. induction k as [|k IH]; [done|]. cbn [replicate refs]. by rewrite IH, bool_decide_false by set_solver. }
    rewrite fmap_empty. split.
    + by rewrite length_replicate.
    + by rewrite length_replicate.
    + apply Forall_replicate. cbn. lia.
    + apply Forall_replicate. rewrite size_empty. lia.
    + rewrite Ec. constructor.
    + intros id. rewrite Ec, lookup_empty. split; [by intros ?%not_elem_of_nil|]. by intros [? ?].
    + intros id t n. by rewrite lookup_empty.
    + intros id. rewrite Er. lia.
  - done.
  - done.
  - done.
Qed.

(** ** The operations together *)

(** What a node does with its address manager.  Each operation has the time and
    the random numbers it reads. *)
Inductive op :=
  | OAdd (addr : CAddress) (source : CNetAddr) (nTimePenalty : Z)
  | OGood (addr : CService) (nTime : Z)
  | OAttempt (addr : CService) (nTime : Z)
  | OConnected (addr : CService) (nTime : Z)
  | OGetAddr.

Definition op_ok (o : op) : Prop :=
  match o with OGood _ t => 0 < t < 2 ^ 32 | OAttempt _ t => 0 <= t | _ => True end.

Definition run_op {D : DigestLib} (rnd : nat -> Z -> Z) (nNow : Z) (o : op) (m : CAddrMan) : option CAddrMan :=
  match o with
  | OAdd addr source pen => snd <$> Add_ rnd nNow addr source pen m
  | OGood addr t => Good_ rnd addr t m
  | OAttempt addr t => Some (Attempt_ addr t m)
  | OConnected addr t => Some (Connected_ addr t m)
  | OGetAddr => snd <$> GetAddr_ rnd m
  end.

Fixpoint run {D : DigestLib} (ops : list ((nat -> Z -> Z) * Z * op)) (m : CAddrMan) : option CAddrMan :=
  match ops with
  | [] => Some m
  | (rnd, nNow, o) :: ops => m ← run_op rnd nNow o m; run ops m
  end.

Lemma run_op_spec {D : DigestLib} rnd nNow o m : rnd_ok rnd -> op_ok o -> inv None m -> 0 <= nIdCount m < 2 ^ 31 - 1 ->
  exists m', run_op rnd nNow o m = Some m' /\ inv None m' /\ nIdCount m <= nIdCount m' <= nIdCount m + 1.
Proof.
  intros Hr Ho Hi Hc. destruct o as [addr src pen|addr t|addr t|addr t|]; cbn [run_op].
  - destruct (Add_spec rnd nNow Hr m addr src pen Hi Hc) as (f & m' & -> & I' & Hc' & _). cbn. eauto.
  - destruct (Good_spec rnd Hr addr t m Hi Ho) as (m' & -> & I' & Hc' & _). exists m'. split; [done|]. split; [done|lia].
  - destruct (Attempt_spec addr t m Hi Ho) as [I' Hc']. eexists. split; [done|]. split; [done|lia].
  - destruct (Connected_spec addr t m Hi) as [I' Hc']. eexists. split; [done|]. split; [done|lia].
  - destruct (GetAddr_spec rnd Hr m Hi) as (v & m' & -> & I' & Hc' & _). cbn. exists m'. split; [done|]. split; [done|lia].
Qed.

Lemma run_spec {D : DigestLib} ops : forall m, Forall (fun x => rnd_ok x.1.1 /\ op_ok x.2) ops -> inv None m -> 0 <= nIdCount m ->
  nIdCount m + Z.of_nat (length ops) < 2 ^ 31 ->
  exists m', run ops m = Some m' /\ inv None m' /\ 0 <= nIdCount m' <= nIdCount m + Z.of_nat (length ops).
Proof.
  induction ops as [|[[rnd nNow] o] ops IH]; intros m Hall Hi Hn Hc; cbn [run]; [exists m; split; [done|]; split; [done|cbn; lia]|]. apply Forall_cons in Hall as [[Hr Ho] Hall]. cbn in Hr, Ho, Hc.
  destruct (run_op_spec rnd nNow o m Hr Ho Hi) as (m1 & -> & I1 & Hc1); [lia|]. cbn [mbind option_bind].
  destruct (IH m1 Hall I1) as (m' & -> & I' & Hc'); [lia|lia|]. exists m'. split; [done|]. split; [done|]. cbn [length]. lia.
Qed.

(** C19: The address manager stays consistent: from the empty table on, whatever is
    added, tried, reported good or drawn, and whatever the random numbers are,
    no assertion fails, and the code's own check finds no fault: every entry is
    found by its address and at its place in the random order, is in exactly
    one tried bucket or in as many new buckets (one to four) as it counts, and
    no bucket holds more than 64.  Selecting an address to connect to never
    fails either and gives one from the table it was asked for; adding a
    routable address makes it known, and reporting one good puts it in the
    tried table. *)
Theorem addrman_consistent {D : DigestLib} nKey ops rnd nNow : Forall (fun x => rnd_ok x.1.1 /\ op_ok x.2) ops -> Z.of_nat (length ops) < 2 ^ 31 - 1 -> rnd_ok rnd ->
  exists m, run ops (new_addrman nKey) = Some m /\ inv None m /\ Check_ m = 0 /\
    (forall addr src pen, IsRoutable (svc_ip (ad_service addr)) = true ->
       exists fNew m', Add_ rnd nNow addr src pen m = Some (fNew, m') /\ (fNew = true <-> Find (svc_ip (ad_service addr)) m = None) /\
         is_Some (Find (svc_ip (ad_service addr)) m')) /\
    (forall addr t id i, 0 < t < 2 ^ 32 -> Find (svc_ip addr) m = Some (id, i) -> same_service i addr = true ->
       exists m' i', Good_ rnd addr t m = Some m' /\ Find (svc_ip addr) m' = Some (id, i') /\ fInTried i' = true) /\
    (forall fuel bias, exists r, Select_ rnd nNow fuel bias m = Some r /\
       forall a, r = Some a -> size m <> 0 -> exists id i, mapInfo m !! id = Some i /\ ai_address i = a /\ fInTried i = use_tried rnd bias m).
Proof.
  intros Hall Hlen Hr. destruct (run_spec ops (new_addrman nKey) Hall (new_addrman_inv nKey)) as (m & -> & Hi & Hc); [done|cbn; lia|]. cbn in Hc.
  exists m. split; [done|]. split; [done|]. split; [by apply Check_ok|]. split; [|split].
  - intros addr src pen Hro. destruct (Add_spec rnd nNow Hr m addr src pen Hi) as (f & m' & -> & _ & _ & _ & Hf & Hk); [lia|]. exists f, m'.
    split; [done|]. split; [rewrite Hf; tauto|auto].
  - intros addr t id i Ht Hf Hs. destruct (Good_spec rnd Hr addr t m Hi Ht) as (m' & -> & _ & _ & _ & Hg). destruct (Hg id i Hf Hs) as (i' & ? & ? & _). eauto.
  - intros fuel bias. destruct (Select_spec rnd nNow Hr fuel bias m Hi) as (r & -> & Ha). exists r. split; [done|]. intros a Hra Hsz.
    destruct (Ha a Hra) as [[_ ?]|?]; [done|done].
Qed.

Definition demo_address (a b c d t : Z) : CAddress := mk_address (mk_service (from_ipv4 [a; b; c; d]) 8333) NODE_NETWORK t 0.

(** Two hosts are learnt, the first answers. *)
Definition demo_ops : list ((nat -> Z -> Z) * Z * op) :=
  [(fun _ _ => 0, 1600000000, OAdd (demo_address 8 9 1 2 1599990000) (from_ipv4 [5; 6; 7; 8]) 0);
   (fun _ n => n - 1, 1600000000, OAdd (demo_address 9 9 1 3 1599990000) (from_ipv4 [5; 6; 7; 8]) 3600);
   (fun _ n => n - 1, 1600000100, OAttempt (ad_service (demo_address 8 9 1 2 0)) 1600000100);
   (fun _ n => n - 1, 1600000100, OGood (ad_service (demo_address 8 9 1 2 0)) 1600000100)].

Lemma demo_ops_run : exists m, run (D := toy_digests) demo_ops (new_addrman (replicate 32 7)) = Some m /\ nTried m = 1 /\ nNew m = 1 /\ vRandom m = [0; 1].
Proof. eexists. split; [vm_compute; reflexivity|]. by vm_compute. Qed.

Lemma addrman_consistent_witness :
  exists m, run (D := toy_digests) demo_ops (new_addrman (replicate 32 7)) = Some m /\ nTried m = 1 /\ Check_ m = 0 /\
    exists fNew m', Add_ (D := toy_digests) (fun _ _ => 0) 1600000200 (demo_address 9 9 1 3 1600000000) (from_ipv4 [5; 6; 7; 8]) 0 m = Some (fNew, m').
Proof.
  destruct (addrman_consistent (D := toy_digests) (replicate 32 7) demo_ops (fun _ _ => 0) 1600000200) as (m & Hrun & _ & Hck & Hadd & _).
  - unfold demo_ops. repeat constructor; cbn; intros; try lia.
  - reflexivity.
  - intros k n Hn. lia.
  - exists m. split; [exact Hrun|]. split; [|split; [exact Hck|]].
    + destruct demo_ops_run as (m1 & H1 & Ht & _). rewrite Hrun in H1. injection H1 as ->. exact Ht.
    + destruct (Hadd (demo_address 9 9 1 3 1600000000) (from_ipv4 [5; 6; 7; 8]) 0) as (f & m' & H & _); [reflexivity|]. exists f, m'. exact H.
Defined.

(** *** The entry that SelectTried gives up *)

Definition demo_tried_entry (id : Z) : CAddrInfo := mk_addrinfo (demo_address 8 9 1 id 1) net_Init (10 - id) 0 0 true (id - 1).

(** Five tried entries, last reached at times 9, 8, 7, 6 and 5. *)
Definition demo_tried : CAddrMan :=
  mk_addrman [] 6 (list_to_map (map (fun id => (id, demo_tried_entry id)) [1; 2; 3; 4; 5])) ∅ [1; 2; 3; 4; 5] 5 [[1; 2; 3; 4; 5]] 0 [].

(** SelectTried is to give the position of the inspected entry that was least
    recently reached.  It gives the position it was drawn from, where the
    exchange has put another entry: here it inspects the entries 5, 2, 3 and 4,
    the oldest of which is 5, and the position it returns holds the entry 1,
    which was reached last of all. *)
Theorem SelectTried_misses :
  exists nPos m, SelectTried (fun k n => if (k =? 0)%nat then n - 1 else 0) 0 0 demo_tried = Some (nPos, m) /\
    take 4 (tried_bucket m 0) = [5; 2; 3; 4] /\ rd (tried_bucket m 0) (Z.to_nat nPos) = 1 /\
    map (fun id => nLastSuccess (at_ id m)) [1; 2; 3; 4; 5] = [9; 8; 7; 6; 5].
Proof. eexists _, _. split; [vm_compute; reflexivity|]. by vm_compute. Qed.

End AddrMan.
