(* ===== verification/Alert.v ===== *)
(** * Alerts (src/src/alert.h, src/src/alert.cpp)

    An alert is a serialized message with the signature of the developers' key.
    The node keeps the alerts in effect in mapAlerts, passes them on to its
    peers, and shows the most important warning.  A peer is given by the members
    RelayTo uses; the clock, read once in each operation, the sub-version of the
    client and the flags that GetWarnings asks other parts for are arguments. *)

From stdpp Require Import gmap.
From S2P Require Import Prelude Containers Uint256 Crypto Serialize Signature Util Ledger.
Import Ledger.

(** The data of an alert; the sets are lists in their order. *)
Record CUnsignedAlert := mk_unsigned {
  al_nVersion : Z;
  nRelayUntil : Z;
  nExpiration : Z;
  nID : Z;
  nCancel : Z;
  setCancel : list Z;
  nMinVer : Z;
  nMaxVer : Z;
  setSubVer : list (list Z);
  nPriority : Z;
  strComment : list Z;
  strStatusBar : list Z;
  strReserved : list Z
}.

Record CAlert := mk_alert { al_data : CUnsignedAlert; al_vchMsg : list Z; al_vchSig : list Z }.

(** What RelayTo knows of a peer, and the alerts it was sent. *)
Record alert_peer := mk_peer { peer_nVersion : Z; peer_strSubVer : list Z; setKnown : gset Z; peer_sent : list CAlert }.

(** The warning found so far. *)
Record warning := mk_warning { w_priority : Z; w_statusbar : list Z; w_rpc : list Z }.

Module Alert.

(** ** Serialization *)

(** [std::string::operator<] *)
Fixpoint string_lt (a b : list Z) : bool :=
  match a, b with
  | _, [] => false
  | [], _ :: _ => true
  | x :: a, y :: b => (x <? y) || ((x =? y) && string_lt a b)
  end.

Definition unsigned_codec : Codec CUnsignedAlert :=
  class_codec
    (pair_codec (int_codec 4) (pair_codec (int_codec 8) (pair_codec (int_codec 8) (pair_codec (int_codec 4) (pair_codec (int_codec 4)
      (pair_codec (set_codec Z.ltb (int_codec 4)) (pair_codec (int_codec 4) (pair_codec (int_codec 4) (pair_codec (set_codec string_lt string_codec)
        (pair_codec (int_codec 4) (pair_codec string_codec (pair_codec string_codec string_codec))))))))))))
    (fun '(v, (ru, (ex, (id, (ca, (sc, (mi, (ma, (ss, (pr, (co, (sb, re)))))))))))) => mk_unsigned v ru ex id ca sc mi ma ss pr co sb re)
    (fun a => (al_nVersion a, (nRelayUntil a, (nExpiration a, (nID a, (nCancel a, (setCancel a, (nMinVer a, (nMaxVer a, (setSubVer a,
       (nPriority a, (strComment a, (strStatusBar a, strReserved a))))))))))))).

(** The data are not sent on their own. *)
Definition null_unsigned : CUnsignedAlert := mk_unsigned 1 0 0 0 0 [] 0 0 [] 0 [] [] [].

Definition alert_codec : Codec CAlert :=
  class_codec (pair_codec bytes_codec bytes_codec) (fun p => mk_alert null_unsigned p.1 p.2) (fun a => (al_vchMsg a, al_vchSig a)).

Definition null_alert : CAlert := mk_alert null_unsigned [] [].
Definition IsNull (a : CAlert) : bool := nExpiration (al_data a) =? 0.

(** "0433a92a..." of alert.cpp *)
Definition strAlertMasterPubKey : list Z :=
  str "0433a92a2e6b9ddc052bee5b742e20e3efbc52f512a3b31dcaa435ab61956e34c232e7ea0d260a484efd0c3f938a00698a006fa2af8cbcc85f5e855b9cf50ea023".

Definition PROTOCOL_VERSION : Z := 60005.

Section alerts.
Context {D : DigestLib} {E : ECLib} (nNow : Z).

(** [SerializeHash]; [None]: the serialization throws. *)
Definition GetHash (a : CAlert) : option Z := le_val ∘ Hash <$> Serialize alert_codec a.

Definition IsInEffect (a : CAlert) : bool := nNow <? nExpiration (al_data a).

Definition Cancels (a b : CAlert) : bool :=
  if negb (IsInEffect a) then false
  else (nID (al_data b) <=? nCancel (al_data a)) || bool_decide (nID (al_data b) ∈ setCancel (al_data a)).

Definition AppliesTo (a : CAlert) (nVersion : Z) (strSubVerIn : list Z) : bool :=
  IsInEffect a && (nMinVer (al_data a) <=? nVersion) && (nVersion <=? nMaxVer (al_data a)) &&
  (bool_decide (setSubVer (al_data a) = []) || bool_decide (strSubVerIn ∈ setSubVer (al_data a))).

(** ** CheckSignature: the alert with the data of its message *)

Definition CheckSignature (a : CAlert) : outcome CAlert :=
  match Sig.SetPubKey (Util.ParseHex strAlertMasterPubKey) with
  | None => Failed 0
  | Some key =>
      if negb (Sig.Verify key (le_val (Hash (al_vchMsg a))) (al_vchSig a)) then Failed 0
      else
        match Unserialize unsigned_codec (al_vchMsg a) with
        | None => Thrown
        | Some (u, _) => Done (mk_alert u (al_vchMsg a) (al_vchSig a))
        end
  end.

(** ** ProcessAlert *)

(** The loop that cancels and expires alerts. *)
Definition keep_alerts (a : CAlert) (m : gmap Z CAlert) : gmap Z CAlert :=
  filter (fun x => Cancels a x.2 = false /\ IsInEffect x.2 = true) m.

Definition ProcessAlert (a : CAlert) (m : gmap Z CAlert) : outcome unit * gmap Z CAlert :=
  match CheckSignature a with
  | Thrown => (Thrown, m)
  | Failed k => (Failed k, m)
  | Done a =>
      if negb (IsInEffect a) then (Failed 0, m)
      else
        let m := keep_alerts a m in
        if existsb (fun x => Cancels x.2 a) (in_order Z.leb m) then (Failed 0, m)
        else
          match GetHash a with
          | None => (Thrown, m)
          | Some hash => (Done tt, if bool_decide (is_Some (m !! hash)) then m else <[hash := a]> m)
          end
  end.

Context (mySubVersion : list Z).

Definition AppliesToMe (a : CAlert) : bool := AppliesTo a PROTOCOL_VERSION mySubVersion.

(** ** RelayTo *)

Definition RelayTo (a : CAlert) (q : alert_peer) : option (bool * alert_peer) :=
  if negb (IsInEffect a) then Some (false, q)
  else
    hash ← GetHash a;
    if bool_decide (hash ∈ setKnown q) then Some (false, q)
    else
      let q := mk_peer (peer_nVersion q) (peer_strSubVer q) ({[ hash ]} ∪ setKnown q) (peer_sent q) in
      if AppliesTo a (peer_nVersion q) (peer_strSubVer q) || AppliesToMe a || (nNow <? nRelayUntil (al_data a))
      then Some (true, mk_peer (peer_nVersion q) (peer_strSubVer q) (setKnown q) (peer_sent q ++ [a]))
      else Some (false, q).

(** ** GetWarnings *)

Definition old_checkpoint : list Z :=
  str "WARNING: Checkpoint is too old. Wait for block chain to download, or notify developers of the issue.".
Definition bad_checkpoint : list Z :=
  str "WARNING: Invalid checkpoint found! Displayed transactions may not be correct! You may need to upgrade, or notify developers of the issue.".
Definition redownload : list Z :=
  str "WARNING: Blockchain redownload required approaching or past v0.4 upgrade deadline.".

(** The warnings of the node itself, each over those before. *)
Definition own_warnings (fTestSafeMode : bool) (strMintWarning strMiscWarning : list Z) (fTooOld fInvalid fUpgrade : bool) : warning :=
  let w := mk_warning 0 [] (if fTestSafeMode then str "test" else []) in
  let w := if negb (bool_decide (strMintWarning = [])) then mk_warning 0 strMintWarning (w_rpc w) else w in
  let w := if negb (bool_decide (strMiscWarning = [])) then mk_warning 1000 strMiscWarning (w_rpc w) else w in
  let w := if fTooOld then mk_warning 100 old_checkpoint (w_rpc w) else w in
  let w := if fInvalid then mk_warning 3000 bad_checkpoint bad_checkpoint else w in
  if fUpgrade then mk_warning 5000 redownload redownload else w.

Definition alert_warning (w : warning) (a : CAlert) : warning :=
  if AppliesToMe a && (w_priority w <? nPriority (al_data a)) then
    let p := nPriority (al_data a) in
    mk_warning p (strStatusBar (al_data a)) (if 1000 <? p then strStatusBar (al_data a) else w_rpc w)
  else w.

(** [None]: the assertion fails. *)
Definition GetWarnings (strFor : list Z) (own : warning) (m : gmap Z CAlert) : option (list Z) :=
  let w := foldl (fun w x => alert_warning w x.2) own (in_order Z.leb m) in
  if bool_decide (strFor = str "statusbar") then Some (w_statusbar w)
  else if bool_decide (strFor = str "rpc") then Some (w_rpc w)
  else None.

End alerts.

(** ** The alerts that are kept *)

Section invariant.
Context {D : DigestLib} {E : ECLib}.

(** Every alert is filed under its hash, is signed and says what its message
    says, and none cancels another. *)
Record alerts_ok (nNow : Z) (m : gmap Z CAlert) : Prop := {
  ak_hash : forall h a, m !! h = Some a -> GetHash a = Some h;
  ak_signed : forall h a, m !! h = Some a -> CheckSignature a = Done a;
  ak_cancel : forall h1 h2 a b, m !! h1 = Some a -> m !! h2 = Some b -> h1 <> h2 -> Cancels nNow a b = false
}.

Lemma Cancels_later now now' a b : now <= now' -> Cancels now a b = false -> Cancels now' a b = false.
Proof.
  intros Hle. unfold Cancels, IsInEffect. destruct (Z.ltb_spec now' (nExpiration (al_data a))); cbn [negb]; [|done].
  rewrite (proj2 (Z.ltb_lt _ _)) by lia. done.
Qed.

Lemma alerts_ok_later now now' m : now <= now' -> alerts_ok now m -> alerts_ok now' m.
Proof. intros Hle [H1 H2 H3]. split; [done|done|]. intros h1 h2 a b Ha Hb Hne. by eapply Cancels_later, H3. Qed.

Lemma CheckSignature_idem a b : CheckSignature a = Done b -> CheckSignature b = Done b /\ al_vchMsg b = al_vchMsg a /\ al_vchSig b = al_vchSig a.
Proof.
  unfold CheckSignature. destruct (Sig.SetPubKey _) as [key|]; [|done]. destruct (negb _) eqn:Hv; [done|].
  destruct (Unserialize unsigned_codec (al_vchMsg a)) as [[u r]|] eqn:Hu; [|done]. intros [= <-]. cbn [al_vchMsg al_vchSig]. by rewrite Hv, Hu.
Qed.

Lemma lookup_keep now a m h b : keep_alerts now a m !! h = Some b <-> m !! h = Some b /\ Cancels now a b = false /\ IsInEffect now b = true.
Proof. unfold keep_alerts. by rewrite map_lookup_filter_Some. Qed.

Lemma keep_ok now a m : alerts_ok now m -> alerts_ok now (keep_alerts now a m).
Proof.
  intros [H1 H2 H3]. split.
  - intros h b [Hb _]%lookup_keep. eauto.
  - intros h b [Hb _]%lookup_keep. eauto.
  - intros h1 h2 x y [Hx _]%lookup_keep [Hy _]%lookup_keep. eauto.
Qed.

(** The outcome of ProcessAlert. *)
Lemma ProcessAlert_spec now a m o m' : alerts_ok now m -> ProcessAlert now a m = (o, m') -> alerts_ok now m' /\
  (forall h b, m' !! h = Some b -> m !! h = Some b \/ CheckSignature a = Done b) /\
  (o = Done tt -> exists b h, CheckSignature a = Done b /\ IsInEffect now b = true /\ GetHash b = Some h /\ is_Some (m' !! h) /\
     (forall k c, m' !! k = Some c -> IsInEffect now c = true /\ (k <> h -> Cancels now b c = false /\ Cancels now c b = false))).
Proof.
  intros Hm. unfold ProcessAlert. destruct (CheckSignature a) as [b|k|] eqn:Hs; [|intros [= <- <-]; split_and!; [done|by left|done]..].
  destruct (IsInEffect now b) eqn:He; cbn [negb]; [|intros [= <- <-]; split_and!; [done|by left|done]].
  pose proof (keep_ok now b m Hm) as Hk. assert (forall h c, keep_alerts now b m !! h = Some c -> m !! h = Some c \/ Done b = Done c) as Hsub
    by (intros h c [Hc _]%lookup_keep; by left).
  destruct (existsb _ _) eqn:Hx; [intros [= <- <-]; split_and!; [done| |done]; intros h c Hc; destruct (Hsub h c Hc) as [?|[= ->]]; auto|].
  assert (forall h c, keep_alerts now b m !! h = Some c -> Cancels now c b = false) as Hcb.
  { intros h c Hc. destruct (Cancels now c b) eqn:Hcc; [|done]. rewrite <- Hx. symmetry. apply existsb_exists. exists (h, c).
    split; [|done]. apply list_elem_of_In. by apply elem_of_in_order. }
  destruct (GetHash b) as [hash|] eqn:Hh; [|intros [= <- <-]; split_and!; [done| |done]; intros h c Hc; destruct (Hsub h c Hc) as [?|[= ->]]; auto].
  intros [= <- <-]. assert (forall h c, (if bool_decide (is_Some (keep_alerts now b m !! hash)) then keep_alerts now b m else <[hash := b]> (keep_alerts now b m)) !! h = Some c ->
    keep_alerts now b m !! h = Some c \/ (h = hash /\ c = b)) as Hin.
  { intros h c. case_bool_decide; [by left|]. intros [[<- <-]|[_ ?]]%lookup_insert_Some; [by right|by left]. }
  split; [|split].
  - case_bool_decide as Hd; [done|]. destruct Hk as [K1 K2 K3]. split.
    + intros h c [[<- <-]|[_ Hc]]%lookup_insert_Some; [done|eauto].
    + intros h c [[<- <-]|[_ Hc]]%lookup_insert_Some; [by apply (CheckSignature_idem a)|eauto].
    + intros h1 h2 x y [[<- <-]|[_ Hxx]]%lookup_insert_Some [[<- <-]|[_ Hy]]%lookup_insert_Some Hne; [done| | |eauto].
      * by apply lookup_keep in Hy as (_ & ? & _).
      * by eapply Hcb.
  - intros h c Hc. destruct (Hin h c Hc) as [Hk'|[-> ->]]; [|by right]. destruct (Hsub h c Hk') as [?|[= ->]]; auto.
  - intros _. exists b, hash. split; [done|]. split; [done|]. split; [done|]. split; [case_bool_decide; [done|rewrite lookup_insert_eq; eauto]|].
    intros k c Hc. destruct (Hin k c Hc) as [Hk'|[-> ->]]; [|done]. pose proof (Hcb k c Hk'). apply lookup_keep in Hk' as (_ & ? & ?). done.
Qed.

(** The alerts stay consistent over every sequence of messages, at times that do
    not fall: filed under their hashes, signed with the developers' key, and
    none cancelled by another.  An alert that is accepted is in the map, which
    holds no alert that it cancels or that has expired. *)
Theorem alerts_consistent now l m : (forall k x y, l !! k = Some x -> l !! S k = Some y -> x.1 <= y.1) -> (forall x, head l = Some x -> now <= x.1) ->
  alerts_ok now m ->
  let m' := foldl (fun m (x : Z * CAlert) => (ProcessAlert x.1 x.2 m).2) m l in
  alerts_ok (from_option fst now (last l)) m' /\
  (forall h b, m' !! h = Some b -> m !! h = Some b \/ exists x, x ∈ l /\ CheckSignature x.2 = Done b).
Proof.
  revert now m. induction l as [|x l IH]; intros now m Hinc Hhd Hm; cbn [foldl]; [by split; [|left]|].
  destruct (ProcessAlert x.1 x.2 m) as [o m1] eqn:Hp. cbn [snd].
  destruct (ProcessAlert_spec x.1 x.2 m o m1 (alerts_ok_later now x.1 m (Hhd x eq_refl) Hm) Hp) as (Hm1 & Hin & _).
  destruct (IH x.1 m1) as [H1 H2].
  { intros k y z Hy Hz. by apply (Hinc (S k)). }
  { intros y Hy. destruct l as [|z l]; [done|]. injection Hy as ->. by apply (Hinc 0%nat). }
  { done. }
  split.
  - rewrite last_cons. destruct (last l); exact H1.
  - intros h b Hb. destruct (H2 h b Hb) as [Hb1|(y & Hy & Hs)]; [|right; exists y; split; [by right|done]].
    destruct (Hin h b Hb1) as [?|Hs]; [by left|]. right. exists x. split; [by left|done].
Qed.

End invariant.

(** ** The warning that is shown *)

Section warnings.
Context (nNow : Z) (mySubVersion : list Z).

(** The highest priority among the warnings of the node and the alerts that
    apply is shown: the text of the first alert with this priority, or the
    node's own warning when no alert is above it. *)
Theorem highest_warning own m :
  let l := snd <$> in_order Z.leb m in
  let w := foldl (fun w x => alert_warning nNow mySubVersion w x.2) own (in_order Z.leb m) in
  w_priority own <= w_priority w /\
  (forall a, a ∈ l -> AppliesToMe nNow mySubVersion a = true -> nPriority (al_data a) <= w_priority w) /\
  (w = own \/ exists l1 a l2, l = l1 ++ a :: l2 /\ AppliesToMe nNow mySubVersion a = true /\ w_priority w = nPriority (al_data a) /\
     w_statusbar w = strStatusBar (al_data a) /\ (1000 < w_priority w -> w_rpc w = w_statusbar w) /\
     forall b, b ∈ l1 -> AppliesToMe nNow mySubVersion b = true -> nPriority (al_data b) < w_priority w).
Proof.
  cbv zeta. generalize (in_order Z.leb m). intros l. induction l as [|x l IH] using rev_ind.
  { split; [done|]. split; [by intros a Ha%elem_of_nil|]. by left. }
  rewrite foldl_app, fmap_app. cbn [foldl fmap list_fmap]. set (w := foldl _ own l) in *. destruct IH as (H1 & H2 & H3).
  unfold alert_warning. destruct (AppliesToMe nNow mySubVersion x.2) eqn:Ha; cbn [andb].
  2:{ split; [done|]. split; [intros a [Hin| ->%list_elem_of_singleton]%elem_of_app; [by apply H2|congruence]|].
      destruct H3 as [?|(l1 & a & l2 & Hl & H3)]; [by left|right]. exists l1, a, (l2 ++ [x.2]). rewrite Hl, <- app_assoc. done. }
  destruct (Z.ltb_spec (w_priority w) (nPriority (al_data x.2))) as [Hlt|Hge].
  - cbn [w_priority w_statusbar w_rpc]. split; [lia|]. split.
    { intros a [Hin| ->%list_elem_of_singleton]%elem_of_app Hap; [specialize (H2 a Hin Hap)|]; lia. }
    right. exists (snd <$> l), x.2, []. split; [done|]. split; [done|]. split; [done|]. split; [done|]. split.
    { intros Hp. by rewrite (proj2 (Z.ltb_lt _ _)). }
    intros b Hb Hap. specialize (H2 b Hb Hap). lia.
  - split; [done|]. split; [intros a [Hin| ->%list_elem_of_singleton]%elem_of_app Hap; [by apply H2|done]|].
    destruct H3 as [?|(l1 & a & l2 & Hl & H3)]; [by left|right]. exists l1, a, (l2 ++ [x.2]). rewrite Hl, <- app_assoc. done.
Qed.

End warnings.

(** The warning of an old checkpoint takes the place of a warning of a higher
    priority: a full disk or a wrong clock is not shown, and an alert of a
    priority between the two is. *)
Theorem own_warning_lowered strMintWarning strMiscWarning : strMiscWarning <> [] ->
  own_warnings false strMintWarning strMiscWarning false false false = mk_warning 1000 strMiscWarning [] /\
  own_warnings false strMintWarning strMiscWarning true false false = mk_warning 100 old_checkpoint [].
Proof.
  intros H. unfold own_warnings. rewrite (bool_decide_false _ H). by destruct (negb (bool_decide (strMintWarning = []))).
Qed.

(** Of three alerts one is cancelled and one has expired. *)
Definition demo_alert (id cancel expires : Z) : CAlert := mk_alert (mk_unsigned 1 0 expires id cancel [] 0 99999 [] 10 [] [id] []) [id] [].

Lemma demo_cancels : keep_alerts 100 (demo_alert 2 1 200) {[ 7 := demo_alert 1 0 200; 8 := demo_alert 3 0 50; 9 := demo_alert 4 0 200 ]} = {[ 9 := demo_alert 4 0 200 ]}.
Proof. vm_compute. reflexivity. Qed.
End Alert.
