(* ===== verification/Chain.v ===== *)
(** * The best chain (src/src/main.cpp)

    The globals of the chain (mapBlockIndex with its links, pindexBest,
    hashBestChain, nBestHeight, bnBestChainTrust), and the operations that move
    the best block: [Reorganize], [SetBestChainInner], [SetBestChain] and
    [AddToBlockIndex].  A database transaction is a working copy of the
    database that is kept on commit and dropped on abort; reads and writes of
    the database and of the block files are taken to succeed when the record
    is there.  The wallets, the notifications and the log are left out. *)

From Stdlib Require Import SpecFloat.
From stdpp Require Import gmap.
From S2P Require Import Prelude Uint256 Bignum Crypto Script Interpreter Serialize Tx TxInfo Coins Base58 Signature Solver Work Block BlockIndex Kernel Ledger ConnectBlock Mempool.
Import BlockIndex Ledger Connect.

(** The globals. *)
Record chain := mk_chain {
  ch_index : index;
  hashBestChain : Z;
  nBestHeight : Z;
  bnBestChainTrust : Z;
  bnBestInvalidTrust : Z;
  ch_db : CTxDB;
  ch_infos : CTxInfoStore;
  ch_pool : CTxMemPool;
  ch_limiter : limiter;
  setStakeSeen : gset (COutPoint * Z);
  mapProofOfStake : gmap Z Z
}.

(** What changes while the blocks of a branch are connected: the entries in
    memory, the database transaction and the information entries. *)
Record work := mk_work { wk_index : index; wk_db : CTxDB; wk_infos : CTxInfoStore }.

Module Chain.

(** ** The links of the index *)

Definition set_node (h : Z) (n : node) (I : index) : index :=
  mk_blockindex (<[h := n]> (mapBlockIndex I)) (pindexBest I) (pindexGenesisBlock I) (hashGenesisBlock I).
Definition set_pnext (next : option Z) (n : node) : node := mk_node (entry n) (pprev n) next (nFile n) (nBlockPos n).

(** [if (pindex->pprev) pindex->pprev->pnext = next] *)
Definition link_prev (next : option Z) (I : index) (h : Z) : index :=
  match deref I (Some h) ≫= pprev with
  | None => I
  | Some q => mk_blockindex (alter (set_pnext next) q (mapBlockIndex I)) (pindexBest I) (pindexGenesisBlock I) (hashGenesisBlock I)
  end.

(** [while (plonger->nHeight > pfork->nHeight) plonger = plonger->pprev]; the
    height falls in every round, so that one round per entry is enough. *)
Fixpoint climb_down (I : index) (fuel : nat) (nHeight : Z) (h : Z) : option Z :=
  n ← deref I (Some h);
  if nHeight <? bi_nHeight (entry n) then
    match fuel with
    | O => None
    | S fuel => q ← pprev n; climb_down I fuel nHeight q
    end
  else Some h.

(** The loop that finds the fork; [None] is one of the two error returns. *)
Fixpoint find_fork (I : index) (fuel : nat) (pfork plonger : Z) : option Z :=
  if pfork =? plonger then Some pfork
  else
    match fuel with
    | O => None
    | S fuel =>
        n ← deref I (Some pfork);
        plonger ← climb_down I (size (mapBlockIndex I)) (bi_nHeight (entry n)) plonger;
        if pfork =? plonger then Some pfork else q ← pprev n; find_fork I fuel q plonger
    end.

(** [for (pindex = h; pindex != pfork; pindex = pindex->pprev)] *)
Fixpoint back_to (I : index) (fuel : nat) (pfork h : Z) : option (list Z) :=
  if h =? pfork then Some []
  else
    match fuel with
    | O => None
    | S fuel => n ← deref I (Some h); q ← pprev n; l ← back_to I fuel pfork q; Some (h :: l)
    end.

Section chain.
Context {B : Tx.Abi} {L : BNLib} {D : DigestLib} {E : ECLib} (fTestNet : bool) (p : NetParams).
Context (d : disk) (now : Z) (GetPoWHash : CBlock -> option (list Z)) (nBlocksEstimate hashSyncCheckpoint : Z).
Context (nLimitFreeRelay : Z) (IsFromMe : CTransaction -> bool) (pow : spec_float -> spec_float -> spec_float).

(** [CBlock::ReadFromDisk(pindex)] *)
Definition index_ReadFromDisk (n : node) : option CBlock :=
  b ← block_ReadFromDisk p d (nFile n) (nBlockPos n) true;
  if Block.GetIDHash b =? GetBlockIDHash n then Some b else None.

(** ** Reorganize *)

(** What a loose transaction is not. *)
Definition loose (t : CTransaction) : bool := negb (Tx.IsCoinBase t || Tx.IsCoinStake t).

(** The branch that is left, from the best block down, with the transactions
    to resurrect. *)
Fixpoint disconnect_blocks (l : list Z) (w : work) : outcome (work * list CTransaction) :=
  match l with
  | [] => Done (w, [])
  | h :: l =>
      match deref (wk_index w) (Some h) with
      | None => Thrown
      | Some n =>
          match index_ReadFromDisk n with
          | None => Failed 0
          | Some b =>
              match DisconnectBlock fTestNet d (wk_index w) (wk_db w) (wk_infos w) b n with
              | Thrown => Thrown
              | Failed dos => Failed dos
              | Done (db, infos) =>
                  match disconnect_blocks l (mk_work (wk_index w) db infos) with
                  | Done (w, txs) => Done (w, List.filter loose (vtx b) ++ txs)
                  | r => r
                  end
              end
          end
      end
  end.

(** The branch that is entered, from the fork up, with the transactions to
    delete; a failure leaves the entries of the blocks before it changed. *)
Fixpoint connect_blocks (fBelow : bool) (mempool : gmap Z CTransaction) (l : list Z) (w : work) : outcome (list CTransaction) * work :=
  match l with
  | [] => (Done [], w)
  | h :: l =>
      match deref (wk_index w) (Some h) with
      | None => (Thrown, w)
      | Some n =>
          match index_ReadFromDisk n with
          | None => (Failed 0, w)
          | Some b =>
              match ConnectBlock fTestNet p d (wk_index w) fBelow mempool now GetPoWHash (wk_db w) (wk_infos w) b n with
              | Thrown => (Thrown, w)
              | Failed dos => (Failed dos, w)
              | Done (db, n', infos) =>
                  match connect_blocks fBelow mempool l (mk_work (set_node h n' (wk_index w)) db infos) with
                  | (Done txs, w) => (Done (vtx b ++ txs), w)
                  | r => r
                  end
              end
          end
      end
  end.

(** [nBestHeight < Checkpoints::GetTotalBlocksEstimate()] *)
Definition below (c : chain) : bool := nBestHeight c <? nBlocksEstimate.

(** [AcceptToMemoryPool(txdb, false)] of the resurrected transactions; what
    is not accepted is dropped. *)
Fixpoint resurrect (c : chain) (l : list CTransaction) (m : CTxMemPool) : option CTxMemPool :=
  match l with
  | [] => Some m
  | t :: l =>
      '(_, m, _, _) ← Mempool.accept fTestNet p now nLimitFreeRelay IsFromMe pow (ch_db c) d (ch_index c) false t m (ch_limiter c) (ch_infos c);
      resurrect c l m
  end.

Fixpoint remove_all (l : list CTransaction) (m : CTxMemPool) : option CTxMemPool :=
  match l with
  | [] => Some m
  | t :: l => m ← Mempool.remove t m; remove_all l m
  end.

Definition with_index (I : index) (c : chain) : chain :=
  mk_chain I (hashBestChain c) (nBestHeight c) (bnBestChainTrust c) (bnBestInvalidTrust c) (ch_db c) (ch_infos c) (ch_pool c) (ch_limiter c)
    (setStakeSeen c) (mapProofOfStake c).
Definition with_infostore (infos : CTxInfoStore) (c : chain) : chain :=
  mk_chain (ch_index c) (hashBestChain c) (nBestHeight c) (bnBestChainTrust c) (bnBestInvalidTrust c) (ch_db c) infos (ch_pool c) (ch_limiter c)
    (setStakeSeen c) (mapProofOfStake c).
Definition with_db (db : CTxDB) (c : chain) : chain :=
  mk_chain (ch_index c) (hashBestChain c) (nBestHeight c) (bnBestChainTrust c) (bnBestInvalidTrust c) db (ch_infos c) (ch_pool c) (ch_limiter c)
    (setStakeSeen c) (mapProofOfStake c).
Definition with_pool (m : CTxMemPool) (c : chain) : chain :=
  mk_chain (ch_index c) (hashBestChain c) (nBestHeight c) (bnBestChainTrust c) (bnBestInvalidTrust c) (ch_db c) (ch_infos c) m (ch_limiter c)
    (setStakeSeen c) (mapProofOfStake c).

(** The two lists of [Reorganize]; [None] is an error return. *)
Definition branches (c : chain) (hNew : Z) : option (list Z * list Z) :=
  let I := ch_index c in
  let fuel := S (size (mapBlockIndex I)) in
  best ← pindexBest I;
  fork ← find_fork I fuel best hNew;
  vDisconnect ← back_to I fuel fork best;
  vConnect ← back_to I fuel fork hNew;
  if bool_decide (hashSyncCheckpoint ∈ vDisconnect) then None else Some (vDisconnect, reverse vConnect).

Definition Reorganize (c : chain) (hNew : Z) : outcome unit * chain :=
  match branches c hNew with
  | None => (Failed 0, c)
  | Some (vDisconnect, vConnect) =>
      match disconnect_blocks vDisconnect (mk_work (ch_index c) (ch_db c) (ch_infos c)) with
      | Thrown => (Thrown, c)
      | Failed dos => (Failed dos, c)
      | Done (w, vResurrect) =>
          match connect_blocks (below c) (mapTx (ch_pool c)) vConnect w with
          | (Thrown, w) => (Thrown, with_index (wk_index w) c)
          | (Failed dos, w) => (Failed dos, with_index (wk_index w) c)
          | (Done vDelete, w) =>
              let I := foldl (link_prev None) (wk_index w) vDisconnect in
              let I := foldl (fun I h => link_prev (Some h) I h) I vConnect in
              let c := with_index I (with_db (WriteHashBestChain (wk_db w) hNew) (with_infostore (wk_infos w) c)) in
              match resurrect c vResurrect (ch_pool c) ≫= remove_all vDelete with
              | None => (Thrown, c)
              | Some m => (Done tt, with_pool m c)
              end
          end
      end
  end.

(** ** SetBestChain *)

Definition InvalidChainFound (n : node) (c : chain) : chain :=
  if BigNum.op_gtb (bi_bnChainTrust (entry n)) (bnBestInvalidTrust c) then
    mk_chain (ch_index c) (hashBestChain c) (nBestHeight c) (bnBestChainTrust c) (bi_bnChainTrust (entry n)) (ch_db c) (ch_infos c) (ch_pool c)
      (ch_limiter c) (setStakeSeen c) (mapProofOfStake c)
  else c.

(** The information entries a failed [ConnectBlock] leaves in the store: those
    of the transactions before the failure. *)
Fixpoint infos_left (I : index) (fBelow : bool) (mempool : gmap Z CTransaction) (db : CTxDB) (hash : Z) (n : node) (l : list CTransaction) (s : progress)
    : CTxInfoStore :=
  match l with
  | [] => infostore s
  | t :: l =>
      match connect_tx_inputs p d I fBelow mempool db n t s with
      | Done s' =>
          if Tx.IsCoinBase t then infos_left I fBelow mempool db hash n l s'
          else
            match ProcessTxInfos fTestNet db d hash (nTx s) t (infostore s) with
            | None => infostore s
            | Some (false, infos) => infos
            | Some (true, infos) => infos_left I fBelow mempool db hash n l (with_infos s' infos)
            end
      | _ => infostore s
      end
  end.

Definition block_infos_left (I : index) (fBelow : bool) (mempool : gmap Z CTransaction) (db : CTxDB) (infos : CTxInfoStore) (b : CBlock) (n : node)
    : CTxInfoStore :=
  match Block.CheckBlock fTestNet (hashGenesisBlock I) now GetPoWHash false b with
  | Tx.CheckOk =>
      if Block.IsProofOfStake b && (bi_nHeight (entry n) <? nPoSMinHeight p) then infos
      else if existsb (overwrites db) (vtx b) then infos
      else
        match first_tx_pos n b with
        | None => infos
        | Some pos => infos_left I fBelow mempool db (Block.GetIDHash b) n (vtx b) (mk_progress 0 pos ∅ 0 0 0 0 infos)
        end
  | _ => infos
  end.

(** [SetBestChainInner] of block [b] with entry [h]. *)
Definition SetBestChainInner (b : CBlock) (h : Z) (c : chain) : outcome unit * chain :=
  let I := ch_index c in
  let mempool := mapTx (ch_pool c) in
  match deref I (Some h) with
  | None => (Thrown, c)
  | Some n =>
      match ConnectBlock fTestNet p d I (below c) mempool now GetPoWHash (ch_db c) (ch_infos c) b n with
      | Thrown => (Thrown, c)
      | Failed dos => (Failed dos, InvalidChainFound n (with_infostore (block_infos_left I (below c) mempool (ch_db c) (ch_infos c) b n) c))
      | Done (db, n', infos) =>
          let c := with_db (WriteHashBestChain db (Block.GetIDHash b)) (with_infostore infos (with_index (set_node h n' I) c)) in
          match pprev n, remove_all (vtx b) (ch_pool c) with
          | Some _, Some m => (Done tt, with_pool m (with_index (link_prev (Some h) (ch_index c) h) c))
          | _, _ => (Thrown, c)
          end
      end
  end.

(** The first block of the new chain with more trust than the best chain, and
    those after it, which are postponed (newest first). *)
Fixpoint intermediate (I : index) (fuel : nat) (bnBest : Z) (h : Z) : option (Z * list Z) :=
  n ← deref I (Some h);
  match deref I (pprev n), pprev n with
  | Some prev, Some q =>
      if BigNum.op_gtb (bi_bnChainTrust (entry prev)) bnBest then
        match fuel with
        | O => None
        | S fuel => '(i, l) ← intermediate I fuel bnBest q; Some (i, h :: l)
        end
      else Some (h, [])
  | _, _ => Some (h, [])
  end.

(** The postponed blocks, oldest first, until one fails; an error is not
    fatal, an exception is. *)
Fixpoint connect_postponed (l : list Z) (c : chain) : bool * chain :=
  match l with
  | [] => (true, c)
  | h :: l =>
      match deref (ch_index c) (Some h) ≫= index_ReadFromDisk with
      | None => (true, c)
      | Some b =>
          match SetBestChainInner b h c with
          | (Done _, c) => connect_postponed l c
          | (Failed _, c) => (true, c)
          | (Thrown, c) => (false, c)
          end
      end
  end.

(** The view of the information entries is left without a commit. *)
Definition rollback (c : chain) : chain := with_infostore (default (ch_infos c) (TxInfo.Rollback (ch_infos c))) c.

(** New best block. *)
Definition new_best (hash h : Z) (n : node) (infos : CTxInfoStore) (c : chain) : chain :=
  let I := ch_index c in
  let m := ch_pool c in
  mk_chain (mk_blockindex (mapBlockIndex I) (Some h) (pindexGenesisBlock I) (hashGenesisBlock I)) hash (bi_nHeight (entry n)) (bi_bnChainTrust (entry n))
    (bnBestInvalidTrust c) (ch_db c) infos (mk_mempool (mapTx m) (mapNextTx m) (u32 (nTransactionsUpdated m + 1))) (ch_limiter c)
    (setStakeSeen c) (mapProofOfStake c).

Definition commit_best (hash h : Z) (c : chain) : outcome unit * chain :=
  match TxInfo.Commit (ch_infos c), deref (ch_index c) (Some h) with
  | Some infos, Some n => (Done tt, new_best hash h n infos c)
  | _, _ => (Thrown, rollback c)
  end.

Definition SetBestChain (b : CBlock) (h : Z) (c : chain) : outcome unit * chain :=
  let hash := Block.GetIDHash b in
  match TxInfo.BeginTransaction (ch_infos c), deref (ch_index c) (Some h) with
  | Some infos, Some n =>
      let c := with_infostore infos c in
      let I := ch_index c in
      if bool_decide (pindexGenesisBlock I = None) && (hash =? hashGenesisBlock I) then
        commit_best hash h (with_index (mk_blockindex (mapBlockIndex I) (pindexBest I) (Some h) (hashGenesisBlock I))
          (with_db (WriteHashBestChain (ch_db c) hash) c))
      else if hashPrevBlock b =? hashBestChain c then
        match SetBestChainInner b h c with
        | (Done _, c) => commit_best hash h c
        | (r, c) => (r, rollback c)
        end
      else
        match deref I (pindexBest I) ≫= fun best => intermediate I (size (mapBlockIndex I)) (bi_bnChainTrust (entry best)) h with
        | None => (Thrown, rollback c)
        | Some (hIntermediate, postponed) =>
            match Reorganize c hIntermediate with
            | (Thrown, c) => (Thrown, rollback c)
            | (Failed dos, c) => (Failed dos, rollback (InvalidChainFound n c))
            | (Done _, c) =>
                match connect_postponed (reverse postponed) c with
                | (false, c) => (Thrown, rollback c)
                | (true, c) => commit_best hash h c
                end
            end
        end
  | _, _ => (Thrown, c)
  end.

(** ** AddToBlockIndex *)

(** The entry of a block, before it is put into the index; [None] is an error
    or the exception of a failed division. *)
Definition new_entry (b : CBlock) (nFile nBlockPos : Z) (c : chain) : option node :=
  let I := ch_index c in
  let hash := Block.GetIDHash b in
  let prev := mapBlockIndex I !! hashPrevBlock b in
  let n := node_of_block nFile nBlockPos b in
  let e := entry n in
  let height := from_option (fun q => bi_nHeight (entry q) + 1) 0 prev in
  let powheight := from_option (fun q => bi_nPoWHeight (entry q) + (if Block.IsProofOfWork b then 1 else 0)) 0 prev in
  own ← Work.GetBlockTrust e;
  let trust := BigNum.op_plus (from_option (fun q => bi_bnChainTrust (entry q)) (BigNum.CBigNum_int 0) prev) own in
  proof ← (if Work.bi_IsProofOfStake e then mapProofOfStake c !! hash else Some 0);
  e ← Work.SetStakeEntropyBit (mk_index hash trust height powheight 0 0 0 0 (bi_nFlags e) 0 0 (bi_prevoutStake e) (bi_nStakeTime e) proof
         (bi_nVersion e) (bi_hashMerkleRoot e) (bi_nTime e) (bi_nBits e) (bi_nNonce e)) (Block.GetStakeEntropyBit fTestNet b);
  let link e := mk_node e (if bool_decide (is_Some prev) then Some (hashPrevBlock b) else None) None nFile nBlockPos in
  '(modifier, generated) ← Kernel.ComputeNextStakeModifier fTestNet p I (link e);
  let e := Work.SetStakeModifier e modifier generated in
  let checksum := Kernel.GetStakeModifierChecksum I (link e) in
  if Kernel.CheckStakeModifierCheckpoints fTestNet height checksum then
    Some (link (mk_index (bi_hash e) (bi_bnChainTrust e) (bi_nHeight e) (bi_nPoWHeight e) 0 0 0 0 (bi_nFlags e) (bi_nStakeModifier e) checksum
      (bi_prevoutStake e) (bi_nStakeTime e) (bi_hashProofOfStake e) (bi_nVersion e) (bi_hashMerkleRoot e) (bi_nTime e) (bi_nBits e) (bi_nNonce e)))
  else None.

Definition AddToBlockIndex (b : CBlock) (nFile nBlockPos : Z) (c : chain) : outcome unit * chain :=
  let hash := Block.GetIDHash b in
  if bool_decide (is_Some (mapBlockIndex (ch_index c) !! hash)) then (Failed 0, c)
  else
    match new_entry b nFile nBlockPos c with
    | None => (Failed 0, c)
    | Some n =>
        let I := set_node hash n (ch_index c) in
        let seen := if Work.bi_IsProofOfStake (entry n) then {[ (bi_prevoutStake (entry n), bi_nStakeTime (entry n)) ]} ∪ setStakeSeen c else setStakeSeen c in
        let c := mk_chain I (hashBestChain c) (nBestHeight c) (bnBestChainTrust c) (bnBestInvalidTrust c) (WriteBlockIndex (ch_db c) (disk_of I n))
          (ch_infos c) (ch_pool c) (ch_limiter c) seen (mapProofOfStake c) in
        if BigNum.op_gtb (bi_bnChainTrust (entry n)) (bnBestChainTrust c) then SetBestChain b hash c else (Done tt, c)
    end.

End chain.

End Chain.
