(* ===== verification/Reorg.v ===== *)
(** * The ledger of the best chain

    The database of unspent outputs against the chain it is meant for: the
    ledger of a branch is the result of replaying the transactions of its
    blocks, from the block after the genesis block on, over the empty ledger.
    The theorems say that [SetBestChain] keeps the database equal to the
    ledger of the chain it records as best, across extensions and
    reorganizations, and that a failure changes nothing. *)

From Stdlib Require Import SpecFloat.
From stdpp Require Import gmap.
From S2P Require Import Prelude Uint256 Bignum Crypto Script Interpreter Serialize Tx TxInfo Coins Base58 Signature Solver Work Block BlockIndex Kernel Ledger ConnectBlock Mempool Chain.
Import BlockIndex Ledger Connect Chain.

Module Reorg.

(** ** Indexes with the same blocks *)

(** What the blocks of a branch are found by; the money counters, the stake
    modifier and [pnext] are left out. *)
Definition skeleton (n : node) : option Z * Z * Z * Z * Z := (pprev n, nFile n, nBlockPos n, bi_hash (entry n), bi_nHeight (entry n)).

Definition same_blocks (I J : index) : Prop :=
  hashGenesisBlock I = hashGenesisBlock J /\ pindexGenesisBlock I = pindexGenesisBlock J /\
  forall h, skeleton <$> mapBlockIndex I !! h = skeleton <$> mapBlockIndex J !! h.

#[global] Instance same_blocks_equivalence : Equivalence same_blocks.
Proof.
  split.
  - intros I. done.
  - intros I J (H1 & H2 & H3). split; [done|]. split; [done|]. intros h. by rewrite H3.
  - intros I J K (H1 & H2 & H3) (H4 & H5 & H6). split; [by rewrite H1|]. split; [by rewrite H2|]. intros h. by rewrite H3.
Qed.

Lemma same_blocks_lookup I J h n : same_blocks I J -> mapBlockIndex I !! h = Some n -> exists m, mapBlockIndex J !! h = Some m /\ skeleton n = skeleton m.
Proof.
  intros (_ & _ & H) Hn. specialize (H h). rewrite Hn in H. cbn in H. destruct (mapBlockIndex J !! h) as [m|]; [|done]. injection H as H1 H2 H3 H4 H5. exists m.
  split; [done|]. unfold skeleton. by rewrite H1, H2, H3, H4, H5.
Qed.

Lemma same_blocks_set_node I h n n' : mapBlockIndex I !! h = Some n -> skeleton n' = skeleton n -> same_blocks (set_node h n' I) I.
Proof.
  intros Hn Hs. split; [done|]. split; [done|]. intros x. cbn. destruct (decide (x = h)) as [->|Hx]; [by rewrite lookup_insert_eq, Hn; cbn; rewrite Hs|by rewrite lookup_insert_ne].
Qed.

Lemma same_blocks_link_prev next I h : same_blocks (link_prev next I h) I.
Proof.
  unfold link_prev. destruct (deref I (Some h) ≫= pprev) as [q|]; [|done]. split; [done|]. split; [done|]. intros x. cbn.
  destruct (decide (x = q)) as [->|Hx]; [|by rewrite lookup_alter_ne]. rewrite lookup_alter_eq. by destruct (mapBlockIndex I !! q).
Qed.

Lemma same_blocks_links (f : index -> Z -> index) l : (forall I h, same_blocks (f I h) I) -> forall I, same_blocks (foldl f I l) I.
Proof. intros Hf. induction l as [|h l IH]; intros I; [done|]. cbn. rewrite IH. apply Hf. Qed.

#[global] Instance path_proper : Proper (same_blocks ==> eq ==> eq ==> iff) path.
Proof.
  assert (forall l I J q, same_blocks I J -> path I q l -> path J q l) as H.
  { induction l as [|h l IH]; intros I J q Hs; cbn; [done|]. intros (-> & n & Hn & Hl). split; [done|].
    destruct (same_blocks_lookup I J h n Hs Hn) as (m & Hm & Es). exists m. split; [done|]. injection Es as E1 _ _ _ _. rewrite <- E1. by apply (IH I J). }
  intros I J Hs q ? <- l ? <-. split; apply H; [done|by symmetry].
Qed.

(** A branch below its upper part. *)
Lemma path_app_inv I l1 : forall q l2, path I q (l1 ++ l2) -> l2 <> [] -> exists f, path I (Some f) l2 /\ head l2 = Some f.
Proof.
  induction l1 as [|h l1 IH]; intros q l2 Hp Hne; cbn in Hp.
  - destruct l2 as [|f l2]; [done|]. exists f. destruct Hp as (-> & Hp). done.
  - destruct Hp as (_ & n & _ & Hp). by apply (IH _ l2 Hp).
Qed.

Lemma back_to_path I fuel fork : forall h l r, back_to I fuel fork h = Some l -> path I (Some fork) r -> path I (Some h) (l ++ r).
Proof.
  induction fuel as [|fuel IH]; intros h l r E0 Hp; cbn in E0; (destruct (Z.eqb_spec h fork) as [->|Hne]; [by injection E0 as <-|]); [done|].
  destruct (mapBlockIndex I !! h) as [n|] eqn:En; [|done]. cbn in E0. destruct (pprev n) as [q|] eqn:Eq; [|done]. cbn in E0.
  destruct (back_to I fuel fork q) as [l'|] eqn:El; [|done]. injection E0 as <-. cbn. split; [done|]. exists n. split; [done|]. rewrite Eq. by apply IH.
Qed.

(** The fork lies on the path of the block it is reached from. *)
Lemma back_to_split I fuel fork : forall h l r, back_to I fuel fork h = Some l -> path I (Some h) r ->
  exists r', r = l ++ r' /\ path I (Some fork) r'.
Proof.
  induction fuel as [|fuel IH]; intros h l r E0 Hp; cbn in E0; (destruct (Z.eqb_spec h fork) as [->|Hne]; [injection E0 as <-; by exists r|]); [done|].
  destruct (mapBlockIndex I !! h) as [n|] eqn:En; [|done]. cbn in E0. destruct (pprev n) as [q|] eqn:Eq; [|done]. cbn in E0.
  destruct (back_to I fuel fork q) as [l'|] eqn:El; [|done]. injection E0 as <-. destruct r as [|x r]; [done|]. destruct Hp as ([= <-] & m & Hm & Hp).
  rewrite En in Hm. injection Hm as <-. rewrite Eq in Hp. destruct (IH q l' r El Hp) as (r' & -> & Hr'). by exists r'.
Qed.

(** ** The fork *)

Section fork.
Context (I : index) (Hlinks : links_ok I).

Definition height_of (h : Z) : Z := from_option (fun n => bi_nHeight (entry n)) 0 (mapBlockIndex I !! h).

(** Heights fall by one along a path, down to the genesis block. *)
Lemma path_heights l : forall h, path I (Some h) l -> Z.of_nat (length l) = height_of h + 1 /\
  forall i x, l !! i = Some x -> height_of x = height_of h - Z.of_nat i.
Proof.
  induction l as [|h' l IH]; intros h Hp; [done|]. destruct Hp as ([= <-] & n & Hn & Hp). destruct (Hlinks h n Hn) as (_ & _ & Hprev).
  assert (height_of h = bi_nHeight (entry n)) as Eh by (unfold height_of; by rewrite Hn). destruct (pprev n) as [q|].
  - destruct Hprev as (nq & Hq & Eq). assert (height_of q = bi_nHeight (entry nq)) as Ehq by (unfold height_of; by rewrite Hq).
    destruct (IH q Hp) as [H1 H2]. split; [cbn; lia|]. intros [|i] x Hx; cbn in Hx; [injection Hx as <-; lia|]. rewrite (H2 i x Hx). lia.
  - destruct Hprev as [_ E0]. destruct l; [|by destruct Hp]. split; [cbn; lia|]. intros [|i] x Hx; [injection Hx as <-; lia|done].
Qed.

Lemma path_below l h x : path I (Some h) l -> x ∈ l -> x = h \/ height_of x < height_of h.
Proof.
  intros Hp Hx. destruct (path_heights l h Hp) as [_ Hh]. apply list_elem_of_lookup in Hx as [[|i] Hi].
  - left. destruct l as [|y l]; [done|]. destruct Hp as ([= <-] & _). by injection Hi as <-.
  - right. rewrite (Hh _ _ Hi). lia.
Qed.

Lemma path_in_index l h : path I (Some h) l -> exists n, mapBlockIndex I !! h = Some n /\ height_of h = bi_nHeight (entry n) /\ 0 <= height_of h.
Proof.
  intros Hp. destruct l as [|x l]; [done|]. destruct Hp as ([= <-] & n & Hn & _). exists n. split; [done|]. unfold height_of. rewrite Hn. cbn.
  split; [done|]. by destruct (Hlinks h n Hn) as (_ & [? _] & _).
Qed.

Lemma path_bound l h : path I (Some h) l -> height_of h < Z.of_nat (size (mapBlockIndex I)).
Proof.
  intros Hp. destruct (path_heights l h Hp) as [Hlen Hh]. pose proof (path_size I l (Some h) Hp). assert (length l <= size (mapBlockIndex I))%nat; [|lia].
  apply H. intros i j x Hi Hj. pose proof (Hh j x Hj) as E0. rewrite (Hh i x Hi) in E0. lia.
Qed.

Lemma climb_down_spec k fuel : forall h l, path I (Some h) l -> height_of h <= Z.of_nat fuel -> 0 <= k ->
  exists h' c l', climb_down I fuel k h = Some h' /\ l = c ++ l' /\ path I (Some h') l' /\ height_of h' <= k /\ Forall (fun x => k < height_of x) c /\
    height_of h' = Z.min k (height_of h).
Proof.
  induction fuel as [|fuel IH]; intros h l Hp Hf Hk; destruct (path_in_index l h Hp) as (n & Hn & Eh & H0); cbn [climb_down]; cbn [deref mbind option_bind]; rewrite Hn;
    cbn [mbind option_bind]; rewrite <- Eh; destruct (Z.ltb_spec k (height_of h)) as [Hlt|Hge].
  - lia.
  - exists h, [], l. split; [done|]. split; [done|]. split; [done|]. split; [lia|]. split; [constructor|lia].
  - destruct l as [|x l]; [done|]. destruct Hp as ([= <-] & m & Hm & Hp). rewrite Hn in Hm. injection Hm as <-. destruct (Hlinks h n Hn) as (_ & _ & Hprev).
    destruct (pprev n) as [q|]; [|lia]. destruct Hprev as (nq & Hq & Eq). assert (height_of q = bi_nHeight (entry nq)) as Ehq by (unfold height_of; by rewrite Hq).
    destruct (IH q l Hp) as (h' & c & l' & H1 & H2 & H3 & H4 & H5 & H6); [lia|done|]. cbn [mbind option_bind]. exists h', (h :: c), l'. split; [done|].
    split; [by rewrite H2|]. split; [done|]. split; [done|]. split; [by constructor|]. lia.
  - exists h, [], l. split; [done|]. split; [done|]. split; [done|]. split; [lia|]. split; [constructor|lia].
Qed.

(** The two branches part above [f], and share what lies from [f] on. *)
Definition forks_at (lf ll : list Z) (f : Z) (vd vc r : list Z) : Prop :=
  lf = vd ++ f :: r /\ ll = vc ++ f :: r /\ (forall x, x ∈ vd -> x ∉ ll) /\ (forall x, x ∈ vc -> x ∉ lf).

Lemma find_fork_spec fuel : forall pf pl lf ll, path I (Some pf) lf -> path I (Some pl) ll -> height_of pf < Z.of_nat fuel ->
  exists f vd vc r, find_fork I fuel pf pl = Some f /\ forks_at lf ll f vd vc r.
Proof.
  assert (forall x l, path I (Some x) l -> exists r, l = x :: r) as Hhd.
  { intros x [|y l]; [done|]. intros ([= <-] & _). by exists l. }
  induction fuel as [|fuel IH]; intros pf pl lf ll Hpf Hpl Hf; destruct (path_in_index lf pf Hpf) as (n & Hn & Eh & H0); [lia|]. cbn [find_fork].
  destruct (Z.eqb_spec pf pl) as [->|Hne].
  { exists pl, [], []. destruct (Hhd pl lf Hpf) as [r ->]. exists r. rewrite (path_unique I _ _ _ Hpl Hpf). split; [done|]. split; [done|]. split; [done|].
    by split; intros x Hx%elem_of_nil. }
  cbn [deref mbind option_bind]. rewrite Hn. cbn [mbind option_bind]. rewrite <- Eh.
  destruct (climb_down_spec (height_of pf) (size (mapBlockIndex I)) pl ll Hpl) as (pl' & c & ll' & Ec & -> & Hpl' & Hle & Hc & Hmin);
    [pose proof (path_bound ll pl Hpl); lia|done|]. rewrite Ec. cbn [mbind option_bind].
  assert (forall x, x ∈ c -> x ∉ lf) as Hclf.
  { intros x Hx Hxf. rewrite Forall_forall in Hc. specialize (Hc x Hx). destruct (path_below lf pf x Hpf Hxf) as [->|]; lia. }
  destruct (Z.eqb_spec pf pl') as [->|Hne'].
  { exists pl', [], c. destruct (Hhd pl' lf Hpf) as [r ->]. exists r. rewrite (path_unique I _ _ _ Hpl' Hpf). split; [done|]. split; [done|]. split; [done|].
    split; [by intros x Hx%elem_of_nil|]. done. }
  assert (pf ∉ ll') as Hnin.
  { intros Hin. destruct (path_below ll' pl' pf Hpl' Hin) as [->|]; [done|]. lia. }
  destruct lf as [|y lf2]; [done|]. destruct Hpf as ([= <-] & m & Hm & Hp2). rewrite Hn in Hm. injection Hm as <-.
  destruct (Hlinks pf n Hn) as (_ & _ & Hprev). destruct (pprev n) as [q|] eqn:Eq.
  - destruct Hprev as (nq & Hq & Eq'). assert (height_of q = bi_nHeight (entry nq)) as Ehq by (unfold height_of; by rewrite Hq).
    destruct (IH q pl' lf2 ll' Hp2 Hpl') as (f & vd & vc & r & E1 & E2 & E3 & E4 & E5); [lia|]. cbn [mbind option_bind]. exists f, (pf :: vd), (c ++ vc), r.
    split; [done|]. split; [by rewrite E2|]. split; [by rewrite E3, app_assoc|].
    assert (pf ∉ c) as Hpc by (intros H; apply (Hclf pf H); by left).
    split; intros x Hx.
    + apply elem_of_cons in Hx as [->|Hx]; rewrite not_elem_of_app; [done|]. split; [|by apply E4]. intros Hxc. apply (Hclf x Hxc). right. rewrite E2.
      apply elem_of_app. by left.
    + apply elem_of_app in Hx as [Hx|Hx]; [by apply Hclf|]. rewrite not_elem_of_cons. split; [|by apply E5]. intros ->. apply Hnin. rewrite E3. apply elem_of_app. by left.
  - destruct Hprev as [-> Hz]. destruct (path_in_index ll' pl' Hpl') as (np & Hnp & Ehp & H0p). destruct (Hlinks pl' np Hnp) as (_ & _ & Hpp).
    destruct (pprev np) as [q|]; [|by destruct Hpp].
    destruct Hpp as (nq & Hq & Eq'). destruct (Hlinks q nq Hq) as (_ & ? & _). lia.
Qed.

Lemma back_to_prefix f r : forall vd fuel h, path I (Some h) (vd ++ f :: r) -> f ∉ vd -> (length vd <= fuel)%nat -> back_to I fuel f h = Some vd.
Proof.
  induction vd as [|x vd IH]; intros fuel h Hp Hnin Hf; cbn in Hp; destruct Hp as ([= ->] & n & Hn & Hp).
  - destruct fuel; cbn [back_to]; by rewrite Z.eqb_refl.
  - apply not_elem_of_cons in Hnin as [Hne Hnin]. cbn in Hf. destruct fuel as [|fuel]; [lia|]. cbn [back_to].
    rewrite (proj2 (Z.eqb_neq x f)) by done. cbn [deref mbind option_bind]. rewrite Hn. cbn [mbind option_bind].
    destruct (pprev n) as [q|]; [|by destruct vd; destruct Hp]. cbn [mbind option_bind]. rewrite (IH fuel q Hp Hnin) by lia. done.
Qed.

End fork.

(** The fork of a reorganization is always found: in a well linked index the
    loops of [Reorganize] end with the last block the old and the new branch
    have in common, and its two lists are the parts of the branches above it,
    which share no block.  Only the synchronized checkpoint can refuse them. *)
Theorem branches_found hashSyncCheckpoint c best hNew :
  links_ok (ch_index c) -> pindexBest (ch_index c) = Some best ->
  is_Some (mapBlockIndex (ch_index c) !! best) -> is_Some (mapBlockIndex (ch_index c) !! hNew) ->
  exists lBest lNew f vDisconnect vConnect r,
    path (ch_index c) (Some best) lBest /\ path (ch_index c) (Some hNew) lNew /\ forks_at lBest lNew f vDisconnect vConnect r /\
    branches hashSyncCheckpoint c hNew =
      if bool_decide (hashSyncCheckpoint ∈ vDisconnect) then None else Some (vDisconnect, reverse vConnect).
Proof.
  intros Hl Hb [nb Hnb] [nn Hnn]. set (I := ch_index c) in *.
  assert (forall h n, mapBlockIndex I !! h = Some n -> exists l, path I (Some h) l) as Hex.
  { intros h n Hn. destruct (path_exists I Hl (Z.to_nat (bi_nHeight (entry n))) h n Hn) as (l & Hp & _); [|by exists l]. destruct (Hl h n Hn) as (_ & ? & _). lia. }
  destruct (Hex best nb Hnb) as [lf Hpf]. destruct (Hex hNew nn Hnn) as [ll Hpl]. set (fuel := S (size (mapBlockIndex I))).
  destruct (find_fork_spec I Hl fuel best hNew lf ll Hpf Hpl) as (f & vd & vc & r & Ef & -> & -> & H1 & H2); [pose proof (path_bound I Hl _ _ Hpf); lia|].
  assert (forall h v l, path I (Some h) (v ++ f :: r) -> f ∈ l ++ f :: r -> (forall x, x ∈ v -> x ∉ l ++ f :: r) -> back_to I fuel f h = Some v) as Hbk.
  { intros h v l Hp Hin Hv. apply (back_to_prefix I f r); [done|intros Hfv; by apply (Hv f Hfv)|].
    destruct (path_heights I Hl _ _ Hp) as [Hlen _]. pose proof (path_bound I Hl _ _ Hp). rewrite length_app in Hlen. unfold fuel. lia. }
  exists (vd ++ f :: r), (vc ++ f :: r), f, vd, vc, r. split; [done|]. split; [done|]. split; [done|]. unfold branches. fold I. rewrite Hb. cbn [mbind option_bind]. fold fuel. rewrite Ef.
  cbn [mbind option_bind]. rewrite (Hbk best vd vc), (Hbk hNew vc vd); try done; (apply elem_of_app; right; by left).
Qed.

Section ledger.
Context {B : Tx.Abi} {L : BNLib} {HL : BNLaws L} {D : DigestLib} {E : ECLib} (fTestNet : bool) (p : NetParams) (d : disk).

(** ** The ledger of a branch *)

Definition block_at (I : index) (h : Z) : option CBlock := deref I (Some h) ≫= index_ReadFromDisk p d.

Definition txids (b : CBlock) : option (list Z) := mapM Tx.GetHash (vtx b).
Definition actions (b : CBlock) : option (list Coins.action) := hs ← txids b; Some (zip_with action_of (vtx b) hs).

(** The ledger of a branch that is listed from its newest block. *)
Fixpoint ledger (I : index) (l : list Z) : option coins :=
  match l with
  | [] => Some ∅
  | h :: l => c ← ledger I l; b ← block_at I h; acts ← actions b; Coins.apply_all acts c
  end.

(** The transactions of a branch. *)
Definition ids (I : index) (l : list Z) : list Z := l ≫= fun h => default [] (block_at I h ≫= txids).

Lemma ids_cons I h l : ids I (h :: l) = default [] (block_at I h ≫= txids) ++ ids I l.
Proof. done. Qed.

Lemma ids_app I l1 l2 : ids I (l1 ++ l2) = ids I l1 ++ ids I l2.
Proof. apply bind_app. Qed.

Lemma block_at_same I J h : same_blocks I J -> block_at I h = block_at J h.
Proof.
  intros Hs. unfold block_at. cbn. destruct (mapBlockIndex I !! h) as [n|] eqn:En.
  - destruct (same_blocks_lookup I J h n Hs En) as (m & -> & Es). cbn. unfold index_ReadFromDisk, GetBlockIDHash. by injection Es as _ -> -> -> _.
  - destruct Hs as (_ & _ & Hs). specialize (Hs h). rewrite En in Hs. by destruct (mapBlockIndex J !! h).
Qed.

#[global] Instance ledger_proper : Proper (same_blocks ==> eq ==> eq) ledger.
Proof. intros I J Hs l ? <-. induction l as [|h l IH]; [done|]. cbn [ledger]. by rewrite IH, (block_at_same I J). Qed.

#[global] Instance ids_proper : Proper (same_blocks ==> eq ==> eq) ids.
Proof.
  intros I J Hs l ? <-. induction l as [|h l IH]; [done|]. rewrite !ids_cons, IH. by rewrite (block_at_same I J).
Qed.

(** The ledger knows only transactions of the branch. *)
Lemma spend_all_dom os : forall c c' x, Coins.spend_all os c = Some c' -> is_Some (c' !! x) -> is_Some (c !! x).
Proof.
  induction os as [|o os IH]; intros c c' x E0; cbn in E0; [by injection E0 as <-|]. unfold Coins.spend in E0. destruct (Coins.unspent c o); [|done]. cbn in E0.
  intros H%(IH _ _ _ E0). rewrite Coins.lookup_set_flag in H. case_decide; [|done]. by destruct (c !! x); cbn in H; [|destruct H].
Qed.

Lemma apply_all_dom l : forall c c' x, Coins.apply_all l c = Some c' -> is_Some (c' !! x) -> is_Some (c !! x) \/ x ∈ Coins.act_hash <$> l.
Proof.
  induction l as [|a l IH]; intros c c' x E0 H; cbn in E0; [injection E0 as <-; by left|]. destruct (Coins.apply_tx a c) as [c1|] eqn:E1; [|done]. cbn in E0.
  destruct (IH c1 c' x E0 H) as [H1|H1]; [|right; by right]. unfold Coins.apply_tx in E1. destruct (Coins.spend_all _ c) as [c2|] eqn:E2; [|done].
  cbn in E1. injection E1 as <-. destruct (decide (x = Coins.act_hash a)) as [->|Hx]; [right; by left|]. rewrite lookup_insert_ne in H1 by done.
  left. by apply (spend_all_dom _ _ _ _ E2).
Qed.

Lemma actions_hashes b acts : actions b = Some acts -> exists hs, txids b = Some hs /\ Coins.act_hash <$> acts = hs /\ acts = zip_with action_of (vtx b) hs.
Proof.
  unfold actions. destruct (txids b) as [hs|] eqn:Eh; [|done]. cbn. intros [= <-]. exists hs. split; [done|]. split; [|done].
  unfold txids in Eh. assert (length (vtx b) = length hs) as Hl by (by eapply Forall2_length, mapM_Some_1).
  clear -Hl. revert hs Hl. induction (vtx b) as [|t l IH]; intros [|h hs] Hl; try done. cbn. f_equal. apply IH. cbn in Hl. lia.
Qed.

Lemma ledger_dom I l : forall c x, ledger I l = Some c -> is_Some (c !! x) -> x ∈ ids I l.
Proof.
  induction l as [|h l IH]; intros c x E0 H; cbn [ledger mbind option_bind] in E0; [injection E0 as <-; rewrite lookup_empty in H; by destruct H|].
  destruct (ledger I l) as [c0|] eqn:El; [|done]. cbn [ledger mbind option_bind] in E0. destruct (block_at I h) as [b|] eqn:Eb; [|done]. cbn [ledger mbind option_bind] in E0.
  destruct (actions b) as [acts|] eqn:Ea; [|done]. cbn [ledger mbind option_bind] in E0. destruct (actions_hashes b acts Ea) as (hs & Eh & Ehs & _).
  rewrite ids_cons, Eb. cbn [mbind option_bind]. rewrite Eh. cbn [default from_option id]. apply elem_of_app. destruct (apply_all_dom _ _ _ _ E0 H) as [H1|H1].
  - right. by apply (IH c0).
  - left. by rewrite <- Ehs.
Qed.

(** ** Connecting and disconnecting blocks of a branch *)

(** The block files hold blocks whose inputs have unsigned indices, and no
    entry lies in the file that stands for no position. *)
Definition disk_ok : Prop := forall pos b, disk_blocks d !! pos = Some b -> Forall (fun t => Forall (fun i => Coins.nonneg (prevout i)) (vin t)) (vtx b).
Definition files_ok (I : index) : Prop := forall h n, mapBlockIndex I !! h = Some n -> nFile n <> Tx.UINT_MAX.

#[global] Instance files_ok_proper : Proper (same_blocks ==> iff) files_ok.
Proof.
  assert (forall I J, same_blocks I J -> files_ok I -> files_ok J) as H.
  { intros I J Hs Hf h n Hn. destruct (same_blocks_lookup J I h n (symmetry Hs) Hn) as (m & Hm & Es). injection Es as _ -> _ _ _. by apply (Hf h). }
  intros I J Hs. split; apply H; [done|by symmetry].
Qed.

Context (Hd : disk_ok).

Lemma index_ReadFromDisk_spec n b : index_ReadFromDisk p d n = Some b ->
  Block.GetIDHash b = bi_hash (entry n) /\ Forall (fun t => Forall (fun i => Coins.nonneg (prevout i)) (vin t)) (vtx b).
Proof.
  unfold index_ReadFromDisk, block_ReadFromDisk. destruct (disk_blocks d !! (nFile n, nBlockPos n)) as [b0|] eqn:Eb; [|done]. cbn [mbind option_bind].
  cbn [negb]. destruct (_ && _); [done|]. cbn [mbind option_bind]. destruct (Z.eqb_spec (Block.GetIDHash b0) (GetBlockIDHash n)) as [Eh|]; [|done].
  intros [= <-]. split; [done|]. by apply (Hd _ _ Eb).
Qed.

Context (now : Z) (GetPoWHash : CBlock -> option (list Z)).

(** Connecting a block changes the money counters of its entry only. *)
Lemma ConnectBlock_node I below mempool db infos b n db' n' infos' :
  ConnectBlock fTestNet p d I below mempool now GetPoWHash db infos b n = Done (db', n', infos') ->
  skeleton n' = skeleton n /\ pnext n' = pnext n.
Proof.
  unfold ConnectBlock. destruct (Block.CheckBlock _ _ _ _ _ _); [|done..]. destruct (_ && _); [done|]. destruct (existsb _ _); [done|].
  destruct (first_tx_pos n b); [|done]. destruct (connect_txs _ _ _ _ _ _ _ _ _ _ _); [|done..]. destruct (head _ ≫= _); [|done].
  destruct (_ <? _); [done|]. by intros [= <- <- <-].
Qed.

(** A block that is connected takes the ledger a step further. *)
Lemma ConnectBlock_step I below mempool db infos b n db' n' infos' :
  nFile n <> Tx.UINT_MAX -> Forall (fun t => Forall (fun i => Coins.nonneg (prevout i)) (vin t)) (vtx b) ->
  ConnectBlock fTestNet p d I below mempool now GetPoWHash db infos b n = Done (db', n', infos') ->
  exists acts, actions b = Some acts /\ Coins.apply_all acts (coins_of (db_tx db)) = Some (coins_of (db_tx db')).
Proof.
  intros Hf Hn Hc. destruct (ConnectBlock_connected _ _ _ _ _ _ _ _ _ _ _ _ _ _ _ Hf Hn Hc) as (hs & accs & s & Hcn & _).
  exists (zip_with action_of (vtx b) hs). unfold actions, txids. rewrite (cn_hashes _ _ _ _ _ _ _ _ _ _ _ _ Hcn). split; [done|].
  apply (cn_ledger _ _ _ _ _ _ _ _ _ _ _ _ Hcn).
Qed.

Lemma ledger_step I l h b c acts c' : ledger I l = Some c -> block_at I h = Some b -> actions b = Some acts -> Coins.apply_all acts c = Some c' ->
  ledger I (h :: l) = Some c'.
Proof. intros E1 E2 E3 E4. cbn [ledger]. rewrite E1. cbn [mbind option_bind]. rewrite E2. cbn [mbind option_bind]. rewrite E3. done. Qed.

Lemma connect_blocks_ledger below mempool l : forall w w' txs r, files_ok (wk_index w) ->
  ledger (wk_index w) r = Some (coins_of (db_tx (wk_db w))) ->
  connect_blocks fTestNet p d now GetPoWHash below mempool l w = (Done txs, w') ->
  same_blocks (wk_index w') (wk_index w) /\ ledger (wk_index w') (reverse l ++ r) = Some (coins_of (db_tx (wk_db w'))).
Proof.
  induction l as [|h l IH]; intros w w' txs r Hf Hl E0; cbn [connect_blocks] in E0; [by injection E0 as <- <-|].
  destruct (deref (wk_index w) (Some h)) as [n|] eqn:En; [|done]. destruct (index_ReadFromDisk p d n) as [b|] eqn:Eb; [|done].
  destruct (ConnectBlock _ _ _ _ _ _ _ _ _ _ _ _) as [[[db n'] infos]| |] eqn:Ec; [|done..].
  destruct (index_ReadFromDisk_spec n b Eb) as [_ Hn]. assert (mapBlockIndex (wk_index w) !! h = Some n) as Hm by done.
  destruct (ConnectBlock_node _ _ _ _ _ _ _ _ _ _ Ec) as [Hs _].
  destruct (ConnectBlock_step _ _ _ _ _ _ _ _ _ _ (Hf h n Hm) Hn Ec) as (acts & Ea & Hap).
  pose proof (same_blocks_set_node (wk_index w) h n n' Hm Hs) as Hsame.
  destruct (connect_blocks _ _ _ _ _ _ _ l _) as [[txs'| |] w1] eqn:E1; try done. injection E0 as <- <-.
  assert (ledger (set_node h n' (wk_index w)) (h :: r) = Some (coins_of (db_tx db))) as Hl'.
  { rewrite Hsame. apply (ledger_step _ r h b (coins_of (db_tx (wk_db w))) acts); [done| |done|done]. unfold block_at. rewrite En. done. }
  destruct (IH (mk_work (set_node h n' (wk_index w)) db infos) w1 txs' (h :: r) (proj2 (files_ok_proper _ _ Hsame) Hf) Hl' E1) as [H1 H2]. split; [by rewrite H1|].
  by rewrite reverse_cons, <- app_assoc.
Qed.

(** Undoing, with or without information entries. *)
Lemma disconnect_txs_undo l : forall hs db infos c db' infos', Forall (fun t => Forall (fun i => Coins.nonneg (prevout i)) (vin t)) l ->
  Forall2 (fun t h => Tx.GetHash t = Some h) l hs -> Coins.undo_all (zip_with action_of l hs) (coins_of (db_tx db)) = Some c ->
  disconnect_txs fTestNet d l db infos = Done (db', infos') -> coins_of (db_tx db') = c.
Proof.
  induction l as [|t l IH]; intros hs db infos c db' infos' Hn Hh E0 Ed; inversion Hh as [|? h ? hs' Et Hh']; subst; cbn [zip_with Coins.undo_all] in E0;
    cbn [disconnect_txs] in Ed; [injection E0 as <-; by injection Ed as <- _|].
  inversion Hn; subst. destruct (Coins.undo_tx (action_of t h) (coins_of (db_tx db))) as [c1|] eqn:E1; [|done]. cbn in E0.
  destruct (DisconnectInputs_refines t h db c1 ltac:(done) Et E1) as (db1 & E2 & Ec & _ & _). rewrite E2 in Ed. subst c1.
  destruct (UndoTxInfos _ _ _ _ _ _ _) as [[[] infos1]|]; [|done..]. by eapply (IH hs' db1 infos1).
Qed.

(** The block at the top of a branch is taken back. *)
Lemma DisconnectBlock_step I h l b c db infos n db' infos' : NoDup (ids I (h :: l)) -> block_at I h = Some b ->
  Forall (fun t => Forall (fun i => Coins.nonneg (prevout i)) (vin t)) (vtx b) ->
  ledger I (h :: l) = Some (coins_of (db_tx db)) -> ledger I l = Some c ->
  DisconnectBlock fTestNet d I db infos b n = Done (db', infos') -> coins_of (db_tx db') = c.
Proof.
  intros Hnd Hb Hn Hl Hc Hdis. cbn [ledger] in Hl. rewrite Hc in Hl. cbn [mbind option_bind] in Hl. rewrite Hb in Hl. cbn [mbind option_bind] in Hl.
  destruct (actions b) as [acts|] eqn:Ea; [|done]. cbn [mbind option_bind] in Hl. destruct (actions_hashes b acts Ea) as (hs & Eh & Ehs & Eacts).
  rewrite ids_cons, Hb in Hnd. cbn [mbind option_bind] in Hnd. rewrite Eh in Hnd. cbn [default from_option id] in Hnd. apply NoDup_app in Hnd as (N1 & N2 & _).
  assert (forall x, x ∈ hs -> c !! x = None) as Hfresh.
  { intros x Hx. apply eq_None_not_Some. intros Hs. by apply (N2 x Hx), (ledger_dom I l c). }
  assert (Coins.undo_all (reverse acts) (coins_of (db_tx db)) = Some c) as Hundo.
  { rewrite (Coins.undo_apply_all acts c).
    - f_equal. rewrite Ehs. apply map_eq. intros x. rewrite Coins.lookup_delete_all. case_bool_decide as Hx; [|done]. by rewrite (Hfresh x Hx).
    - rewrite Eacts. apply Forall_forall. intros a (t & x & -> & Ht & _)%elem_of_zip_with. unfold action_of. cbn. destruct (Tx.IsCoinBase t); [constructor|].
      apply Forall_fmap. rewrite Forall_forall in Hn. by apply Hn.
    - by rewrite Ehs.
    - apply Forall_forall. intros a Ha fl Hfl. rewrite Hfresh in Hfl; [done|]. rewrite <- Ehs. by apply list_elem_of_fmap_2.
    - done. }
  assert (length (vtx b) = length hs) as Hlen by (unfold txids in Eh; by eapply Forall2_length, mapM_Some_1).
  rewrite Eacts, <- zip_with_reverse in Hundo by done.
  unfold DisconnectBlock in Hdis. destruct (disconnect_txs fTestNet d (reverse (vtx b)) db infos) as [[db1 infos1]| |] eqn:E1; [|done..].
  injection Hdis as <- <-. rewrite write_prev_tx.
  apply (disconnect_txs_undo (reverse (vtx b)) (reverse hs) db infos c db1 infos1); [by apply Forall_reverse| |done|done].
  apply Forall2_reverse. by apply mapM_Some_1.
Qed.

Lemma disconnect_blocks_ledger l : forall w w' txs r, NoDup (ids (wk_index w) (l ++ r)) ->
  ledger (wk_index w) (l ++ r) = Some (coins_of (db_tx (wk_db w))) ->
  disconnect_blocks fTestNet p d l w = Done (w', txs) ->
  wk_index w' = wk_index w /\ ledger (wk_index w) r = Some (coins_of (db_tx (wk_db w'))).
Proof.
  induction l as [|h l IH]; intros w w' txs r Hnd Hl E0; cbn [disconnect_blocks] in E0; [by injection E0 as <- <-|].
  destruct (deref (wk_index w) (Some h)) as [n|] eqn:En; [|done]. destruct (index_ReadFromDisk p d n) as [b|] eqn:Eb; [|done].
  destruct (DisconnectBlock _ _ _ _ _ _ _) as [[db infos]| |] eqn:Ed; [|done..]. destruct (index_ReadFromDisk_spec n b Eb) as [_ Hn].
  assert (block_at (wk_index w) h = Some b) as Hb by (unfold block_at; by rewrite En).
  cbn [app] in Hl, Hnd. destruct (ledger (wk_index w) (l ++ r)) as [c|] eqn:Ec; [|cbn [ledger] in Hl; by rewrite Ec in Hl].
  pose proof (DisconnectBlock_step _ h (l ++ r) b c _ _ n db infos Hnd Hb Hn Hl Ec Ed) as Hdb.
  destruct (disconnect_blocks _ _ _ l _) as [[w1 txs1]| |] eqn:E1; [|done..]. injection E0 as <- <-.
  rewrite ids_cons in Hnd. apply NoDup_app in Hnd as (_ & _ & Hnd').
  destruct (IH (mk_work (wk_index w) db infos) w1 txs1 r Hnd') as [H1 H2]; [cbn; by rewrite Ec, Hdb|done|]. by split.
Qed.

(** ** The database of the best chain *)

(** The database is that of the branch that ends with [h]. *)
Record db_at (I : index) (db : CTxDB) (h : Z) : Prop := {
  da_ledger : exists l, path I (Some h) (l ++ [hashGenesisBlock I]) /\ NoDup (ids I l) /\ ledger I l = Some (coins_of (db_tx db));
  da_best : db_hashBestChain db = Some h
}.

(** No transaction occurs twice in the branch of [h]. *)
Definition distinct (I : index) (h : Z) : Prop := forall l, path I (Some h) (l ++ [hashGenesisBlock I]) -> NoDup (ids I l).

Lemma db_at_same I J db h : same_blocks I J -> db_at I db h -> db_at J db h.
Proof.
  intros Hs [(l & H1 & H2 & H3) H4]. split; [|done]. exists l. by rewrite <- (proj1 Hs), <- Hs.
Qed.

Lemma distinct_same I J h : same_blocks I J -> distinct I h -> distinct J h.
Proof. intros Hs Hdi l. rewrite <- (proj1 Hs), <- Hs. apply Hdi. Qed.

(** The part of a branch below an ancestor. *)
Lemma split_last (l r r1 r2 : list Z) g : r = l ++ [g] -> r = r1 ++ r2 -> r2 <> [] -> exists l2, r2 = l2 ++ [g] /\ l = r1 ++ l2.
Proof.
  intros -> E0 Hne. destruct (exists_last Hne) as (l2 & x & ->). rewrite app_assoc in E0. apply app_inj_tail in E0 as [-> <-]. by exists l2.
Qed.

Lemma path_nonempty I h r : path I (Some h) r -> r <> [].
Proof. by destruct r. Qed.

Context (nBlocksEstimate hashSyncCheckpoint nLimitFreeRelay : Z) (IsFromMe : CTransaction -> bool) (pow : spec_float -> spec_float -> spec_float).

Abbreviation Reorganize' := (Reorganize fTestNet p d now GetPoWHash nBlocksEstimate hashSyncCheckpoint nLimitFreeRelay IsFromMe pow).
Abbreviation SetBestChainInner' := (SetBestChainInner fTestNet p d now GetPoWHash nBlocksEstimate).
Abbreviation connect_postponed' := (connect_postponed fTestNet p d now GetPoWHash nBlocksEstimate).
Abbreviation SetBestChain' := (SetBestChain fTestNet p d now GetPoWHash nBlocksEstimate hashSyncCheckpoint nLimitFreeRelay IsFromMe pow).

Lemma Reorganize_ledger c hNew c' best : files_ok (ch_index c) -> pindexBest (ch_index c) = Some best -> db_at (ch_index c) (ch_db c) best ->
  distinct (ch_index c) hNew -> Reorganize' c hNew = (Done tt, c') ->
  same_blocks (ch_index c') (ch_index c) /\ db_at (ch_index c') (ch_db c') hNew.
Proof.
  intros Hf Hb [(l & Hp & Hnd & Hl) _] Hdi. unfold Reorganize. destruct (branches hashSyncCheckpoint c hNew) as [[vd vc]|] eqn:Eb; [|done].
  unfold branches in Eb. rewrite Hb in Eb. cbn [mbind option_bind] in Eb. set (fuel := S (size (mapBlockIndex (ch_index c)))) in Eb.
  destruct (find_fork (ch_index c) fuel best hNew) as [f|]; [|done]. cbn [mbind option_bind] in Eb.
  destruct (back_to (ch_index c) fuel f best) as [ld|] eqn:Ed; [|done]. cbn [mbind option_bind] in Eb.
  destruct (back_to (ch_index c) fuel f hNew) as [lc|] eqn:Ec; [|done]. cbn [mbind option_bind] in Eb. case_bool_decide; [done|]. injection Eb as <- <-.
  destruct (back_to_split _ _ _ _ _ _ Ed Hp) as (r & Er & Hr). destruct (split_last l _ ld r _ eq_refl Er (path_nonempty _ _ _ Hr)) as (l2 & -> & ->).
  destruct (disconnect_blocks _ _ _ ld _) as [[w txs]| |] eqn:E1; [|done..].
  destruct (disconnect_blocks_ledger ld (mk_work (ch_index c) (ch_db c) (ch_infos c)) w txs l2 Hnd Hl E1) as [Hw Hl2]. cbn in Hw, Hl2.
  destruct (connect_blocks _ _ _ _ _ _ _ (reverse lc) w) as [[del| |] w'] eqn:E2; [|done..].
  destruct (connect_blocks_ledger (below nBlocksEstimate c) (mapTx (ch_pool c)) (reverse lc) w w' del l2) as [Hs Hl']; [by rewrite Hw|by rewrite Hw|done|]. rewrite reverse_involutive in Hl'.
  destruct (resurrect _ _ _ _ _ _ _ _ _ _ ≫= _) as [m|]; [|done]. intros [= <-]. rewrite Hw in Hs.
  set (J := foldl (fun I h => link_prev (Some h) I h) _ _).
  assert (same_blocks J (ch_index c)) as HJ.
  { unfold J. rewrite (same_blocks_links (fun I h => link_prev (Some h) I h)) by (intros; apply same_blocks_link_prev).
    rewrite (same_blocks_links (link_prev None)) by (intros; apply same_blocks_link_prev). done. }
  split; [done|]. apply (db_at_same (ch_index c)); [by symmetry|]. split; [|done]. exists (lc ++ l2).
  assert (path (ch_index c) (Some hNew) ((lc ++ l2) ++ [hashGenesisBlock (ch_index c)])) as Hpn by (rewrite <- app_assoc; by apply (back_to_path _ fuel f)).
  split; [done|]. split; [by apply Hdi|]. cbn. by rewrite <- Hs.
Qed.

Lemma SetBestChainInner_ledger b h n c c' cur : files_ok (ch_index c) -> db_at (ch_index c) (ch_db c) cur -> deref (ch_index c) (Some h) = Some n ->
  index_ReadFromDisk p d n = Some b -> bi_hash (entry n) = h -> pprev n = Some cur -> distinct (ch_index c) h ->
  SetBestChainInner' b h c = (Done tt, c') ->
  same_blocks (ch_index c') (ch_index c) /\ db_at (ch_index c') (ch_db c') h /\
  pindexBest (ch_index c') = pindexBest (ch_index c) /\ hashBestChain c' = hashBestChain c.
Proof.
  intros Hf [(l & Hp & Hnd & Hl) _] Hn Hr Hh Hprev Hdi. unfold SetBestChainInner. rewrite Hn.
  destruct (ConnectBlock _ _ _ _ _ _ _ _ _ _ _ _) as [[[db n'] infos]| |] eqn:Ec; [|done..]. destruct (index_ReadFromDisk_spec n b Hr) as [Hid Hnn].
  destruct (ConnectBlock_node _ _ _ _ _ _ _ _ _ _ Ec) as [Hs _]. assert (mapBlockIndex (ch_index c) !! h = Some n) as Hm by done.
  destruct (ConnectBlock_step _ _ _ _ _ _ _ _ _ _ (Hf h n Hm) Hnn Ec) as (acts & Ea & Hap). rewrite Hprev.
  destruct (remove_all (vtx b) _) as [m|]; [|done]. intros [= <-]. cbn [ch_index with_pool with_index with_db with_infostore ch_db].
  assert (same_blocks (link_prev (Some h) (set_node h n' (ch_index c)) h) (ch_index c)) as Hsame
    by (rewrite same_blocks_link_prev; by apply (same_blocks_set_node _ h n)).
  split; [done|]. split.
  - apply (db_at_same (ch_index c)); [by symmetry|]. split; [|cbn; by rewrite Hid, Hh]. exists (h :: l).
    assert (path (ch_index c) (Some h) ((h :: l) ++ [hashGenesisBlock (ch_index c)])) as Hpn by (cbn; split; [done|]; exists n; by rewrite Hprev).
    split; [done|]. split; [by apply Hdi|]. apply (ledger_step _ l h b (coins_of (db_tx (ch_db c))) acts); [done| |done|done].
    unfold block_at. by rewrite Hn.
  - split; [|done]. unfold link_prev. by destruct (deref _ (Some h) ≫= pprev).
Qed.

(** ** The postponed blocks *)

Lemma intermediate_split I t fuel : forall h i l r, intermediate I fuel t h = Some (i, l) -> path I (Some h) r ->
  exists r', r = l ++ r' /\ path I (Some i) r'.
Proof.
  induction fuel as [|fuel IH]; intros h i l r E0 Hp; cbn [intermediate] in E0; destruct (deref I (Some h)) as [n|] eqn:En; cbn [mbind option_bind] in E0; try done;
    (destruct (deref I (pprev n)) as [pn|] eqn:Epn; [|injection E0 as <- <-; by exists r]);
    (destruct (pprev n) as [q|] eqn:Eq; [|injection E0 as <- <-; by exists r]); (destruct (BigNum.op_gtb _ t); [|injection E0 as <- <-; by exists r]); [done|].
  destruct (intermediate I fuel t q) as [[i' l']|] eqn:Ei; [|done]. injection E0 as <- <-. destruct r as [|x r]; [done|].
  destruct Hp as ([= <-] & m & Hm & Hp). unfold deref in En. cbn in En. rewrite En in Hm. injection Hm as <-. rewrite Eq in Hp.
  destruct (IH q i' l' r Ei Hp) as (r' & -> & Hr'). by exists r'.
Qed.

(** Every entry is filed under its hash. *)
Definition filed (I : index) : Prop := forall h n, mapBlockIndex I !! h = Some n -> bi_hash (entry n) = h.

Lemma filed_same I J : same_blocks I J -> filed I -> filed J.
Proof.
  intros Hs Hf h n Hn. destruct (same_blocks_lookup J I h n (symmetry Hs) Hn) as (m & Hm & Es). injection Es as _ _ _ -> _. by apply Hf.
Qed.

Lemma connect_postponed_ledger l : forall c c' cur top r, files_ok (ch_index c) -> filed (ch_index c) -> db_at (ch_index c) (ch_db c) cur ->
  path (ch_index c) (Some cur) (r ++ [hashGenesisBlock (ch_index c)]) ->
  path (ch_index c) (Some top) (reverse l ++ r ++ [hashGenesisBlock (ch_index c)]) -> NoDup (ids (ch_index c) (reverse l ++ r)) ->
  connect_postponed' l c = (true, c') ->
  same_blocks (ch_index c') (ch_index c) /\ pindexBest (ch_index c') = pindexBest (ch_index c) /\ hashBestChain c' = hashBestChain c /\
  exists at_ l1 r1, db_at (ch_index c') (ch_db c') at_ /\ path (ch_index c) (Some at_) (r1 ++ [hashGenesisBlock (ch_index c)]) /\ reverse l ++ r = l1 ++ r1.
Proof.
  induction l as [|h l IH]; intros c c' cur top r Hf Hfi Hdb Hcur Htop Hnd; cbn [connect_postponed].
  { intros [= <-]. split; [done|]. split; [done|]. split; [done|]. by exists cur, [], r. }
  destruct (deref (ch_index c) (Some h)) as [n|] eqn:En.
  2:{ intros [= <-]. split; [done|]. split; [done|]. split; [done|]. by exists cur, (reverse (h :: l)), r. }
  cbn [mbind option_bind]. destruct (index_ReadFromDisk p d n) as [b|] eqn:Eb.
  2:{ intros [= <-]. split; [done|]. split; [done|]. split; [done|]. by exists cur, (reverse (h :: l)), r. }
  rewrite reverse_cons, <- !app_assoc in Htop. cbn [app] in Htop. rewrite reverse_cons, <- app_assoc in Hnd. cbn [app] in Hnd.
  destruct (path_app_inv _ (reverse l) _ (h :: r ++ [hashGenesisBlock (ch_index c)]) Htop) as (f & Hpf & [= <-]); [done|].
  assert (pprev n = Some cur) as Hprev.
  { destruct Hpf as (_ & m & Hm & Hpm). cbn in En. rewrite En in Hm. injection Hm as <-. destruct r as [|x r]; cbn in Hcur, Hpm.
    - destruct Hcur as ([= ->] & _). by destruct Hpm.
    - destruct Hcur as ([= ->] & _). by destruct Hpm. }
  assert (distinct (ch_index c) h) as Hdi.
  { intros lx Hlx. pose proof (path_unique _ _ _ _ Hlx Hpf) as Ex. change (h :: r ++ [hashGenesisBlock (ch_index c)]) with ((h :: r) ++ [hashGenesisBlock (ch_index c)]) in Ex.
    apply app_inj_tail in Ex as [-> _]. rewrite ids_app in Hnd. by apply NoDup_app in Hnd as (_ & _ & Hnd). }
  destruct (SetBestChainInner' b h c) as [[[]| |] c1] eqn:Ei.
  - destruct (SetBestChainInner_ledger b h n c c1 cur Hf Hdb En Eb (Hfi h n En) Hprev Hdi Ei) as (Hs & Hdb1 & Hb1 & Hh1). intros E0.
    destruct (IH c1 c' h top (h :: r)) as (H1 & H2 & H3 & at_ & l1 & r1 & H4 & H5 & H6); try done.
    + by rewrite Hs.
    + by apply (filed_same (ch_index c)).
    + rewrite (proj1 Hs), Hs. done.
    + rewrite (proj1 Hs), Hs. done.
    + by rewrite Hs.
    + split; [by rewrite H1|]. split; [by rewrite H2|]. split; [by rewrite H3|]. exists at_, l1, r1. split; [done|]. split; [rewrite (proj1 Hs), Hs in H5; done|].
      by rewrite reverse_cons, <- app_assoc.
  - intros [= <-]. unfold SetBestChainInner in Ei. rewrite En in Ei. destruct (ConnectBlock _ _ _ _ _ _ _ _ _ _ _ _) as [[[db n'] infos]| |]; [|injection Ei as _ <-|done].
    { rewrite Hprev in Ei. by destruct (remove_all _ _). }
    assert (forall c0, ch_index (InvalidChainFound n c0) = ch_index c0 /\ ch_db (InvalidChainFound n c0) = ch_db c0 /\ hashBestChain (InvalidChainFound n c0) = hashBestChain c0)
      as Hinv by (intros c0; unfold InvalidChainFound; by destruct (BigNum.op_gtb _ _)).
    set (c2 := with_infostore _ c). destruct (Hinv c2) as (-> & -> & ->). split; [done|]. split; [done|]. split; [done|]. by exists cur, (reverse (h :: l)), r.
  - done.
Qed.

(** ** Failures *)

(** The same blocks, the same main chain. *)
Definition same_chain (I J : index) : Prop :=
  same_blocks I J /\ pindexBest I = pindexBest J /\ forall h, pnext <$> mapBlockIndex I !! h = pnext <$> mapBlockIndex J !! h.

Lemma connect_blocks_same below mempool l : forall w r w', connect_blocks fTestNet p d now GetPoWHash below mempool l w = (r, w') ->
  same_chain (wk_index w') (wk_index w).
Proof.
  induction l as [|h l IH]; intros w r w' E0; cbn [connect_blocks] in E0; [by injection E0 as <- <-|].
  destruct (deref (wk_index w) (Some h)) as [n|] eqn:En; [|by injection E0 as <- <-]. destruct (index_ReadFromDisk p d n) as [b|]; [|by injection E0 as <- <-].
  destruct (ConnectBlock _ _ _ _ _ _ _ _ _ _ _ _) as [[[db n'] infos]| |] eqn:Ec; [|by injection E0 as <- <-..].
  destruct (ConnectBlock_node _ _ _ _ _ _ _ _ _ _ Ec) as [Hs Hx].
  destruct (connect_blocks _ _ _ _ _ _ _ l _) as [r1 w1] eqn:E1. apply IH in E1 as (H1 & H2 & H3). cbn [wk_index] in H1, H2, H3.
  assert (w' = w1) as -> by (destruct r1; by injection E0 as _ <-).
  split; [rewrite H1; by apply (same_blocks_set_node _ h n)|]. split; [done|]. intros x. rewrite H3. cbn.
  destruct (decide (x = h)) as [->|Hne]; [|by rewrite lookup_insert_ne]. rewrite lookup_insert_eq. cbn in En. rewrite En. cbn. by rewrite Hx.
Qed.

Lemma disconnect_blocks_index l : forall w0 w txs, disconnect_blocks fTestNet p d l w0 = Done (w, txs) -> wk_index w = wk_index w0.
Proof.
  induction l as [|h l IH]; intros w0 w txs E0; cbn [disconnect_blocks] in E0; [by injection E0 as <- <-|].
  destruct (deref _ _) as [n|]; [|done]. destruct (index_ReadFromDisk p d n) as [b|]; [|done]. destruct (DisconnectBlock _ _ _ _ _ _ _) as [[db infos]| |]; [|done..].
  destruct (disconnect_blocks _ _ _ l _) as [[w1 txs1]| |] eqn:E1; [|done..]. injection E0 as <- <-. by rewrite (IH _ _ _ E1).
Qed.

Lemma Reorganize_failed c hNew dos c' : Reorganize' c hNew = (Failed dos, c') -> exists J, c' = with_index J c /\ same_chain J (ch_index c).
Proof.
  unfold Reorganize. destruct (branches hashSyncCheckpoint c hNew) as [[vd vc]|]; [|intros [= _ <-]; exists (ch_index c); by destruct c].
  destruct (disconnect_blocks _ _ _ vd _) as [[w txs]| |] eqn:Ed; [|intros [= _ <-]; exists (ch_index c); by destruct c|done].
  assert (wk_index w = ch_index c) as Hw by (by rewrite (disconnect_blocks_index _ _ _ _ Ed)).
  destruct (connect_blocks _ _ _ _ _ _ _ vc w) as [[del|dos'|] w'] eqn:Ec; [|intros [= _ <-]|done].
  - by destruct (resurrect _ _ _ _ _ _ _ _ _ _ ≫= _).
  - exists (wk_index w'). split; [done|]. rewrite <- Hw. by apply (connect_blocks_same _ _ vc w _ w' Ec).
Qed.

(** What a failed block leaves in the view of the information entries goes
    away with the view. *)
Lemma infos_left_snapshot I below mempool db hash n l : forall s, TxInfo.InTransaction (infostore s) = true ->
  snapshot (infos_left fTestNet p d I below mempool db hash n l s) = snapshot (infostore s).
Proof.
  assert (forall s t s', connect_tx_inputs p d I below mempool db n t s = Done s' -> infostore s' = infostore s) as Hi.
  { intros s t s'. unfold connect_tx_inputs. destruct (_ <? _); [done|]. destruct (GetSerializeSize _ _); [|done]. destruct (Tx.GetHash t); [|done].
    destruct (Tx.IsCoinBase t); [destruct (Tx.GetValueOut t); [|done]; by intros [= <-]|]. destruct (FetchInputs _ _ _ _ _ _ _ _) as [mi|]; [|done].
    destruct (GetP2SHSigOpCount t mi); [|done]. destruct (_ <? _); [done|]. destruct (GetValueIn t mi); [|done]. destruct (Tx.GetValueOut t); [|done].
    destruct (ConnectInputs _ _ _ _ _ _ _ _ _ _ _ _); [|done..]. by intros [= <-]. }
  induction l as [|t l IH]; intros s Hs; cbn [infos_left]; [done|]. destruct (connect_tx_inputs p d I below mempool db n t s) as [s'| |] eqn:Es; [|done..].
  apply Hi in Es. destruct (Tx.IsCoinBase t); [rewrite IH; rewrite Es; done|].
  unfold ProcessTxInfos, procUndoTxInfos. rewrite Hs. cbn [negb]. destruct (run_inputs _ _ _ _ _ _ _ _) as [[ok inf]|] eqn:Er; [|done].
  pose proof (Mempool.run_inputs_snapshot fTestNet db d _ _ _ _ _ _ _ Hs Er) as Hsn. destruct ok; [|done].
  rewrite IH; cbn; [done|]. unfold TxInfo.InTransaction in *. by rewrite Hsn.
Qed.

Lemma block_infos_left_snapshot I below mempool db infos b n : TxInfo.InTransaction infos = true ->
  snapshot (block_infos_left fTestNet p d now GetPoWHash I below mempool db infos b n) = snapshot infos.
Proof.
  intros Hs. unfold block_infos_left. destruct (Block.CheckBlock _ _ _ _ _ _); try done. destruct (_ && _); [done|]. destruct (existsb _ _); [done|].
  destruct (first_tx_pos n b); [|done]. by rewrite infos_left_snapshot.
Qed.

(** A failure: the database, the best block with its height and trust, the
    main chain, the memory pool and the information entries are as before. *)
Record unchanged (c c' : chain) : Prop := {
  un_db : ch_db c' = ch_db c;
  un_best : hashBestChain c' = hashBestChain c /\ nBestHeight c' = nBestHeight c /\ bnBestChainTrust c' = bnBestChainTrust c;
  un_chain : same_chain (ch_index c') (ch_index c);
  un_pool : ch_pool c' = ch_pool c;
  un_infos : rows (ch_infos c') = rows (ch_infos c) /\ seq (ch_infos c') = seq (ch_infos c)
}.

Lemma unchanged_rollback c infos J v n : TxInfo.BeginTransaction (ch_infos c) = Some infos -> snapshot v = snapshot infos -> same_chain J (ch_index c) ->
  unchanged c (rollback (InvalidChainFound n (with_infostore v (with_index J c)))) /\ unchanged c (rollback (with_infostore v (with_index J c))).
Proof.
  intros Hb Hv Hj. destruct (TxInfo.rollback_restores (ch_infos c) infos v Hb Hv) as (s2 & Es & H1 & H2 & _).
  unfold rollback, InvalidChainFound. split; [destruct (BigNum.op_gtb _ _)|]; cbn; rewrite Es; cbn; by split.
Qed.

(** ** SetBestChain *)

(** A well linked index, and a database that is that of the best block. *)
Record chain_ok (c : chain) : Prop := {
  ck_links : links_ok (ch_index c);
  ck_files : files_ok (ch_index c);
  ck_genesis : pindexGenesisBlock (ch_index c) <> None;
  ck_best : pindexBest (ch_index c) = Some (hashBestChain c);
  ck_db : db_at (ch_index c) (ch_db c) (hashBestChain c)
}.

Lemma links_ok_same I J : same_blocks I J -> links_ok I -> links_ok J.
Proof.
  intros Hs Hl h n Hn. destruct (same_blocks_lookup J I h n (symmetry Hs) Hn) as (m & Hm & Es). destruct (Hl h m Hm) as (H1 & H2 & H3).
  injection Es as E1 _ _ E4 E5. rewrite E4, E5, E1. split; [done|]. split; [done|]. destruct (pprev m) as [q|].
  - destruct H3 as (nq & Hq & Eh). destruct (same_blocks_lookup I J q nq Hs Hq) as (mq & Hmq & Eq). exists mq. split; [done|].
    injection Eq as _ _ _ _ <-. done.
  - by rewrite <- (proj1 Hs).
Qed.

Lemma links_ok_filed I : links_ok I -> filed I.
Proof. intros H h n Hn. by apply H. Qed.

Lemma links_ok_path I h n : links_ok I -> deref I (Some h) = Some n -> exists l, path I (Some h) (l ++ [hashGenesisBlock I]).
Proof.
  intros Hl Hn. destruct (Hl h n Hn) as (_ & Hh & _). destruct (path_exists I Hl (Z.to_nat (bi_nHeight (entry n))) h n Hn) as (l & Hp & _ & Hlast & _); [lia|].
  destruct (exists_last (path_nonempty _ _ _ Hp)) as (l' & x & ->). rewrite last_snoc in Hlast. injection Hlast as ->. by exists l'.
Qed.

(** What [SetBestChain] leaves when it returns true: [h] is the best block,
    and the database is that of [h] or of a block below it. *)
Record switched (h : Z) (c c' : chain) : Prop := {
  sw_best : hashBestChain c' = h /\ pindexBest (ch_index c') = Some h;
  sw_blocks : same_blocks (ch_index c') (ch_index c);
  sw_db : exists at_ up down, db_at (ch_index c') (ch_db c') at_ /\ path (ch_index c') (Some h) (up ++ down) /\ path (ch_index c') (Some at_) down;
  sw_ok : db_hashBestChain (ch_db c') = Some h -> chain_ok c'
}.

Lemma commit_best_done hash h c dos c' : commit_best hash h c = (Failed dos, c') -> False.
Proof. unfold commit_best. destruct (TxInfo.Commit _); [|done]. by destruct (deref _ _). Qed.

Lemma commit_best_switched hash h c c1 c' at_ up down : chain_ok c -> hash = h ->
  same_blocks (ch_index c1) (ch_index c) -> db_at (ch_index c1) (ch_db c1) at_ ->
  path (ch_index c) (Some h) (up ++ down) -> path (ch_index c) (Some at_) down ->
  commit_best hash h c1 = (Done tt, c') -> switched h c c'.
Proof.
  intros Hok -> Hs Hdb H1 H2. unfold commit_best. destruct (TxInfo.Commit (ch_infos c1)) as [infos|]; [|done].
  destruct (deref (ch_index c1) (Some h)) as [n|]; [|done]. intros [= <-].
  set (J := ch_index (new_best h h n infos c1)). assert (same_blocks J (ch_index c1)) as HJ by (by unfold J).
  assert (same_blocks J (ch_index c)) as HJ2 by (by rewrite HJ).
  assert (db_at J (ch_db c1) at_) as Hdb' by (by apply (db_at_same (ch_index c1))).
  split; [done|done| |].
  - exists at_, up, down. fold J. split; [done|]. by rewrite HJ2.
  - cbn. intros Hb. destruct Hdb' as [Hl Hb']. assert (at_ = h) as -> by (rewrite Hb' in Hb; by injection Hb).
    destruct Hok as [K1 K2 K3 K4 K5]. split; cbn.
    + by apply (links_ok_same (ch_index c)).
    + change (files_ok J). by rewrite HJ2.
    + destruct HJ2 as (_ & E0 & _). cbn in E0. by rewrite E0.
    + done.
    + by split.
Qed.

(** C1: [SetBestChain] and the ledger.  Let the database be that of the best
    block: replaying the blocks from the genesis block to it gives the
    database.  When [SetBestChain] of a stored block returns true, whether
    it extends the chain or reorganizes it, that block is the best block, and
    the database is that of the best block the database names, which is the
    new one or, where a postponed block could not be connected, one below it.
    When it returns false, the database, the best block, the main chain, the
    memory pool and the information entries are as before. *)
Theorem SetBestChain_ledger b h n c r c' :
  chain_ok c -> deref (ch_index c) (Some h) = Some n -> index_ReadFromDisk p d n = Some b -> pprev n = Some (hashPrevBlock b) ->
  distinct (ch_index c) h -> SetBestChain' b h c = (r, c') ->
  match r with
  | Done _ => switched h c c'
  | Failed _ => unchanged c c'
  | Thrown => True
  end.
Proof.
  intros Hok Hn Hb Hprev Hdi. destruct (index_ReadFromDisk_spec n b Hb) as [Hid _]. pose proof (ck_links c Hok) as Hlinks.
  pose proof (links_ok_filed _ Hlinks h n Hn) as Hh. rewrite Hh in Hid. destruct (links_ok_path _ h n Hlinks Hn) as [lh Hph].
  unfold SetBestChain. rewrite Hn, Hid. destruct (TxInfo.BeginTransaction (ch_infos c)) as [infos|] eqn:Eb; [|by intros [= <- <-]].
  cbn [ch_index with_infostore]. rewrite (bool_decide_false (pindexGenesisBlock (ch_index c) = None)) by apply (ck_genesis c Hok). cbn [andb].
  set (c0 := with_infostore infos c). assert (with_index (ch_index c) c = c) as Hwi by (by destruct c).
  assert (same_chain (ch_index c) (ch_index c)) as Href by done.
  assert (TxInfo.InTransaction infos = true) as Hit by (unfold TxInfo.BeginTransaction in Eb; destruct (TxInfo.InTransaction _); [done|]; by injection Eb as <-).
  destruct (Z.eqb_spec (hashPrevBlock b) (hashBestChain c0)) as [Ep|Ep].
  - rewrite Ep in Hprev. cbn in Hprev. destruct (SetBestChainInner' b h c0) as [[[]|dos|] c1] eqn:Ei.
    + destruct (SetBestChainInner_ledger b h n c0 c1 (hashBestChain c) (ck_files c Hok) (ck_db c Hok) Hn Hb Hh Hprev Hdi Ei) as (Hs & Hdb & _ & _).
      intros Ec. destruct r as [[]|dos|]; [|by apply commit_best_done in Ec|done].
      apply (commit_best_switched h h c c1 c' h [] (lh ++ [hashGenesisBlock (ch_index c)])); done.
    + intros [= <- <-]. unfold SetBestChainInner in Ei. change (deref (ch_index c0) (Some h)) with (deref (ch_index c) (Some h)) in Ei. rewrite Hn in Ei.
      destruct (ConnectBlock _ _ _ _ _ _ _ _ _ _ _ _) as [[[db n'] infos']| |]; [rewrite Hprev in Ei; by destruct (remove_all _ _)|injection Ei as _ <-|done].
      unfold c0. set (v := block_infos_left _ _ _ _ _ _ _ _ _ _ _ _). change (with_infostore v (with_infostore infos c)) with (with_infostore v c). rewrite <- Hwi at 2.
      apply (unchanged_rollback c infos); [done| |done]. by apply block_infos_left_snapshot.
    + by intros [= <- <-].
  - destruct (deref (ch_index c) (pindexBest (ch_index c)) ≫= _) as [[hi pp]|] eqn:Em; [|by intros [= <- <-]].
    destruct (deref (ch_index c) (pindexBest (ch_index c))) as [nb|] eqn:Enb; [|done]. cbn [mbind option_bind] in Em.
    destruct (intermediate_split _ _ _ _ _ _ _ Em Hph) as (ri & Eri & Hri). destruct (split_last lh _ pp ri _ eq_refl Eri (path_nonempty _ _ _ Hri)) as (l2 & -> & ->).
    assert (distinct (ch_index c) hi) as Hdhi.
    { intros lx Hlx. pose proof (path_unique _ _ _ _ Hlx Hri) as Ex. apply app_inj_tail in Ex as [-> _]. pose proof (Hdi _ Hph) as Hnd.
      rewrite ids_app in Hnd. by apply NoDup_app in Hnd as (_ & _ & Hnd). }
    destruct (Reorganize' c0 hi) as [[[]|dos|] c1] eqn:Er; [| |by intros [= <- <-]].
    + destruct (Reorganize_ledger c0 hi c1 (hashBestChain c) (ck_files c Hok) (ck_best c Hok) (ck_db c Hok) Hdhi Er) as [Hs Hdb].
      destruct (connect_postponed' (reverse pp) c1) as [[] c2] eqn:Ep2; [|by intros [= <- <-]].
      destruct (connect_postponed_ledger (reverse pp) c1 c2 hi h l2) as (H1 & _ & _ & at_ & u & v & H4 & H5 & H6); try done.
      { rewrite Hs. apply (ck_files c Hok). } { apply (filed_same (ch_index c)); [by symmetry|]. by apply links_ok_filed. }
      { rewrite (proj1 Hs), Hs. done. } { rewrite reverse_involutive, (proj1 Hs), Hs, app_assoc. done. } { rewrite reverse_involutive, Hs. by apply Hdi. }
      rewrite reverse_involutive in H6. intros Ec. destruct r as [[]|dos|]; [|by apply commit_best_done in Ec|done].
      apply (commit_best_switched h h c c2 c' at_ u (v ++ [hashGenesisBlock (ch_index c)])); try done.
      * by rewrite H1.
      * by rewrite app_assoc, <- H6.
      * rewrite (proj1 Hs), Hs in H5. done.
    + intros [= <- <-]. destruct (Reorganize_failed c0 hi dos c1 Er) as (J & -> & HJ). unfold c0 in HJ |- *. cbn in HJ.
      change (with_index J (with_infostore infos c)) with (with_infostore infos (with_index J c)). by apply (unchanged_rollback c infos).
Qed.

End ledger.

(** ** A fork *)

Section witnesses.
#[local] Existing Instance bn_reference.
#[local] Existing Instance toy_digests.
#[local] Existing Instance Tx.demo_abi.
#[local] Existing Instance Sig.demo_ec.

(** Blocks of a coinbase that pays to a key, and are signed with it. *)
Definition demo_key : list Z := replicate 33 2.
Definition demo_coinbase (tag value : Z) : CTransaction :=
  mk_tx TT_NORMAL 100 [mk_txin Tx.outpoint_null [tag; 2] Tx.UINT_MAX []] [mk_txout [] value (33 :: demo_key ++ [Script.OP_CHECKSIG])] 0 Tx.no_mint.
Definition demo_block (prev tag value : Z) : CBlock :=
  let t := demo_coinbase tag value in
  let b sig := mk_block 1 prev (Block.BuildMerkleTree [default 0 (Tx.GetHash t)]) 100 0x1d00ffff tag [t] sig in
  b (demo_key ++ take 1 (le_bytes 32 (Block.GetIDHash (b [])))).

(** The genesis block 7 has the successors A, the best block, and X1; X2 and X3
    follow X1, and the coinbase of X3 takes more than the reward. *)
Definition block_A : CBlock := Eval vm_compute in demo_block 7 1 5000.
Definition block_X1 : CBlock := Eval vm_compute in demo_block 7 2 5000.
Definition hash_A : Z := Eval vm_compute in Block.GetIDHash block_A.
Definition hash_X1 : Z := Eval vm_compute in Block.GetIDHash block_X1.
Definition block_X2 : CBlock := Eval vm_compute in demo_block hash_X1 3 5000.
Definition hash_X2 : Z := Eval vm_compute in Block.GetIDHash block_X2.
Definition block_X3 : CBlock := Eval vm_compute in demo_block hash_X2 4 500000000000.
Definition hash_X3 : Z := Eval vm_compute in Block.GetIDHash block_X3.
Definition tx_A : Z := Eval vm_compute in default 0 (Tx.GetHash (demo_coinbase 1 5000)).

Definition fork_disk : disk :=
  mk_diskfiles ∅ (<[(1, 1) := block_A]> (<[(2, 1) := block_X1]> (<[(2, 2) := block_X2]> (<[(2, 3) := block_X3]> ∅)))).
Definition fork_net : NetParams := mk_params (2 ^ 240) (2 ^ 240) 0 0 250 5400 0.
Definition fork_node (hash trust height file : Z) (prev next : option Z) : node :=
  mk_node (mk_index hash trust height height 0 0 0 0 0 0 0 Tx.outpoint_null 0 0 1 0 100 0x1d00ffff 0) prev next file height.
Definition fork_index : index := mk_blockindex
  (<[7 := fork_node 7 0 0 1 None (Some hash_A)]> (<[hash_A := fork_node hash_A 2 1 1 (Some 7) None]>
   (<[hash_X1 := fork_node hash_X1 1 1 2 (Some 7) None]> (<[hash_X2 := fork_node hash_X2 3 2 2 (Some hash_X1) None]>
    (<[hash_X3 := fork_node hash_X3 4 3 2 (Some hash_X2) None]> ∅))))) (Some hash_A) (Some 7) 7.
Definition fork_chain : chain := mk_chain fork_index hash_A 1 2 0
  (mk_txdb (<[tx_A := mk_txindex (mk_pos 1 1 80) [pos_null]]> ∅) ∅ (Some hash_A)) (mk_store [] 0 None 0) (mk_mempool ∅ ∅ 0)
  (mk_limiter (Work.dbl 0) 0) ∅ ∅.

Definition fork_run (b : CBlock) (h : Z) : outcome unit * chain :=
  SetBestChain false fork_net fork_disk 1000 (fun _ => None) 0 0 15 (fun _ => false) (fun x _ => x) b h fork_chain.

Lemma fork_disk_ok : disk_ok fork_disk.
Proof.
  intros pos b Hb. unfold fork_disk in Hb. cbn [disk_blocks] in Hb.
  repeat (apply lookup_insert_Some in Hb as [[_ <-]|[_ Hb]]; [repeat constructor; vm_compute; discriminate|]). by rewrite lookup_empty in Hb.
Qed.

Lemma fork_path_A : path fork_index (Some hash_A) [hash_A; 7].
Proof. split; [done|]. eexists. split; [vm_compute; reflexivity|]. split; [done|]. eexists. split; [vm_compute; reflexivity|]. done. Qed.

Lemma fork_path_X2 : path fork_index (Some hash_X2) [hash_X2; hash_X1; 7].
Proof.
  split; [done|]. eexists. split; [vm_compute; reflexivity|]. split; [done|]. eexists. split; [vm_compute; reflexivity|].
  split; [done|]. eexists. split; [vm_compute; reflexivity|]. done.
Qed.

Lemma fork_chain_ok : chain_ok fork_net fork_disk fork_chain.
Proof.
  split.
  - apply links_okb_sound. vm_compute. reflexivity.
  - intros h n Hn. cbn [ch_index fork_chain mapBlockIndex fork_index] in Hn.
    repeat (apply lookup_insert_Some in Hn as [[_ <-]|[_ Hn]]; [vm_compute; discriminate|]). by rewrite lookup_empty in Hn.
  - done.
  - done.
  - split; [|done]. exists [hash_A]. split; [exact fork_path_A|]. split.
    + apply (bool_decide_eq_true_1 _). vm_compute. reflexivity.
    + apply (bool_decide_eq_true_1 _). vm_compute. reflexivity.
Qed.

Lemma fork_distinct_X2 : distinct fork_net fork_disk fork_index hash_X2.
Proof.
  intros l Hl. pose proof (path_unique _ _ _ _ Hl fork_path_X2) as El. change [hash_X2; hash_X1; 7] with ([hash_X2; hash_X1] ++ [7]) in El.
  apply app_inj_tail in El as [-> _]. apply (bool_decide_eq_true_1 _). vm_compute. reflexivity.
Qed.

Lemma branches_found_witness : exists lBest lNew f vDisconnect vConnect r, forks_at lBest lNew f vDisconnect vConnect r /\
  branches 0 fork_chain hash_X2 = if bool_decide (0 ∈ vDisconnect) then None else Some (vDisconnect, reverse vConnect).
Proof.
  assert (links_ok (ch_index fork_chain)) as Hl by (apply links_okb_sound; vm_compute; reflexivity).
  assert (is_Some (mapBlockIndex (ch_index fork_chain) !! hash_A)) as HA by (vm_compute; eexists; reflexivity).
  assert (is_Some (mapBlockIndex (ch_index fork_chain) !! hash_X2)) as HX by (vm_compute; eexists; reflexivity).
  destruct (branches_found 0 fork_chain hash_A hash_X2 Hl eq_refl HA HX) as (lf & ll & f & vd & vc & r & _ & _ & H1 & H2).
  exists lf, ll, f, vd, vc, r. split; [exact H1|exact H2].
Defined.

(** The reorganization from A to X2. *)
Lemma SetBestChain_ledger_witness : exists c', fork_run block_X2 hash_X2 = (Done tt, c') /\ switched fork_net fork_disk hash_X2 fork_chain c'.
Proof.
  destruct (fork_run block_X2 hash_X2) as [r c'] eqn:Er.
  assert (r = Done tt) as ->.
  { apply (f_equal fst) in Er. cbn [fst] in Er. rewrite <- Er. vm_compute. reflexivity. }
  exists c'. split; [reflexivity|]. unfold fork_run in Er.
  assert (deref (ch_index fork_chain) (Some hash_X2) = Some (fork_node hash_X2 3 2 2 (Some hash_X1) None)) as Hn by (vm_compute; reflexivity).
  assert (index_ReadFromDisk fork_net fork_disk (fork_node hash_X2 3 2 2 (Some hash_X1) None) = Some block_X2) as Hb by (vm_compute; reflexivity).
  exact (SetBestChain_ledger false fork_net fork_disk fork_disk_ok 1000 (fun _ => None) 0 0 15 (fun _ => false) (fun x _ => x)
    block_X2 hash_X2 _ fork_chain (Done tt) c' fork_chain_ok Hn Hb eq_refl fork_distinct_X2 Er).
Defined.


End witnesses.

End Reorg.
