(* ===== verification/Checkpoints.v ===== *)
(** * Checkpoints (src/src/checkpoints.cpp, src/src/checkpoints.h)

    The hardened checkpoints that are compiled in, and the synchronized
    checkpoint that a master key broadcasts: its globals, the checks made
    against it, and the operations that move it, which make its block the
    best one when it is not in the main chain.  The checkpoint record of the
    database is [db_hashSyncCheckpoint]; writes are taken to succeed.  The
    requests to peers, the relay of messages and the signing with the master
    key are left out. *)

From Stdlib Require Import SpecFloat.
From stdpp Require Import gmap.
From S2P Require Import Prelude Uint256 Bignum Crypto Script Interpreter Serialize Tx TxInfo Base58 Signature Solver Work Block BlockIndex Kernel Ledger ConnectBlock Mempool Chain Util.
Import BlockIndex Ledger Chain.

(** CUnsignedSyncCheckpoint with the signed message. *)
Record CSyncCheckpoint := mk_sync { cp_nVersion : Z; hashCheckpoint : Z; vchMsg : list Z; vchSig : list Z }.

(** The globals of the namespace, and the record of the database. *)
Record checkpoints := mk_checkpoints {
  hashSyncCheckpoint : Z;
  hashPendingCheckpoint : Z;
  checkpointMessage : CSyncCheckpoint;
  checkpointMessagePending : CSyncCheckpoint;
  hashInvalidCheckpoint : Z;
  db_hashSyncCheckpoint : Z
}.

Module Checkpoints.

Definition CHECKPOINT_MAX_SPAN : Z := 60 * 60 * 4.

(** ** Hardened checkpoints *)

(** [std::map<int, uint256>], in the order of its keys. *)
Abbreviation MapCheckpoints := (list (Z * Z)).

Definition InitMapCheckpoints (hashGenesisBlock : Z) : MapCheckpoints :=
  [(0, hashGenesisBlock); (4024, 0xa33be4c6d63d2459ea587a110e21013fef619bfd3cebae1a51839496ab46c883)].

Section hardened.
Context (fTestNet : bool) (mapCheckpoints : MapCheckpoints).

Definition CheckHardened (nHeight hash : Z) : bool :=
  if fTestNet then true
  else
    match List.find (fun i => i.1 =? nHeight) mapCheckpoints with
    | None => true
    | Some i => hash =? i.2
    end.

(** [mapCheckpoints.rbegin()]: the map is not empty. *)
Definition GetTotalBlocksEstimate : Z := if fTestNet then 0 else from_option fst 0 (last mapCheckpoints).

Definition GetLastCheckpoint (I : index) : option Z :=
  if fTestNet then (if bool_decide (is_Some (mapBlockIndex I !! hashGenesisBlock I)) then Some (hashGenesisBlock I) else None)
  else List.find (fun hash => bool_decide (is_Some (mapBlockIndex I !! hash))) (reverse mapCheckpoints.*2).

End hardened.

(** ** The synchronized checkpoint *)

Definition null_sync : CSyncCheckpoint := mk_sync 1 0 [] [].
Definition sync_IsNull (m : CSyncCheckpoint) : bool := hashCheckpoint m =? 0.

Definition set_invalid (hash : Z) (s : checkpoints) : checkpoints :=
  mk_checkpoints (hashSyncCheckpoint s) (hashPendingCheckpoint s) (checkpointMessage s) (checkpointMessagePending s) hash (db_hashSyncCheckpoint s).
Definition set_pending (hash : Z) (m : CSyncCheckpoint) (s : checkpoints) : checkpoints :=
  mk_checkpoints (hashSyncCheckpoint s) hash (checkpointMessage s) m (hashInvalidCheckpoint s) (db_hashSyncCheckpoint s).
Definition set_message (m : CSyncCheckpoint) (s : checkpoints) : checkpoints :=
  mk_checkpoints (hashSyncCheckpoint s) (hashPendingCheckpoint s) m (checkpointMessagePending s) (hashInvalidCheckpoint s) (db_hashSyncCheckpoint s).

(** The record of the database, then the global. *)
Definition WriteSyncCheckpoint (hash : Z) (s : checkpoints) : checkpoints :=
  mk_checkpoints hash (hashPendingCheckpoint s) (checkpointMessage s) (checkpointMessagePending s) (hashInvalidCheckpoint s) hash.

Definition GetLastSyncCheckpoint (I : index) (s : checkpoints) : option Z :=
  if bool_decide (is_Some (mapBlockIndex I !! hashSyncCheckpoint s)) then Some (hashSyncCheckpoint s) else None.

(** [while (pindex->nHeight > nHeight) if (!(pindex = pindex->pprev)) return error] *)
Definition trace_back (I : index) (nHeight h : Z) : option node := h' ← climb_down I (size (mapBlockIndex I)) nHeight h; mapBlockIndex I !! h'.

Definition ValidateSyncCheckpoint (I : index) (hash : Z) (s : checkpoints) : bool * checkpoints :=
  match mapBlockIndex I !! hashSyncCheckpoint s, mapBlockIndex I !! hash with
  | Some pindexSyncCheckpoint, Some pindexCheckpointRecv =>
      if bi_nHeight (entry pindexCheckpointRecv) <=? bi_nHeight (entry pindexSyncCheckpoint) then
        match trace_back I (bi_nHeight (entry pindexCheckpointRecv)) (hashSyncCheckpoint s) with
        | None => (false, s)
        | Some pindex => (false, if GetBlockIDHash pindex =? hash then s else set_invalid hash s)
        end
      else
        match trace_back I (bi_nHeight (entry pindexSyncCheckpoint)) hash with
        | None => (false, s)
        | Some pindex => if GetBlockIDHash pindex =? hashSyncCheckpoint s then (true, s) else (false, set_invalid hash s)
        end
  | _, _ => (false, s)
  end.

(** [CheckSync(hashBlock, pindexPrev)]; [None] is the failed assertion. *)
Definition CheckSync (fTestNet : bool) (I : index) (s : checkpoints) (hashBlock hashPrev : Z) (pindexPrev : node) : option bool :=
  if fTestNet then Some true
  else
    let nHeight := i32 (bi_nHeight (entry pindexPrev) + 1) in
    pindexSync ← mapBlockIndex I !! hashSyncCheckpoint s;
    let nSync := bi_nHeight (entry pindexSync) in
    let descends :=
      match trace_back I nSync hashPrev with
      | None => false
      | Some pindex => negb ((bi_nHeight (entry pindex) <? nSync) || negb (GetBlockIDHash pindex =? hashSyncCheckpoint s))
      end in
    Some (if (nSync <? nHeight) && negb descends then false
          else if (nHeight =? nSync) && negb (hashBlock =? hashSyncCheckpoint s) then false
          else if (nHeight <? nSync) && negb (bool_decide (is_Some (mapBlockIndex I !! hashBlock))) then false
          else true).

(** ** Selecting a checkpoint *)

(** [GetLastBlockIndex(pindex, false)], the pointer. *)
Fixpoint last_work (I : index) (fuel : nat) (h : Z) : option Z :=
  n ← mapBlockIndex I !! h;
  match fuel, pprev n with
  | S fuel, Some q => if Work.bi_IsProofOfStake (entry n) then last_work I fuel q else Some h
  | _, _ => Some h
  end.

(** Forward to a block within the span and the maturity window. *)
Fixpoint select_forward (p : NetParams) (I : index) (fuel : nat) (best : node) (h : Z) : option Z :=
  n ← mapBlockIndex I !! h;
  match fuel, pnext n with
  | S fuel, Some q =>
      if (Work.bi_GetBlockTime (entry n) + CHECKPOINT_MAX_SPAN <=? Work.bi_GetBlockTime (entry best)) ||
         (i32 (bi_nHeight (entry n) + Z.min 6 (nCoinbaseMaturity p - 20)) <=? bi_nHeight (entry best))
      then select_forward p I fuel best q else Some h
  | _, _ => Some h
  end.

Definition AutoSelectSyncCheckpoint (p : NetParams) (I : index) : option Z :=
  h ← pindexBest I; best ← mapBlockIndex I !! h;
  h ← last_work I (size (mapBlockIndex I)) h;
  h ← select_forward p I (size (mapBlockIndex I)) best h;
  GetBlockIDHash <$> mapBlockIndex I !! h.

(** [None] is a failed assertion; [now] is GetAdjustedTime(). *)
Definition IsMatureSyncCheckpoint (p : NetParams) (now nBestHeight : Z) (I : index) (s : checkpoints) : option bool :=
  pindexSync ← mapBlockIndex I !! hashSyncCheckpoint s;
  Some ((i32 (bi_nHeight (entry pindexSync) + nCoinbaseMaturity p) <=? nBestHeight) ||
        (Work.bi_GetBlockTime (entry pindexSync) + nStakeMinAge p <? now)).

Definition IsSyncCheckpointTooOld (now nSeconds : Z) (I : index) (s : checkpoints) : option bool :=
  pindexSync ← mapBlockIndex I !! hashSyncCheckpoint s;
  Some (Work.bi_GetBlockTime (entry pindexSync) + nSeconds <? now).

(** ** Messages *)

(** nVersion and hashCheckpoint. *)
Definition unsigned_codec : Codec (Z * Z) := pair_codec (int_codec 4) uint256_codec.

Definition sync_codec : Codec CSyncCheckpoint :=
  class_codec (pair_codec bytes_codec bytes_codec) (fun p => mk_sync 1 0 p.1 p.2) (fun m => (vchMsg m, vchSig m)).

Definition strMasterPubKey : list Z :=
  str "046e08372d0edc8dff793f6a548ab55de46edb6224d00bee354576c5459c569bc332c7486638cf9f154e661d414c0c6f76da1e0022a5253b079cf5e7378b144fb1".

Section messages.
Context {B : Tx.Abi} {L : BNLib} {D : DigestLib} {E : ECLib} (fTestNet : bool) (p : NetParams).
Context (now : Z) (GetPoWHash : CBlock -> option (list Z)) (nLimitFreeRelay : Z) (IsFromMe : CTransaction -> bool) (pow : spec_float -> spec_float -> spec_float).
Context (mapCheckpoints : MapCheckpoints).

(** The message with what it says; [Thrown] when it cannot be read. *)
Definition CheckSignature (m : CSyncCheckpoint) : outcome CSyncCheckpoint :=
  match Sig.SetPubKey (Util.ParseHex strMasterPubKey) with
  | None => Failed 0
  | Some key =>
      if negb (Sig.Verify key (le_val (Hash (vchMsg m))) (vchSig m)) then Failed 0
      else
        match Unserialize unsigned_codec (vchMsg m) with
        | None => Thrown
        | Some ((nVersion, hash), _) => Done (mk_sync nVersion hash (vchMsg m) (vchSig m))
        end
  end.

(** The block of a checkpoint becomes the best one, unless it is in the main
    chain: [Failed] when it cannot be read or connected. *)
Definition enter_chain (d : disk) (hashSync hash : Z) (c : chain) : outcome unit * chain :=
  match mapBlockIndex (ch_index c) !! hash with
  | None => (Thrown, c)
  | Some n =>
      if IsInMainChain (ch_index c) hash n then (Done tt, c)
      else
        match index_ReadFromDisk p d n with
        | None => (Failed 1, c)
        | Some b =>
            match SetBestChain fTestNet p d now GetPoWHash (GetTotalBlocksEstimate fTestNet mapCheckpoints) hashSync nLimitFreeRelay IsFromMe pow b hash c with
            | (Failed _, c) => (Failed 0, c)
            | r => r
            end
        end
  end.

(** A failed [SetBestChain] marks the checkpoint as invalid, a failed read
    does not. *)
Definition AcceptPendingSyncCheckpoint (d : disk) (c : chain) (s : checkpoints) : outcome unit * chain * checkpoints :=
  let hash := hashPendingCheckpoint s in
  if negb (hash =? 0) && bool_decide (is_Some (mapBlockIndex (ch_index c) !! hash)) then
    match ValidateSyncCheckpoint (ch_index c) hash s with
    | (false, s) => (Failed 0, c, set_pending 0 null_sync s)
    | (true, s) =>
        match enter_chain d (hashSyncCheckpoint s) hash c with
        | (Thrown, c) => (Thrown, c, s)
        | (Failed k, c) => (Failed 0, c, if k =? 0 then set_invalid hash s else s)
        | (Done _, c) =>
            let s := WriteSyncCheckpoint hash s in
            (Done tt, c, set_pending 0 null_sync (set_message (checkpointMessagePending s) s))
        end
    end
  else (Failed 0, c, s).

Definition ProcessSyncCheckpoint (d : disk) (m : CSyncCheckpoint) (c : chain) (s : checkpoints) : outcome unit * chain * checkpoints :=
  match CheckSignature m with
  | Thrown => (Thrown, c, s)
  | Failed _ => (Failed 0, c, s)
  | Done m =>
      let hash := hashCheckpoint m in
      match mapBlockIndex (ch_index c) !! hash with
      | None => (Failed 0, c, set_pending hash m s)
      | Some _ =>
          match ValidateSyncCheckpoint (ch_index c) hash s with
          | (false, s) => (Failed 0, c, s)
          | (true, s) =>
              match enter_chain d (hashSyncCheckpoint s) hash c with
              | (Thrown, c) => (Thrown, c, s)
              | (Failed k, c) => (Failed 0, c, if k =? 0 then set_invalid hash s else s)
              | (Done _, c) => (Done tt, c, set_pending 0 null_sync (set_message m (WriteSyncCheckpoint hash s)))
              end
          end
      end
  end.

(** The last hardened checkpoint of the main chain. *)
Definition last_hardened (I : index) : option Z :=
  List.find (fun hash => match mapBlockIndex I !! hash with Some n => IsInMainChain I hash n | None => false end) (reverse mapCheckpoints.*2).

Definition ResetSyncCheckpoint (d : disk) (c : chain) (s : checkpoints) : outcome unit * chain * checkpoints :=
  let hash := from_option snd 0 (last mapCheckpoints) in
  let reset c s :=
    match last_hardened (ch_index c) with
    | None => (Failed 0, c, s)
    | Some hash => (Done tt, c, WriteSyncCheckpoint hash s)
    end in
  match mapBlockIndex (ch_index c) !! hash with
  | None => reset c (set_pending hash null_sync s)
  | Some _ =>
      match enter_chain d (hashSyncCheckpoint s) hash c with
      | (Thrown, c) => (Thrown, c, s)
      | (Failed _, c) => (Failed 0, c, s)
      | (Done _, c) => reset c s
      end
  end.

End messages.

End Checkpoints.
