(* ===== verification/Accept.v ===== *)
(** * Accepting blocks (src/src/main.cpp)

    [AcceptBlock] and [ProcessBlock] with the orphan blocks that wait for
    their predecessor.  The state of the node puts the components together:
    the chain, the block files, the checkpoints and the orphans.  The orphan
    maps hold the blocks instead of pointers to them: a block does not change
    while it is an orphan.  What is asked of the peer that sent the block is
    returned; the relay of inventory, the log and the signing with the master
    keys are left out. *)

From Stdlib Require Import SpecFloat.
From stdpp Require Import gmap.
From S2P Require Import Prelude Uint256 Bignum Crypto Script Interpreter Serialize Tx TxInfo Base58 Signature Solver Work Block BlockIndex Kernel Ledger ConnectBlock BlockFile Mempool Chain Reorg Util Checkpoints.
Import BlockIndex Ledger Chain Checkpoints.

(** The node. *)
Record node_state := mk_state {
  st_chain : chain;
  st_files : blockfiles;
  st_disk : disk;
  st_sync : checkpoints;
  mapOrphanBlocks : gmap Z CBlock;
  mapOrphanBlocksByPrev : gmap Z (list CBlock);
  setStakeSeenOrphan : gset (COutPoint * Z)
}.

(** What a peer is asked for: blocks up to a hash, or one block. *)
Inductive request := GetBlocks (hashStop : Z) | AskFor (hash : Z).

Module Accept.

Definition with_chain (c : chain) (s : node_state) : node_state :=
  mk_state c (st_files s) (st_disk s) (st_sync s) (mapOrphanBlocks s) (mapOrphanBlocksByPrev s) (setStakeSeenOrphan s).
Definition with_sync (k : checkpoints) (s : node_state) : node_state :=
  mk_state (st_chain s) (st_files s) (st_disk s) k (mapOrphanBlocks s) (mapOrphanBlocksByPrev s) (setStakeSeenOrphan s).
Definition with_files (fs : blockfiles) (d : disk) (s : node_state) : node_state :=
  mk_state (st_chain s) fs d (st_sync s) (mapOrphanBlocks s) (mapOrphanBlocksByPrev s) (setStakeSeenOrphan s).
Definition with_orphans (m : gmap Z CBlock) (mm : gmap Z (list CBlock)) (seen : gset (COutPoint * Z)) (s : node_state) : node_state :=
  mk_state (st_chain s) (st_files s) (st_disk s) (st_sync s) m mm seen.

(** ** Orphan blocks *)

(** The first block of the orphan chain below [b]; [None] if the links turn in
    a circle. *)
Fixpoint orphan_root (m : gmap Z CBlock) (fuel : nat) (b : CBlock) : option CBlock :=
  match m !! hashPrevBlock b with
  | None => Some b
  | Some q =>
      match fuel with
      | O => None
      | S fuel => orphan_root m fuel q
      end
  end.

Section accept.
Context {B : Tx.Abi} {L : BNLib} {D : DigestLib} {E : ECLib} (fTestNet : bool) (p : NetParams).
Context (now : Z) (GetPoWHash : CBlock -> option (list Z)) (nLimitFreeRelay : Z) (IsFromMe : CTransaction -> bool) (pow : spec_float -> spec_float -> spec_float).
Context (mapCheckpoints : MapCheckpoints) (nFreeBytesAvailable : Z) (fInitialDownload : bool).

Definition GetOrphanRoot (m : gmap Z CBlock) (b : CBlock) : option Z := Block.GetIDHash <$> orphan_root m (size m) b.
Definition WantedByOrphan (m : gmap Z CBlock) (b : CBlock) : option Z := hashPrevBlock <$> orphan_root m (size m) b.

Definition WantedByPendingSyncCheckpoint (k : checkpoints) (m : gmap Z CBlock) (hashBlock : Z) : bool :=
  if hashPendingCheckpoint k =? 0 then false
  else if hashBlock =? hashPendingCheckpoint k then true
  else
    match m !! hashPendingCheckpoint k with
    | None => false
    | Some b => bool_decide (WantedByOrphan m b = Some hashBlock)
    end.

Definition AskForPendingSyncCheckpoint (from : bool) (k : checkpoints) (I : index) (m : gmap Z CBlock) : list request :=
  if from && negb (hashPendingCheckpoint k =? 0) && bool_decide (mapBlockIndex I !! hashPendingCheckpoint k = None) &&
     bool_decide (m !! hashPendingCheckpoint k = None)
  then [AskFor (hashPendingCheckpoint k)] else [].

(** ** AcceptBlock *)

(** The rules that need the predecessor: nothing, or a rejection. *)
Definition check_context (b : CBlock) (prev : node) (s : node_state) : outcome unit :=
  let c := st_chain s in
  let I := ch_index c in
  let hash := Block.GetIDHash b in
  let nHeight := i32 (bi_nHeight (entry prev) + 1) in
  match Work.GetNextTargetRequired p (entry prev) (ancestors I (size (mapBlockIndex I)) (pprev prev)) (Block.IsProofOfStake b) with
  | None => Thrown
  | Some bits =>
      if negb (nBits b =? bits) then Failed 100
      else if (Block.GetBlockTime b <=? GetMedianTimePast I (Some (hashPrevBlock b))) ||
              (Block.GetBlockTime b + Work.nMaxClockDrift <? Work.bi_GetBlockTime (entry prev)) then Failed 0
      else if negb (forallb (fun t => Tx.IsFinal (nBestHeight c) now t nHeight (Block.GetBlockTime b)) (vtx b)) then Failed 10
      else if negb (CheckHardened fTestNet mapCheckpoints nHeight hash) then Failed 100
      else
        match CheckSync fTestNet I (st_sync s) hash (hashPrevBlock b) prev with
        | None => Thrown
        | Some false => Failed 0
        | Some true => Done tt
        end
  end.

Definition AcceptBlock (b : CBlock) (s : node_state) : outcome unit * node_state :=
  let c := st_chain s in
  let I := ch_index c in
  let hash := Block.GetIDHash b in
  if bool_decide (is_Some (mapBlockIndex I !! hash)) then (Failed 0, s)
  else
    match mapBlockIndex I !! hashPrevBlock b with
    | None => (Failed 10, s)
    | Some prev =>
        match check_context b prev s with
        | Done _ =>
            match GetSerializeSize Block.block_codec b with
            | None => (Thrown, s)
            | Some nSize =>
                if negb (BlockFile.CheckDiskSpace nFreeBytesAvailable nSize) then (Failed 0, s)
                else
                  match BlockFile.WriteToDisk fTestNet b (st_files s) with
                  | None => (Failed 0, s)
                  | Some (nFile, nBlockPos, fs) =>
                      let d := BlockFile.disk_add nFile nBlockPos b (st_disk s) in
                      match AddToBlockIndex fTestNet p d now GetPoWHash (GetTotalBlocksEstimate fTestNet mapCheckpoints) (hashSyncCheckpoint (st_sync s))
                              nLimitFreeRelay IsFromMe pow b nFile nBlockPos c with
                      | (Done _, c) =>
                          match AcceptPendingSyncCheckpoint fTestNet p now GetPoWHash nLimitFreeRelay IsFromMe pow mapCheckpoints d c (st_sync s) with
                          | (Thrown, c, k) => (Thrown, with_sync k (with_chain c (with_files fs d s)))
                          | (_, c, k) => (Done tt, with_sync k (with_chain c (with_files fs d s)))
                          end
                      | (r, c) => (r, with_chain c (with_files fs d s))
                      end
                  end
            end
        | r => (r, s)
        end
    end.

(** ** ProcessBlock *)

(** [mapOrphanBlocks.erase; setStakeSeenOrphan.erase] *)
Definition erase_orphan (b : CBlock) (s : node_state) : node_state :=
  with_orphans (delete (Block.GetIDHash b) (mapOrphanBlocks s)) (mapOrphanBlocksByPrev s)
    (setStakeSeenOrphan s ∖ {[ Block.GetProofOfStake b ]}) s.

(** The orphans that waited for one block; those that are accepted join the
    queue. *)
Fixpoint accept_orphans (l : list CBlock) (s : node_state) : outcome (list Z) * node_state :=
  match l with
  | [] => (Done [], s)
  | b :: l =>
      match AcceptBlock b s with
      | (Thrown, s) => (Thrown, s)
      | (r, s) =>
          match accept_orphans l (erase_orphan b s) with
          | (Done q, s) => (Done (match r with Done _ => Block.GetIDHash b :: q | _ => q end), s)
          | r => r
          end
      end
  end.

(** The loop over vWorkQueue: [queue] is the part from index i on.  The result
    is the part of the queue that was worked off. *)
Fixpoint work_queue (fuel : nat) (queue : list Z) (s : node_state) : outcome (list Z) * node_state :=
  match queue with
  | [] => (Done [], s)
  | hashPrev :: queue =>
      match fuel with
      | O => (Failed 0, s)
      | S fuel =>
          match accept_orphans (default [] (mapOrphanBlocksByPrev s !! hashPrev)) s with
          | (Done q, s) =>
              match work_queue fuel (queue ++ q) (with_orphans (mapOrphanBlocks s) (delete hashPrev (mapOrphanBlocksByPrev s)) (setStakeSeenOrphan s) s) with
              | (Done l, s) => (Done (hashPrev :: l), s)
              | r => r
              end
          | r => r
          end
      end
  end.

(** The number of blocks that wait. *)
Definition waiting (s : node_state) : nat := map_fold (fun _ l n => (length l + n)%nat) 0%nat (mapOrphanBlocksByPrev s).

Definition add_orphan (hash : Z) (b : CBlock) (s : node_state) : node_state :=
  with_orphans (<[hash := b]> (mapOrphanBlocks s))
    (<[hashPrevBlock b := default [] (mapOrphanBlocksByPrev s !! hashPrevBlock b) ++ [b]]> (mapOrphanBlocksByPrev s))
    (if Block.IsProofOfStake b then {[ Block.GetProofOfStake b ]} ∪ setStakeSeenOrphan s else setStakeSeenOrphan s) s.

(** "Duplicate stake allowed only when there is orphan child block" *)
Definition duplicate_stake (seen : gset (COutPoint * Z)) (hash : Z) (b : CBlock) (s : node_state) : bool :=
  Block.IsProofOfStake b && bool_decide (Block.GetProofOfStake b ∈ seen) && bool_decide (mapOrphanBlocksByPrev s !! hash = None) &&
  negb (WantedByPendingSyncCheckpoint (st_sync s) (mapOrphanBlocks s) hash).

Definition note_stake (hash hashProof : Z) (s : node_state) : node_state :=
  let c := st_chain s in
  if bool_decide (is_Some (mapProofOfStake c !! hash)) then s
  else with_chain (mk_chain (ch_index c) (hashBestChain c) (nBestHeight c) (bnBestChainTrust c) (bnBestInvalidTrust c) (ch_db c) (ch_infos c) (ch_pool c)
         (ch_limiter c) (setStakeSeen c) (<[hash := hashProof]> (mapProofOfStake c))) s.

(** The proof of stake, if it is one. *)
Definition check_stake (hash : Z) (b : CBlock) (s : node_state) : outcome node_state :=
  if Block.IsProofOfStake b then
    match vtx b !! 1%nat with
    | None => Thrown
    | Some t =>
        match CheckProofOfStake fTestNet p (ch_db (st_chain s)) (st_disk s) (ch_index (st_chain s)) t (nBits b) with
        | Thrown => Thrown
        | Failed _ => Failed 0
        | Done hashProof => Done (note_stake hash hashProof s)
        end
    end
  else Done s.

(** What is asked when the predecessor is missing. *)
Definition ask_missing (from : bool) (b : CBlock) (m : gmap Z CBlock) : list request :=
  if from then
    match GetOrphanRoot m b, WantedByOrphan m b with
    | Some root, Some wanted => GetBlocks root :: if fInitialDownload then [] else [AskFor wanted]
    | _, _ => []
    end
  else [].

Definition ProcessBlock (from : bool) (b : CBlock) (s : node_state) : outcome unit * node_state * list request :=
  let hash := Block.GetIDHash b in
  let I := ch_index (st_chain s) in
  let CheckBlock f := Block.CheckBlock fTestNet (hashGenesisBlock I) now GetPoWHash f b in
  if bool_decide (is_Some (mapBlockIndex I !! hash)) then (Failed 0, s, [])
  else if bool_decide (is_Some (mapOrphanBlocks s !! hash)) then (Failed 0, s, [])
  else if duplicate_stake (setStakeSeen (st_chain s)) hash b s then (Failed 0, s, [])
  else
    match CheckBlock false with
    | Tx.CheckThrown => (Thrown, s, [])
    | Tx.CheckFailed dos => (Failed dos, s, [])
    | Tx.CheckOk =>
        match check_stake hash b s with
        | Thrown => (Thrown, s, [])
        | Failed dos => (Failed dos, s, [])
        | Done s =>
            let asked := if fInitialDownload then [] else AskForPendingSyncCheckpoint from (st_sync s) I (mapOrphanBlocks s) in
            match CheckBlock true with
            | Tx.CheckThrown => (Thrown, s, asked)
            | Tx.CheckFailed dos => (Failed dos, s, asked)
            | Tx.CheckOk =>
                if bool_decide (mapBlockIndex I !! hashPrevBlock b = None) then
                  if duplicate_stake (setStakeSeenOrphan s) hash b s then (Failed 0, s, asked)
                  else
                    let s := add_orphan hash b s in
                    (Done tt, s, asked ++ ask_missing from b (mapOrphanBlocks s))
                else
                  match AcceptBlock b s with
                  | (Done _, s) =>
                      match work_queue (S (waiting s)) [hash] s with
                      | (Done _, s) => (Done tt, s, asked)
                      | (Failed dos, s) => (Failed dos, s, asked)
                      | (Thrown, s) => (Thrown, s, asked)
                      end
                  | (r, s) => (r, s, asked)
                  end
            end
        end
    end.

(** ** The orphan maps *)

(** An orphan is found under its hash and among those that wait for its
    predecessor, and nothing else is there. *)
Record orphans_ok (s : node_state) : Prop := {
  oo_hash : forall h b, mapOrphanBlocks s !! h = Some b -> Block.GetIDHash b = h /\ exists l, mapOrphanBlocksByPrev s !! hashPrevBlock b = Some l /\ b ∈ l;
  oo_prev : forall q l, mapOrphanBlocksByPrev s !! q = Some l -> l <> [] /\
    forall b, b ∈ l -> hashPrevBlock b = q /\ mapOrphanBlocks s !! Block.GetIDHash b = Some b
}.

(** The same orphans. *)
Definition same_orphans (s s' : node_state) : Prop :=
  mapOrphanBlocks s' = mapOrphanBlocks s /\ mapOrphanBlocksByPrev s' = mapOrphanBlocksByPrev s /\ setStakeSeenOrphan s' = setStakeSeenOrphan s.

Lemma AcceptBlock_orphans b s r s' : AcceptBlock b s = (r, s') -> same_orphans s s'.
Proof.
  unfold AcceptBlock. destruct (bool_decide _); [by intros [= _ <-]|]. destruct (mapBlockIndex _ !! hashPrevBlock b) as [prev|]; [|by intros [= _ <-]].
  destruct (check_context b prev s); [|by intros [= _ <-]..]. destruct (GetSerializeSize _ b) as [k|]; [|by intros [= _ <-]].
  destruct (negb _); [by intros [= _ <-]|]. destruct (BlockFile.WriteToDisk _ _ _) as [[[f q] fs]|]; [|by intros [= _ <-]].
  destruct (AddToBlockIndex _ _ _ _ _ _ _ _ _ _ _ _ _ _) as [[|dos|] c]; [|by intros [= _ <-]..].
  by destruct (AcceptPendingSyncCheckpoint _ _ _ _ _ _ _ _ _ _ _) as [[[|dos|] c'] k']; intros [= _ <-].
Qed.

Lemma note_stake_orphans hash hp s : same_orphans s (note_stake hash hp s).
Proof. unfold note_stake. by destruct (bool_decide _). Qed.

Lemma orphans_ok_same s s' : same_orphans s s' -> orphans_ok s -> orphans_ok s'.
Proof. intros (E1 & E2 & _) [H1 H2]. split; by rewrite E1, E2. Qed.

(** The blocks that waited are taken out of the map of orphans. *)
Lemma accept_orphans_spec l : forall s q s', accept_orphans l s = (Done q, s') ->
  mapOrphanBlocksByPrev s' = mapOrphanBlocksByPrev s /\ (length q <= length l)%nat /\
  forall h, mapOrphanBlocks s' !! h = if bool_decide (h ∈ Block.GetIDHash <$> l) then None else mapOrphanBlocks s !! h.
Proof.
  induction l as [|b l IH]; intros s q s' E0; cbn [accept_orphans] in E0; [by injection E0 as <- <-|].
  destruct (AcceptBlock b s) as [r s1] eqn:Ea. destruct (AcceptBlock_orphans b s r s1 Ea) as (A1 & A2 & _).
  assert (r <> Thrown) as Hr by (by intros ->).
  destruct (accept_orphans l (erase_orphan b s1)) as [[q1|dos|] s2] eqn:E1; try (by destruct r). destruct (IH _ _ _ E1) as (H1 & H2 & H3).
  assert (s' = s2 /\ (length q <= S (length q1))%nat) as [-> Hq] by (destruct r; [injection E0 as <- <-..|done]; cbn; split; [done|lia|done|lia]).
  split; [by rewrite H1; cbn|]. split; [cbn; lia|]. intros h. rewrite H3. cbn. rewrite A1.
  destruct (decide (h = Block.GetIDHash b)) as [->|Hne].
  - rewrite lookup_delete_eq. rewrite (bool_decide_true (_ ∈ _ :: _)) by (by left). by destruct (bool_decide _).
  - rewrite lookup_delete_ne by done. by rewrite (bool_decide_ext (h ∈ Block.GetIDHash b :: _) (h ∈ Block.GetIDHash <$> l)) by (rewrite elem_of_cons; split; [by intros [?|?]|by right]).
Qed.

Lemma accept_orphans_total l : forall s r s', accept_orphans l s = (r, s') -> match r with Failed _ => False | _ => True end.
Proof.
  induction l as [|b l IH]; intros s r s' E0; cbn [accept_orphans] in E0; [by injection E0 as <- <-|].
  destruct (AcceptBlock b s) as [ra s1]. destruct (accept_orphans l (erase_orphan b s1)) as [r1 s2] eqn:E1. specialize (IH _ _ _ E1).
  destruct ra, r1; try done; by injection E0 as <- _.
Qed.

(** A round of the queue keeps the maps consistent. *)
Lemma round_ok hashPrev s q s1 : orphans_ok s -> accept_orphans (default [] (mapOrphanBlocksByPrev s !! hashPrev)) s = (Done q, s1) ->
  orphans_ok (with_orphans (mapOrphanBlocks s1) (delete hashPrev (mapOrphanBlocksByPrev s1)) (setStakeSeenOrphan s1) s1).
Proof.
  intros [H1 H2] E0. apply accept_orphans_spec in E0 as (E1 & _ & E2). split; cbn; rewrite ?E1.
  - intros h b Hb. rewrite E2 in Hb. case_bool_decide as Hin; [done|]. destruct (H1 h b Hb) as (Hh & l & Hl & Hbl). split; [done|]. exists l. split; [|done].
    apply lookup_delete_Some. split; [|done]. intros ->. apply Hin. rewrite Hl. cbn. rewrite <- Hh. by apply list_elem_of_fmap_2.
  - intros x l [Hne Hl]%lookup_delete_Some. destruct (H2 x l Hl) as [Hnil Hall]. split; [done|]. intros b Hb. destruct (Hall b Hb) as [Hx Hm]. split; [done|].
    rewrite E2. case_bool_decide as Hin; [|done]. destruct (mapOrphanBlocksByPrev s !! hashPrev) as [l0|] eqn:El0; cbn in Hin; [|by apply elem_of_nil in Hin].
    apply list_elem_of_fmap in Hin as (b0 & Eb0 & Hb0). destruct (H2 hashPrev l0 El0) as [_ Hall0]. destruct (Hall0 b0 Hb0) as [Hx0 Hm0].
    rewrite <- Eb0, Hm in Hm0. injection Hm0 as ->. congruence.
Qed.

Lemma waiting_delete s s1 hashPrev : mapOrphanBlocksByPrev s1 = mapOrphanBlocksByPrev s ->
  (waiting (with_orphans (mapOrphanBlocks s1) (delete hashPrev (mapOrphanBlocksByPrev s1)) (setStakeSeenOrphan s1) s1) +
   length (default [] (mapOrphanBlocksByPrev s !! hashPrev)) = waiting s)%nat.
Proof.
  intros E1. unfold waiting. cbn. rewrite E1. destruct (mapOrphanBlocksByPrev s !! hashPrev) as [l|] eqn:El; cbn; [|rewrite delete_id by done; lia].
  rewrite (map_fold_delete_L _ _ hashPrev l (mapOrphanBlocksByPrev s)); [lia|intros; lia|done].
Qed.

(** The queue is worked off: one round per block that was accepted is enough,
    and no block waits for one of them afterwards. *)
Lemma work_queue_spec fuel : forall queue s r s', (length queue + waiting s <= fuel)%nat -> orphans_ok s -> work_queue fuel queue s = (r, s') ->
  match r with
  | Done l => orphans_ok s' /\ (forall h, h ∈ queue -> h ∈ l) /\ (forall h, h ∈ l -> mapOrphanBlocksByPrev s' !! h = None) /\
      mapOrphanBlocks s' ⊆ mapOrphanBlocks s /\ mapOrphanBlocksByPrev s' ⊆ mapOrphanBlocksByPrev s
  | Failed _ => False
  | Thrown => True
  end.
Proof.
  induction fuel as [|fuel IH]; intros [|hashPrev queue] s r s' Hf Hok E0; cbn [work_queue] in E0; cbn [length] in Hf; try lia.
  1-2: injection E0 as <- <-; split_and!; [done|done|by intros h ?%elem_of_nil|done|done].
  destruct (accept_orphans _ s) as [[q|dos|] s1] eqn:Ea; [|by apply accept_orphans_total in Ea|by injection E0 as <- <-].
  pose proof (round_ok hashPrev s q s1 Hok Ea) as Hok1. destruct (accept_orphans_spec _ _ _ _ Ea) as (A1 & A2 & A3).
  pose proof (waiting_delete s s1 hashPrev A1) as Hw. set (s2 := with_orphans _ _ _ s1) in *.
  destruct (work_queue fuel (queue ++ q) s2) as [r1 s3] eqn:Ew. specialize (IH (queue ++ q) s2 r1 s3 ltac:(rewrite length_app; lia) Hok1 Ew).
  destruct r1 as [l|dos|]; [|done|by injection E0 as <- <-]. injection E0 as <- <-. destruct IH as (I1 & I2 & I3 & I4 & I5). split; [done|].
  split; [|split; [|split]].
  - intros h [->|Hh]%elem_of_cons; [by left|]. right. apply I2, elem_of_app. by left.
  - intros h [->|Hh]%elem_of_cons; [|by apply I3]. apply eq_None_not_Some. intros [x Hx]. eapply lookup_weaken in Hx; [|done]. cbn in Hx. by rewrite lookup_delete_eq in Hx.
  - etrans; [done|]. cbn. apply map_subseteq_spec. intros h b Hb. rewrite A3 in Hb. by destruct (bool_decide _).
  - etrans; [done|]. cbn. rewrite A1. apply delete_subseteq.
Qed.

Lemma add_orphan_ok hash b s : orphans_ok s -> hash = Block.GetIDHash b -> mapOrphanBlocks s !! hash = None -> orphans_ok (add_orphan hash b s).
Proof.
  intros [H1 H2] -> Hnone. split; cbn.
  - intros h x [[<- <-]|[Hne Hx]]%lookup_insert_Some.
    + split; [done|]. eexists. rewrite lookup_insert_eq. split; [done|]. apply elem_of_app. right. by left.
    + destruct (H1 h x Hx) as (Hh & l & Hl & Hin). split; [done|]. destruct (decide (hashPrevBlock b = hashPrevBlock x)) as [->|Hp].
      * eexists. rewrite lookup_insert_eq. split; [done|]. rewrite Hl. cbn. apply elem_of_app. by left.
      * exists l. by rewrite lookup_insert_ne.
  - intros q l Hl. assert (forall x, mapOrphanBlocks s !! Block.GetIDHash x = Some x -> <[Block.GetIDHash b := b]> (mapOrphanBlocks s) !! Block.GetIDHash x = Some x) as Hkeep.
    { intros x Hx. rewrite lookup_insert_ne; [done|]. intros E0. congruence. }
    apply lookup_insert_Some in Hl as [[<- <-]|[_ Hl]].
    + split; [by destruct (default _ _)|]. intros x [Hx|Hx]%elem_of_app.
      * destruct (mapOrphanBlocksByPrev s !! hashPrevBlock b) as [l|] eqn:El; cbn in Hx; [|by apply elem_of_nil in Hx]. destruct (H2 _ _ El) as [_ Hall].
        destruct (Hall x Hx) as [Hp Hm]. split; [done|]. by apply Hkeep.
      * apply list_elem_of_singleton in Hx as ->. split; [done|]. by rewrite lookup_insert_eq.
    + destruct (H2 q l Hl) as [Hn Hall]. split; [done|]. intros x Hx. destruct (Hall x Hx) as [Hp Hm]. split; [done|]. by apply Hkeep.
Qed.

Lemma check_stake_orphans hash b s s' : check_stake hash b s = Done s' -> same_orphans s s'.
Proof.
  unfold check_stake. destruct (Block.IsProofOfStake b); [|by intros [= <-]]. destruct (vtx b !! 1%nat) as [t|]; [|done].
  destruct (CheckProofOfStake _ _ _ _ _ _ _); [|done..]. intros [= <-]. apply note_stake_orphans.
Qed.


End accept.

(** ** A chain of two blocks that arrive in the wrong order *)

Section witnesses.
#[local] Existing Instance bn_reference.
#[local] Existing Instance toy_digests.
#[local] Existing Instance Tx.demo_abi.
#[local] Existing Instance Sig.demo_ec.

Definition demo_net : NetParams := Eval vm_compute in Work.net_params false.
Definition demo_bits : Z := Eval vm_compute in BigNum.GetCompact (bnOldProofOfWorkLimit demo_net).
Definition next_block (prev tag time : Z) : CBlock :=
  let t := mk_tx TT_NORMAL time [mk_txin Tx.outpoint_null [tag; 2] Tx.UINT_MAX []] [mk_txout [] 5000 (33 :: Reorg.demo_key ++ [Script.OP_CHECKSIG])] 0 Tx.no_mint in
  let b sig := mk_block 1 prev (Block.BuildMerkleTree [default 0 (Tx.GetHash t)]) time demo_bits tag [t] sig in
  b (Reorg.demo_key ++ take 1 (le_bytes 32 (Block.GetIDHash (b [])))).

Definition block_Y1 : CBlock := Eval vm_compute in next_block 7 1 200.
Definition hash_Y1 : Z := Eval vm_compute in Block.GetIDHash block_Y1.
Definition block_Y2 : CBlock := Eval vm_compute in next_block hash_Y1 2 300.
Definition hash_Y2 : Z := Eval vm_compute in Block.GetIDHash block_Y2.
Definition demo_genesis : node :=
  mk_node (mk_index 7 1 0 0 0 0 0 0 Work.BLOCK_STAKE_MODIFIER 0 0 Tx.outpoint_null 0 0 1 0 100 demo_bits 0) None None 1 8.
Definition demo_index : index := mk_blockindex {[ 7 := demo_genesis ]} (Some 7) (Some 7) 7.
Definition demo_state : node_state := mk_state
  (mk_chain demo_index 7 0 1 0 (mk_txdb ∅ ∅ (Some 7)) (mk_store [] 0 None 0) (mk_mempool ∅ ∅ 0) (mk_limiter (Work.dbl 0) 0) ∅ ∅)
  (mk_blockfiles ∅ 1) (mk_diskfiles ∅ ∅) (mk_checkpoints 7 0 null_sync null_sync 0 7) ∅ ∅ ∅.
Definition demo_receive (b : CBlock) (s : node_state) : outcome unit * node_state * list request :=
  ProcessBlock false demo_net 1000 (fun _ => Some (replicate 8 0)) 15 (fun _ => false) (fun x _ => x) [(0, 7)] (10 ^ 9) false true b s.


End witnesses.

End Accept.
