(* ===== verification/Miner.v ===== *)
(** * Making blocks (src/src/main.cpp)

    [CreateNewBlock] fills a new block with the transactions of the memory
    pool, in the order of their priority and after those they depend on;
    [IncrementExtraNonce] changes its coinbase, [FormatHashBuffers] lays its
    header out for hashing, and [CheckWork] hands a solved block to
    ProcessBlock.  The clock shows [nNow] throughout a call.  The threads that
    try the nonces are left out. *)

From Stdlib Require Import SpecFloat.
From stdpp Require Import gmap.
From S2P Require Import Prelude Containers Uint256 Bignum Crypto Script Interpreter Serialize Tx TxInfo Coins Base58 Signature Key Solver KeyStore Work Block BlockIndex Kernel Ledger Wallet KeyPool WalletOps CoinSelect ConnectBlock BlockFile Mempool Spend Stake Commit Chain Reorg Util Checkpoints Accept.
Import BlockIndex Ledger CoinSelect Chain Checkpoints Accept.

(** A transaction that waits for others of the pool. *)
Record COrphan := mk_waiting { ptx : CTransaction; setDependsOn : gset Z; dPriority : spec_float }.

(** The transactions that may enter the block: those that wait, who waits for a
    hash (as places in vOrphan), and the queue by falling priority. *)
Record candidates := mk_candidates {
  vOrphan : list COrphan;
  mapDependers : gmap Z (list nat);
  mapPriority : list (spec_float * CTransaction)
}.

(** What changes while transactions are collected. *)
Record collecting := mk_collecting {
  mapTestPool : gmap Z CTxIndex;
  cl_infos : CTxInfoStore;
  nBlockSize : Z;
  nBlockTx : Z;
  nBlockSigOps : Z;
  cl_vtx : list CTransaction;
  cl_fees : Z
}.

(** The globals and static variables of the miner; the last search time is set
    by the first call. *)
Record miner := mk_miner {
  nLastBlockTx : Z;
  nLastBlockSize : Z;
  nLastCoinStakeSearchInterval : Z;
  nLastCoinStakeSearchTime : option Z
}.

Module Miner.

(** ** The queue

    A std::multimap by priority: an entry comes after those with an equal key. *)
Fixpoint queue_insert (key : spec_float) (t : CTransaction) (q : list (spec_float * CTransaction)) : list (spec_float * CTransaction) :=
  match q with
  | [] => [(key, t)]
  | x :: r => if SFltb key x.1 then (key, t) :: q else x :: queue_insert key t r
  end.

(** The loop over [mapDependers[hash]]. *)
Fixpoint release (hash : Z) (l : list nat) (waiting : list COrphan) (q : list (spec_float * CTransaction))
    : list COrphan * list (spec_float * CTransaction) :=
  match l with
  | [] => (waiting, q)
  | i :: l =>
      match waiting !! i with
      | None => release hash l waiting q
      | Some o =>
          if bool_decide (setDependsOn o = ∅) then release hash l waiting q
          else
            let deps := setDependsOn o ∖ {[ hash ]} in
            release hash l (<[i := mk_waiting (ptx o) deps (dPriority o)]> waiting)
              (if bool_decide (deps = ∅) then queue_insert (SFopp (dPriority o)) (ptx o) q else q)
      end
  end.

Definition release_all (hash : Z) (c : candidates) : candidates :=
  match mapDependers c !! hash with
  | None => c
  | Some l => let '(waiting, q) := release hash l (vOrphan c) (mapPriority c) in mk_candidates waiting (mapDependers c) q
  end.

Definition is_stake (l : list CTransaction) : bool := match l with _ :: t :: _ => Tx.IsCoinStake t | _ => false end.

Section miner.
Context {B : Tx.Abi} {L : BNLib} {D : DigestLib} {E : ECLib} (fTestNet : bool) (p : NetParams) (nNow : Z).

Section collect.
Context (db : CTxDB) (d : disk) (I : index) (nBest : Z) (fBelowCheckpoint : bool).

(** ** Priorities *)

(** [CTxIndex::GetDepthInMainChain] *)
Definition txindex_GetDepthInMainChain (txindex : CTxIndex) : Z :=
  match block_ReadFromDisk p d (pos_nFile (txi_pos txindex)) (pos_nBlockPos (txi_pos txindex)) false with
  | None => 0
  | Some block =>
      let hash := Block.GetIDHash block in
      match mapBlockIndex I !! hash with
      | None => 0
      | Some n => if IsInMainChain I hash n then i32 (i32 (1 + nBest) - bi_nHeight (entry n)) else 0
      end
  end.

(** The loop over the inputs: the hashes the transaction waits for, if it is an
    orphan, with its place [k] filed under them, and the sum of the values times
    their depths. *)
Fixpoint input_priority (k : nat) (l : list CTxIn) (orphan : option (gset Z)) (deps : gmap Z (list nat)) (pri : spec_float)
    : option (gset Z) * gmap Z (list nat) * spec_float :=
  match l with
  | [] => (orphan, deps, pri)
  | i :: l =>
      match prev_ReadFromDisk db d (prevout i) with
      | None =>
          let h := prevhash (prevout i) in
          input_priority k l (Some ({[ h ]} ∪ default ∅ orphan)) (<[h := default [] (deps !! h) ++ [k]]> deps) pri
      | Some (txPrev, txindex) =>
          let nValueIn := from_option nValue 0 (vout txPrev !! Z.to_nat (out_n (prevout i))) in
          let nConf := txindex_GetDepthInMainChain txindex in
          input_priority k l orphan deps (Work.dadd pri (Work.dmul (Work.dbl nValueIn) (Work.dbl nConf)))
      end
  end.

(** One transaction of the pool. *)
Definition add_candidate (t : CTransaction) (c : candidates) : option candidates :=
  if Tx.IsCoinBase t || Tx.IsCoinStake t || negb (Tx.IsFinal nBest nNow t 0 0) then Some c
  else
    let '(orphan, deps, pri) := input_priority (length (vOrphan c)) (vin t) None (mapDependers c) (Work.dbl 0) in
    nSize ← GetSerializeSize Tx.tx_codec t;
    let pri := Work.ddiv pri (Work.dbl nSize) in
    Some (match orphan with
          | Some s => mk_candidates (vOrphan c ++ [mk_waiting t s pri]) deps (mapPriority c)
          | None => mk_candidates (vOrphan c) deps (queue_insert (SFopp pri) t (mapPriority c))
          end).

(** The loop over the pool, in the order of the hashes. *)
Definition find_candidates (pool : gmap Z CTransaction) : option candidates :=
  foldl (fun acc x => c ← acc; add_candidate x.2 c) (Some (mk_candidates [] ∅ [])) (in_order Z.leb pool).

(** ** Collecting *)

(** What happens to the transaction at the head of the queue. *)
Inductive verdict := Skipped | BadInfos | Added (c : collecting).

(** The tests that need no input. *)
Definition unfit (t : CTransaction) (nTxSize : Z) (c : collecting) : bool :=
  (MAX_BLOCK_SIZE_GEN <=? u64 (nBlockSize c + nTxSize)) ||
  (MAX_BLOCK_SIGOPS <=? u32 (nBlockSigOps c + Tx.GetLegacySigOpCount t)) ||
  (nNow <? nTime t) || (is_stake (cl_vtx c) && (from_option nTime 0 (cl_vtx c !! 1%nat) <? nTime t)).

Definition collect_tx (pool : gmap Z CTransaction) (t : CTransaction) (c : collecting) : option verdict :=
  nTxSize ← GetSerializeSize Tx.tx_codec t;
  if unfit t nTxSize c then Some Skipped
  else
    nMinFee ← Tx.GetMinFee t (u32 (nBlockSize c)) Tx.GMF_BLOCK;
    match FetchInputs db d pool (mapTestPool c) false true t ∅ with
    | FetchFailed _ => Some Skipped
    | Fetched mapInputs =>
        nIn ← GetValueIn t mapInputs;
        nOut ← Tx.GetValueOut t;
        let nTxFees := i64 (nIn - nOut) in
        if nTxFees <? nMinFee then Some Skipped
        else
          nP2SH ← GetP2SHSigOpCount t mapInputs;
          let nTxSigOps := u32 (Tx.GetLegacySigOpCount t + nP2SH) in
          if MAX_BLOCK_SIGOPS <=? u32 (nBlockSigOps c + nTxSigOps) then Some Skipped
          else
            match ConnectInputs p db d I fBelowCheckpoint t mapInputs (mapTestPool c) pos_mempool (pindexBest I) false true with
            | Thrown => None
            | Failed _ => Some Skipped
            | Done q =>
                '(ok, infos) ← Connect.ProcessTxInfos fTestNet db d 0 (-1) t (cl_infos c);
                if negb ok then Some BadInfos
                else
                  hash ← Tx.GetHash t;
                  Some (Added (mk_collecting (<[hash := new_txindex pos_mempool (length (vout t))]> q) infos
                    (u64 (nBlockSize c + nTxSize)) (u64 (nBlockTx c + 1)) (i32 (nBlockSigOps c + nTxSigOps))
                    (cl_vtx c ++ [t]) (i64 (cl_fees c + nTxFees))))
            end
    end.

(** The loop over the queue: what was collected, and the transaction whose
    information entries failed.  The outer [None]: out of fuel. *)
Fixpoint collect_loop (fuel : nat) (pool : gmap Z CTransaction) (q : candidates) (c : collecting) : option (option (collecting * option CTransaction)) :=
  match mapPriority q with
  | [] => Some (Some (c, None))
  | x :: r =>
      match fuel with
      | O => None
      | S fuel =>
          let q := mk_candidates (vOrphan q) (mapDependers q) r in
          match collect_tx pool x.2 c with
          | None => Some None
          | Some Skipped => collect_loop fuel pool q c
          | Some BadInfos => Some (Some (c, Some x.2))
          | Some (Added c) =>
              match Tx.GetHash x.2 with
              | None => Some None
              | Some hash => collect_loop fuel pool (release_all hash q) c
              end
          end
      end
  end.

(** One attempt, in a view of the information entries. *)
Definition attempt (vtx : list CTransaction) (nFees : Z) (pool : gmap Z CTransaction) (infos : CTxInfoStore)
    : option (collecting * option CTransaction * CTxInfoStore) :=
  view ← TxInfo.BeginTransaction infos;
  q ← find_candidates pool;
  '(c, bad) ← default None (collect_loop (size pool) pool q (mk_collecting ∅ view 1000 0 100 vtx nFees));
  infos ← TxInfo.Rollback (cl_infos c);
  Some (c, bad, infos).

(** The attempts: after one whose information entries failed the transaction is
    taken out of the pool, and the transactions and the fees collected so far
    stay.  The outer [None]: out of fuel. *)
Fixpoint attempts (n : nat) (vtx : list CTransaction) (nFees : Z) (m : CTxMemPool) (infos : CTxInfoStore)
    : option (option (collecting * CTxMemPool * CTxInfoStore)) :=
  match n with
  | O => None
  | S n =>
      match attempt vtx nFees (mapTx m) infos with
      | None => Some None
      | Some (c, None, infos) => Some (Some (c, m, infos))
      | Some (c, Some t, infos) =>
          match Mempool.remove t m with
          | None => Some None
          | Some m => attempts n (cl_vtx c) (cl_fees c) m infos
          end
      end
  end.

End collect.

(** ** CreateNewBlock *)

(** [CTransaction()] *)
Definition new_tx : CTransaction := mk_tx TT_NORMAL (u32 nNow) [] [] 0 Tx.no_mint.

(** The coinbase before its value is known. *)
Definition coinbase_tx (vchPubKey : list Z) : CTransaction :=
  Sig.set_vout (Sig.set_vin new_tx [mk_txin Tx.outpoint_null [] Tx.UINT_MAX []])
    [mk_txout [] (-1) (Script.push_data [] vchPubKey ++ [Script.OP_CHECKSIG])].

(** The earliest time of a block after [prev]. *)
Definition earliest (I : index) (prev : node) : Z :=
  Z.max (GetMedianTimePast I (pindexBest I) + 1) (Work.bi_GetBlockTime (entry prev) - Work.nMaxClockDrift).

Definition target (I : index) (prev : node) (fProofOfStake : bool) : option Z :=
  Work.GetNextTargetRequired p (entry prev) (ancestors I (size (mapBlockIndex I)) (pprev prev)) fProofOfStake.

(** [vtx[0].vout[0]] after the fees are known. *)
Definition fill_reward (prev : node) (nFees : Z) (l : list CTransaction) : list CTransaction :=
  match l with
  | [] => []
  | t :: r =>
      let pay (o : CTxOut) :=
        if negb (is_stake l) then Stake.set_value o (i64 (nFees + Work.GetNextProofOfWorkReward (Some (entry prev)) true))
        else if negb (nFees =? 0) then Stake.set_value o nFees
        else Tx.txout_SetEmpty o in
      Sig.set_vout t (alter pay 0%nat (vout t)) :: r
  end.

(** [CBlock::UpdateTime] *)
Definition UpdateTime (b : CBlock) : CBlock :=
  mk_block (blk_nVersion b) (hashPrevBlock b) (hashMerkleRoot b) (u32 (Z.max (Block.GetBlockTime b) nNow)) (nBits b) (nNonce b) (vtx b) (vchBlockSig b).

(** The block with its header; the time of the coinstake is overwritten at once. *)
Definition fill_header (I : index) (prev : node) (nBits : Z) (l : list CTransaction) : option CBlock :=
  hashes ← mapM Tx.GetHash l;
  let nMaxTxTime := fold_left (fun m t => Z.max m (nTime t)) l 0 in
  let nTime := u32 (Z.max (GetMedianTimePast I (pindexBest I) + 1) nMaxTxTime) in
  let nTime := u32 (Z.max nTime (Work.bi_GetBlockTime (entry prev) - Work.nMaxClockDrift)) in
  let b := mk_block 1 (GetBlockIDHash prev) (Block.BuildMerkleTree hashes) nTime nBits 0 l [] in
  Some (if is_stake l then b else UpdateTime b).

Section create.
Context {G : ECGroup E} {V : EVPLib} (draw : nat -> Z) (nKeysArg : Z) (mapCheckpoints : MapCheckpoints).
Context (fuel : nat) (place : Z -> Z) (fShutdown : bool) (rounds : nat) (rs : nat -> (nat -> Z -> Z) * (nat -> nat -> bool)) (reserveArg : option (list Z)).

(** The search for a coin stake: the transactions of the block so far. *)
Definition search_stake (s : node_state) (prev : node) (cb : CTransaction) (nLast : Z) (m : miner) (w : CWallet)
    : option (list CTransaction * miner * CWallet) :=
  let c := st_chain s in
  nBits ← target (ch_index c) prev true;
  let nSearchTime := nTime new_tx in
  if nLast <? nSearchTime then
    '(ok, t, w) ← Stake.CreateCoinStake fTestNet p (ch_index c) (nBestHeight c) nNow fuel place (ch_db c) (st_disk s) nBits (i64 (nSearchTime - nLast)) fShutdown
                    rounds rs reserveArg new_tx w;
    Some (if ok && (earliest (ch_index c) prev <=? nTime t) then [Stake.set_time cb (nTime t); t] else [cb],
          mk_miner (nLastBlockTx m) (nLastBlockSize m) (i64 (nSearchTime - nLast)) (Some nSearchTime), w)
  else Some ([cb], m, w).

Definition CreateNewBlock (fProofOfStake : bool) (s : node_state) (m : miner) (r : CReserveKey) (w : CWallet)
    : option (CBlock * node_state * miner * CReserveKey * CWallet) :=
  let c := st_chain s in
  let I := ch_index c in
  '(vchPubKey, r, w) ← KeyPool.GetReservedKey fTestNet draw nKeysArg nNow r w;
  let cb := coinbase_tx vchPubKey in
  let nLast := default nNow (nLastCoinStakeSearchTime m) in
  let m := mk_miner (nLastBlockTx m) (nLastBlockSize m) (nLastCoinStakeSearchInterval m) (Some nLast) in
  prev ← deref I (pindexBest I);
  '(l, m, w) ← (if fProofOfStake && negb (bi_nHeight (entry prev) <? nPoSMinHeight p) then search_stake s prev cb nLast m w
                else Some ([cb], m, w));
  nBits ← target I prev (is_stake l);
  '(k, pool, infos) ← default None (attempts (ch_db c) (st_disk s) I (nBestHeight c) (nBestHeight c <? GetTotalBlocksEstimate fTestNet mapCheckpoints)
                        (S (size (mapTx (ch_pool c)))) l 0 (ch_pool c) (ch_infos c));
  b ← fill_header I prev nBits (fill_reward prev (cl_fees k) (cl_vtx k));
  Some (b, with_chain (with_infostore infos (with_pool pool c)) s,
        mk_miner (nBlockTx k) (nBlockSize k) (nLastCoinStakeSearchInterval m) (nLastCoinStakeSearchTime m), r, w).

End create.

(** ** IncrementExtraNonce *)

Definition set_script (t : CTransaction) (script : list Z) : CTransaction :=
  Sig.set_vin t (alter (fun i => mk_txin (prevout i) script (nSequence i) (infos i)) 0%nat (vin t)).

Definition extra_script (COINBASE_FLAGS : list Z) (nTime nExtraNonce : Z) : list Z :=
  Script.push_bignum (Script.push_uint64 [] nTime) (BigNum.setulong nExtraNonce) ++ COINBASE_FLAGS.

(** The block, the static hashPrevBlock and nExtraNonce; [None]: the assertion
    fails, or the block has no coinbase. *)
Definition IncrementExtraNonce (COINBASE_FLAGS : list Z) (b : CBlock) (hashPrev nExtraNonce : Z) : option (CBlock * Z * Z) :=
  let nExtraNonce := u32 ((if negb (hashPrev =? hashPrevBlock b) then 0 else nExtraNonce) + 1) in
  match vtx b with
  | [] => None
  | t :: r =>
      let script := extra_script COINBASE_FLAGS (blk_nTime b) nExtraNonce in
      if bool_decide (vin t = []) then None
      else if 100 <? Z.of_nat (length script) then None
      else
        let l := set_script t script :: r in
        hashes ← mapM Tx.GetHash l;
        Some (mk_block (blk_nVersion b) (hashPrevBlock b) (Block.BuildMerkleTree hashes) (blk_nTime b) (nBits b) (nNonce b) l (vchBlockSig b),
              hashPrevBlock b, nExtraNonce)
  end.

(** ** Hash buffers *)

(** [memset(p + off, v, n)] and [p[off] = v] inside a buffer. *)
Definition fill (off n : nat) (v : Z) (buf : list Z) : list Z := take off buf ++ replicate n v ++ drop (off + n) buf.

(** The buffer starts at [pbuffer]; the number of blocks and the buffer. *)
Definition FormatHashBlocks (len : nat) (buf : list Z) : nat * list Z :=
  let blocks := (1 + (len + 8) / 64)%nat in
  let buf := fill len (64 * blocks - len) 0 buf in
  let buf := <[len := 128]> buf in
  let bits := u32 (Z.of_nat len * 8) in
  let pend := (64 * blocks)%nat in
  let buf := <[(pend - 1)%nat := Z.land (Z.shiftr bits 0) 0xff]> buf in
  let buf := <[(pend - 2)%nat := Z.land (Z.shiftr bits 8) 0xff]> buf in
  let buf := <[(pend - 3)%nat := Z.land (Z.shiftr bits 16) 0xff]> buf in
  let buf := <[(pend - 4)%nat := Z.land (Z.shiftr bits 24) 0xff]> buf in
  (blocks, buf).

(** [ByteReverse] *)
Definition ByteReverse (value : Z) : Z :=
  let value := Z.lor (Z.shiftr (Z.land value 0xFF00FF00) 8) (u32 (Z.shiftl (Z.land value 0x00FF00FF) 8)) in
  Z.lor (u32 (Z.shiftl value 16)) (Z.shiftr value 16).

(** The 32-bit words of a buffer, each read and written little-endian. *)
Fixpoint reverse_words (n : nat) (buf : list Z) : list Z :=
  match n with
  | O => buf
  | S n => le_bytes 4 (ByteReverse (le_val (take 4 buf))) ++ reverse_words n (drop 4 buf)
  end.

(** tmp: the 80 bytes of the header, 64 of padding, hash1 and 64 of padding.
    The result is what is copied to pdata. *)
Definition FormatHashBuffers (b : CBlock) : list Z :=
  let tmp := Block.header_bytes b ++ replicate 160 0 in
  let tmp := (FormatHashBlocks 80 tmp).2 in
  let tmp := take 144 tmp ++ (FormatHashBlocks 32 (drop 144 tmp)).2 in
  take 128 (reverse_words 60 tmp).

(** ** CheckWork *)

Section check.
Context (GetPoWHash : CBlock -> option (list Z)) (nLimitFreeRelay : Z) (IsFromMe : CTransaction -> bool) (pow : spec_float -> spec_float -> spec_float).
Context (mapCheckpoints : MapCheckpoints) (nFreeBytesAvailable : Z) (fInitialDownload : bool).

(** The hash that is compared with the target; [None]: it can not be computed. *)
Definition work_hash (b : CBlock) (powHash : option (list Z)) : option (list Z) :=
  if Block.IsProofOfWork b then match powHash with Some h => Some h | None => GetPoWHash b end else Some (Uint.of_u64 8 0).

Definition CheckWork (b : CBlock) (powHash : option (list Z)) (s : node_state) (r : CReserveKey) (w : CWallet)
    : outcome unit * node_state * CReserveKey * CWallet :=
  match work_hash b powHash with
  | None => (Failed 0, s, r, w)
  | Some hash =>
      if Block.IsProofOfWork b && Uint.op_gt hash (BigNum.getuint256 (BigNum.SetCompact (nBits b))) then (Failed 0, s, r, w)
      else if negb (hashPrevBlock b =? hashBestChain (st_chain s)) then (Failed 0, s, r, w)
      else
        let '(r, w) := KeyPool.reserve_KeepKey r w in
        let w := WalletOps.set_requests (<[Block.GetIDHash b := 0]> (mapRequestCount w)) w in
        let '(o, s, _) := ProcessBlock fTestNet p nNow GetPoWHash nLimitFreeRelay IsFromMe pow mapCheckpoints nFreeBytesAvailable fInitialDownload false b s in
        (match o with Failed _ => Failed 0 | o => o end, s, r, w)
  end.

End check.
End miner.

(** ** The candidates

    A transaction that waits is in the queue as soon as it waits for nothing:
    no candidate is lost, and none is there twice. *)

Definition waits (o : COrphan) : Prop := setDependsOn o <> ∅.

Definition everyone (q : candidates) : list CTransaction := (mapPriority q).*2 ++ (ptx <$> filter waits (vOrphan q)).

Lemma queue_insert_perm key t q : (queue_insert key t q).*2 ≡ₚ t :: q.*2.
Proof.
  induction q as [|x q IH]; cbn; [done|]. destruct (SFltb key x.1); [done|]. cbn. rewrite IH. apply Permutation_swap.
Qed.

Lemma filter_insert_out (l : list COrphan) i o o' : l !! i = Some o -> waits o -> ~ waits o' ->
  ptx o :: (ptx <$> filter waits (<[i := o']> l)) ≡ₚ ptx <$> filter waits l.
Proof.
  intros Hi Hw Hn. rewrite <- (take_drop_middle l i o Hi) at 2. rewrite insert_take_drop by (by eapply lookup_lt_Some).
  rewrite !filter_app, !fmap_app, !filter_cons, decide_False, decide_True by done. cbn. by rewrite Permutation_middle.
Qed.

Lemma filter_insert_in (l : list COrphan) i o o' : l !! i = Some o -> waits o -> waits o' -> ptx o' = ptx o ->
  ptx <$> filter waits (<[i := o']> l) = ptx <$> filter waits l.
Proof.
  intros Hi Hw Hn Hp. rewrite <- (take_drop_middle l i o Hi) at 2. rewrite insert_take_drop by (by eapply lookup_lt_Some).
  rewrite !filter_app, !fmap_app, !filter_cons, !decide_True by done. cbn. by rewrite Hp.
Qed.

Lemma release_perm hash l : forall waiting q waiting' q', release hash l waiting q = (waiting', q') ->
  q'.*2 ++ (ptx <$> filter waits waiting') ≡ₚ q.*2 ++ (ptx <$> filter waits waiting).
Proof.
  induction l as [|i l IH]; intros waiting q waiting' q'; cbn [release]; [by intros [= <- <-]|].
  destruct (waiting !! i) as [o|] eqn:Hi; [|apply IH]. destruct (bool_decide_reflect (setDependsOn o = ∅)) as [He|He]; [apply IH|].
  intros H. rewrite (IH _ _ _ _ H). set (o' := mk_waiting _ _ _). destruct (bool_decide_reflect (setDependsOn o ∖ {[hash]} = ∅)) as [Hd|Hd].
  - rewrite queue_insert_perm. cbn. rewrite Permutation_middle. apply Permutation_app_head. by apply filter_insert_out; [..|intros Hw; apply Hw].
  - by rewrite (filter_insert_in waiting i o o').
Qed.

Lemma release_all_perm hash q : everyone (release_all hash q) ≡ₚ everyone q.
Proof.
  unfold release_all. destruct (mapDependers q !! hash) as [l|]; [|done]. destruct (release _ _ _ _) as [w' q'] eqn:Hr.
  apply release_perm in Hr. exact Hr.
Qed.

(** ** Signature operations

    At most twenty per byte of script, so that the counters do not wrap around. *)

Lemma u32_le x : 0 <= x -> 0 <= u32 x <= x.
Proof. intros Hx. unfold u32. split; [apply Z.mod_pos_bound; lia|by apply Z.mod_le]. Qed.

Lemma sigop_loop_bound acc fuel : forall last n pc, 0 <= n -> 0 <= Script.sigop_loop fuel acc last n pc <= n + 20 * Z.of_nat (length pc).
Proof.
  induction fuel as [|fuel IH]; intros last n pc Hn; destruct pc as [|x pc]; cbn [Script.sigop_loop]; [cbn; lia|cbn; lia|cbn; lia|].
  destruct (Script.op_ok (Script.GetOp2 (x :: pc))) eqn:Hok; cbn [negb]; [|lia].
  pose proof (Script.GetOp2_progress _ Hok) as Hp. set (r := Script.GetOp2 (x :: pc)) in *. set (k := if _ || _ then _ else _).
  assert (0 <= k <= n + 20) as Hk.
  { unfold k. destruct (_ || _); [pose proof (u32_le (n + 1)); lia|]. destruct (_ || _); [|lia].
    destruct (acc && (Script.OP_1 <=? last) && (last <=? Script.OP_16)) eqn:Hl; [|pose proof (u32_le (n + 20)); lia].
    bool_to_prop. unfold Script.OP_1, Script.OP_16 in *. unfold Script.DecodeOP_N. repeat case_match; cbn;
      match goal with |- context [u32 ?e] => pose proof (u32_le e); unfold Script.OP_1 in *; bool_to_prop; lia end. }
  specialize (IH (Script.op_opcode r) k (Script.op_pc r) ltac:(lia)). lia.
Qed.

Lemma last_push_length fuel : forall data pc s, Script.last_push fuel data pc = Some s -> (length s <= Nat.max (length data) (length pc))%nat.
Proof.
  induction fuel as [|fuel IH]; intros data [|x pc] s; cbn [Script.last_push]; [intros [= <-]; lia..|].
  destruct (Script.op_ok (Script.GetOp2 (x :: pc))) eqn:Hok; cbn [negb]; [|done]. destruct (_ <? _); [done|].
  intros H%IH. destruct (Script.GetOp2_consumes _ Hok) as [hd Hc]. apply (f_equal length) in Hc. cbn [length] in Hc. rewrite !length_app in Hc.
  cbn [length] in *. lia.
Qed.

Lemma GetSigOpCount_bound s acc : 0 <= Script.GetSigOpCount s acc <= 20 * Z.of_nat (length s).
Proof. unfold Script.GetSigOpCount. pose proof (sigop_loop_bound acc (length s) Script.OP_INVALIDOPCODE 0 s). lia. Qed.

Definition out_bytes (l : list CTxOut) : Z := sumZ ((fun o => Z.of_nat (length (scriptPubKey o))) <$> l).
Definition in_bytes (l : list CTxIn) : Z := sumZ ((fun i => Z.of_nat (length (scriptSig i))) <$> l).

(** The bytes of the scripts of a transaction. *)
Definition script_bytes (t : CTransaction) : Z := in_bytes (vin t) + out_bytes (vout t).

Lemma out_bytes_nonneg l : 0 <= out_bytes l.
Proof. apply sumZ_nonneg, Forall_fmap, Forall_true. intros x. cbn. lia. Qed.

Lemma in_bytes_nonneg l : 0 <= in_bytes l.
Proof. apply sumZ_nonneg, Forall_fmap, Forall_true. intros x. cbn. lia. Qed.

Lemma count_bound {A} (f g : A -> Z) l : (forall x, 0 <= f x <= 20 * g x) -> forall k, 0 <= k ->
  0 <= fold_left (fun k x => u32 (k + f x)) l k <= k + 20 * sumZ (g <$> l).
Proof.
  intros Hf. induction l as [|x l IH]; intros k Hk; cbn; [lia|]. fold (sumZ (g <$> l)). specialize (Hf x).
  pose proof (u32_le (k + f x) ltac:(lia)). specialize (IH (u32 (k + f x)) ltac:(lia)). unfold sumZ in *. lia.
Qed.

Lemma legacy_bound t : 0 <= Tx.GetLegacySigOpCount t <= 20 * script_bytes t.
Proof.
  unfold Tx.GetLegacySigOpCount, script_bytes, in_bytes, out_bytes.
  pose proof (count_bound (fun i => Script.GetSigOpCount (scriptSig i) false) (fun i => Z.of_nat (length (scriptSig i))) (vin t)
    (fun i => GetSigOpCount_bound _ _) 0 ltac:(lia)) as Hi.
  pose proof (count_bound (fun o => Script.GetSigOpCount (scriptPubKey o) false) (fun o => Z.of_nat (length (scriptPubKey o))) (vout t)
    (fun o => GetSigOpCount_bound _ _) _ (proj1 Hi)) as Ho. lia.
Qed.

Lemma p2sh_bound t inputs k : GetP2SHSigOpCount t inputs = Some k -> 0 <= k <= 20 * in_bytes (vin t).
Proof.
  unfold GetP2SHSigOpCount. pose proof (in_bytes_nonneg (vin t)) as Hn. destruct (Tx.IsCoinBase t); [intros [= <-]; lia|]. clear Hn. unfold in_bytes.
  assert (forall l k0, 0 <= k0 ->
    foldl (fun acc i => k ← acc; o ← GetOutputFor i inputs; Some (if Script.IsPayToScriptHash (scriptPubKey o)
      then u32 (k + Script.GetSigOpCount_sig (scriptPubKey o) (scriptSig i)) else k)) (Some k0) l = Some k ->
    0 <= k <= k0 + 20 * sumZ ((fun i => Z.of_nat (length (scriptSig i))) <$> l)) as Hgen; [|intros H; by apply (Hgen _ 0) in H].
  induction l as [|i l IH]; intros k0 Hk0; cbn [foldl fmap list_fmap]; [intros [= <-]; cbn; lia|].
  cbn [mbind option_bind sumZ foldr]. fold (sumZ ((fun i => Z.of_nat (length (scriptSig i))) <$> l)).
  destruct (GetOutputFor i inputs) as [o|]; cbn [mbind option_bind]; [|intros H; exfalso; clear -H; by induction l].
  destruct (Script.IsPayToScriptHash (scriptPubKey o)) eqn:Hp; [|intros H%IH; lia].
  assert (0 <= Script.GetSigOpCount_sig (scriptPubKey o) (scriptSig i) <= 20 * Z.of_nat (length (scriptSig i))) as Hs.
  { unfold Script.GetSigOpCount_sig. rewrite Hp. cbn [negb]. destruct (Script.last_push _ _ _) as [sub|] eqn:Hl; [|lia].
    apply last_push_length in Hl. pose proof (GetSigOpCount_bound sub true). cbn [length] in Hl. lia. }
  intros H. pose proof (u32_le (k0 + Script.GetSigOpCount_sig (scriptPubKey o) (scriptSig i)) ltac:(lia)). apply IH in H; lia.
Qed.

Section collected.
Context {B : Tx.Abi} {L : BNLib} {D : DigestLib} {E : ECLib} (fTestNet : bool) (p : NetParams) (nNow : Z).
Context (db : CTxDB) (d : disk) (I : index) (nBest : Z) (fBelowCheckpoint : bool).

(** What CreateNewBlock looks at in the pool. *)
Definition eligible (t : CTransaction) : Prop :=
  Tx.IsCoinBase t = false /\ Tx.IsCoinStake t = false /\ Tx.IsFinal nBest nNow t 0 0 = true.

#[local] Instance eligible_dec t : Decision (eligible t).
Proof. unfold eligible. apply _. Defined.

Lemma input_priority_waits k l : forall o deps pri o' deps' pri', (forall s, o = Some s -> s <> ∅) ->
  input_priority p db d I nBest k l o deps pri = (o', deps', pri') -> forall s, o' = Some s -> s <> ∅.
Proof.
  induction l as [|i l IH]; intros o deps pri o' deps' pri' Ho; cbn [input_priority]; [by intros [= <- _ _]|].
  destruct (prev_ReadFromDisk db d (prevout i)) as [[tp ti]|]; [by apply IH|]. apply IH. intros s [= <-]. set_solver.
Qed.

Lemma add_candidate_perm t q q' : add_candidate p nNow db d I nBest t q = Some q' ->
  everyone q' ≡ₚ (if decide (eligible t) then [t] else []) ++ everyone q.
Proof.
  unfold add_candidate. destruct (Tx.IsCoinBase t || Tx.IsCoinStake t || negb (Tx.IsFinal nBest nNow t 0 0)) eqn:He.
  { intros [= <-]. rewrite decide_False; [done|]. intros (H1 & H2 & H3). by rewrite H1, H2, H3 in He. }
  rewrite decide_True; [|unfold eligible; bool_to_prop; done].
  destruct (input_priority _ _ _ _ _ _ _ _ _ _) as [[o deps] pri] eqn:Hi. destruct (GetSerializeSize Tx.tx_codec t); [|done].
  cbn [mbind option_bind]. intros [= <-]. destruct o as [s|]; unfold everyone; cbn [vOrphan mapPriority app].
  - rewrite filter_app, fmap_app, filter_cons, decide_True; [|by eapply (input_priority_waits _ _ None)]. cbn. rewrite app_assoc.
    by rewrite <- Permutation_cons_append.
  - by rewrite queue_insert_perm.
Qed.

Lemma candidates_perm l : forall q q', foldl (fun acc (x : Z * CTransaction) => c ← acc; add_candidate p nNow db d I nBest x.2 c) (Some q) l = Some q' ->
  everyone q' ≡ₚ filter eligible l.*2 ++ everyone q.
Proof.
  induction l as [|x l IH]; intros q q'; cbn [foldl]; [by intros [= <-]|].
  cbn [mbind option_bind]. destruct (add_candidate p nNow db d I nBest x.2 q) as [q1|] eqn:Hq.
  - intros H. rewrite (IH _ _ H), (add_candidate_perm _ _ _ Hq). cbn [fmap list_fmap]. rewrite filter_cons. case_decide; [|done].
    cbn. by rewrite Permutation_middle.
  - intros H. exfalso. clear -H. induction l as [|y l IH]; [done|]. by apply IH.
Qed.

(** The candidates are the eligible transactions of the pool. *)
Lemma find_candidates_perm pool q : find_candidates p nNow db d I nBest pool = Some q ->
  everyone q ≡ₚ filter eligible (in_order Z.leb pool).*2.
Proof. intros H. apply candidates_perm in H. by rewrite app_nil_r in H. Qed.

(** The queue ends: one round per candidate. *)
Lemma collect_loop_total fuel pool : forall q c, (length (everyone q) <= fuel)%nat ->
  collect_loop fTestNet p nNow db d I fBelowCheckpoint fuel pool q c <> None.
Proof.
  induction fuel as [|fuel IH]; intros [w dp [|x r]] c Hl; cbn [collect_loop mapPriority]; [done|cbn in Hl; lia|done|].
  destruct (collect_tx _ _ _ _ _ _ _ _ _ _) as [[| |c']|]; [|done| |done].
  - apply IH. unfold everyone in *. cbn in *. lia.
  - destruct (Tx.GetHash x.2) as [h|]; [|done]. apply IH. rewrite (Permutation_length (release_all_perm _ _)). unfold everyone in *. cbn in *. lia.
Qed.

(** ** What is collected *)

Definition tx_size (t : CTransaction) : Z := default 0 (GetSerializeSize Tx.tx_codec t).

Lemma sumZ_one x : sumZ [x] = x.
Proof. cbn. lia. Qed.

Lemma tx_size_range t : 0 <= tx_size t < 2 ^ 32.
Proof.
  unfold tx_size. cbn [Tx.tx_codec GetSerializeSize]. destruct (GetSerializeSize Tx.header_codec _) as [x|]; [|done]. cbn [mbind option_bind].
  destruct (GetSerializeSize (Tx.mint_codec _) _) as [y|]; [|done]. cbn [mbind option_bind default]. apply u32_range.
Qed.

(** A transaction that came from the network: indices and the time are unsigned,
    and the scripts fit into a block. *)
Definition sound_tx (t : CTransaction) : Prop :=
  Forall (fun i => Coins.nonneg (prevout i)) (vin t) /\ script_bytes t <= MAX_BLOCK_SIZE /\ 0 <= nTime t < 2 ^ 32.

(** The transactions [new] can be connected one after the other, and pay the
    fees that were counted, each at least the minimum. *)
Definition connects (f0 : Z) (c : collecting) (new : list CTransaction) : Prop := exists hs accs,
  mapM Tx.GetHash new = Some hs /\ Forall2 (Connect.account_ok p d db) new accs /\
  Coins.apply_all (zip_with action_of new hs) (Ledger.coins_of (db_tx db)) = Some (Ledger.coins_of (view (mapTestPool c) db)) /\
  cl_fees c = i64 (f0 + Connect.sum_fees new accs) /\
  Forall (fun a => MIN_TX_FEE <= Connect.acc_in a - Connect.acc_out a) accs.

(** An attempt that began with the transactions [l] and the fees [f0]. *)
Record picked (l : list CTransaction) (f0 : Z) (view : CTxInfoStore) (c : collecting) (new : list CTransaction) : Prop := {
  pk_vtx : cl_vtx c = l ++ new;
  pk_connects : connects f0 c new;
  pk_size : nBlockSize c = 1000 + sumZ (tx_size <$> new) /\ nBlockSize c < MAX_BLOCK_SIZE_GEN;
  pk_sigops : 100 + sumZ (Tx.GetLegacySigOpCount <$> new) <= nBlockSigOps c < MAX_BLOCK_SIGOPS;
  pk_count : nBlockTx c = u64 (Z.of_nat (length new));
  pk_time : Forall (fun t => nTime t <= nNow /\ (is_stake l = true -> nTime t <= from_option nTime 0 (l !! 1%nat))) new;
  pk_infos : snapshot (cl_infos c) = snapshot view
}.

Lemma is_stake_app l k : is_stake l = true -> is_stake (l ++ k) = true /\ (l ++ k) !! 1%nat = l !! 1%nat.
Proof. by destruct l as [|x [|y l]]. Qed.

Lemma picked_nil l f0 view : i64 f0 = f0 -> picked l f0 view (mk_collecting ∅ view 1000 0 100 l f0) [].
Proof.
  intros Hf. split; cbn; [by rewrite app_nil_r| |by vm_compute|by vm_compute|done|constructor|done].
  exists [], []. split; [done|]. split; [constructor|]. unfold Ledger.view. cbn. rewrite (left_id_L ∅ (∪)), Z.add_0_r. done.
Qed.

Lemma apply_all_snoc l a c c1 c2 : Coins.apply_all l c = Some c1 -> Coins.apply_tx a c1 = Some c2 -> Coins.apply_all (l ++ [a]) c = Some c2.
Proof.
  revert c. induction l as [|x l IH]; intros c H1 H2; cbn in *; [injection H1 as ->; by rewrite H2|].
  destruct (Coins.apply_tx x c) as [c0|]; [|done]. cbn in *. by apply IH.
Qed.

Lemma mapM_snoc {X Y} (f : X -> option Y) l x k y : mapM f l = Some k -> f x = Some y -> mapM f (l ++ [x]) = Some (k ++ [y]).
Proof. intros H1 H2. apply mapM_Some. apply Forall2_app; [by apply mapM_Some_1|by constructor]. Qed.

(** One more transaction is connected. *)
Lemma connects_snoc pool f0 c new t inputs q nIn nOut hash c' : connects f0 c new -> eligible t -> Forall (fun i => Coins.nonneg (prevout i)) (vin t) ->
  FetchInputs db d pool (mapTestPool c) false true t ∅ = Fetched inputs -> GetValueIn t inputs = Some nIn -> Tx.GetValueOut t = Some nOut ->
  MIN_TX_FEE <= i64 (nIn - nOut) -> ConnectInputs p db d I fBelowCheckpoint t inputs (mapTestPool c) pos_mempool (pindexBest I) false true = Done q ->
  Tx.GetHash t = Some hash -> mapTestPool c' = <[hash := new_txindex pos_mempool (length (vout t))]> q -> cl_fees c' = i64 (cl_fees c + i64 (nIn - nOut)) ->
  connects f0 c' (new ++ [t]).
Proof.
  intros (hs & accs & C1 & C2 & C3 & C4 & C5) (Hcb & Hcs & _) Hn Hf Hi Ho Hmin Hc Hh Hp Hfees.
  destruct (ConnectInputs_sound_helper p db d pool I false t (mapTestPool c) pos_mempool _ inputs q Hf Hc Hcb eq_refl Hn)
    as (Hs & out & V1 & V2 & V3 & V4 & _).
  rewrite Hi in V1. injection V1 as ->. rewrite Ho in V3. injection V3 as <-. specialize (V4 Hcs).
  pose proof (Connect.GetValueOut_range _ _ Ho) as Hout. set (a := Connect.mk_account (total_in inputs (vin t)) nOut).
  rewrite (i64_small (_ - _)) in Hmin, Hfees by (unfold MAX_MONEY, COIN in *; lia).
  exists (hs ++ [hash]), (accs ++ [a]). split; [by apply mapM_snoc|]. split; [|split; [|split]].
  - apply Forall2_app; [done|]. constructor; [|constructor]. split; cbn; [done|done|done|by rewrite Hcb|by intros _|by rewrite Hcs].
  - rewrite zip_with_app by (by eapply Forall2_length, mapM_Some_1). cbn [zip_with]. eapply apply_all_snoc; [exact C3|].
    unfold Coins.apply_tx, action_of. cbn [Coins.act_spends Coins.act_hash Coins.act_outputs]. rewrite Hcb, Hs. cbn [mbind option_bind].
    rewrite Hp. unfold view. by rewrite <- insert_union_l, Connect.coins_of_insert, Connect.flags_new.
  - assert (Connect.sum_fees (new ++ [t]) (accs ++ [a]) = Connect.sum_fees new accs + (total_in inputs (vin t) - nOut)) as ->.
    { unfold Connect.sum_fees. rewrite zip_with_app by (by eapply Forall2_length). cbn [zip_with].
      change (foldr Z.add 0) with sumZ. rewrite sumZ_app. cbn. unfold Connect.fee_of, Connect.ordinary. rewrite Hcb, Hcs. cbn. lia. }
    rewrite Hfees, C4, i64_add_l. f_equal. lia.
  - apply Forall_app. split; [done|]. constructor; [done|constructor].
Qed.

Lemma collect_tx_picked pool l f0 vw c new t c' : picked l f0 vw c new -> eligible t -> sound_tx t -> TxInfo.InTransaction vw = true ->
  collect_tx fTestNet p nNow db d I fBelowCheckpoint pool t c = Some (Added c') -> picked l f0 vw c' (new ++ [t]).
Proof.
  intros [P1 P2 [P3 P3'] P4 P5 P6 P7] He (Hn & Hb & _) Hv. unfold collect_tx.
  destruct (GetSerializeSize Tx.tx_codec t) as [sz|] eqn:Hsz; [|done]. cbn [mbind option_bind].
  destruct (unfit nNow t sz c) eqn:Hu; [done|]. destruct (Tx.GetMinFee t _ Tx.GMF_BLOCK) as [fee|] eqn:Hfee; [|done]. cbn [mbind option_bind].
  destruct (FetchInputs db d pool (mapTestPool c) false true t ∅) as [inputs|] eqn:Hf; [|done].
  destruct (GetValueIn t inputs) as [nIn|] eqn:Hi; [|done]. cbn [mbind option_bind]. destruct (Tx.GetValueOut t) as [nOut|] eqn:Ho; [|done]. cbn [mbind option_bind].
  destruct (Z.ltb_spec (i64 (nIn - nOut)) fee) as [|Hge]; [done|]. destruct (GetP2SHSigOpCount t inputs) as [p2sh|] eqn:Hp; [|done]. cbn [mbind option_bind].
  destruct (Z.leb_spec MAX_BLOCK_SIGOPS (u32 (nBlockSigOps c + u32 (Tx.GetLegacySigOpCount t + p2sh)))) as [|Hso]; [done|].
  destruct (ConnectInputs p db d I fBelowCheckpoint t inputs (mapTestPool c) pos_mempool (pindexBest I) false true) as [q| |] eqn:Hc; [|done..].
  destruct (Connect.ProcessTxInfos fTestNet db d 0 (-1) t (cl_infos c)) as [[ok infos]|] eqn:Hin; [|done]. cbn [mbind option_bind].
  destruct ok; cbn [negb]; [|done]. destruct (Tx.GetHash t) as [hash|] eqn:Hh; [|done]. cbn [mbind option_bind]. intros [= <-].
  pose proof (legacy_bound t) as Hleg. pose proof (p2sh_bound _ _ _ Hp) as Hp2. pose proof (out_bytes_nonneg (vout t)) as Hob. pose proof (in_bytes_nonneg (vin t)) as Hib.
  assert (0 <= script_bytes t /\ in_bytes (vin t) <= script_bytes t) as [Hsb Hsb'] by (unfold script_bytes in *; lia).
  assert (tx_size t = sz) as Hts by (unfold tx_size; by rewrite Hsz). pose proof (tx_size_range t) as Hsz0. rewrite Hts in Hsz0.
  unfold unfit in Hu. apply orb_false_iff in Hu as [Hu Hut]. apply orb_false_iff in Hu as [Hu Hun]. apply orb_false_iff in Hu as [Hus _].
  apply Z.leb_gt in Hus. apply Z.ltb_ge in Hun. assert (0 <= sumZ (tx_size <$> new)) as Hss.
  { apply sumZ_nonneg, Forall_fmap, Forall_true. intros x. apply tx_size_range. }
  assert (0 <= sumZ (Tx.GetLegacySigOpCount <$> new)) as Hls.
  { apply sumZ_nonneg, Forall_fmap, Forall_true. intros x. cbn. apply legacy_bound. }
  change MAX_BLOCK_SIZE with 1000000 in *. change MAX_BLOCK_SIZE_GEN with 500000 in *. change MAX_BLOCK_SIGOPS with 20000 in *.
  rewrite (u64_small (nBlockSize c + sz)) in * by lia. rewrite (u32_small (Tx.GetLegacySigOpCount t + p2sh)) in * by lia.
  rewrite (u32_small (nBlockSigOps c + _)) in Hso by lia.
  split; cbn [cl_vtx mapTestPool cl_fees nBlockSize nBlockSigOps nBlockTx cl_infos]; rewrite ?fmap_app, ?sumZ_app; cbn [fmap list_fmap]; rewrite ?sumZ_one.
  - by rewrite P1, app_assoc.
  - eapply (connects_snoc pool f0 c new t inputs q nIn nOut hash); try done. apply Spend.GetMinFee_range in Hfee. lia.
  - rewrite Hts. change MAX_BLOCK_SIZE_GEN with 500000. lia.
  - rewrite i32_small by lia. change MAX_BLOCK_SIGOPS with 20000. lia.
  - rewrite length_app, P5. cbn. unfold u64. rewrite Zplus_mod_idemp_l. f_equal. lia.
  - apply Forall_app. split; [done|]. constructor; [|constructor]. split; [done|]. intros Hst. destruct (is_stake_app l new Hst) as [H1 H2].
    rewrite P1, H1, H2 in Hut. cbn [andb] in Hut. by apply Z.ltb_ge in Hut.
  - unfold Connect.ProcessTxInfos, Connect.procUndoTxInfos in Hin. destruct (TxInfo.InTransaction (cl_infos c)) eqn:Hit; [|done]. cbn [negb] in Hin.
    rewrite (Mempool.run_inputs_snapshot fTestNet db d _ _ _ _ _ _ _ Hit Hin). exact P7.
Qed.

(** The loop: what is collected, and the transaction that failed, are distinct
    candidates. *)
Lemma collect_loop_picked fuel pool l f0 vw : TxInfo.InTransaction vw = true -> forall q c new c' bad,
  picked l f0 vw c new -> Forall eligible (everyone q) -> Forall sound_tx (everyone q) ->
  collect_loop fTestNet p nNow db d I fBelowCheckpoint fuel pool q c = Some (Some (c', bad)) ->
  exists new', picked l f0 vw c' new' /\ new' ++ option_list bad ⊆+ new ++ everyone q.
Proof.
  intros Hv. induction fuel as [|fuel IH]; intros [w dp [|x r]] c new c' bad Hp He Hs; cbn [collect_loop mapPriority vOrphan mapDependers];
    [intros [= <- <-]|done|intros [= <- <-]|]; [exists new; split; [done|by apply submseteq_app, submseteq_nil_l]..|].
  change (everyone (mk_candidates w dp (x :: r))) with (x.2 :: everyone (mk_candidates w dp r)) in *.
  apply Forall_cons in He as [He He']. apply Forall_cons in Hs as [Hs Hs'].
  destruct (collect_tx _ _ _ _ _ _ _ _ _ _) as [[| |c1]|] eqn:Hc; [|intros [= <- <-]| |done].
  - intros H. destruct (IH _ _ new _ _ Hp He' Hs' H) as (new' & Hp' & Hn'). exists new'. split; [done|]. etrans; [exact Hn'|].
    apply submseteq_app; [done|]. by apply submseteq_cons.
  - exists new. split; [done|]. apply submseteq_app; [done|]. by apply submseteq_skip, submseteq_nil_l.
  - destruct (Tx.GetHash x.2) as [hash|]; [|done]. intros H. apply (collect_tx_picked pool l f0 vw c new x.2 c1) in Hc; [|done..].
    pose proof (release_all_perm hash (mk_candidates w dp r)) as Hr.
    destruct (IH (release_all hash (mk_candidates w dp r)) c1 (new ++ [x.2]) c' bad Hc) as (new' & Hp' & Hn'); [by rewrite Hr|by rewrite Hr|done|].
    exists new'. split; [done|]. by rewrite Hn', Hr, <- app_assoc.
Qed.

Definition in_pool (m : CTxMemPool) (t : CTransaction) : Prop := exists h, mapTx m !! h = Some t /\ Tx.GetHash t = Some h.

Lemma pool_values m : Mempool.pool_ok m -> NoDup (in_order Z.leb (mapTx m)).*2 /\ Forall (in_pool m) (in_order Z.leb (mapTx m)).*2.
Proof.
  intros Hm. split.
  - apply NoDup_fmap_2_strong; [|by rewrite in_order_perm; apply NoDup_map_to_list].
    intros [h t] [h' t'] H1%elem_of_in_order H2%elem_of_in_order. cbn. intros ->.
    apply (Mempool.po_hash _ Hm) in H1, H2. rewrite H1 in H2. injection H2 as ->. done.
  - apply Forall_fmap, Forall_forall. intros [h t] H%elem_of_in_order. exists h. split; [done|]. by apply (Mempool.po_hash _ Hm).
Qed.

(** One attempt on a pool. *)
Lemma attempt_picked l f0 m infos c bad infos' : Mempool.pool_ok m -> (forall t, in_pool m t -> sound_tx t) -> i64 f0 = f0 ->
  attempt fTestNet p nNow db d I nBest fBelowCheckpoint l f0 (mapTx m) infos = Some (c, bad, infos') ->
  exists new vw, picked l f0 vw c new /\ NoDup (new ++ option_list bad) /\
    Forall (fun t => eligible t /\ in_pool m t) (new ++ option_list bad) /\
    rows infos' = rows infos /\ seq infos' = seq infos /\ TxInfo.InTransaction infos' = false.
Proof.
  intros Hm Hs Hf. unfold attempt. destruct (TxInfo.BeginTransaction infos) as [vw|] eqn:Hb; [|done]. cbn [mbind option_bind].
  destruct (find_candidates _ _ _ _ _ _ _) as [q|] eqn:Hq; [|done]. cbn [mbind option_bind]. apply find_candidates_perm in Hq.
  destruct (collect_loop _ _ _ _ _ _ _ _ _ _ _) as [[[c1 bad1]|]|] eqn:Hl; [|done|done]. cbn [default from_option id mbind option_bind].
  destruct (TxInfo.Rollback (cl_infos c1)) as [i2|] eqn:Hr; [|done]. cbn [mbind option_bind]. intros [= <- <- <-].
  assert (TxInfo.InTransaction vw = true) as Hv by (unfold TxInfo.BeginTransaction in Hb; destruct (TxInfo.InTransaction infos); [done|]; by injection Hb as <-).
  destruct (pool_values m Hm) as [Hnd Hin].
  assert (Forall (fun t => eligible t /\ in_pool m t) (everyone q)) as Hall.
  { rewrite Hq. apply Forall_forall. intros t [Ht1 Ht2]%list_elem_of_filter. rewrite Forall_forall in Hin. by auto. }
  destruct (collect_loop_picked (size (mapTx m)) (mapTx m) l f0 vw Hv q _ [] c1 bad1 (picked_nil l f0 vw Hf)) as (new & Hp & Hn); [| |exact Hl|].
  { eapply Forall_impl; [exact Hall|]. by intros t [? _]. }
  { eapply Forall_impl; [exact Hall|]. intros t [_ ?]. by apply Hs. }
  cbn [app] in Hn. exists new, vw. split; [done|].
  destruct (TxInfo.rollback_restores infos vw (cl_infos c1) Hb (pk_infos _ _ _ _ _ Hp)) as (s2 & Hs2 & R1 & R2 & R3).
  rewrite Hr in Hs2. injection Hs2 as <-. split; [|split; [|done]].
  - apply submseteq_Permutation in Hn as [k Hk]. assert (NoDup (everyone q)) as Hev by (rewrite Hq; by apply NoDup_filter).
    rewrite Hk in Hev. by apply NoDup_app in Hev as [? _].
  - apply Forall_forall. intros t Ht. rewrite Forall_forall in Hall. apply Hall. by eapply elem_of_submseteq.
Qed.

(** *** The attempts *)

Lemma attempt_total pool q c : find_candidates p nNow db d I nBest pool = Some q ->
  collect_loop fTestNet p nNow db d I fBelowCheckpoint (size pool) pool q c <> None.
Proof.
  intros Hq%find_candidates_perm. apply collect_loop_total. rewrite (Permutation_length Hq).
  transitivity (length (in_order Z.leb pool).*2); [apply length_filter|]. by rewrite length_fmap, (Permutation_length (in_order_perm _ _)), length_map_to_list.
Qed.

Lemma remove_smaller t m : in_pool m t -> Mempool.pool_ok m ->
  exists m', Mempool.remove t m = Some m' /\ Mempool.pool_ok m' /\ mapTx m' ⊂ mapTx m /\ S (size (mapTx m')) = size (mapTx m).
Proof.
  intros (h & Hl & Hh) Hm. destruct (Mempool.remove_ok t h m Hm Hh) as (m' & Hr & Hm' & Hd); [by intros t' [= ->]%(eq_trans (eq_sym Hl))|].
  exists m'. split; [done|]. split; [done|]. rewrite Hd. split; [by apply delete_subset|].
  rewrite map_size_delete_Some by eauto. assert (size (mapTx m) <> 0%nat) by (apply map_size_ne_0_lookup; eauto). lia.
Qed.

#[local] Abbreviation try := (attempts fTestNet p nNow db d I nBest fBelowCheckpoint).

(** The attempts end: each that is repeated takes a transaction out of the
    pool. *)
Lemma attempts_total n : forall l f0 m infos, Mempool.pool_ok m -> (forall t, in_pool m t -> sound_tx t) -> i64 f0 = f0 ->
  (size (mapTx m) < n)%nat -> try n l f0 m infos <> None.
Proof.
  induction n as [|n IH]; intros l f0 m infos Hm Hs Hf Hn; [lia|]. cbn [attempts].
  destruct (attempt _ _ _ _ _ _ _ _ _ _ _ _) as [[[c [t|]] infos']|] eqn:Ha; [|done..].
  destruct (attempt_picked _ _ _ _ _ _ _ Hm Hs Hf Ha) as (new & vw & Hp & _ & Hall & _).
  apply Forall_app in Hall as [_ Ht]. apply Forall_cons in Ht as [[_ Ht] _].
  destruct (remove_smaller t m Ht Hm) as (m' & -> & Hm' & Hsub & Hsz). destruct (pk_connects _ _ _ _ _ Hp) as (hs & accs & _ & _ & _ & Hfee & _).
  apply IH; [done| |rewrite Hfee; apply i64_i64|lia]. intros x (h & Hx & Hh). apply Hs. exists h. split; [|done].
  eapply lookup_weaken; [exact Hx|apply Hsub].
Qed.

(** What the attempts leave: the transactions of the last one, after what the
    earlier ones had put into the block. *)
Record made (l : list CTransaction) (f0 : Z) (m m' : CTxMemPool) (c : collecting) (left_over new : list CTransaction) : Prop := {
  md_picked : exists f1 vw, picked (l ++ left_over) f1 vw c new /\ (mapTx m' = mapTx m -> left_over = [] /\ f1 = f0);
  md_nodup : NoDup new;
  md_pool : Forall (fun t => eligible t /\ in_pool m' t) new;
  md_left : Forall (fun t => eligible t /\ in_pool m t) left_over;
  md_sub : mapTx m' ⊆ mapTx m;
  md_ok : Mempool.pool_ok m'
}.

Lemma attempts_made n : forall l f0 m infos c m' infos', Mempool.pool_ok m -> (forall t, in_pool m t -> sound_tx t) -> i64 f0 = f0 ->
  try n l f0 m infos = Some (Some (c, m', infos')) ->
  (exists left_over new, made l f0 m m' c left_over new) /\ rows infos' = rows infos /\ seq infos' = seq infos /\ TxInfo.InTransaction infos' = false.
Proof.
  induction n as [|n IH]; intros l f0 m infos c m' infos' Hm Hs Hf; [done|]. cbn [attempts].
  destruct (attempt _ _ _ _ _ _ _ _ _ _ _ _) as [[[c1 [t|]] infos1]|] eqn:Ha; [| |done];
    destruct (attempt_picked _ _ _ _ _ _ _ Hm Hs Hf Ha) as (new & vw & Hp & Hnd & Hall & R1 & R2 & R3).
  - apply Forall_app in Hall as [Hnew Ht]. apply Forall_cons in Ht as [[_ Ht] _].
    destruct (remove_smaller t m Ht Hm) as (m1 & -> & Hm1 & Hsub & Hsz). destruct (pk_connects _ _ _ _ _ Hp) as (hs & accs & _ & _ & _ & Hfee & _).
    assert (forall x, in_pool m1 x -> in_pool m x) as Hin1.
    { intros x (h & Hx & Hh). exists h. split; [|done]. eapply lookup_weaken; [exact Hx|apply Hsub]. }
    intros H. destruct (IH (cl_vtx c1) (cl_fees c1) m1 infos1 c m' infos') as ((left & new' & [(f1 & vw1 & Q1 & _) Q2 Q3 Q4 Q5 Q6]) & S1 & S2 & S3);
      [done|intros x Hx; by apply Hs, Hin1|rewrite Hfee; apply i64_i64|done|].
    split; [|by rewrite S1, S2]. exists (new ++ left), new'. split; [|done|done| |by etrans; [|apply Hsub]|done].
    + exists f1, vw1. rewrite app_assoc, <- (pk_vtx _ _ _ _ _ Hp). split; [done|]. intros Heq. exfalso.
      rewrite Heq in Q5. by apply Hsub.
    + apply Forall_app. split; [done|]. eapply Forall_impl; [exact Q4|]. intros x [? ?]. split; [done|]. by apply Hin1.
  - intros [= <- <- <-]. rewrite app_nil_r in Hnd, Hall. split; [|done]. exists [], new. split; [|done|done|constructor|done|done].
    exists f0, vw. rewrite app_nil_r. done.
Qed.

End collected.

(** ** The block *)

Section created.
Context {B : Tx.Abi} {L : BNLib} {D : DigestLib} {E : ECLib} {G : ECGroup E} {V : EVPLib} (fTestNet : bool) (p : NetParams) (nNow : Z).
Context (draw : nat -> Z) (nKeysArg : Z) (mapCheckpoints : MapCheckpoints).
Context (fuel : nat) (place : Z -> Z) (fShutdown : bool) (rounds : nat) (rs : nat -> (nat -> Z -> Z) * (nat -> nat -> bool)) (reserveArg : option (list Z)).

(** What the coinbase pays when the fees are [nFees]. *)
Definition coinbase_value (prev : node) (fProofOfStake : bool) (nFees : Z) : Z :=
  if fProofOfStake then i64 nFees else i64 (nFees + Work.GetNextProofOfWorkReward (Some (entry prev)) true).

(** The beginning of the block: the coinbase, and the coin stake if one was
    made that is not too early. *)
Definition begins (s : node_state) (prev : node) (l : list CTransaction) (cb : CTransaction) (stake : list CTransaction) : Prop :=
  let c := st_chain s in
  l = cb :: stake /\ vin cb = [mk_txin Tx.outpoint_null [] Tx.UINT_MAX []] /\ (exists o, vout cb = [o]) /\ nLockTime cb = 0 /\
  ((stake = [] /\ nTime cb = u32 nNow) \/
   exists t nBits nInterval w w', stake = [t] /\ target p (ch_index c) prev true = Some nBits /\ earliest (ch_index c) prev <= nTime t /\ nTime cb = nTime t /\
     Stake.CreateCoinStake fTestNet p (ch_index c) (nBestHeight c) nNow fuel place (ch_db c) (st_disk s) nBits nInterval fShutdown
       rounds rs reserveArg (new_tx nNow) w = Some (true, t, w')).

Lemma search_begins s prev key nLast m w l m' w' :
  search_stake fTestNet p nNow fuel place fShutdown rounds rs reserveArg s prev (coinbase_tx nNow key) nLast m w = Some (l, m', w') ->
  exists cb stake, begins s prev l cb stake.
Proof.
  unfold search_stake. destruct (target p _ prev true) as [bits|] eqn:Ht; [|done]. cbn [mbind option_bind]. set (cb := coinbase_tx nNow key).
  assert (begins s prev [cb] cb []) as Hcb.
  { split; [done|]. split; [done|]. split; [by eexists|]. split; [done|]. by left. }
  destruct (_ <? _); [|intros [= <- <- <-]; by exists cb, []].
  destruct (Stake.CreateCoinStake _ _ _ _ _ _ _ _ _ _ _ _ _ _ _ _ _) as [[[ok t] w1]|] eqn:Hc; [|done]. cbn [mbind option_bind]. intros [= <- <- <-].
  destruct ok; [|by exists cb, []]. cbn [andb]. destruct (Z.leb_spec (earliest (ch_index (st_chain s)) prev) (nTime t)) as [Hle|]; [|by exists cb, []].
  exists (Stake.set_time cb (nTime t)), [t]. split; [done|]. split; [done|]. split; [by eexists|]. split; [done|]. right. eauto 12.
Qed.

Lemma is_stake_begins s prev l cb stake k : begins s prev l cb stake -> Forall (fun t => Tx.IsCoinStake t = false) k -> is_stake (l ++ k) = is_stake l.
Proof.
  intros (-> & _ & _ & _ & [[-> _]|(t & _ & _ & _ & _ & -> & _)]) Hk; [|done]. destruct k as [|t k]; [done|]. by apply Forall_cons in Hk as [? _].
Qed.

(** A block made on [prev], from the state [s] to [s']: [new] was collected in
    the last attempt, [left] stayed from earlier ones. *)
Record mined (s s' : node_state) (prev : node) (b : CBlock) (cb : CTransaction) (stake left new : list CTransaction) : Prop := {
  mn_vtx : vtx b = cb :: stake ++ left ++ new;
  mn_coinbase : Tx.IsCoinBase cb = true /\ nLockTime cb = 0 /\ (stake = [] -> nTime cb = u32 nNow);
  mn_stake : stake = [] \/ exists t, stake = [t] /\ earliest (ch_index (st_chain s)) prev <= nTime t;
  mn_new : NoDup new /\ Forall (fun t => eligible nNow (nBestHeight (st_chain s)) t /\ in_pool (ch_pool (st_chain s')) t /\ nTime t <= nNow) new;
  mn_left : Forall (fun t => eligible nNow (nBestHeight (st_chain s)) t /\ in_pool (ch_pool (st_chain s)) t) left /\
    (mapTx (ch_pool (st_chain s')) = mapTx (ch_pool (st_chain s)) -> left = []);
  mn_ledger : exists hs accs coins, mapM Tx.GetHash new = Some hs /\ Forall2 (Connect.account_ok p (st_disk s) (ch_db (st_chain s))) new accs /\
    Coins.apply_all (zip_with action_of new hs) (Ledger.coins_of (db_tx (ch_db (st_chain s)))) = Some coins /\
    Forall (fun a => MIN_TX_FEE <= Connect.acc_in a - Connect.acc_out a) accs /\
    exists o, vout cb = [o] /\ (mapTx (ch_pool (st_chain s')) = mapTx (ch_pool (st_chain s)) ->
      nValue o = coinbase_value prev (Block.IsProofOfStake b) (Connect.sum_fees new accs));
  mn_limits : 1000 + sumZ (tx_size <$> new) < MAX_BLOCK_SIZE_GEN /\ 100 + sumZ (Tx.GetLegacySigOpCount <$> new) < MAX_BLOCK_SIGOPS;
  mn_header : hashPrevBlock b = GetBlockIDHash prev /\ target p (ch_index (st_chain s)) prev (Block.IsProofOfStake b) = Some (nBits b) /\
    exists hashes, mapM Tx.GetHash (vtx b) = Some hashes /\ hashMerkleRoot b = Block.BuildMerkleTree hashes;
  mn_time : blk_nTime b =
    let t := u32 (Z.max (u32 (Z.max (GetMedianTimePast (ch_index (st_chain s)) (pindexBest (ch_index (st_chain s))) + 1) (Block.GetMaxTransactionTime b)))
                  (Work.bi_GetBlockTime (entry prev) - Work.nMaxClockDrift)) in
    if Block.IsProofOfStake b then t else u32 (Z.max t nNow);
  mn_state : s' = with_chain (with_infostore (ch_infos (st_chain s')) (with_pool (ch_pool (st_chain s')) (st_chain s))) s /\
    rows (ch_infos (st_chain s')) = rows (ch_infos (st_chain s)) /\ Mempool.pool_ok (ch_pool (st_chain s')) /\
    mapTx (ch_pool (st_chain s')) ⊆ mapTx (ch_pool (st_chain s))
}.

(** The coinbase gets its value. *)
Lemma fill_reward_spec prev nFees cb rest o : i64 nFees = nFees -> vin cb = [mk_txin Tx.outpoint_null [] Tx.UINT_MAX []] -> vout cb = [o] ->
  exists cb' o', fill_reward prev nFees (cb :: rest) = cb' :: rest /\ vin cb' = vin cb /\ vout cb' = [o'] /\ nTime cb' = nTime cb /\ nLockTime cb' = nLockTime cb /\
    Tx.IsCoinBase cb' = true /\ nValue o' = coinbase_value prev (is_stake (cb :: rest)) nFees.
Proof.
  intros Hf Hvi Hvo. unfold fill_reward. rewrite Hvo. do 2 eexists. split; [reflexivity|]. split; [done|]. split; [reflexivity|]. split; [done|]. split; [done|].
  split; [unfold Tx.IsCoinBase; cbn; by rewrite Hvi|]. unfold coinbase_value. destruct (is_stake (cb :: rest)); cbn [negb]; [|done].
  destruct (Z.eqb_spec nFees 0) as [->|]; done.
Qed.

Lemma fill_header_spec I prev bits l b : fill_header nNow I prev bits l = Some b ->
  vtx b = l /\ hashPrevBlock b = GetBlockIDHash prev /\ nBits b = bits /\
  (exists hashes, mapM Tx.GetHash l = Some hashes /\ hashMerkleRoot b = Block.BuildMerkleTree hashes) /\
  blk_nTime b = (let t := u32 (Z.max (u32 (Z.max (GetMedianTimePast I (pindexBest I) + 1) (Block.GetMaxTransactionTime b))) (Work.bi_GetBlockTime (entry prev) - Work.nMaxClockDrift)) in
                 if is_stake l then t else u32 (Z.max t nNow)).
Proof.
  unfold fill_header. destruct (mapM Tx.GetHash l) as [hashes|]; [|done]. cbn [mbind option_bind]. intros [= <-].
  unfold Block.GetMaxTransactionTime. destruct (is_stake l); cbn; eauto 10.
Qed.

#[local] Abbreviation create := (CreateNewBlock fTestNet p nNow draw nKeysArg mapCheckpoints fuel place fShutdown rounds rs reserveArg).

Lemma CreateNewBlock_mined fProofOfStake s m r w b s' m' r' w' :
  Mempool.pool_ok (ch_pool (st_chain s)) -> (forall t, in_pool (ch_pool (st_chain s)) t -> sound_tx t) ->
  create fProofOfStake s m r w = Some (b, s', m', r', w') ->
  exists prev cb stake left new, deref (ch_index (st_chain s)) (pindexBest (ch_index (st_chain s))) = Some prev /\ mined s s' prev b cb stake left new.
Proof.
  intros Hm Hs. unfold CreateNewBlock. destruct (KeyPool.GetReservedKey _ _ _ _ _ _) as [[[key r1] w1]|]; [|done]. cbn [mbind option_bind].
  destruct (deref _ _) as [prev|] eqn:Hprev; [|done]. cbn [mbind option_bind]. set (I := ch_index (st_chain s)) in *.
  set (ms := mk_miner _ _ _ _). assert (forall l m1 w2,
    (if fProofOfStake && negb (bi_nHeight (entry prev) <? nPoSMinHeight p)
     then search_stake fTestNet p nNow fuel place fShutdown rounds rs reserveArg s prev (coinbase_tx nNow key) (default nNow (nLastCoinStakeSearchTime m)) ms w1
     else Some ([coinbase_tx nNow key], ms, w1)) = Some (l, m1, w2) -> exists cb stake, begins s prev l cb stake) as Hbeg.
  { intros l m1 w2. destruct (_ && _); [apply search_begins|]. intros [= <- _ _]. exists (coinbase_tx nNow key), []. split; [done|]. split; [done|].
    split; [by eexists|]. split; [done|]. by left. }
  destruct (if _ && _ then _ else _) as [[[l m1] w2]|]; [|done]. cbn [mbind option_bind]. destruct (Hbeg l m1 w2 eq_refl) as (cb & stake & Hb). clear Hbeg.
  destruct (target p I prev (is_stake l)) as [bits|] eqn:Ht; [|done]. cbn [mbind option_bind].
  destruct (attempts _ _ _ _ _ _ _ _ _ _ _ _ _) as [[[[k pool] infos]|]|] eqn:Ha; [|done|done]. cbn [default from_option id mbind option_bind].
  destruct (fill_header _ _ _ _ _) as [b1|] eqn:Hh; [|done]. cbn [mbind option_bind]. intros [= <- <- <- <- <-].
  apply attempts_made in Ha as ((left & new & [(f1 & vw & Hp & Hf1) M2 M3 M4 M5 M6]) & R1 & R2 & R3); [|done..].
  pose proof (pk_vtx _ _ _ _ _ _ _ _ _ Hp) as Hv. destruct (pk_connects _ _ _ _ _ _ _ _ _ Hp) as (hs & accs & C1 & C2 & C3 & C4 & C5).
  assert (Forall (fun t => Tx.IsCoinStake t = false) (left ++ new)) as Hns.
  { apply Forall_app. split; (eapply Forall_impl; [eassumption|]); by intros t [(_ & ? & _) _]. }
  pose proof (is_stake_begins _ _ _ _ _ _ Hb Hns) as Hst. destruct Hb as (Hl & Hvi & (o & Hvo) & Hlk & Hstake).
  rewrite Hv, <- app_assoc in Hh. rewrite Hl in Hh. cbn [app] in Hh.
  destruct (fill_reward_spec prev (cl_fees k) cb (stake ++ left ++ new) o) as (cb' & o' & Hfr & F1 & F2 & F3 & F4 & F5 & F6); [rewrite C4; apply i64_i64|done|done|].
  rewrite Hfr in Hh. apply fill_header_spec in Hh as (H1 & H2 & H3 & H4 & H5).
  assert (is_stake (cb' :: stake ++ left ++ new) = is_stake l) as Hst'.
  { rewrite <- Hst, Hl. cbn [app]. by destruct (stake ++ left ++ new). }
  assert (Block.IsProofOfStake b1 = is_stake l) as Hbs by (rewrite <- Hst'; unfold Block.IsProofOfStake; by rewrite H1).
  exists prev, cb', stake, left, new. split; [done|]. split; cbn [st_chain with_chain with_infostore with_pool ch_pool ch_infos].
  - done.
  - split; [done|]. rewrite F3, F4. split; [done|]. intros ->. by destruct Hstake as [[_ ?]|(t & _ & _ & _ & _ & [=] & _)].
  - destruct Hstake as [[-> _]|(t & _ & _ & _ & _ & -> & _ & ? & _)]; [by left|right; eauto].
  - split; [done|]. pose proof (pk_time _ _ _ _ _ _ _ _ _ Hp) as Htm. rewrite Forall_forall in *. intros t Hin. destruct (M3 t Hin), (Htm t Hin). done.
  - split; [done|]. intros Heq. by apply Hf1.
  - exists hs, accs, (Ledger.coins_of (view (mapTestPool k) (ch_db (st_chain s)))). do 4 (split; [done|]). exists o'. split; [done|]. intros Heq.
    destruct (Hf1 Heq) as [_ ->]. rewrite Z.add_0_l in C4. rewrite F6, C4, Hbs. rewrite <- Hst, Hl. cbn [app]. unfold coinbase_value.
    destruct (is_stake (cb :: _)); [apply i64_i64|apply i64_add_l].
  - pose proof (pk_size _ _ _ _ _ _ _ _ _ Hp). pose proof (pk_sigops _ _ _ _ _ _ _ _ _ Hp). lia.
  - rewrite Hbs, H1, H3. done.
  - rewrite Hbs, H5, Hst'. done.
  - done.
Qed.

(** *** The rules of AcceptBlock *)

Lemma IsFinal_later best now t h T : Tx.IsFinal best now t 0 0 = true -> best <= h -> now <= T -> h <> 0 -> Tx.IsFinal best now t h T = true.
Proof.
  intros Hf Hh HT Hh0. unfold Tx.IsFinal in *. destruct (nLockTime t =? 0); [done|]. cbn [Z.eqb] in Hf. rewrite (proj2 (Z.eqb_neq h 0)) by done.
  destruct (Z.ltb_spec (nLockTime t) (if nLockTime t <? LOCKTIME_THRESHOLD then best else now)) as [Hl|Hl]; [|by case_bool].
  rewrite (proj2 (Z.ltb_lt _ _)); [done|]. destruct (nLockTime t <? LOCKTIME_THRESHOLD); [lia|]. destruct (Z.eqb_spec T 0); lia.
Qed.

Lemma max_time_bound l k : Forall (fun t => nTime t < 2 ^ 32) l -> 0 <= k < 2 ^ 32 ->
  0 <= fold_left (fun m t => Z.max m (nTime t)) l k < 2 ^ 32 /\ k <= fold_left (fun m t => Z.max m (nTime t)) l k /\
  Forall (fun t => nTime t <= fold_left (fun m t => Z.max m (nTime t)) l k) l.
Proof.
  intros Hl. revert k. induction Hl as [|t l Ht Hl IH]; intros k Hk; cbn; [repeat split; (lia || constructor)|].
  destruct (IH (Z.max k (nTime t)) ltac:(lia)) as (I1 & I2 & I3). split; [done|]. split; [lia|]. constructor; [lia|done].
Qed.

(** The clock and the times of the chain are unsigned ints. *)
Definition times_ok (I : index) (prev : node) : Prop :=
  0 <= nNow < 2 ^ 32 /\ GetMedianTimePast I (pindexBest I) < 2 ^ 32 - 1 /\ Work.bi_GetBlockTime (entry prev) < 2 ^ 32.

Lemma mined_time s s' prev b cb left new : mined s s' prev b cb [] left new -> (forall t, in_pool (ch_pool (st_chain s)) t -> sound_tx t) ->
  times_ok (ch_index (st_chain s)) prev -> Block.IsProofOfStake b = false ->
  let I := ch_index (st_chain s) in
  GetMedianTimePast I (pindexBest I) < blk_nTime b /\ Work.bi_GetBlockTime (entry prev) <= blk_nTime b + Work.nMaxClockDrift /\
  nNow <= blk_nTime b /\ Forall (fun t => nTime t <= blk_nTime b) (vtx b).
Proof.
  intros Hm Hs (T1 & T2 & T3) Hst I. pose proof (mn_time _ _ _ _ _ _ _ _ Hm) as Ht. rewrite Hst in Ht. cbv zeta in Ht. fold I in Ht.
  assert (Forall (fun t => nTime t < 2 ^ 32) (vtx b)) as Hall.
  { rewrite (mn_vtx _ _ _ _ _ _ _ _ Hm). cbn [app]. constructor; [|apply Forall_app; split].
    - destruct (mn_coinbase _ _ _ _ _ _ _ _ Hm) as (_ & _ & ->); [apply u32_range|done].
    - eapply Forall_impl; [apply (mn_left _ _ _ _ _ _ _ _ Hm)|]. intros t [_ Hi]. apply (Hs t Hi).
    - eapply Forall_impl; [apply (mn_new _ _ _ _ _ _ _ _ Hm)|]. cbn. intros t (_ & _ & Hn). lia. }
  destruct (max_time_bound (vtx b) 0 Hall ltac:(lia)) as (X1 & _ & X3). fold (Block.GetMaxTransactionTime b) in X1, X3.
  fold I in T2. unfold Work.nMaxClockDrift in *. set (mx := Block.GetMaxTransactionTime b) in *. set (mtp := GetMedianTimePast I (pindexBest I)) in *.
  rewrite (u32_small (Z.max (mtp + 1) mx)) in Ht by lia.
  rewrite (u32_small (Z.max (Z.max (mtp + 1) mx) _)) in Ht by lia. rewrite u32_small in Ht by lia.
  split; [lia|]. split; [lia|]. split; [lia|]. eapply Forall_impl; [exact X3|]. cbn. lia.
Qed.

(** A proof-of-work block passes the tests of AcceptBlock that need its
    predecessor, but for the checkpoints. *)
Lemma mined_fits s s' prev b cb left new : mined s s' prev b cb [] left new -> (forall t, in_pool (ch_pool (st_chain s)) t -> sound_tx t) ->
  times_ok (ch_index (st_chain s)) prev -> links_ok (ch_index (st_chain s)) ->
  deref (ch_index (st_chain s)) (pindexBest (ch_index (st_chain s))) = Some prev ->
  nBestHeight (st_chain s) = bi_nHeight (entry prev) -> bi_nHeight (entry prev) < 2 ^ 31 - 1 -> Block.IsProofOfStake b = false ->
  CheckHardened fTestNet mapCheckpoints (bi_nHeight (entry prev) + 1) (Block.GetIDHash b) = true ->
  CheckSync fTestNet (ch_index (st_chain s)) (st_sync s) (Block.GetIDHash b) (GetBlockIDHash prev) prev = Some true ->
  mapBlockIndex (ch_index (st_chain s)) !! hashPrevBlock b = Some prev /\
  check_context fTestNet p nNow mapCheckpoints b prev s' = Done tt.
Proof.
  intros Hm Hs Ht Hlk Hd Hbest Hh Hst Hhard Hsync.
  destruct (mined_time _ _ _ _ _ _ _ Hm Hs Ht Hst) as (M1 & M2 & M3 & M4). cbv zeta in M1.
  destruct (mn_header _ _ _ _ _ _ _ _ Hm) as (P1 & P2 & _). unfold target in P2.
  destruct (pindexBest (ch_index (st_chain s))) as [h|] eqn:Hpb; [|done]. cbn in Hd. destruct (Hlk h prev Hd) as (Hhash & Hhr & _).
  assert (hashPrevBlock b = h) as Hhp by (rewrite P1; exact Hhash). split; [by rewrite Hhp|].
  rewrite (proj1 (mn_state _ _ _ _ _ _ _ _ Hm)). unfold check_context. cbn [st_chain with_chain st_sync with_infostore with_pool ch_index nBestHeight].
  rewrite P2, Z.eqb_refl. cbn [negb]. rewrite Hhp. unfold Block.GetBlockTime.
  rewrite (proj2 (Z.leb_gt _ _)) by done. rewrite (proj2 (Z.ltb_ge _ _)) by lia. cbn [orb]. rewrite i32_small by lia.
  assert (forallb (fun t => Tx.IsFinal (nBestHeight (st_chain s)) nNow t (bi_nHeight (entry prev) + 1) (blk_nTime b)) (vtx b) = true) as ->.
  { assert (forall t, eligible nNow (nBestHeight (st_chain s)) t -> Tx.IsFinal (nBestHeight (st_chain s)) nNow t (bi_nHeight (entry prev) + 1) (blk_nTime b) = true) as Hel
      by (intros t (_ & _ & Hf); apply IsFinal_later; (done || lia)).
    apply forallb_forall. intros t. rewrite <- list_elem_of_In, (mn_vtx _ _ _ _ _ _ _ _ Hm). cbn [app]. rewrite elem_of_cons, elem_of_app. intros [->|[Hi|Hi]].
    - unfold Tx.IsFinal. destruct (mn_coinbase _ _ _ _ _ _ _ _ Hm) as (_ & -> & _). done.
    - pose proof (proj1 (mn_left _ _ _ _ _ _ _ _ Hm)) as Hl. rewrite Forall_forall in Hl. by apply Hel, Hl.
    - pose proof (proj2 (mn_new _ _ _ _ _ _ _ _ Hm)) as Hl. rewrite Forall_forall in Hl. by apply Hel, Hl. }
  cbn [negb]. rewrite Hhard. cbn [negb]. rewrite <- Hhp, P1, Hsync. done.
Qed.

Lemma mined_pow s s' prev b cb left new : mined s s' prev b cb [] left new -> Block.IsProofOfStake b = false.
Proof.
  intros Hm. unfold Block.IsProofOfStake. rewrite (mn_vtx _ _ _ _ _ _ _ _ Hm). cbn [app]. destruct (left ++ new) as [|t k] eqn:Hk; [done|].
  assert (t ∈ left ++ new) as [Hi|Hi]%elem_of_app by (rewrite Hk; by left).
  - pose proof (proj1 (mn_left _ _ _ _ _ _ _ _ Hm)) as Hl. rewrite Forall_forall in Hl. by destruct (Hl t Hi) as [(_ & ? & _) _].
  - pose proof (proj2 (mn_new _ _ _ _ _ _ _ _ Hm)) as Hl. rewrite Forall_forall in Hl. by destruct (Hl t Hi) as [(_ & ? & _) _].
Qed.


End created.

(** ** IncrementExtraNonce *)

Section nonce.
Context {B : Tx.Abi} {L : BNLib} {HL : BNLaws L} {D : DigestLib}.

Lemma small_size v : 0 <= v < 2 ^ 32 -> mpi_size v <= 5.
Proof.
  intros Hv. unfold mpi_size. case_match; [lia|]. bool_to_prop. rewrite Z.abs_eq by lia.
  assert (Z.log2 v < 32) by (apply Z.log2_lt_pow2; lia). pose proof (Z.log2_nonneg v). assert ((Z.log2 v + 1) / 8 <= 4); [|lia].
  change 4 with (32 / 8). apply Z.div_le_mono; lia.
Qed.

Lemma getvch_small v : 0 <= v < 2 ^ 32 -> BigNum.getvch v = rev (mpi_payload v) /\ (length (BigNum.getvch v) <= 5)%nat.
Proof.
  intros Hv. pose proof (small_size v Hv). rewrite BigNum.getvch_spec by lia. split; [done|]. rewrite length_rev.
  pose proof (BigNum.length_mpi_payload v). lia.
Qed.

Lemma push_small s bs : (length bs <= 5)%nat -> Script.push_data s bs = s ++ [Z.of_nat (length bs)] ++ bs.
Proof.
  intros Hl. unfold Script.push_data. rewrite (proj2 (Z.ltb_lt _ _)) by (unfold Script.OP_PUSHDATA1; lia). by rewrite u8_small by lia.
Qed.

(** The script of the coinbase has at most 12 bytes before the flags, and
    differs for different nonces. *)
Lemma extra_script_length flags t n : 0 <= t < 2 ^ 32 -> 0 <= n < 2 ^ 32 -> (length (extra_script flags t n) <= 12 + length flags)%nat.
Proof.
  intros Ht Hn. unfold extra_script, Script.push_bignum, Script.push_uint64, BigNum.setulong. rewrite BN_set_word_spec by lia.
  destruct (getvch_small n Hn) as [_ H2]. rewrite push_small, !length_app by done. cbn [length].
  destruct (_ && _); [cbn; lia|]. rewrite BigNum.setuint64_spec by lia. destruct (getvch_small t Ht) as [_ H1].
  rewrite push_small, length_app by done. cbn [length app]. lia.
Qed.

Lemma extra_script_inj flags t n n' : 0 <= n < 2 ^ 32 -> 0 <= n' < 2 ^ 32 -> extra_script flags t n = extra_script flags t n' -> n = n'.
Proof.
  intros Hn Hn'. unfold extra_script, Script.push_bignum, BigNum.setulong. rewrite !BN_set_word_spec by lia.
  destruct (getvch_small n Hn) as [G1 H1]. destruct (getvch_small n' Hn') as [G2 H2]. rewrite !push_small by done.
  intros H. apply app_inj_2 in H; [|done]. destruct H as [H _]. apply app_inv_head in H. injection H as _ H. rewrite G1, G2 in H.
  apply (f_equal (@rev Z)) in H. rewrite !rev_involutive in H. by rewrite <- (BigNum.mpi_val_payload n), H, BigNum.mpi_val_payload.
Qed.

(** IncrementExtraNonce never fails its assertion when the flags have at most 88
    bytes; it counts from one again on a new best block, leaves everything but
    the script of the coinbase and the merkle root, and two calls on one block
    give different scripts. *)
Theorem extra_nonce_counts flags b t r hashPrev n hashes : 0 <= blk_nTime b < 2 ^ 32 -> 0 <= n < 2 ^ 32 - 1 -> (length flags <= 88)%nat ->
  vtx b = t :: r -> vin t <> [] ->
  let n' := if hashPrev =? hashPrevBlock b then n + 1 else 1 in
  let t' := set_script t (extra_script flags (blk_nTime b) n') in
  mapM Tx.GetHash (t' :: r) = Some hashes ->
  IncrementExtraNonce flags b hashPrev n =
    Some (mk_block (blk_nVersion b) (hashPrevBlock b) (Block.BuildMerkleTree hashes) (blk_nTime b) (nBits b) (nNonce b) (t' :: r) (vchBlockSig b), hashPrevBlock b, n') /\
  (length (extra_script flags (blk_nTime b) n') <= 100)%nat /\
  (forall k, 0 <= k < 2 ^ 32 -> k <> n' -> extra_script flags (blk_nTime b) k <> extra_script flags (blk_nTime b) n').
Proof.
  intros Ht Hn Hf Hv Hi n' t' Hm. assert (0 <= n' < 2 ^ 32) as Hn' by (unfold n'; destruct (_ =? _); lia).
  assert (u32 ((if negb (hashPrev =? hashPrevBlock b) then 0 else n) + 1) = n') as Hu.
  { unfold n'. destruct (_ =? _); cbn [negb]; apply u32_small; lia. }
  pose proof (extra_script_length flags (blk_nTime b) n' Ht Hn') as Hl. split; [|split; [lia|]].
  - unfold IncrementExtraNonce. rewrite Hu, Hv. rewrite bool_decide_false by done. rewrite (proj2 (Z.ltb_ge _ _)) by lia. fold t'. rewrite Hm. done.
  - intros k Hk Hne Heq. by apply Hne, (extra_script_inj flags (blk_nTime b)).
Qed.

End nonce.

(** ** Hash buffers *)

(** The padding of SHA-256: a one bit, zeroes, and the length in bits, big-endian
    in the last word of the last block. *)
Definition padded (msg : list Z) : list Z :=
  let len := length msg in
  let blocks := (1 + (len + 8) / 64)%nat in
  let bits := Z.of_nat len * 8 in
  msg ++ [128] ++ replicate (64 * blocks - len - 5) 0 ++ rev (le_bytes 4 bits).

(** FormatHashBuffers copies the header with the padding of SHA-256, every word
    with its bytes reversed. *)
Theorem hash_buffers_padded b : FormatHashBuffers b = reverse_words 32 (padded (Block.header_bytes b)).
Proof.
  assert (length (Block.header_bytes b) = 80%nat) as Hl by (unfold Block.header_bytes; by rewrite !length_app, !length_le_bytes).
  revert Hl. unfold FormatHashBuffers, padded. generalize (Block.header_bytes b). intros h Hl. rewrite Hl.
  do 81 (destruct h as [|? h]; [try discriminate Hl|]); [|discriminate Hl]. reflexivity.
Qed.

(** ** CheckWork *)

Section work.
Context {B : Tx.Abi} {L : BNLib} {D : DigestLib} {E : ECLib} (fTestNet : bool) (p : NetParams) (nNow : Z).
Context (GetPoWHash : CBlock -> option (list Z)) (nLimitFreeRelay : Z) (IsFromMe : CTransaction -> bool) (pow : spec_float -> spec_float -> spec_float).
Context (mapCheckpoints : MapCheckpoints) (nFreeBytesAvailable : Z) (fInitialDownload : bool).

(** CheckWork processes a block exactly when it meets its target and extends the
    best chain; then the reserved key is used up, whether or not the block is
    accepted, and otherwise nothing changes. *)
Theorem CheckWork_processes b powHash s r w :
  let good := match work_hash GetPoWHash b powHash with
              | Some hash => negb (Block.IsProofOfWork b && Uint.op_gt hash (BigNum.getuint256 (BigNum.SetCompact (nBits b)))) && (hashPrevBlock b =? hashBestChain (st_chain s))
              | None => false
              end in
  match CheckWork fTestNet p nNow GetPoWHash nLimitFreeRelay IsFromMe pow mapCheckpoints nFreeBytesAvailable fInitialDownload b powHash s r w with
  | (o, s', r', w') =>
      if good then
        (let '(o', s1, _) := ProcessBlock fTestNet p nNow GetPoWHash nLimitFreeRelay IsFromMe pow mapCheckpoints nFreeBytesAvailable fInitialDownload false b s in
         s' = s1 /\ (o = Done tt <-> o' = Done tt)) /\
        r' = KeyPool.no_reserve /\ (fFileBacked w = true -> rk_nIndex r <> -1 -> rk_nIndex r ∉ dom (file_pool w')) /\ mapRequestCount w' !! Block.GetIDHash b = Some 0
      else o = Failed 0 /\ s' = s /\ r' = r /\ w' = w
  end.
Proof.
  cbv zeta. unfold CheckWork. destruct (work_hash GetPoWHash b powHash) as [hash|]; [|done].
  destruct (Block.IsProofOfWork b && Uint.op_gt hash _); cbn [negb andb]; [done|]. destruct (hashPrevBlock b =? _); cbn [negb]; [|done].
  unfold KeyPool.reserve_KeepKey. destruct (ProcessBlock _ _ _ _ _ _ _ _ _ _ _ _ _) as [[o s1] rq]. split; [split; [done|by destruct o as [[]| |]]|].
  split; [done|]. split; [|cbn; apply lookup_insert_eq]. intros Hfb Hi. rewrite (proj2 (Z.eqb_neq _ _)) by done. cbn [negb].
  unfold KeyPool.KeepKey. rewrite Hfb. cbn. apply not_elem_of_dom. by rewrite lookup_delete_eq.
Qed.

End work.

(** ** A block from two transactions *)

Section witnesses.
#[local] Existing Instance bn_reference.
#[local] Existing Instance toy_digests.
#[local] Existing Instance Tx.demo_abi.
#[local] Existing Instance toy_ec.
#[local] Existing Instance toy_group.
#[local] Existing Instance KeyStores.toy_evp.

(** The second spends the first, with or without information entries. *)
Definition demo_first : CTransaction := demo_spender 0 (3 * COIN).
Definition demo_first_hash : Z := Eval vm_compute in default 0 (Tx.GetHash demo_first).
Definition demo_second (infos : list CTxInfo) : CTransaction :=
  mk_tx 1 100 [mk_txin (mk_outpoint demo_first_hash 0) [] Tx.UINT_MAX infos] [mk_txout [] (2 * COIN) [Script.OP_1]] 0 Tx.no_mint.
Definition demo_txinfo : CTxInfo := mk_info (mk_infokey Tx.INFO_NORMAL [97]) [98].

Definition no_pool : CTxMemPool := mk_mempool ∅ ∅ 0.
Definition with_first : CTxMemPool := default no_pool (Mempool.addUnchecked demo_first no_pool).
Definition both (infos : list CTxInfo) : CTxMemPool := default no_pool (Mempool.addUnchecked (demo_second infos) with_first).

Definition mining_state (m : CTxMemPool) : node_state := mk_state
  (mk_chain Accept.demo_index 7 0 1 0 (mk_txdb (db_tx Ledger.demo_db) ∅ (Some 7)) (mk_store [] 0 None 0) m (mk_limiter (Work.dbl 0) 0) ∅ ∅)
  (mk_blockfiles ∅ 1) Ledger.demo_disk (st_sync demo_state) ∅ ∅ ∅.

Definition demo_rs (k : nat) : (nat -> Z -> Z) * (nat -> nat -> bool) := (fun _ _ => 0, fun _ _ => false).

Definition demo_mine (m : CTxMemPool) : option (CBlock * node_state * miner * CReserveKey * CWallet) :=
  CreateNewBlock false Accept.demo_net 1000 KeyPool.demo_draw 2 [(0, 7)] 5 id false 5 demo_rs None false (mining_state m)
    (mk_miner 0 0 0 None) KeyPool.no_reserve KeyPool.demo_wallet.

Lemma with_first_ok : Mempool.pool_ok with_first /\ mapTx with_first = {[ demo_first_hash := demo_first ]} /\
  forall o, o <> prevout (mk_txin (mk_outpoint (default 0 (Tx.GetHash demo_source)) 0) [] 0 []) -> mapNextTx with_first !! o = None.
Proof.
  destruct (Mempool.addUnchecked_ok demo_first demo_first_hash no_pool (Mempool.empty_pool_ok 0)) as (m' & Ha & Hok & Ht & Hn);
    [vm_compute; reflexivity|apply lookup_empty|apply NoDup_singleton|constructor; [apply lookup_empty|constructor]|].
  unfold with_first. rewrite Ha. split; [exact Hok|]. split; [exact Ht|]. intros o Ho. cbn [default from_option id]. rewrite Hn.
  cbn [vin demo_first demo_spender list_find]. rewrite decide_False by (intros <-; by apply Ho). reflexivity.
Qed.

Lemma both_ok : Mempool.pool_ok (both []) /\ forall t, in_pool (both []) t -> sound_tx t.
Proof.
  destruct with_first_ok as (Hok & Ht & Hn).
  destruct (Mempool.addUnchecked_ok (demo_second []) (default 0 (Tx.GetHash (demo_second []))) with_first Hok) as (m' & Ha & Hok' & Ht' & _).
  { vm_compute. reflexivity. }
  { rewrite Ht. vm_compute. reflexivity. }
  { apply NoDup_singleton. }
  { constructor; [|constructor]. apply Hn. vm_compute. discriminate. }
  unfold both. rewrite Ha. split; [exact Hok'|]. intros t (h & Hl & _). cbn [default from_option id] in Hl. rewrite Ht', Ht in Hl.
  assert (t = demo_second [] \/ t = demo_first) as [-> | ->].
  { apply lookup_insert_Some in Hl as [[_ <-]|[_ Hl]]; [by left|]. apply lookup_singleton_Some in Hl as [_ <-]. by right. }
  all: split; [repeat constructor; vm_compute; discriminate|]; vm_compute; repeat split; discriminate.
Qed.

Definition mined_block (x : option (CBlock * node_state * miner * CReserveKey * CWallet)) : option (list CTransaction * Z) :=
  '(b, _, _, _, _) ← x; t ← head (vtx b); o ← head (vout t); Some (tail (vtx b), nValue o).


(** When the information entries of a transaction fail, as they may when the
    transaction came back into the pool from a disconnected block, the
    transactions are collected again, but what the first attempt had put into
    the block and counted is still there: the first transaction is in the block
    twice and its fee of two coins is claimed twice, beside a reward of one. *)
Theorem retry_repeats :
  mined_block (demo_mine (both [demo_txinfo])) = Some ([demo_first; demo_first], 5 * COIN) /\
  mined_block (demo_mine with_first) = Some ([demo_first], 3 * COIN).
Proof. split; vm_compute; reflexivity. Qed.

End witnesses.
End Miner.
