(* ===== verification/Sync.v ===== *)
(** * The synchronized checkpoint and the best chain

    What the checks against the synchronized checkpoint mean on a well linked
    index, and that the checkpoint never leaves the best chain: the main chain
    marked by [pnext] stays part of the best chain, no reorganization goes
    below the checkpoint, and a new checkpoint is only taken over when its
    block is in the best chain. *)

From Stdlib Require Import SpecFloat.
From stdpp Require Import gmap.
From S2P Require Import Prelude Uint256 Bignum Crypto Script Interpreter Serialize Tx TxInfo Base58 Signature Solver Work Block BlockIndex Kernel Ledger ConnectBlock BlockFile Mempool Chain Reorg Util Checkpoints Accept.
Import BlockIndex Ledger Connect Chain Reorg Checkpoints Accept.

Module Sync.

(** ** The links of the main chain *)

Definition prev_of (I : index) (h : Z) : option Z := deref I (Some h) ≫= pprev.

(** Only blocks below the first of [l] have a successor. *)
Definition linked (I : index) (l : list Z) : Prop := forall h n, mapBlockIndex I !! h = Some n -> pnext n <> None -> h ∈ tail l.

Lemma linked_same_chain I J l : same_chain I J -> linked J l -> linked I l.
Proof.
  intros (_ & _ & H) Hl h n Hn Hp. specialize (H h). rewrite Hn in H. cbn in H. destruct (mapBlockIndex J !! h) as [m|] eqn:Em; [|done]. injection H as H.
  apply (Hl h m Em). by rewrite <- H.
Qed.

Lemma tail_app (u l : list Z) x : x ∈ tail l -> x ∈ tail (u ++ l).
Proof. destruct u as [|y u]; [done|]. cbn. intros H. apply elem_of_app. right. destruct l; [done|]. by right. Qed.

Lemma prev_of_same I J h : same_blocks I J -> prev_of I h = prev_of J h.
Proof.
  intros Hs. unfold prev_of. cbn. destruct (mapBlockIndex I !! h) as [n|] eqn:En.
  - destruct (same_blocks_lookup I J h n Hs En) as (m & -> & Es). cbn. by injection Es as -> _ _ _ _.
  - destruct Hs as (_ & _ & Hs). specialize (Hs h). rewrite En in Hs. by destruct (mapBlockIndex J !! h).
Qed.

Lemma link_prev_pnext nx I x h n : mapBlockIndex (link_prev nx I x) !! h = Some n ->
  exists m, mapBlockIndex I !! h = Some m /\ (prev_of I x = Some h /\ pnext n = nx \/ prev_of I x <> Some h /\ pnext n = pnext m).
Proof.
  unfold link_prev, prev_of. destruct (deref I (Some x) ≫= pprev) as [q|]; [|eauto]. cbn. destruct (decide (q = h)) as [->|Hne].
  - rewrite lookup_alter_eq. destruct (mapBlockIndex I !! h) as [m|]; [|done]. intros [= <-]. eauto.
  - rewrite lookup_alter_ne by done. intros Hn. exists n. split; [done|]. right. split; [congruence|done].
Qed.

Lemma unlink_all vd : forall I h n, mapBlockIndex (foldl (link_prev None) I vd) !! h = Some n -> pnext n <> None ->
  exists m, mapBlockIndex I !! h = Some m /\ pnext m <> None /\ forall x, x ∈ vd -> prev_of I x <> Some h.
Proof.
  induction vd as [|x vd IH]; intros I h n Hn Hp; cbn in Hn; [exists n; split; [done|]; split; [done|]; by intros x ?%elem_of_nil|].
  destruct (IH _ h n Hn Hp) as (m & Hm & Hpm & Hall). destruct (link_prev_pnext _ _ _ _ _ Hm) as (m0 & Hm0 & [[_ E0]|[Hx E0]]); [by rewrite E0 in Hpm|].
  exists m0. split; [done|]. split; [by rewrite <- E0|]. intros y [->|Hy]%elem_of_cons; [done|]. rewrite <- (prev_of_same (link_prev None I x) I); [by apply Hall|].
  apply same_blocks_link_prev.
Qed.

Lemma relink_all vc : forall I h n, mapBlockIndex (foldl (fun I h => link_prev (Some h) I h) I vc) !! h = Some n -> pnext n <> None ->
  (exists m, mapBlockIndex I !! h = Some m /\ pnext m <> None) \/ exists x, x ∈ vc /\ prev_of I x = Some h.
Proof.
  induction vc as [|x vc IH]; intros I h n Hn Hp; cbn in Hn; [left; eauto|]. destruct (IH _ h n Hn Hp) as [(m & Hm & Hpm)|(y & Hy & Ey)].
  - destruct (link_prev_pnext _ _ _ _ _ Hm) as (m0 & Hm0 & [[E1 _]|[_ E0]]); [right; exists x; split; [by left|done]|]. left. exists m0. split; [done|]. by rewrite <- E0.
  - right. exists y. split; [by right|]. by rewrite <- (prev_of_same (link_prev (Some x) I x) I) by apply same_blocks_link_prev.
Qed.

Lemma path_prev I q l x y : path I q l -> x ∈ l -> prev_of I x = Some y -> y ∈ tail l.
Proof.
  intros Hp [i Hi]%list_elem_of_lookup Hy. destruct (path_lookup I l q i x Hp Hi) as (n & Hn & Hd). unfold prev_of in Hy. cbn in Hy. rewrite Hn in Hy. cbn in Hy.
  rewrite Hy in Hd. destruct l as [|z l]; [done|]. cbn [tail]. cbn in Hd. destruct (drop i l) as [|w t] eqn:Ed; [done|]. destruct Hd as ([= <-] & _).
  apply (list_elem_of_lookup_2 _ i). pose proof (lookup_drop l i 0) as H. rewrite Ed, Nat.add_0_r in H. by rewrite <- H.
Qed.

Lemma path_pred I q l i x y : path I q l -> l !! i = Some x -> l !! S i = Some y -> prev_of I x = Some y.
Proof.
  intros Hp Hi Hy. destruct (path_lookup I l q i x Hp Hi) as (n & Hn & Hd). unfold prev_of. cbn. rewrite Hn. cbn.
  destruct (drop (S i) l) as [|w t] eqn:Ed; [apply lookup_lt_Some in Hy; apply (f_equal length) in Ed; rewrite length_drop in Ed; cbn in Ed; lia|].
  destruct Hd as (-> & _). pose proof (lookup_drop l (S i) 0) as H. rewrite Ed, Nat.add_0_r, Hy in H. done.
Qed.

(** Unlinking the old branch and linking the new one. *)
Lemma relinked I q1 q2 vd vc f r : path I q1 (vd ++ f :: r) -> path I q2 (reverse vc ++ f :: r) -> linked I (vd ++ f :: r) ->
  linked (foldl (fun I h => link_prev (Some h) I h) (foldl (link_prev None) I vd) vc) (reverse vc ++ f :: r).
Proof.
  intros H1 H2 Hl h n Hn Hp. destruct (relink_all vc _ h n Hn Hp) as [(m & Hm & Hpm)|(x & Hx & Ex)].
  - destruct (unlink_all vd _ h m Hm Hpm) as (m0 & Hm0 & Hpm0 & Hall). pose proof (Hl h m0 Hm0 Hpm0) as Hin. apply tail_app. cbn [tail].
    destruct vd as [|y vd]; [done|]. cbn [app tail] in Hin. apply list_elem_of_lookup in Hin as [i Hi]. destruct (decide (i <= length vd)%nat) as [Hle|Hgt].
    + exfalso. destruct (lookup_lt_is_Some_2 (y :: vd) i) as [x Hx]; [cbn; lia|]. apply (Hall x); [by apply (list_elem_of_lookup_2 _ i)|].
      apply (path_pred I q1 ((y :: vd) ++ f :: r) i); [done|by apply lookup_app_l_Some|done].
    + rewrite lookup_app_r in Hi by lia. apply (list_elem_of_lookup_2 _ (i - length vd - 1)). destruct (i - length vd)%nat as [|k] eqn:Ek; [lia|]. cbn in Hi.
      by replace (S k - 1)%nat with k by lia.
  - rewrite (prev_of_same _ I) in Ex by (apply (same_blocks_links (link_prev None)); intros; apply same_blocks_link_prev).
    apply (path_prev I q2 _ x h H2); [|done]. apply elem_of_app. left. by apply elem_of_reverse.
Qed.

(** ** Tracing back to a checkpoint *)

Section trace.
Context (I : index) (Hlinks : links_ok I).

Lemma trace_back_spec hs ns h l : mapBlockIndex I !! hs = Some ns -> path I (Some h) l ->
  exists n, trace_back I (bi_nHeight (entry ns)) h = Some n /\ (GetBlockIDHash n = hs <-> hs ∈ l) /\
    bi_nHeight (entry n) = Z.min (bi_nHeight (entry ns)) (height_of I h).
Proof.
  intros Hs Hp. destruct (Hlinks hs ns Hs) as (_ & [H0 _] & _). set (k := bi_nHeight (entry ns)) in *.
  assert (height_of I hs = k) as Ek by (unfold height_of; by rewrite Hs).
  destruct (climb_down_spec I Hlinks k (size (mapBlockIndex I)) h l Hp) as (h' & u & l' & E1 & -> & Hp' & Hle & Hu & Hmin);
    [pose proof (path_bound I Hlinks l h Hp); lia|done|].
  destruct (path_in_index I Hlinks l' h' Hp') as (n & Hn & Eh & _). exists n. unfold trace_back. rewrite E1. cbn [mbind option_bind]. split; [done|].
  destruct (Hlinks h' n Hn) as (Hid & _ & _). split; [|lia]. unfold GetBlockIDHash. rewrite Hid. split.
  - intros ->. apply elem_of_app. right. destruct l' as [|x l']; [done|]. destruct Hp' as ([= <-] & _). by left.
  - intros [Hin|Hin]%elem_of_app; [rewrite Forall_forall in Hu; specialize (Hu hs Hin); lia|]. destruct (path_below I Hlinks l' h' hs Hp' Hin) as [->|]; [done|lia].
Qed.

Lemma known_path h n : mapBlockIndex I !! h = Some n -> exists l, path I (Some h) l /\ h ∈ l /\ height_of I h = bi_nHeight (entry n).
Proof.
  intros Hn. destruct (links_ok_path I h n Hlinks Hn) as [l Hl]. exists (l ++ [hashGenesisBlock I]). split; [done|]. unfold height_of. rewrite Hn. split; [|done].
  destruct (l ++ _) as [|x t]; [done|]. destruct Hl as ([= <-] & _). by left.
Qed.

End trace.

Section checks.
Context (I : index) (s : checkpoints) (nSync : node) (Hl : links_ok I) (Hs : mapBlockIndex I !! hashSyncCheckpoint s = Some nSync).

(** Where the checkpoint lets a block pass. *)
Definition passes (hashBlock nHeight : Z) (l : list Z) : Prop :=
  (bi_nHeight (entry nSync) < nHeight /\ hashSyncCheckpoint s ∈ l) \/
  (nHeight = bi_nHeight (entry nSync) /\ hashBlock = hashSyncCheckpoint s) \/
  (nHeight < bi_nHeight (entry nSync) /\ is_Some (mapBlockIndex I !! hashBlock)).

Lemma CheckSync_spec hashBlock hashPrev prev l : mapBlockIndex I !! hashPrev = Some prev -> bi_nHeight (entry prev) + 1 < 2 ^ 31 -> path I (Some hashPrev) l ->
  exists r, CheckSync false I s hashBlock hashPrev prev = Some r /\ (r = true <-> passes hashBlock (bi_nHeight (entry prev) + 1) l).
Proof.
  unfold passes. set (nHeight := bi_nHeight (entry prev) + 1).
  intros Hprev Hh Hp. destruct (trace_back_spec I Hl _ nSync hashPrev l Hs Hp) as (n & E1 & Hiff & Hmin).
  assert (height_of I hashPrev = bi_nHeight (entry prev)) as Ehp by (unfold height_of; by rewrite Hprev). destruct (Hl _ _ Hprev) as (_ & [? _] & _).
  unfold CheckSync. rewrite i32_small by lia. rewrite Hs. cbn [mbind option_bind]. rewrite E1, Hmin, Ehp. eexists. split; [done|]. fold nHeight.
  destruct (Z.ltb_spec (bi_nHeight (entry nSync)) nHeight) as [Hlt|Hge]; cbn [andb].
  + rewrite (proj2 (Z.ltb_ge _ (bi_nHeight (entry nSync)))), (proj2 (Z.eqb_neq nHeight _)), (proj2 (Z.ltb_ge nHeight _)) by lia. cbn [orb andb negb].
    destruct (Z.eqb_spec (GetBlockIDHash n) (hashSyncCheckpoint s)) as [Eid|Eid]; cbn [negb].
    * split; [intros _; left; split; [done|by apply Hiff]|done].
    * split; [done|]. intros [[_ Hin]|[[? _]|[? _]]]; [by apply Hiff in Hin|lia|lia].
  + destruct (Z.eqb_spec nHeight (bi_nHeight (entry nSync))) as [Heq|Hne]; cbn [andb].
    * rewrite (proj2 (Z.ltb_ge nHeight _)) by lia. cbn [andb].
      destruct (Z.eqb_spec hashBlock (hashSyncCheckpoint s)) as [Eb|Eb]; cbn [negb]; split; try done; [by auto|]. intros [[? _]|[[_ ?]|[? _]]]; [lia|done|lia].
    * rewrite (proj2 (Z.ltb_lt nHeight _)) by lia. cbn [andb]. case_bool_decide as Hk; cbn [negb]; split; try done; [intros _; right; right; split; [lia|done]|].
      intros [[? _]|[[? _]|[_ ?]]]; [lia|done|done].
Qed.

Lemma ValidateSyncCheckpoint_spec hash n lSync l : mapBlockIndex I !! hash = Some n -> path I (Some (hashSyncCheckpoint s)) lSync -> path I (Some hash) l ->
  exists r s', ValidateSyncCheckpoint I hash s = (r, s') /\ (r = true <-> hashSyncCheckpoint s ∈ l /\ hash <> hashSyncCheckpoint s) /\
    s' = if bool_decide (hashSyncCheckpoint s ∈ l \/ hash ∈ lSync) then s else set_invalid hash s.
Proof.
  intros Hn Hps Hp. destruct (trace_back_spec I Hl _ nSync hash l Hs Hp) as (m1 & E1 & Hiff1 & _).
  destruct (trace_back_spec I Hl _ n (hashSyncCheckpoint s) lSync Hn Hps) as (m2 & E2 & Hiff2 & _).
  assert (height_of I hash = bi_nHeight (entry n)) as Eh by (unfold height_of; by rewrite Hn).
  assert (height_of I (hashSyncCheckpoint s) = bi_nHeight (entry nSync)) as Es by (unfold height_of; by rewrite Hs).
  unfold ValidateSyncCheckpoint. rewrite Hs, Hn. destruct (Z.leb_spec (bi_nHeight (entry n)) (bi_nHeight (entry nSync))) as [Hle|Hgt].
  + rewrite E2. eexists false, _. split; [done|]. assert (hashSyncCheckpoint s ∈ l -> hash = hashSyncCheckpoint s) as Hin.
    { intros Hin. destruct (path_below I Hl l hash _ Hp Hin) as [->|]; [done|lia]. }
    split; [split; [done|]; intros [H1 H2]; by rewrite Hin in H2|]. destruct (Z.eqb_spec (GetBlockIDHash m2) hash) as [Eid|Eid].
    * rewrite bool_decide_true; [done|]. right. by apply Hiff2.
    * rewrite bool_decide_false; [done|]. intros [H1|H1]; apply Eid, Hiff2; [|done]. rewrite (Hin H1) in *. destruct lSync as [|x t]; [done|]. destruct Hps as ([= <-] & _). by left.
  + rewrite E1. assert (hash ∉ lSync) as Hout by (intros Hin; destruct (path_below I Hl lSync _ _ Hps Hin) as [->|]; [rewrite Hs in Hn; injection Hn as <-; lia|lia]).
    destruct (Z.eqb_spec (GetBlockIDHash m1) (hashSyncCheckpoint s)) as [Eid|Eid]; eexists _, _; (split; [done|]).
    * apply Hiff1 in Eid. split; [|rewrite bool_decide_true; [done|by left]]. split; [|done]. intros _. split; [done|]. intros ->. rewrite Hs in Hn. injection Hn as <-. lia.
    * split; [split; [done|]; intros [H1 _]; by apply Hiff1 in H1|]. rewrite bool_decide_false; [done|]. intros [H1|H1]; [by apply Hiff1 in H1|done].
Qed.

End checks.

(** The checks against the synchronized checkpoint, on a well linked index that
    has its block.  [CheckSync] lets a block above the checkpoint pass exactly
    when the checkpoint is among its ancestors, a block at its height when it
    is the checkpoint, and a block below it when it is known already.
    [ValidateSyncCheckpoint] lets a known block become the checkpoint exactly
    when it lies above the present one in its branch; it records the block as
    invalid exactly when neither of the two is an ancestor of the other or
    equal to it, and changes nothing else. *)
Theorem sync_checks I s nSync : links_ok I -> mapBlockIndex I !! hashSyncCheckpoint s = Some nSync ->
  (forall hashBlock hashPrev prev l, mapBlockIndex I !! hashPrev = Some prev -> bi_nHeight (entry prev) + 1 < 2 ^ 31 -> path I (Some hashPrev) l ->
     exists r, CheckSync false I s hashBlock hashPrev prev = Some r /\ (r = true <-> passes I s nSync hashBlock (bi_nHeight (entry prev) + 1) l)) /\
  (forall hash n lSync l, mapBlockIndex I !! hash = Some n -> path I (Some (hashSyncCheckpoint s)) lSync -> path I (Some hash) l ->
     exists r s', ValidateSyncCheckpoint I hash s = (r, s') /\
       (r = true <-> hashSyncCheckpoint s ∈ l /\ hash <> hashSyncCheckpoint s) /\
       s' = if bool_decide (hashSyncCheckpoint s ∈ l \/ hash ∈ lSync) then s else set_invalid hash s).
Proof.
  intros Hl Hs. split.
  - intros hashBlock hashPrev prev l. by apply CheckSync_spec.
  - intros hash n lSync l. by apply (ValidateSyncCheckpoint_spec I s nSync).
Qed.

(** ** SetBestChain and the links *)

Section chain.
Context {B : Tx.Abi} {L : BNLib} {D : DigestLib} {E : ECLib} (fTestNet : bool) (p : NetParams) (d : disk).
Context (now : Z) (GetPoWHash : CBlock -> option (list Z)) (nBlocksEstimate hashSync nLimitFreeRelay : Z).
Context (IsFromMe : CTransaction -> bool) (pow : spec_float -> spec_float -> spec_float).

Abbreviation Reorganize' := (Reorganize fTestNet p d now GetPoWHash nBlocksEstimate hashSync nLimitFreeRelay IsFromMe pow).
Abbreviation SetBestChainInner' := (SetBestChainInner fTestNet p d now GetPoWHash nBlocksEstimate).
Abbreviation connect_postponed' := (connect_postponed fTestNet p d now GetPoWHash nBlocksEstimate).
Abbreviation SetBestChain' := (SetBestChain fTestNet p d now GetPoWHash nBlocksEstimate hashSync nLimitFreeRelay IsFromMe pow).

Lemma branches_split c hNew vd vc best lb ln : branches hashSync c hNew = Some (vd, vc) -> pindexBest (ch_index c) = Some best ->
  path (ch_index c) (Some best) lb -> path (ch_index c) (Some hNew) ln ->
  exists f r, lb = vd ++ f :: r /\ ln = reverse vc ++ f :: r /\ hashSync ∉ vd.
Proof.
  intros Eb Hb Hlb Hln. unfold branches in Eb. rewrite Hb in Eb. cbn [mbind option_bind] in Eb. set (fuel := S (size _)) in Eb.
  destruct (find_fork _ fuel best hNew) as [f|]; [|done]. cbn [mbind option_bind] in Eb.
  destruct (back_to _ fuel f best) as [ld|] eqn:Ed; [|done]. cbn [mbind option_bind] in Eb.
  destruct (back_to _ fuel f hNew) as [lc|] eqn:Ec; [|done]. cbn [mbind option_bind] in Eb. case_bool_decide as Hs; [done|]. injection Eb as <- <-.
  destruct (back_to_split _ _ _ _ _ _ Ed Hlb) as (r & -> & Hr). destruct (back_to_split _ _ _ _ _ _ Ec Hln) as (r' & -> & Hr').
  rewrite (path_unique _ _ _ _ Hr' Hr), reverse_involutive. destruct r as [|x r]; [done|]. destruct Hr as ([= <-] & _). by exists f, r.
Qed.

(** The blocks and the best block are as before. *)
Record keeps (c c' : chain) : Prop := {
  kp_blocks : same_blocks (ch_index c') (ch_index c);
  kp_best : pindexBest (ch_index c') = pindexBest (ch_index c);
  kp_hash : hashBestChain c' = hashBestChain c
}.

Lemma Reorganize_links c hNew c' best lb ln : pindexBest (ch_index c) = Some best -> path (ch_index c) (Some best) lb -> path (ch_index c) (Some hNew) ln ->
  linked (ch_index c) lb -> Reorganize' c hNew = (Done tt, c') ->
  keeps c c' /\ linked (ch_index c') ln /\ (hashSync ∈ lb -> hashSync ∈ ln).
Proof.
  intros Hb Hlb Hln Hl. unfold Reorganize. destruct (branches hashSync c hNew) as [[vd vc]|] eqn:Eb; [|done].
  destruct (branches_split _ _ _ _ _ _ _ Eb Hb Hlb Hln) as (f & r & -> & -> & Hsync).
  destruct (disconnect_blocks _ _ _ vd _) as [[w txs]| |] eqn:Ed; [|done..]. apply disconnect_blocks_index in Ed. cbn [wk_index] in Ed.
  destruct (connect_blocks _ _ _ _ _ _ _ vc w) as [[del| |] w'] eqn:Ec; [|done..]. apply connect_blocks_same in Ec. rewrite Ed in Ec.
  destruct (resurrect _ _ _ _ _ _ _ _ _ _ ≫= _) as [m|]; [|done]. intros [= <-]. cbn [ch_index with_pool with_index with_db with_infostore hashBestChain].
  assert (forall (f : index -> Z -> index) l I, (forall I h, pindexBest (f I h) = pindexBest I) -> pindexBest (foldl f I l) = pindexBest I) as Hfold.
  { intros g l. induction l as [|x l IH]; intros I Hg; [done|]. cbn. by rewrite IH. }
  assert (forall nx I h, pindexBest (link_prev nx I h) = pindexBest I) as Hlp by (intros; unfold link_prev; by destruct (_ ≫= _)).
  split; [split|split].
  - cbn. rewrite (same_blocks_links (fun I h => link_prev (Some h) I h)) by (intros; apply same_blocks_link_prev).
    rewrite (same_blocks_links (link_prev None)) by (intros; apply same_blocks_link_prev). apply Ec.
  - cbn. rewrite !Hfold by (intros; apply Hlp). apply Ec.
  - done.
  - assert (same_blocks (wk_index w') (ch_index c)) as Hs by apply Ec. apply (relinked _ (Some best) (Some hNew)); [by rewrite Hs|by rewrite Hs|].
    by apply (linked_same_chain _ (ch_index c)).
  - intros [?|Hin]%elem_of_app; [done|]. apply elem_of_app. by right.
Qed.

Lemma SetBestChainInner_links b h c r c' : SetBestChainInner' b h c = (r, c') ->
  match r with
  | Thrown => True
  | Failed _ => ch_index c' = ch_index c /\ hashBestChain c' = hashBestChain c
  | Done _ => prev_of (ch_index c) h <> None /\ keeps c c' /\ forall top l, path (ch_index c) (Some top) l -> h ∈ l -> linked (ch_index c) l -> linked (ch_index c') l
  end.
Proof.
  unfold SetBestChainInner. destruct (deref (ch_index c) (Some h)) as [n|] eqn:En; [|by intros [= <- <-]].
  destruct (ConnectBlock _ _ _ _ _ _ _ _ _ _ _ _) as [[[db n'] infos]| |] eqn:Ec; [| |by intros [= <- <-]].
  - destruct (ConnectBlock_node _ _ _ _ _ _ _ _ _ _ _ _ _ _ _ Ec) as [Hs Hx]. destruct (pprev n) as [q|] eqn:Eq; [|by intros [= <- <-]].
    destruct (remove_all _ _) as [m|]; [|by intros [= <- <-]]. intros [= <- <-]. cbn [ch_index with_pool with_index with_db with_infostore hashBestChain].
    assert (same_blocks (set_node h n' (ch_index c)) (ch_index c)) as Hsame by (by apply (same_blocks_set_node _ h n)).
    split; [unfold prev_of; by rewrite En; cbn; rewrite Eq|]. split; [split; cbn|].
    + by rewrite same_blocks_link_prev.
    + unfold link_prev. by destruct (_ ≫= _).
    + done.
    + intros top l Hp Hin Hl x m0 Hm0 Hpm. destruct (link_prev_pnext _ _ _ _ _ Hm0) as (m1 & Hm1 & [[E1 _]|[_ E1]]).
      * apply (path_prev (ch_index c) (Some top) l h x Hp Hin). by rewrite <- (prev_of_same _ _ h Hsame).
      * rewrite E1 in Hpm. cbn in Hm1. destruct (decide (x = h)) as [->|Hne].
        -- rewrite lookup_insert_eq in Hm1. injection Hm1 as <-. apply (Hl h n En). by rewrite <- Hx.
        -- rewrite lookup_insert_ne in Hm1 by done. by apply (Hl x m1).
  - intros [= <- <-]. unfold InvalidChainFound. by destruct (BigNum.op_gtb _ _).
Qed.

Lemma keeps_trans c1 c2 c3 : keeps c1 c2 -> keeps c2 c3 -> keeps c1 c3.
Proof. intros [A1 A2 A3] [B1 B2 B3]. split; [by rewrite B1|congruence|congruence]. Qed.

Lemma keeps_eq c c' : ch_index c' = ch_index c -> hashBestChain c' = hashBestChain c -> keeps c c'.
Proof. intros E1 E2. split; [by rewrite E1|by rewrite E1|done]. Qed.

Lemma connect_postponed_links top l todo : forall c c', path (ch_index c) (Some top) l -> (forall x, x ∈ todo -> x ∈ l) -> linked (ch_index c) l ->
  connect_postponed' todo c = (true, c') -> keeps c c' /\ linked (ch_index c') l.
Proof.
  induction todo as [|x todo IH]; intros c c' Hp Hin Hl E0; cbn [connect_postponed] in E0; [injection E0 as <-; split; [by apply keeps_eq|done]|].
  destruct (deref (ch_index c) (Some x) ≫= _) as [b|]; [|injection E0 as <-; split; [by apply keeps_eq|done]].
  destruct (SetBestChainInner' b x c) as [r c1] eqn:Ei. pose proof (SetBestChainInner_links b x c r c1 Ei) as Hi. destruct r as [[]|dos|]; [| |done].
  - destruct Hi as (_ & Hk & Hi). destruct (IH c1 c') as [H1 H2]; [by rewrite (kp_blocks _ _ Hk)|intros y Hy; apply Hin; by right| |done|].
    + apply (Hi top l Hp); [apply Hin; by left|done].
    + split; [by eapply keeps_trans|done].
  - injection E0 as <-. destruct Hi as [E1 E2]. split; [by apply keeps_eq|by rewrite E1].
Qed.

(** The best chain, with its links. *)
Record best_chain (c : chain) (l : list Z) : Prop := {
  bc_genesis : pindexGenesisBlock (ch_index c) <> None;
  bc_best : pindexBest (ch_index c) = Some (hashBestChain c);
  bc_path : path (ch_index c) (Some (hashBestChain c)) l;
  bc_linked : linked (ch_index c) l
}.

Lemma commit_best_links h c r c' l : pindexGenesisBlock (ch_index c) <> None -> path (ch_index c) (Some h) l -> linked (ch_index c) l ->
  commit_best h h c = (r, c') ->
  match r with Thrown => True | Failed _ => False | Done _ => same_blocks (ch_index c') (ch_index c) /\ hashBestChain c' = h /\ best_chain c' l end.
Proof.
  intros Hg Hp Hl. unfold commit_best. destruct (TxInfo.Commit _) as [infos|]; [|by intros [= <- <-]].
  destruct (deref _ _) as [n|]; [|by intros [= <- <-]]. intros [= <- <-].
  assert (same_blocks (ch_index (new_best h h n infos c)) (ch_index c)) as Hs by done. split; [done|]. split; [done|].
  split; [done|done| |done]. cbn [hashBestChain new_best]. by rewrite Hs.
Qed.

(** What [SetBestChain] does to the index. *)
Definition moved (h : Z) (c c' : chain) (lb : list Z) (r : outcome unit) : Prop :=
  match r with
  | Thrown => True
  | Failed _ => same_blocks (ch_index c') (ch_index c) /\ hashBestChain c' = hashBestChain c /\ best_chain c' lb
  | Done _ => exists l, same_blocks (ch_index c') (ch_index c) /\ hashBestChain c' = h /\ best_chain c' l /\ (hashSync ∈ lb -> hashSync ∈ l)
  end.

Lemma best_chain_same c c' l : best_chain c l -> same_chain (ch_index c') (ch_index c) -> hashBestChain c' = hashBestChain c -> best_chain c' l.
Proof.
  intros [H1 H2 H3 H4] Hs E0. destruct Hs as (S1 & S2 & S3). split.
  - destruct S1 as (_ & -> & _). done.
  - by rewrite S2, E0.
  - by rewrite E0, S1.
  - by apply (linked_same_chain _ (ch_index c)).
Qed.

Lemma rollback_index c : ch_index (rollback c) = ch_index c /\ hashBestChain (rollback c) = hashBestChain c.
Proof. done. Qed.

Lemma InvalidChainFound_index n c : ch_index (InvalidChainFound n c) = ch_index c /\ hashBestChain (InvalidChainFound n c) = hashBestChain c.
Proof. unfold InvalidChainFound. by destruct (BigNum.op_gtb _ _). Qed.

Lemma SetBestChain_links b h n c lb r c' : links_ok (ch_index c) -> best_chain c lb -> mapBlockIndex (ch_index c) !! h = Some n -> Block.GetIDHash b = h ->
  (forall q, pprev n = Some q -> q = hashPrevBlock b) -> SetBestChain' b h c = (r, c') -> moved h c c' lb r.
Proof.
  intros Hlinks Hbc Hn Hid Hprev. destruct (links_ok_path _ h n Hlinks Hn) as [lh0 Hph]. set (lh := lh0 ++ _) in Hph.
  unfold SetBestChain. cbn [deref mbind option_bind]. rewrite Hn, Hid. destruct (TxInfo.BeginTransaction (ch_infos c)) as [infos|]; [|by intros [= <- <-]].
  cbn [ch_index with_infostore]. rewrite (bool_decide_false (pindexGenesisBlock (ch_index c) = None)) by apply (bc_genesis c lb Hbc). cbn [andb].
  set (c0 := with_infostore infos c). assert (best_chain c0 lb) as Hbc0 by (by apply (best_chain_same c)).
  destruct (Z.eqb_spec (hashPrevBlock b) (hashBestChain c0)) as [Ep|Ep].
  - destruct (SetBestChainInner' b h c0) as [ri c1] eqn:Ei. pose proof (SetBestChainInner_links b h c0 ri c1 Ei) as Hi. destruct ri as [[]|dos|].
    + destruct Hi as (Hpn & Hk & Hi). assert (pprev n = Some (hashBestChain c)) as En.
      { unfold prev_of in Hpn. cbn in Hpn. rewrite Hn in Hpn. cbn in Hpn. destruct (pprev n) as [q|]; [|done]. by rewrite (Hprev q eq_refl), Ep. }
      assert (path (ch_index c) (Some h) (h :: lb)) as Hp by (split; [done|]; exists n; split; [done|]; rewrite En; apply (bc_path c lb Hbc)).
      assert (linked (ch_index c1) (h :: lb)) as Hl1.
      { apply (Hi h (h :: lb)); [done|by left|]. intros x m Hm Hpm. apply (tail_app [h] lb). by apply (bc_linked c lb Hbc x m). }
      intros Ec. pose proof (commit_best_links h c1 r c' (h :: lb)) as Hcb. destruct (kp_blocks _ _ Hk) as (K1 & K2 & K3).
      specialize (Hcb ltac:(rewrite K2; apply (bc_genesis c lb Hbc)) ltac:(rewrite (kp_blocks _ _ Hk); done) Hl1 Ec).
      destruct r as [[]|dos|]; [|done|done]. destruct Hcb as (C1 & C2 & C3). exists (h :: lb). split; [by rewrite C1, (kp_blocks _ _ Hk)|]. split; [done|]. split; [done|].
      by right.
    + intros [= <- <-]. destruct Hi as [E1 E2]. cbn [moved ch_index rollback with_infostore hashBestChain]. rewrite E1, E2. split; [done|]. split; [done|].
      apply (best_chain_same c); [done|by cbn; rewrite E1|done].
    + by intros [= <- <-].
  - destruct (deref (ch_index c) (pindexBest (ch_index c)) ≫= _) as [[hi pp]|] eqn:Em; [|by intros [= <- <-]].
    destruct (deref (ch_index c) (pindexBest (ch_index c))) as [nb|] eqn:Enb; [|done]. cbn [mbind option_bind] in Em.
    destruct (intermediate_split _ _ _ _ _ _ _ Em Hph) as (ri & Eri & Hri).
    destruct (Reorganize' c0 hi) as [[[]|dos|] c1] eqn:Er; [| |by intros [= <- <-]].
    + destruct (Reorganize_links c0 hi c1 (hashBestChain c) lb ri (bc_best c lb Hbc) (bc_path c lb Hbc) Hri (bc_linked c lb Hbc) Er) as (Hk1 & Hl1 & Hs1).
      destruct (connect_postponed' (reverse pp) c1) as [[] c2] eqn:Ep2; [|by intros [= <- <-]].
      destruct (connect_postponed_links h lh (reverse pp) c1 c2) as [Hk2 Hl2]; [rewrite (kp_blocks _ _ Hk1); done| | |done|].
      { intros x Hx. rewrite elem_of_reverse in Hx. rewrite Eri. apply elem_of_app. by left. }
      { intros x m Hm Hpm. rewrite Eri. apply tail_app. by apply (Hl1 x m). }
      pose proof (keeps_trans _ _ _ Hk1 Hk2) as Hk. intros Ec. destruct (kp_blocks _ _ Hk) as (K1 & K2 & K3).
      pose proof (commit_best_links h c2 r c' lh ltac:(rewrite K2; apply (bc_genesis c lb Hbc)) ltac:(rewrite (kp_blocks _ _ Hk); done) Hl2 Ec) as Hcb.
      destruct r as [[]|dos|]; [|done|done]. destruct Hcb as (C1 & C2 & C3). exists lh. split; [by rewrite C1, (kp_blocks _ _ Hk)|]. split; [done|]. split; [done|].
      intros Hin. rewrite Eri. apply elem_of_app. right. by apply Hs1.
    + intros [= <- <-]. destruct (Reorganize_failed _ _ _ _ _ _ _ _ _ _ c0 hi dos c1 Er) as (J & -> & HJ). cbn [moved].
      destruct (InvalidChainFound_index n (with_index J c0)) as [E1 E2]. cbn [rollback with_infostore ch_index hashBestChain]. rewrite E1, E2. cbn.
      split; [apply HJ|]. split; [done|]. apply (best_chain_same c); [done|cbn; by rewrite E1|cbn; by rewrite E2].
Qed.

End chain.

(** ** Ancestors *)

(** [x] is [h] or an ancestor of it. *)
Definition anc (I : index) (x h : Z) : Prop := exists l, path I (Some h) l /\ x ∈ l.

Lemma path_suffix I q l x : path I q l -> x ∈ l -> exists l1 l2, l = l1 ++ x :: l2 /\ path I (Some x) (x :: l2).
Proof.
  intros Hp [i Hi]%list_elem_of_lookup. exists (take i l), (drop (S i) l). split; [by rewrite take_drop_middle|]. split; [done|]. by apply (path_lookup I l q i x).
Qed.

Lemma anc_trans I x y z : anc I x y -> anc I y z -> anc I x z.
Proof.
  intros (l1 & H1 & Hx) (l2 & H2 & Hy). destruct (path_suffix I _ l2 y H2 Hy) as (a & b & -> & Hb). exists (a ++ y :: b). split; [done|]. apply elem_of_app. right.
  by rewrite (path_unique _ _ _ _ H1 Hb) in Hx.
Qed.

#[global] Instance anc_proper : Proper (same_blocks ==> eq ==> eq ==> iff) anc.
Proof. intros I J Hs x ? <- h ? <-. unfold anc. split; intros (l & H1 & H2); exists l; by rewrite ?Hs, <- ?Hs in *. Qed.

(** A new entry changes no path. *)
Lemma path_set_node I h n q l : mapBlockIndex I !! h = None -> path I q l -> path (set_node h n I) q l.
Proof.
  intros Hn. revert q. induction l as [|x l IH]; intros q; [done|]. intros (-> & m & Hm & Hp). split; [done|]. exists m. split; [|by apply IH].
  cbn. rewrite lookup_insert_ne; [done|]. congruence.
Qed.

Lemma same_blocks_size I J : same_blocks I J -> size (mapBlockIndex I) = size (mapBlockIndex J).
Proof.
  intros (_ & _ & Hs). rewrite <- !size_dom. f_equal. apply set_eq. intros h. rewrite !elem_of_dom. specialize (Hs h).
  destruct (mapBlockIndex I !! h), (mapBlockIndex J !! h); cbn in Hs; try done; by split; intros [? ?].
Qed.

(** ** The node *)

Section node.
Context {B : Tx.Abi} {L : BNLib} {D : DigestLib} {E : ECLib} (fTestNet : bool) (p : NetParams) (pow : spec_float -> spec_float -> spec_float).
Context (mapCheckpoints : MapCheckpoints).

(** What the block files hold for an entry has the predecessor of the entry. *)
Definition stored_ok (I : index) (d : disk) : Prop := forall h n b q, mapBlockIndex I !! h = Some n -> index_ReadFromDisk p d n = Some b -> pprev n = Some q ->
  q = hashPrevBlock b.

(** The index is well linked, the best block ends a chain that contains the
    synchronized checkpoint, and the main chain is part of it. *)
Record node_ok (s : node_state) : Prop := {
  nk_links : links_ok (ch_index (st_chain s));
  nk_stored : stored_ok (ch_index (st_chain s)) (st_disk s);
  nk_chain : exists l, best_chain (st_chain s) l /\ hashSyncCheckpoint (st_sync s) ∈ l
}.

Lemma stored_ok_same I J d : same_blocks I J -> stored_ok J d -> stored_ok I d.
Proof.
  intros Hs Hst h n b q Hn Hb Hq. destruct (same_blocks_lookup I J h n Hs Hn) as (m & Hm & Es). injection Es as E1 E2 E3 E4 _.
  apply (Hst h m b q Hm); [|by rewrite <- E1]. unfold index_ReadFromDisk, GetBlockIDHash in *. by rewrite <- E2, <- E3, <- E4.
Qed.

Lemma best_in_chain c l : best_chain c l -> hashBestChain c ∈ l.
Proof. intros [_ _ Hp _]. destruct l as [|x l]; [done|]. destruct Hp as ([= <-] & _). by left. Qed.

Lemma best_anc c l x : best_chain c l -> x ∈ l <-> anc (ch_index c) x (hashBestChain c).
Proof. intros Hbc. split; [intros Hx; exists l; split; [apply (bc_path c l Hbc)|done]|]. intros (l' & Hp & Hx). by rewrite (path_unique _ _ _ _ Hp (bc_path c l Hbc)) in Hx. Qed.

Lemma IsInMainChain_best c l h n : best_chain c l -> mapBlockIndex (ch_index c) !! h = Some n -> IsInMainChain (ch_index c) h n = true -> h ∈ l.
Proof.
  intros Hbc Hn. unfold IsInMainChain. rewrite orb_true_iff, !bool_decide_eq_true. intros [Hp|Hb].
  - pose proof (bc_linked c l Hbc h n Hn Hp) as H. destruct l; [done|]. by right.
  - rewrite (bc_best c l Hbc) in Hb. injection Hb as <-. by apply best_in_chain.
Qed.

Section operations.
Context (now : Z) (GetPoWHash : CBlock -> option (list Z)) (nLimitFreeRelay : Z) (IsFromMe : CTransaction -> bool).

Abbreviation enter_chain' := (enter_chain fTestNet p now GetPoWHash nLimitFreeRelay IsFromMe pow mapCheckpoints).

(** The chain after an operation, which keeps the checkpoint [sync] in it. *)
Definition chain_kept (sync : Z) (c c' : chain) : Prop :=
  same_blocks (ch_index c') (ch_index c) /\ exists l, best_chain c' l /\ sync ∈ l.

Lemma enter_chain_ok d sync hash c lb r c' : links_ok (ch_index c) -> stored_ok (ch_index c) d -> best_chain c lb -> sync ∈ lb ->
  enter_chain' d sync hash c = (r, c') -> r <> Thrown -> chain_kept sync c c' /\ (r = Done tt -> chain_kept hash c c').
Proof.
  intros Hl Hst Hbc Hin E0 Hr. unfold enter_chain in E0. destruct (mapBlockIndex (ch_index c) !! hash) as [n|] eqn:En; [|by injection E0 as <- <-].
  destruct (IsInMainChain (ch_index c) hash n) eqn:Em.
  { injection E0 as <- <-. split; [|intros _]; (split; [done|exists lb; split; [done|]]); [done|by apply (IsInMainChain_best c lb hash n)]. }
  destruct (index_ReadFromDisk p d n) as [b|] eqn:Eb; [|injection E0 as <- <-; split; [split; [done|by exists lb]|done]].
  destruct (SetBestChain _ _ _ _ _ _ _ _ _ _ b hash c) as [r1 c1] eqn:Es.
  assert (Block.GetIDHash b = hash) as Hid.
  { destruct (Hl hash n En) as (<- & _). unfold index_ReadFromDisk in Eb. destruct (block_ReadFromDisk p d _ _ _) as [b'|]; [|done]. cbn [mbind option_bind] in Eb.
    destruct (Z.eqb_spec (Block.GetIDHash b') (GetBlockIDHash n)) as [E1|]; [|done]. by injection Eb as <-. }
  pose proof (SetBestChain_links _ _ _ _ _ _ _ _ _ _ b hash n c lb r1 c1 Hl Hbc En Hid (fun q Hq => Hst hash n b q En Eb Hq) Es) as Hm.
  destruct r1 as [[]|dos|]; injection E0 as <- <-; [| |done].
  - destruct Hm as (l & M1 & M2 & M3 & M4). split; [split; [done|]; exists l; split; [done|by apply M4]|]. intros _. split; [done|]. exists l. split; [done|].
    rewrite <- M2. by apply best_in_chain.
  - destruct Hm as (M1 & M2 & M3). split; [split; [done|by exists lb]|done].
Qed.

(** The checkpoint [k'] is in the best chain, and [k] is an ancestor of it. *)
Definition forward (k k' : checkpoints) (c c' : chain) : Prop :=
  chain_kept (hashSyncCheckpoint k') c c' /\ (hashSyncCheckpoint k' = hashSyncCheckpoint k \/ anc (ch_index c) (hashSyncCheckpoint k) (hashSyncCheckpoint k')).

Lemma forward_stay k k' c : hashSyncCheckpoint k' = hashSyncCheckpoint k -> (exists lb, best_chain c lb /\ hashSyncCheckpoint k ∈ lb) -> forward k k' c c.
Proof. intros E0 H. split; [|by left]. split; [done|]. by rewrite E0. Qed.

(** A validated checkpoint is a known block above the present one. *)
Lemma validated I hash k k' : links_ok I -> ValidateSyncCheckpoint I hash k = (true, k') ->
  hashSyncCheckpoint k' = hashSyncCheckpoint k /\ anc I (hashSyncCheckpoint k) hash.
Proof.
  intros Hl Ev. destruct (mapBlockIndex I !! hashSyncCheckpoint k) as [ns|] eqn:Es; [|unfold ValidateSyncCheckpoint in Ev; by rewrite Es in Ev].
  destruct (mapBlockIndex I !! hash) as [n|] eqn:En; [|unfold ValidateSyncCheckpoint in Ev; by rewrite Es, En in Ev].
  destruct (known_path I Hl _ ns Es) as (ls & Hps & _). destruct (known_path I Hl _ n En) as (l & Hp & _).
  destruct (ValidateSyncCheckpoint_spec I k ns Hl Es hash n ls l En Hps Hp) as (r & s' & E1 & Hiff & E2). rewrite E1 in Ev. injection Ev as -> ->.
  destruct (proj1 Hiff eq_refl) as [Hin _]. split; [|by exists l]. rewrite E2. by destruct (bool_decide _).
Qed.

Lemma not_validated I hash k r k' : ValidateSyncCheckpoint I hash k = (r, k') -> hashSyncCheckpoint k' = hashSyncCheckpoint k.
Proof.
  unfold ValidateSyncCheckpoint. intros Ev. repeat (case_match; try by injection Ev as _ <-).
Qed.

Section checkpoint.
Context (d : disk) (c : chain) (k : checkpoints) (lb : list Z).
Context (Hl : links_ok (ch_index c)) (Hst : stored_ok (ch_index c) d) (Hbc : best_chain c lb) (Hin : hashSyncCheckpoint k ∈ lb).

(** Entering the chain of a validated checkpoint. *)
Lemma enter_validated hash k1 r c' : ValidateSyncCheckpoint (ch_index c) hash k = (true, k1) ->
  enter_chain' d (hashSyncCheckpoint k1) hash c = (r, c') -> r <> Thrown ->
  (r = Done tt -> forall k2, hashSyncCheckpoint k2 = hash -> forward k k2 c c') /\ (forall k2, hashSyncCheckpoint k2 = hashSyncCheckpoint k -> forward k k2 c c').
Proof.
  intros Ev Ee Hr. destruct (validated _ _ _ _ Hl Ev) as [E1 Ha]. rewrite E1 in Ee. destruct (enter_chain_ok d _ hash c lb r c' Hl Hst Hbc Hin Ee Hr) as [H1 H2].
  split; [intros Er k2 E2|intros k2 E2]; (split; [rewrite E2|]); [by apply H2|right; by rewrite E2|done|by left].
Qed.

Lemma AcceptPendingSyncCheckpoint_ok r c' k' :
  AcceptPendingSyncCheckpoint fTestNet p now GetPoWHash nLimitFreeRelay IsFromMe pow mapCheckpoints d c k = (r, c', k') -> r <> Thrown -> forward k k' c c'.
Proof.
  unfold AcceptPendingSyncCheckpoint. destruct (_ && _); [|intros [= <- <- <-] _; apply forward_stay; [done|by exists lb]].
  destruct (ValidateSyncCheckpoint _ _ k) as [[] k1] eqn:Ev.
  - destruct (enter_chain _ _ _ _ _ _ _ _ _ _ _ c) as [[[]|dos|] c1] eqn:Ee; intros [= <- <- <-] Hr; [| |done].
    + destruct (enter_validated _ _ _ _ Ev Ee) as [H1 _]; [done|]. by apply H1.
    + destruct (enter_validated _ _ _ _ Ev Ee) as [_ H2]; [done|]. apply H2. destruct (validated _ _ _ _ Hl Ev) as [E1 _]. by destruct (dos =? 0).
  - intros [= <- <- <-] _. apply forward_stay; [by apply not_validated in Ev|by exists lb].
Qed.

Lemma ProcessSyncCheckpoint_ok m r c' k' :
  ProcessSyncCheckpoint fTestNet p now GetPoWHash nLimitFreeRelay IsFromMe pow mapCheckpoints d m c k = (r, c', k') -> r <> Thrown -> forward k k' c c'.
Proof.
  assert (forall k', hashSyncCheckpoint k' = hashSyncCheckpoint k -> forward k k' c c) as Hstay by (intros; apply forward_stay; [done|by exists lb]).
  unfold ProcessSyncCheckpoint. destruct (CheckSignature m) as [m'|dos|]; [|intros [= <- <- <-] _; by apply Hstay|by intros [= <- <- <-]].
  destruct (mapBlockIndex _ !! hashCheckpoint m'); [|intros [= <- <- <-] _; by apply Hstay]. destruct (ValidateSyncCheckpoint _ _ k) as [[] k1] eqn:Ev.
  - destruct (enter_chain _ _ _ _ _ _ _ _ _ _ _ c) as [[[]|dos|] c1] eqn:Ee; intros [= <- <- <-] Hr; [| |done].
    + destruct (enter_validated _ _ _ _ Ev Ee) as [H1 _]; [done|]. by apply H1.
    + destruct (enter_validated _ _ _ _ Ev Ee) as [_ H2]; [done|]. apply H2. destruct (validated _ _ _ _ Hl Ev) as [E1 _]. by destruct (dos =? 0).
  - intros [= <- <- <-] _. apply Hstay. by apply not_validated in Ev.
Qed.

Lemma ResetSyncCheckpoint_ok r c' k' :
  ResetSyncCheckpoint fTestNet p now GetPoWHash nLimitFreeRelay IsFromMe pow mapCheckpoints d c k = (r, c', k') -> r <> Thrown ->
  chain_kept (hashSyncCheckpoint k') c c'.
Proof.
  set (reset := fun c k => match last_hardened mapCheckpoints (ch_index c) with None => (Failed 0, c, k) | Some hash => (Done tt, c, WriteSyncCheckpoint hash k) end).
  assert (forall c1 k1 r c2 k2, chain_kept (hashSyncCheckpoint k1) c c1 -> reset c1 k1 = (r, c2, k2) -> chain_kept (hashSyncCheckpoint k2) c c2) as Hreset.
  { intros c1 k1 r1 c2 k2 (S1 & l & Hl1 & Hin1) E0. unfold reset in E0. destruct (last_hardened _ _) as [hash|] eqn:Eh; [|injection E0 as <- <- <-; split; [done|by exists l]].
    injection E0 as <- <- <-. apply List.find_some in Eh as [_ Eh]. destruct (mapBlockIndex (ch_index c1) !! hash) as [n|] eqn:En; [|done]. split; [done|]. exists l.
    split; [done|]. by apply (IsInMainChain_best c1 l hash n). }
  assert (chain_kept (hashSyncCheckpoint k) c c) as Hc by (split; [done|by exists lb]).
  unfold ResetSyncCheckpoint. cbv zeta. fold reset. set (hash := from_option snd 0 _). destruct (mapBlockIndex _ !! hash).
  - destruct (enter_chain _ _ _ _ _ _ _ _ _ _ _ c) as [[[]|dos|] c1] eqn:Ee; [| |by intros [= <- <- <-]].
    + intros E0 _. destruct (enter_chain_ok d _ hash c lb _ c1 Hl Hst Hbc Hin Ee ltac:(done)) as [H1 _]. by apply (Hreset c1 k r).
    + intros [= <- <- <-] _. by destruct (enter_chain_ok d _ hash c lb _ c1 Hl Hst Hbc Hin Ee ltac:(done)) as [H1 _].
  - intros E0 _. by apply (Hreset c (set_pending hash null_sync k) r).
Qed.

End checkpoint.

(** *** A new entry *)

Lemma new_entry_spec b f q c prev n : mapBlockIndex (ch_index c) !! hashPrevBlock b = Some prev -> new_entry fTestNet p b f q c = Some n ->
  pprev n = Some (hashPrevBlock b) /\ pnext n = None /\ nFile n = f /\ nBlockPos n = q /\ bi_hash (entry n) = Block.GetIDHash b /\
  bi_nHeight (entry n) = bi_nHeight (entry prev) + 1.
Proof.
  intros Hprev. unfold new_entry. cbv zeta. rewrite Hprev. destruct (Work.GetBlockTrust _) as [own|]; [|done]. cbn [mbind option_bind].
  destruct (if Work.bi_IsProofOfStake _ then _ else _) as [proof|]; [|done]. cbn [mbind option_bind].
  destruct (Work.SetStakeEntropyBit _ _) as [e|] eqn:Ee; [|done]. cbn [mbind option_bind].
  destruct (Kernel.ComputeNextStakeModifier _ _ _ _) as [[modifier generated]|]; [|done]. cbn [mbind option_bind].
  destruct (Kernel.CheckStakeModifierCheckpoints _ _ _); [|done]. intros [= <-]. cbn [pprev pnext nFile nBlockPos entry bi_hash bi_nHeight].
  unfold Work.SetStakeEntropyBit in Ee. destruct (1 <? _); [done|]. injection Ee as <-.
  unfold Work.SetStakeModifier. by destruct generated.
Qed.

Lemma links_ok_set_node I h n prev : links_ok I -> mapBlockIndex I !! h = None -> bi_hash (entry n) = h -> (exists q, pprev n = Some q /\ mapBlockIndex I !! q = Some prev) ->
  bi_nHeight (entry n) = bi_nHeight (entry prev) + 1 -> Z.of_nat (size (mapBlockIndex I)) < 2 ^ 31 -> links_ok (set_node h n I).
Proof.
  intros Hl Hnone Hid (q & Hq & Hprev) Hh Hsz x m Hm. cbn in Hm. apply lookup_insert_Some in Hm as [[<- <-]|[Hne Hm]].
  - split; [done|]. destruct (Hl q prev Hprev) as (_ & ? & _). destruct (known_path I Hl q prev Hprev) as (l & Hp & _ & Eh). pose proof (path_bound I Hl l q Hp).
    split; [lia|]. rewrite Hq. exists prev. split; [|done]. cbn. rewrite lookup_insert_ne; [done|]. congruence.
  - destruct (Hl x m Hm) as (H1 & H2 & H3). split; [done|]. split; [done|]. destruct (pprev m) as [y|]; [|done]. destruct H3 as (ny & Hy & Ey). exists ny. split; [|done].
    cbn. rewrite lookup_insert_ne; [done|]. congruence.
Qed.

(** What is on disk for the entries, when a block is written. *)
Lemma stored_ok_write I d f q b : links_ok I -> stored_ok I d -> mapBlockIndex I !! Block.GetIDHash b = None -> stored_ok I (BlockFile.disk_add f q b d).
Proof.
  intros Hl Hst Hnone h m x y Hm Hx Hy. destruct (decide ((f, q) = (nFile m, nBlockPos m))) as [Ek|Ek]; unfold index_ReadFromDisk, block_ReadFromDisk in Hx;
    cbn [BlockFile.disk_add disk_blocks] in Hx.
  - rewrite <- Ek, lookup_insert_eq in Hx. cbn [mbind option_bind negb] in Hx. destruct (_ && _); [done|]. cbn [mbind option_bind] in Hx.
    destruct (Z.eqb_spec (Block.GetIDHash b) (GetBlockIDHash m)) as [E1|]; [|done]. destruct (Hl h m Hm) as (E2 & _). unfold GetBlockIDHash in E1. congruence.
  - rewrite lookup_insert_ne in Hx by done. by apply (Hst h m x y Hm).
Qed.

Lemma stored_ok_add I d f q b n : links_ok I -> stored_ok I d -> mapBlockIndex I !! Block.GetIDHash b = None -> pprev n = Some (hashPrevBlock b) -> nFile n = f -> nBlockPos n = q ->
  stored_ok (set_node (Block.GetIDHash b) n I) (BlockFile.disk_add f q b d).
Proof.
  intros Hl Hst Hnone Hp Hf Hq h m x y Hm Hx Hy. cbn in Hm. apply lookup_insert_Some in Hm as [[<- <-]|[Hne Hm]]; [|by apply (stored_ok_write I d f q b Hl Hst Hnone h m x y)].
  unfold index_ReadFromDisk, block_ReadFromDisk in Hx. cbn [BlockFile.disk_add disk_blocks] in Hx.
  rewrite Hf, Hq, lookup_insert_eq in Hx. cbn [mbind option_bind negb] in Hx. destruct (_ && _); [done|]. cbn [mbind option_bind] in Hx.
  destruct (_ =? _); [|done]. injection Hx as <-. congruence.
Qed.

Lemma best_chain_set_node c c' h n l : best_chain c l -> mapBlockIndex (ch_index c) !! h = None -> pnext n = None ->
  ch_index c' = set_node h n (ch_index c) -> hashBestChain c' = hashBestChain c -> best_chain c' l.
Proof.
  intros [H1 H2 H3 H4] Hnone Hp E1 E2. split; rewrite ?E1, ?E2.
  - done.
  - done.
  - by apply path_set_node.
  - intros x m Hm Hpm. cbn in Hm. apply lookup_insert_Some in Hm as [[<- <-]|[_ Hm]]; [done|]. by apply (H4 x m).
Qed.

(** A block is added to the index under its predecessor. *)
Lemma AddToBlockIndex_ok nBlocksEstimate hashSync d b f q c prev lb r c' : links_ok (ch_index c) -> stored_ok (ch_index c) d -> best_chain c lb -> hashSync ∈ lb ->
  mapBlockIndex (ch_index c) !! hashPrevBlock b = Some prev -> Z.of_nat (size (mapBlockIndex (ch_index c))) < 2 ^ 31 ->
  AddToBlockIndex fTestNet p (BlockFile.disk_add f q b d) now GetPoWHash nBlocksEstimate hashSync nLimitFreeRelay IsFromMe pow b f q c = (r, c') -> r <> Thrown ->
  c' = c \/ exists n, mapBlockIndex (ch_index c) !! Block.GetIDHash b = None /\ links_ok (ch_index c') /\ stored_ok (ch_index c') (BlockFile.disk_add f q b d) /\
    same_blocks (ch_index c') (set_node (Block.GetIDHash b) n (ch_index c)) /\ exists l, best_chain c' l /\ hashSync ∈ l.
Proof.
  intros Hl Hst Hbc Hin Hprev Hsz. unfold AddToBlockIndex. case_bool_decide as Hk; [intros [= <- <-]; by left|]. apply eq_None_not_Some in Hk.
  destruct (new_entry _ _ b f q c) as [n|] eqn:En; [|intros [= <- <-]; by left]. destruct (new_entry_spec b f q c prev n Hprev En) as (N1 & N2 & N3 & N4 & N5 & N6).
  set (c0 := mk_chain (set_node _ _ _) _ _ _ _ _ _ _ _ _ _). intros E0 Hr. right. exists n. split; [done|].
  assert (links_ok (ch_index c0)) as Hl0 by (apply (links_ok_set_node _ _ n prev); eauto).
  assert (stored_ok (ch_index c0) (BlockFile.disk_add f q b d)) as Hst0 by (by apply stored_ok_add).
  assert (best_chain c0 lb) as Hbc0 by (by apply (best_chain_set_node c c0 (Block.GetIDHash b) n)).
  assert (forall c1, same_blocks (ch_index c1) (ch_index c0) -> links_ok (ch_index c1) /\ stored_ok (ch_index c1) (BlockFile.disk_add f q b d)) as Hsame.
  { intros c1 Hs. split; [apply (links_ok_same (ch_index c0)); [by symmetry|done]|by apply (stored_ok_same _ (ch_index c0))]. }
  destruct (BigNum.op_gtb _ _); [|injection E0 as <- <-; split; [done|]; split; [done|]; split; [done|by exists lb]].
  assert (mapBlockIndex (ch_index c0) !! Block.GetIDHash b = Some n) as Hn0 by (cbn; by rewrite lookup_insert_eq).
  pose proof (SetBestChain_links _ _ _ _ _ _ _ _ _ _ b _ n c0 lb r c' Hl0 Hbc0 Hn0 eq_refl ltac:(intros y Hy; congruence) E0) as Hm. destruct r as [[]|dos|]; [| |done].
  - destruct Hm as (l & M1 & M2 & M3 & M4). destruct (Hsame c' M1) as [A1 A2]. split; [done|]. split; [done|]. split; [done|]. exists l. split; [done|by apply M4].
  - destruct Hm as (M1 & M2 & M3). destruct (Hsame c' M1) as [A1 A2]. split; [done|]. split; [done|]. split; [done|]. by exists lb.
Qed.

(** *** Accepting blocks *)

Context (nFreeBytesAvailable : Z) (fInitialDownload : bool).

Abbreviation AcceptBlock' := (AcceptBlock fTestNet p now GetPoWHash nLimitFreeRelay IsFromMe pow mapCheckpoints nFreeBytesAvailable).

(** The node stays in order, with every ancestor of its checkpoint, and has at
    most [n] more entries. *)
Record advances (n : nat) (s s' : node_state) : Prop := {
  av_ok : node_ok s';
  av_anc : forall x, anc (ch_index (st_chain s)) x (hashSyncCheckpoint (st_sync s)) -> anc (ch_index (st_chain s')) x (hashSyncCheckpoint (st_sync s'));
  av_size : (size (mapBlockIndex (ch_index (st_chain s'))) <= size (mapBlockIndex (ch_index (st_chain s))) + n)%nat
}.

Lemma advances_refl n s : node_ok s -> advances n s s.
Proof. intros Hok. split; [done|done|lia]. Qed.

Lemma advances_trans n m s1 s2 s3 : advances n s1 s2 -> advances m s2 s3 -> advances (n + m) s1 s3.
Proof. intros [A1 A2 A3] [B1 B2 B3]. split; [done|auto|lia]. Qed.

Lemma advances_le n m s s' : (n <= m)%nat -> advances n s s' -> advances m s s'.
Proof. intros Hle [A1 A2 A3]. split; [done|done|lia]. Qed.

Lemma anc_set_node I h n x y : mapBlockIndex I !! h = None -> anc I x y -> anc (set_node h n I) x y.
Proof. intros Hn (l & Hp & Hx). exists l. split; [by apply path_set_node|done]. Qed.

Lemma AcceptBlock_ok b s r s' : node_ok s -> Z.of_nat (size (mapBlockIndex (ch_index (st_chain s)))) < 2 ^ 31 -> AcceptBlock' b s = (r, s') -> r <> Thrown ->
  advances 1 s s'.
Proof.
  intros Hok Hsz E0 Hr. pose proof Hok as [Hl Hst (lb & Hbc & Hin)]. pose proof (advances_refl 1 s Hok) as Hrefl. unfold AcceptBlock in E0.
  case_bool_decide as Hk; [by injection E0 as <- <-|]. apply eq_None_not_Some in Hk.
  destruct (mapBlockIndex _ !! hashPrevBlock b) as [prev|] eqn:Hprev; [|by injection E0 as <- <-]. destruct (check_context _ _ _ _ b prev s); [|by injection E0 as <- <-..].
  destruct (GetSerializeSize _ b); [|by injection E0 as <- <-]. destruct (negb _); [by injection E0 as <- <-|].
  destruct (BlockFile.WriteToDisk _ _ _) as [[[f q] fs]|]; [|by injection E0 as <- <-]. set (d := BlockFile.disk_add f q b (st_disk s)) in *.
  destruct (AddToBlockIndex _ _ _ _ _ _ _ _ _ _ _ _ _ _) as [ra c1] eqn:Ea.
  assert (ra <> Thrown) as Hra by (intros ->; by injection E0 as <- <-).
  assert (advances 1 s (with_chain c1 (with_files fs d s))) as Hadd.
  { destruct (AddToBlockIndex_ok _ _ _ b f q _ prev lb ra c1 Hl Hst Hbc Hin Hprev Hsz Ea Hra) as [->|(n & _ & A1 & A2 & A3 & A4)].
    - split; [split; [done|by apply stored_ok_write|by exists lb]|done|cbn; lia].
    - split; [by split| |].
      + intros x Hx. cbn [st_chain st_sync with_chain with_files]. rewrite A3. by apply anc_set_node.
      + cbn [st_chain with_chain]. rewrite (same_blocks_size _ _ A3). cbn [set_node mapBlockIndex]. rewrite map_size_insert_None by done. lia. }
  destruct ra as [[]|dos|]; [|by injection E0 as <- <-|done].
  destruct (AcceptPendingSyncCheckpoint _ _ _ _ _ _ _ _ d c1 (st_sync s)) as [[rp c2] k] eqn:Ep.
  assert (rp <> Thrown) as Hrp by (intros ->; by injection E0 as <- <-).
  destruct Hadd as [[B1 B2 (l1 & B3 & B4)] B5 B6]. cbn [st_chain st_sync st_disk with_chain with_files] in *.
  destruct (AcceptPendingSyncCheckpoint_ok d c1 (st_sync s) l1 B1 B2 B3 B4 rp c2 k Ep Hrp) as [(P1 & P2) P3].
  assert (s' = with_sync k (with_chain c2 (with_files fs d s))) as -> by (by destruct rp; injection E0 as _ <-).
  split; cbn [st_chain st_sync st_disk with_chain with_files with_sync].
  - split; cbn [st_chain st_sync st_disk with_chain with_files with_sync]; [by apply (links_ok_same (ch_index c1)); [symmetry|]|by apply (stored_ok_same _ (ch_index c1))|done].
  - intros x Hx. rewrite P1. destruct P3 as [->|P3]; [by apply B5|]. apply (anc_trans _ _ (hashSyncCheckpoint (st_sync s))); [by apply B5|done].
  - rewrite (same_blocks_size _ _ P1). lia.
Qed.

Abbreviation accept_orphans' := (accept_orphans fTestNet p now GetPoWHash nLimitFreeRelay IsFromMe pow mapCheckpoints nFreeBytesAvailable).
Abbreviation work_queue' := (work_queue fTestNet p now GetPoWHash nLimitFreeRelay IsFromMe pow mapCheckpoints nFreeBytesAvailable).
Abbreviation ProcessBlock' := (ProcessBlock fTestNet p now GetPoWHash nLimitFreeRelay IsFromMe pow mapCheckpoints nFreeBytesAvailable fInitialDownload).

(** The orphan maps do not matter. *)
Lemma advances_orphans n s s' m mm seen : advances n s s' -> advances n s (with_orphans m mm seen s').
Proof. by intros [[A1 A2 A3] A4 A5]. Qed.

Lemma accept_orphans_ok l : forall s r s', node_ok s -> Z.of_nat (size (mapBlockIndex (ch_index (st_chain s))) + length l) <= 2 ^ 31 ->
  accept_orphans' l s = (r, s') -> r <> Thrown -> advances (length l) s s'.
Proof.
  induction l as [|b l IH]; intros s r s' Hok Hsz E0 Hr; cbn [accept_orphans] in E0; [injection E0 as <- <-; by apply advances_refl|]. cbn [length] in *.
  destruct (AcceptBlock' b s) as [ra s1] eqn:Ea. assert (ra <> Thrown) as Hra by (intros ->; by injection E0 as <- <-).
  pose proof (AcceptBlock_ok b s ra s1 Hok ltac:(lia) Ea Hra) as H1. pose proof (advances_orphans 1 s s1 _ _ _ H1 : advances 1 s (erase_orphan b s1)) as H2.
  destruct (accept_orphans' l (erase_orphan b s1)) as [r2 s2] eqn:E1. assert (s' = s2 /\ r2 <> Thrown) as [-> Hr2].
  { destruct ra; [..|done]; destruct r2; injection E0 as <- <-; done. }
  apply (advances_trans 1 (length l) s (erase_orphan b s1)); [done|]. apply (IH _ r2); [apply H2| |done|done]. pose proof (av_size _ _ _ H2). lia.
Qed.

(** The number of entries and of waiting blocks together stays within an int. *)
Lemma work_queue_ok fuel : forall queue s r s', node_ok s -> Z.of_nat (size (mapBlockIndex (ch_index (st_chain s))) + waiting s) <= 2 ^ 31 ->
  work_queue' fuel queue s = (r, s') -> r <> Thrown -> exists n, advances n s s'.
Proof.
  induction fuel as [|fuel IH]; intros [|hashPrev queue] s r s' Hok Hsz E0 Hr; cbn [work_queue] in E0;
    [by injection E0 as <- <-; exists 0%nat; apply advances_refl..|].
  destruct (accept_orphans' _ s) as [r1 s1] eqn:Ea. assert (r1 <> Thrown) as Hr1 by (intros ->; by injection E0 as <- <-).
  destruct r1 as [q|dos|]; [|by apply accept_orphans_total in Ea|done]. destruct (accept_orphans_spec _ _ _ _ _ _ _ _ _ _ _ _ _ Ea) as (A1 & _ & _).
  pose proof (waiting_delete s s1 hashPrev A1) as Hw. set (l := default [] _) in *. set (s2 := with_orphans _ _ _ s1) in *.
  assert (advances (length l) s s2) as H1 by (apply advances_orphans; apply (accept_orphans_ok l s (Done q)); [done|lia|done|done]).
  destruct (work_queue' fuel (queue ++ q) s2) as [r3 s3] eqn:Ew. assert (s' = s3 /\ r3 <> Thrown) as [-> Hr3] by (destruct r3; injection E0 as <- <-; done).
  destruct (IH (queue ++ q) s2 r3 s3) as [n Hn]; [apply H1|pose proof (av_size _ _ _ H1); lia|done|done|]. exists (length l + n)%nat. by apply (advances_trans _ _ s s2).
Qed.

Lemma note_stake_ok hash hp s : node_ok s -> advances 0 s (note_stake hash hp s) /\ waiting (note_stake hash hp s) = waiting s.
Proof.
  intros Hok. unfold note_stake. destruct (bool_decide _); [split; [by apply advances_refl|done]|]. split; [|done]. destruct Hok as [H1 H2 (l & H3 & H4)].
  split; [split; [done|done|]; exists l; split; [|done]; by apply (best_chain_same (st_chain s))|done|cbn; lia].
Qed.

(** Room for the block and those that wait. *)
Definition room (s : node_state) : Prop := Z.of_nat (size (mapBlockIndex (ch_index (st_chain s))) + waiting s) < 2 ^ 31.

Lemma ProcessBlock_ok from b s r s' asked : node_ok s -> room s -> ProcessBlock' from b s = (r, s', asked) -> r <> Thrown -> exists n, advances n s s'.
Proof.
  intros Hok Hroom E0 Hr. assert (exists n, advances n s s) as Hrefl by (exists 0%nat; by apply advances_refl). unfold ProcessBlock, room in *.
  destruct (bool_decide _); [by injection E0 as <- <- <-|]. destruct (bool_decide _); [by injection E0 as <- <- <-|]. destruct (duplicate_stake _ _ _ _); [by injection E0 as <- <- <-|].
  destruct (Block.CheckBlock _ _ _ _ false b); [|by injection E0 as <- <- <-..].
  destruct (check_stake _ _ _ b s) as [s1|dos|] eqn:Es; [|by injection E0 as <- <- <-..].
  assert (advances 0 s s1 /\ waiting s1 = waiting s) as [H1 Hw1].
  { unfold check_stake in Es. destruct (Block.IsProofOfStake b); [|injection Es as <-; split; [by apply advances_refl|done]]. destruct (vtx b !! 1%nat); [|done].
    destruct (CheckProofOfStake _ _ _ _ _ _ _); [|done..]. injection Es as <-. by apply note_stake_ok. }
  pose proof (av_size _ _ _ H1) as Hs1. destruct (Block.CheckBlock _ _ _ _ true b); [|injection E0 as <- <- <-; by exists 0%nat..]. destruct (bool_decide _).
  - destruct (duplicate_stake _ _ _ _); injection E0 as <- <- <-; exists 0%nat; [done|by apply advances_orphans].
  - destruct (AcceptBlock' b s1) as [ra s2] eqn:Ea. assert (ra <> Thrown) as Hra by (intros ->; by injection E0 as <- <- <-).
    pose proof (advances_trans 0 1 s s1 s2 H1 (AcceptBlock_ok b s1 ra s2 (av_ok _ _ _ H1) ltac:(lia) Ea Hra)) as H2. pose proof (av_size _ _ _ H2) as Hs2.
    destruct ra as [[]|dos|]; [|injection E0 as <- <- <-; by exists 1%nat|done].
    destruct (AcceptBlock_orphans _ _ _ _ _ _ _ _ _ _ _ _ _ Ea) as (_ & O2 & _). assert (waiting s2 = waiting s1) as Hw2 by (unfold waiting; by rewrite O2).
    destruct (work_queue' _ _ s2) as [rw s3] eqn:Ew. assert (s' = s3 /\ rw <> Thrown) as [-> Hrw] by (destruct rw; injection E0 as <- <- _; done).
    destruct (work_queue_ok _ _ s2 rw s3 (av_ok _ _ _ H2) ltac:(lia) Ew Hrw) as [n Hn]. exists (1 + n)%nat. by apply (advances_trans 1 n s s2).
Qed.

End operations.

(** ** Every sequence of operations *)

(** The operations on the node that come from outside: a block or a checkpoint
    message arrives, or, when [resets], the checkpoint is reset.  The time and
    the surroundings change from one to the next.  A step ends without an
    exception. *)
Inductive step (resets : bool) : node_state -> node_state -> Prop :=
  | step_block now GetPoWHash nLimitFreeRelay IsFromMe nFree fInitial from b s r s' asked :
      room s -> ProcessBlock fTestNet p now GetPoWHash nLimitFreeRelay IsFromMe pow mapCheckpoints nFree fInitial from b s = (r, s', asked) -> r <> Thrown ->
      step resets s s'
  | step_sync now GetPoWHash nLimitFreeRelay IsFromMe m s r c k :
      ProcessSyncCheckpoint fTestNet p now GetPoWHash nLimitFreeRelay IsFromMe pow mapCheckpoints (st_disk s) m (st_chain s) (st_sync s) = (r, c, k) -> r <> Thrown ->
      step resets s (with_sync k (with_chain c s))
  | step_reset now GetPoWHash nLimitFreeRelay IsFromMe s r c k : resets = true ->
      ResetSyncCheckpoint fTestNet p now GetPoWHash nLimitFreeRelay IsFromMe pow mapCheckpoints (st_disk s) (st_chain s) (st_sync s) = (r, c, k) -> r <> Thrown ->
      step resets s (with_sync k (with_chain c s)).

Lemma chain_kept_ok k c s : node_ok s -> chain_kept (hashSyncCheckpoint k) (st_chain s) c -> node_ok (with_sync k (with_chain c s)).
Proof.
  intros [H1 H2 _] (H3 & H4). split; cbn [st_chain st_sync st_disk with_chain with_sync]; [|by apply (stored_ok_same _ (ch_index (st_chain s)))|done].
  apply (links_ok_same (ch_index (st_chain s))); [by symmetry|done].
Qed.

Lemma step_ok resets s s' : node_ok s -> step resets s s' -> node_ok s' /\
  (resets = false -> forall x, anc (ch_index (st_chain s)) x (hashSyncCheckpoint (st_sync s)) -> anc (ch_index (st_chain s')) x (hashSyncCheckpoint (st_sync s'))).
Proof.
  intros Hok Hs. pose proof Hok as [Hl Hst (lb & Hbc & Hin)]. destruct Hs as [????????????? E0 Hr|????????? E0 Hr|???????? Hres E0 Hr].
  - destruct (ProcessBlock_ok _ _ _ _ _ _ _ _ _ _ _ _ Hok ltac:(eassumption) E0 Hr) as [n [A1 A2 _]]. by split.
  - destruct (ProcessSyncCheckpoint_ok _ _ _ _ _ _ _ _ Hl Hst Hbc Hin _ _ _ _ E0 Hr) as [H1 H2]. split; [by apply chain_kept_ok|]. intros _ x Hx.
    cbn [st_chain st_sync with_chain with_sync]. destruct H1 as [H1 _]. rewrite H1. destruct H2 as [->|H2]; [done|]. by eapply anc_trans.
  - split; [|by rewrite Hres]. apply chain_kept_ok; [done|]. by eapply ResetSyncCheckpoint_ok.
Qed.

(** C2: The synchronized checkpoint.  Whatever blocks and checkpoint messages
    arrive, in whatever order, the synchronized checkpoint stays a block of
    the best chain, the index stays well linked and the blocks with a
    successor stay part of the best chain.  And as long as the checkpoint is
    not reset it only moves to descendants: a block that was the checkpoint,
    or an ancestor of it, never leaves the best chain. *)
Theorem checkpoint_kept resets s s' : node_ok s -> rtc (step resets) s s' -> node_ok s' /\
  (resets = false -> forall x, anc (ch_index (st_chain s)) x (hashSyncCheckpoint (st_sync s)) -> anc (ch_index (st_chain s')) x (hashBestChain (st_chain s'))).
Proof.
  intros Hok Hs. assert (node_ok s' /\
    (resets = false -> forall x, anc (ch_index (st_chain s)) x (hashSyncCheckpoint (st_sync s)) -> anc (ch_index (st_chain s')) x (hashSyncCheckpoint (st_sync s')))) as [H1 H2].
  { revert Hok. induction Hs as [s|s1 s2 s3 H12 _ IH]; intros Hok; [done|]. destruct (step_ok resets s1 s2 Hok H12) as [A1 A2]. destruct (IH A1) as [B1 B2].
    split; [done|]. intros Hf x Hx. by apply (B2 Hf), (A2 Hf). }
  split; [done|]. intros Hf x Hx. apply (anc_trans _ _ (hashSyncCheckpoint (st_sync s'))); [by apply H2|]. destruct (nk_chain s' H1) as (l & Hbc & Hin).
  by apply (best_anc _ l).
Qed.

End node.

Section witnesses.
#[local] Existing Instance bn_reference.
#[local] Existing Instance toy_digests.
#[local] Existing Instance Tx.demo_abi.
#[local] Existing Instance Sig.demo_ec.

(** The checkpoint 7 below A. *)
Lemma sync_checks_witness : exists r, CheckSync false fork_index (mk_checkpoints 7 0 null_sync null_sync 0 7) 99 hash_A (fork_node hash_A 2 1 1 (Some 7) None) = Some r /\
  (r = true <-> passes fork_index (mk_checkpoints 7 0 null_sync null_sync 0 7) (fork_node 7 0 0 1 None (Some hash_A)) 99 2 [hash_A; 7]).
Proof.
  assert (links_ok fork_index) as Hl by (apply links_okb_sound; vm_compute; reflexivity).
  assert (mapBlockIndex fork_index !! 7 = Some (fork_node 7 0 0 1 None (Some hash_A))) as H7 by (vm_compute; reflexivity).
  assert (mapBlockIndex fork_index !! hash_A = Some (fork_node hash_A 2 1 1 (Some 7) None)) as HA by (vm_compute; reflexivity).
  exact (proj1 (sync_checks fork_index (mk_checkpoints 7 0 null_sync null_sync 0 7) _ Hl H7) 99 hash_A _ [hash_A; 7] HA eq_refl fork_path_A).
Defined.

Lemma demo_node_ok : node_ok demo_net demo_state.
Proof.
  split.
  - apply links_okb_sound. vm_compute. reflexivity.
  - intros h n b q Hn Hb _. unfold index_ReadFromDisk, block_ReadFromDisk in Hb. discriminate Hb.
  - exists [7]. split; [|by left]. split; [discriminate|reflexivity|split; [done|]; exists demo_genesis; by split|].
    intros h n Hn Hp. cbn in Hn. apply lookup_singleton_Some in Hn as [<- <-]. by destruct Hp.
Qed.

(** Two blocks arrive in the wrong order. *)
Lemma checkpoint_kept_witness : exists s', hashBestChain (st_chain s') = hash_Y2 /\ node_ok demo_net s' /\ anc (ch_index (st_chain s')) 7 hash_Y2.
Proof.
  pose (seen (x : outcome unit * node_state * list request) := (x.1.1, hashBestChain (st_chain x.1.2))).
  assert (seen (demo_receive block_Y1 (demo_receive block_Y2 demo_state).1.2) = (Done tt, hash_Y2)) as Hs2 by (vm_compute; reflexivity).
  assert (seen (demo_receive block_Y2 demo_state) = (Done tt, 7)) as Hs1 by (vm_compute; reflexivity).
  assert ((Z.of_nat (size (mapBlockIndex (ch_index (st_chain (demo_receive block_Y2 demo_state).1.2))) + waiting (demo_receive block_Y2 demo_state).1.2) <? 2 ^ 31) = true) as Hr1
    by (vm_compute; reflexivity).
  assert ((Z.of_nat (size (mapBlockIndex (ch_index (st_chain demo_state))) + waiting demo_state) <? 2 ^ 31) = true) as Hr0 by (vm_compute; reflexivity).
  destruct (demo_receive block_Y2 demo_state) as [[r1 s1] a1] eqn:E1. cbn [fst snd] in Hs2, Hr1.
  destruct (demo_receive block_Y1 s1) as [[r2 s2] a2] eqn:E2. unfold seen in Hs1, Hs2. cbn [fst snd] in Hs1, Hs2. injection Hs1 as -> _. injection Hs2 as -> Hh.
  apply Z.ltb_lt in Hr0, Hr1. unfold demo_receive in E1, E2.
  assert (rtc (step false demo_net (fun x _ => x) [(0, 7)] false) demo_state s2) as Hsteps.
  { eapply rtc_l; [eapply step_block; [exact Hr0|exact E1|discriminate]|]. eapply rtc_once. eapply step_block; [exact Hr1|exact E2|discriminate]. }
  destruct (checkpoint_kept false demo_net (fun x _ => x) [(0, 7)] false demo_state s2 demo_node_ok Hsteps) as [H1 H2].
  exists s2. split; [exact Hh|]. split; [exact H1|]. rewrite <- Hh. apply H2; [reflexivity|]. exists [7]. split; [|by left].
  split; [reflexivity|]. exists demo_genesis. by split.
Defined.

End witnesses.

End Sync.
